(* ===== verification/_CoqProject ===== *)
-Q . S2P
Prelude.v
JsString.v
JsArray.v
JsUri.v
JsNumber.v
BrowserUtils.v
JsJson.v
Official.v
Router.v
Availability.v
PasswordStrength.v
I18n.v
LanguageSwitch.v
AccountLanguage.v
ErrorText.v
Passkey.v
DatabaseDsn.v
Captcha.v
Api.v
I18nCatalog.v
UpdatePackage.v
ChunkedUpload.v
UploadList.v
UploadQueue.v
LegalConsent.v
LoginRoute.v
Permissions.v
MfaLogin.v
Session.v
UserProfiles.v
ProfileRoutes.v
RepositoryFormats.v
FileList.v
Breadcrumb.v
AppRoutes.v
DirectoryBrowser.v
Pages.v
RepositorySettings.v
TagList.v
Messages.v
Markdown.v
PackageParts.v
CargoPage.v
CargoCatalog.v
CargoRepository.v
NpmPackage.v
NpmRepository.v
DockerImage.v
DockerRepository.v
UserSuggestions.v
