(* ===== verification/Prelude.v ===== *)
(** * RenoP: the browser side of a package repository

    RenoP is a repository server for Maven, Cargo, npm, Docker and Git artifacts.  Its JavaScript is the management
    site ([src/internal/service/frontend/renop-html/js/], written [js/] below), the public site with the downloads
    ([src/web/js/]), the library both share ([src/packages/renop-ui/js/]) and the build scripts
    ([src/scripts/]).  This library models the parts of it that decide something: protocols with the server,
    state machines with overlapping requests, codecs, and the functions that choose what is shown.

    ** How the sources are modelled

    A string is a list of UTF-16 units ([JsString.jstr]); URI coding ([JsUri]), number syntax and doubles ([JsNumber]),
    sorting ([JsArray]) and JSON values ([JsJson]) follow the ECMAScript text and are executable.  What runs between two
    [await]s is one step of a step function [event -> state -> state]; the answer of the server, a timer, a message, a
    click is an event, so the theorems that quantify over lists of events cover every interleaving.  Promises,
    calls and elements that outlive a step are numbers with a table in the state; a log in the state lists what a step
    sends or announces.  [run_invariant] and [run_app] below carry the rule inductions.

    Code outside the repository is a parameter: the URL parser ([LoginRoute.UrlApi] with its laws [WebUrl]), Unicode
    lower-casing ([JsString.UnicodeCase]), collation, codecs, digests, and the server.  The laws a theorem needs are its
    hypotheses, and its witness instantiates them.

    ** Components

    - Hosted updates ([UpdatePackage]: [web/js/lib/update-package.js], its worker and [brotli-zip.js]): workers, byte
      ranges, reassembly, digests.  The ranges partition the file, a result is the file or an error.
    - Uploads: [ChunkedUpload] ([js/chunked-upload.js], the pool of part uploads with retries; its runs terminate and
      close the server's session), [UploadList] and [UploadQueue] ([js/browser/upload.js], the pending files, their list,
      the batch a click sends, detached signatures).
    - Download site: [Official] ([web/js/lib/official.js], platforms and releases), [Router] ([web/js/router.js],
      navigation with leave animations and clean-ups).
    - Repository browser: [BrowserUtils] ([js/browser/utils.js], paths, versions, list preferences), [FileList] and
      [Breadcrumb] ([js/browser.js], the rows of a directory and the trail above it), [RepositoryFormats]
      ([js/repository-formats.js], the engines and their views), [DirectoryBrowser] ([js/browser.js], loads with
      overlapping requests, panels, deletions), which is built on the other four.
    - Shell of the site: [AppRoutes] ([js/main.js]), which page an address shows to whom; its state has [LoginRoute]'s
      history, and its steps call [LoginRoute], [ProfileRoutes], [LegalConsent] and [Permissions].
    - Sign-in and session: [LegalConsent], [LoginRoute], [Permissions], [MfaLogin], [Session] ([js/legal-consent.js],
      [login-route.js], [auth.js], [mfa-login.js]), [Passkey] ([fido-utils.js]), [PasswordStrength], [Captcha] and [Api]
      ([captcha.js], [api.js]).  [Session] is composed with [MfaLogin], [LoginRoute] and [Permissions]: its state has
      theirs as fields and its steps call theirs.
    - Accounts: [UserProfiles] and [ProfileRoutes] ([js/user-profiles.js]), [AccountLanguage] ([js/account-language.js]).
    - Languages: [I18n], [LanguageSwitch] (both sites' [i18n.js] and the shared lookup), [I18nCatalog] (the build
      scripts and the loader of what they write), [ErrorText] (localized errors).  [AccountLanguage] runs on top of
      [LanguageSwitch].
    - Server state: [Availability] ([js/backend-availability.js]).
    - Management of repositories ([js/repositories.js]): [Pages] (the list, with [js/repository-list.js] and the paginated
      collections of [packages/renop-ui/js/pagination.js]), [RepositorySettings] (the settings, their controls and their
      requests), [TagList] ([js/cfg-ui.js], the rules of a mirror); the drafts come from [RepositoryFormats].
    - Message center: [Messages] ([js/messages.js]), a list that pages, deletions and clearings change while their answers
      and animations are under way.
    - Package pages: [Markdown] ([js/markdown.js]), what a README may put on a page; [PackageParts] (locks, the report
      button, subpages); and for Cargo ([js/browser/cargo.js]) [CargoPage], the page of a crate, what it shows to whom and
      its updates in place, [CargoCatalog], the list of a registry, and [CargoRepository], which runs both under the
      addresses of a repository, with the loads, operations, dialogs and refreshes that can overlap.
      [NpmPackage] and [NpmRepository] do the same for npm ([js/browser/npm.js]), whose refreshes are guarded.
      [DockerImage] and [DockerRepository] model the container registries ([js/browser/docker.js], [js/docker-errors.js]),
      whose handlers hold the image and the sequence of the page they belong to.
      [UserSuggestions] ([js/browser/user-suggestions.js]) is the list of names below the field that invites to a team.
    - Settings: [DatabaseDsn] ([js/settings/database-dsn.js] and the connection form).
    Each file holds its component's data, operations and invariant, then the lemmas, then the properties with their
    witnesses; a definition keeps the name of the function it translates, and a comment says which part of a longer
    function a helper stands for.

    ** What the theorems show

    Invariants and safety of the state machines (a challenge ends once, a sign-in is earned, a logout leaves nothing, a
    cached profile answers a lookup nothing has outdated, consent is explicit, the language shown is the latest choice),
    round trips of the codecs (URI paths, connection strings, catalogs, base64url, routes), refinement of the transfer
    protocols to "the whole file or an error", termination and liveness of the pools and monitors, bounds of the numeric
    helpers, and the error texts.

    ** Bounds and fuel

    Numbers that the sources keep below 2^53 are [Z] or [nat]; where a double is rounded, [JsNumber] rounds.  A loop
    whose recursion is not structural takes fuel that its caller sets to the length of its input, and a lemma shows that
    this is enough ([UpdatePackage.byteRanges_partition], [UserProfiles.batches_spec], [Passkey], [Captcha]).  Step functions
    need none: a run is a list of events.

    ** Not modelled

    Views that only build elements ([js/views], [js/components], most of [packages/renop-ui]), layout, focus and
    the course of animations (their ends are events where the code waits for them); the dictionaries and the generated
    message codecs, which are data; the Go server, which the models see through its answers; and the pages not listed above (see the manifest), whose logic is requests that fill a view. *)
From stdpp Require Export prelude sorting gmap strings relations pretty.
From Stdlib Require Export Lia ZifyBool ZifyN ZifyNat.

(** ** Results: a value, or the message a JavaScript [throw] carries *)
Inductive result (E A : Type) : Type :=
| Ok (a : A)
| Err (e : E).
Arguments Ok {E A} a.
Arguments Err {E A} e.

#[export] Instance result_eq_dec {E A} `{EqDecision E, EqDecision A} : EqDecision (result E A).
Proof. solve_decision. Defined.

#[export] Instance result_ret {E} : MRet (result E) := fun A a => Ok a.
#[export] Instance result_bind {E} : MBind (result E) := fun A B f m =>
  match m with Ok a => f a | Err e => Err e end.

Definition is_ok {E A} (r : result E A) : bool :=
  match r with Ok _ => true | Err _ => false end.

(** [Promise.all] on settled promises: [order] lists the indices in the order in which they settled;
    (indices it leaves out settle last, in index order); the first rejection in that order is the
    rejection of the whole, and otherwise the fulfilled values come back in index order. *)
Fixpoint first_rejection {E A} (rs : list (result E A)) (order : list nat) : option E :=
  match order with
  | [] => None
  | i :: order' =>
    match rs !! i with
    | Some (Err e) => Some e
    | _ => first_rejection rs order'
    end
  end.

Fixpoint all_values {E A} (rs : list (result E A)) : list A :=
  match rs with
  | [] => []
  | Ok a :: rs' => a :: all_values rs'
  | Err _ :: rs' => all_values rs'
  end.

Definition promise_all {E A} (order : list nat) (rs : list (result E A)) : result E (list A) :=
  match first_rejection rs (order ++ seq 0 (length rs)) with
  | Some e => Err e
  | None => Ok (all_values rs)
  end.

(** ** Numbers
    [None] stands for NaN; [Some n] for the integer [n] (of magnitude at most 2^53, where doubles are
    exact). *)
Abbreviation number := (option Z).

(** [n || d]: NaN and zero are falsy. *)
Definition num_or (n : number) (d : Z) : Z :=
  match n with
  | Some 0%Z | None => d
  | Some z => z
  end.

(** [Math.ceil(a / b)] for [b > 0]. *)
Definition ceil_div (a b : Z) : Z := (- ((- a) / b))%Z.

(** ** Byte buffers
    [buf.set(bs, off)] on a fixed-size [Uint8Array]; the callers never write past the end. *)
Abbreviation bytes := (list N).

Definition set_at (buf : bytes) (off : nat) (bs : bytes) : bytes :=
  take off buf ++ bs ++ drop (off + length bs) buf.

(** The loop [for (const chunk of chunks) { out.set(chunk, offset); offset += chunk.length; }]. *)
Fixpoint copy_chunks (buf : bytes) (off : nat) (chunks : list bytes) : bytes :=
  match chunks with
  | [] => buf
  | c :: chunks' => copy_chunks (set_at buf off c) (off + length c) chunks'
  end.

Definition total_length (chunks : list bytes) : nat := sum_list (map length chunks).

(** [new Uint8Array(n)]. *)
Definition zeroed (n : nat) : bytes := replicate n 0%N.

(** ** Tactics *)
(** Case analysis on the first boolean test in the goal or a hypothesis, leaving arithmetic facts. *)
Ltac bool_facts :=
  repeat match goal with
  | H : (_ <? _)%Z = true |- _ => apply Z.ltb_lt in H
  | H : (_ <? _)%Z = false |- _ => apply Z.ltb_ge in H
  | H : (_ <=? _)%Z = true |- _ => apply Z.leb_le in H
  | H : (_ <=? _)%Z = false |- _ => apply Z.leb_gt in H
  | H : (_ =? _)%Z = true |- _ => apply Z.eqb_eq in H
  | H : (_ =? _)%Z = false |- _ => apply Z.eqb_neq in H
  | H : (_ >? _)%Z = _ |- _ => rewrite Z.gtb_ltb in H
  | H : (_ >=? _)%Z = _ |- _ => rewrite Z.geb_leb in H
  | H : andb _ _ = true |- _ => apply andb_true_iff in H; destruct H
  | H : orb _ _ = false |- _ => apply orb_false_iff in H; destruct H
  | H : negb _ = true |- _ => apply negb_true_iff in H
  | H : negb _ = false |- _ => apply negb_false_iff in H
  | H : bool_decide _ = true |- _ => apply bool_decide_eq_true in H
  | H : bool_decide _ = false |- _ => apply bool_decide_eq_false in H
  end.

(** ** Lemmas *)
Lemma ceil_div_spec a b : (0 < b)%Z -> (ceil_div a b * b - b < a <= ceil_div a b * b)%Z.
Proof.
  intros Hb. unfold ceil_div.
  pose proof (Z.div_mod (- a) b ltac:(lia)). pose proof (Z.mod_pos_bound (- a) b Hb). nia.
Qed.

Lemma ceil_div_pos a b : (0 < b)%Z -> (0 < a)%Z -> (0 < ceil_div a b)%Z.
Proof. intros Hb Ha. pose proof (ceil_div_spec a b Hb). nia. Qed.

Lemma ceil_div_nonneg a b : (0 < b)%Z -> (0 <= a)%Z -> (0 <= ceil_div a b)%Z.
Proof. intros Hb Ha. pose proof (ceil_div_spec a b Hb). nia. Qed.

Lemma ceil_div_0 b : ceil_div 0 b = 0%Z.
Proof. unfold ceil_div. by rewrite Zdiv_0_l. Qed.

Lemma first_rejection_all_ok {E A} (rs : list (result E A)) order :
  Forall (fun r => is_ok r = true) rs -> first_rejection rs order = None.
Proof.
  intros Hall. induction order as [|i order IH]; simpl; [done|].
  destruct (rs !! i) as [[a|e]|] eqn:Hi; [done| |done].
  rewrite Forall_lookup in Hall. by specialize (Hall _ _ Hi).
Qed.

Lemma all_values_map_ok {E A} (l : list A) : all_values (map (@Ok E A) l) = l.
Proof. induction l; simpl; congruence. Qed.

Lemma promise_all_ok {E A} order (l : list A) :
  promise_all order (map (@Ok E A) l) = Ok l.
Proof.
  unfold promise_all. rewrite first_rejection_all_ok, all_values_map_ok; [done|].
  apply Forall_forall. intros r Hr. apply list_elem_of_In, in_map_iff in Hr. by destruct Hr as (? & <- & _).
Qed.

(** [Promise.all] fulfils only if every promise did. *)
Lemma promise_all_inv {E A} order (rs : list (result E A)) l :
  promise_all order rs = Ok l -> rs = map Ok l.
Proof.
  unfold promise_all. destruct (first_rejection rs _) eqn:Hf; [done|]. intros [= <-].
  assert (Hord : forall i, i < length rs -> i ∈ order ++ seq 0 (length rs))
    by (intros i Hi; apply elem_of_app; right; apply elem_of_seq; lia).
  revert Hf Hord. generalize (order ++ seq 0 (length rs)). clear order. intros order Hf Hord.
  assert (Hall : forall i e, rs !! i <> Some (Err e)).
  { intros i e Hi. specialize (Hord i (lookup_lt_Some _ _ _ Hi)).
    revert Hf Hord. induction order as [|j order IH]; simpl; [by rewrite elem_of_nil|].
    intros Hf Hin. apply elem_of_cons in Hin as [->|Hin]; [by rewrite Hi in Hf|].
    destruct (rs !! j) as [[]|]; [by apply IH|done|by apply IH]. }
  clear Hf Hord. induction rs as [|r rs IH]; simpl; [done|].
  destruct r as [a|e]; [|by specialize (Hall 0 e)].
  simpl. f_equal. apply IH. intros i e. apply (Hall (S i) e).
Qed.

(** A loop of fallible steps that succeeds succeeded at every element. *)
Lemma mapM_ok {E A B} (g : A -> result E B) (l : list A) (k : list B) :
  mapM g l = Ok k <-> Forall2 (fun x y => g x = Ok y) l k.
Proof.
  split.
  - revert k. induction l as [|x l IH]; intros k; simpl.
    + intros [= <-]. constructor.
    + destruct (g x) as [y|e] eqn:Hx; simpl; [|done]. destruct (mapM g l) as [k'|e]; simpl; [|done].
      intros [= <-]. constructor; [done|by apply IH].
  - induction 1 as [|x y l k Hx _ IH]; simpl; [done|]. by rewrite Hx, IH.
Qed.

Lemma list_insert_cases {A} (l : list A) (k j : nat) (x y : A) :
  <[k := x]> l !! j = Some y -> (j = k /\ y = x) \/ (j <> k /\ l !! j = Some y).
Proof.
  destruct (decide (j = k)) as [->|Hne].
  - intros H. left. split; [done|]. assert (k < length l).
    { rewrite <- (length_insert l k x). by eapply lookup_lt_Some. }
    rewrite list_lookup_insert_eq in H by done. congruence.
  - rewrite list_lookup_insert_ne by done. auto.
Qed.

Lemma list_insert_hit {A} (l : list A) (k : nat) (x y : A) :
  l !! k = Some y -> <[k := x]> l !! k = Some x.
Proof. intros H. apply list_lookup_insert_eq. by eapply lookup_lt_Some. Qed.

Lemma list_alter_cases {A} (f : A -> A) (l : list A) (k j : nat) (y : A) :
  alter f k l !! j = Some y ->
  (j = k /\ exists x, l !! k = Some x /\ y = f x) \/ (j <> k /\ l !! j = Some y).
Proof.
  destruct (decide (j = k)) as [->|Hne].
  - rewrite list_lookup_alter_eq. destruct (l !! k); simpl; [|done]. intros [= <-]. eauto.
  - rewrite list_lookup_alter_ne by done. auto.
Qed.

Lemma total_length_concat chunks : total_length chunks = length (concat chunks).
Proof. induction chunks; simpl; [done|]. rewrite length_app. unfold total_length in *. simpl. lia. Qed.

Lemma set_at_length buf off bs :
  off + length bs <= length buf -> length (set_at buf off bs) = length buf.
Proof. intros H. unfold set_at. rewrite !length_app, length_take, length_drop. lia. Qed.

Lemma set_at_app pre bs rest :
  length bs <= length rest ->
  set_at (pre ++ rest) (length pre) bs = (pre ++ bs) ++ drop (length bs) rest.
Proof.
  intros H. unfold set_at. rewrite take_app_length, <- (assoc_L (++)). do 2 f_equal.
  by rewrite drop_app_add.
Qed.

Lemma copy_chunks_app pre chunks rest :
  total_length chunks = length rest ->
  copy_chunks (pre ++ rest) (length pre) chunks = pre ++ concat chunks.
Proof.
  revert pre rest. induction chunks as [|c chunks IH]; intros pre rest; unfold total_length; simpl.
  - intros H. symmetry in H. apply nil_length_inv in H as ->. done.
  - intros H. rewrite set_at_app by lia. rewrite <- length_app, IH.
    + by rewrite <- (assoc_L (++)).
    + rewrite length_drop. unfold total_length. lia.
Qed.

(** Copying chunks one after the other into a buffer of their total size is concatenation. *)
Lemma copy_chunks_concat chunks :
  copy_chunks (zeroed (total_length chunks)) 0 chunks = concat chunks.
Proof.
  apply (copy_chunks_app [] chunks (zeroed (total_length chunks))). unfold zeroed. by rewrite length_replicate.
Qed.

(** ** Filtered lists *)
Lemma elem_of_Lfilter {A} (p : A -> bool) (x : A) l : x ∈ List.filter p l <-> x ∈ l /\ p x = true.
Proof. rewrite !list_elem_of_In. apply filter_In. Qed.

Lemma Sorted_Lfilter {A} (R : A -> A -> Prop) (p : A -> bool) l : StronglySorted R l -> StronglySorted R (List.filter p l).
Proof.
  induction 1 as [|x l Hs IH Hx]; cbn [List.filter]; [constructor|]. destruct (p x); [|done]. constructor; [done|].
  rewrite Forall_forall in *. intros y [Hy _]%elem_of_Lfilter. by apply Hx.
Qed.

Lemma NoDup_map_Lfilter {A B} (g : A -> B) (p : A -> bool) l : NoDup (map g l) -> NoDup (map g (List.filter p l)).
Proof.
  induction l as [|x l IH]; cbn [map List.filter]; [done|]. intros [Hx Hl]%NoDup_cons. destruct (p x); [|by apply IH].
  cbn [map]. constructor; [|by apply IH]. intros Hin. apply Hx. rewrite list_elem_of_fmap in *.
  destruct Hin as (y & -> & [Hy _]%elem_of_Lfilter). by exists y.
Qed.

Lemma filter_perm {A} (p : A -> bool) l k : l ≡ₚ k -> List.filter p l ≡ₚ List.filter p k.
Proof.
  induction 1 as [|x l k H IH|x y l|l m k H IH H' IH']; cbn [List.filter].
  - done.
  - destruct (p x); [by apply perm_skip|done].
  - destruct (p x), (p y); try done. apply perm_swap.
  - by transitivity (List.filter p m).
Qed.

Lemma filter_all {A} (p : A -> bool) l : Forall (fun c => p c = true) l -> List.filter p l = l.
Proof. induction 1 as [|c l Hc Hl IH]; [done|]. cbn. by rewrite Hc, IH. Qed.

Lemma filter_none {A} (p : A -> bool) l : Forall (fun c => p c = false) l -> List.filter p l = [].
Proof. induction 1 as [|c l Hc Hl IH]; [done|]. cbn. by rewrite Hc. Qed.

Lemma Forall_Lfilter {A} (P : A -> Prop) (p : A -> bool) l : Forall P l -> Forall P (List.filter p l).
Proof. rewrite !Forall_forall. intros H x [Hx _]%elem_of_Lfilter. by apply H. Qed.

Create HintDb renop.
#[export] Hint Resolve list_elem_of_here list_elem_of_further Forall_nil_2 NoDup_nil_2 : renop.
#[export] Hint Resolve NoDup_map_Lfilter Sorted_Lfilter : renop.
#[export] Hint Rewrite @elem_of_Lfilter @elem_of_app @elem_of_cons @list_elem_of_fmap : renop.

Lemma fold_left_invariant {A B} (f : A -> B -> A) (I : A -> Prop) (l : list B) a :
  I a -> (forall a b, b ∈ l -> I a -> I (f a b)) -> I (fold_left f l a).
Proof.
  revert a. induction l as [|b l IH]; intros a Ha Hf; [done|]. cbn. apply IH; [apply Hf; [apply list_elem_of_here|done]|].
  intros. apply Hf; [by apply list_elem_of_further|done].
Qed.

(** ** Transition systems *)
Section transitions.
Context {St : Type} (step : relation St).

Lemma rtc_invariant (I : St -> Prop) :
  (forall s s', I s -> step s s' -> I s') ->
  forall s s', rtc step s s' -> I s -> I s'.
Proof. intros Hstep s s'. induction 1; eauto. Qed.

(** A measure that every step decreases bounds the length of every run. *)
Lemma nsteps_measure (I : St -> Prop) (m : St -> nat) :
  (forall s s', I s -> step s s' -> I s' /\ m s' < m s) ->
  forall n s s', nsteps step n s s' -> I s -> n + m s' <= m s.
Proof.
  intros Hstep n s s'. induction 1 as [|n x y z Hxy Hyz IH]; intros HI; [lia|].
  destruct (Hstep x y HI Hxy) as [HI' Hlt]. specialize (IH HI'). lia.
Qed.
End transitions.

(** ** Runs of event-driven components
    A component is a function [step] from an event and a state to the next state; a run folds it over the
    events delivered. *)
Section runs.
Context {St Ev : Type} (step : Ev -> St -> St).
Local Abbreviation run := (fold_left (fun s ev => step ev s)).

Lemma run_app e1 e2 s : run (e1 ++ e2) s = run e2 (run e1 s).
Proof. apply fold_left_app. Qed.

Lemma run_invariant (I : St -> Prop) :
  (forall ev s, I s -> I (step ev s)) -> forall evs s, I s -> I (run evs s).
Proof. intros Hstep evs. induction evs as [|ev evs IH]; intros s Hs; simpl; [done|]. by apply IH, Hstep. Qed.

(** If under the invariant [I] a state property [P] can only begin to hold by a step satisfying [Q], and steps
    outside [R] end it, then a run that ends in [P] has a step satisfying [Q], followed by steps in [R] only. *)
Lemma run_entered (I P : St -> Prop) (Q : Ev -> St -> Prop) (R : Ev -> Prop) s :
  (forall ev t, I t -> I (step ev t)) -> I s ->
  (forall ev t, I t -> P (step ev t) -> P t /\ R ev \/ Q ev t) -> ~ P s ->
  forall evs, P (run evs s) ->
  exists e1 ev e2, evs = e1 ++ ev :: e2 /\ I (run e1 s) /\ Q ev (run e1 s) /\ Forall R e2.
Proof.
  intros HI Hs Hstep HPs evs. induction evs as [|ev evs IH] using rev_ind; [done|].
  rewrite run_app. simpl. assert (Hr : I (run evs s)) by by apply run_invariant.
  intros [[HP HR]|HQ]%Hstep; [| |done].
  - destruct (IH HP) as (e1 & ev' & e2 & -> & HI1 & HQ & He2). exists e1, ev', (e2 ++ [ev]).
    rewrite <- (assoc_L (++)). split_and!; [done..|]. apply Forall_app. split; [done|]. by constructor.
  - exists evs, ev, []. done.
Qed.
End runs.
