(* ===== verification/JsString.v ===== *)
(** * JavaScript strings

    The part of the ECMAScript string library the modelled sources call, on strings as sequences of
    UTF-16 code units.  Everything is executable; [toLowerCase] is exact for strings of Latin-1 units
    and leaves the rest to the engine's Unicode tables, the one field of class [UnicodeCase]. *)
From Stdlib Require Import Ascii String.
From S2P Require Export Prelude.

Declare Scope js_scope.
Delimit Scope js_scope with js.

(** A string is its list of UTF-16 code units. *)
Abbreviation jstr := (list N).

(** Literals: every source literal the model quotes is ASCII. *)
Definition js (s : string) : jstr := map N_of_ascii (list_ascii_of_string s).

Definition ch (a : ascii) : N := N_of_ascii a.

Notation "s =? t" := (bool_decide (s = t :> jstr)) : js_scope.

(** [s || d]: the empty string is falsy. *)
Definition str_or (s d : jstr) : jstr := match s with [] => d | _ => s end.

(** [x || d] for a field that may be missing ([undefined] or [null]). *)
Definition opt_str_or (s : option jstr) (d : jstr) : jstr := str_or (default [] s) d.

Fixpoint starts_with (p s : jstr) : bool :=
  match p, s with
  | [], _ => true
  | a :: p', b :: s' => N.eqb a b && starts_with p' s'
  | _, _ => false
  end.

Definition ends_with (p s : jstr) : bool := starts_with (reverse p) (reverse s).

(** [s.indexOf(p)], [None] for -1. *)
Fixpoint index_of (p s : jstr) : option nat :=
  if starts_with p s then Some 0
  else match s with
       | [] => None
       | _ :: s' => S <$> index_of p s'
       end.

Definition includes (p s : jstr) : bool := bool_decide (is_Some (index_of p s)).

(** [indexOf] and [lastIndexOf] of a one-unit string. *)
Fixpoint index_of_char (c : N) (s : jstr) : option nat :=
  match s with
  | [] => None
  | a :: s' => if N.eqb a c then Some 0 else S <$> index_of_char c s'
  end.

Fixpoint last_index_of_char (c : N) (s : jstr) : option nat :=
  match s with
  | [] => None
  | a :: s' =>
    match last_index_of_char c s' with
    | Some i => Some (S i)
    | None => if N.eqb a c then Some 0 else None
    end
  end.

(** [s.slice(i)] and [s.slice(i, j)] for non-negative arguments, [s.slice(0, -k)]. *)
Definition slice_from (i : nat) (s : jstr) : jstr := drop i s.
Definition slice (i j : nat) (s : jstr) : jstr := take (j - i) (drop i s).
Definition slice_drop_last (k : nat) (s : jstr) : jstr := take (length s - k) s.

(** [s.split(c)] on every unit satisfying [sep]; never empty. *)
Fixpoint split_on (sep : N -> bool) (s : jstr) : list jstr :=
  match s with
  | [] => [[]]
  | a :: s' =>
    if sep a then [] :: split_on sep s'
    else match split_on sep s' with
         | p :: ps => (a :: p) :: ps
         | [] => [[a]]
         end
  end.

Definition split (c : N) (s : jstr) : list jstr := split_on (N.eqb c) s.

Fixpoint join (sep : jstr) (ps : list jstr) : jstr :=
  match ps with
  | [] => []
  | [p] => p
  | p :: ps' => p ++ sep ++ join sep ps'
  end.

(** [s.replaceAll(c, r)] (equally [replace] with a global one-unit pattern). *)
Definition replace_char (c : N) (r : jstr) (s : jstr) : jstr :=
  flat_map (fun a => if N.eqb a c then r else [a]) s.

(** WhiteSpace and LineTerminator code units, which [trim] removes and [\s] matches. *)
Definition is_space (c : N) : bool :=
  ((9 <=? c) && (c <=? 13) || (c =? 32) || (c =? 160) || (c =? 0x1680)
   || (0x2000 <=? c) && (c <=? 0x200A) || (c =? 0x2028) || (c =? 0x2029) || (c =? 0x202F)
   || (c =? 0x205F) || (c =? 0x3000) || (c =? 0xFEFF))%N.

Fixpoint trim_start (s : jstr) : jstr :=
  match s with
  | a :: s' => if is_space a then trim_start s' else s
  | [] => []
  end.

Definition trim (s : jstr) : jstr := reverse (trim_start (reverse (trim_start s))).

(** Character classes of the regular expressions in the sources. *)
Definition is_digit (c : N) : bool := ((48 <=? c) && (c <=? 57))%N.
Definition is_lower (c : N) : bool := ((97 <=? c) && (c <=? 122))%N.
Definition is_upper (c : N) : bool := ((65 <=? c) && (c <=? 90))%N.
Definition is_alpha (c : N) : bool := is_lower c || is_upper c.
Definition is_alnum (c : N) : bool := is_alpha c || is_digit c.

(** Lower-casing of a Latin-1 unit. *)
Definition lower_unit (c : N) : N :=
  if (is_upper c || (0xC0 <=? c) && (c <=? 0xDE) && negb (c =? 0xD7))%N then (c + 32)%N else c.

Definition is_latin1 (s : jstr) : bool := forallb (fun c => N.ltb c 256) s.

(** The engine's Unicode case tables, consulted only beyond Latin-1. *)
Class UnicodeCase := { unicode_lower : jstr -> jstr }.

(** An engine without case tables beyond Latin-1, for concrete instances. *)
Definition latin_case : UnicodeCase := {| unicode_lower := fun s => s |}.

Definition to_lower `{UnicodeCase} (s : jstr) : jstr :=
  if is_latin1 s then map lower_unit s else unicode_lower s.

(** A unit matched case-insensitively against an ASCII pattern letter: the [i] flag canonicalises by
    upper-casing and never maps a non-ASCII unit to an ASCII one. *)
Definition lower_ascii (c : N) : N := if is_upper c then (c + 32)%N else c.

(** Decimal printing of integers in template literals. *)
Definition show_Z (z : Z) : jstr := js (pretty z).

(** [Number(d)] for a string of decimal digits. *)
Definition digits_value (s : jstr) : Z :=
  fold_left (fun acc c => (acc * 10 + (Z.of_N c - 48))%Z) s 0%Z.

(** ** Lemmas *)
Lemma starts_with_spec p s : starts_with p s = true <-> p `prefix_of` s.
Proof.
  revert s. induction p as [|a p IH]; intros [|b s]; simpl.
  - split; [intros _; apply prefix_nil|done].
  - split; [intros _; apply prefix_nil|done].
  - split; [done|]. intros H. by apply prefix_nil_not in H.
  - rewrite andb_true_iff, N.eqb_eq, IH. split.
    + intros [-> H]. by apply prefix_cons.
    + intros H. split; [by eapply prefix_cons_inv_1|by eapply prefix_cons_inv_2].
Qed.

Lemma ends_with_spec p s : ends_with p s = true <-> p `suffix_of` s.
Proof. unfold ends_with. by rewrite starts_with_spec, suffix_prefix_reverse. Qed.

Lemma starts_with_app p s : starts_with p (p ++ s) = true.
Proof. apply starts_with_spec. by exists s. Qed.

Lemma ends_with_app p s : ends_with p (s ++ p) = true.
Proof. apply ends_with_spec. by exists s. Qed.

Lemma starts_with_length p s : starts_with p s = true -> length p <= length s.
Proof. rewrite starts_with_spec. apply prefix_length. Qed.

Lemma starts_with_drop p s : starts_with p s = true -> s = p ++ drop (length p) s.
Proof. rewrite starts_with_spec. intros [k ->]. by rewrite drop_app_length. Qed.

Lemma slice_drop_last_app s p : slice_drop_last (length p) (s ++ p) = s.
Proof.
  unfold slice_drop_last. rewrite length_app, Nat.add_sub. by rewrite take_app_length.
Qed.

Lemma index_of_char_Some c s i :
  index_of_char c s = Some i ->
  s = take i s ++ c :: drop (S i) s /\ c ∉ take i s.
Proof.
  revert i. induction s as [|a s IH]; intros i; simpl; [done|].
  destruct (N.eqb_spec a c) as [->|Hne].
  - intros [= <-]. simpl. split; [done|apply not_elem_of_nil].
  - destruct (index_of_char c s) as [j|] eqn:Hj; simpl; [|done]. intros [= <-].
    destruct (IH j eq_refl) as [Hs Hin]. simpl. split; [by rewrite <- Hs|].
    apply not_elem_of_cons; split; [congruence|done].
Qed.

Lemma index_of_char_None c s : index_of_char c s = None <-> c ∉ s.
Proof.
  induction s as [|a s IH]; simpl; [split; [intros _; apply not_elem_of_nil|done]|].
  rewrite not_elem_of_cons. destruct (N.eqb_spec a c) as [->|Hne]; [split; [done|intros [? _]; done]|].
  destruct (index_of_char c s); simpl; split; intros H; try done.
  - destruct H as [_ H]. by apply IH in H.
  - split; [done|by apply IH].
Qed.

Lemma index_of_char_app_notin c s t :
  c ∉ s -> index_of_char c (s ++ c :: t) = Some (length s).
Proof.
  induction s as [|a s IH]; simpl; intros Hin; [by rewrite N.eqb_refl|].
  apply not_elem_of_cons in Hin as [Hne Hin].
  destruct (N.eqb_spec a c); [congruence|]. by rewrite IH.
Qed.

Lemma last_index_of_char_None c s : last_index_of_char c s = None <-> c ∉ s.
Proof.
  induction s as [|a s IH]; simpl; [split; [intros _; apply not_elem_of_nil|done]|].
  rewrite not_elem_of_cons. destruct (last_index_of_char c s).
  - split; [done|]. intros [_ H]. by apply IH in H.
  - destruct (N.eqb_spec a c) as [->|Hne]; split; try done.
    + intros [? _]; done.
    + intros _. split; [done|by apply IH].
Qed.

Lemma last_index_of_char_app_notin c s t :
  c ∉ t -> last_index_of_char c (s ++ c :: t) = Some (length s).
Proof.
  intros Ht. induction s as [|a s IH]; simpl.
  - apply last_index_of_char_None in Ht. by rewrite Ht, N.eqb_refl.
  - by rewrite IH.
Qed.

Lemma split_on_notin sep s : (forall c, c ∈ s -> sep c = false) -> split_on sep s = [s].
Proof.
  induction s as [|a s IH]; simpl; intros H; [done|].
  rewrite (H a) by apply list_elem_of_here. rewrite IH; [done|].
  intros c Hc. apply H. by apply list_elem_of_further.
Qed.

Lemma split_on_not_nil sep s : split_on sep s <> [].
Proof. destruct s as [|a s]; simpl; [done|]. destruct (sep a); [done|]. by destruct (split_on sep s). Qed.

Lemma join_split c s : join [c] (split c s) = s.
Proof.
  unfold split. induction s as [|a s IH]; simpl; [done|].
  pose proof (split_on_not_nil (N.eqb c) s) as Hne.
  destruct (N.eqb_spec c a) as [->|Hca].
  - destruct (split_on (N.eqb a) s) as [|p ps] eqn:E; [done|]. simpl in *. by rewrite IH.
  - destruct (split_on (N.eqb c) s) as [|p ps] eqn:E; [done|].
    destruct ps; simpl in *; by rewrite <- IH.
Qed.

Lemma split_parts_notin c s p : p ∈ split c s -> c ∉ p.
Proof.
  unfold split. revert p. induction s as [|a s IH]; intros p; simpl.
  - rewrite list_elem_of_singleton. intros ->. apply not_elem_of_nil.
  - destruct (N.eqb_spec c a) as [->|Hca].
    + rewrite elem_of_cons. intros [->|Hp]; [apply not_elem_of_nil|by apply IH].
    + destruct (split_on (N.eqb c) s) as [|q qs] eqn:E.
      * rewrite list_elem_of_singleton. intros ->. by rewrite list_elem_of_singleton.
      * rewrite elem_of_cons. intros [->|Hp].
        -- apply not_elem_of_cons. split; [done|]. apply IH, list_elem_of_here.
        -- apply IH. by apply list_elem_of_further.
Qed.

Lemma split_app_sep c s t : c ∉ s -> split c (s ++ c :: t) = s :: split c t.
Proof.
  unfold split. induction s as [|a s IH]; simpl; intros Hin.
  - by rewrite N.eqb_refl.
  - apply not_elem_of_cons in Hin as [Hne Hin].
    destruct (N.eqb_spec c a); [congruence|]. by rewrite IH.
Qed.

Lemma split_join c ps :
  ps <> [] -> Forall (fun p => c ∉ p) ps -> split c (join [c] ps) = ps.
Proof.
  intros Hne Hall. induction Hall as [|p ps Hp Hall IH]; [done|]. simpl.
  destruct ps as [|q ps].
  - apply split_on_notin. intros d Hd. destruct (N.eqb_spec c d); [by subst|done].
  - simpl. rewrite split_app_sep by done. f_equal. by apply IH.
Qed.

Lemma replace_char_notin c r s : c ∉ s -> replace_char c r s = s.
Proof.
  induction s as [|a s IH]; simpl; intros Hin; [done|].
  apply not_elem_of_cons in Hin as [Hne Hin].
  destruct (N.eqb_spec a c); [congruence|]. simpl. by rewrite IH.
Qed.

Lemma lower_unit_idem c : (c < 256)%N -> lower_unit (lower_unit c) = lower_unit c.
Proof.
  intros Hc. unfold lower_unit at 2 3. case_match; unfold lower_unit, is_upper in *; case_match; lia.
Qed.

Lemma lower_unit_latin1 c : (c < 256)%N -> (lower_unit c < 256)%N.
Proof. unfold lower_unit, is_upper. intros Hc. repeat case_match; lia. Qed.

Lemma is_latin1_spec s : is_latin1 s = true <-> Forall (fun c => (c < 256)%N) s.
Proof.
  unfold is_latin1. rewrite Forall_forall, forallb_forall.
  setoid_rewrite list_elem_of_In. by setoid_rewrite N.ltb_lt.
Qed.

Lemma trim_start_no_space s :
  match s with a :: _ => is_space a = false | [] => True end -> trim_start s = s.
Proof. destruct s as [|a s]; simpl; [done|]. by intros ->. Qed.

(** A string that neither starts nor ends with white space is its own trim. *)
Definition trimmed (s : jstr) : Prop :=
  match s with a :: _ => is_space a = false | [] => True end /\
  match reverse s with a :: _ => is_space a = false | [] => True end.

Lemma trim_trimmed s : trimmed s -> trim s = s.
Proof.
  intros [H1 H2]. unfold trim. rewrite (trim_start_no_space s H1).
  rewrite (trim_start_no_space _ H2). apply reverse_involutive.
Qed.

Lemma no_space_trimmed s : Forall (fun c => is_space c = false) s -> trimmed s.
Proof.
  intros H. split.
  - destruct H; done.
  - apply Forall_reverse in H. by destruct H.
Qed.
