(* ===== verification/JsArray.v ===== *)
(** * JavaScript arrays: sorting

    [Array.prototype.sort] as a stable insertion sort: with a consistent comparator the stable sorted
    permutation is unique, so any stable sort gives this result. *)
From Stdlib Require Import Ascii String Sorting.Sorted.
From S2P Require Import Prelude JsString.
Local Open Scope N_scope.

(** ** Stable sort *)
Section array_sort.
Context {A : Type} (cmp : A -> A -> Z).

Fixpoint sort_insert (x : A) (l : list A) : list A :=
  match l with
  | [] => [x]
  | y :: l' => if (cmp x y <=? 0)%Z then x :: l else y :: sort_insert x l'
  end.

Fixpoint array_sort (l : list A) : list A :=
  match l with
  | [] => []
  | x :: l' => sort_insert x (array_sort l')
  end.

Lemma sort_insert_perm x l : sort_insert x l ≡ₚ x :: l.
Proof. induction l as [|y l IH]; simpl; [done|]. case_match; [done|]. rewrite IH. apply Permutation_swap. Qed.

Lemma array_sort_perm l : array_sort l ≡ₚ l.
Proof. induction l as [|x l IH]; simpl; [done|]. by rewrite sort_insert_perm, IH. Qed.

Definition cmp_le (a b : A) : Prop := (cmp a b <= 0)%Z.

Lemma sort_insert_sorted x l :
  (forall a b, a ∈ x :: l -> b ∈ x :: l -> cmp_le a b \/ cmp_le b a) ->
  (forall a b c, a ∈ x :: l -> b ∈ x :: l -> c ∈ x :: l -> cmp_le a b -> cmp_le b c -> cmp_le a c) ->
  StronglySorted cmp_le l -> StronglySorted cmp_le (sort_insert x l).
Proof.
  intros Htot Htrans Hs. induction Hs as [|y l Hs IH Hy]; simpl; [repeat constructor|].
  destruct (Z.leb_spec (cmp x y) 0) as [Hle|Hgt].
  - constructor; [by constructor|]. constructor; [done|]. rewrite Forall_forall in *.
    intros z Hz. apply (Htrans x y z); [rewrite !elem_of_cons; tauto..|done|by apply Hy].
  - assert (Hsub : forall a, a ∈ x :: l -> a ∈ x :: y :: l) by (intros a; rewrite !elem_of_cons; tauto).
    constructor; [apply IH; [intros a b|intros a b c]; intros; [apply Htot|apply (Htrans a b c)]; auto|].
    rewrite sort_insert_perm. constructor; [|done].
    destruct (Htot x y) as [H|H]; [rewrite !elem_of_cons; tauto..| |done]. unfold cmp_le in H. lia.
Qed.

Lemma array_sort_sorted l :
  (forall a b, a ∈ l -> b ∈ l -> cmp_le a b \/ cmp_le b a) ->
  (forall a b c, a ∈ l -> b ∈ l -> c ∈ l -> cmp_le a b -> cmp_le b c -> cmp_le a c) ->
  StronglySorted cmp_le (array_sort l).
Proof.
  induction l as [|x l IH]; simpl; intros Htot Htrans; [constructor|].
  apply sort_insert_sorted.
  - intros a b. rewrite array_sort_perm. apply Htot.
  - intros a b c. rewrite array_sort_perm. apply Htrans.
  - apply IH; [intros a b|intros a b c]; intros; [apply Htot|apply (Htrans a b c)];
      auto using list_elem_of_further.
Qed.
End array_sort.

(** ** Code-unit order, the default order of [sort] *)
Fixpoint unit_compare (a b : jstr) : comparison :=
  match a, b with
  | [], [] => Eq
  | [], _ => Lt
  | _, [] => Gt
  | x :: a', y :: b' => match x ?= y with Eq => unit_compare a' b' | c => c end
  end.


Lemma unit_compare_sym a b : unit_compare b a = CompOpp (unit_compare a b).
Proof.
  revert b. induction a as [|x a IH]; intros [|y b]; simpl; try done.
  rewrite (N.compare_antisym x y). destruct (x ?= y); simpl; [apply IH|done..].
Qed.

Lemma unit_compare_trans a b c : unit_compare a b <> Gt -> unit_compare b c <> Gt -> unit_compare a c <> Gt.
Proof.
  revert b c. induction a as [|x a IH]; intros [|y b] [|z c]; simpl; try done.
  destruct (N.compare_spec x y) as [->|Hxy|Hxy], (N.compare_spec y z) as [->|Hyz|Hyz]; intros H1 H2; try done.
  - by eapply IH.
  - by apply N.compare_lt_iff in Hxy as ->.
  - assert (E : (x ?= z) = Lt) by (apply N.compare_lt_iff; lia). by rewrite E.
Qed.

Definition unit_order (a b : jstr) : Z := match unit_compare a b with Lt => -1 | Eq => 0 | Gt => 1 end%Z.

(** [l.sort()] on strings. *)
Definition sort_strings (l : list jstr) : list jstr := array_sort unit_order l.

Lemma sort_strings_perm l : sort_strings l ≡ₚ l.
Proof. apply array_sort_perm. Qed.

Lemma unit_compare_eq a b : unit_compare a b = Eq <-> a = b.
Proof.
  revert b. induction a as [|x a IH]; intros [|y b]; simpl; try done.
  destruct (N.compare_spec x y) as [->|H|H].
  - rewrite IH. split; [by intros ->|by intros [=]].
  - split; [done|]. intros [= -> _]. lia.
  - split; [done|]. intros [= -> _]. lia.
Qed.
