(* ===== verification/JsUri.v ===== *)
(** * URI component encoding

    ECMAScript's [encodeURIComponent] and [decodeURIComponent] on UTF-16 strings, exact for every
    input: [None] is the [URIError] thrown for an unpaired surrogate or a malformed escape. *)
From Stdlib Require Import Ascii String.
From S2P Require Import Prelude JsString.
Local Open Scope N_scope.

(** Letters, digits and [- _ . ! ~ * ' ( )]. *)
Definition uri_unreserved (c : N) : bool :=
  is_alnum c || (c =? 45) || (c =? 95) || (c =? 46) || (c =? 33) || (c =? 126) || (c =? 42)
  || ((39 <=? c) && (c <=? 41)).

Definition is_high_surrogate (c : N) : bool := (0xD800 <=? c) && (c <=? 0xDBFF).
Definition is_low_surrogate (c : N) : bool := (0xDC00 <=? c) && (c <=? 0xDFFF).
Definition combine_surrogates (h l : N) : N := (h - 0xD800) * 1024 + (l - 0xDC00) + 0x10000.

Definition utf8 (cp : N) : list N :=
  if cp <? 0x80 then [cp]
  else if cp <? 0x800 then [0xC0 + cp / 64; 0x80 + cp mod 64]
  else if cp <? 0x10000 then [0xE0 + cp / 4096; 0x80 + (cp / 64) mod 64; 0x80 + cp mod 64]
  else [0xF0 + cp / 262144; 0x80 + (cp / 4096) mod 64; 0x80 + (cp / 64) mod 64; 0x80 + cp mod 64].

Definition hex_upper (n : N) : N := if n <? 10 then 48 + n else 55 + n.
Definition percent (b : N) : jstr := [37; hex_upper (b / 16); hex_upper (b mod 16)].

Fixpoint encodeURIComponent (s : jstr) : option jstr :=
  match s with
  | [] => Some []
  | c :: s' =>
    if uri_unreserved c then (fun r => c :: r) <$> encodeURIComponent s'
    else if is_low_surrogate c then None
    else if is_high_surrogate c then
      match s' with
      | d :: s'' =>
        if is_low_surrogate d
        then (fun r => flat_map percent (utf8 (combine_surrogates c d)) ++ r) <$> encodeURIComponent s''
        else None
      | [] => None
      end
    else (fun r => flat_map percent (utf8 c) ++ r) <$> encodeURIComponent s'
  end.

Definition hex_value (c : N) : option N :=
  if is_digit c then Some (c - 48)
  else if (65 <=? c) && (c <=? 70) then Some (c - 55)
  else if (97 <=? c) && (c <=? 102) then Some (c - 87)
  else None.

(** The string as raw units and escaped bytes; [None] at a malformed escape. *)
Fixpoint uri_tokens (s : jstr) : option (list (N + N)) :=
  match s with
  | [] => Some []
  | c :: s' =>
    if c =? 37 then
      match s' with
      | x :: y :: s'' =>
        hx ← hex_value x; hy ← hex_value y; rest ← uri_tokens s'';
        Some (inr (hx * 16 + hy) :: rest)
      | _ => None
      end
    else rest ← uri_tokens s'; Some (inl c :: rest)
  end.

Definition is_continuation (b : N) : bool := (0x80 <=? b) && (b <=? 0xBF).

(** The UTF-16 units of a decoded code point, with the bounds that make UTF-8 strict. *)
Definition code_point_units (lo cp : N) : option jstr :=
  if (cp <? lo) || (0x10FFFF <? cp) || ((0xD800 <=? cp) && (cp <=? 0xDFFF)) then None
  else if cp <? 0x10000 then Some [cp]
  else Some [0xD800 + (cp - 0x10000) / 1024; 0xDC00 + (cp - 0x10000) mod 1024].

Fixpoint decode_tokens (ts : list (N + N)) : option jstr :=
  match ts with
  | [] => Some []
  | inl c :: ts' => (fun r => c :: r) <$> decode_tokens ts'
  | inr b1 :: ts' =>
    if b1 <? 0x80 then (fun r => b1 :: r) <$> decode_tokens ts'
    else if (0xC0 <=? b1) && (b1 <=? 0xDF) then
      match ts' with
      | inr b2 :: ts'' =>
        if is_continuation b2 then
          us ← code_point_units 0x80 ((b1 - 0xC0) * 64 + (b2 - 0x80));
          (fun r => us ++ r) <$> decode_tokens ts''
        else None
      | _ => None
      end
    else if (0xE0 <=? b1) && (b1 <=? 0xEF) then
      match ts' with
      | inr b2 :: inr b3 :: ts'' =>
        if is_continuation b2 && is_continuation b3 then
          us ← code_point_units 0x800 ((b1 - 0xE0) * 4096 + (b2 - 0x80) * 64 + (b3 - 0x80));
          (fun r => us ++ r) <$> decode_tokens ts''
        else None
      | _ => None
      end
    else if (0xF0 <=? b1) && (b1 <=? 0xF7) then
      match ts' with
      | inr b2 :: inr b3 :: inr b4 :: ts'' =>
        if is_continuation b2 && is_continuation b3 && is_continuation b4 then
          us ← code_point_units 0x10000
                 ((b1 - 0xF0) * 262144 + (b2 - 0x80) * 4096 + (b3 - 0x80) * 64 + (b4 - 0x80));
          (fun r => us ++ r) <$> decode_tokens ts''
        else None
      | _ => None
      end
    else None
  end.

Definition decodeURIComponent (s : jstr) : option jstr := uri_tokens s ≫= decode_tokens.

(** Every unit of a JavaScript string is a 16-bit value. *)
Definition is_utf16 (s : jstr) : Prop := Forall (fun c => c < 65536) s.

Lemma is_utf16_forallb s : forallb (fun c => c <? 65536) s = true -> is_utf16 s.
Proof. unfold is_utf16. rewrite forallb_forall, Forall_forall. intros H c Hc%list_elem_of_In. apply H in Hc. lia. Qed.

(** A string without unpaired surrogates. *)
Definition well_formed (s : jstr) : Prop := is_Some (encodeURIComponent s).

(** ** Round trip *)
Lemma hex_value_upper n : n < 16 -> hex_value (hex_upper n) = Some n.
Proof.
  intros Hn. unfold hex_value, hex_upper, is_digit. destruct (N.ltb_spec n 10).
  - replace ((48 <=? 48 + n) && (48 + n <=? 57)) with true by lia. f_equal. lia.
  - replace ((48 <=? 55 + n) && (55 + n <=? 57)) with false by lia.
    replace ((65 <=? 55 + n) && (55 + n <=? 70)) with true by lia. f_equal. lia.
Qed.

Lemma uri_tokens_percent b s :
  b < 256 -> uri_tokens (percent b ++ s) = (fun r => inr b :: r) <$> uri_tokens s.
Proof.
  intros Hb. unfold percent. cbn [uri_tokens app]. rewrite N.eqb_refl.
  rewrite !hex_value_upper by (apply N.mod_lt || apply N.Div0.div_lt_upper_bound; lia). simpl.
  destruct (uri_tokens s); simpl; [|done]. do 3 f_equal. pose proof (N.div_mod b 16). lia.
Qed.

Lemma uri_tokens_escapes bs s :
  Forall (fun b => b < 256) bs ->
  uri_tokens (flat_map percent bs ++ s) = (fun r => map inr bs ++ r) <$> uri_tokens s.
Proof.
  induction 1 as [|b bs Hb Hbs IH]; cbn [flat_map map]; [simpl; by destruct (uri_tokens s)|].
  rewrite <- (assoc_L (++)), uri_tokens_percent, IH by done. by destruct (uri_tokens s).
Qed.

Lemma utf8_bytes cp : cp < 0x110000 -> Forall (fun b => b < 256) (utf8 cp).
Proof.
  intros Hcp. unfold utf8.
  pose proof (N.mod_lt cp 64 ltac:(lia)). pose proof (N.mod_lt (cp / 64) 64 ltac:(lia)).
  pose proof (N.mod_lt (cp / 4096) 64 ltac:(lia)).
  pose proof (N.div_mod cp 64). pose proof (N.div_mod cp 4096). pose proof (N.div_mod cp 262144).
  repeat case_match; repeat constructor; lia.
Qed.

Definition units_of (cp : N) : jstr :=
  if cp <? 0x10000 then [cp] else [0xD800 + (cp - 0x10000) / 1024; 0xDC00 + (cp - 0x10000) mod 1024].

Lemma code_point_units_ok lo cp :
  lo <= cp <= 0x10FFFF -> ~ (0xD800 <= cp <= 0xDFFF) -> code_point_units lo cp = Some (units_of cp).
Proof.
  intros Hlo Hs. unfold code_point_units, units_of.
  replace ((cp <? lo) || (0x10FFFF <? cp) || ((0xD800 <=? cp) && (cp <=? 0xDFFF))) with false by lia.
  by case_match.
Qed.

Lemma is_continuation_low n : n < 64 -> is_continuation (0x80 + n) = true.
Proof. unfold is_continuation. lia. Qed.

Lemma split64 cp : cp = (cp / 64) * 64 + cp mod 64 /\ cp mod 64 < 64.
Proof. pose proof (N.div_mod cp 64). pose proof (N.mod_lt cp 64). lia. Qed.

Lemma decode_utf8 cp ts :
  cp < 0x110000 -> ~ (0xD800 <= cp <= 0xDFFF) ->
  decode_tokens (map inr (utf8 cp) ++ ts) = (fun r => units_of cp ++ r) <$> decode_tokens ts.
Proof.
  intros Hcp Hs. unfold utf8.
  destruct (split64 cp) as [E1 L1]. destruct (split64 (cp / 64)) as [E2 L2].
  destruct (split64 (cp / 4096)) as [E3 L3].
  rewrite N.Div0.div_div in E2. change (64 * 64) with 4096 in E2.
  rewrite N.Div0.div_div in E3. change (4096 * 64) with 262144 in E3.
  set (q1 := cp / 64) in *. set (q2 := cp / 4096) in *. set (q3 := cp / 262144) in *.
  set (r1 := cp mod 64) in *. set (r2 := q1 mod 64) in *. set (r3 := q2 mod 64) in *.
  destruct (N.ltb_spec cp 0x80); [|destruct (N.ltb_spec cp 0x800); [|destruct (N.ltb_spec cp 0x10000)]];
    cbn [map app decode_tokens].
  - replace (cp <? 0x80) with true by lia. unfold units_of. replace (cp <? 0x10000) with true by lia. done.
  - replace (0xC0 + q1 <? 0x80) with false by lia.
    replace ((0xC0 <=? 0xC0 + q1) && (0xC0 + q1 <=? 0xDF)) with true by lia.
    rewrite is_continuation_low by done.
    replace ((0xC0 + q1 - 0xC0) * 64 + (0x80 + r1 - 0x80)) with cp by lia.
    by rewrite code_point_units_ok by lia.
  - replace (0xE0 + q2 <? 0x80) with false by lia.
    replace ((0xC0 <=? 0xE0 + q2) && (0xE0 + q2 <=? 0xDF)) with false by lia.
    replace ((0xE0 <=? 0xE0 + q2) && (0xE0 + q2 <=? 0xEF)) with true by lia.
    rewrite !is_continuation_low by done. simpl.
    replace ((0xE0 + q2 - 0xE0) * 4096 + (0x80 + r2 - 0x80) * 64 + (0x80 + r1 - 0x80)) with cp by lia.
    by rewrite code_point_units_ok by lia.
  - replace (0xF0 + q3 <? 0x80) with false by lia.
    replace ((0xC0 <=? 0xF0 + q3) && (0xF0 + q3 <=? 0xDF)) with false by lia.
    replace ((0xE0 <=? 0xF0 + q3) && (0xF0 + q3 <=? 0xEF)) with false by lia.
    replace ((0xF0 <=? 0xF0 + q3) && (0xF0 + q3 <=? 0xF7)) with true by lia.
    rewrite !is_continuation_low by done. simpl.
    replace ((0xF0 + q3 - 0xF0) * 262144 + (0x80 + r3 - 0x80) * 4096 + (0x80 + r2 - 0x80) * 64 + (0x80 + r1 - 0x80))
      with cp by lia.
    by rewrite code_point_units_ok by lia.
Qed.

Lemma units_of_bmp c : c < 65536 -> units_of c = [c].
Proof. intros Hc. unfold units_of. by replace (c <? 0x10000) with true by lia. Qed.

Lemma units_of_combined h l :
  is_high_surrogate h = true -> is_low_surrogate l = true -> units_of (combine_surrogates h l) = [h; l].
Proof.
  unfold is_high_surrogate, is_low_surrogate, units_of, combine_surrogates. intros Hh Hl.
  set (q := h - 0xD800). set (r := l - 0xDC00).
  replace (q * 1024 + r + 0x10000 <? 0x10000) with false by lia.
  replace (q * 1024 + r + 0x10000 - 0x10000) with (r + q * 1024) by lia.
  rewrite N.div_add, N.Div0.mod_add, N.div_small, N.mod_small by lia.
  f_equal; [lia|f_equal; lia].
Qed.

(** Induction over the cases of the encoder. *)
Lemma encode_ind (P : jstr -> jstr -> Prop) :
  P [] [] ->
  (forall c s e, uri_unreserved c = true -> P s e -> P (c :: s) (c :: e)) ->
  (forall c s e, uri_unreserved c = false -> c < 65536 -> ~ (0xD800 <= c <= 0xDFFF) -> P s e ->
     P (c :: s) (flat_map percent (utf8 c) ++ e)) ->
  (forall h l s e, is_high_surrogate h = true -> is_low_surrogate l = true -> P s e ->
     P (h :: l :: s) (flat_map percent (utf8 (combine_surrogates h l)) ++ e)) ->
  forall s e, is_utf16 s -> encodeURIComponent s = Some e -> P s e.
Proof.
  intros H0 H1 H2 H3. 
  enough (Hn : forall n s e, (length s <= n)%nat -> is_utf16 s -> encodeURIComponent s = Some e -> P s e)
    by (intros s e; by eapply Hn).
  induction n as [|n IH]; intros [|c s] e Hlen Hu He; simpl in *; simplify_eq; [done|lia|done|].
  inversion Hu as [|? ? Hc Hu' Heq]; subst.
  destruct (uri_unreserved c) eqn:Hun.
  { destruct (encodeURIComponent s) as [r|] eqn:Hr; simplify_eq/=. apply H1; [done|]. apply IH; [lia|done..]. }
  destruct (is_low_surrogate c) eqn:Hl; [done|]. destruct (is_high_surrogate c) eqn:Hh.
  - destruct s as [|d s]; [done|]. destruct (is_low_surrogate d) eqn:Hd; [|done].
    destruct (encodeURIComponent s) as [r|] eqn:Hr; simplify_eq/=. apply H3; [done..|].
    inversion Hu'; subst. apply IH; [lia|done..].
  - destruct (encodeURIComponent s) as [r|] eqn:Hr; simplify_eq/=. apply H2; [done..| |apply IH; [lia|done..]].
    unfold is_low_surrogate, is_high_surrogate in *. lia.
Qed.

Lemma unreserved_not_percent c : uri_unreserved c = true -> c <> 37.
Proof. unfold uri_unreserved, is_alnum, is_alpha, is_lower, is_upper, is_digit. lia. Qed.

Lemma combine_surrogates_range h l :
  is_high_surrogate h = true -> is_low_surrogate l = true ->
  0x10000 <= combine_surrogates h l < 0x110000.
Proof. unfold is_high_surrogate, is_low_surrogate, combine_surrogates. lia. Qed.

Lemma decode_escaped cp s :
  cp < 0x110000 -> ~ (0xD800 <= cp <= 0xDFFF) ->
  decodeURIComponent (flat_map percent (utf8 cp) ++ s) = (fun r => units_of cp ++ r) <$> decodeURIComponent s.
Proof.
  intros Hcp Hs. unfold decodeURIComponent. rewrite uri_tokens_escapes by by apply utf8_bytes.
  destruct (uri_tokens s) as [ts|]; simpl; [|done]. by apply decode_utf8.
Qed.

Lemma decode_raw c s : c <> 37 -> decodeURIComponent (c :: s) = (fun r => c :: r) <$> decodeURIComponent s.
Proof.
  intros Hc. unfold decodeURIComponent. simpl. replace (c =? 37) with false by lia.
  by destruct (uri_tokens s).
Qed.

Lemma decode_plain s : 37 ∉ s -> decodeURIComponent s = Some s.
Proof.
  induction s as [|c s IH]; intros Hs; [done|]. apply not_elem_of_cons in Hs as [Hc Hs]. by rewrite decode_raw, IH.
Qed.

Lemma decode_encode s e :
  is_utf16 s -> encodeURIComponent s = Some e -> decodeURIComponent e = Some s.
Proof.
  apply (encode_ind (fun s e => decodeURIComponent e = Some s)); [done|..]; clear s e.
  - intros c s e Hc IH. by rewrite decode_raw, IH by by apply unreserved_not_percent.
  - intros c s e _ Hc Hs IH. rewrite decode_escaped, IH by lia. simpl. by rewrite units_of_bmp.
  - intros h l s e Hh Hl IH. pose proof (combine_surrogates_range h l Hh Hl).
    rewrite decode_escaped, IH by lia. simpl. by rewrite units_of_combined.
Qed.

(** The output alphabet: unreserved units, [%] and hexadecimal digits. *)
Definition uri_safe (c : N) : bool := uri_unreserved c || (c =? 37).

Lemma percent_safe b : b < 256 -> Forall (fun c => uri_safe c = true) (percent b).
Proof.
  intros Hb. pose proof (N.mod_lt b 16 ltac:(lia)). pose proof (N.Div0.div_lt_upper_bound b 16 16 ltac:(lia)).
  assert (Hx : forall n, n < 16 -> uri_safe (hex_upper n) = true).
  { intros n Hn. unfold hex_upper, uri_safe, uri_unreserved, is_alnum, is_alpha, is_lower, is_upper, is_digit.
    case_match; lia. }
  unfold percent. rewrite !Forall_cons. auto.
Qed.

Lemma escapes_safe bs : Forall (fun b => b < 256) bs -> Forall (fun c => uri_safe c = true) (flat_map percent bs).
Proof. induction 1; simpl; [constructor|]. apply (Forall_app _ (percent x)). split; [by apply percent_safe|done]. Qed.

Lemma encode_safe s e : is_utf16 s -> encodeURIComponent s = Some e -> Forall (fun c => uri_safe c = true) e.
Proof.
  apply (encode_ind (fun s e => Forall (fun c => uri_safe c = true) e)); [constructor|..]; clear s e.
  - intros c s e Hc IH. constructor; [|done]. unfold uri_safe. by rewrite Hc.
  - intros c s e _ Hc Hs IH. apply Forall_app. split; [|done]. apply escapes_safe, utf8_bytes. lia.
  - intros h l s e Hh Hl IH. pose proof (combine_surrogates_range h l Hh Hl).
    apply Forall_app. split; [|done]. apply escapes_safe, utf8_bytes. lia.
Qed.
