(* ===== verification/JsNumber.v ===== *)
(** * JavaScript numbers read from strings

    [Number(s)] for a string [s], exactly: the StringToNumber grammar (white space, signs, decimal
    literals with exponents, [Infinity], and the prefixes 0x, 0o, 0b) and rounding to the nearest double,
    ties to even.  A finite double is [m * 2^e]; comparison of doubles is by value. *)
From Stdlib Require Import Ascii String.
From S2P Require Import Prelude JsString.
Local Open Scope Z_scope.

Inductive double : Type :=
| NaN
| Inf (negative : bool)
| Fin (m e : Z).

#[export] Instance double_eq_dec : EqDecision double.
Proof. solve_decision. Defined.

Definition isNaN (x : double) : bool := match x with NaN => true | _ => false end.

(** [x < y]. *)
Definition double_lt (x y : double) : bool :=
  match x, y with
  | NaN, _ | _, NaN => false
  | Inf nx, Inf ny => nx && negb ny
  | Inf nx, Fin _ _ => nx
  | Fin _ _, Inf ny => negb ny
  | Fin m e, Fin m' e' =>
    let k := Z.min e e' in m * 2 ^ (e - k) <? m' * 2 ^ (e' - k)
  end.

(** ** Rounding a positive rational *)
Definition round_half_even (n d : Z) : Z :=
  let q := n / d in
  match 2 * (n mod d) ?= d with
  | Lt => q
  | Gt => q + 1
  | Eq => if Z.even q then q else q + 1
  end.

(** The exponent of the last place of [n / d], at least that of the subnormals. *)
Definition ulp_exponent (n d : Z) : Z :=
  let k := Z.log2 n - Z.log2 d in
  let below := if 0 <=? k then n <? d * 2 ^ k else n * 2 ^ (- k) <? d in
  Z.max (-1074) ((if below then k - 1 else k) - 52).

Definition round_ratio (negative : bool) (n d : Z) : double :=
  if n =? 0 then Fin 0 0
  else
    let e := ulp_exponent n d in
    let q := if 0 <=? e then round_half_even n (d * 2 ^ e) else round_half_even (n * 2 ^ (- e)) d in
    if (0 <=? e) && (2 ^ 1024 <=? q * 2 ^ e) then Inf negative
    else Fin (if negative then - q else q) e.

(** ** The grammar *)
Fixpoint span (p : N -> bool) (s : jstr) : jstr * jstr :=
  match s with
  | [] => ([], [])
  | c :: s' => if p c then let (a, b) := span p s' in (c :: a, b) else ([], s)
  end.

Definition take_sign (s : jstr) : bool * jstr :=
  match s with
  | 45%N :: s' => (true, s')
  | 43%N :: s' => (false, s')
  | _ => (false, s)
  end.

Definition decimal_double (negative : bool) (n k : Z) : double :=
  if 0 <=? k then round_ratio negative (n * 10 ^ k) 1 else round_ratio negative n (10 ^ (- k)).

Definition unsigned_decimal (negative : bool) (s : jstr) : double :=
  let (ip, r) := span is_digit s in
  let (fp, r2) := match r with 46%N :: r' => span is_digit r' | _ => ([], r) end in
  if bool_decide (ip ++ fp = []) then NaN
  else
    let n := digits_value (ip ++ fp) in
    let k := - Z.of_nat (length fp) in
    match r2 with
    | [] => decimal_double negative n k
    | c :: r3 =>
      if ((c =? 101) || (c =? 69))%N then
        let (eneg, ed) := take_sign r3 in
        let (digits, rest) := span is_digit ed in
        if bool_decide (digits = []) || negb (bool_decide (rest = [])) then NaN
        else decimal_double negative n (k + (if eneg then - digits_value digits else digits_value digits))
      else NaN
    end.

Definition radix_digit (c : N) : Z :=
  if is_digit c then Z.of_N c - 48
  else if ((97 <=? c) && (c <=? 102))%N then Z.of_N c - 87
  else if ((65 <=? c) && (c <=? 70))%N then Z.of_N c - 55
  else 99.

Definition radix_integer (radix : Z) (s : jstr) : double :=
  if bool_decide (s = []) || negb (forallb (fun c => radix_digit c <? radix) s) then NaN
  else round_ratio false (fold_left (fun acc c => acc * radix + radix_digit c) s 0) 1.

Definition Number (raw : jstr) : double :=
  let s := trim raw in
  match s with
  | [] => Fin 0 0
  | 48%N :: x :: r =>
    if ((x =? 120) || (x =? 88))%N then radix_integer 16 r
    else if ((x =? 111) || (x =? 79))%N then radix_integer 8 r
    else if ((x =? 98) || (x =? 66))%N then radix_integer 2 r
    else unsigned_decimal false s
  | _ =>
    let (negative, r) := take_sign s in
    if bool_decide (r = js "Infinity") then Inf negative else unsigned_decimal negative r
  end.

(** ** Arithmetic *)

(** The product of a nonnegative double and a natural number. *)
Definition double_scale (x : double) (k : Z) : double :=
  match x with
  | Fin m e => if 0 <=? e then round_ratio false (m * 2 ^ e * k) 1 else round_ratio false (m * k) (2 ^ (- e))
  | _ => x
  end.

(** [Math.round]: to the nearest integer, ties up; [None] when there is none. *)
Definition math_round (x : double) : option Z :=
  match x with
  | Fin m e => Some (if 0 <=? e then m * 2 ^ e else (2 * m + 2 ^ (- e)) / (2 * 2 ^ (- e)))
  | _ => None
  end.

(** [Math.round((loaded / total) * 100)] *)
Definition percentage (loaded total : Z) : Z := default 0 (math_round (double_scale (round_ratio false loaded total) 100)).

(** ** Lemmas *)
Lemma round_half_even_le n d b : 0 <= n -> 0 < d -> n <= b * d -> 0 <= round_half_even n d <= b.
Proof.
  intros Hn Hd Hb. unfold round_half_even. pose proof (Z.div_mod n d ltac:(lia)) as Hdm.
  pose proof (Z.mod_pos_bound n d Hd) as Hm. assert (0 <= n / d) by (apply Z.div_pos; lia).
  set (q := n / d) in *. set (r := n mod d) in *. clearbody q r.
  assert (Hlt : q < b \/ q = b /\ r = 0) by
    (destruct (Z.lt_trichotomy q b) as [?|[->|?]]; [by left|right; split; [done|lia]|];
     assert (0 <= d * (q - b - 1)) by (apply Z.mul_nonneg_nonneg; lia); lia).
  destruct (Z.compare_spec (2 * r) d); [destruct (Z.even q)| |]; lia.
Qed.

Lemma ulp_exponent_small n d : 0 < n -> 0 < d -> n < 2 ^ 52 * d -> ulp_exponent n d <= 0.
Proof.
  intros Hn Hd Hlt. unfold ulp_exponent. pose proof (Z.log2_spec n Hn) as [Hl _]. pose proof (Z.log2_spec d Hd) as [_ Hu].
  pose proof (Z.log2_nonneg n). pose proof (Z.log2_nonneg d).
  assert (Hlog : Z.log2 n < 52 + Z.succ (Z.log2 d)).
  { apply (Z.pow_lt_mono_r_iff 2); [lia..|]. rewrite Z.pow_add_r by lia. nia. }
  repeat case_match; lia.
Qed.

(** A quotient of at most [b] rounds to at most [b]. *)
Lemma round_ratio_le n d b : 0 <= n -> 0 < d -> 0 <= b < 2 ^ 52 -> n <= b * d ->
  exists m e, round_ratio false n d = Fin m e /\ e <= 0 /\ 0 <= m <= b * 2 ^ (- e).
Proof.
  intros Hn Hd Hb Hle. unfold round_ratio. destruct (Z.eqb_spec n 0) as [->|Hne]; [exists 0, 0; change (2 ^ (- 0)) with 1; split; [done|lia]|].
  assert (He : ulp_exponent n d <= 0) by (apply ulp_exponent_small; nia).
  set (e := ulp_exponent n d) in *. clearbody e. pose proof (Z.pow_pos_nonneg 2 (- e) ltac:(lia) ltac:(lia)) as Hp.
  destruct (Z.leb_spec 0 e) as [H0|H0].
  - assert (e = 0) as -> by lia. cbn [Z.pow Z.opp Z.pow_pos andb]. rewrite !Z.mul_1_r in *.
    pose proof (round_half_even_le n d b Hn Hd Hle) as Hr.
    destruct (Z.leb_spec (2 ^ 1024) (round_half_even n d)) as [Hbig|_].
    + assert (2 ^ 52 < 2 ^ 1024) by (apply Z.pow_lt_mono_r; lia). lia.
    + do 2 eexists. split; [done|]. lia.
  - cbn [andb]. do 2 eexists. split; [done|]. split; [lia|]. apply round_half_even_le; nia.
Qed.

Lemma percentage_bounds loaded total : 0 <= loaded <= total -> 0 < total -> 0 <= percentage loaded total <= 100.
Proof.
  intros Hl Ht. unfold percentage. destruct (round_ratio_le loaded total 1) as (m & e & -> & He & Hm); [lia..|].
  pose proof (Z.pow_pos_nonneg 2 (- e) ltac:(lia) ltac:(lia)) as Hp. cbn [double_scale].
  assert (Hs : exists m' e', (if 0 <=? e then round_ratio false (m * 2 ^ e * 100) 1 else round_ratio false (m * 100) (2 ^ (- e)))
    = Fin m' e' /\ e' <= 0 /\ 0 <= m' <= 100 * 2 ^ (- e')).
  { destruct (Z.leb_spec 0 e) as [H0|H0]; [assert (e = 0) as -> by lia; cbn [Z.pow Z.opp] in *|]; apply round_ratio_le; lia. }
  destruct Hs as (m' & e' & -> & He' & Hm'). cbn [math_round default].
  pose proof (Z.pow_pos_nonneg 2 (- e') ltac:(lia) ltac:(lia)) as Hp'.
  destruct (Z.leb_spec 0 e') as [H0|H0]; [assert (e' = 0) as -> by lia; cbn in *; lia|].
  set (p := 2 ^ (- e')) in *. clearbody p. cbn.
  assert (0 <= (2 * m' + p) / (2 * p)) by (apply Z.div_pos; lia).
  assert ((2 * m' + p) / (2 * p) < 101) by (apply Z.div_lt_upper_bound; lia). lia.
Qed.

Example percentage_thirds : (percentage 1 3, percentage 2 3, percentage 1 200, percentage 8388608 8388608) = (33, 67, 1, 100).
Proof. vm_compute. reflexivity. Qed.

Lemma double_lt_antisym x y : double_lt x y = true -> double_lt y x = false.
Proof.
  destruct x as [|[]|m e], y as [|[]|m' e']; simpl; try done.
  rewrite (Z.min_comm e' e). intros H. apply Z.ltb_lt in H. apply Z.ltb_ge. lia.
Qed.

Lemma span_all p s : Forall (fun c => p c = true) s -> span p s = (s, []).
Proof. induction 1 as [|c s Hc _ IH]; simpl; [done|]. by rewrite Hc, IH. Qed.

Lemma round_ratio_integer n :
  0 <= n < 2 ^ 53 -> exists k, 0 <= k /\ round_ratio false n 1 = Fin (n * 2 ^ k) (- k).
Proof.
  intros Hn. unfold round_ratio. destruct (Z.eqb_spec n 0) as [->|Hn0]; [by exists 0|].
  assert (Hlog : 0 <= Z.log2 n <= 52).
  { split; [apply Z.log2_nonneg|]. apply Z.lt_succ_r. apply Z.log2_lt_pow2; lia. }
  assert (He : ulp_exponent n 1 = Z.log2 n - 52).
  { unfold ulp_exponent. change (Z.log2 1) with 0. rewrite !Z.sub_0_r.
    replace (0 <=? Z.log2 n) with true by lia.
    destruct (Z.log2_spec n ltac:(lia)) as [Hle _]. rewrite Z.mul_1_l.
    apply Z.ltb_ge in Hle. rewrite Hle. lia. }
  rewrite He. assert (Hle : Z.log2 n - 52 <= 0) by lia. revert Hle. generalize (Z.log2 n - 52). intros e Hle.
  exists (- e). split; [lia|].
  assert (Hr : forall q, round_half_even q 1 = q).
  { intros q. unfold round_half_even. by rewrite Z.mod_1_r, Z.div_1_r. }
  destruct (Z.leb_spec 0 e).
  - assert (e = 0) as -> by lia. cbn -[Z.pow Z.mul Z.leb]. rewrite Hr, !Z.mul_1_r.
    assert (2 ^ 53 < 2 ^ 1024) by by apply Z.pow_lt_mono_r.
    destruct (Z.leb_spec (2 ^ 1024) n) as [Hge|_]; [lia|done].
  - simpl. rewrite Hr. by rewrite Z.opp_involutive.
Qed.

Lemma double_lt_scaled n m k l :
  0 <= k -> 0 <= l -> double_lt (Fin (n * 2 ^ k) (- k)) (Fin (m * 2 ^ l) (- l)) = (n <? m).
Proof.
  intros Hk Hl. simpl. set (e := Z.min (- k) (- l)).
  assert (E : forall x j, 0 <= j -> - j >= e -> x * 2 ^ j * 2 ^ (- j - e) = x * 2 ^ (- e)).
  { intros x j Hj Hje. rewrite <- Z.mul_assoc, <- Z.pow_add_r by lia. do 2 f_equal. lia. }
  rewrite !E by lia. assert (0 < 2 ^ (- e)) by (apply Z.pow_pos_nonneg; lia).
  destruct (Z.ltb_spec n m); [apply Z.ltb_lt|apply Z.ltb_ge]; nia.
Qed.

(** Decimal digit strings below 2^53 are read exactly, so they compare as the integers they denote. *)
Definition digit_string (s : jstr) : Prop :=
  s <> [] /\ Forall (fun c => is_digit c = true) s /\ digits_value s < 2 ^ 53.

Lemma is_digit_bounds c : is_digit c = true -> (48 <= c <= 57)%N.
Proof. unfold is_digit. lia. Qed.

Lemma digits_value_acc_nonneg s a :
  Forall (fun c => is_digit c = true) s -> 0 <= a ->
  0 <= fold_left (fun acc c => acc * 10 + (Z.of_N c - 48)) s a.
Proof.
  intros H. revert a. induction H as [|c s Hc _ IH]; intros a Ha; simpl; [done|].
  apply IH. apply is_digit_bounds in Hc. lia.
Qed.

Lemma digits_value_nonneg s : Forall (fun c => is_digit c = true) s -> 0 <= digits_value s.
Proof. intros H. by apply digits_value_acc_nonneg. Qed.

Lemma unsigned_decimal_digits s :
  s <> [] -> Forall (fun c => is_digit c = true) s ->
  unsigned_decimal false s = round_ratio false (digits_value s) 1.
Proof.
  intros Hne Hd. unfold unsigned_decimal. rewrite span_all by done. rewrite app_nil_r.
  rewrite bool_decide_eq_false_2 by done. unfold decimal_double. simpl. f_equal. lia.
Qed.

Lemma Number_digits s :
  s <> [] -> Forall (fun c => is_digit c = true) s ->
  Number s = round_ratio false (digits_value s) 1.
Proof.
  intros Hne Hd. rewrite <- unsigned_decimal_digits by done. unfold Number.
  rewrite trim_trimmed.
  2:{ apply no_space_trimmed. eapply Forall_impl; [exact Hd|]. intros c Hc%is_digit_bounds.
      unfold is_space. lia. }
  destruct s as [|c s]; [done|]. inversion Hd as [|? ? Hc Hd']; subst.
  apply is_digit_bounds in Hc.
  assert (Hs : take_sign (c :: s) = (false, c :: s)).
  { unfold take_sign. repeat (case_match; try done; try lia). }
  assert (Hi : bool_decide (c :: s = js "Infinity") = false).
  { apply bool_decide_eq_false. intros [= -> _]. lia. }
  destruct s as [|d s]; rewrite Hs, Hi.
  - repeat (case_match; try done).
  - inversion Hd' as [|? ? Hd0 _]; subst. apply is_digit_bounds in Hd0.
    replace ((d =? 120) || (d =? 88))%N with false by lia.
    replace ((d =? 111) || (d =? 79))%N with false by lia.
    replace ((d =? 98) || (d =? 66))%N with false by lia.
    repeat (case_match; try done).
Qed.

Lemma Number_digit_string s :
  digit_string s -> exists k, 0 <= k /\ Number s = Fin (digits_value s * 2 ^ k) (- k).
Proof.
  intros (Hne & Hd & Hlt). rewrite Number_digits by done. apply round_ratio_integer.
  split; [by apply digits_value_nonneg|done].
Qed.

Lemma digit_string_lt s t :
  digit_string s -> digit_string t -> double_lt (Number s) (Number t) = (digits_value s <? digits_value t).
Proof.
  intros (k & Hk & ->)%Number_digit_string (l & Hl & ->)%Number_digit_string. by apply double_lt_scaled.
Qed.

Lemma digit_string_not_nan s : digit_string s -> isNaN (Number s) = false.
Proof. by intros (k & _ & ->)%Number_digit_string. Qed.
