(* ===== verification/BrowserUtils.v ===== *)
(** * Repository browser: paths, version order, list preferences

    [browser/utils.js]: path segments and breadcrumbs, [compareSemver], the adjustments menu and
    [applyAdjustments]; and [packageResourceTarget] of [profile-links.js].  Collation
    ([localeCompare] with numeric, base-sensitivity options) is the parameter [locale_compare].
    When the comparator of a sort is inconsistent the language leaves the order open, so the theorems on
    sorted lists assume it is consistent. *)
From Stdlib Require Import Ascii String Sorting.Sorted.
From S2P Require Import Prelude JsString JsArray JsUri JsNumber.
Local Open Scope N_scope.

(** ** Paths *)
(** [s.replace(/%2B/g, '+')]. *)
Fixpoint restore_plus (s : jstr) : jstr :=
  match s with
  | c :: ((d :: e :: s'') as s') =>
    if (c =? 37) && (d =? 50) && (e =? 66) then 43 :: restore_plus s'' else c :: restore_plus s'
  | c :: s' => c :: restore_plus s'
  | [] => []
  end.

Definition encodePathSegment (segment : jstr) : option jstr := restore_plus <$> encodeURIComponent segment.

Definition nonempty (s : jstr) : bool := match s with [] => false | _ => true end.

Definition path_parts (path : jstr) : list jstr := List.filter nonempty (split 47 path).

(** [None]: an unpaired surrogate makes [encodeURIComponent] throw. *)
Definition encodeRelativePath (path : jstr) : option jstr :=
  join (js "/") <$> mapM encodePathSegment (path_parts path).

Definition decodePathSegment (segment : jstr) : jstr := default segment (decodeURIComponent segment).

Definition breadcrumbPathParts (path format : jstr) : list jstr :=
  let parts := path_parts path in
  match parts with
  | p0 :: ((p1 :: rest) as tl) =>
    if (format =? js "docker")%js then [p0; join (js "/") tl]
    else if (format =? js "npm")%js && negb (bool_decide (rest = []))
            && (decodePathSegment p1 =? js "packages")%js
    then [p0; p1; join (js "/") rest]
    else parts
  | _ => parts
  end.

Record resource := { format : option jstr; repository : option jstr; name : option jstr }.

Definition packageResourceTarget (r : resource) : option jstr :=
  parts ← mapM encodeURIComponent (path_parts (opt_str_or (name r) []));
  let name := join (js "/") parts in
  if bool_decide (format r = Some (js "maven")) then Some (js "/domain/" ++ name)
  else
    repository ← encodeURIComponent (opt_str_or (repository r) []);
    if bool_decide (format r = Some (js "cargo")) || bool_decide (format r = Some (js "npm"))
    then Some (js "/" ++ repository ++ js "/packages/" ++ name)
    else Some (js "/" ++ repository ++ js "/" ++ name).

(** ** Versions *)
Class Collation := { locale_compare : jstr -> jstr -> Z }.

(** ECMA-402 asks of [localeCompare] that it be a consistent comparison. *)
Class CollationLaws `{Collation} := {
  locale_antisym : forall a b, Z.sgn (locale_compare b a) = (- Z.sgn (locale_compare a b))%Z;
  locale_trans : forall a b c, (locale_compare a b <= 0 -> locale_compare b c <= 0 -> locale_compare a c <= 0)%Z;
}.

Section versions.
Context `{Collation}.

(** The loop over [pa] and [pb]; [Some r] when it returns [r]. *)
Fixpoint compare_parts (pa pb : list jstr) : option Z :=
  match pa, pb with
  | [], [] => None
  | [], _ => Some (-1)%Z
  | _, [] => Some 1%Z
  | pStrA :: pa', pStrB :: pb' =>
    let na := Number pStrA in
    let nb := Number pStrB in
    if negb (isNaN na) && negb (isNaN nb) then
      if double_lt nb na then Some 1%Z
      else if double_lt na nb then Some (-1)%Z
      else compare_parts pa' pb'
    else
      let strCmp := locale_compare pStrA pStrB in
      if negb (strCmp =? 0)%Z then Some strCmp else compare_parts pa' pb'
  end.

(** [a[1]] as a condition: present and not empty. *)
Definition has_suffix (a : list jstr) : bool := match a with _ :: s :: _ => nonempty s | _ => false end.

Definition compareSemver (rawA rawB : jstr) : Z :=
  let a := split 45 rawA in
  let b := split 45 rawB in
  let pa := split 46 (default [] (head a)) in
  let pb := split 46 (default [] (head b)) in
  match compare_parts pa pb with
  | Some r => r
  | None =>
    if has_suffix a && has_suffix b then locale_compare (join (js "-") (tail a)) (join (js "-") (tail b))
    else if negb (has_suffix a) && has_suffix b then 1
    else if has_suffix a && negb (has_suffix b) then -1
    else 0
  end%Z.

(** ** The file list *)
Record file := { file_name : jstr; file_type : jstr; file_signed : bool; content_length : option Z }.

Definition is_directory (f : file) : bool := (file_type f =? js "DIRECTORY")%js.

Definition hash_extensions : list jstr := [js ".asc"; js ".md5"; js ".sha1"; js ".sha256"; js ".sha512"].

Definition visible (displayHashFiles : bool) (f : file) : bool :=
  displayHashFiles || negb (existsb (fun ext => ends_with ext (file_name f)) hash_extensions).

Definition name_compare (directories : bool) (a b : jstr) : Z :=
  let cmp := if directories then compareSemver a b else 0%Z in
  if (cmp =? 0)%Z then locale_compare a b else cmp.

Definition file_compare (reversedFileOrder : bool) (a b : file) : Z :=
  if is_directory a && negb (is_directory b) then -1
  else if negb (is_directory a) && is_directory b then 1
  else
    let cmp := name_compare (is_directory a && is_directory b) (file_name a) (file_name b) in
    if reversedFileOrder then - cmp else cmp.

Definition applyAdjustments (displayHashFiles reversedFileOrder : bool) (files : list file) : list file :=
  array_sort (file_compare reversedFileOrder) (List.filter (visible displayHashFiles) files).
End versions.

(** ** The adjustments menu *)
Record preferences := { reversedFileOrder : bool; displayHashFiles : bool }.

(** [localStorage]: string keys to string values. *)
Abbreviation storage := (gmap jstr jstr).

Definition load_preferences (st : storage) : preferences := {|
  reversedFileOrder := bool_decide (st !! js "reversedFileOrder" = Some (js "true"));
  displayHashFiles := negb (bool_decide (st !! js "displayHashFiles" = Some (js "false")));
|}.

(** [String(b)], what [setItem] stores for a boolean. *)
Definition bool_string (b : bool) : jstr := if b then js "true" else js "false".

Record menu := {
  has_panel : bool;          (** both [adjustments-btn] and [adjustments-menu] exist *)
  has_sort : bool;           (** [sort-order-checkbox] exists *)
  has_utility : bool;        (** [utility-files-checkbox] exists *)
  has_refresh : bool;        (** an [onRefresh] callback was given *)
}.

Record menu_state := {
  prefs : preferences;
  store : storage;
  sort_checked : bool;
  utility_checked : bool;
  panelOpen : bool;
  is_open : bool;            (** the menu's classes *)
  is_closing : bool;
  aria_hidden : bool;
  active : bool;             (** the button's class and aria-expanded *)
  expanded : bool;
  opens_upward : option bool;
  closing_listeners : nat;   (** pending one-shot [animationend] listeners *)
  refreshes : nat;
}.

Definition initUtils (m : menu) (p : preferences) (st : storage) : menu_state := {|
  prefs := p; store := st;
  sort_checked := has_sort m && reversedFileOrder p;
  utility_checked := has_utility m && displayHashFiles p;
  panelOpen := false; is_open := false; is_closing := false; aria_hidden := true;
  active := false; expanded := false; opens_upward := None; closing_listeners := 0; refreshes := 0;
|}.

Definition openPanel (rect_bottom innerHeight : Z) (s : menu_state) : menu_state :=
  if panelOpen s then s
  else {| prefs := prefs s; store := store s; sort_checked := sort_checked s; utility_checked := utility_checked s;
          panelOpen := true; is_open := true; is_closing := false; aria_hidden := false;
          active := true; expanded := true;
          opens_upward := Some (innerHeight <? rect_bottom + 240)%Z;
          closing_listeners := closing_listeners s; refreshes := refreshes s |}.

Definition closePanel (s : menu_state) : menu_state :=
  if negb (panelOpen s) then s
  else {| prefs := prefs s; store := store s; sort_checked := sort_checked s; utility_checked := utility_checked s;
          panelOpen := false; is_open := false; is_closing := true; aria_hidden := true;
          active := false; expanded := false; opens_upward := opens_upward s;
          closing_listeners := S (closing_listeners s); refreshes := refreshes s |}.

Definition set_preferences (m : menu) (p : preferences) (key value : jstr) (s : menu_state) : menu_state :=
  {| prefs := p; store := <[key := value]> (store s);
     sort_checked := sort_checked s; utility_checked := utility_checked s;
     panelOpen := panelOpen s; is_open := is_open s; is_closing := is_closing s; aria_hidden := aria_hidden s;
     active := active s; expanded := expanded s; opens_upward := opens_upward s;
     closing_listeners := closing_listeners s;
     refreshes := if has_refresh m then S (refreshes s) else refreshes s |}.

Definition with_checked (sort utility : bool) (s : menu_state) : menu_state :=
  {| prefs := prefs s; store := store s; sort_checked := sort; utility_checked := utility;
     panelOpen := panelOpen s; is_open := is_open s; is_closing := is_closing s; aria_hidden := aria_hidden s;
     active := active s; expanded := expanded s; opens_upward := opens_upward s;
     closing_listeners := closing_listeners s; refreshes := refreshes s |}.

Inductive menu_event :=
| ButtonClick (rect_bottom innerHeight : Z)
| DocumentClick (inside_menu_or_button : bool)
| SortChange (checked : bool)
| UtilityChange (checked : bool)
| AnimationEnd.

Definition menu_step (m : menu) (ev : menu_event) (s : menu_state) : menu_state :=
  match ev with
  | ButtonClick rect_bottom innerHeight =>
    if has_panel m then if panelOpen s then closePanel s else openPanel rect_bottom innerHeight s else s
  | DocumentClick inside => if panelOpen s && negb inside then closePanel s else s
  | SortChange checked =>
    if has_sort m then
      set_preferences m {| reversedFileOrder := checked; displayHashFiles := displayHashFiles (prefs s) |}
        (js "reversedFileOrder") (bool_string checked) (with_checked checked (utility_checked s) s)
    else s
  | UtilityChange checked =>
    if has_utility m then
      set_preferences m {| reversedFileOrder := reversedFileOrder (prefs s); displayHashFiles := checked |}
        (js "displayHashFiles") (bool_string checked) (with_checked (sort_checked s) checked s)
    else s
  | AnimationEnd =>
    {| prefs := prefs s; store := store s; sort_checked := sort_checked s; utility_checked := utility_checked s;
       panelOpen := panelOpen s; is_open := is_open s;
       is_closing := match closing_listeners s with O => is_closing s | S _ => false end;
       aria_hidden := aria_hidden s; active := active s; expanded := expanded s;
       opens_upward := opens_upward s; closing_listeners := 0; refreshes := refreshes s |}
  end.

Definition menu_run (m : menu) (evs : list menu_event) (s : menu_state) : menu_state :=
  fold_left (fun s ev => menu_step m ev s) evs s.

(** ** Lemmas on paths *)
Lemma restore_plus_cons3 c d e s :
  restore_plus (c :: d :: e :: s) =
  if (c =? 37) && (d =? 50) && (e =? 66) then 43 :: restore_plus s else c :: restore_plus (d :: e :: s).
Proof. done. Qed.

Lemma restore_plus_raw c s : c <> 37 -> restore_plus (c :: s) = c :: restore_plus s.
Proof.
  intros Hc. destruct s as [|d [|e s]]; [done..|]. rewrite restore_plus_cons3.
  by replace (c =? 37) with false by lia.
Qed.

Lemma hex_upper_not_percent n : hex_upper n <> 37.
Proof. unfold hex_upper. case_match; lia. Qed.

Lemma hex_upper_inj n m : n < 16 -> m < 16 -> hex_upper n = hex_upper m -> n = m.
Proof. unfold hex_upper. intros Hn Hm. repeat case_match; lia. Qed.

Lemma restore_plus_percent b s :
  b < 256 -> restore_plus (percent b ++ s) = if b =? 43 then 43 :: restore_plus s else percent b ++ restore_plus s.
Proof.
  intros Hb. pose proof (N.mod_lt b 16 ltac:(lia)). pose proof (N.Div0.div_lt_upper_bound b 16 16 ltac:(lia)).
  unfold percent. cbn [app]. rewrite restore_plus_cons3.
  destruct (N.eqb_spec b 43) as [->|Hne]; [done|].
  replace ((37 =? 37) && (hex_upper (b / 16) =? 50) && (hex_upper (b mod 16) =? 66)) with false.
  2:{ destruct (N.eqb_spec (hex_upper (b / 16)) 50) as [H1|]; [|done].
      destruct (N.eqb_spec (hex_upper (b mod 16)) 66) as [H2|]; [|done].
      apply (hex_upper_inj _ 2) in H1; [|done..]. apply (hex_upper_inj _ 11) in H2; [|done..].
      pose proof (N.div_mod b 16 ltac:(lia)). lia. }
  rewrite restore_plus_raw by apply hex_upper_not_percent.
  by rewrite restore_plus_raw by apply hex_upper_not_percent.
Qed.

Lemma restore_plus_escapes bs s :
  Forall (fun b => b < 256 /\ b <> 43) bs ->
  restore_plus (flat_map percent bs ++ s) = flat_map percent bs ++ restore_plus s.
Proof.
  induction 1 as [|b bs [Hb H43] _ IH]; cbn [flat_map]; [done|].
  rewrite <- !(assoc_L (++)), restore_plus_percent, IH by done.
  by replace (b =? 43) with false by lia.
Qed.

Lemma utf8_not_plus cp : cp < 0x110000 -> cp <> 43 -> Forall (fun b => b < 256 /\ b <> 43) (utf8 cp).
Proof.
  intros Hcp H43. apply Forall_and. split; [by apply utf8_bytes|].
  unfold utf8. repeat case_match; repeat constructor; lia.
Qed.

(** Characters of an encoded segment: never [/]. *)
Definition segment_char (c : N) : bool := uri_safe c || (c =? 43).

Lemma restore_plus_spec s e :
  is_utf16 s -> encodeURIComponent s = Some e ->
  decodeURIComponent (restore_plus e) = Some s /\ Forall (fun c => segment_char c = true) (restore_plus e).
Proof.
  apply (encode_ind (fun s e => decodeURIComponent (restore_plus e) = Some s /\
    Forall (fun c => segment_char c = true) (restore_plus e))); [done|..]; clear s e.
  - intros c s e Hc [IH Hf]. pose proof (unreserved_not_percent c Hc).
    rewrite restore_plus_raw by done. split; [by rewrite decode_raw, IH|].
    constructor; [|done]. unfold segment_char, uri_safe. by rewrite Hc.
  - intros c s e _ Hc Hs [IH Hf]. destruct (decide (c = 43)) as [->|H43].
    + change (flat_map percent (utf8 43) ++ e) with (percent 43 ++ e). rewrite restore_plus_percent by done.
      cbn [N.eqb Pos.eqb]. split; [by rewrite decode_raw, IH|]. by constructor.
    + rewrite restore_plus_escapes by (apply utf8_not_plus; lia). split.
      * rewrite decode_escaped, IH by lia. simpl. by rewrite units_of_bmp.
      * apply Forall_app. split; [|done]. eapply Forall_impl; [apply escapes_safe, utf8_bytes; lia|].
        unfold segment_char. intros d Hd. simpl in Hd. by rewrite Hd.
  - intros h l s e Hh Hl [IH Hf]. pose proof (combine_surrogates_range h l Hh Hl).
    rewrite restore_plus_escapes by (apply utf8_not_plus; lia). split.
    + rewrite decode_escaped, IH by lia. simpl. by rewrite units_of_combined.
    + apply Forall_app. split; [|done]. eapply Forall_impl; [apply escapes_safe, utf8_bytes; lia|].
      unfold segment_char. intros d Hd. simpl in Hd. by rewrite Hd.
Qed.

Lemma encodePathSegment_spec s e :
  is_utf16 s -> encodePathSegment s = Some e ->
  decodePathSegment e = s /\ Forall (fun c => segment_char c = true) e.
Proof.
  unfold encodePathSegment, decodePathSegment. intros Hs He.
  destruct (encodeURIComponent s) as [r|] eqn:Hr; simplify_eq/=.
  destruct (restore_plus_spec s r Hs Hr) as [-> Hf]. done.
Qed.

Lemma segment_char_not_slash e : Forall (fun c => segment_char c = true) e -> 47 ∉ e.
Proof. rewrite Forall_forall. intros Hf Hin. by specialize (Hf _ Hin). Qed.

Lemma decode_nil : decodePathSegment [] = [].
Proof. done. Qed.

Lemma path_parts_nonempty path p : p ∈ path_parts path -> p <> [].
Proof. unfold path_parts. rewrite list_elem_of_In, filter_In. intros [_ H] ->. done. Qed.

Lemma path_parts_split path p : p ∈ path_parts path -> p ∈ split 47 path.
Proof. unfold path_parts. rewrite !list_elem_of_In, filter_In. tauto. Qed.

Lemma split_utf16 c s p : is_utf16 s -> p ∈ split c s -> is_utf16 p.
Proof.
  intros Hs. revert p. unfold split. induction Hs as [|a s Ha Hs IH]; intros p; simpl.
  - rewrite list_elem_of_singleton. intros ->. constructor.
  - destruct (c =? a).
    + rewrite elem_of_cons. intros [->|Hp]; [constructor|by apply IH].
    + destruct (split_on (N.eqb c) s) as [|q qs] eqn:E.
      * rewrite list_elem_of_singleton. intros ->. by repeat constructor.
      * rewrite elem_of_cons. intros [->|Hp].
        -- constructor; [done|]. apply IH, list_elem_of_here.
        -- apply IH. by apply list_elem_of_further.
Qed.

Lemma path_parts_join ps :
  Forall (fun p => p <> [] /\ 47 ∉ p) ps -> path_parts (join (js "/") ps) = ps.
Proof.
  intros Hps. destruct (decide (ps = [])) as [->|Hne]; [done|]. unfold path_parts.
  rewrite split_join; [|done|by eapply Forall_impl; [exact Hps|intros ? []]].
  clear Hne. induction Hps as [|p ps [Hp _] _ IH]; simpl; [done|]. destruct p; [done|]. simpl. by rewrite IH.
Qed.

Lemma mapM_segments ps es :
  Forall (fun p => p <> [] /\ is_utf16 p) ps -> mapM encodePathSegment ps = Some es ->
  map decodePathSegment es = ps /\ Forall (fun e => e <> [] /\ Forall (fun c => segment_char c = true) e) es.
Proof.
  intros Hps. revert es. induction Hps as [|p ps [Hne Hp] _ IH]; intros es; simpl; [by intros [= <-]|].
  destruct (encodePathSegment p) as [e|] eqn:He; simpl; [|done].
  destruct (mapM encodePathSegment ps) as [r|]; simpl; [|done]. intros [= <-].
  destruct (IH r eq_refl) as [Hm Hf]. destruct (encodePathSegment_spec p e Hp He) as [Hd Hs].
  simpl. rewrite Hd, Hm. split; [done|]. constructor; [|done]. split; [|done].
  intros ->. by rewrite decode_nil in Hd.
Qed.

Lemma breadcrumb_join path format :
  join (js "/") (breadcrumbPathParts path format) = join (js "/") (path_parts path).
Proof.
  unfold breadcrumbPathParts. destruct (path_parts path) as [|p0 [|p1 rest]]; [done..|].
  destruct (format =? js "docker")%js; [by destruct rest|].
  destruct ((format =? js "npm")%js && _ && _) eqn:E; [|done].
  destruct rest; [|done]. by rewrite andb_false_r in E.
Qed.

(** Repository paths survive their trip through the URL: when [encodeRelativePath] does not throw,
    splitting its result on [/] and decoding each piece gives back exactly the non-empty segments of the
    path; a literal [+] is kept raw and every other character is unreserved, [%] or a separator; and the
    breadcrumbs of a path regroup its segments without losing or reordering any. *)
Theorem encodeRelativePath_roundtrip path e format :
  is_utf16 path -> encodeRelativePath path = Some e ->
  map decodePathSegment (path_parts e) = path_parts path /\
  Forall (fun c => segment_char c = true \/ c = 47) e /\
  join (js "/") (breadcrumbPathParts e format) = e.
Proof.
  intros Hu He. unfold encodeRelativePath in He.
  destruct (mapM encodePathSegment (path_parts path)) as [es|] eqn:Hes; simplify_eq/=.
  assert (Hparts : Forall (fun p => p <> [] /\ is_utf16 p) (path_parts path)).
  { apply Forall_forall. intros p Hp. split; [by eapply path_parts_nonempty|].
    eapply split_utf16; [exact Hu|by apply path_parts_split]. }
  destruct (mapM_segments _ _ Hparts Hes) as [Hm Hf].
  assert (Hps : path_parts (join (js "/") es) = es).
  { apply path_parts_join. eapply Forall_impl; [exact Hf|]. intros x [Hne Hx].
    split; [done|by apply segment_char_not_slash]. }
  split; [by rewrite Hps|]. split; [|by rewrite breadcrumb_join, Hps].
  clear -Hf. induction Hf as [|x es [_ Hx] Hes IH]; simpl; [constructor|].
  assert (Hx' : Forall (fun c => segment_char c = true \/ c = 47) x)
    by (eapply Forall_impl; [exact Hx|]; auto).
  destruct es; [done|]. apply Forall_app. split; [done|]. constructor; [by right|done].
Qed.

Lemma encodeRelativePath_roundtrip_witness :
  let path := js "/releases/net/1.2.0+26.1 beta/" in
  encodeRelativePath path = Some (js "releases/net/1.2.0+26.1%20beta") /\
  map decodePathSegment (path_parts (js "releases/net/1.2.0+26.1%20beta")) = path_parts path.
Proof.
  split; [vm_compute; reflexivity|].
  apply (encodeRelativePath_roundtrip (js "/releases/net/1.2.0+26.1 beta/") _ (js "maven")).
  - apply is_utf16_forallb. reflexivity.
  - vm_compute. reflexivity.
Defined.

(** ** Lemmas on versions *)
Section version_lemmas.
Context `{CollationLaws}.

Lemma locale_refl a : locale_compare a a = 0%Z.
Proof. pose proof (locale_antisym a a). lia. Qed.

Definition sgn_opt (r : option Z) : option Z := Z.sgn <$> r.
Definition opp_opt (r : option Z) : option Z := Z.opp <$> r.

Lemma compare_parts_antisym pa pb : sgn_opt (compare_parts pb pa) = opp_opt (sgn_opt (compare_parts pa pb)).
Proof.
  revert pb. induction pa as [|x pa IH]; intros [|y pb]; simpl; [done..|].
  rewrite (andb_comm (negb (isNaN (Number y)))). destruct (_ && _).
  - destruct (double_lt (Number y) (Number x)) eqn:Hyx.
    + by rewrite (double_lt_antisym _ _ Hyx).
    + destruct (double_lt (Number x) (Number y)); [done|apply IH].
  - pose proof (locale_antisym x y) as Ha.
    destruct (Z.eqb_spec (locale_compare y x) 0), (Z.eqb_spec (locale_compare x y) 0); simpl; try lia.
    + apply IH.
    + by rewrite Ha.
Qed.

Lemma compareSemver_antisym a b : Z.sgn (compareSemver b a) = (- Z.sgn (compareSemver a b))%Z.
Proof.
  unfold compareSemver.
  pose proof (compare_parts_antisym (split 46 (default [] (head (split 45 a))))
    (split 46 (default [] (head (split 45 b))))) as Hp.
  destruct (compare_parts (split 46 (default [] (head (split 45 b)))) _) as [r|],
    (compare_parts (split 46 (default [] (head (split 45 a)))) _) as [r'|]; simpl in Hp; simplify_eq; [lia|].
  destruct (has_suffix (split 45 a)), (has_suffix (split 45 b)); simpl; try done. apply locale_antisym.
Qed.

Lemma name_compare_antisym d a b : Z.sgn (name_compare d b a) = (- Z.sgn (name_compare d a b))%Z.
Proof.
  unfold name_compare. destruct d.
  - pose proof (compareSemver_antisym a b). pose proof (locale_antisym a b).
    destruct (Z.eqb_spec (compareSemver b a) 0), (Z.eqb_spec (compareSemver a b) 0); simpl in *; lia.
  - apply locale_antisym.
Qed.

Lemma file_compare_antisym r a b : Z.sgn (file_compare r b a) = (- Z.sgn (file_compare r a b))%Z.
Proof.
  unfold file_compare. rewrite (andb_comm (is_directory b) (is_directory a)).
  pose proof (name_compare_antisym (is_directory a && is_directory b) (file_name a) (file_name b)).
  destruct (is_directory a), (is_directory b), r; simpl in *; lia.
Qed.

(** Comparing names is consistent among the names satisfying [P]. *)
Definition names_consistent (P : jstr -> Prop) : Prop :=
  forall a b c, P a -> P b -> P c ->
    (name_compare true a b <= 0 -> name_compare true b c <= 0 -> name_compare true a c <= 0)%Z.

Lemma file_compare_trans r (P : jstr -> Prop) a b c :
  names_consistent P ->
  (forall f, f = a \/ f = b \/ f = c -> is_directory f = true -> P (file_name f)) ->
  (file_compare r a b <= 0 -> file_compare r b c <= 0 -> file_compare r a c <= 0)%Z.
Proof.
  intros HP Hf. unfold file_compare.
  assert (Ht : forall d x y z, (d = true -> P x /\ P y /\ P z) ->
    (name_compare d x y <= 0 -> name_compare d y z <= 0 -> name_compare d x z <= 0)%Z).
  { intros [] x y z Hd; [destruct (Hd eq_refl) as (? & ? & ?); by apply HP|].
    unfold name_compare. simpl. apply locale_trans. }
  assert (Hflip : forall d x y, (- name_compare d x y <= 0 <-> name_compare d y x <= 0)%Z).
  { intros d x y. pose proof (name_compare_antisym d x y). lia. }
  assert (Hd : is_directory a && is_directory b && is_directory c = true ->
    P (file_name a) /\ P (file_name b) /\ P (file_name c)).
  { intros [[]%andb_prop ?]%andb_prop. repeat split; apply Hf; auto. }
  destruct (is_directory a), (is_directory b), (is_directory c); cbn [andb negb] in *; try (clear; lia);
    destruct r; rewrite ?Hflip.
  - intros Hab Hbc. eapply (Ht true); [|exact Hbc|exact Hab]. tauto.
  - apply (Ht true). tauto.
  - intros Hab Hbc. by eapply (Ht false); [|exact Hbc|exact Hab].
  - by apply (Ht false).
Qed.

(** *** Release versions: dotted decimal numbers *)
Definition release (core : jstr) : Prop := Forall digit_string (split 46 core).

(** Lexicographic order, a proper prefix first. *)
Fixpoint lex_compare (xs ys : list Z) : comparison :=
  match xs, ys with
  | [], [] => Eq
  | [], _ => Lt
  | _, [] => Gt
  | x :: xs', y :: ys' => match (x ?= y)%Z with Eq => lex_compare xs' ys' | c => c end
  end.

Lemma compare_parts_digits pa pb :
  Forall digit_string pa -> Forall digit_string pb ->
  compare_parts pa pb =
  match lex_compare (map digits_value pa) (map digits_value pb) with
  | Lt => Some (-1)%Z | Gt => Some 1%Z | Eq => None
  end.
Proof.
  intros Ha. revert pb. induction Ha as [|x pa Hx Ha IH]; intros pb Hb; destruct Hb as [|y pb Hy Hb]; simpl; [done..|].
  rewrite !digit_string_not_nan by done. simpl. rewrite !digit_string_lt by done.
  destruct (Z.compare_spec (digits_value x) (digits_value y)) as [E|L|L].
  - rewrite E, Z.ltb_irrefl. by apply IH.
  - replace (digits_value y <? digits_value x)%Z with false by lia.
    by replace (digits_value x <? digits_value y)%Z with true by lia.
  - by replace (digits_value y <? digits_value x)%Z with true by lia.
Qed.

Lemma release_no_dash core : release core -> 45 ∉ core.
Proof.
  intros Hr Hin. unfold release in Hr. rewrite <- (join_split 46 core) in Hin. revert Hin Hr.
  generalize (split 46 core) as ps. induction ps as [|p ps IH]; simpl.
  - by rewrite elem_of_nil.
  - intros Hin Hps. apply Forall_cons in Hps as [(_ & Hp & _) Hps].
    assert (H45 : 45 ∉ p).
    { intros Hd. rewrite Forall_forall in Hp. by specialize (Hp _ Hd). }
    destruct ps as [|q ps]; [done|]. apply elem_of_app in Hin as [Hin|Hin]; [done|].
    apply elem_of_cons in Hin as [Hin|Hin]; [done|by apply IH].
Qed.

(** [core] or [core-pre]. *)
Definition version (core : jstr) (pre : option jstr) : jstr :=
  core ++ match pre with Some p => 45 :: p | None => [] end.

Definition prerelease (p : jstr) : Prop := match p with [] => False | c :: _ => c <> 45 end.

Lemma version_split core pre :
  release core -> (forall p, pre = Some p -> prerelease p) ->
  exists tl, split 45 (version core pre) = core :: tl /\
    has_suffix (core :: tl) = bool_decide (is_Some pre) /\
    join (js "-") tl = default [] pre.
Proof.
  intros Hc%release_no_dash Hp. destruct pre as [p|]; unfold version.
  - exists (split 45 p). rewrite split_app_sep by done. split; [done|]. split; [|apply join_split].
    specialize (Hp p eq_refl). destruct p as [|c p]; [done|]. simpl in Hp.
    rewrite bool_decide_eq_true_2 by done. unfold split, has_suffix. cbn [split_on].
    replace (45 =? c) with false by lia. by destruct (split_on _ p).
  - exists []. rewrite app_nil_r. split; [|done]. unfold split. apply split_on_notin.
    intros d Hd. destruct (N.eqb_spec 45 d); [by subst|done].
Qed.
End version_lemmas.

(** Version order: on dotted decimal release numbers (each component below 2^53) [compareSemver] is the
    lexicographic order of the component values, a proper prefix first; equal releases order a pre-release
    before the release and two pre-releases by collation. *)
Theorem compareSemver_versions `{Collation} core core' pre pre' :
  release core -> release core' ->
  (forall p, pre = Some p -> prerelease p) -> (forall p, pre' = Some p -> prerelease p) ->
  compareSemver (version core pre) (version core' pre') =
  match lex_compare (map digits_value (split 46 core)) (map digits_value (split 46 core')) with
  | Lt => -1
  | Gt => 1
  | Eq =>
    match pre, pre' with
    | None, None => 0
    | None, Some _ => 1
    | Some _, None => -1
    | Some p, Some q => locale_compare p q
    end
  end%Z.
Proof.
  intros Hr Hr' Hp Hp'. unfold compareSemver.
  destruct (version_split core pre Hr Hp) as (tl & -> & Hs & Hj).
  destruct (version_split core' pre' Hr' Hp') as (tl' & -> & Hs' & Hj').
  cbn [head default tail]. rewrite compare_parts_digits by done.
  destruct (lex_compare _ _); [|done..]. rewrite Hs, Hs', Hj, Hj'.
  by destruct pre, pre'.
Qed.

Lemma lex_compare_sym xs ys : lex_compare ys xs = CompOpp (lex_compare xs ys).
Proof.
  revert ys. induction xs as [|x xs IH]; intros [|y ys]; simpl; try done.
  rewrite (Z.compare_antisym x y). destruct (x ?= y)%Z; simpl; [apply IH|done..].
Qed.

Lemma lex_compare_trans xs ys zs :
  lex_compare xs ys <> Gt -> lex_compare ys zs <> Gt ->
  lex_compare xs zs <> Gt /\ (lex_compare xs zs = Eq -> lex_compare xs ys = Eq /\ lex_compare ys zs = Eq).
Proof.
  revert ys zs. induction xs as [|x xs IH]; intros [|y ys] [|z zs]; simpl; try done.
  destruct (Z.compare_spec x y) as [->|Hxy|Hxy], (Z.compare_spec y z) as [->|Hyz|Hyz]; intros H1 H2; try done.
  - by apply IH.
  - apply Z.compare_lt_iff in Hxy as ->. split; intros [=].
  - assert (E : (x ?= z)%Z = Lt) by (apply Z.compare_lt_iff; lia). rewrite E. split; intros [=].
Qed.

(** Directory names that are release numbers are compared consistently. *)
Lemma release_names_consistent `{CollationLaws} : names_consistent release.
Proof.
  intros a b c Ha Hb Hc. unfold name_compare.
  pose proof (fun x y Hx Hy => compareSemver_versions x y None None Hx Hy ltac:(done) ltac:(done)) as Hv.
  unfold version in Hv. setoid_rewrite app_nil_r in Hv. rewrite !Hv by done.
  pose proof (lex_compare_trans (map digits_value (split 46 a)) (map digits_value (split 46 b))
    (map digits_value (split 46 c))) as Ht.
  pose proof (locale_trans a b c).
  intros Hab Hbc. destruct Ht as [Hne Heq].
  - intros E. by rewrite E in Hab.
  - intros E. by rewrite E in Hbc.
  - destruct (lex_compare (map digits_value (split 46 a)) (map digits_value (split 46 c))) eqn:E; [|done|done].
    destruct (Heq eq_refl) as [E1 E2]. rewrite E1 in Hab. rewrite E2 in Hbc. simpl in *. lia.
Qed.

(** The file list: [applyAdjustments] returns a permutation of the files it should show (hash and
    signature sidecars dropped exactly when the preference hides them), every directory before every other
    entry, and each entry in the order of the comparator, whenever directory names are compared
    consistently, as release numbers are. *)
Theorem applyAdjustments_sorted `{CollationLaws} (P : jstr -> Prop) display reversed files :
  names_consistent P ->
  Forall (fun f => is_directory f = true -> P (file_name f)) files ->
  let result := applyAdjustments display reversed files in
  result ≡ₚ List.filter (visible display) files /\
  (forall i j f g, result !! i = Some f -> result !! j = Some g -> i < j ->
     (file_compare reversed f g <= 0)%Z /\ (is_directory g = true -> is_directory f = true))%nat.
Proof.
  intros HP Hf. cbv zeta. split; [apply array_sort_perm|].
  assert (Hs : StronglySorted (cmp_le (file_compare reversed)) (applyAdjustments display reversed files)).
  { assert (Hin : forall f, f ∈ List.filter (visible display) files -> is_directory f = true -> P (file_name f)).
    { intros f. rewrite list_elem_of_In, filter_In, <- list_elem_of_In. intros [Hin _].
      rewrite Forall_forall in Hf. by apply Hf. }
    apply array_sort_sorted; unfold cmp_le.
    - intros a b _ _. pose proof (file_compare_antisym reversed a b). lia.
    - intros a b c Ha Hb Hc. apply (file_compare_trans reversed P); [done|].
      intros f [->|[->| ->]]; by apply Hin. }
  intros i j f g Hi Hj Hij.
  assert (Hle : cmp_le (file_compare reversed) f g).
  { revert i j Hi Hj Hij. induction Hs as [|x l Hs IH Hx]; intros [|i] [|j] Hi Hj Hij; simpl in *; try lia; try done.
    - simplify_eq. rewrite Forall_lookup in Hx. by eapply Hx.
    - eapply IH; [done..|lia]. }
  split; [exact Hle|]. unfold cmp_le, file_compare in Hle. intros Hg. rewrite Hg in Hle.
  destruct (is_directory f); [done|]. simpl in Hle. lia.
Qed.

(** A concrete collation for the witnesses: code-unit order. *)
Definition unit_collation : Collation := {|
  locale_compare := fun a b => match unit_compare a b with Lt => -1 | Eq => 0 | Gt => 1 end%Z |}.

Lemma unit_collation_laws : @CollationLaws unit_collation.
Proof.
  split; simpl.
  - intros a b. rewrite (unit_compare_sym a b). by destruct (unit_compare a b).
  - intros a b c. pose proof (unit_compare_trans a b c) as Ht.
    destruct (unit_compare a b), (unit_compare b c), (unit_compare a c); try done;
      exfalso; by apply Ht.
Qed.

Definition releaseb (core : jstr) : bool :=
  forallb (fun s => nonempty s && forallb is_digit s && (digits_value s <? 2 ^ 53)%Z) (split 46 core).

Lemma releaseb_release core : releaseb core = true -> release core.
Proof.
  unfold releaseb, release. rewrite forallb_forall, Forall_forall. intros Hb s Hs%list_elem_of_In.
  apply Hb in Hs. apply andb_prop in Hs as [[Hn Hd]%andb_prop Hlt]. split; [by intros ->|]. split; [|lia].
  rewrite forallb_forall in Hd. apply Forall_forall. intros c Hc%list_elem_of_In. by apply Hd.
Qed.

Lemma compareSemver_versions_witness :
  @compareSemver unit_collation (js "1.10.0-rc.1") (js "1.9.9") = 1%Z /\
  @compareSemver unit_collation (version (js "1.10.0") (Some (js "rc.1"))) (version (js "1.9.9") None) = 1%Z.
Proof.
  split; [vm_compute; reflexivity|].
  rewrite (@compareSemver_versions unit_collation (js "1.10.0") (js "1.9.9") (Some (js "rc.1")) None).
  - vm_compute. reflexivity.
  - by apply releaseb_release.
  - by apply releaseb_release.
  - intros p [= <-]. done.
  - done.
Defined.

Definition sample_files : list file :=
  [{| file_name := js "maven-metadata.xml"; file_type := js "FILE"; file_signed := false; content_length := Some 512%Z |};
   {| file_name := js "1.10"; file_type := js "DIRECTORY"; file_signed := false; content_length := None |};
   {| file_name := js "maven-metadata.xml.sha1"; file_type := js "FILE"; file_signed := false; content_length := Some 512%Z |};
   {| file_name := js "1.9"; file_type := js "DIRECTORY"; file_signed := false; content_length := None |}].

Lemma applyAdjustments_sorted_witness :
  map file_name (@applyAdjustments unit_collation false false sample_files)
    = [js "1.9"; js "1.10"; js "maven-metadata.xml"] /\
  @applyAdjustments unit_collation false false sample_files ≡ₚ
    List.filter (visible false) sample_files.
Proof.
  split; [vm_compute; reflexivity|].
  apply (@applyAdjustments_sorted unit_collation unit_collation_laws release false false sample_files).
  - apply (@release_names_consistent unit_collation unit_collation_laws).
  - unfold sample_files. rewrite !Forall_cons. split_and!; [..|by apply Forall_nil]; intros E;
      first [discriminate E|by apply releaseb_release].
Defined.

(** ** The adjustments menu *)
Definition menu_ok (m : menu) (s : menu_state) : Prop :=
  load_preferences (store s) = prefs s /\
  is_open s = panelOpen s /\ aria_hidden s = negb (panelOpen s) /\
  active s = panelOpen s /\ expanded s = panelOpen s /\
  (panelOpen s = true -> is_closing s = false /\ has_panel m = true) /\
  (has_sort m = true -> sort_checked s = reversedFileOrder (prefs s)) /\
  (has_utility m = true -> utility_checked s = displayHashFiles (prefs s)).

Lemma load_reversed st b :
  load_preferences (<[js "reversedFileOrder" := bool_string b]> st) =
  {| reversedFileOrder := b; displayHashFiles := displayHashFiles (load_preferences st) |}.
Proof.
  unfold load_preferences. rewrite lookup_insert_eq, lookup_insert_ne by done. simpl. by destruct b.
Qed.

Lemma load_display st b :
  load_preferences (<[js "displayHashFiles" := bool_string b]> st) =
  {| reversedFileOrder := reversedFileOrder (load_preferences st); displayHashFiles := b |}.
Proof.
  unfold load_preferences. rewrite lookup_insert_eq, lookup_insert_ne by done. simpl. by destruct b.
Qed.

Lemma menu_step_ok m ev s : menu_ok m s -> menu_ok m (menu_step m ev s).
Proof.
  intros (Hp & Ho & Hh & Ha & He & Hc & Hs & Hu). unfold menu_ok, menu_step.
  destruct ev as [bottom inner|inside|checked|checked|].
  - destruct (has_panel m) eqn:Hm; [|split_and!; auto].
    destruct (panelOpen s) eqn:Hopen; [unfold closePanel|unfold openPanel]; rewrite Hopen; simpl;
      split_and!; auto; done.
  - destruct (panelOpen s) eqn:Hopen, inside; simpl; rewrite ?Hopen; try (split_and!; done).
    unfold closePanel. rewrite Hopen. simpl. split_and!; auto; done.
  - destruct (has_sort m) eqn:Hm; [|split_and!; auto]. simpl. rewrite load_reversed, Hp. split_and!; auto.
  - destruct (has_utility m) eqn:Hm; [|split_and!; auto]. simpl. rewrite load_display, Hp. split_and!; auto.
  - simpl. destruct (closing_listeners s); split_and!; auto. intros Hopen. split; [done|by apply Hc].
Qed.

(** The adjustments menu: from start-up on preferences read from [localStorage], after any sequence of
    clicks, checkbox changes and animation ends, the preferences in memory are exactly those a reload
    would read back, the check boxes show them, and the panel's classes and ARIA attributes agree with
    whether it is open; a panel that is open is never in its closing animation; and every event leaves
    the refresh counter in step with the changes of preference. *)
Theorem menu_consistent m st evs :
  let s := menu_run m evs (initUtils m (load_preferences st) st) in
  menu_ok m s /\
  refreshes s =
    if has_refresh m then
      length (List.filter (fun ev => match ev with
        | SortChange _ => has_sort m | UtilityChange _ => has_utility m | _ => false end) evs)
    else 0%nat.
Proof.
  cbv zeta. unfold menu_run. rewrite <- (rev_involutive evs).
  induction (rev evs) as [|ev l IH].
  - simpl. split; [|by destruct (has_refresh m)]. unfold menu_ok. simpl. repeat split; try done.
    + by intros ->.
    + by intros ->.
  - simpl. rewrite fold_left_app, List.filter_app, length_app. destruct IH as [IH Hr]. split; [by apply menu_step_ok|].
    simpl. revert Hr. generalize (fold_left (fun s ev => menu_step m ev s) (rev l) (initUtils m (load_preferences st) st)).
    intros s Hr. destruct ev; simpl; rewrite ?Nat.add_0_r, <- ?Hr; unfold closePanel, openPanel;
      destruct (has_refresh m) eqn:Href; rewrite <- ?Hr;
      try (destruct (has_sort m)); try (destruct (has_utility m)); try (destruct (has_panel m));
      try (destruct (panelOpen s)); try (destruct inside_menu_or_button); simpl; rewrite ?Hr, ?Href; lia.
Qed.
