(* ===== verification/JsJson.v ===== *)
(** * JSON values

    What [JSON.parse] and [Response.json] give: values with integer numbers, objects as association lists
    in source order (a repeated key keeps its last value).  A JavaScript value read from them is an
    [option json], [None] being [undefined]. *)
From Stdlib Require Import Ascii String.
From S2P Require Import Prelude JsString JsNumber.

Inductive json : Type :=
| JNull
| JBool (b : bool)
| JNum (z : Z)
| JStr (s : jstr)
| JArr (l : list json)
| JObj (fields : list (jstr * json)).

(** Lists of values that can be compared can be compared. *)
Definition list_dec {A} (f : forall x y : A, {x = y} + {x <> y}) : forall l k : list A, {l = k} + {l <> k}.
Proof.
  fix go 1. intros [|x l] [|y k]; [by left|by right..|].
  destruct (f x y) as [->|]; [|right; congruence]. destruct (go l k) as [->|]; [by left|right; congruence].
Defined.

#[export] Instance json_eq_dec : EqDecision json.
Proof.
  unfold EqDecision, Decision. fix go 1. intros [|b|z|s|l|f] [|b'|z'|s'|l'|f']; try (right; discriminate).
  - by left.
  - destruct (decide (b = b')); [left|right]; congruence.
  - destruct (decide (z = z')); [left|right]; congruence.
  - destruct (decide (s = s')); [left|right]; congruence.
  - destruct (list_dec go l l'); [left|right]; congruence.
  - destruct (list_dec (fun p q : jstr * json => ltac:(
      destruct p as [k v], q as [k' v']; destruct (decide (k = k')); [|right; congruence];
      destruct (go v v'); [left|right]; congruence)) f f'); [left|right]; congruence.
Defined.

Definition truthy (v : option json) : bool :=
  match v with
  | None | Some JNull => false
  | Some (JBool b) => b
  | Some (JNum z) => negb (z =? 0)%Z
  | Some (JStr s) => negb (bool_decide (s = []))
  | Some (JArr _) | Some (JObj _) => true
  end.

(** [a || b]. *)
Definition js_or (a b : option json) : option json := if truthy a then a else b.

Fixpoint field (k : jstr) (fields : list (jstr * json)) : option json :=
  match fields with
  | [] => None
  | (k', v) :: fields' =>
    match field k fields' with
    | Some w => Some w
    | None => if bool_decide (k' = k) then Some v else None
    end
  end.

(** [v.k] for an own data property [k]; [Err] is the [TypeError] on [null] and [undefined]. *)
Definition prop (v : option json) (k : string) : result unit (option json) :=
  match v with
  | None | Some JNull => Err tt
  | Some (JObj fields) => Ok (field (js k) fields)
  | Some _ => Ok None
  end.

(** [v?.k]. *)
Definition prop_opt (v : option json) (k : string) : option json :=
  match prop v k with Ok w => w | Err _ => None end.

(** [String(v)]. *)
Fixpoint json_string (v : json) : jstr :=
  match v with
  | JNull => js "null"
  | JBool b => if b then js "true" else js "false"
  | JNum z => show_Z z
  | JStr s => s
  | JArr l => join (js ",") (map (fun w => match w with JNull => [] | _ => json_string w end) l)
  | JObj _ => js "[object Object]"
  end.

(** [String(v || d)] for a string [d]. *)
Definition string_or (v : option json) (d : jstr) : jstr :=
  match js_or v (Some (JStr d)) with Some w => json_string w | None => d end.

(** [Number(v)]. *)
Definition json_number (v : option json) : double :=
  match v with
  | None => NaN
  | Some JNull => Fin 0 0
  | Some (JBool b) => Fin (if b then 1 else 0) 0
  | Some (JNum z) => Fin z 0
  | Some (JStr s) => Number s
  | Some (JArr l) => Number (json_string (JArr l))
  | Some (JObj _) => NaN
  end.

(** [Number(v) || 0]. *)
Definition number_or_0 (v : option json) : double :=
  match json_number v with
  | NaN => Fin 0 0
  | Fin 0 _ => Fin 0 0
  | d => d
  end.

Definition json_array (v : option json) : option (list json) :=
  match v with Some (JArr l) => Some l | _ => None end.

(** [v === s] for a string literal [s]. *)
Definition json_is (v : option json) (s : string) : bool :=
  match v with Some (JStr t) => bool_decide (t = js s) | _ => false end.

Lemma string_or_str s d : s <> [] -> string_or (Some (JStr s)) d = s.
Proof. intros Hs. unfold string_or, js_or. simpl. by rewrite bool_decide_eq_false_2. Qed.
