(* ===== verification/Official.v ===== *)
(** * The download site's update source

    [web/js/lib/official.js]: the platform matrix and platform detection, the package of a platform in a
    channel's target list, the hosted channel metadata and the release lists made from it, the
    contributors list, the cached time of the latest update, and the two-unit duration text.
    [fetch] is an argument: what each URL answers. *)
From Stdlib Require Import Ascii String QArith.Qround.
From S2P Require Import Prelude JsString JsUri JsNumber JsJson.
Local Open Scope nat_scope.

(** ** Platforms *)
Definition OFFICIAL_UPDATE_BASE : jstr := js "https://mvnc.pkg.one/update/renop".
Definition GITHUB_REPO : jstr := js "404Setup/RenoP".

Record choice := { value : jstr; label : jstr }.
Definition mk_choice (v l : string) : choice := {| value := js v; label := js l |}.

Definition PLATFORMS_os : list choice :=
  [mk_choice "windows" "Windows"; mk_choice "darwin" "macOS"; mk_choice "linux" "Linux";
   mk_choice "freebsd" "FreeBSD"; mk_choice "netbsd" "NetBSD"; mk_choice "openbsd" "OpenBSD"].
Definition PLATFORMS_arch : list choice :=
  [mk_choice "amd64" "amd64 (x86_64)"; mk_choice "arm64" "arm64 (aarch64)"; mk_choice "loong64" "loong64";
   mk_choice "riscv64" "riscv64"].
Definition X64_VERSIONS : list choice :=
  [mk_choice "amd64" "v1"; mk_choice "amd64v2" "v2"; mk_choice "amd64v3" "v3"; mk_choice "amd64v4" "v4"].

(** Own properties only: [os] is not one of the names [Object.prototype] has. *)
Definition PLATFORM_MATRIX : gmap jstr (list jstr) :=
  list_to_map
    [(js "windows", [js "amd64"; js "arm64"]); (js "darwin", [js "amd64"; js "arm64"]);
     (js "linux", [js "amd64"; js "arm64"; js "loong64"; js "riscv64"]);
     (js "freebsd", [js "amd64"; js "arm64"]); (js "netbsd", [js "amd64"]);
     (js "openbsd", [js "amd64"; js "arm64"])].

Definition is_in (s : jstr) (l : list jstr) : bool := bool_decide (s ∈ l).

Definition getArchOptionsForOs (os : jstr) : list choice :=
  match PLATFORM_MATRIX !! os with
  | None | Some [] => []
  | Some allowed => List.filter (fun a => is_in (value a) allowed) PLATFORMS_arch
  end.

Definition base_arch (arch : jstr) : jstr := if starts_with (js "amd64") arch then js "amd64" else arch.

Definition isPlatformSupported (os arch : jstr) : bool :=
  if bool_decide (os = []) || bool_decide (arch = []) then false
  else match PLATFORM_MATRIX !! os with Some l => is_in (base_arch arch) l | None => false end.

Record platform := { os : jstr; arch : jstr }.

Definition normalizePlatform (os arch : jstr) : platform :=
  let validOs := if existsb (fun o => bool_decide (value o = os)) PLATFORMS_os then os else js "linux" in
  let arches := default (default [] (PLATFORM_MATRIX !! js "linux")) (PLATFORM_MATRIX !! validOs) in
  let validArch := if is_in (base_arch arch) arches then arch else str_or (default [] (head arches)) (js "amd64") in
  Build_platform validOs validArch.

(** [/pat/i.test(s)] for an ASCII literal. *)
Definition test_i (pat : string) (s : jstr) : bool := includes (map lower_ascii (js pat)) (map lower_ascii s).

(** [navigator], with missing properties as empty strings. *)
Record navigator := { userAgent : jstr; nav_platform : jstr; architecture : jstr }.

Definition detectPlatform (n : navigator) : platform :=
  let ua := userAgent n in
  let platform := nav_platform n in
  let os :=
    if test_i "Win" platform || test_i "Windows" ua then js "windows"
    else if test_i "Mac" platform || test_i "iPhone" platform || test_i "iPad" platform || test_i "Mac OS" ua
    then js "darwin"
    else if test_i "FreeBSD" ua then js "freebsd"
    else if test_i "NetBSD" ua then js "netbsd"
    else if test_i "OpenBSD" ua then js "openbsd"
    else js "linux" in
  let uaArch := architecture n in
  let arch :=
    if test_i "arm" uaArch || test_i "aarch64" ua then js "arm64"
    else js "amd64" in
  normalizePlatform os arch.

(** ** Packages of a channel *)
Definition channel_segment (channel : jstr) : jstr :=
  if (channel =? js "nightly")%js || (channel =? js "preview")%js then js "nightly" else js "stable".

Definition channelInfoUrl (channel : jstr) : jstr :=
  OFFICIAL_UPDATE_BASE ++ js "/" ++ channel_segment channel ++ js "/info.json".

(** [None]: [encodeURIComponent] throws. *)
Definition packageDownloadUrl (channel version file targetUrl : jstr) : option jstr :=
  if negb (bool_decide (targetUrl = [])) then Some targetUrl
  else
    v ← encodeURIComponent version;
    f ← encodeURIComponent file;
    Some (OFFICIAL_UPDATE_BASE ++ js "/" ++ channel_segment channel ++ js "/" ++ v ++ js "/" ++ f).

Record target := {
  t_os : jstr; t_arch : jstr; t_file : jstr; t_sha256 : jstr; t_size : double; t_uncompressedSize : double;
  t_format : jstr; t_executable : jstr; t_downloadUrl : jstr;
}.

Inductive site_error :=
| NetworkFailure                          (** [fetch] rejected *)
| HttpError (status : Z)
| BodyFailure                             (** [json()] rejected *)
| InvalidInfo                             (** "Invalid channel info.json" *)
| TypeErr                                 (** a property read of [null] *)
| UriErr.

Definition typed {A} (r : result unit A) : result site_error A :=
  match r with Ok a => Ok a | Err _ => Err TypeErr end.

Definition parseTarget (t : json) : result site_error target :=
  o ← typed (prop (Some t) "os");
  let p k := prop_opt (Some t) k in
  Ok {| t_os := string_or o []; t_arch := string_or (p "arch") []; t_file := string_or (p "file") [];
        t_sha256 := string_or (p "sha256") []; t_size := number_or_0 (p "size");
        t_uncompressedSize := number_or_0 (js_or (p "uncompressed_size") (p "uncompressedSize"));
        t_format := string_or (p "format") []; t_executable := string_or (p "executable") [];
        t_downloadUrl := string_or (js_or (p "download_url") (p "downloadUrl")) [] |}%string.

Record release := {
  r_version : jstr; r_commit : jstr; r_previousCommit : jstr; r_channel : jstr; r_development : bool;
  r_publishedAt : jstr; r_changelog : jstr; r_targets : list target;
}.

Definition parseReleaseItem (r : json) (channelDefault : jstr) : result site_error release :=
  v ← typed (prop (Some r) "version");
  let p k := prop_opt (Some r) k in
  targets ← match json_array (p "targets"%string) with
            | Some l => mapM parseTarget l
            | None => Ok []
            end;
  Ok {| r_version := string_or v []; r_commit := string_or (p "commit") [];
        r_previousCommit := string_or (js_or (p "previous_commit") (p "previousCommit")) [];
        r_channel := string_or (p "channel") channelDefault;
        r_development := truthy (p "development");
        r_publishedAt := string_or (js_or (p "published_at") (p "publishedAt")) [];
        r_changelog := string_or (p "changelog") []; r_targets := targets |}%string.

(** What [fetch] settles to for a URL. *)
Inductive fetched :=
| Unreachable
| Response (ok : bool) (status : Z) (body : option json).

Abbreviation network := (jstr -> fetched).

Record channel_info := { latest : release; releases : list release }.

Definition fetchChannelInfo (net : network) (channel : jstr) : result site_error channel_info :=
  match net (channelInfoUrl channel) with
  | Unreachable => Err NetworkFailure
  | Response false status _ => Err (HttpError status)
  | Response true _ None => Err BodyFailure
  | Response true _ (Some data) =>
    match json_array (prop_opt (Some data) "releases") with
    | None | Some [] => Err InvalidInfo
    | Some items =>
      rs ← mapM (fun r => parseReleaseItem r channel) items;
      match rs with
      | first :: _ => Ok {| latest := first; releases := rs |}
      | [] => Err TypeErr
      end
    end
  end.

Section targets.
Context `{UnicodeCase}.

Definition first_target (test : target -> bool) (targets : list target) : option target :=
  List.find test targets.

(** [`amd64v${l}`]. *)
Definition level_arch (l : nat) : jstr := match l with 1 => js "amd64" | _ => js "amd64v" ++ show_Z (Z.of_nat l) end.

Definition arch_matches (o : jstr) (l : nat) (t : target) : bool :=
  let tOS := to_lower (t_os t) in
  let tArch := to_lower (t_arch t) in
  (tOS =? o)%js &&
  (if l =? 1 then (tArch =? js "amd64")%js || (tArch =? js "amd64v1")%js
   else (tArch =? level_arch l)%js).

Definition file_matches (o : jstr) (l : nat) (t : target) : bool :=
  let file := to_lower (t_file t) in
  (to_lower (t_os t) =? o)%js &&
  (if l =? 1 then
     includes (o ++ js "-amd64v1") file
     || includes (o ++ js "-amd64") file && negb (includes (js "amd64v2") file)
        && negb (includes (js "amd64v3") file) && negb (includes (js "amd64v4") file)
   else includes (o ++ js "-" ++ level_arch l) file).

(** One turn of the loop over levels. *)
Definition target_at_level (o : jstr) (l : nat) (targets : list target) : option target :=
  match first_target (arch_matches o l) targets with
  | Some t => Some t
  | None => first_target (file_matches o l) targets
  end.

(** [for (let l = level; l >= 1; l--)]. *)
Fixpoint target_below (o : jstr) (level : nat) (targets : list target) : option target :=
  match level with
  | 0 => None
  | S l => match target_at_level o level targets with Some t => Some t | None => target_below o l targets end
  end.

Definition requested_level (a : jstr) : nat :=
  if (a =? js "amd64v4")%js then 4 else if (a =? js "amd64v3")%js then 3
  else if (a =? js "amd64v2")%js then 2 else 1.

Definition findTargetForPlatform (targets : list target) (os arch : jstr) : option target :=
  if bool_decide (targets = []) || bool_decide (os = []) || bool_decide (arch = []) then None
  else
    let o := to_lower os in
    let a := to_lower arch in
    if starts_with (js "amd64") a then target_below o (requested_level a) targets
    else
      match first_target (fun t => (to_lower (t_os t) =? o)%js && (to_lower (t_arch t) =? a)%js) targets with
      | Some t => Some t
      | None => first_target (fun t => includes (o ++ js "-" ++ a) (to_lower (t_file t))) targets
      end.

Definition commitSubject (message : jstr) : jstr := trim (default [] (head (split 10 (trim message)))).

Definition isWebOnlyCommit (subject : jstr) : bool := starts_with (js "[web]") (to_lower (commitSubject subject)).
End targets.

(** ** Release lists *)
Record stable_release := {
  s_id : jstr; s_tag : jstr; s_name : jstr; s_body : jstr; s_publishedAt : jstr; s_commitSha : jstr;
  s_targets : list target;
}.

Definition with_url (t : target) (url : jstr) : target :=
  {| t_os := t_os t; t_arch := t_arch t; t_file := t_file t; t_sha256 := t_sha256 t; t_size := t_size t;
     t_uncompressedSize := t_uncompressedSize t; t_format := t_format t; t_executable := t_executable t;
     t_downloadUrl := url |}.

Definition release_tag (ver : jstr) : jstr := if starts_with (js "v") ver then ver else js "v" ++ ver.

Definition stable_target (index : nat) (ver : jstr) (t : target) : option target :=
  if negb (bool_decide (t_downloadUrl t = [])) then Some (with_url t (t_downloadUrl t))
  else if index <=? 1 then with_url t <$> packageDownloadUrl (js "stable") ver (t_file t) []
  else
    tag ← encodeURIComponent (release_tag ver);
    file ← encodeURIComponent (t_file t);
    Some (with_url t (js "https://github.com/" ++ GITHUB_REPO ++ js "/releases/download/" ++ tag ++ js "/" ++ file)).

Definition or_uri {A} (r : option A) : result site_error A := match r with Some a => Ok a | None => Err UriErr end.

Definition stable_item (index : nat) (rel : release) : result site_error stable_release :=
  targets ← mapM (fun t => or_uri (stable_target index (r_version rel) t)) (r_targets rel);
  Ok {| s_id := r_version rel; s_tag := release_tag (r_version rel); s_name := r_version rel;
        s_body := r_changelog rel; s_publishedAt := r_publishedAt rel; s_commitSha := r_commit rel;
        s_targets := targets |}.

Definition indexed {A} (l : list A) : list (nat * A) := imap pair l.

Definition fetchStableReleases (net : network) : result site_error (list stable_release) :=
  info ← fetchChannelInfo net (js "stable");
  mapM (fun '(index, rel) => stable_item index rel) (indexed (releases info)).

Definition fetchStableRelease (net : network) : result site_error (option stable_release) :=
  list ← fetchStableReleases net;
  Ok (head list).

Record preview_release := {
  p_id : jstr; p_tag : jstr; p_name : jstr; p_body : jstr; p_publishedAt : jstr; p_commitSha : jstr;
  p_version : jstr; p_targets : list target; p_isLatest : bool;
}.

Definition preview_item (index : nat) (rel : release) : preview_release :=
  let short := str_or (slice 0 7 (str_or (r_commit rel) (r_version rel))) (r_version rel) in
  let name := if starts_with (js "nightly-") (r_version rel) then r_version rel else js "nightly-" ++ short in
  {| p_id := r_version rel; p_tag := name; p_name := name; p_body := r_changelog rel;
     p_publishedAt := r_publishedAt rel; p_commitSha := r_commit rel; p_version := r_version rel;
     p_targets := r_targets rel; p_isLatest := index =? 0 |}.

Definition fetchPreviewReleases (net : network) : result site_error (list preview_release) :=
  info ← fetchChannelInfo net (js "nightly");
  Ok (map (fun '(index, rel) => preview_item index rel) (indexed (take 100 (releases info)))).

Definition fetchPreviewInfo (net : network) : result site_error (option preview_release) :=
  list ← fetchPreviewReleases net;
  Ok (head list).

(** ** Contributors *)
Record contributor := {
  c_id : option json; c_login : option json; c_avatarUrl : option json; c_htmlUrl : option json;
  c_contributions : option json;
}.

Definition contributors_url (perPage page : Z) : jstr :=
  js "https://api.github.com/repos/" ++ GITHUB_REPO ++ js "/contributors?per_page=" ++ show_Z perPage
  ++ js "&page=" ++ show_Z page ++ js "&anon=0".

Definition contributor_of (c : json) : option contributor :=
  let p k := prop_opt (Some c) k in
  if negb (truthy (Some c)) || json_is (p "type"%string) "Bot" then None
  else Some {| c_id := p "id"; c_login := p "login"; c_avatarUrl := p "avatar_url"; c_htmlUrl := p "html_url";
               c_contributions := js_or (p "contributions") (Some (JNum 0)) |}%string.

(** The loop over pages, [pages] of them left, with the contributors collected so far. *)
Fixpoint contributor_pages (net : network) (perPage page : Z) (pages : nat) (all : list contributor)
    : result site_error (list contributor) :=
  match pages with
  | 0 => Ok all
  | S pages' =>
    match net (contributors_url perPage page) with
    | Unreachable => Err NetworkFailure
    | Response false status _ => Err (HttpError status)
    | Response true _ None => Err BodyFailure
    | Response true _ (Some data) =>
      match json_array (Some data) with
      | None | Some [] => Ok all
      | Some batch =>
        let all' := all ++ omap contributor_of batch in
        if (Z.of_nat (length batch) <? perPage)%Z then Ok all'
        else contributor_pages net perPage (page + 1) pages' all'
      end
    end
  end.

Definition fetchContributors (net : network) (perPage : Z) (maxPages : nat) : result site_error (list contributor) :=
  contributor_pages net perPage 1 maxPages [].

(** ** The time of the latest update *)
Section timestamp.
(** [new Date(s).getTime()]: [None] is an invalid date. *)
Context (date_time : jstr -> number).

Definition usable_time (s : jstr) : option Z :=
  if bool_decide (s = []) then None
  else match date_time s with
       | Some time => if (0 <? time)%Z then Some time else None
       | None => None
       end.

Definition channel_time (net : network) (channel : jstr) : option Z :=
  match fetchChannelInfo net channel with
  | Ok info => usable_time (r_publishedAt (latest info))
  | Err _ => None
  end.

Definition commits_url : jstr := js "https://api.github.com/repos/" ++ GITHUB_REPO ++ js "/commits?per_page=1".

(** GitHub's dates are strings. *)
Definition commit_time (net : network) : option Z :=
  match net commits_url with
  | Response true _ (Some commits) =>
    let commit := match json_array (Some commits) with Some (c :: _) => prop_opt (Some c) "commit" | _ => None end in
    let date who := prop_opt (prop_opt commit who) "date" in
    match js_or (date "committer"%string) (date "author"%string) with
    | Some (JStr s) => usable_time s
    | _ => None
    end
  | _ => None
  end.

(** The result, the cache after the call and the URLs requested, in order. *)
Definition fetchLatestUpdateTimestamp (cached : option Z) (net : network) : option Z * option Z * list jstr :=
  if negb (num_or cached 0 =? 0)%Z then (cached, cached, [])
  else
    match channel_time net (js "nightly") with
    | Some time => (Some time, Some time, [channelInfoUrl (js "nightly")])
    | None =>
      match channel_time net (js "stable") with
      | Some time => (Some time, Some time, map channelInfoUrl [js "nightly"; js "stable"])
      | None =>
        let urls := map channelInfoUrl [js "nightly"; js "stable"] ++ [commits_url] in
        match commit_time net with
        | Some time => (Some time, Some time, urls)
        | None => (None, cached, urls)
        end
      end
    end.
End timestamp.

(** ** Durations *)
Inductive unit_type := NoUnit | Year | Month | Day | HourShort | Hour | MinuteShort | Minute | Second.

#[export] Instance unit_type_eq_dec : EqDecision unit_type.
Proof. solve_decision. Defined.

Record amount := { val : Z; type : unit_type }.
Definition no_amount : amount := {| val := 0; type := NoUnit |}.

Definition YEAR : Z := 365 * 86400.
Definition MONTH : Z := 30 * 86400.
Definition DAY : Z := 86400.
Definition HOUR : Z := 3600.
Definition MINUTE : Z := 60.

(** [if (n > 0) u2 = {value: n, type: ty}], else [rest]. *)
Definition amount_or (n : Z) (ty : unit_type) (rest : amount) : amount :=
  if (0 <? n)%Z then {| val := n; type := ty |} else rest.

Definition two_units (s : Z) : amount * amount :=
  (if YEAR <=? s then
     let rem := s mod YEAR in
     ({| val := s / YEAR; type := Year |},
      amount_or (rem / MONTH) Month (amount_or (rem / DAY) Day no_amount))
   else if MONTH <=? s then
     let rem := s mod MONTH in
     ({| val := s / MONTH; type := Month |},
      amount_or (rem / DAY) Day (amount_or (rem / HOUR) HourShort no_amount))
   else if DAY <=? s then
     let rem := s mod DAY in
     ({| val := s / DAY; type := Day |},
      amount_or (rem / HOUR) HourShort (amount_or (rem / MINUTE) MinuteShort no_amount))
   else if HOUR <=? s then
     let rem := s mod HOUR in
     ({| val := s / HOUR; type := Hour |},
      amount_or (rem / MINUTE) MinuteShort (amount_or (rem mod MINUTE) Second no_amount))
   else if MINUTE <=? s then
     ({| val := s / MINUTE; type := Minute |}, amount_or (s mod MINUTE) Second no_amount)
   else ({| val := s; type := Second |}, no_amount))%Z.

Definition suffixed (a : amount) (suffix : jstr) : jstr := show_Z (val a) ++ suffix.

Definition formatZh (a : amount) : jstr :=
  suffixed a (match type a with
              | Year => [0x5E74] | Month => [0x4E2A; 0x6708] | Day => [0x5929] | HourShort => [0x65F6]
              | Hour => [0x5C0F; 0x65F6] | MinuteShort => [0x5206] | Minute => [0x5206; 0x949F]
              | Second => [0x79D2] | NoUnit => []
              end)%N.

Definition formatJa (a : amount) : jstr :=
  suffixed a (match type a with
              | Year => [0x5E74] | Month => [0x30F6; 0x6708] | Day => [0x65E5]
              | HourShort | Hour => [0x6642; 0x9593] | MinuteShort | Minute => [0x5206]
              | Second => [0x79D2] | NoUnit => []
              end)%N.

Definition plural (one : Z -> bool) (a : amount) (singular many : string) : jstr :=
  suffixed a (js " " ++ (if one (val a) then js singular else js many)).

Definition formatEn (a : amount) : jstr :=
  let p := plural (Z.eqb 1) a in
  match type a with
  | Year => p "year" "years" | Month => p "month" "months" | Day => p "day" "days"
  | HourShort | Hour => p "hour" "hours" | MinuteShort | Minute => p "minute" "minutes"
  | Second => p "second" "seconds" | NoUnit => suffixed a []
  end%string.

Definition formatFr (a : amount) : jstr :=
  let p := plural (fun v => v <=? 1)%Z a in
  match type a with
  | Year => p "an" "ans" | Month => suffixed a (js " mois") | Day => p "jour" "jours"
  | HourShort | Hour => p "heure" "heures" | MinuteShort | Minute => p "minute" "minutes"
  | Second => p "seconde" "secondes" | NoUnit => suffixed a []
  end%string.

Definition formatRu (a : amount) : jstr :=
  suffixed a (match type a with
              | Year => [0x20; 0x433; 0x2E] | Month => [0x20; 0x43C; 0x435; 0x441; 0x2E]
              | Day => [0x20; 0x434; 0x43D; 0x2E] | HourShort | Hour => [0x20; 0x447; 0x2E]
              | MinuteShort | Minute => [0x20; 0x43C; 0x438; 0x43D; 0x2E]
              | Second => [0x20; 0x441; 0x435; 0x43A; 0x2E] | NoUnit => []
              end)%N.

Definition joined (format : amount -> jstr) (sep : jstr) (u : amount * amount) : jstr :=
  if (0 <? val (snd u))%Z then format (fst u) ++ sep ++ format (snd u) else format (fst u).

Definition formatDurationTwoUnits (diffSeconds : QArith_base.Q) (lang : jstr) : jstr :=
  let s := Z.max 0 (Qfloor diffSeconds) in
  let u := two_units s in
  if starts_with (js "zh") lang then joined formatZh [] u
  else if starts_with (js "ja") lang then joined formatJa (js " ") u
  else if starts_with (js "fr") lang then joined formatFr (js " ") u
  else if starts_with (js "ru") lang then joined formatRu (js " ") u
  else joined formatEn (js " ") u.

(** ** Lemmas and theorems *)
Lemma find_first {A} (f : A -> bool) (l : list A) x :
  List.find f l = Some x -> x ∈ l /\ f x = true.
Proof. intros H. apply find_some in H as [Hin Hf]. by rewrite list_elem_of_In. Qed.

Lemma find_none_iff {A} (f : A -> bool) (l : list A) :
  List.find f l = None <-> (forall x, x ∈ l -> f x = false).
Proof.
  split.
  - intros H x Hx. apply list_elem_of_In in Hx. by apply (find_none _ _ H).
  - intros H. destruct (List.find f l) eqn:E; [|done]. apply find_first in E as [Hin Hf]. by rewrite H in Hf.
Qed.

Section target_lemmas.
Context `{UnicodeCase}.

(** A target made for level [l] of [o], by its declared architecture or by its file name. *)
Definition made_for (o : jstr) (l : nat) (t : target) : bool := arch_matches o l t || file_matches o l t.

Lemma target_at_level_spec o l targets :
  match target_at_level o l targets with
  | Some t => t ∈ targets /\ made_for o l t = true
  | None => forall t, t ∈ targets -> made_for o l t = false
  end.
Proof.
  unfold target_at_level, first_target, made_for. destruct (List.find (arch_matches o l) targets) as [t|] eqn:E1.
  - apply find_first in E1 as [Hin ->]. done.
  - rewrite find_none_iff in E1. destruct (List.find (file_matches o l) targets) as [t|] eqn:E2.
    + apply find_first in E2 as [Hin Hf]. split; [done|]. rewrite Hf. apply orb_true_r.
    + rewrite find_none_iff in E2. intros t Ht. by rewrite E1, E2.
Qed.

Lemma target_below_spec o level targets :
  match target_below o level targets with
  | Some t => t ∈ targets /\ exists l, 1 <= l <= level /\ made_for o l t = true /\
      forall l' t', l < l' <= level -> t' ∈ targets -> made_for o l' t' = false
  | None => forall l t, 1 <= l <= level -> t ∈ targets -> made_for o l t = false
  end.
Proof.
  induction level as [|level IH]; cbn [target_below]; [lia|].
  pose proof (target_at_level_spec o (S level) targets) as Hat.
  destruct (target_at_level o (S level) targets) as [t|].
  - destruct Hat as [Hin Hm]. split; [done|]. exists (S level). split; [lia|]. split; [done|]. lia.
  - destruct (target_below o level targets) as [t|].
    + destruct IH as (Hin & l & Hl & Hm & Hup). split; [done|]. exists l. split; [lia|]. split; [done|].
      intros l' t' Hl' Ht'. destruct (decide (l' = S level)) as [->|]; [by apply Hat|]. apply Hup; [lia|done].
    + intros l t Hl Ht. destruct (decide (l = S level)) as [->|]; [by apply Hat|]. apply IH; [lia|done].
Qed.

(** The package offered to a platform: for an amd64 request of level [k], [findTargetForPlatform] returns
    a target of the list made for the requested system at the highest level not above [k] for which there is
    one, so it never hands a machine a package of a higher level than it asked for, and it returns null only
    when no target serves any level up to [k]; for other architectures it returns an exact match if there is
    one, and otherwise only a file whose name carries the platform marker. *)
Theorem findTargetForPlatform_best targets os arch :
  os <> [] -> arch <> [] ->
  let o := to_lower os in
  let a := to_lower arch in
  let k := requested_level a in
  let exact t := (to_lower (t_os t) =? o)%js && (to_lower (t_arch t) =? a)%js in
  let named t := includes (o ++ js "-" ++ a) (to_lower (t_file t)) in
  match findTargetForPlatform targets os arch with
  | Some t =>
    t ∈ targets /\
    if starts_with (js "amd64") a then
      exists l, 1 <= l <= k /\ made_for o l t = true /\
        forall l' t', l < l' <= k -> t' ∈ targets -> made_for o l' t' = false
    else exact t = true \/ named t = true /\ forall t', t' ∈ targets -> exact t' = false
  | None =>
    forall t, t ∈ targets ->
      if starts_with (js "amd64") a then forall l, 1 <= l <= k -> made_for o l t = false
      else exact t = false /\ named t = false
  end.
Proof.
  intros Hos Harch. cbv zeta. unfold findTargetForPlatform, first_target.
  rewrite (bool_decide_eq_false_2 (os = [])), (bool_decide_eq_false_2 (arch = [])), !orb_false_r by done.
  destruct (decide (targets = [])) as [->|Hne].
  { rewrite bool_decide_eq_true_2 by done. intros t Ht. by apply not_elem_of_nil in Ht. }
  rewrite bool_decide_eq_false_2 by done.
  destruct (starts_with (js "amd64") (to_lower arch)).
  - pose proof (target_below_spec (to_lower os) (requested_level (to_lower arch)) targets) as Hb.
    destruct (target_below _ _ _); [done|]. auto.
  - set (exact := fun t => _ && _). destruct (List.find exact targets) as [t|] eqn:E1.
    + apply find_first in E1 as [Hin He]. auto.
    + rewrite find_none_iff in E1. destruct (List.find _ targets) as [t|] eqn:E2.
      * apply find_first in E2 as [Hin He]. auto.
      * rewrite find_none_iff in E2. intros t Ht. split; [by apply E1|by apply E2].
Qed.
End target_lemmas.

(** The engine's tables are not consulted on ASCII names. *)

Definition mk_target (os arch file : string) : target :=
  {| t_os := js os; t_arch := js arch; t_file := js file; t_sha256 := []; t_size := Fin 0 0;
     t_uncompressedSize := Fin 0 0; t_format := []; t_executable := []; t_downloadUrl := [] |}.

Definition sample_targets : list target :=
  [mk_target "linux" "amd64v4" "renop-linux-amd64v4.zip"; mk_target "linux" "amd64v2" "renop-linux-amd64v2.zip";
   mk_target "linux" "amd64" "renop-linux-amd64.zip"; mk_target "linux" "arm64" "renop-linux-arm64.zip"].

Lemma findTargetForPlatform_best_witness :
  t_arch <$> @findTargetForPlatform latin_case sample_targets (js "linux") (js "amd64v3") = Some (js "amd64v2") /\
  (exists l, 1 <= l <= 3 /\ @made_for latin_case (js "linux") l (mk_target "linux" "amd64v2" "renop-linux-amd64v2.zip") = true).
Proof.
  split; [vm_compute; reflexivity|].
  pose proof (@findTargetForPlatform_best latin_case sample_targets (js "linux") (js "amd64v3") ltac:(done) ltac:(done)) as Hb.
  assert (E : @findTargetForPlatform latin_case sample_targets (js "linux") (js "amd64v3")
    = Some (mk_target "linux" "amd64v2" "renop-linux-amd64v2.zip")) by (vm_compute; reflexivity).
  cbv zeta in Hb. rewrite E in Hb. destruct Hb as [_ (l & Hl & Hm & _)]. exists l. split; [exact Hl|exact Hm].
Defined.

(** The entries of the matrix, one per listed system. *)
Lemma matrix_entry o l :
  PLATFORM_MATRIX !! o = Some l ->
  existsb (fun c => bool_decide (value c = o)) PLATFORMS_os = true /\ o <> [] /\
  exists b bs, l = b :: bs /\ forallb (fun b => negb (bool_decide (b = [])) && is_in (base_arch b) l) l = true.
Proof.
  intros Hl. apply elem_of_list_to_map_2 in Hl.
  repeat (apply elem_of_cons in Hl as [[= -> ->]|Hl]; [split; [done|]; split; [done|]; eexists _, _; done|]).
  by apply not_elem_of_nil in Hl.
Qed.

Lemma listed_entry o :
  existsb (fun c => bool_decide (value c = o)) PLATFORMS_os = true -> exists l, PLATFORM_MATRIX !! o = Some l.
Proof.
  rewrite existsb_exists. intros (c & Hc & <-%bool_decide_eq_true).
  assert (Hall : forallb (fun c => bool_decide (is_Some (PLATFORM_MATRIX !! value c))) PLATFORMS_os = true)
    by (vm_compute; reflexivity).
  rewrite forallb_forall in Hall. apply Hall, bool_decide_eq_true in Hc as [l ->]. eauto.
Qed.

Lemma base_arch_nonempty a l b bs :
  l = b :: bs -> forallb (fun b => negb (bool_decide (b = [])) && is_in (base_arch b) l) l = true ->
  is_in (base_arch a) l = true -> a <> [].
Proof.
  intros -> Hall Hin ->. unfold is_in, base_arch in Hin. simpl in Hin. apply bool_decide_eq_true in Hin.
  rewrite forallb_forall in Hall. apply list_elem_of_In in Hin. by apply Hall in Hin.
Qed.

Lemma supported_iff o a :
  isPlatformSupported o a = true <->
  exists l, PLATFORM_MATRIX !! o = Some l /\ is_in (base_arch a) l = true.
Proof.
  unfold isPlatformSupported. split.
  - destruct (_ || _); [done|]. destruct (PLATFORM_MATRIX !! o) as [l|]; [eauto|done].
  - intros (l & Hl & Hin). destruct (matrix_entry o l Hl) as (_ & Ho & b & bs & Hlb & Hall).
    rewrite (bool_decide_eq_false_2 _ Ho), (bool_decide_eq_false_2 (a = [])); [by rewrite Hl|].
    by eapply base_arch_nonempty.
Qed.

Lemma normalize_supported_id o a :
  isPlatformSupported o a = true -> normalizePlatform o a = {| os := o; arch := a |}.
Proof.
  rewrite supported_iff. intros (l & Hl & Hin). unfold normalizePlatform.
  destruct (matrix_entry o l Hl) as (-> & _). rewrite Hl. simpl. by rewrite Hin.
Qed.

Lemma normalize_supported o a :
  isPlatformSupported (os (normalizePlatform o a)) (arch (normalizePlatform o a)) = true.
Proof.
  unfold normalizePlatform. cbn [os arch]. set (v := if existsb _ _ then o else js "linux").
  assert (Hv : exists l, PLATFORM_MATRIX !! v = Some l).
  { subst v. destruct (existsb _ _) eqn:E; [by apply listed_entry|]. by eexists. }
  destruct Hv as [l Hl]. rewrite Hl. cbn [default from_option id]. apply supported_iff. exists l. split; [done|].
  destruct (is_in (base_arch a) l) eqn:E; [exact E|].
  destruct (matrix_entry v l Hl) as (_ & _ & b & bs & Hlb & Hall). rewrite Hlb in *. cbn [head default from_option id forallb] in *.
  apply andb_prop in Hall as [[Hb Hin]%andb_prop _]. by destruct b.
Qed.

(** Platforms: whatever the navigator says, [detectPlatform] names a platform for which packages are built;
    [normalizePlatform] always gives a supported pair, keeps a supported one and is idempotent; and every
    operating system the selectors list offers at least one architecture, all of them supported. *)
Theorem platforms_supported n o a :
  (let p := detectPlatform n in isPlatformSupported (os p) (arch p) = true) /\
  (let p := normalizePlatform o a in
   isPlatformSupported (os p) (arch p) = true /\ normalizePlatform (os p) (arch p) = p) /\
  (isPlatformSupported o a = true -> normalizePlatform o a = {| os := o; arch := a |}) /\
  Forall (fun c => getArchOptionsForOs (value c) <> [] /\
    Forall (fun b => isPlatformSupported (value c) (value b) = true) (getArchOptionsForOs (value c))) PLATFORMS_os.
Proof.
  cbv zeta. split; [apply normalize_supported|]. split; [|split].
  - split; [apply normalize_supported|]. etransitivity; [apply normalize_supported_id, normalize_supported|].
    by destruct (normalizePlatform o a).
  - apply normalize_supported_id.
  - apply Forall_forall. intros c Hc%list_elem_of_In.
    assert (Hall : forallb (fun c => negb (bool_decide (getArchOptionsForOs (value c) = [])) &&
      forallb (fun b => isPlatformSupported (value c) (value b)) (getArchOptionsForOs (value c))) PLATFORMS_os = true)
      by (vm_compute; reflexivity).
    rewrite forallb_forall in Hall. apply Hall, andb_prop in Hc as [Hne Hs].
    split; [by apply negb_true_iff, bool_decide_eq_false in Hne|].
    rewrite forallb_forall in Hs. apply Forall_forall. intros b Hb%list_elem_of_In. by apply Hs.
Qed.

Lemma fetchChannelInfo_nonempty net channel info :
  fetchChannelInfo net channel = Ok info -> 1 <= length (releases info).
Proof.
  unfold fetchChannelInfo. destruct (net _) as [|[] status [data|]]; try done.
  destruct (json_array _) as [[|item items]|]; try done.
  destruct (mapM _ _) as [[|first rs]|] eqn:E; try done. cbn [mbind result_bind]. intros [= <-]. simpl. lia.
Qed.

Lemma stable_item_spec index rel r :
  stable_item index rel = Ok r ->
  starts_with (js "v") (s_tag r) = true /\ Forall (fun t => t_downloadUrl t <> []) (s_targets r).
Proof.
  unfold stable_item. destruct (mapM _ (r_targets rel)) as [ts|] eqn:E; [|done]. cbn [mbind result_bind].
  intros [= <-]. cbn [s_tag s_targets]. split.
  - unfold release_tag. destruct (starts_with (js "v") (r_version rel)) eqn:Hv; [done|apply starts_with_app].
  - apply mapM_ok in E. apply Forall_forall. intros t Ht.
    apply list_elem_of_lookup in Ht as [i Hi]. eapply Forall2_lookup_r in E as (t0 & _ & Hst); [|exact Hi].
    unfold or_uri in Hst. destruct (stable_target index (r_version rel) t0) as [t1|] eqn:Hurl; [|done].
    injection Hst as ->. unfold stable_target in Hurl. destruct (bool_decide_reflect (t_downloadUrl t0 = [])) as [_|Hne].
    + cbn [negb] in Hurl. destruct (index <=? 1).
      * unfold packageDownloadUrl in Hurl. cbn [negb] in Hurl. rewrite bool_decide_eq_true_2 in Hurl by done.
        cbn [negb] in Hurl.
        destruct (encodeURIComponent (r_version rel)); [|done]. destruct (encodeURIComponent (t_file t0)); [|done].
        by injection Hurl as <-.
      * destruct (encodeURIComponent (release_tag _)); [|done]. destruct (encodeURIComponent (t_file t0)); [|done].
        by injection Hurl as <-.
    + by injection Hurl as <-.
Qed.

Lemma stable_items_ids (rels : list release) rs (k : nat) :
  Forall2 (fun x r => (let '(index, rel) := x in stable_item index rel) = Ok r) (imap (fun i => pair (k + i)) rels) rs ->
  map s_id rs = map r_version rels.
Proof.
  revert k rs. induction rels as [|rel rels IH]; intros k rs; simpl; intros H; inversion H as [|? r ? rs' Hr Hrs]; subst; [done|].
  simpl. f_equal.
  - unfold stable_item in Hr. destruct (mapM _ _); [|done]. by injection Hr as <-.
  - apply (IH (S k)). erewrite imap_ext; [exact Hrs|]. intros i x _. simpl. f_equal. lia.
Qed.

Lemma preview_ids (rels : list release) (k : nat) :
  map (fun x => p_id (let '(index, rel) := x in preview_item index rel)) (imap (fun i => pair (k + i)) rels) = map r_version rels.
Proof.
  revert k. induction rels as [|rel rels IH]; intros k; simpl; [done|]. f_equal.
  rewrite <- (IH (S k)). f_equal. apply imap_ext. intros i x _. simpl. f_equal. lia.
Qed.

Lemma preview_lookup (rels : list release) i p :
  map (fun '(index, rel) => preview_item index rel) (indexed rels) !! i = Some p ->
  exists rel, p = preview_item i rel.
Proof.
  rewrite list_lookup_fmap. unfold indexed. rewrite list_lookup_imap. destruct (rels !! i); simpl; [|done].
  intros [= <-]. eauto.
Qed.

Lemma preview_tag i rel : starts_with (js "nightly-") (p_tag (preview_item i rel)) = true.
Proof.
  unfold preview_item. cbn [p_tag]. destruct (starts_with (js "nightly-") (r_version rel)) eqn:E; [exact E|].
  apply starts_with_app.
Qed.

(** Release lists: on a channel whose metadata parses, the stable list shows every release of the metadata
    once and in order under a tag starting with [v], each of its packages with a download address (the
    hosted one for the two newest releases, GitHub's for older ones, unless the metadata gave its own);
    the preview list shows the first hundred at most, named [nightly-...], and marks exactly the first
    as the latest. *)
Theorem release_lists net rs ps :
  fetchStableReleases net = Ok rs -> fetchPreviewReleases net = Ok ps ->
  (exists info, fetchChannelInfo net (js "stable") = Ok info /\ rs <> [] /\
     map s_id rs = map r_version (releases info)) /\
  (forall i r, rs !! i = Some r -> starts_with (js "v") (s_tag r) = true /\
     Forall (fun t => t_downloadUrl t <> []) (s_targets r)) /\
  (exists info, fetchChannelInfo net (js "nightly") = Ok info /\
     map p_id ps = map r_version (take 100 (releases info))) /\
  1 <= length ps <= 100 /\
  (forall i p, ps !! i = Some p ->
     starts_with (js "nightly-") (p_tag p) = true /\ p_isLatest p = bool_decide (i = 0)).
Proof.
  intros Hrs Hps. unfold fetchStableReleases in Hrs. unfold fetchPreviewReleases in Hps.
  destruct (fetchChannelInfo net (js "stable")) as [info|e] eqn:Hi; [|done].
  destruct (fetchChannelInfo net (js "nightly")) as [ninfo|e] eqn:Hn; [|done].
  cbn [mbind result_bind] in Hrs, Hps. apply mapM_ok in Hrs. injection Hps as <-.
  assert (Hlen : 1 <= length (releases ninfo)) by by eapply fetchChannelInfo_nonempty.
  split_and!.
  - exists info. split; [done|]. split.
    + intros ->. apply Forall2_length in Hrs. unfold indexed in Hrs. rewrite length_imap in Hrs.
      apply fetchChannelInfo_nonempty in Hi. simpl in Hrs. lia.
    + by apply (stable_items_ids _ _ 0).
  - intros i r Hr. eapply Forall2_lookup_r in Hrs as ([j rel] & _ & Hitem); [|exact Hr].
    by eapply stable_item_spec.
  - exists ninfo. split; [done|]. unfold indexed. rewrite map_map. apply (preview_ids _ 0).
  - rewrite length_map. unfold indexed. rewrite length_imap, length_take. lia.
  - rewrite length_map. unfold indexed. rewrite length_imap, length_take. lia.
  - intros i p Hp. apply preview_lookup in Hp as (rel & ->). split; [apply preview_tag|]. simpl.
    by destruct i.
Qed.

Definition sample_target_json : json :=
  JObj [(js "os", JStr (js "linux")); (js "arch", JStr (js "amd64")); (js "file", JStr (js "renop linux.zip"));
        (js "size", JNum 1024)].

Definition sample_release_json (version : string) : json :=
  JObj [(js "version", JStr (js version)); (js "commit", JStr (js "0123456789abcdef"));
        (js "targets", JArr [sample_target_json])].

Definition sample_network : network := fun url =>
  if bool_decide (url = channelInfoUrl (js "stable"))
  then Response true 200 (Some (JObj [(js "releases", JArr [sample_release_json "1.2.0"; sample_release_json "v1.1.0"])]))
  else if bool_decide (url = channelInfoUrl (js "nightly"))
  then Response true 200 (Some (JObj [(js "releases", JArr [sample_release_json "nightly-7"; sample_release_json "8"])]))
  else Unreachable.

Definition ok_or {E A} (r : result E (list A)) : list A := match r with Ok l => l | Err _ => [] end.

Lemma release_lists_witness :
  map s_tag (ok_or (fetchStableReleases sample_network)) = [js "v1.2.0"; js "v1.1.0"] /\
  map p_tag (ok_or (fetchPreviewReleases sample_network)) = [js "nightly-7"; js "nightly-0123456"] /\
  length (ok_or (fetchPreviewReleases sample_network)) <= 100.
Proof.
  split_and!; [vm_compute; reflexivity..|].
  apply (release_lists sample_network (ok_or (fetchStableReleases sample_network))
    (ok_or (fetchPreviewReleases sample_network))); vm_compute; reflexivity.
Defined.

(** The pages a run of [fetchContributors] read: consecutive from [page], every one but the last full. *)
Fixpoint pages_read (net : network) (perPage page : Z) (batches : list (list json)) : Prop :=
  match batches with
  | [] => True
  | b :: bs =>
    (exists status, net (contributors_url perPage page) = Response true status (Some (JArr b))) /\ b <> [] /\
    (bs <> [] -> (perPage <= Z.of_nat (length b))%Z) /\ pages_read net perPage (page + 1) bs
  end.

(** Whether the last page read, or the page after it, showed that there is nothing more. *)
Definition exhausted (net : network) (perPage page : Z) (batches : list (list json)) : Prop :=
  (exists b, last batches = Some b /\ (Z.of_nat (length b) < perPage)%Z) \/
  (exists status data, net (contributors_url perPage (page + Z.of_nat (length batches))) = Response true status (Some data) /\
     (json_array (Some data) = None \/ data = JArr [])).

Lemma contributor_pages_spec net perPage page pages all l :
  contributor_pages net perPage page pages all = Ok l ->
  exists batches, l = all ++ concat (map (omap contributor_of) batches) /\ length batches <= pages /\
    pages_read net perPage page batches /\ (length batches < pages -> exhausted net perPage page batches).
Proof.
  revert page all. induction pages as [|pages IH]; intros page all; cbn [contributor_pages].
  - intros [= <-]. exists []. simpl. rewrite app_nil_r. split_and!; [done|lia|done|lia].
  - destruct (net (contributors_url perPage page)) as [|[] status [data|]] eqn:Hnet; try done.
    assert (Hstop : json_array (Some data) = None \/ data = JArr [] ->
      exists batches, all = all ++ concat (map (omap contributor_of) batches) /\ length batches <= S pages /\
        pages_read net perPage page batches /\ (length batches < S pages -> exhausted net perPage page batches)).
    { intros Hd. exists []. simpl. rewrite app_nil_r. split_and!; [done|lia|done|]. intros _. right.
      exists status, data. by rewrite Z.add_0_r. }
    destruct (json_array (Some data)) as [[|c batch]|] eqn:Hb.
    + intros [= <-]. apply Hstop. right. destruct data; simplify_eq/=. done.
    + assert (Hdata : data = JArr (c :: batch)) by (destruct data; simplify_eq/=; done). subst data.
      destruct (Z.ltb_spec (Z.of_nat (length (c :: batch))) perPage) as [Hlt|Hge].
      * intros [= <-]. exists [c :: batch]. simpl. rewrite app_nil_r. split_and!; [done|lia|eauto|done|done|done|].
        intros _. left. by exists (c :: batch).
      * intros (bs & -> & Hlen & Hread & Hex)%IH. exists ((c :: batch) :: bs). split_and!.
        -- simpl. by rewrite (assoc_L (++)).
        -- simpl. lia.
        -- simpl. split_and!; [eauto|done|done|done].
        -- intros Hlt. destruct Hex as [(b & Hl & Hb')|(st & d & Hd & Hd')]; [simpl in Hlt; lia|left|right].
           ++ exists b. split; [|done]. by destruct bs.
           ++ exists st, d. split; [|done]. rewrite <- Hd. f_equal. f_equal. simpl length. lia.
    + intros [= <-]. apply Hstop. by left.
Qed.

(** Contributors: [fetchContributors] requests at most [maxPages] consecutive pages, stops early only when a
    page was short, empty or not an array, and returns the people of the pages it read, in order, without the
    entries that are null or bots. *)
Theorem fetchContributors_complete net perPage maxPages l :
  fetchContributors net perPage maxPages = Ok l ->
  exists batches, l = concat (map (omap contributor_of) batches) /\ length batches <= maxPages /\
    pages_read net perPage 1 batches /\ (length batches < maxPages -> exhausted net perPage 1 batches).
Proof. apply (contributor_pages_spec net perPage 1 maxPages []). Qed.

Definition person (login type : string) : json := JObj [(js "login", JStr (js login)); (js "type", JStr (js type))].

Definition contributors_network : network := fun url =>
  if bool_decide (url = contributors_url 2 1) then Response true 200 (Some (JArr [person "a" "User"; person "b" "Bot"]))
  else if bool_decide (url = contributors_url 2 2) then Response true 200 (Some (JArr [person "c" "User"]))
  else Unreachable.

Lemma fetchContributors_complete_witness :
  map c_login (ok_or (fetchContributors contributors_network 2 5)) = [Some (JStr (js "a")); Some (JStr (js "c"))] /\
  exists batches, length batches <= 5 /\ pages_read contributors_network 2 1 batches.
Proof.
  split; [vm_compute; reflexivity|].
  destruct (fetchContributors_complete contributors_network 2 5 (ok_or (fetchContributors contributors_network 2 5)))
    as (batches & _ & Hlen & Hread & _); [vm_compute; reflexivity|]. eauto.
Defined.

(** ** Durations *)
Definition unit_seconds (ty : unit_type) : Z :=
  match ty with
  | NoUnit => 1 | Year => YEAR | Month => MONTH | Day => DAY | HourShort | Hour => HOUR
  | MinuteShort | Minute => MINUTE | Second => 1
  end%Z.

(** How much a duration whose first unit is [ty] may lose when the second amount is absent. *)
Definition dropped_unit (ty : unit_type) : Z :=
  match ty with Year => DAY | Month => HOUR | Day => MINUTE | _ => 1 end%Z.

Definition below_next (a : amount) : Prop :=
  (match type a with
   | Month => val a <= 12 | Day => val a <= 29 | HourShort | Hour => val a <= 23
   | MinuteShort | Minute | Second => val a <= 59 | Year | NoUnit => True
   end)%Z.

(** The statement of the theorem below for the amounts of one branch. *)
Definition accurate (s : Z) (u : amount * amount) : Prop :=
  let '(u1, u2) := u in
  let shown := (val u1 * unit_seconds (type u1) + val u2 * unit_seconds (type u2))%Z in
  (shown <= s < shown + (if 0 <? val u2 then unit_seconds (type u2) else dropped_unit (type u1)))%Z /\
  (0 < s -> 0 < val u1)%Z /\ (0 <= val u2)%Z /\
  (0 < val u2 -> type u2 <> NoUnit /\ unit_seconds (type u2) < unit_seconds (type u1))%Z /\
  below_next u1 /\ below_next u2.

Ltac solve_amounts :=
  intros; unfold accurate, below_next, amount_or, YEAR, MONTH, DAY, HOUR, MINUTE in *;
  repeat match goal with |- context [(0 <? ?n)%Z] =>
    let E := fresh "E" in destruct (Z.ltb_spec 0 n) as [E|E]; cbn [val type no_amount] in * end;
  cbn [val type no_amount unit_seconds dropped_unit] in *;
  unfold YEAR, MONTH, DAY, HOUR, MINUTE in *;
  split_and!; intros; split_and?; try done; Z.to_euclidean_division_equations; lia.

Lemma amounts_year s : (0 <= s -> YEAR <= s ->
  accurate s ({| val := s / YEAR; type := Year |},
    amount_or (s mod YEAR / MONTH) Month (amount_or (s mod YEAR / DAY) Day no_amount)))%Z.
Proof. solve_amounts. Qed.

Lemma amounts_month s : (0 <= s -> MONTH <= s -> s < YEAR ->
  accurate s ({| val := s / MONTH; type := Month |},
    amount_or (s mod MONTH / DAY) Day (amount_or (s mod MONTH / HOUR) HourShort no_amount)))%Z.
Proof. solve_amounts. Qed.

Lemma amounts_day s : (0 <= s -> DAY <= s -> s < MONTH ->
  accurate s ({| val := s / DAY; type := Day |},
    amount_or (s mod DAY / HOUR) HourShort (amount_or (s mod DAY / MINUTE) MinuteShort no_amount)))%Z.
Proof. solve_amounts. Qed.

Lemma amounts_hour s : (0 <= s -> HOUR <= s -> s < DAY ->
  accurate s ({| val := s / HOUR; type := Hour |},
    amount_or (s mod HOUR / MINUTE) MinuteShort (amount_or (s mod HOUR mod MINUTE) Second no_amount)))%Z.
Proof. solve_amounts. Qed.

Lemma amounts_minute s : (0 <= s -> MINUTE <= s -> s < HOUR ->
  accurate s ({| val := s / MINUTE; type := Minute |}, amount_or (s mod MINUTE) Second no_amount))%Z.
Proof. solve_amounts. Qed.

(** Durations: of a duration of [s] whole seconds, the two amounts printed never exceed it and fall short of
    it by less than the second unit (or, when the second amount is absent, less than the finest unit that was
    tried); the first amount is positive for a positive duration, the second unit is finer than the first,
    and the amounts stay within their ranges (months up to 12). *)
Theorem two_units_accurate (diffSeconds : QArith_base.Q) :
  let s := Z.max 0 (Qfloor diffSeconds) in
  let (u1, u2) := two_units s in
  let shown := (val u1 * unit_seconds (type u1) + val u2 * unit_seconds (type u2))%Z in
  (shown <= s < shown + (if 0 <? val u2 then unit_seconds (type u2) else dropped_unit (type u1)))%Z /\
  (0 < s -> 0 < val u1)%Z /\ (0 <= val u2)%Z /\
  (0 < val u2 -> type u2 <> NoUnit /\ unit_seconds (type u2) < unit_seconds (type u1))%Z /\
  below_next u1 /\ below_next u2.
Proof.
  cbv zeta. generalize (Z.max 0 (Qfloor diffSeconds)) (Z.le_max_l 0 (Qfloor diffSeconds)). intros s Hs.
  unfold two_units, below_next.
  destruct (Z.leb_spec YEAR s) as [Hy|Hy]; [apply (amounts_year s Hs Hy)|].
  destruct (Z.leb_spec MONTH s) as [Hm|Hm]; [apply (amounts_month s Hs Hm Hy)|].
  destruct (Z.leb_spec DAY s) as [Hd|Hd]; [apply (amounts_day s Hs Hd Hm)|].
  destruct (Z.leb_spec HOUR s) as [Hh|Hh]; [apply (amounts_hour s Hs Hh Hd)|].
  destruct (Z.leb_spec MINUTE s) as [Hi|Hi]; [apply (amounts_minute s Hs Hi Hh)|].
  unfold MINUTE in *. simpl. split_and!; done || lia.
Qed.

(** The months of a year and a half-finished one can reach twelve. *)
Lemma duration_twelve_months :
  formatDurationTwoUnits (QArith_base.inject_Z (725 * 86400)) (js "en-US") = js "1 year 12 months".
Proof. vm_compute. reflexivity. Qed.
