(* ===== verification/Router.v ===== *)
(** * The site router

    [web/js/router.js], [web/js/lib/doc-routes.js] and the route table of [web/js/main.js]: pattern
    matching, section keys, canonical addresses, the click filter, and [renderRoute] as a state machine.
    [renderRoute] awaits the leave animation and the page handler; what happens between two awaits is one
    step, and the [rendering] and [pendingRender] flags decide what a request in between does.  The
    browser's URL resolution and [URLSearchParams] are parameters; scrolling is left out. *)
From Stdlib Require Import Ascii String.
From S2P Require Import Prelude JsString.
Local Open Scope nat_scope.

(** ** Paths *)
Record route := { pattern : jstr; handler : nat }.

Definition normal_path (path : jstr) : jstr :=
  let p := str_or path (js "/") in
  let p := if starts_with (js "/") p then p else js "/" ++ p in
  if (1 <? length p) && ends_with (js "/") p then slice_drop_last 1 p else p.

(** [params]: empty, or a [splat]. *)
Definition match_one (p : jstr) (r : route) : option (option jstr) :=
  if (pattern r =? p)%js then Some None
  else if ends_with (js "/*") (pattern r) then
    let prefix := slice_drop_last 2 (pattern r) in
    if (p =? prefix)%js then Some (Some [])
    else if starts_with (prefix ++ js "/") p then Some (Some (slice_from (length prefix + 1) p))
    else None
  else None.

Fixpoint match_routes (p : jstr) (routes : list route) : option (route * option jstr) :=
  match routes with
  | [] => None
  | r :: rs => match match_one p r with Some params => Some (r, params) | None => match_routes p rs end
  end.

Definition matchRoute (routes : list route) (path : jstr) : option (route * option jstr) :=
  match_routes (normal_path path) routes.

Definition sectionKey (path : jstr) : jstr :=
  let p := normal_path path in
  if (p =? js "/docs")%js || starts_with (js "/docs/") p then js "docs"
  else if (p =? js "/download")%js then js "download"
  else if (p =? js "/api")%js || starts_with (js "/api/") p then js "api"
  else if (p =? js "/contributors")%js then js "contributors"
  else if (p =? js "/")%js then js "home"
  else p.

Definition docURL (slug : jstr) : jstr :=
  if starts_with (js "api/") slug then js "/" ++ slug else js "/docs/" ++ slug.

Record location := { pathname : jstr; search : jstr; hash : jstr }.

#[export] Instance location_eq_dec : EqDecision location.
Proof. solve_decision. Defined.

Definition href_of (l : location) : jstr := pathname l ++ search l ++ hash l.

(** [pathname.replace(/^\/docs\/api(?=\/|$)/, '/api')]. *)
Definition canonical_pathname (path : jstr) : jstr :=
  if starts_with (js "/docs/api") path then
    let rest := slice_from 9 path in
    if bool_decide (rest = []) || starts_with (js "/") rest then js "/api" ++ rest else path
  else path.

Definition canonicalPageURL (l : location) : jstr := canonical_pathname (pathname l) ++ search l ++ hash l.

(** The location after [history.replaceState] with [canonicalPageURL l]: same search and hash. *)
Definition canonical_location (l : location) : location :=
  {| pathname := canonical_pathname (pathname l); search := search l; hash := hash l |}.

Definition registerRoute (routes : list route) (pattern : jstr) (handler : nat) : list route :=
  routes ++ [{| pattern := pattern; handler := handler |}].

(** The table of [main.js]: home, API, download, contributors, documentation. *)
Definition site_routes : list route :=
  fold_left (fun rs '(p, h) => registerRoute rs p h)
    [(js "/", 0); (js "/api", 1); (js "/api/*", 1); (js "/download", 2); (js "/contributors", 3);
     (js "/docs", 4); (js "/docs/*", 4)] [].

(** ** The render machine *)
Inductive action :=
| Replaced (url : jstr)                                        (** [history.replaceState] *)
| Cleaned (cleanup : nat)
| Handled (handler : nat) (path : jstr) (splat : option jstr) (soft : bool)
| Mounted (cleanup : nat)
| Entered.                                                     (** the enter animation restarts *)

Inductive phase :=
| Idle
| Leaving (path : jstr) (matched : route * option jstr)
| Handling (path : jstr) (soft : bool).

#[export] Instance route_eq_dec : EqDecision route.
Proof. solve_decision. Defined.
#[export] Instance phase_eq_dec : EqDecision phase.
Proof. solve_decision. Defined.

Record page_root := {
  present : bool;               (** [page-root] exists *)
  children : bool;              (** it has child nodes *)
  docs_layout : bool;           (** it contains a [.docs-layout] *)
  page_leave : bool;            (** its classes *)
  page_enter : bool;
}.

Record router := {
  loc : location;
  root : page_root;
  firstRender : bool;
  rendering : bool;
  pendingRender : bool;
  previousPath : option jstr;
  previousView : option jstr;
  currentCleanup : option nat;
  where_at : phase;
  active_path : option jstr;    (** the path the navigation links were last highlighted for *)
  trace : list action;          (** most recent first *)
}.

Section machine.
Context (routes : list route) (view_of : jstr -> option jstr) (resolve : location -> jstr -> location).

Definition set_rendering (r p : bool) (ph : phase) (s : router) : router :=
  {| loc := loc s; root := root s; firstRender := firstRender s; rendering := r; pendingRender := p;
     previousPath := previousPath s; previousView := previousView s; currentCleanup := currentCleanup s;
     where_at := ph; active_path := active_path s; trace := trace s |}.

Definition set_location (l : location) (acts : list action) (s : router) : router :=
  {| loc := l; root := root s; firstRender := firstRender s; rendering := rendering s;
     pendingRender := pendingRender s; previousPath := previousPath s; previousView := previousView s;
     currentCleanup := currentCleanup s; where_at := where_at s; active_path := active_path s;
     trace := acts ++ trace s |}.

(** The canonical address replaces the current one when they differ. *)
Definition canonicalize (s : router) : router :=
  if bool_decide (canonicalPageURL (loc s) = href_of (loc s)) then s
  else set_location (canonical_location (loc s)) [Replaced (canonicalPageURL (loc s))] s.

Definition is_soft (s : router) (path : jstr) (view : option jstr) : bool :=
  negb (firstRender s)
  && match previousPath s with
     | Some prev =>
       bool_decide (previousView s = view) && (sectionKey prev =? sectionKey path)%js
       && bool_decide (sectionKey path ∈ [js "docs"; js "api"]) && docs_layout (root s)
     | None => false
     end.

(** From the navigation links to the call of the handler, which is then awaited. *)
Definition call_handler (path : jstr) (matched : route * option jstr) (soft : bool) (s : router) : router :=
  {| loc := loc s; root := root s; firstRender := firstRender s; rendering := rendering s;
     pendingRender := pendingRender s; previousPath := previousPath s; previousView := previousView s;
     currentCleanup := currentCleanup s; where_at := Handling path soft; active_path := Some path;
     trace := Handled (handler (fst matched)) path (snd matched) soft :: trace s |}.

(** After the leave animation, if any: cleanup, empty root, scroll to the top. *)
Definition after_leave (path : jstr) (matched : route * option jstr) (s : router) : router :=
  call_handler path matched false
    {| loc := loc s;
       root := {| present := present (root s); children := false; docs_layout := false; page_leave := false;
                  page_enter := page_enter (root s) |};
       firstRender := false; rendering := rendering s; pendingRender := pendingRender s;
       previousPath := previousPath s; previousView := previousView s; currentCleanup := None;
       where_at := where_at s; active_path := active_path s;
       trace := match currentCleanup s with Some c => Cleaned c :: trace s | None => trace s end |}.

Definition start_leave (path : jstr) (matched : route * option jstr) (s : router) : router :=
  {| loc := loc s;
     root := {| present := present (root s); children := children (root s); docs_layout := docs_layout (root s);
                page_leave := true; page_enter := false |};
     firstRender := firstRender s; rendering := rendering s; pendingRender := pendingRender s;
     previousPath := previousPath s; previousView := previousView s; currentCleanup := currentCleanup s;
     where_at := Leaving path matched; active_path := active_path s; trace := trace s |}.

Definition find_route (path : jstr) : option (route * option jstr) :=
  match matchRoute routes path with Some m => Some m | None => matchRoute routes (js "/") end.

(** The body of the [try] block up to its first await; [None] when it returns early. *)
Definition begin_pass (s0 : router) : router * bool :=
  let s := canonicalize s0 in
  let path := str_or (pathname (loc s)) (js "/") in
  match find_route path with
  | Some matched =>
    if present (root s) then
      let view := view_of (search (loc s)) in
      let soft := is_soft s path view in
      let s1 := {| loc := loc s; root := root s; firstRender := firstRender s; rendering := rendering s;
                   pendingRender := pendingRender s; previousPath := Some path; previousView := view;
                   currentCleanup := currentCleanup s; where_at := where_at s; active_path := active_path s;
                   trace := trace s |} in
      (if soft then call_handler path matched true s1
       else if negb (firstRender s1) && children (root s1) then start_leave path matched s1
       else after_leave path matched s1, false)
    else (s, true)
  | None => (s, true)
  end.

(** [renderRoute] past its guard, and its [finally] block; the recursion through [finally] happens at most
    once before an await, because it clears [pendingRender]. *)
Fixpoint run_pass (fuel : nat) (s : router) : router :=
  let (s1, returned) := begin_pass (set_rendering true (pendingRender s) (where_at s) s) in
  if returned then
    if pendingRender s1 then
      match fuel with
      | 0 => s1
      | S fuel' => run_pass fuel' (set_rendering false false Idle s1)
      end
    else set_rendering false false Idle s1
  else s1.

Definition finally (s : router) : router :=
  if pendingRender s then run_pass 2 (set_rendering false false Idle s) else set_rendering false false Idle s.

Definition renderRoute (s : router) : router :=
  if rendering s then set_rendering true true (where_at s) s else run_pass 2 s.

(** [navigate]: [pushState] or [replaceState], then render. *)
Definition navigate (path : jstr) (replace : bool) (s : router) : router :=
  let url := if starts_with (js "/") path then path else js "/" ++ path in
  renderRoute (set_location (resolve (loc s) url) (if replace then [Replaced url] else []) s).

Inductive handler_result :=
| Returned (cleanup : option nat)
| Threw.

(** The handler settles, having filled the root. *)
Definition after_handler (result : handler_result) (filled layout : bool) (path : jstr) (soft : bool) (s : router)
    : router :=
  let root' := {| present := present (root s); children := filled; docs_layout := layout;
                  page_leave := page_leave (root s); page_enter := page_enter (root s) |} in
  match result with
  | Threw =>
    finally {| loc := loc s; root := root'; firstRender := firstRender s; rendering := rendering s;
               pendingRender := pendingRender s; previousPath := previousPath s; previousView := previousView s;
               currentCleanup := currentCleanup s; where_at := where_at s; active_path := active_path s;
               trace := trace s |}
  | Returned cleanup =>
    finally {| loc := loc s;
               root := {| present := present root'; children := filled; docs_layout := layout;
                          page_leave := page_leave root'; page_enter := negb soft || page_enter root' |};
               firstRender := firstRender s; rendering := rendering s;
               pendingRender := pendingRender s; previousPath := previousPath s; previousView := previousView s;
               currentCleanup := match cleanup with Some c => Some c | None => currentCleanup s end;
               where_at := where_at s; active_path := active_path s;
               trace := (if soft then [] else [Entered])
                        ++ match cleanup with Some c => [Mounted c] | None => [] end ++ trace s |}
  end.

(** ** Clicks on [a[data-link]] *)
Record click := { meta : bool; ctrl : bool; shift : bool; alt : bool; button : Z; href : option jstr }.

Inductive click_decision := LeaveToBrowser | NavigateTo (url : jstr) | RenderAgain.

Definition click_action (c : click) (l : location) : click_decision :=
  if meta c || ctrl c || shift c || alt c || negb (button c =? 0)%Z then LeaveToBrowser
  else
    let h := default [] (href c) in
    if bool_decide (h = []) || starts_with (js "http") h || starts_with (js "//") h || starts_with (js "#") h
    then LeaveToBrowser
    else if negb (bool_decide (h = href_of l)) then NavigateTo h else RenderAgain.

(** What the browser delivers: clicks, history moves, calls of [navigate], and the two awaits settling. *)
Inductive event :=
| Click (c : click)
| PopState (l : location)
| Navigate (path : jstr) (replace : bool)
| LanguageChanged                    (** [main.js] renders again *)
| LeaveDone
| HandlerDone (result : handler_result) (filled layout : bool).

Definition router_step (ev : event) (s : router) : router :=
  match ev with
  | Click c =>
    match click_action c (loc s) with
    | LeaveToBrowser => s
    | NavigateTo h => navigate h false s
    | RenderAgain => renderRoute s
    end
  | PopState l => renderRoute (set_location l [] s)
  | Navigate path replace => navigate path replace s
  | LanguageChanged => renderRoute s
  | LeaveDone => match where_at s with Leaving path matched => after_leave path matched s | _ => s end
  | HandlerDone result filled layout =>
    match where_at s with Handling path soft => after_handler result filled layout path soft s | _ => s end
  end.

Definition router_run (evs : list event) (s : router) : router := fold_left (fun s ev => router_step ev s) evs s.
End machine.

(** The module's variables before the first [renderRoute]. *)
Definition initial_router (l : location) (r : page_root) : router :=
  {| loc := l; root := r; firstRender := true; rendering := false; pendingRender := false;
     previousPath := None; previousView := None; currentCleanup := None; where_at := Idle;
     active_path := None; trace := [] |}.

(** ** Matching *)
Lemma match_one_spec p r params :
  match_one p r = Some params ->
  match params with
  | None => p = pattern r
  | Some splat => exists prefix, pattern r = prefix ++ js "/*" /\
      (splat = [] /\ p = prefix \/ p = prefix ++ js "/" ++ splat)
  end.
Proof.
  unfold match_one. case_bool_decide as Hp; [by intros [= <-]|].
  destruct (ends_with (js "/*") (pattern r)) eqn:He; [|done].
  apply ends_with_spec in He as [prefix Hpat]. rewrite Hpat.
  change 2 with (length (js "/*")). rewrite slice_drop_last_app.
  case_bool_decide as Hq; [intros [= <-]; eauto|].
  destruct (starts_with (prefix ++ js "/") p) eqn:Hs; [|done]. intros [= <-].
  exists prefix. split; [done|right]. apply starts_with_drop in Hs.
  rewrite length_app in Hs. rewrite Hs at 1. by rewrite <- (assoc_L (++)).
Qed.

Lemma match_routes_first p routes r params :
  match_routes p routes = Some (r, params) ->
  exists i, routes !! i = Some r /\ match_one p r = Some params /\
    forall j q, j < i -> routes !! j = Some q -> match_one p q = None.
Proof.
  induction routes as [|q routes IH]; simpl; [done|]. destruct (match_one p q) eqn:Hq.
  - intros [= -> ->]. exists 0. split; [done|]. split; [done|]. lia.
  - intros (i & Hi & Hm & Hf)%IH. exists (S i). split; [done|]. split; [done|].
    intros [|j] q' Hj; simpl; [by intros [= <-]|]. apply Hf. lia.
Qed.

Lemma normal_path_id p :
  starts_with (js "/") p = true -> ends_with (js "/") p = false -> normal_path p = p.
Proof. intros Hs He. unfold normal_path. destruct p; [done|]. cbn [str_or]. rewrite Hs, He. by rewrite andb_false_r. Qed.

Lemma ends_with_app_ne p s t : t <> [] -> length p = 1 -> ends_with p (s ++ t) = ends_with p t.
Proof.
  intros Ht Hp. unfold ends_with. rewrite reverse_app.
  destruct p as [|c [|]]; try done. destruct t as [|x t] using rev_ind; [done|].
  rewrite reverse_snoc. simpl. by rewrite !andb_true_r.
Qed.

Lemma match_one_splat prefix h rest :
  rest <> [] ->
  match_one (prefix ++ js "/" ++ rest) {| pattern := prefix ++ js "/*"; handler := h |} = 
    if bool_decide (rest = js "*") then Some None else Some (Some rest).
Proof.
  intros Hne. unfold match_one. cbn [pattern]. case_bool_decide as Hp.
  - apply app_inv_head in Hp. assert (E : rest = js "*") by (by injection Hp). by rewrite (bool_decide_eq_true_2 _ E).
  - rewrite ends_with_app. change 2 with (length (js "/*")). rewrite slice_drop_last_app.
    case_bool_decide as Hq.
    { rewrite <- (app_nil_r prefix) in Hq at 2. by apply app_inv_head in Hq. }
    rewrite (assoc_L (++)), starts_with_app. rewrite (bool_decide_eq_false_2 (rest = js "*")).
    + do 2 f_equal. unfold slice_from. change 1 with (length (js "/")). rewrite <- length_app. by rewrite drop_app_length.
    + intros ->. by destruct Hp.
Qed.

Lemma site_routes_skip p k :
  (forall i r, i < k -> site_routes !! i = Some r -> match_one p r = None) ->
  match_routes p site_routes = match_routes p (drop k site_routes).
Proof.
  revert k. generalize site_routes as rs. induction rs as [|r rs IH]; intros k Hk; [by rewrite drop_nil|].
  destruct k as [|k]; [done|]. simpl. rewrite (Hk 0 r) by (done || lia).
  apply IH. intros i q Hi Hq. apply (Hk (S i)); [lia|done].
Qed.

(** The address of a documentation page, by its table row and the splat it must give back. *)
Lemma site_route_matched k prefix h rest :
  site_routes !! k = Some {| pattern := prefix ++ js "/*"; handler := h |} ->
  (forall i r, i < k -> site_routes !! i = Some r -> match_one (prefix ++ js "/" ++ rest) r = None) ->
  rest <> [] -> rest <> js "*" ->
  match_routes (prefix ++ js "/" ++ rest) site_routes = Some ({| pattern := prefix ++ js "/*"; handler := h |}, Some rest).
Proof.
  intros Hk Hskip Hne Hstar. rewrite (site_routes_skip _ k) by done. rewrite (drop_S _ _ _ Hk). cbn [match_routes].
  by rewrite match_one_splat, bool_decide_eq_false_2.
Qed.

(** Matching: [matchRoute] returns the first registered route that fits the normalised path, with the
    parameters that rebuild it: the path is the pattern itself, or the pattern's prefix, or the prefix, a
    slash and the splat; and the address of every documentation page is routed back to its own slug. *)
Theorem matchRoute_first routes path r params slug :
  matchRoute routes path = Some (r, params) ->
  (exists i, routes !! i = Some r /\
     (forall j q, j < i -> routes !! j = Some q -> match_one (normal_path path) q = None)) /\
  match params with
  | None => normal_path path = pattern r
  | Some splat => exists prefix, pattern r = prefix ++ js "/*" /\
      (splat = [] /\ normal_path path = prefix \/ normal_path path = prefix ++ js "/" ++ splat)
  end /\
  (slug <> [] -> ends_with (js "/") slug = false -> 42%N ∉ slug ->
   exists h, matchRoute site_routes (docURL slug) =
     if starts_with (js "api/") slug then Some (Build_route (js "/api/*") h, Some (drop 4 slug))
     else Some (Build_route (js "/docs/*") h, Some slug)).
Proof.
  intros Hm. unfold matchRoute in Hm. split.
  { apply match_routes_first in Hm as (i & Hi & _ & Hf). eauto. }
  split.
  { apply match_routes_first in Hm as (i & _ & Hm & _). by apply match_one_spec. }
  clear Hm. intros Hne He Hstar. unfold docURL, matchRoute.
  destruct (starts_with (js "api/") slug) eqn:Hs.
  - apply starts_with_drop in Hs. change (length (js "api/")) with 4 in Hs.
    assert (Hd : drop 4 slug <> []) by (intros Hd; rewrite Hd, app_nil_r in Hs; by subst slug).
    exists 1. rewrite normal_path_id; [|done|by rewrite ends_with_app_ne].
    rewrite Hs at 1. apply (site_route_matched 2 (js "/api") 1); [done| |done|].
    + intros i r' Hi Hr. repeat (destruct i as [|i]; [injection Hr as <-; by destruct (drop 4 slug)|]). lia.
    + intros E. apply Hstar. rewrite Hs, E. repeat (left || right).
  - exists 4. rewrite normal_path_id; [|done|by rewrite ends_with_app_ne].
    apply (site_route_matched 6 (js "/docs") 4 slug); [done| |done|].
    + intros i r' Hi Hr. repeat (destruct i as [|i]; [injection Hr as <-; by destruct slug|]). lia.
    + intros ->. apply Hstar. left.
Qed.

Lemma matchRoute_first_witness :
  matchRoute site_routes (js "/docs/guide/start/") = Some (Build_route (js "/docs/*") 4, Some (js "guide/start")) /\
  exists h, matchRoute site_routes (docURL (js "api/tokens")) = Some (Build_route (js "/api/*") h, Some (js "tokens")).
Proof.
  split; [reflexivity|].
  apply (matchRoute_first site_routes (js "/docs/guide/start/") (Build_route (js "/docs/*") 4) (Some (js "guide/start"))
    (js "api/tokens")); [reflexivity|done|reflexivity|].
  intros H. repeat (apply elem_of_cons in H as [H|H]; [discriminate H|]). by apply not_elem_of_nil in H.
Defined.

(** ** The machine *)
Lemma canonical_pathname_idem p : canonical_pathname (canonical_pathname p) = canonical_pathname p.
Proof.
  unfold canonical_pathname at 2 3. destruct (starts_with (js "/docs/api") p) eqn:Hs.
  - case_match eqn:Hr.
    + reflexivity.
    + unfold canonical_pathname. by rewrite Hs, Hr.
  - unfold canonical_pathname. by rewrite Hs.
Qed.

Section machine_lemmas.
Context (routes : list route) (view_of : jstr -> option jstr) (resolve : location -> jstr -> location).
Context (has_home : is_Some (matchRoute routes (js "/"))).

(** The page the address asks for. *)
Definition wanted (s : router) : jstr := str_or (canonical_pathname (pathname (loc s))) (js "/").

Lemma find_route_total p : is_Some (find_route routes p).
Proof. unfold find_route. destruct (matchRoute routes p); [done|apply has_home]. Qed.

Fixpoint last_handled (t : list action) : option (nat * jstr * option jstr) :=
  match t with
  | [] => None
  | Handled h p sp _ :: _ => Some (h, p, sp)
  | _ :: t' => last_handled t'
  end.

(** What has been handled for [path]: its route's handler with its parameters. *)
Definition handled_for (path : jstr) (s : router) : Prop :=
  active_path s = Some path /\
  exists m, find_route routes path = Some m /\ last_handled (trace s) = Some (handler (fst m), path, snd m).

(** Replays the trace: every cleanup that ran was the live one, and no page was mounted over a live one
    except by a soft navigation; gives the live cleanup. *)
Fixpoint live_cleanup (t : list action) : option (option nat) :=
  match t with
  | [] => Some None
  | Cleaned c :: t' =>
    match live_cleanup t' with
    | Some (Some c') => if bool_decide (c = c') then Some None else None
    | _ => None
    end
  | Mounted c :: t' => match live_cleanup t' with Some _ => Some (Some c) | None => None end
  | Handled _ _ _ false :: t' => match live_cleanup t' with Some None => Some None | _ => None end
  | _ :: t' => live_cleanup t'
  end.

Definition in_flight_path (ph : phase) : option jstr :=
  match ph with Idle => None | Leaving p _ | Handling p _ => Some p end.

Record router_ok (s : router) : Prop := {
  ok_root : present (root s) = true;
  ok_rendering : rendering s = negb (bool_decide (in_flight_path (where_at s) = None));
  ok_pending : pendingRender s = true -> rendering s = true;
  ok_previous : forall p, in_flight_path (where_at s) = Some p ->
    previousPath s = Some p /\ (pendingRender s = false -> p = wanted s);
  ok_leaving : forall p m, where_at s = Leaving p m -> find_route routes p = Some m;
  ok_handling : forall p soft, where_at s = Handling p soft -> handled_for p s;
  ok_cleanup : live_cleanup (trace s) = Some (currentCleanup s);
}.

(** After [begin_pass], whatever the state it starts from. *)
Lemma begin_pass_ok s :
  present (root s) = true -> rendering s = true -> pendingRender s = false ->
  live_cleanup (trace s) = Some (currentCleanup s) ->
  exists s', begin_pass routes view_of s = (s', false) /\ router_ok s' /\ where_at s' <> Idle /\
    pendingRender s' = false.
Proof.
  intros Hroot Hren Hpend Hlog. unfold begin_pass.
  assert (Hc : loc (canonicalize s) = canonical_location (loc s)).
  { unfold canonicalize. case_bool_decide as Hb; [|done].
    unfold canonicalPageURL, href_of in Hb. apply app_inv_tail in Hb. unfold canonical_location. rewrite Hb.
    by destruct (loc s). }
  assert (Hlog' : live_cleanup (trace (canonicalize s)) = Some (currentCleanup (canonicalize s)))
    by (unfold canonicalize; by case_bool_decide).
  assert (Hren' : rendering (canonicalize s) = true) by (unfold canonicalize; by case_bool_decide).
  assert (Hpend' : pendingRender (canonicalize s) = false) by (unfold canonicalize; by case_bool_decide).
  assert (Hroot' : present (root (canonicalize s)) = true) by (unfold canonicalize; by case_bool_decide).
  revert Hc Hlog' Hren' Hpend' Hroot'. generalize (canonicalize s) as c. intros c Hc Hlog' Hren' Hpend' Hroot'.
  destruct (find_route_total (str_or (pathname (loc c)) (js "/"))) as [m Hm]. rewrite Hm, Hroot'.
  eexists. split; [reflexivity|].
  assert (Hw : str_or (pathname (loc c)) (js "/") = str_or (canonical_pathname (pathname (loc c))) (js "/"))
    by (rewrite Hc; unfold canonical_location; cbn [pathname]; by rewrite canonical_pathname_idem).
  revert Hm Hw. generalize (str_or (pathname (loc c)) (js "/")) as path. intros path Hm Hw.
  destruct (is_soft c path _); [|destruct (negb _ && _)].
  - split; [|done]. split; try done; simpl.
    + intros p [= <-]. split; [done|]. by intros _.
    + intros p soft [= <- <-]. split; [done|]. eauto.
  - split; [|done]. split; try done; simpl.
    + intros p [= <-]. split; [done|]. by intros _.
    + by intros p m' [= <- <-].
  - split; [|done]. split; try done; simpl.
    + intros p [= <-]. split; [done|]. by intros _.
    + intros p soft [= <- <-]. split; [done|]. eauto.
    + destruct (currentCleanup c) as [k|]; simpl; rewrite Hlog'; [|done]. by rewrite bool_decide_eq_true_2.
Qed.

Lemma run_pass_ok fuel s :
  present (root s) = true -> pendingRender s = false -> live_cleanup (trace s) = Some (currentCleanup s) ->
  router_ok (run_pass routes view_of fuel s) /\ where_at (run_pass routes view_of fuel s) <> Idle /\
  pendingRender (run_pass routes view_of fuel s) = false.
Proof.
  intros Hroot Hpend Hlog.
  destruct (begin_pass_ok (set_rendering true (pendingRender s) (where_at s) s)) as (s' & Hb & Hok & Hne & Hp); [done..|].
  destruct fuel; cbn [run_pass]; rewrite Hb; auto.
Qed.

Lemma finally_ok s :
  present (root s) = true -> live_cleanup (trace s) = Some (currentCleanup s) ->
  (pendingRender s = false -> exists p, in_flight_path (where_at s) = Some p /\ p = wanted s /\
     previousPath s = Some p /\ handled_for p s) ->
  router_ok (finally routes view_of s) /\
  pendingRender (finally routes view_of s) = false /\
  (pendingRender s = false -> where_at (finally routes view_of s) = Idle /\
     handled_for (wanted (finally routes view_of s)) (finally routes view_of s)).
Proof.
  intros Hroot Hlog Hdone. unfold finally. destruct (pendingRender s) eqn:Hp.
  - destruct (run_pass_ok 2 (set_rendering false false Idle s)) as (Hok & Hne & Hpend); [done..|].
    split; [done|]. split; [done|]. by intros [=].
  - destruct (Hdone eq_refl) as (p & Hin & -> & Hprev & Hh).
    split; [|split; [done|]].
    + by split.
    + intros _. split; [done|]. exact Hh.
Qed.

Lemma renderRoute_ok s :
  present (root s) = true ->
  rendering s = negb (bool_decide (in_flight_path (where_at s) = None)) ->
  (pendingRender s = true -> rendering s = true) ->
  (forall p, in_flight_path (where_at s) = Some p -> previousPath s = Some p) ->
  (forall p m, where_at s = Leaving p m -> find_route routes p = Some m) ->
  (forall p soft, where_at s = Handling p soft -> handled_for p s) ->
  live_cleanup (trace s) = Some (currentCleanup s) ->
  router_ok (renderRoute routes view_of s) /\ where_at (renderRoute routes view_of s) <> Idle.
Proof.
  intros Hroot Hren Hpend Hprev Hl Hh Hlog. unfold renderRoute. destruct (rendering s) eqn:Hr.
  - split.
    + split; simpl; try done. intros p Hp. split; [by apply Hprev|done].
    + simpl. intros E. by rewrite E in Hren.
  - destruct (run_pass_ok 2 s) as (Hok & Hne & _); [done| |done|done].
    destruct (pendingRender s); [|done]. by specialize (Hpend eq_refl).
Qed.

(** A request keeps the machine well formed and leaves it under way. *)
Lemma request_ok s l acts :
  router_ok s -> live_cleanup (acts ++ trace s) = live_cleanup (trace s) ->
  last_handled (acts ++ trace s) = last_handled (trace s) ->
  router_ok (renderRoute routes view_of (set_location l acts s)) /\
  where_at (renderRoute routes view_of (set_location l acts s)) <> Idle.
Proof.
  intros [] Hlog Hlast. apply renderRoute_ok; simpl; try done.
  - intros p Hp. by apply ok_previous0.
  - intros p soft Hp. destruct (ok_handling0 p soft Hp) as (Ha & m & Hm & Hl).
    split; [done|]. exists m. split; [done|]. simpl. by rewrite Hlast.
  - by rewrite Hlog.
Qed.

Lemma router_step_ok ev s :
  router_ok s -> (where_at s = Idle -> handled_for (wanted s) s) ->
  router_ok (router_step routes view_of resolve ev s) /\
  (where_at (router_step routes view_of resolve ev s) = Idle ->
   handled_for (wanted (router_step routes view_of resolve ev s)) (router_step routes view_of resolve ev s)).
Proof.
  intros Hok Hidle.
  assert (Hsame : forall s', s' = set_location (loc s) [] s -> router_ok (renderRoute routes view_of s') /\
    where_at (renderRoute routes view_of s') <> Idle) by (intros s' ->; by apply request_ok).
  assert (Hs : s = set_location (loc s) [] s) by by destruct s.
  assert (Hgo : forall s', router_ok s' /\ where_at s' <> Idle ->
    router_ok s' /\ (where_at s' = Idle -> handled_for (wanted s') s')) by (intros s' [? ?]; split; done).
  assert (Hnav : forall p r, router_ok (navigate routes view_of resolve p r s) /\
    where_at (navigate routes view_of resolve p r s) <> Idle).
  { intros p r. unfold navigate. apply request_ok; [done|by destruct r..]. }
  destruct ev as [c|l|path replace| | |result filled layout]; cbn [router_step].
  - destruct (click_action c (loc s)); [done|apply Hgo, Hnav|by apply Hgo, Hsame].
  - by apply Hgo, request_ok.
  - apply Hgo, Hnav.
  - by apply Hgo, Hsame.
  - destruct (where_at s) as [|p m|p soft] eqn:Hw; [by rewrite Hw in *|..]; [|by rewrite Hw].
    destruct Hok. specialize (ok_leaving0 p m Hw). rewrite Hw in *. simpl in *.
    split; [|done]. destruct (ok_previous0 p eq_refl) as [Hprev Hwant]. split; try done; simpl.
    + intros q soft [= <- <-]. split; [done|]. eauto.
    + destruct (currentCleanup s); simpl; rewrite ok_cleanup0; [|done]. by rewrite bool_decide_eq_true_2.
  - destruct (where_at s) as [|p m|p soft] eqn:Hw; [by rewrite Hw in *|by rewrite Hw|].
    destruct Hok. rewrite Hw in *. simpl in *. destruct (ok_previous0 p eq_refl) as [Hprev Hwant].
    specialize (ok_handling0 p soft eq_refl). destruct ok_handling0 as (Ha & m & Hm & Hlast).
    assert (Hf : forall t, present (root t) = true -> live_cleanup (trace t) = Some (currentCleanup t) ->
      pendingRender t = pendingRender s -> where_at t = where_at s -> loc t = loc s ->
      previousPath t = previousPath s -> active_path t = active_path s -> last_handled (trace t) = last_handled (trace s) ->
      router_ok (finally routes view_of t) /\
      (where_at (finally routes view_of t) = Idle ->
        handled_for (wanted (finally routes view_of t)) (finally routes view_of t))).
    { intros t Ht Hlog Hp Hph Hloc Hpr Hap Hla. destruct (finally_ok t) as (Hok & Hpf & Hfin); [done..| |].
      - intros Hpt. exists p. rewrite Hph, Hw, Hpr. unfold wanted. rewrite Hloc. rewrite Hp in Hpt.
        split_and!; [done|by apply Hwant|done|]. split; [congruence|]. exists m. rewrite Hla. done.
      - split; [done|]. intros Hi. destruct (pendingRender t) eqn:Hpt; [|by apply Hfin].
        destruct (run_pass_ok 2 (set_rendering false false Idle t)) as (_ & Hne & _); [done..|].
        unfold finally in Hi. by rewrite Hpt in Hi. }
    destruct result as [cleanup|]; apply Hf; try done; simpl.
    + destruct soft, cleanup; simpl; rewrite ok_cleanup0; done.
    + by destruct soft, cleanup.
Qed.
End machine_lemmas.

Section router_theorems.
Context (routes : list route) (view_of : jstr -> option jstr) (resolve : location -> jstr -> location).

(** The site after [onReady(renderRoute)] and the events [evs]. *)
Definition site (l : location) (r : page_root) (evs : list event) : router :=
  router_run routes view_of resolve evs (renderRoute routes view_of (initial_router l r)).

Lemma site_ok l r evs :
  is_Some (matchRoute routes (js "/")) -> present r = true ->
  router_ok routes (site l r evs) /\
  (where_at (site l r evs) = Idle -> handled_for routes (wanted (site l r evs)) (site l r evs)).
Proof.
  intros Hhome Hr. unfold site, router_run.
  assert (H0 : router_ok routes (renderRoute routes view_of (initial_router l r)) /\
    where_at (renderRoute routes view_of (initial_router l r)) <> Idle) by (by apply renderRoute_ok).
  destruct H0 as [H0 Hne0].
  assert (Hi0 : where_at (renderRoute routes view_of (initial_router l r)) = Idle ->
    handled_for routes (wanted (renderRoute routes view_of (initial_router l r)))
      (renderRoute routes view_of (initial_router l r))) by done.
  clear Hne0. revert H0 Hi0. generalize (renderRoute routes view_of (initial_router l r)).
  induction evs as [|ev evs IH]; intros s Hok Hi; simpl; [done|].
  destruct (router_step_ok routes view_of resolve Hhome ev s Hok Hi). by apply IH.
Qed.

(** C33: What the site shows: as long as the page root exists and some route matches [/], after any sequence of
    clicks, history moves, navigations, and settling animations and handlers, whenever the router is at rest the last
    page handler called is the one the current address asks for, with that address and its parameters,
    and the navigation links are highlighted for it, however many requests came in during a render. *)
Theorem router_shows_current l r evs :
  is_Some (matchRoute routes (js "/")) -> present r = true ->
  let s := site l r evs in
  where_at s = Idle ->
  rendering s = false /\ pendingRender s = false /\ active_path s = Some (wanted s) /\
  exists m, find_route routes (wanted s) = Some m /\
    last_handled (trace s) = Some (handler (fst m), wanted s, snd m).
Proof.
  intros Hhome Hr. cbv zeta. intros Hidle. destruct (site_ok l r evs Hhome Hr) as [Hok Hi].
  destruct (Hi Hidle) as (Ha & Hm). destruct Hok. rewrite Hidle in ok_rendering0. simpl in ok_rendering0.
  split; [done|]. split; [|done]. destruct (pendingRender _); [|done]. by rewrite ok_pending0 in ok_rendering0.
Qed.

(** Cleanups: in every reachable state the record of actions replays correctly: each cleanup that ran was
    the one last returned by a handler and not yet run, a page that is not a soft navigation is only ever
    rendered after the previous page's cleanup has run, and [currentCleanup] is exactly the cleanup still
    owed. *)
Theorem router_cleanups l r evs :
  is_Some (matchRoute routes (js "/")) -> present r = true ->
  live_cleanup (trace (site l r evs)) = Some (currentCleanup (site l r evs)).
Proof. intros Hhome Hr. apply (site_ok l r evs Hhome Hr). Qed.

(** Settling: the pending await completes, a handler as [answer] says. *)
Definition settle_one (answer : handler_result * bool * bool) (s : router) : router :=
  match where_at s with
  | Idle => s
  | Leaving _ _ => router_step routes view_of resolve LeaveDone s
  | Handling _ _ =>
    let '(result, filled, layout) := answer in
    router_step routes view_of resolve (HandlerDone result filled layout) s
  end.

Definition phase_weight (ph : phase) : nat := match ph with Idle => 0 | Handling _ _ => 1 | Leaving _ _ => 2 end.

Definition router_weight (s : router) : nat :=
  phase_weight (where_at s) + if pendingRender s then 2 else 0.

Lemma finally_weight s :
  is_Some (matchRoute routes (js "/")) -> present (root s) = true ->
  live_cleanup (trace s) = Some (currentCleanup s) ->
  router_weight (finally routes view_of s) <= if pendingRender s then 2 else 0.
Proof.
  intros Hhome Hr Hlog. unfold finally. destruct (pendingRender s); [|done].
  destruct (run_pass_ok routes view_of Hhome 2 (set_rendering false false Idle s)) as (_ & _ & Hp); [done..|].
  unfold router_weight. rewrite Hp. destruct (where_at _); simpl; lia.
Qed.

Lemma settle_one_weight answer s :
  is_Some (matchRoute routes (js "/")) -> router_ok routes s -> where_at s <> Idle ->
  router_weight (settle_one answer s) < router_weight s.
Proof.
  intros Hhome Hok Hne. unfold settle_one. destruct answer as [[result filled] layout].
  destruct (where_at s) as [|p m|p soft] eqn:Hw; [done|..]; cbn [router_step]; rewrite Hw.
  - unfold router_weight. simpl. rewrite Hw. simpl. lia.
  - destruct Hok. assert (Hs : router_weight s = 1 + if pendingRender s then 2 else 0)
      by (unfold router_weight; by rewrite Hw).
    rewrite Hs. destruct result as [cleanup|]; cbn [after_handler];
      (eapply Nat.le_lt_trans; [apply finally_weight|]); simpl; try done; try lia.
    destruct soft, cleanup; simpl; by rewrite ok_cleanup0.
Qed.

(** Liveness: once requests stop, the router comes to rest after at most four awaits have settled, whatever
    the handlers answer, throwing included. *)
Theorem router_settles l r evs (answers : list (handler_result * bool * bool)) :
  is_Some (matchRoute routes (js "/")) -> present r = true -> 4 <= length answers ->
  where_at (fold_left (fun s a => settle_one a s) answers (site l r evs)) = Idle.
Proof.
  intros Hhome Hr Hlen. destruct (site_ok l r evs Hhome Hr) as [Hok Hi].
  assert (Hw : router_weight (site l r evs) <= length answers).
  { unfold router_weight. destruct (where_at _); simpl; destruct (pendingRender _); lia. }
  clear Hlen. revert Hok Hi Hw. generalize (site l r evs). induction answers as [|a answers IH]; intros s Hok Hi Hw; simpl.
  - unfold router_weight in Hw. simpl in Hw. destruct (where_at s); simpl in Hw; [done|lia..].
  - destruct (decide (where_at s = Idle)) as [E|E].
    + assert (Hset : settle_one a s = s) by (unfold settle_one; by rewrite E). rewrite Hset. destruct (pendingRender s) eqn:Hp.
      { destruct Hok. rewrite E in ok_rendering0. simpl in ok_rendering0. by rewrite ok_pending0 in ok_rendering0. }
      apply IH; [done..|]. unfold router_weight. rewrite E, Hp. simpl. lia.
    + pose proof (settle_one_weight a s Hhome Hok E) as Hlt.
      assert (Hstep : exists ev, settle_one a s = router_step routes view_of resolve ev s).
      { unfold settle_one. destruct a as [[? ?] ?]. destruct (where_at s); [done|eauto..]. }
      destruct Hstep as [ev Hev]. rewrite Hev in *.
      destruct (router_step_ok routes view_of resolve Hhome ev s Hok Hi). apply IH; [done..|simpl in Hw; lia].
Qed.
End router_theorems.

(** A concrete browser for the witnesses: addresses are bare paths. *)
Definition bare (url : jstr) : location := {| pathname := url; search := []; hash := [] |}.
Definition plain_site : location -> page_root -> list event -> router :=
  site site_routes (fun _ => None) (fun _ url => bare url).
Definition empty_root : page_root :=
  {| present := true; children := false; docs_layout := false; page_leave := false; page_enter := false |}.

(** Two navigations while the first page is still being rendered, then everything settles. *)
Definition busy_events : list event :=
  [Navigate (js "/docs/guide") false; Navigate (js "/docs/api/tokens") false;
   HandlerDone (Returned (Some 1)) true false; LeaveDone; HandlerDone (Returned None) true true].

Lemma router_shows_current_witness :
  active_path (plain_site (bare (js "/download")) empty_root busy_events) = Some (js "/api/tokens").
Proof.
  destruct (router_shows_current site_routes (fun _ => None) (fun _ url => bare url) (bare (js "/download")) empty_root
    busy_events) as (_ & _ & Ha & _); [vm_compute; eauto|done|vm_compute; reflexivity|].
  etransitivity; [exact Ha|]. vm_compute. reflexivity.
Defined.

Lemma router_cleanups_witness :
  Cleaned 1 ∈ trace (plain_site (bare (js "/download")) empty_root busy_events) /\
  live_cleanup (trace (plain_site (bare (js "/download")) empty_root busy_events)) = Some None.
Proof.
  split; [vm_compute; repeat (left || right)|].
  etransitivity; [apply (router_cleanups site_routes (fun _ => None) (fun _ url => bare url)); [vm_compute; eauto|done]|].
  vm_compute. reflexivity.
Defined.

Lemma router_settles_witness :
  where_at (fold_left (fun s a => settle_one site_routes (fun _ => None) (fun _ url => bare url) a s)
    (replicate 4 (Threw, true, false)) (plain_site (bare (js "/")) empty_root (take 2 busy_events))) = Idle.
Proof.
  apply (router_settles site_routes (fun _ => None) (fun _ url => bare url)); [vm_compute; eauto|done|simpl; lia].
Defined.
