(* ===== verification/Availability.v ===== *)
(** * Backend availability

    [backend-availability.js]: the monitor that confirms a failed request with two probes, 650 ms apart,
    before it covers the page, as a state machine.  A step is what runs between two awaits, or a microtask;
    requests, visibility changes and probe answers come in any order.  The browser's URL parser is a
    parameter. *)
From Stdlib Require Import Ascii String.
From S2P Require Import Prelude JsString.
Local Open Scope nat_scope.

Definition probeRetryDelayMs : Z := 650.
Definition probeTimeoutMs : Z := 4000.

(** Where [confirm] is: not running, at its first probe, in the delay, at its second probe, or finished with
    a result whose [finally] has not run yet. *)
Inductive confirmation :=
| NoConfirmation
| FirstProbe
| RetryDelay
| SecondProbe
| Finished (result : bool).

#[export] Instance confirmation_eq_dec : EqDecision confirmation.
Proof. solve_decision. Defined.

Record monitor := {
  pendingFailure : bool;
  offline : bool;
  confirming : confirmation;
  queued : nat;             (** microtasks that will call [confirm] *)
  visible : bool;           (** [document.visibilityState === 'visible'] *)
  overlay : bool;           (** the blocking element is displayed *)
}.

(** The constructor, the element hidden. *)
Definition initial_monitor (visible : bool) : monitor :=
  {| pendingFailure := false; offline := false; confirming := NoConfirmation; queued := 0; visible := visible;
     overlay := false |}.

Definition set_pending (p : bool) (s : monitor) : monitor :=
  {| pendingFailure := p; offline := offline s; confirming := confirming s; queued := queued s;
     visible := visible s; overlay := overlay s |}.

Definition set_confirming (c : confirmation) (s : monitor) : monitor :=
  {| pendingFailure := pendingFailure s; offline := offline s; confirming := c; queued := queued s;
     visible := visible s; overlay := overlay s |}.

Definition set_queued (n : nat) (s : monitor) : monitor :=
  {| pendingFailure := pendingFailure s; offline := offline s; confirming := confirming s; queued := n;
     visible := visible s; overlay := overlay s |}.

Definition set_visible (v : bool) (s : monitor) : monitor :=
  {| pendingFailure := pendingFailure s; offline := offline s; confirming := confirming s; queued := queued s;
     visible := v; overlay := overlay s |}.

(** [onOnline] and [onOffline] show or hide the element. *)
Definition noteSuccess (s : monitor) : monitor :=
  {| pendingFailure := false; offline := false; confirming := confirming s; queued := queued s;
     visible := visible s; overlay := false |}.

Definition goOffline (s : monitor) : monitor :=
  {| pendingFailure := false; offline := true; confirming := confirming s; queued := queued s;
     visible := visible s; overlay := true |}.

(** [confirm], up to its first await. *)
Definition confirm (s : monitor) : monitor :=
  match confirming s with
  | NoConfirmation => set_confirming (if visible s then FirstProbe else Finished false) s
  | _ => s
  end.

Definition noteFailure (s : monitor) : monitor :=
  let s := set_pending true s in
  if visible s then confirm s else s.

Definition resume (s : monitor) : monitor :=
  if negb (visible s) || negb (pendingFailure s) && negb (offline s) then s
  else confirm (set_pending true s).

Definition retry (s : monitor) : monitor := confirm (set_pending true s).

(** What a probe's request settles to: a response, or a rejection (a network error or the 4 s timeout);
    [runProbe] turns rejections into [false]. *)
Inductive probe_answer := Answered (ok : bool) | Rejected.
Definition runProbe (a : probe_answer) : bool := match a with Answered ok => ok | Rejected => false end.

(** After the first probe. *)
Definition after_first_probe (a : probe_answer) (s : monitor) : monitor :=
  if runProbe a then set_confirming (Finished true) (noteSuccess s) else set_confirming RetryDelay s.

(** After the delay. *)
Definition after_delay (s : monitor) : monitor :=
  if negb (pendingFailure s) then set_confirming (Finished true) s
  else if negb (visible s) then set_confirming (Finished false) s
  else set_confirming SecondProbe s.

(** After the second probe. *)
Definition after_second_probe (a : probe_answer) (s : monitor) : monitor :=
  if runProbe a then set_confirming (Finished true) (noteSuccess s)
  else if negb (visible s) then set_confirming (Finished false) s
  else set_confirming (Finished false) (goOffline s).

(** [.finally(...)]. *)
Definition after_confirmation (s : monitor) : monitor :=
  let s := set_confirming NoConfirmation s in
  if pendingFailure s && visible s then set_queued (S (queued s)) s else s.

Section origins.
(** [new URL(x, base).origin]; [None] when the parser throws. *)
Context (origin_of : jstr -> option jstr -> option jstr).

(** The input as a string, [input.url] for a [Request]. *)
Definition isSameOriginRequest (input baseURL : jstr) : bool :=
  match origin_of baseURL None with
  | Some base =>
    match origin_of input (Some baseURL) with Some o => bool_decide (o = base) | None => false end
  | None => false
  end.

Inductive event :=
| FetchAnswered (input : jstr)
| FetchThrew (input : jstr) (type_error : bool)
| VisibilityChange (v : bool)
| PageShow
| Online
| Retry
| ProbeSettled (a : probe_answer)
| DelayElapsed
| ConfirmationSettled
| Microtask.

Definition monitor_step (href : jstr) (ev : event) (s : monitor) : monitor :=
  match ev with
  | FetchAnswered input => if isSameOriginRequest input href then noteSuccess s else s
  | FetchThrew input type_error => if isSameOriginRequest input href && type_error then noteFailure s else s
  | VisibilityChange v => resume (set_visible v s)
  | PageShow | Online => resume s
  | Retry => retry s
  | ProbeSettled a =>
    match confirming s with
    | FirstProbe => after_first_probe a s
    | SecondProbe => after_second_probe a s
    | _ => s
    end
  | DelayElapsed => match confirming s with RetryDelay => after_delay s | _ => s end
  | ConfirmationSettled => match confirming s with Finished _ => after_confirmation s | _ => s end
  | Microtask => match queued s with 0 => s | S n => confirm (set_queued n s) end
  end.

Definition monitor_run (href : jstr) (evs : list event) (s : monitor) : monitor :=
  fold_left (fun s ev => monitor_step href ev s) evs s.
End origins.

(** ** Properties *)
Section properties.
Context (origin_of : jstr -> option jstr -> option jstr) (href : jstr).
Local Abbreviation step := (monitor_step origin_of href).
Local Abbreviation run := (monitor_run origin_of href).

Record monitor_ok (s : monitor) : Prop := {
  ok_overlay : overlay s = offline s;
  ok_attended : pendingFailure s = true -> visible s = true -> confirming s <> NoConfirmation \/ 0 < queued s;
}.

Lemma confirm_attended s : confirming (confirm s) <> NoConfirmation.
Proof. unfold confirm. destruct (confirming s) eqn:E; simpl; rewrite ?E; [by destruct (visible s)|done..]. Qed.

Lemma confirm_same s :
  pendingFailure (confirm s) = pendingFailure s /\ offline (confirm s) = offline s /\
  visible (confirm s) = visible s /\ overlay (confirm s) = overlay s /\ queued (confirm s) = queued s.
Proof. unfold confirm. by destruct (confirming s). Qed.

Lemma confirm_ok s : overlay s = offline s -> monitor_ok (confirm s).
Proof.
  intros H. pose proof (confirm_same s) as (Hp & Ho & Hv & Hov & Hq). split; [congruence|].
  intros _ _. left. apply confirm_attended.
Qed.

Lemma monitor_step_ok ev s : monitor_ok s -> monitor_ok (step ev s).
Proof.
  intros [Hov Hatt].
  assert (Hresume : forall t, overlay t = offline t -> monitor_ok (resume t)).
  { intros t Ht. unfold resume. destruct (visible t) eqn:Hv; simpl; [|by split; [done|congruence]].
    destruct (pendingFailure t) eqn:Hp; simpl; [apply confirm_ok; simpl; congruence|].
    destruct (offline t) eqn:Ho; [apply confirm_ok; simpl; congruence|]. simpl. split; [congruence|by rewrite Hp]. }
  destruct ev as [input|input te|v| | | |a| | |]; cbn [monitor_step].
  - destruct (isSameOriginRequest _ _ _); by split.
  - destruct (_ && te); [|by split]. unfold noteFailure. destruct (visible (set_pending true s)) eqn:Hv.
    + by apply confirm_ok.
    + split; [done|]. by rewrite Hv.
  - by apply Hresume.
  - apply Hresume; auto.
  - apply Hresume; auto.
  - by apply confirm_ok.
  - destruct (confirming s) eqn:E; [by split; rewrite ?E|..| |].
    + unfold after_first_probe. destruct (runProbe a); split; simpl; auto.
    + by split; rewrite ?E.
    + unfold after_second_probe. destruct (runProbe a); [by split|]. destruct (visible s); split; simpl; auto.
    + by split; rewrite ?E.
  - destruct (confirming s) eqn:E; try (by split; rewrite ?E). unfold after_delay.
    destruct (pendingFailure s), (visible s); split; simpl; auto.
  - destruct (confirming s) eqn:E; try (by split; rewrite ?E). unfold after_confirmation. simpl.
    destruct (pendingFailure s) eqn:Hp, (visible s) eqn:Hv; split; simpl; auto; rewrite ?Hp, ?Hv; auto; try done.
    intros _ _. right. lia.
  - destruct (queued s) eqn:Hq; [by split; rewrite ?Hq|]. by apply confirm_ok.
Qed.

Lemma run_ok evs s : monitor_ok s -> monitor_ok (run evs s).
Proof. intros Hs. apply (run_invariant step monitor_ok); [apply monitor_step_ok|done]. Qed.

(** A phase is only entered by the step that the code enters it with. *)
Lemma confirm_phase s :
  confirming (confirm s) = confirming s \/ confirming s = NoConfirmation /\
  (confirming (confirm s) = FirstProbe \/ confirming (confirm s) = Finished false).
Proof. unfold confirm. destruct (confirming s) eqn:E; simpl; [destruct (visible s)|..]; auto. Qed.

Lemma resume_phase s :
  confirming (resume s) = confirming s \/ confirming s = NoConfirmation /\
  (confirming (resume s) = FirstProbe \/ confirming (resume s) = Finished false).
Proof. unfold resume. case_match; [by left|]. apply (confirm_phase (set_pending true s)). Qed.

Lemma noteFailure_phase s :
  confirming (noteFailure s) = confirming s \/ confirming s = NoConfirmation /\
  (confirming (noteFailure s) = FirstProbe \/ confirming (noteFailure s) = Finished false).
Proof. unfold noteFailure. case_match; [|by left]. apply (confirm_phase (set_pending true s)). Qed.

Lemma enter_delay ev s :
  confirming (step ev s) = RetryDelay ->
  confirming s = RetryDelay \/
  exists a, ev = ProbeSettled a /\ runProbe a = false /\ confirming s = FirstProbe.
Proof.
  destruct ev as [input|input te|v| | | |a| | |]; cbn [monitor_step].
  - destruct (isSameOriginRequest _ _ _); by left.
  - destruct (_ && te); [|by left]. intros E. destruct (noteFailure_phase s) as [H|[_ [H|H]]]; rewrite H in E; auto; done.
  - intros E. destruct (resume_phase (set_visible v s)) as [H|[_ [H|H]]]; rewrite H in E; auto; done.
  - intros E. destruct (resume_phase s) as [H|[_ [H|H]]]; rewrite H in E; auto; done.
  - intros E. destruct (resume_phase s) as [H|[_ [H|H]]]; rewrite H in E; auto; done.
  - intros E. destruct (confirm_phase (set_pending true s)) as [H|[_ [H|H]]]; unfold retry in E; rewrite H in E; auto; done.
  - destruct (confirming s) eqn:E; rewrite ?E; auto.
    + unfold after_first_probe. destruct (runProbe a) eqn:Ha; [done|]. eauto.
    + unfold after_second_probe. destruct (runProbe a), (visible s); done.
  - destruct (confirming s) eqn:E; rewrite ?E; auto.
  - destruct (confirming s) eqn:E; rewrite ?E; auto. unfold after_confirmation. by case_match.
  - destruct (queued s); [by left|]. intros E.
    destruct (confirm_phase (set_queued n s)) as [H|[_ [H|H]]]; rewrite H in E; auto; done.
Qed.

Lemma enter_second ev s :
  confirming (step ev s) = SecondProbe ->
  confirming s = SecondProbe \/
  ev = DelayElapsed /\ confirming s = RetryDelay /\ pendingFailure s = true /\ visible s = true.
Proof.
  destruct ev as [input|input te|v| | | |a| | |]; cbn [monitor_step].
  - destruct (isSameOriginRequest _ _ _); by left.
  - destruct (_ && te); [|by left]. intros E. destruct (noteFailure_phase s) as [H|[_ [H|H]]]; rewrite H in E; auto; done.
  - intros E. destruct (resume_phase (set_visible v s)) as [H|[_ [H|H]]]; rewrite H in E; auto; done.
  - intros E. destruct (resume_phase s) as [H|[_ [H|H]]]; rewrite H in E; auto; done.
  - intros E. destruct (resume_phase s) as [H|[_ [H|H]]]; rewrite H in E; auto; done.
  - intros E. destruct (confirm_phase (set_pending true s)) as [H|[_ [H|H]]]; unfold retry in E; rewrite H in E; auto; done.
  - destruct (confirming s) eqn:E; rewrite ?E; auto. unfold after_first_probe. by case_match.
  - destruct (confirming s) eqn:E; rewrite ?E; auto. unfold after_delay.
    destruct (pendingFailure s) eqn:Hp; [|done]. destruct (visible s) eqn:Hv; [|done]. auto.
  - destruct (confirming s) eqn:E; rewrite ?E; auto. unfold after_confirmation. by case_match.
  - destruct (queued s); [by left|]. intros E.
    destruct (confirm_phase (set_queued n s)) as [H|[_ [H|H]]]; rewrite H in E; auto; done.
Qed.

(** The overlay appears by one step only, and a tracked answer removes it. *)
Definition answered (ev : event) : bool :=
  match ev with FetchAnswered input => isSameOriginRequest origin_of input href | _ => false end.

Lemma enter_offline ev s :
  offline (step ev s) = true ->
  offline s = true /\ answered ev = false \/
  exists a, ev = ProbeSettled a /\ runProbe a = false /\ confirming s = SecondProbe /\ visible s = true.
Proof.
  assert (Hconf : forall t, offline (confirm t) = offline t) by (intros t; apply confirm_same).
  assert (Hres : forall t, offline (resume t) = offline t)
    by (intros t; unfold resume; case_match; [done|by rewrite Hconf]).
  destruct ev as [input|input te|v| | | |a| | |]; cbn [monitor_step answered]; try (rewrite Hres; auto; fail).
  - destruct (isSameOriginRequest _ _ _); [done|auto].
  - destruct (_ && te); [|auto]. unfold noteFailure. case_match; [rewrite Hconf|]; auto.
  - unfold retry. rewrite Hconf. auto.
  - destruct (confirming s) eqn:E; auto.
    + unfold after_first_probe. case_match; [done|auto].
    + unfold after_second_probe. destruct (runProbe a) eqn:Ha; [done|].
      destruct (visible s); simpl; [intros _; right; exists a|]; auto.
  - destruct (confirming s); auto. unfold after_delay. repeat case_match; auto.
  - destruct (confirming s); auto. unfold after_confirmation. case_match; auto.
  - destruct (queued s); [auto|]. rewrite Hconf. auto.
Qed.

(** C32: The blocking overlay is shown exactly while the monitor is offline, and it only goes offline on evidence:
    in any run that ends offline there was, in this order, a failed first probe, the end of the retry delay
    with the failure still pending, and a failed second probe while the page was visible, and no tracked
    request has been answered since. *)
Theorem offline_confirmed evs v :
  overlay (run evs (initial_monitor v)) = offline (run evs (initial_monitor v)) /\
  (offline (run evs (initial_monitor v)) = true ->
   exists e1 a1 e2 e3 a2 e4,
     evs = ((e1 ++ ProbeSettled a1 :: e2) ++ DelayElapsed :: e3) ++ ProbeSettled a2 :: e4 /\
     runProbe a1 = false /\ confirming (run e1 (initial_monitor v)) = FirstProbe /\
     confirming (run (e1 ++ ProbeSettled a1 :: e2) (initial_monitor v)) = RetryDelay /\
     pendingFailure (run (e1 ++ ProbeSettled a1 :: e2) (initial_monitor v)) = true /\
     runProbe a2 = false /\
     confirming (run ((e1 ++ ProbeSettled a1 :: e2) ++ DelayElapsed :: e3) (initial_monitor v)) = SecondProbe /\
     visible (run ((e1 ++ ProbeSettled a1 :: e2) ++ DelayElapsed :: e3) (initial_monitor v)) = true /\
     Forall (fun ev => answered ev = false) e4).
Proof.
  split; [by apply run_ok|]. intros Hoff.
  set (s0 := initial_monitor v) in *.
  destruct (run_entered step (fun _ => True) (fun t => offline t = true)
    (fun ev t => exists a, ev = ProbeSettled a /\ runProbe a = false /\ confirming t = SecondProbe /\ visible t = true)
    (fun ev => answered ev = false) s0 ltac:(done) I ltac:(intros; by apply enter_offline) ltac:(done) evs Hoff)
    as (f1 & ev & e4 & -> & _ & (a2 & -> & Ha2 & Hsec & Hvis) & He4).
  destruct (run_entered step (fun _ => True) (fun t => confirming t = SecondProbe)
    (fun ev t => ev = DelayElapsed /\ confirming t = RetryDelay /\ pendingFailure t = true /\ visible t = true)
    (fun _ => True) s0 ltac:(done) I
    ltac:(intros ev t _ H; destruct (enter_second ev t H); auto) ltac:(done) f1 Hsec)
    as (f2 & ev & e3 & -> & _ & (-> & Hdel & Hpend & _) & _).
  destruct (run_entered step (fun _ => True) (fun t => confirming t = RetryDelay)
    (fun ev t => exists a, ev = ProbeSettled a /\ runProbe a = false /\ confirming t = FirstProbe)
    (fun _ => True) s0 ltac:(done) I
    ltac:(intros ev t _ H; destruct (enter_delay ev t H); auto) ltac:(done) f2 Hdel)
    as (e1 & ev & e2 & -> & _ & (a1 & -> & Ha1 & Hfirst) & _).
  exists e1, a1, e2, e3, a2, e4. done.
Qed.

(** Settling: the await or microtask at hand completes, a probe as [answer] says. *)
Definition settle_one (answer : probe_answer) (s : monitor) : monitor :=
  match confirming s with
  | FirstProbe | SecondProbe => step (ProbeSettled answer) s
  | RetryDelay => step DelayElapsed s
  | Finished _ => step ConfirmationSettled s
  | NoConfirmation => step Microtask s
  end.

Definition at_rest (s : monitor) : Prop := confirming s = NoConfirmation /\ queued s = 0.

Definition attention (s : monitor) : bool := pendingFailure s && visible s.

(** Steps left: a confirmation under way, one more if a failure is still to be looked at, the queue. *)
Definition monitor_weight (s : monitor) : nat :=
  5 * queued s +
  match confirming s with
  | NoConfirmation => 0
  | Finished _ => 1 + if attention s then 5 else 0
  | SecondProbe => 2 | RetryDelay => 3 | FirstProbe => 4
  end.

Lemma monitor_settle_weight answer s :
  ~ at_rest s -> monitor_weight (settle_one answer s) < monitor_weight s.
Proof.
  unfold at_rest, settle_one, monitor_weight. intros Hrest. destruct (confirming s) eqn:E; cbn [monitor_step]; rewrite ?E.
  - destruct (queued s) as [|n] eqn:Hq; [by destruct Hrest|]. unfold confirm. simpl. rewrite E. simpl.
    unfold attention. simpl. destruct (visible s); simpl; [lia|]. rewrite andb_false_r. lia.
  - unfold after_first_probe. destruct (runProbe answer); simpl; lia.
  - unfold after_delay, attention. destruct (pendingFailure s) eqn:Hp, (visible s) eqn:Hv; simpl; rewrite ?Hp, ?Hv; simpl; lia.
  - unfold after_second_probe, attention. destruct (runProbe answer); simpl; [lia|].
    destruct (visible s) eqn:Hv; simpl; rewrite ?Hv, ?andb_false_r; lia.
  - unfold after_confirmation, attention. simpl. destruct (pendingFailure s && visible s); simpl; lia.
Qed.

(** Liveness: a recorded failure is never forgotten while the page is visible. Once requests, retries and
    visibility changes stop, the monitor comes to rest within a bounded number of steps ([6 + 5 * queued] of
    probe answers, elapsed delays and microtasks), whatever the probes answer, and at rest no failure is
    pending on a visible page. *)
Theorem monitor_settles evs v (answers : list probe_answer) :
  let s := run evs (initial_monitor v) in
  6 + 5 * queued s <= length answers ->
  let t := fold_left (fun s a => settle_one a s) answers s in
  at_rest t /\ (visible t = true -> pendingFailure t = false) /\ overlay t = offline t.
Proof.
  cbv zeta. intros Hlen.
  assert (Hok : monitor_ok (run evs (initial_monitor v))) by by apply run_ok.
  assert (Hw : monitor_weight (run evs (initial_monitor v)) <= length answers).
  { unfold monitor_weight, attention. repeat case_match; simpl in *; lia. }
  clear Hlen. revert Hok Hw. generalize (run evs (initial_monitor v)).
  induction answers as [|a answers IH]; intros s Hok Hw; simpl.
  - assert (Hr : at_rest s).
    { unfold monitor_weight in Hw. unfold at_rest. simpl in Hw. destruct (confirming s); lia || (split; [done|lia]). }
    split; [done|]. destruct Hok as [Hov Hatt]. split; [|done]. intros Hv.
    destruct (pendingFailure s); [|done]. destruct Hr as [Hc Hq]. destruct (Hatt eq_refl Hv); [done|lia].
  - assert (Hstep : exists ev, settle_one a s = step ev s) by (unfold settle_one; destruct (confirming s); eauto).
    destruct (decide (confirming s = NoConfirmation /\ queued s = 0)) as [Hr|Hr].
    + assert (Hs : settle_one a s = s) by (destruct Hr as [Hc Hq]; unfold settle_one; rewrite Hc; simpl; by rewrite Hq).
      rewrite Hs. apply IH; [done|]. destruct Hr as [Hc Hq]. unfold monitor_weight. rewrite Hc, Hq. lia.
    + apply IH; [destruct Hstep as [ev ->]; by apply monitor_step_ok|].
      pose proof (monitor_settle_weight a s Hr). simpl in Hw. lia.
Qed.
End properties.

(** Addresses for the witnesses: everything is on one origin. *)
Definition one_origin (_ : jstr) (_ : option jstr) : option jstr := Some (js "https://renop.example").

Definition outage : list event :=
  [FetchThrew (js "/api/x") true; ProbeSettled Rejected; DelayElapsed; ProbeSettled (Answered false)].

Lemma offline_confirmed_witness :
  overlay (monitor_run one_origin (js "/") outage (initial_monitor true)) = true.
Proof.
  rewrite (proj1 (offline_confirmed one_origin (js "/") outage true)). vm_compute. reflexivity.
Defined.

Lemma monitor_settles_witness :
  at_rest (fold_left (fun s a => settle_one one_origin (js "/") a s) (replicate 6 Rejected)
    (monitor_run one_origin (js "/") (take 1 outage) (initial_monitor true))).
Proof. apply (monitor_settles one_origin (js "/") (take 1 outage) true). vm_compute. lia. Defined.

(** An answer that arrives during the second probe does not keep a failing probe from covering the page. *)
Lemma offline_despite_answer :
  offline (monitor_run one_origin (js "/")
    [FetchThrew (js "/api/x") true; ProbeSettled Rejected; DelayElapsed; FetchAnswered (js "/api/y");
     ProbeSettled Rejected] (initial_monitor true)) = true.
Proof. vm_compute. reflexivity. Qed.
