(* ===== verification/PasswordStrength.v ===== *)
(** * Password strength

    [internal/service/frontend/renop-html/js/password-strength.js]: the client-side length check, the
    score of a password and its level from 0 to 4, the three warnings a weak password has to pass
    ([confirmWeakPasswordIfNeeded]), and the live meter [attachPasswordStrength] puts after an input, as a
    state machine over the input's events and the timer that ends the meter's exit animation.

    The translations ([window.i18n]) are a parameter indexed by the current language. *)
From S2P Require Export JsString.

Local Open Scope Z_scope.

Definition MIN_PASSWORD_LENGTH : Z := 6.
Definition MAX_PASSWORD_LENGTH : Z := 72.

Definition len (s : jstr) : Z := Z.of_nat (length s).

(** ** Scoring *)

(** [.] does not match a line terminator. *)
Definition is_line_terminator (c : N) : bool := (c =? 10)%N || (c =? 13)%N || (c =? 0x2028)%N || (c =? 0x2029)%N.

(** [/^(.)\1+$/] *)
Definition one_repeated (p : jstr) : bool :=
  match p with
  | c :: ((_ :: _) as rest) => negb (is_line_terminator c) && forallb (N.eqb c) rest
  | _ => false
  end.

(** [/^(0123|...|letmein)/i] *)
Definition common_prefixes : list jstr :=
  map js ["0123"; "1234"; "2345"; "3456"; "4567"; "5678"; "6789"; "7890"; "abcd"; "qwer"; "asdf"; "password";
          "admin"; "letmein"]%string.

Definition common_start (p : jstr) : bool := existsb (fun w => starts_with w (map lower_ascii p)) common_prefixes.

(** [/^[a-zA-Z]+$/] and [/^[0-9]+$/] *)
Definition only (f : N -> bool) (p : jstr) : bool := match p with [] => false | _ => forallb f p end.

Definition raw_score (p : jstr) : Z :=
  Z.b2z (6 <=? len p) + Z.b2z (8 <=? len p) + Z.b2z (12 <=? len p) + Z.b2z (16 <=? len p)
  + Z.b2z (existsb is_lower p) + Z.b2z (existsb is_upper p) + Z.b2z (existsb is_digit p)
  + Z.b2z (existsb (fun c => negb (is_alnum c)) p).

Definition score (p : jstr) : Z :=
  let score := raw_score p in
  let score := if one_repeated p then Z.min score 1 else score in
  let score := if common_start p then Z.max 0 (score - 2) else score in
  let score := if only is_alpha p && (len p <? 12) then Z.max 0 (score - 1) else score in
  if only is_digit p then Z.min score 2 else score.

Definition score_level (score : Z) : Z :=
  if score <=? 2 then 1 else if score <=? 4 then 2 else if score <=? 6 then 3 else 4.

Definition cap_level (n level : Z) : Z :=
  if n <? MIN_PASSWORD_LENGTH then 1 else if (n <? 8) && (2 <? level) then 2 else level.

Definition password_level (p : jstr) : Z :=
  match p with [] => 0 | _ => cap_level (len p) (score_level (score p)) end.

Record strength := { level : Z; label : jstr; hint : jstr }.

Section translated.
(** [t(key, params)] in a language; [None] when [window.i18n] is missing. *)
Context {Lang : Type} (translate : Lang -> jstr -> list (jstr * Z) -> jstr).

Definition t (lang : option Lang) (key : jstr) (params : list (jstr * Z)) : jstr :=
  match lang with Some l => translate l key params | None => key end.

Definition getPasswordLengthError (lang : option Lang) (password : jstr) : option jstr :=
  match password with
  | [] => Some (t lang (js "strength.enterPassword") [])
  | _ =>
    if len password <? MIN_PASSWORD_LENGTH then
      Some (t lang (js "strength.minCharError") [(js "min", MIN_PASSWORD_LENGTH)])
    else if MAX_PASSWORD_LENGTH <? len password then
      Some (t lang (js "strength.maxCharError") [(js "max", MAX_PASSWORD_LENGTH)])
    else None
  end.

Definition evaluatePasswordStrength (lang : option Lang) (password : jstr) : strength :=
  match password with
  | [] => {| level := 0; label := []; hint := [] |}
  | _ =>
    let level := password_level password in
    {| level := level;
       label := t lang (js "strength.level" ++ show_Z level) [];
       hint := if (0 <? len password) && (len password <? MIN_PASSWORD_LENGTH) then
                 t lang (js "strength.minChars") [(js "min", MIN_PASSWORD_LENGTH)]
               else if MAX_PASSWORD_LENGTH <? len password then
                 t lang (js "strength.maxChars") [(js "max", MAX_PASSWORD_LENGTH)]
               else t lang (js "strength.hint" ++ show_Z level) [] |}
  end.

(** ** The warnings
    [showConfirm] is the user: [answers] says which dialog is confirmed.  The result is the promise's
    value and the dialogs shown, in order. *)
Definition warnings (lang : option Lang) : list (jstr * jstr) :=
  [(t lang (js "strength.warnTitle1") [], t lang (js "strength.warnMsg1") []);
   (t lang (js "strength.warnTitle2") [], t lang (js "strength.warnMsg2") []);
   (t lang (js "strength.warnTitle3") [], t lang (js "strength.warnMsg3") [])].

Fixpoint confirm_all (answers : jstr * jstr -> bool) (ws : list (jstr * jstr)) : bool * list (jstr * jstr) :=
  match ws with
  | [] => (true, [])
  | w :: ws' =>
    if answers w then let '(r, shown) := confirm_all answers ws' in (r, w :: shown) else (false, [w])
  end.

Definition confirmWeakPasswordIfNeeded (lang : option Lang) (answers : jstr * jstr -> bool) (password : jstr)
    : bool * list (jstr * jstr) :=
  if 2 <=? level (evaluatePasswordStrength lang password) then (true, [])
  else confirm_all answers (warnings lang).

(** ** The meter *)
Record meter := {
  hidden : bool;
  data_level : jstr;
  leaving_class : bool;
  animate_class : bool;
  level_change_class : bool;
  label_text : jstr;
  hint_text : jstr;
  (* the closure's variables *)
  prevLevel : Z;
  hideTimer : option nat;
  isLeaving : bool
}.

(** The input, its controller, and what of the page the meter reads: the language, the motion preference
    and the running timers. *)
Record field := {
  value : jstr;
  maxLength : option Z;
  controller : option meter;
  lang : option Lang;
  reducedMotion : bool;
  timers : list nat;
  next_timer : nat
}.

Definition set_value (v : jstr) (f : field) : field :=
  {| value := v; maxLength := maxLength f; controller := controller f; lang := lang f;
     reducedMotion := reducedMotion f; timers := timers f; next_timer := next_timer f |}.

Definition set_lang (l : option Lang) (f : field) : field :=
  {| value := value f; maxLength := maxLength f; controller := controller f; lang := l;
     reducedMotion := reducedMotion f; timers := timers f; next_timer := next_timer f |}.

Definition set_motion (b : bool) (f : field) : field :=
  {| value := value f; maxLength := maxLength f; controller := controller f; lang := lang f;
     reducedMotion := b; timers := timers f; next_timer := next_timer f |}.

Definition set_meter (m : meter) (ts : list nat) (f : field) : field :=
  {| value := value f; maxLength := maxLength f; controller := Some m; lang := lang f;
     reducedMotion := reducedMotion f; timers := ts; next_timer := next_timer f |}.

(** [clearTimeout(hideTimer)] on the running timers. *)
Definition clearHideTimer (m : meter) (ts : list nat) : list nat :=
  match hideTimer m with Some i => filter (fun j => j <> i) ts | None => ts end.

Definition finishHide (m : meter) (f : field) : field :=
  set_meter {| hidden := true; data_level := js "0"; leaving_class := false; animate_class := false;
               level_change_class := false; label_text := []; hint_text := []; prevLevel := prevLevel m;
               hideTimer := None; isLeaving := false |} (clearHideTimer m (timers f)) f.

Definition showMeter (m : meter) (f : field) : field :=
  set_meter {| hidden := false; data_level := data_level m; leaving_class := false;
               animate_class := hidden m || isLeaving m || animate_class m;
               level_change_class := level_change_class m; label_text := label_text m;
               hint_text := hint_text m; prevLevel := prevLevel m; hideTimer := None;
               isLeaving := false |} (clearHideTimer m (timers f)) f.

(** [hideTimer = setTimeout(finishHide, EXIT_MS)] takes a fresh timer. *)
Definition hideMeter (animated : bool) (m : meter) (f : field) : field :=
  if hidden m && negb (isLeaving m) then set_meter m (timers f) f
  else if negb animated || reducedMotion f then finishHide m f
  else if isLeaving m then set_meter m (timers f) f
  else
    let i := next_timer f in
    {| value := value f; maxLength := maxLength f;
       controller := Some {| hidden := hidden m; data_level := data_level m; leaving_class := true;
                             animate_class := false; level_change_class := false; label_text := label_text m;
                             hint_text := hint_text m; prevLevel := prevLevel m; hideTimer := Some i;
                             isLeaving := true |};
       lang := lang f; reducedMotion := reducedMotion f; timers := clearHideTimer m (timers f) ++ [i];
       next_timer := S i |}.

Definition with_meter (g : meter -> meter) (f : field) : field :=
  match controller f with Some m => set_meter (g m) (timers f) f | None => f end.

Definition set_prevLevel (l : Z) (m : meter) : meter :=
  {| hidden := hidden m; data_level := data_level m; leaving_class := leaving_class m;
     animate_class := animate_class m; level_change_class := level_change_class m; label_text := label_text m;
     hint_text := hint_text m; prevLevel := l; hideTimer := hideTimer m; isLeaving := isLeaving m |}.

Definition write_strength (r : strength) (m : meter) : meter :=
  {| hidden := hidden m; data_level := show_Z (level r); leaving_class := leaving_class m;
     animate_class := animate_class m; level_change_class := level_change_class m; label_text := label r;
     hint_text := hint r; prevLevel := prevLevel m; hideTimer := hideTimer m; isLeaving := isLeaving m |}.

(** [retriggerClass(meter, 'password-strength--level-change')] leaves the class on. *)
Definition retrigger_level_change (r : strength) (m : meter) : meter :=
  {| hidden := hidden m; data_level := data_level m; leaving_class := leaving_class m;
     animate_class := animate_class m;
     level_change_class := negb (level r =? prevLevel m) || level_change_class m;
     label_text := label_text m; hint_text := hint_text m; prevLevel := prevLevel m;
     hideTimer := hideTimer m; isLeaving := isLeaving m |}.

Definition update_meter (m : meter) (f : field) : field :=
  let result := evaluatePasswordStrength (lang f) (value f) in
  with_meter (set_prevLevel (level result))
    (if 0 <? level result
     then with_meter (retrigger_level_change result) (showMeter (write_strength result m) f)
     else hideMeter true m f).

Definition reset_meter (m : meter) (f : field) : field := hideMeter true (set_prevLevel 0 m) f.

Definition new_meter : meter :=
  {| hidden := true; data_level := js "0"; leaving_class := false; animate_class := false;
     level_change_class := false; label_text := []; hint_text := []; prevLevel := 0; hideTimer := None;
     isLeaving := false |}.

(** Attaching twice hands out the first controller. *)
Definition attachPasswordStrength (f : field) : field :=
  match controller f with
  | Some _ => f
  | None =>
    {| value := value f; maxLength := Some MAX_PASSWORD_LENGTH; controller := Some new_meter; lang := lang f;
       reducedMotion := reducedMotion f; timers := timers f; next_timer := next_timer f |}
  end.

Inductive event :=
| Attach
| Input (v : jstr)                    (* the user edits: the value changes, an input or change event follows *)
| Assign (v : jstr)                   (* a script assigns [input.value]: no event *)
| Reset                               (* [controller.reset()] *)
| LanguageChanged (l : option Lang)
| Motion (reduced : bool)
| Fire (i : nat).                     (* a running timer expires *)

Definition with_controller (g : meter -> field -> field) (f : field) : field :=
  match controller f with Some m => g m f | None => f end.

Definition drop_timer (i : nat) (f : field) : field :=
  {| value := value f; maxLength := maxLength f; controller := controller f; lang := lang f;
     reducedMotion := reducedMotion f; timers := filter (fun j => j <> i) (timers f);
     next_timer := next_timer f |}.

Definition meter_step (ev : event) (f : field) : field :=
  match ev with
  | Attach => attachPasswordStrength f
  | Input v => with_controller update_meter (set_value v f)
  | Assign v => set_value v f
  | Reset => with_controller reset_meter f
  | LanguageChanged l => with_controller update_meter (set_lang l f)
  | Motion b => set_motion b f
  | Fire i => if bool_decide (i ∈ timers f) then with_controller finishHide (drop_timer i f) else f
  end.

Definition meter_run (evs : list event) (f : field) : field := fold_left (fun f ev => meter_step ev f) evs f.

Definition plain_input (v : jstr) (l : option Lang) (reduced : bool) : field :=
  {| value := v; maxLength := None; controller := None; lang := l; reducedMotion := reduced; timers := [];
     next_timer := 1 |}.
End translated.

(** ** Levels *)
Lemma existsb_app_l {A} (f : A -> bool) l k : existsb f l = true -> existsb f (l ++ k) = true.
Proof. rewrite existsb_app. by intros ->. Qed.

Lemma only_app f p s : p <> [] -> only f (p ++ s) = true -> only f p = true.
Proof. destruct p; [done|]. simpl. rewrite forallb_app. intros _ H. bool_facts. by rewrite H, H0. Qed.

Lemma one_repeated_app p s : 2 <= len p -> one_repeated (p ++ s) = true -> one_repeated p = true.
Proof.
  destruct p as [|a [|b p]]; cbn [len length]; [done|done|]. intros _. simpl. rewrite forallb_app.
  intros H. bool_facts. by rewrite H, H0, H1.
Qed.

Lemma len_app p s : len (p ++ s) = len p + len s.
Proof. unfold len. rewrite length_app. lia. Qed.

(** A word a longer string starts with: the shorter one already did, or is cut short inside the word. *)
Lemma starts_with_app_inv w q s :
  starts_with w (q ++ s) = true -> starts_with w q = true \/ exists k, w = q ++ k.
Proof.
  revert q. induction w as [|a w IH]; intros [|b q]; simpl; intros H; try (by left); try (by right; exists (a :: w)).
  bool_facts. destruct (IH q H0) as [Hq|[k ->]]; [left|right].
  - by rewrite H, Hq.
  - apply N.eqb_eq in H as ->. by exists k.
Qed.

Lemma lower_ascii_alpha c : is_lower (lower_ascii c) = true -> is_alpha c = true.
Proof. unfold lower_ascii, is_alpha, is_lower, is_upper. case_match; lia. Qed.

Lemma alpha_features p :
  forallb is_alpha p = true -> existsb is_digit p = false /\ existsb (fun c => negb (is_alnum c)) p = false.
Proof.
  induction p as [|c p IH]; cbn [forallb existsb]; [done|]. intros H. bool_facts. destruct (IH H0) as [-> ->].
  unfold is_alnum, is_alpha, is_digit, is_lower, is_upper in *. split; lia.
Qed.

Lemma score_level_bounds z : 1 <= score_level z <= 4.
Proof. unfold score_level. repeat case_match; lia. Qed.

Lemma cap_level_bounds n l : 1 <= l <= 4 -> 1 <= cap_level n l <= 4.
Proof. unfold cap_level. repeat case_match; lia. Qed.

Lemma password_level_bounds p : 0 <= password_level p <= 4 /\ (password_level p = 0 <-> p = []).
Proof.
  unfold password_level. destruct p as [|c p]; [done|].
  pose proof (cap_level_bounds (len (c :: p)) _ (score_level_bounds (score (c :: p)))). split; [lia|].
  split; [lia|done].
Qed.

Lemma short_level p : len p < 6 -> password_level p <= 1.
Proof.
  unfold password_level, cap_level, MIN_PASSWORD_LENGTH. destruct p; [done|]. intros H.
  destruct (Z.ltb_spec (len (n :: p)) 6); lia.
Qed.

(** A password cut short inside a common word. *)
Lemma cut_word_level p w k :
  forallb is_lower w = true -> len w <= 8 -> w = map lower_ascii p ++ k -> k <> [] -> password_level p <= 1.
Proof.
  intros Hw Hlen -> Hk.
  assert (Hp : len p < 8).
  { rewrite len_app in Hlen. unfold len in *. rewrite length_map in Hlen. destruct k; [done|]. cbn [length] in *. lia. }
  rewrite forallb_app in Hw. bool_facts. clear H0.
  assert (Halpha : forallb is_alpha p = true).
  { apply forallb_forall. intros c Hc. apply lower_ascii_alpha. rewrite forallb_forall in H. by apply H, in_map. }
  destruct (alpha_features _ Halpha) as [Hd Ho].
  assert (Hraw : raw_score p <= 3).
  { unfold raw_score. rewrite Hd, Ho.
    assert (Hb : forall b, Z.b2z b <= 1) by (intros []; simpl; lia).
    pose proof (Hb (6 <=? len p)). pose proof (Hb (existsb is_lower p)). pose proof (Hb (existsb is_upper p)).
    replace (8 <=? len p) with false by lia. replace (12 <=? len p) with false by lia.
    replace (16 <=? len p) with false by lia. cbn [Z.b2z]. lia. }
  assert (Hs : p <> [] -> score p <= 2).
  { intros Hne. unfold score. replace (only is_alpha p) with true by (destruct p; [done|]; unfold only; by rewrite Halpha).
    replace (len p <? 12) with true by lia. cbn [andb].
    destruct (one_repeated p), (common_start p), (only is_digit p); lia. }
  destruct p as [|c p]; [done|]. specialize (Hs ltac:(done)). unfold password_level, cap_level, score_level.
  repeat case_match; lia.
Qed.

Lemma common_words : Forall (fun w => len w <= 4 \/ forallb is_lower w = true /\ len w <= 8) common_prefixes.
Proof.
  unfold common_prefixes. cbn [map].
  repeat (apply Forall_cons; split; [first [left; vm_compute; congruence | right; split; vm_compute; congruence]|]).
  apply Forall_nil_2.
Qed.

Lemma common_start_app p s :
  common_start (p ++ s) = true -> common_start p = true \/ password_level p <= 1.
Proof.
  unfold common_start. rewrite !existsb_exists. intros (w & Hin & Hw). rewrite map_app in Hw.
  apply starts_with_app_inv in Hw as [Hw|[k Hk]]; [left; eauto|].
  destruct (decide (k = [])) as [->|Hne].
  { rewrite app_nil_r in Hk. left. exists w. split; [done|]. rewrite Hk. pose proof (starts_with_app (map lower_ascii p) []) as H. by rewrite app_nil_r in H. }
  right. pose proof common_words as Hall. rewrite Forall_forall in Hall. apply list_elem_of_In in Hin.
  destruct (Hall _ Hin) as [H4|[Hlow H8]]; [|by eapply cut_word_level].
  apply short_level. subst w. rewrite len_app in H4. unfold len in *. rewrite length_map in H4. lia.
Qed.

Lemma common_start_mono p s : common_start p = true -> common_start (p ++ s) = true.
Proof.
  unfold common_start. rewrite !existsb_exists. intros (w & Hin & Hw). exists w. split; [done|].
  rewrite map_app. apply starts_with_spec in Hw as [k ->]. rewrite <- (assoc_L (++)). apply starts_with_app.
Qed.

Lemma b2z_le (a b : bool) : (a = true -> b = true) -> Z.b2z a <= Z.b2z b.
Proof. destruct a, b; simpl; intros H; [lia|by discriminate H|lia|lia]. Qed.

Lemma raw_score_mono p s : raw_score p <= raw_score (p ++ s).
Proof.
  unfold raw_score. pose proof (len_app p s). assert (0 <= len s) by (unfold len; lia).
  repeat apply Z.add_le_mono; apply b2z_le; try apply existsb_app_l; rewrite !Z.leb_le; lia.
Qed.

Lemma raw_score_nonneg p : 0 <= raw_score p.
Proof. unfold raw_score. assert (forall b, 0 <= Z.b2z b) as Hb by (intros []; simpl; lia). repeat apply Z.add_nonneg_nonneg; apply Hb. Qed.

Lemma score_mono p s :
  2 <= len p -> (common_start (p ++ s) = true -> common_start p = true) -> score p <= score (p ++ s).
Proof.
  intros Hlen Hcommon. unfold score. pose proof (raw_score_mono p s) as Hraw.
  assert (Hne : p <> []) by (by intros ->).
  pose proof (one_repeated_app p s Hlen) as Hone. pose proof (only_app is_alpha p s Hne) as Halpha.
  pose proof (only_app is_digit p s Hne) as Hdigit. pose proof (len_app p s) as Hl.
  assert (0 <= len s) by (unfold len; lia). pose proof (raw_score_nonneg p).
  destruct (one_repeated (p ++ s)), (common_start (p ++ s)), (only is_alpha (p ++ s)), (only is_digit (p ++ s));
    rewrite ?Hone, ?Hcommon, ?Halpha, ?Hdigit by done; cbn [andb]; repeat case_match; lia.
Qed.

Lemma cap_score_mono n m x y : n <= m -> x <= y -> cap_level n (score_level x) <= cap_level m (score_level y).
Proof. intros Hn Hx. unfold cap_level, score_level, MIN_PASSWORD_LENGTH. repeat case_match; lia. Qed.

Lemma password_level_mono p s : password_level p <= password_level (p ++ s).
Proof.
  destruct (decide (p = [])) as [->|Hne]; [apply password_level_bounds|].
  assert (Hpos : 1 <= password_level (p ++ s)).
  { destruct (password_level_bounds (p ++ s)) as [Hb H0].
    assert (password_level (p ++ s) <> 0); [|lia]. rewrite H0. by intros [? _]%app_nil. }
  destruct (decide (password_level p <= 1)) as [?|Hp]; [lia|].
  assert (Hlen : 6 <= len p) by (destruct (Z.le_gt_cases 6 (len p)); [done|]; pose proof (short_level p); lia).
  unfold password_level. destruct p as [|c p]; [done|]. cbn [app].
  apply cap_score_mono.
  - change (c :: p ++ s) with ((c :: p) ++ s). rewrite len_app. unfold len. lia.
  - change (c :: p ++ s) with ((c :: p) ++ s). apply score_mono; [lia|].
    intros [?|?]%common_start_app; [done|lia].
Qed.

Section strength_theorems.
Context {Lang : Type} (translate : Lang -> jstr -> list (jstr * Z) -> jstr).

Lemma evaluate_level lang p : level (evaluatePasswordStrength translate lang p) = password_level p.
Proof. by destruct p. Qed.

Lemma confirm_all_spec answers (ws : list (jstr * jstr)) :
  fst (confirm_all answers ws) = forallb answers ws /\ snd (confirm_all answers ws) `prefix_of` ws.
Proof.
  induction ws as [|w ws [IH1 IH2]]; simpl; [done|]. destruct (answers w); simpl.
  - destruct (confirm_all answers ws) as [r shown]. simpl in *. split; [done|by apply prefix_cons].
  - split; [done|]. by exists ws.
Qed.

(** A password's level lies between 0 and 4, is 0 exactly for the empty password, and is at least 2 only if
    the password passes the minimum-length check; typing more characters after it never lowers it, so a password
    that needs no warning never comes to need one.  [confirmWeakPasswordIfNeeded] lets a password through exactly when
    its level is at least 2 or the user confirmed all three warnings, and shows none in the first case. *)
Theorem strength_levels lang p s answers :
  let l := level (evaluatePasswordStrength translate lang p) in
  0 <= l <= 4 /\ (l = 0 <-> p = []) /\ (2 <= l -> MIN_PASSWORD_LENGTH <= len p) /\
  l <= level (evaluatePasswordStrength translate lang (p ++ s)) /\
  (getPasswordLengthError translate lang p = None <-> MIN_PASSWORD_LENGTH <= len p <= MAX_PASSWORD_LENGTH) /\
  (fst (confirmWeakPasswordIfNeeded translate lang answers p) = true <->
     2 <= l \/ forallb answers (warnings translate lang) = true) /\
  (snd (confirmWeakPasswordIfNeeded translate lang answers p) = [] <-> 2 <= l).
Proof.
  cbn zeta. unfold confirmWeakPasswordIfNeeded. rewrite !evaluate_level.
  destruct (password_level_bounds p) as [Hb H0]. split_and!; try apply Hb; try apply H0.
  - intros H. pose proof (short_level p). unfold MIN_PASSWORD_LENGTH. lia.
  - apply password_level_mono.
  - unfold getPasswordLengthError, MIN_PASSWORD_LENGTH, MAX_PASSWORD_LENGTH. destruct p as [|c p]; [split; [done|unfold len; simpl; lia]|].
    destruct (Z.ltb_spec (len (c :: p)) 6); [split; [done|lia]|].
    destruct (Z.ltb_spec 72 (len (c :: p))); split; try done; lia.
  - destruct (Z.leb_spec 2 (password_level p)); cbn [fst]; [split; [by left|done]|].
    rewrite (proj1 (confirm_all_spec _ _)). split; [by right|]. intros [?|?]; [lia|done].
  - destruct (Z.leb_spec 2 (password_level p)); simpl; [done|]. split; [|lia].
    repeat (case_match; simplify_eq/=; try done).
Qed.

(** ** The meter shows the input *)
Record meter_ok (m : meter) (ts : list nat) : Prop := {
  ok_timers : ts = match hideTimer m with Some i => [i] | None => [] end;
  ok_leaving : isLeaving m = match hideTimer m with Some _ => true | None => false end;
  ok_class : leaving_class m = isLeaving m;
  ok_hidden : hidden m = true ->
    isLeaving m = false /\ data_level m = js "0" /\ label_text m = [] /\ hint_text m = []
}.

Definition field_ok (f : @field Lang) : Prop :=
  match controller f with Some m => meter_ok m (timers f) | None => timers f = [] end.

Lemma clearHideTimer_ok m ts : meter_ok m ts -> clearHideTimer m ts = [].
Proof.
  intros [-> _ _ _]. unfold clearHideTimer. destruct (hideTimer m); [|done].
  rewrite filter_cons_False by (intros H; by apply H). done.
Qed.

Lemma finishHide_ok m f : meter_ok m (timers f) -> field_ok (finishHide m f).
Proof. intros H. unfold field_ok, finishHide. simpl. rewrite clearHideTimer_ok by done. by constructor. Qed.

Lemma hideMeter_ok b m f : meter_ok m (timers f) -> field_ok (hideMeter b m f).
Proof.
  intros H. unfold hideMeter. destruct (hidden m) eqn:Hh, (isLeaving m) eqn:Hl; cbn [andb negb]; try done;
    (case_match; [by apply finishHide_ok|]); try done;
    unfold field_ok; simpl; rewrite clearHideTimer_ok by done; constructor; simpl; congruence.
Qed.

(** What an update leaves: the current strength, with no timer running, or a meter on its way out. *)
Definition shown (r : strength) (m : meter) : Prop :=
  hidden m = false /\ isLeaving m = false /\ leaving_class m = false /\
  data_level m = show_Z (level r) /\ label_text m = label r /\ hint_text m = hint r.

Definition displays (r : strength) (f : @field Lang) : Prop :=
  exists m, controller f = Some m /\ timers f = [] /\ shown r m.

Definition leaves (f : @field Lang) : Prop :=
  exists m, controller f = Some m /\ meter_ok m (timers f) /\ (hidden m = true \/ isLeaving m = true).

Lemma set_prevLevel_ok l m ts : meter_ok m ts -> meter_ok (set_prevLevel l m) ts.
Proof. by intros [? ? ? ?]. Qed.

Lemma hideMeter_leaves m f : meter_ok m (timers f) -> leaves (hideMeter true m f).
Proof.
  intros H. pose proof (hideMeter_ok true m f H) as Hok. unfold field_ok, leaves in *.
  revert Hok. unfold hideMeter, finishHide.
  destruct (hidden m) eqn:Hh, (isLeaving m) eqn:Hl, (reducedMotion f); simpl; intros Hok;
    (eexists; split; [done|]; split; [exact Hok|]); simpl; auto.
Qed.

(** After an update the meter displays the strength of a non-empty value and leaves for an empty one. *)
Lemma update_meter_spec m f :
  meter_ok m (timers f) -> let f' := update_meter translate m f in
  field_ok f' /\
  (if 0 <? password_level (value f) then displays (evaluatePasswordStrength translate (lang f) (value f)) f'
   else leaves f').
Proof.
  intros Hok. cbn zeta. unfold update_meter. rewrite evaluate_level. case_match eqn:Hl.
  - unfold displays, field_ok, with_meter, showMeter. simpl.
    change (clearHideTimer (write_strength _ m) (timers f)) with (clearHideTimer m (timers f)).
    rewrite clearHideTimer_ok by done. split.
    + by constructor.
    + eexists. split; [done|]. split; [done|]. done.
  - destruct (hideMeter_leaves m f Hok) as (m' & Hm' & Hok' & Hleave).
    unfold with_meter. rewrite Hm'. unfold field_ok, leaves. simpl. split; [by apply set_prevLevel_ok|].
    eexists. split; [done|]. split; [by apply set_prevLevel_ok|]. by destruct m'.
Qed.

Lemma fire_ok i f : field_ok f -> field_ok (meter_step translate (Fire i) f).
Proof.
  intros Hf. simpl. case_bool_decide as Hi; [|done]. unfold with_controller. simpl.
  unfold field_ok in *. destruct (controller f) as [m|] eqn:Hm; [|rewrite Hf in Hi; by apply elem_of_nil in Hi].
  unfold finishHide, clearHideTimer. simpl. destruct (hideTimer m) as [j|] eqn:Hj.
  - destruct Hf as [Hts _ _ _]. rewrite Hj in Hts. rewrite Hts in *. apply list_elem_of_singleton in Hi as ->.
    rewrite filter_cons_False by (intros H; by apply H). by constructor.
  - destruct Hf as [Hts _ _ _]. rewrite Hj in Hts. rewrite Hts in Hi. by apply elem_of_nil in Hi.
Qed.

Lemma meter_step_ok ev f : field_ok f -> field_ok (meter_step translate ev f).
Proof.
  intros Hf. destruct ev as [|v|v| |l|b|i]; [| |done| | |done|by apply fire_ok]; simpl.
  - unfold attachPasswordStrength. unfold field_ok in *. destruct (controller f) as [m|] eqn:Hm; [by rewrite Hm|].
    simpl. rewrite Hf. by constructor.
  - unfold field_ok, with_controller in Hf |- *. simpl. destruct (controller f) as [m|] eqn:Hm; simpl; [|by rewrite Hm].
    by apply (update_meter_spec m (set_value v f)).
  - unfold field_ok, with_controller in Hf |- *. destruct (controller f) as [m|] eqn:Hm; simpl; [|by rewrite Hm].
    apply hideMeter_ok. by apply set_prevLevel_ok.
  - unfold field_ok, with_controller in Hf |- *. simpl. destruct (controller f) as [m|] eqn:Hm; simpl; [|by rewrite Hm].
    by apply (update_meter_spec m (set_lang l f)).
Qed.

Definition updating (ev : @event Lang) : Prop :=
  match ev with Input _ | LanguageChanged _ => True | _ => False end.
Definition quiet (ev : @event Lang) : Prop :=
  match ev with Attach | Assign _ | Motion _ | Fire _ => True | _ => False end.

Lemma displays_quiet r ev f : quiet ev -> displays r f -> displays r (meter_step translate ev f).
Proof.
  intros Hq (m & Hm & Hts & Hs). destruct ev as [|v|v| |l|b|i]; try done; simpl;
    unfold attachPasswordStrength, displays; rewrite ?Hm; simpl; eauto.
  rewrite Hts. rewrite bool_decide_eq_false_2 by (apply not_elem_of_nil). rewrite Hts. eauto.
Qed.

Lemma leaves_quiet ev f : quiet ev -> leaves f -> leaves (meter_step translate ev f).
Proof.
  intros Hq Hl. assert (Hok : field_ok (meter_step translate ev f)).
  { apply meter_step_ok. destruct Hl as (m & Hm & Hok & _). unfold field_ok. by rewrite Hm. }
  destruct Hl as (m & Hm & Hmok & Hl). unfold leaves.
  destruct ev as [|v|v| |l|b|i]; try done; simpl in *; unfold attachPasswordStrength in *;
    rewrite ?Hm in *; eauto.
  case_bool_decide; [|eauto]. unfold with_controller in *. simpl in *. rewrite Hm in *. simpl in *.
  eexists. split; [done|]. split; [exact Hok|]. by left.
Qed.

Lemma hideMeter_kept b m (f : @field Lang) : is_Some (controller (hideMeter b m f)).
Proof. unfold hideMeter, finishHide. repeat case_match; simpl; eauto. Qed.

Lemma with_meter_kept g (f : @field Lang) : is_Some (controller f) -> is_Some (controller (with_meter g f)).
Proof. intros [m Hm]. unfold with_meter. rewrite Hm. simpl. eauto. Qed.

Lemma update_meter_kept m (f : @field Lang) : is_Some (controller (update_meter translate m f)).
Proof.
  unfold update_meter. apply with_meter_kept. case_match; [|apply hideMeter_kept].
  apply with_meter_kept. unfold showMeter. simpl. eauto.
Qed.

Lemma controller_kept ev f : is_Some (controller f) -> is_Some (controller (meter_step translate ev f)).
Proof.
  intros [m Hm]. destruct ev as [|v|v| |l|b|i]; simpl; unfold attachPasswordStrength, with_controller; simpl;
    rewrite ?Hm; simpl; try by eauto.
  - apply update_meter_kept.
  - apply hideMeter_kept.
  - apply update_meter_kept.
  - case_bool_decide; rewrite ?Hm; simpl; eauto.
Qed.

Lemma with_meter_keeps g (f : @field Lang) : value (with_meter g f) = value f /\ lang (with_meter g f) = lang f.
Proof. by destruct f as [? ? [] ? ? ? ?]. Qed.

Lemma update_meter_keeps m (f : @field Lang) :
  value (update_meter translate m f) = value f /\ lang (update_meter translate m f) = lang f.
Proof.
  unfold update_meter. rewrite !(proj1 (with_meter_keeps _ _)), !(proj2 (with_meter_keeps _ _)). case_match.
  - by rewrite (proj1 (with_meter_keeps _ _)), (proj2 (with_meter_keeps _ _)).
  - unfold hideMeter, finishHide. by repeat case_match.
Qed.

Lemma attached_run_last evs ev (f : @field Lang) :
  meter_run translate (Attach :: evs ++ [ev]) f = meter_step translate ev (meter_run translate (Attach :: evs) f).
Proof. unfold meter_run. simpl. apply (run_app (meter_step translate)). Qed.

Lemma attached_run evs (f : @field Lang) :
  controller f = None -> timers f = [] -> let f' := meter_run translate (Attach :: evs) f in
  exists m, controller f' = Some m /\ meter_ok m (timers f').
Proof.
  intros Hc Ht. cbn zeta. unfold meter_run. simpl.
  assert (H : field_ok (attachPasswordStrength f) /\ is_Some (controller (attachPasswordStrength f))).
  { unfold field_ok, attachPasswordStrength. rewrite Hc. simpl. rewrite Ht. split; [by constructor|eauto]. }
  apply (run_invariant (meter_step translate) (fun f => field_ok f /\ is_Some (controller f))) with (evs := evs) in H.
  - destruct H as [Hok [m Hm]]. unfold field_ok in Hok. rewrite Hm in Hok. eauto.
  - intros ev g [? ?]. split; [by apply meter_step_ok|by apply controller_kept].
Qed.

(** Whatever the input went through before, once an edit or a change of language has updated the meter it
    shows the level, label and hint of the value of that moment in the current language, and keeps showing them
    through assignments, repeated attachment and any timer of an earlier exit animation; for an empty value it is
    hidden or on its way out with its single timer running, and once no timer runs it is hidden and blank. *)
Theorem meter_shows_input v0 l0 reduced evs ev quiets :
  updating ev -> Forall quiet quiets ->
  let f := meter_run translate (Attach :: evs ++ [ev]) (plain_input v0 l0 reduced) in
  let f' := meter_run translate quiets f in
  (value f <> [] -> displays (evaluatePasswordStrength translate (lang f) (value f)) f') /\
  (value f = [] -> leaves f' /\ (length (timers f') <= 1)%nat /\
     (timers f' = [] -> exists m, controller f' = Some m /\ hidden m = true /\ data_level m = js "0" /\
                         label_text m = [] /\ hint_text m = [])).
Proof.
  intros Hev Hq. cbn zeta. rewrite attached_run_last.
  destruct (attached_run evs (plain_input v0 l0 reduced) eq_refl eq_refl) as (m & Hm & Hok0).
  set (f0 := meter_run translate (Attach :: evs) (plain_input v0 l0 reduced)) in *. clearbody f0.
  assert (Hupd : exists g, meter_ok m (timers g) /\ meter_step translate ev f0 = update_meter translate m g /\
                   value (meter_step translate ev f0) = value g /\ lang (meter_step translate ev f0) = lang g).
  { destruct ev as [|v|v| |l|b|i]; try done; simpl; unfold with_controller; simpl; rewrite Hm.
    - exists (set_value v f0). split; [done|]. split; [done|]. apply update_meter_keeps.
    - exists (set_lang l f0). split; [done|]. split; [done|]. apply update_meter_keeps. }
  destruct Hupd as (g & Hg & -> & -> & ->). destruct (update_meter_spec m g Hg) as [_ Hspec]. clear Hev.
  destruct (password_level_bounds (value g)) as [Hb Hnil]. split; intros Hv.
  - assert (password_level (value g) <> 0) by (by rewrite Hnil).
    replace (0 <? password_level (value g)) with true in Hspec by lia.
    revert Hspec. generalize (update_meter translate m g). induction Hq as [|e es He _ IH]; intros f Hf; [done|].
    simpl. apply IH. by apply displays_quiet.
  - apply Hnil in Hv. rewrite Hv in Hspec. simpl in Hspec.
    assert (Hl : leaves (meter_run translate quiets (update_meter translate m g))).
    { revert Hspec. generalize (update_meter translate m g). induction Hq as [|e es He _ IH]; intros f Hf; [done|].
      simpl. apply IH. by apply leaves_quiet. }
    split; [done|]. destruct Hl as (m' & Hm' & Hok' & Hl). rewrite (ok_timers _ _ Hok'). split.
    + destruct (hideTimer m'); simpl; lia.
    + intros Hts. exists m'. split; [done|]. assert (Hh : hidden m' = true).
      { destruct Hl as [?|Hl]; [done|]. rewrite (ok_leaving _ _ Hok') in Hl. by destruct (hideTimer m'). }
      split; [done|]. apply (ok_hidden _ _ Hok' Hh).
Qed.
End strength_theorems.

(** ** Concrete runs *)
Definition echo (lang : unit) (key : jstr) (params : list (jstr * Z)) : jstr := key ++ flat_map (fun p => show_Z p.2) params.

Lemma meter_shows_input_witness :
  displays (evaluatePasswordStrength echo (Some tt) (js "Tr0ub4dor&3"))
    (meter_run echo [Fire 1; Assign []; Motion true]
       (meter_run echo (Attach :: [Input (js "x"); Input []] ++ [Input (js "Tr0ub4dor&3")])
          (plain_input [] (Some tt) false))).
Proof.
  apply (proj1 (meter_shows_input echo [] (Some tt) false [Input (js "x"); Input []] (Input (js "Tr0ub4dor&3"))
    [Fire 1; Assign []; Motion true] I ltac:(repeat constructor))). done.
Defined.

Example strength_samples :
  map password_level (map js ["abc"; "password"; "PassWord1"; "aaaaaaaaaaaa"; "73914682"; "hunter2!X"; "Tr0ub4dor&3xyzq"])%string
  = [1; 1; 2; 1; 1; 3; 4].
Proof. reflexivity. Qed.
