(* ===== verification/I18n.v ===== *)
(** * Languages at run time

    [packages/renop-ui/js/i18n-util.js] (locale matching, detection, interpolation and lookup), the language tables
    and [resolveLanguage] of both sites - the management site's
    [internal/service/frontend/renop-html/js/i18n.js] and the public site's [web/js/i18n.js] -, the start-up loading
    of [packages/renop-ui/js/i18n-startup.js], and [setLanguage] of both as a state machine over its requests. *)
From Stdlib Require Import Ascii String.
From S2P Require Export JsString.

(** ** Matching a language tag *)
Section matching.
Context `{UnicodeCase}.

(** The Chinese heuristics, tried in order; [None] lets the base language decide. *)
Definition match_chinese (cleanLower : jstr) (keys : list jstr) : option jstr :=
  let has s := includes (js s) cleanLower in
  let known s := bool_decide (js s ∈ keys) in
  if known "zh-YUE" && (has "yue" || has "cantonese") then Some (js "zh-YUE")
  else if known "zh-HK" && has "hk" then Some (js "zh-HK")
  else if known "zh-TW" && (has "tw" || has "hant") then Some (js "zh-TW")
  else if known "zh-CN" && (has "cn" || has "hans" || has "sg" || bool_decide (cleanLower = js "zh")
                            || starts_with (js "zh-") cleanLower) then Some (js "zh-CN")
  else List.find (fun k => starts_with (js "zh") (to_lower k)) keys.

Definition is_separator (c : N) : bool := (c =? 45)%N || (c =? 95)%N.

(** [clean.split(/[-_]/)[0].toLowerCase()] *)
Definition base_language (clean : jstr) : jstr := to_lower (default [] (head (split_on is_separator clean))).

(** The last resort: the first key that is the base language or a region of it. *)
Definition match_base (clean : jstr) (keys : list jstr) : option jstr :=
  match base_language clean with
  | [] => None
  | base => List.find (fun k => bool_decide (to_lower k = base) || starts_with (base ++ js "-") (to_lower k)) keys
  end.

Definition matchLocaleKey (lang : option jstr) (keys : list jstr) : option jstr :=
  match trim (default [] lang) with
  | [] => None
  | clean =>
    let cleanLower := to_lower clean in
    match List.find (fun k => bool_decide (to_lower k = cleanLower)) keys with
    | Some key => Some key
    | None =>
      if starts_with (js "zh") cleanLower || starts_with (js "yue") cleanLower then
        match match_chinese cleanLower keys with
        | Some key => Some key
        | None => match_base clean keys
        end
      else match_base clean keys
    end
  end.
End matching.

(** ** Detection
    [saved] is the stored choice; [languages] and [language] are the browser's. *)
Definition browser_languages (languages : list (option jstr)) (language : option jstr) : list (option jstr) :=
  match languages with [] => [language] | _ => languages end.

Fixpoint first_resolved (resolve : jstr -> option jstr) (ls : list (option jstr)) : option jstr :=
  match ls with
  | [] => None
  | Some ((_ :: _) as l) :: ls => match resolve l with Some r => Some r | None => first_resolved resolve ls end
  | _ :: ls => first_resolved resolve ls
  end.

Definition detectLanguage (saved : option jstr) (languages : list (option jstr)) (language : option jstr)
    (resolve : jstr -> option jstr) (defaultLang : jstr) : jstr * jstr :=
  match first_resolved resolve [saved] with
  | Some l => (l, js "localStorage")
  | None =>
    match first_resolved resolve (browser_languages languages language) with
    | Some l => (l, js "browser")
    | None => (defaultLang, js "fallback")
    end
  end.

(** ** Messages *)

(** The replacement text of [String.replace]: [$$] is a dollar, [$&] the match, [$`] and [$'] what surrounds it;
    the expressions here have no groups, so any other dollar stands for itself. *)
Fixpoint expand_replacement (before matched after r : jstr) : jstr :=
  match r with
  | c :: ((d :: r') as t) =>
    if (c =? 36)%N then
      if (d =? 36)%N then d :: expand_replacement before matched after r'
      else if (d =? 38)%N then matched ++ expand_replacement before matched after r'
      else if (d =? 96)%N then before ++ expand_replacement before matched after r'
      else if (d =? 39)%N then after ++ expand_replacement before matched after r'
      else c :: expand_replacement before matched after t
    else c :: expand_replacement before matched after t
  | _ => r
  end.

(** [out.replace(/\{key\}/g, value)] for a key without expression syntax; [before] is what was scanned. *)
Fixpoint replace_all (fuel : nat) (pattern r before s : jstr) : jstr :=
  match fuel, s with
  | S fuel, c :: s' =>
    if starts_with pattern s then
      let after := drop (length pattern) s in
      expand_replacement before pattern after r ++ replace_all fuel pattern r (before ++ pattern) after
    else c :: replace_all fuel pattern r (before ++ [c]) s'
  | _, _ => s
  end.

Definition placeholder (key : jstr) : jstr := js "{" ++ key ++ js "}".

(** [params]: the entries in order, values already through [String]. *)
Definition interpolateMessage (text : jstr) (params : list (jstr * jstr)) : jstr :=
  fold_left (fun out '(k, v) => replace_all (length out) (placeholder k) v [] out) params text.

Definition dictionary := gmap jstr jstr.

(** [dict[key] || ...]: an empty text counts as missing. *)
Definition lookup_text (d : dictionary) (key : jstr) : option jstr :=
  match d !! key with Some [] | None => None | Some text => Some text end.

Definition translateKey (key : jstr) (params : list (jstr * jstr)) (current fallback : dictionary) : jstr :=
  interpolateMessage (default key (lookup_text current key ∪ lookup_text fallback key)) params.

(** ** The management site's tables *)
Definition DEFAULT_LANG : jstr := js "en-US".

Definition js_pairs (l : list (string * string)) : list (jstr * jstr) := map (fun p => (js p.1, js p.2)) l.

Definition languageAliases : list (jstr * jstr) := js_pairs
  [("en-US", "en-US"); ("en", "en-US"); ("zh-CN", "zh-CN"); ("zh-cn", "zh-CN"); ("zh-Hans", "zh-CN");
   ("zh-hans", "zh-CN"); ("zh", "zh-CN"); ("zh-HK", "zh-HK"); ("zh-hk", "zh-HK"); ("zh-Hant-HK", "zh-HK");
   ("zh-hant-hk", "zh-HK"); ("zh-TW", "zh-TW"); ("zh-tw", "zh-TW"); ("zh-Hant", "zh-TW"); ("zh-hant", "zh-TW");
   ("zh-Hant-TW", "zh-TW"); ("zh-hant-tw", "zh-TW"); ("zh-YUE", "zh-YUE"); ("zh-yue", "zh-YUE"); ("yue", "zh-YUE");
   ("yue-HK", "zh-YUE"); ("yue-hk", "zh-YUE"); ("zh-Hant-HK-yue", "zh-YUE"); ("ko-KR", "ko-KR"); ("ko-kr", "ko-KR");
   ("ko", "ko-KR"); ("ja-JP", "ja-JP"); ("ja", "ja-JP"); ("de-DE", "de-DE"); ("de", "de-DE"); ("fr-FR", "fr-FR");
   ("fr", "fr-FR"); ("ru-RU", "ru-RU"); ("ru-ru", "ru-RU"); ("ru", "ru-RU"); ("es-ES", "es-ES"); ("es-es", "es-ES");
   ("es", "es-ES"); ("pt-PT", "pt-PT"); ("pt-pt", "pt-PT"); ("pt-BR", "pt-PT"); ("pt-br", "pt-PT");
   ("pt", "pt-PT")]%string.

Definition getAvailableLanguages : list jstr :=
  map js ["zh-CN"; "zh-HK"; "zh-TW"; "zh-YUE"; "ko-KR"; "en-US"; "ja-JP"; "de-DE"; "fr-FR"; "ru-RU"; "es-ES"; "pt-PT"]%string.

Fixpoint table_get (table : list (jstr * jstr)) (key : jstr) : option jstr :=
  match table with
  | [] => None
  | (k, v) :: table => if bool_decide (k = key) then Some v else table_get table key
  end.

Section resolving.
Context `{UnicodeCase}.

Definition resolveLanguage (lang : option jstr) : option jstr :=
  matchLocaleKey lang (map fst languageAliases) ≫= table_get languageAliases.

(** ** The public site's tables *)
Definition web_available : list jstr := map js ["zh-CN"; "en-US"; "ja-JP"; "ru-RU"; "fr-FR"]%string.

Definition web_aliases : list jstr :=
  map js ["en-US"; "en"; "zh-CN"; "zh-cn"; "zh-Hans"; "zh"; "zh-HK"; "zh-TW"; "zh-YUE"; "ja-JP"; "ja"; "ru-RU"; "ru";
          "fr-FR"; "fr"]%string.

Definition web_resolveLanguage (lang : option jstr) : option jstr :=
  matched ← matchLocaleKey lang web_aliases;
  let named s := bool_decide (matched = js s) in
  if named "en" || named "en-US" then Some (js "en-US")
  else if starts_with (js "zh") matched || starts_with (js "yue") matched then Some (js "zh-CN")
  else if named "ja" || named "ja-JP" then Some (js "ja-JP")
  else if named "ru" || named "ru-RU" then Some (js "ru-RU")
  else if named "fr" || named "fr-FR" then Some (js "fr-FR")
  else if bool_decide (matched ∈ web_available) then Some matched else None.

(** The language tree of the documentation. *)
Definition getDocsLocale (currentLang : jstr) : jstr :=
  let named s := bool_decide (currentLang = js s) in
  if named "zh-CN" || named "zh-HK" || named "zh-TW" || named "zh-YUE" then js "zh-CN"
  else if named "ja-JP" || named "ru-RU" || named "fr-FR" || named "en-US" then currentLang
  else js "en-US".
End resolving.

(** ** Resolution *)
Section resolution.
Context `{UnicodeCase}.

Lemma match_chinese_in c keys k : match_chinese c keys = Some k -> k ∈ keys.
Proof.
  unfold match_chinese. repeat case_match; intros E; simplify_eq; bool_facts; try done.
  by apply find_some in E as [?%list_elem_of_In _].
Qed.

Lemma match_base_in c keys k : match_base c keys = Some k -> k ∈ keys.
Proof. unfold match_base. case_match; [done|]. intros [?%list_elem_of_In _]%find_some. done. Qed.

Lemma matchLocaleKey_in lang keys k : matchLocaleKey lang keys = Some k -> k ∈ keys.
Proof.
  unfold matchLocaleKey. destruct (trim _); [done|].
  destruct (List.find _ keys) as [k'|] eqn:E; [intros [= <-]; by apply find_some in E as [?%list_elem_of_In _]|].
  case_match; [|apply match_base_in].
  destruct (match_chinese _ keys) eqn:E2; [intros [= <-]; by eapply match_chinese_in|apply match_base_in].
Qed.

Lemma table_get_in table k v : table_get table k = Some v -> (k, v) ∈ table.
Proof.
  induction table as [|[k' v'] table IH]; simpl; [done|]. case_bool_decide as Hk.
  - intros [= <-]. subst. apply list_elem_of_here.
  - intros Hv. apply list_elem_of_further. by apply IH.
Qed.

Lemma table_forallb (f : jstr * jstr -> bool) table k v :
  forallb f table = true -> table_get table k = Some v -> f (k, v) = true.
Proof. intros Hf Hv%table_get_in%list_elem_of_In. rewrite forallb_forall in Hf. by apply Hf. Qed.

Lemma resolveLanguage_available lang l : resolveLanguage lang = Some l -> l ∈ getAvailableLanguages.
Proof.
  unfold resolveLanguage. destruct (matchLocaleKey _ _) as [k|]; [|done]. cbn [mbind option_bind]. intros Hl.
  apply (table_forallb (fun p => bool_decide (p.2 ∈ getAvailableLanguages))) in Hl; [|by vm_compute].
  by apply bool_decide_eq_true in Hl.
Qed.

Lemma web_resolveLanguage_available lang l : web_resolveLanguage lang = Some l -> l ∈ web_available.
Proof.
  unfold web_resolveLanguage. destruct (matchLocaleKey _ _) as [k|]; [|done]. cbn [mbind option_bind].
  assert (Hin : forall s, bool_decide (js s ∈ web_available) = true -> js s ∈ web_available)
    by (intros s; apply bool_decide_eq_true).
  repeat case_match; intros E; simplify_eq; try (by apply Hin); by bool_facts.
Qed.

(** *** The primary subtag decides *)
Lemma to_lower_latin1 s : is_latin1 s = true -> to_lower s = map lower_unit s.
Proof. intros Hs. unfold to_lower. by rewrite Hs. Qed.

Lemma lower_separator c : is_separator (lower_unit c) = is_separator c.
Proof. unfold is_separator, lower_unit, is_upper. case_match; lia. Qed.

Lemma split_lower s : split_on is_separator (map lower_unit s) = map (map lower_unit) (split_on is_separator s).
Proof.
  induction s as [|c s IH]; [done|]. cbn [map split_on]. rewrite lower_separator, IH.
  destruct (is_separator c); [done|]. by destruct (split_on is_separator s).
Qed.

Lemma is_latin1_split s p : is_latin1 s = true -> p ∈ split_on is_separator s -> is_latin1 p = true.
Proof.
  rewrite !is_latin1_spec. intros Hs. revert p. induction Hs as [|c s Hc Hs IH]; intros p; cbn [split_on].
  - rewrite list_elem_of_singleton. by intros ->.
  - destruct (is_separator c).
    + rewrite elem_of_cons. intros [->|Hp]; [constructor|by apply IH].
    + destruct (split_on is_separator s) as [|q qs] eqn:E; [by apply split_on_not_nil in E|].
      rewrite elem_of_cons. intros [->|Hp].
      * constructor; [done|]. apply IH, list_elem_of_here.
      * apply IH. by apply list_elem_of_further.
Qed.

Definition first_part (s : jstr) : jstr := default [] (head (split_on is_separator s)).

Lemma base_language_lower s : is_latin1 s = true -> base_language s = first_part (to_lower s).
Proof.
  intros Hs. unfold base_language, first_part. rewrite (to_lower_latin1 s Hs), split_lower.
  destruct (split_on is_separator s) as [|p ps] eqn:E; [by apply split_on_not_nil in E|]. simpl.
  apply to_lower_latin1. eapply is_latin1_split; [done|]. rewrite E. apply list_elem_of_here.
Qed.

Lemma first_part_prefix s : exists r, s = first_part s ++ r /\ match r with c :: _ => is_separator c = true | [] => True end.
Proof.
  unfold first_part. induction s as [|c s (r & Hr & Hsep)]; [by exists []|]. cbn [split_on].
  destruct (is_separator c) eqn:E; [by exists (c :: s)|].
  destruct (split_on is_separator s) as [|p ps] eqn:Es; [by apply split_on_not_nil in Es|]. simpl in *.
  exists r. by rewrite <- Hr.
Qed.

(** The languages known by their primary subtag alone, with what each resolves to. *)
Definition families : list (jstr * jstr) := js_pairs
  [("en", "en-US"); ("ko", "ko-KR"); ("ja", "ja-JP"); ("de", "de-DE"); ("fr", "fr-FR"); ("ru", "ru-RU");
   ("es", "es-ES"); ("pt", "pt-PT")]%string.

Definition chinese : list jstr := map js ["zh-CN"; "zh-HK"; "zh-TW"; "zh-YUE"]%string.

(** Checked on the table: an alias of a family resolves to the family's language. *)
Definition alias_in_family (p : jstr * jstr) : bool :=
  forallb (fun f => negb (bool_decide (first_part (map lower_unit p.1) = f.1)) || bool_decide (p.2 = f.2)) families.

Definition alias_chinese (p : jstr * jstr) : bool :=
  negb (starts_with (js "zh") (map lower_unit p.1) || starts_with (js "yue") (map lower_unit p.1))
  || bool_decide (p.2 ∈ chinese).

Lemma alias_latin1 k : k ∈ map fst languageAliases -> is_latin1 k = true.
Proof.
  intros Hk%list_elem_of_In. assert (Hall : forallb is_latin1 (map fst languageAliases) = true) by by vm_compute.
  rewrite forallb_forall in Hall. by apply Hall.
Qed.

Lemma table_get_total k : k ∈ map fst languageAliases -> is_Some (table_get languageAliases k).
Proof.
  intros Hk%list_elem_of_In.
  assert (Hall : forallb (fun k => bool_decide (is_Some (table_get languageAliases k))) (map fst languageAliases) = true)
    by by vm_compute.
  rewrite forallb_forall in Hall. exact (proj1 (bool_decide_eq_true _) (Hall k Hk)).
Qed.

(** An exact match, up to case, of an alias. *)
Lemma exact_alias c k :
  List.find (fun k => bool_decide (to_lower k = c)) (map fst languageAliases) = Some k ->
  exists v, table_get languageAliases k = Some v /\ map lower_unit k = c.
Proof.
  intros [Hin%list_elem_of_In Hk%bool_decide_eq_true]%find_some. destruct (table_get_total k Hin) as [v Hv].
  exists v. split; [done|]. by rewrite <- Hk, to_lower_latin1 by by apply alias_latin1.
Qed.

Lemma family_resolves lang b v :
  (b, v) ∈ families -> base_language (trim lang) = b -> is_latin1 (trim lang) = true ->
  resolveLanguage (Some lang) = Some v.
Proof.
  intros Hin Hb Hlatin. unfold resolveLanguage, matchLocaleKey. cbn [default from_option id].
  set (clean := trim lang) in *. clearbody clean.
  assert (Hbase : first_part (to_lower clean) = b) by by rewrite <- base_language_lower.
  assert (Hne : clean <> []).
  { intros ->. apply list_elem_of_In in Hin. vm_compute in Hbase. subst b.
    repeat (destruct Hin as [Hin|Hin]; [by vm_compute in Hin|]). done. }
  destruct clean as [|c0 clean']; [done|]. set (clean := c0 :: clean') in *. clearbody clean. clear c0 clean' Hne.
  destruct (List.find _ _) as [k|] eqn:E.
  { apply exact_alias in E as (w & Hw & Hk). cbn [mbind option_bind]. rewrite Hw. f_equal.
    pose proof (table_forallb alias_in_family languageAliases k w ltac:(by vm_compute) Hw) as Hf.
    unfold alias_in_family in Hf. rewrite forallb_forall in Hf. specialize (Hf (b, v) (proj1 (list_elem_of_In _ _) Hin)).
    cbn [fst snd] in Hf. rewrite Hk, Hbase in Hf. rewrite bool_decide_eq_true_2 in Hf by done.
    by apply bool_decide_eq_true in Hf. }
  clear E. destruct (first_part_prefix (to_lower clean)) as (r & Hr & Hsep). rewrite Hbase in Hr. rewrite Hr.
  unfold match_base. rewrite Hb. clear Hr Hbase Hb Hlatin. apply list_elem_of_In in Hin.
  repeat (destruct Hin as [[= <- <-]|Hin]; [vm_compute; reflexivity|]). done.
Qed.

Lemma chinese_resolves lang :
  starts_with (js "zh") (to_lower (trim lang)) || starts_with (js "yue") (to_lower (trim lang)) = true ->
  exists l, resolveLanguage (Some lang) = Some l /\ l ∈ chinese.
Proof.
  intros Hz. unfold resolveLanguage, matchLocaleKey. cbn [default from_option id]. destruct (trim lang) as [|c clean']; [done|].
  set (clean := c :: clean') in *. clearbody clean. destruct (List.find _ _) as [k|] eqn:E.
  - apply exact_alias in E as (v & Hv & Hk). exists v. cbn [mbind option_bind]. split; [done|].
    pose proof (table_forallb alias_chinese languageAliases k v ltac:(by vm_compute) Hv) as Hf.
    unfold alias_chinese in Hf. cbn [fst snd] in Hf. rewrite Hk, Hz in Hf. by apply bool_decide_eq_true in Hf.
  - rewrite Hz. clear E. assert (Hm : forall s, bool_decide (js s ∈ chinese) = true -> js s ∈ chinese)
      by (intros s; apply bool_decide_eq_true).
    assert (Hzh : List.find (fun k => starts_with (js "zh") (to_lower k)) (map fst languageAliases) = Some (js "zh-CN"))
      by (vm_compute; reflexivity).
    unfold match_chinese. rewrite Hzh.
    repeat match goal with |- context [if ?b then _ else _] => destruct b end;
      (eexists; split; [vm_compute; reflexivity|]); by vm_compute; repeat constructor.
Qed.

Lemma aliases_resolve k v : (k, v) ∈ languageAliases -> resolveLanguage (Some k) = Some v.
Proof.
  intros Hin%list_elem_of_In.
  assert (Hall : forallb (fun p => bool_decide (resolveLanguage (Some p.1) = Some p.2)) languageAliases = true)
    by (vm_compute; reflexivity).
  rewrite forallb_forall in Hall. exact (proj1 (bool_decide_eq_true _) (Hall _ Hin)).
Qed.

Lemma first_resolved_in resolve ls l : first_resolved resolve ls = Some l -> exists raw, resolve raw = Some l.
Proof. induction ls as [|[[|c w]|] ls IH]; simpl; [done|done| |done]. destruct (resolve (c :: w)) eqn:E; [intros [= <-]; eauto|done]. Qed.

(** Language resolution, on any input.  What either site resolves a tag to is one of its languages, and every
    alias of the management site's table - every language code among them - resolves to its entry.  A tag whose
    primary subtag, up to case, is that of a known family resolves to the family's language whatever region or
    script follows, and any tag starting with [zh] or [yue] to one of the Chinese languages.  So detection always
    ends with a language of the site: the stored choice if it resolves, else the first browser language that does,
    else the default. *)
Theorem locale_resolution :
  (forall lang l, resolveLanguage lang = Some l -> l ∈ getAvailableLanguages) /\
  (forall lang l, web_resolveLanguage lang = Some l -> l ∈ web_available) /\
  (forall k v, (k, v) ∈ languageAliases -> resolveLanguage (Some k) = Some v) /\
  (forall l, l ∈ getAvailableLanguages -> (l, l) ∈ languageAliases) /\
  (forall lang b v, (b, v) ∈ families -> is_latin1 (trim lang) = true -> base_language (trim lang) = b ->
     resolveLanguage (Some lang) = Some v) /\
  (forall lang, starts_with (js "zh") (to_lower (trim lang)) || starts_with (js "yue") (to_lower (trim lang)) = true ->
     exists l, resolveLanguage (Some lang) = Some l /\ l ∈ chinese) /\
  (forall saved languages language,
     let '(l, source) := detectLanguage saved languages language (fun raw => resolveLanguage (Some raw)) DEFAULT_LANG in
     l ∈ getAvailableLanguages /\
     (forall raw s, saved = Some raw -> raw <> [] -> resolveLanguage (Some raw) = Some s ->
        l = s /\ source = js "localStorage")).
Proof.
  split_and!; [apply resolveLanguage_available|apply web_resolveLanguage_available|apply aliases_resolve| | | |].
  - intros l Hl%list_elem_of_In.
    assert (Hall : forallb (fun l => bool_decide ((l, l) ∈ languageAliases)) getAvailableLanguages = true)
      by (vm_compute; reflexivity).
    rewrite forallb_forall in Hall. exact (proj1 (bool_decide_eq_true _) (Hall _ Hl)).
  - intros lang b v Hf Hlatin Hb. by eapply family_resolves.
  - apply chinese_resolves.
  - intros saved languages language. unfold detectLanguage.
    destruct (first_resolved _ [saved]) as [l|] eqn:Es.
    + split; [apply first_resolved_in in Es as [raw Hr]; by eapply resolveLanguage_available|].
      intros raw s -> Hne Hs. destruct raw as [|c raw]; [done|]. cbn [first_resolved] in Es. rewrite Hs in Es.
      by simplify_eq.
    + assert (Hno : forall raw s, saved = Some raw -> raw <> [] -> resolveLanguage (Some raw) <> Some s).
      { intros raw s -> Hne Hs. destruct raw as [|c raw]; [done|]. cbn [first_resolved] in Es. by rewrite Hs in Es. }
      destruct (first_resolved _ (browser_languages _ _)) as [l|] eqn:Eb.
      * split; [apply first_resolved_in in Eb as [raw Hr]; by eapply resolveLanguage_available|].
        intros raw s Hs Hne Hr. by destruct (Hno raw s).
      * split; [apply (proj1 (bool_decide_eq_true _)); vm_compute; reflexivity|].
        intros raw s Hs Hne Hr. by destruct (Hno raw s).
Qed.
End resolution.
