(* ===== verification/LanguageSwitch.v ===== *)
(** * Switching the language

    [setLanguage] of the management site ([internal/service/frontend/renop-html/js/i18n.js]) and of the public site
    ([web/js/i18n.js]) as one state machine with two failure policies, started by [initI18n] on the dictionaries of
    [packages/renop-ui/js/i18n-startup.js].  A dictionary arrives, or fails to, as an event; requests overlap freely. *)
From Stdlib Require Import Sorted.
From S2P Require Export I18n.

(** ** Start-up *)

(** [loadInitialLocales]: every attempt fetches the fallback and the preferred dictionary; without the fallback the
    page waits for the next attempt, so [None] means every attempt given failed. *)
Fixpoint loadInitialLocales (preferred fallback : jstr) (attempts : list (option dictionary * option dictionary))
    : option (jstr * gmap jstr dictionary) :=
  match attempts with
  | [] => None
  | (Some english, Some selected) :: _ => Some (preferred, <[preferred := selected]> {[fallback := english]})
  | (Some english, None) :: _ => Some (fallback, {[fallback := english]})
  | (None, _) :: attempts => loadInitialLocales preferred fallback attempts
  end.

(** ** The machine *)
Inductive site := Management | Public.

(** A call of [setLanguage] that awaits a dictionary; [rq_loaded]: it was loaded already. *)
Record request := {
  rq_lang : jstr; rq_source : jstr; rq_signal : option nat; rq_loaded : bool; rq_retried : bool
}.

Record i18n := {
  languages : gmap jstr dictionary;
  currentLang : jstr;
  currentSource : jstr;
  languageRequestID : nat;
  stored : option jstr;               (* localStorage *)
  loading : bool;                     (* the picker's busy state *)
  page_lang : jstr;                   (* the language of the page's texts *)
  load_status : bool;                 (* the public picker's failure notice *)
  requests : gmap nat request;
  aborted : list nat;                 (* signals *)
  changes : list (nat * jstr * jstr)  (* [languageChanged] events, newest first, with the request *)
}.

Section switching.
Context `{UnicodeCase} (st : site).

Definition resolve_for (lang : option jstr) : option jstr :=
  match st with Management => resolveLanguage lang | Public => web_resolveLanguage lang end.

(** [setLanguage] up to its first [await]. *)
Definition setLanguage (lang : option jstr) (source : jstr) (signal : option nat) (s : i18n) : i18n :=
  let id := S (languageRequestID s) in
  let '(resolved, source) :=
    match resolve_for lang with Some l => (l, source) | None => (DEFAULT_LANG, js "fallback") end in
  let rq := {| rq_lang := resolved; rq_source := source; rq_signal := signal;
               rq_loaded := bool_decide (is_Some (languages s !! resolved)); rq_retried := false |} in
  {| languages := languages s; currentLang := currentLang s; currentSource := currentSource s;
     languageRequestID := id; stored := stored s; loading := true; page_lang := page_lang s;
     load_status := load_status s; requests := <[id := rq]> (requests s); aborted := aborted s;
     changes := changes s |}.

(** The [finally] block, which also forgets the request. *)
Definition finish_request (id : nat) (s : i18n) : i18n :=
  {| languages := languages s; currentLang := currentLang s; currentSource := currentSource s;
     languageRequestID := languageRequestID s; stored := stored s;
     loading := if bool_decide (id = languageRequestID s) then false else loading s; page_lang := page_lang s;
     load_status := load_status s; requests := delete id (requests s); aborted := aborted s; changes := changes s |}.

(** The new language: module state, storage, texts and the event. *)
Definition apply_language (id : nat) (rq : request) (s : i18n) : i18n :=
  {| languages := languages s; currentLang := rq_lang rq; currentSource := rq_source rq;
     languageRequestID := languageRequestID s; stored := Some (rq_lang rq); loading := loading s;
     page_lang := rq_lang rq; load_status := load_status s; requests := requests s; aborted := aborted s;
     changes := (id, rq_lang rq, rq_source rq) :: changes s |}.

(** [languages[lang] = await loadLocale(lang)] *)
Definition keep_dictionary (rq : request) (d : option dictionary) (s : i18n) : i18n :=
  match rq_loaded rq, d with
  | false, Some d =>
    {| languages := <[rq_lang rq := d]> (languages s); currentLang := currentLang s;
       currentSource := currentSource s; languageRequestID := languageRequestID s; stored := stored s;
       loading := loading s; page_lang := page_lang s; load_status := load_status s; requests := requests s;
       aborted := aborted s; changes := changes s |}
  | _, _ => s
  end.

Definition is_aborted (rq : request) (s : i18n) : bool :=
  match rq_signal rq with Some c => bool_decide (c ∈ aborted s) | None => false end.

(** The management site retries a failed language with the default one; the public site says so and stays. *)
Definition retry_default (id : nat) (rq : request) (s : i18n) : i18n :=
  {| languages := languages s; currentLang := currentLang s; currentSource := currentSource s;
     languageRequestID := languageRequestID s; stored := stored s; loading := loading s; page_lang := page_lang s;
     load_status := load_status s;
     requests := <[id := {| rq_lang := DEFAULT_LANG; rq_source := js "fallback"; rq_signal := rq_signal rq;
                            rq_loaded := bool_decide (is_Some (languages s !! DEFAULT_LANG)); rq_retried := true |}]>
                   (requests s);
     aborted := aborted s; changes := changes s |}.

Definition report_failure (id : nat) (s : i18n) : i18n :=
  {| languages := languages s; currentLang := currentLang s; currentSource := currentSource s;
     languageRequestID := languageRequestID s; stored := stored s; loading := loading s; page_lang := page_lang s;
     load_status := bool_decide (id = languageRequestID s) || load_status s; requests := requests s;
     aborted := aborted s; changes := changes s |}.

Definition dictionary_arrived (id : nat) (rq : request) (s : i18n) : i18n :=
  if bool_decide (id <> languageRequestID s) || is_aborted rq s then finish_request id s
  else finish_request id (apply_language id rq s).

Definition dictionary_failed (id : nat) (rq : request) (s : i18n) : i18n :=
  match st with
  | Management => if rq_retried rq then finish_request id s else retry_default id rq s
  | Public => finish_request id (report_failure id s)
  end.

(** The promise of [ensureLanguage] settles; [d] is what [loadLocale] gave if it was asked. *)
Definition settle_request (id : nat) (d : option dictionary) (s : i18n) : i18n :=
  match requests s !! id with
  | None => s
  | Some rq =>
    if rq_loaded rq || bool_decide (is_Some d) then dictionary_arrived id rq (keep_dictionary rq d s)
    else dictionary_failed id rq s
  end.

Definition abort_signal (c : nat) (s : i18n) : i18n :=
  {| languages := languages s; currentLang := currentLang s; currentSource := currentSource s;
     languageRequestID := languageRequestID s; stored := stored s; loading := loading s; page_lang := page_lang s;
     load_status := load_status s; requests := requests s; aborted := c :: aborted s; changes := changes s |}.

Inductive language_event :=
| Choose (lang : option jstr) (source : jstr) (signal : option nat)
| Settle (id : nat) (d : option dictionary)
| AbortSignal (c : nat).

Definition language_step (ev : language_event) (s : i18n) : i18n :=
  match ev with
  | Choose lang source signal => setLanguage lang source signal s
  | Settle id d => settle_request id d s
  | AbortSignal c => abort_signal c s
  end.

Definition language_run (evs : list language_event) (s : i18n) : i18n := fold_left (fun s ev => language_step ev s) evs s.

(** [initI18n] after its first [await]. *)
Definition initI18n (detected : jstr * jstr) (saved : option jstr) (initial : jstr * gmap jstr dictionary) : i18n :=
  {| languages := initial.2; currentLang := initial.1;
     currentSource := if bool_decide (initial.1 = detected.1) then detected.2 else js "fallback";
     languageRequestID := 0; stored := saved; loading := false; page_lang := initial.1; load_status := false;
     requests := ∅; aborted := []; changes := [] |}.

(** [t(key, params)] *)
Definition t (s : i18n) (key : jstr) (params : list (jstr * jstr)) : jstr :=
  translateKey key params (default ∅ (languages s !! currentLang s)) (default ∅ (languages s !! DEFAULT_LANG)).
End switching.

(** ** Invariant *)
Section invariant.
Context `{UnicodeCase} (st : site).

Definition available_for : list jstr := match st with Management => getAvailableLanguages | Public => web_available end.

Definition change_ids (s : i18n) : list nat := map (fun c => c.1.1) (changes s).

Record request_ok (s : i18n) (id : nat) (rq : request) : Prop := {
  rq_id_ok : 1 <= id <= languageRequestID s;
  rq_available : rq_lang rq ∈ available_for;
  rq_loaded_ok : rq_loaded rq = true -> is_Some (languages s !! rq_lang rq);
  rq_retried_ok : rq_retried rq = true -> rq_loaded rq = true
}.

Record lang_ok (s : i18n) : Prop := {
  ok_current : is_Some (languages s !! currentLang s);
  ok_default : is_Some (languages s !! DEFAULT_LANG);
  ok_available : currentLang s ∈ available_for;
  ok_page : page_lang s = currentLang s;
  ok_requests : forall id rq, requests s !! id = Some rq -> request_ok s id rq;
  ok_loading : loading s = true <-> is_Some (requests s !! languageRequestID s);
  ok_last : match changes s with
            | (_, l, src) :: _ => l = currentLang s /\ src = currentSource s /\ stored s = Some l
            | [] => True
            end;
  ok_change_ids : forall id, id ∈ change_ids s -> id <= languageRequestID s /\ requests s !! id = None;
  ok_sorted : StronglySorted gt (change_ids s)
}.

Lemma default_available : DEFAULT_LANG ∈ available_for.
Proof. unfold available_for. destruct st; apply (proj1 (bool_decide_eq_true _)); vm_compute; reflexivity. Qed.

Lemma resolve_for_available lang l : resolve_for st lang = Some l -> l ∈ available_for.
Proof. unfold resolve_for, available_for. destruct st; [apply resolveLanguage_available|apply web_resolveLanguage_available]. Qed.

Definition chosen (lang : option jstr) : jstr := default DEFAULT_LANG (resolve_for st lang).

Lemma setLanguage_ok lang source signal s : lang_ok s -> lang_ok (setLanguage st lang source signal s).
Proof.
  intros [Hc Hd Ha Hp Hr Hl Hlast Hids Hs]. unfold setLanguage.
  destruct (resolve_for st lang) as [l|] eqn:E; constructor; cbn; try done.
  all: try (intros id rq Hrq; apply lookup_insert_Some in Hrq as [[<- <-]|[Hne Hrq]];
    [constructor; cbn; [lia| |by intros Hb%bool_decide_eq_true|done]
    |destruct (Hr id rq Hrq) as [? ? ? ?]; constructor; cbn; [lia|done..]]).
  all: try (rewrite lookup_insert_eq; split; [eauto|done]).
  all: try (intros id Hid; destruct (Hids id Hid) as [Hle Hno]; split; [lia|]; by rewrite lookup_insert_ne by lia).
  - by eapply resolve_for_available.
  - apply default_available.
Qed.

Lemma finish_ok id s : lang_ok s -> lang_ok (finish_request id s).
Proof.
  intros [Hc Hd Ha Hp Hr Hl Hlast Hids Hs]. unfold finish_request. constructor; cbn; try done.
  - intros id' rq [_ Hrq]%lookup_delete_Some. destruct (Hr id' rq Hrq). by constructor.
  - case_bool_decide as Hid; [subst; rewrite lookup_delete_eq; split; [done|by intros []]|].
    by rewrite lookup_delete_ne.
  - intros id' Hid'. destruct (Hids id' Hid') as [Hle Hno]. split; [done|]. apply lookup_delete_None. by right.
Qed.

(** Applying the latest request's language and forgetting the request. *)
Lemma apply_ok rq s :
  lang_ok s -> requests s !! languageRequestID s = Some rq -> is_Some (languages s !! rq_lang rq) ->
  lang_ok (finish_request (languageRequestID s) (apply_language (languageRequestID s) rq s)).
Proof.
  intros [Hc Hd Ha Hp Hr Hl Hlast Hids Hs] Hrq Hload. destruct (Hr _ _ Hrq) as [Hid Hav _ _].
  unfold finish_request, apply_language. constructor; cbn; try done.
  - intros id' rq' [_ Hrq']%lookup_delete_Some. destruct (Hr id' rq' Hrq'). by constructor.
  - rewrite bool_decide_eq_true_2, lookup_delete_eq by done. split; [done|by intros []].
  - intros id' [->|Hid']%elem_of_cons; [split; [done|apply lookup_delete_eq]|].
    destruct (Hids id' Hid') as [Hle Hno]. split; [done|]. apply lookup_delete_None. by right.
  - constructor; [done|]. apply Forall_forall. intros id' Hid'. destruct (Hids id' Hid') as [Hle Hno].
    assert (id' <> languageRequestID s) by congruence. lia.
Qed.

Lemma keep_ok id rq d s :
  lang_ok s -> requests s !! id = Some rq -> rq_loaded rq || bool_decide (is_Some d) = true ->
  lang_ok (keep_dictionary rq d s) /\ is_Some (languages (keep_dictionary rq d s) !! rq_lang rq).
Proof.
  intros Hok Hrq Hd. pose proof Hok as [Hc Hde Ha Hp Hr Hl Hlast Hids Hs]. unfold keep_dictionary.
  destruct (rq_loaded rq) eqn:Hload; [split; [done|by eapply rq_loaded_ok; [eapply Hr|]]|].
  destruct d as [d|]; [|done]. cbn [languages].
  assert (Hmono : forall l, is_Some (languages s !! l) -> is_Some (<[rq_lang rq := d]> (languages s) !! l)).
  { intros l Hl'. destruct (decide (rq_lang rq = l)) as [->|?]; [rewrite lookup_insert_eq; eauto|by rewrite lookup_insert_ne]. }
  split; [|rewrite lookup_insert_eq; eauto]. constructor; cbn; try done; try (by apply Hmono).
  intros id' rq' Hrq'. destruct (Hr id' rq' Hrq') as [? ? Hrl ?]. constructor; cbn; try done. intros Hb. by apply Hmono, Hrl.
Qed.

Lemma settle_request_ok id d s : lang_ok s -> lang_ok (settle_request st id d s).
Proof.
  intros Hok. unfold settle_request. destruct (requests s !! id) as [rq|] eqn:Hrq; [|done].
  destruct (rq_loaded rq || bool_decide (is_Some d)) eqn:Hd.
  - destruct (keep_ok id rq d s Hok Hrq Hd) as [Hk Hload]. unfold dictionary_arrived.
    assert (Hsame : requests (keep_dictionary rq d s) !! id = Some rq)
      by (unfold keep_dictionary; by repeat case_match).
    set (s1 := keep_dictionary rq d s) in *. clearbody s1.
    destruct (bool_decide (id <> languageRequestID s1)) eqn:Hid; cbn [orb]; [by apply finish_ok|].
    destruct (is_aborted rq s1); [by apply finish_ok|].
    apply bool_decide_eq_false in Hid. assert (id = languageRequestID s1) as -> by (destruct (decide (id = languageRequestID s1)); done).
    by apply apply_ok.
  - unfold dictionary_failed. destruct st.
    + destruct (rq_retried rq); [by apply finish_ok|]. pose proof Hok as [Hc Hde Ha Hp Hr Hl Hlast Hids Hs].
      destruct (Hr id rq Hrq) as [Hid _ _ _]. unfold retry_default. constructor; cbn; try done.
      * intros id' rq' [[<- <-]|[Hne Hrq']]%lookup_insert_Some.
        -- constructor; cbn; [done|apply default_available|done|]. intros _. by apply bool_decide_eq_true.
        -- destruct (Hr id' rq' Hrq'). by constructor.
      * rewrite Hl. destruct (decide (id = languageRequestID s)) as [->|Hne];
          [rewrite lookup_insert_eq, Hrq; split; eauto|by rewrite lookup_insert_ne].
      * intros id' Hid'. destruct (Hids id' Hid') as [Hle Hno]. split; [done|].
        rewrite lookup_insert_ne; [done|]. intros ->. congruence.
    + apply finish_ok. destruct Hok as [Hc Hde Ha Hp Hr Hl Hlast Hids Hs]. unfold report_failure.
      constructor; cbn; try done. intros id' rq' Hrq'. destruct (Hr id' rq' Hrq'). by constructor.
Qed.

Lemma abort_ok c s : lang_ok s -> lang_ok (abort_signal c s).
Proof.
  intros [Hc Hd Ha Hp Hr Hl Hlast Hids Hs]. unfold abort_signal. constructor; cbn; try done.
  intros id rq Hrq. destruct (Hr id rq Hrq). by constructor.
Qed.

Lemma language_step_ok ev s : lang_ok s -> lang_ok (language_step st ev s).
Proof. destruct ev; intros; [by apply setLanguage_ok|by apply settle_request_ok|by apply abort_ok]. Qed.

Lemma language_run_ok evs s : lang_ok s -> lang_ok (language_run st evs s).
Proof. apply (run_invariant (language_step st) lang_ok). intros. by apply language_step_ok. Qed.

(** What [loadInitialLocales] hands over starts the machine. *)
Lemma initial_locales preferred attempts initial :
  loadInitialLocales preferred DEFAULT_LANG attempts = Some initial ->
  (initial.1 = preferred \/ initial.1 = DEFAULT_LANG) /\
  is_Some (initial.2 !! initial.1) /\ is_Some (initial.2 !! DEFAULT_LANG).
Proof.
  induction attempts as [|[[english|] [selected|]] attempts IH]; cbn [loadInitialLocales]; [done|..]; try done;
    intros [= <-]; cbn [fst snd].
  - split; [auto|]. split; [rewrite lookup_insert_eq; eauto|].
    destruct (decide (preferred = DEFAULT_LANG)) as [->|?]; [rewrite lookup_insert_eq; eauto|].
    rewrite lookup_insert_ne, lookup_singleton_eq by done. eauto.
  - rewrite lookup_singleton_eq. eauto.
Qed.

Lemma init_ok detected saved attempts initial :
  detected.1 ∈ available_for -> loadInitialLocales detected.1 DEFAULT_LANG attempts = Some initial ->
  lang_ok (initI18n detected saved initial).
Proof.
  intros Hav Hinit. destruct (initial_locales _ _ _ Hinit) as (Hl & Hc & Hd). constructor; cbn; try done.
  - destruct Hl as [->| ->]; [done|apply default_available].
  - rewrite lookup_empty. split; [done|by intros []].
  - intros id Hid. by apply elem_of_nil in Hid.
  - constructor.
Qed.
End invariant.

(** ** The latest choice *)
Section latest.
Context `{UnicodeCase} (st : site).

Lemma settle_other id d s :
  id <> languageRequestID s -> let s' := settle_request st id d s in
  currentLang s' = currentLang s /\ languageRequestID s' = languageRequestID s /\
  requests s' !! languageRequestID s = requests s !! languageRequestID s.
Proof.
  intros Hid. cbn zeta. unfold settle_request. destruct (requests s !! id) as [rq|] eqn:E; [|done].
  assert (Hk : forall s', s' = keep_dictionary rq d s -> currentLang s' = currentLang s /\
    languageRequestID s' = languageRequestID s /\ requests s' = requests s).
  { intros s' ->. unfold keep_dictionary. by repeat case_match. }
  destruct (rq_loaded rq || bool_decide (is_Some d)).
  - destruct (Hk _ eq_refl) as (H1 & H2 & H3). set (s1 := keep_dictionary rq d s) in *. clearbody s1.
    unfold dictionary_arrived. rewrite H2. rewrite (bool_decide_eq_true_2 (id <> _)) by done.
    unfold finish_request. cbn. rewrite H1, H2, H3, lookup_delete_ne by done. done.
  - unfold dictionary_failed. destruct st; [|unfold finish_request, report_failure; cbn; by rewrite lookup_delete_ne].
    destruct (rq_retried rq); unfold finish_request, retry_default; cbn;
      [by rewrite lookup_delete_ne|by rewrite lookup_insert_ne].
Qed.

(** One settlement of the latest, unsignalled request. *)
Lemma settle_latest d s rq :
  lang_ok st s -> requests s !! languageRequestID s = Some rq -> rq_signal rq = None ->
  let s' := settle_request st (languageRequestID s) d s in
  languageRequestID s' = languageRequestID s /\
  (requests s' !! languageRequestID s = None /\ currentLang s' = rq_lang rq \/
   d = None /\ rq_retried rq = false /\
   match st with
   | Management => currentLang s' = currentLang s /\ requests s' !! languageRequestID s =
       Some {| rq_lang := DEFAULT_LANG; rq_source := js "fallback"; rq_signal := None; rq_loaded := true; rq_retried := true |}
   | Public => currentLang s' = currentLang s /\ requests s' !! languageRequestID s = None
   end).
Proof.
  intros Hok Hrq Hsig. cbn zeta. unfold settle_request. rewrite Hrq.
  destruct (rq_loaded rq || bool_decide (is_Some d)) eqn:Hd.
  - assert (Hid : languageRequestID (keep_dictionary rq d s) = languageRequestID s)
      by (unfold keep_dictionary; by repeat case_match).
    unfold dictionary_arrived, is_aborted. rewrite Hid, Hsig. rewrite (bool_decide_eq_false_2 (_ <> _)) by auto.
    cbn [orb]. unfold finish_request, apply_language. cbn. rewrite lookup_delete_eq, Hid. auto.
  - apply orb_false_iff in Hd as [Hl Hd]. apply bool_decide_eq_false in Hd.
    assert (d = None) as -> by (destruct d; [exfalso; eauto|done]).
    destruct (rq_retried rq) eqn:Hr; [by rewrite (rq_retried_ok _ _ _ _ (ok_requests _ _ Hok _ _ Hrq) Hr) in Hl|].
    unfold dictionary_failed. rewrite Hr. destruct st; unfold retry_default, finish_request, report_failure; cbn.
    + split; [done|]. right. rewrite lookup_insert_eq, Hsig. split_and!; try done.
      rewrite bool_decide_eq_true_2 by apply (ok_default _ _ Hok). done.
    + split; [done|]. right. by rewrite lookup_delete_eq.
Qed.

Definition no_choice (ev : language_event) : Prop := match ev with Choose _ _ _ => False | _ => True end.

(** Where the latest request stands after the events [e] that followed it. *)
Definition latest_state (target before : jstr) (id : nat) (e : list language_event) (s : i18n) : Prop :=
  languageRequestID s = id /\
  match requests s !! id with
  | Some rq => rq_signal rq = None /\ currentLang s = before /\
      if rq_retried rq then Settle id None ∈ e /\ st = Management /\ rq_lang rq = DEFAULT_LANG
      else rq_lang rq = target
  | None => currentLang s = target \/
      Settle id None ∈ e /\ currentLang s = match st with Management => DEFAULT_LANG | Public => before end
  end.

Lemma latest_step target before id e ev s :
  no_choice ev -> lang_ok st s -> latest_state target before id e s ->
  latest_state target before id (e ++ [ev]) (language_step st ev s).
Proof.
  intros Hno Hok [Hid HJ]. assert (Hmono : forall x, x ∈ e -> x ∈ e ++ [ev]) by (intros x Hx; apply elem_of_app; by left).
  destruct ev as [lang src sig|id' d|c]; [done| |].
  2: { cbn [language_step]. unfold latest_state, abort_signal. cbn. split; [done|].
       destruct (requests s !! id) as [rq|]; [destruct (rq_retried rq)|]; naive_solver. }
  cbn [language_step]. destruct (decide (id' = id)) as [->|Hne].
  - destruct (requests s !! id) as [rq|] eqn:Hrq.
    + destruct HJ as (Hsig & Hcur & HJ). subst id.
      destruct (settle_latest d s rq Hok Hrq Hsig) as [Hid [[Hgone Hc]|(-> & Hr & Hst)]]; unfold latest_state;
        (split; [done|]).
      * rewrite Hgone, Hc. destruct (rq_retried rq); [|by left].
        destruct HJ as (Hf & HM & ->). right. split; [by apply Hmono|]. by rewrite HM.
      * rewrite Hr in HJ. assert (Hin : Settle (languageRequestID s) None ∈ e ++ [Settle (languageRequestID s) None])
          by (apply elem_of_app; right; apply list_elem_of_here).
        destruct st eqn:Est; destruct Hst as [Hc ->]; cbn [rq_signal rq_retried rq_lang].
        -- split_and!; congruence || done.
        -- right. split; [done|congruence].
    + unfold settle_request. rewrite Hrq. unfold latest_state. split; [done|]. rewrite Hrq. naive_solver.
  - destruct (settle_other id' d s) as (Hc & Hr & Hrq); [congruence|]. unfold latest_state. rewrite Hr, <- Hid, Hrq, Hc.
    split; [done|]. rewrite Hid. destruct (requests s !! id) as [rq|]; [destruct (rq_retried rq)|]; naive_solver.
Qed.

Lemma latest_run target before id e s0 :
  Forall no_choice e -> lang_ok st s0 -> latest_state target before id [] s0 ->
  latest_state target before id e (language_run st e s0).
Proof.
  intros He Hok Hl. induction e as [|ev e IH] using rev_ind; [done|]. apply Forall_app in He as [He Hev].
  rewrite Forall_singleton in Hev. unfold language_run. rewrite (run_app (language_step st)). cbn [fold_left].
  apply latest_step; [done|by apply language_run_ok|by apply IH].
Qed.

Lemma settled_twice id d1 d2 s :
  lang_ok st s -> requests (language_run st [Settle id d1; Settle id d2] s) !! id = None.
Proof.
  intros Hok. cbn [language_run fold_left language_step].
  assert (Hgone : forall d s, requests s !! id = None -> requests (settle_request st id d s) !! id = None)
    by (intros d s' Hn; unfold settle_request; by rewrite Hn).
  assert (Hone : forall d s, lang_ok st s -> forall rq, requests s !! id = Some rq ->
    requests (settle_request st id d s) !! id = None \/
    exists rq', requests (settle_request st id d s) !! id = Some rq' /\ rq_retried rq' = true /\ rq_retried rq = false).
  { intros d s' Hok' rq Hrq. unfold settle_request. rewrite Hrq. case_match.
    - left. unfold dictionary_arrived. case_match; unfold finish_request; cbn; apply lookup_delete_eq.
    - unfold dictionary_failed. destruct st; [|left; unfold finish_request; cbn; apply lookup_delete_eq].
      destruct (rq_retried rq) eqn:Hr; [left; unfold finish_request; cbn; apply lookup_delete_eq|].
      right. unfold retry_default. cbn. rewrite lookup_insert_eq. eauto. }
  pose proof (settle_request_ok st id d1 s Hok) as Hok1.
  destruct (requests s !! id) as [rq|] eqn:E; [|by do 2 apply Hgone].
  destruct (Hone d1 s Hok rq E) as [Hn|(rq' & Hrq' & Hr & _)]; [by apply Hgone|].
  destruct (Hone d2 _ Hok1 rq' Hrq') as [Hn|(? & _ & _ & Hr')]; [done|congruence].
Qed.
End latest.

(** C30: Switching languages, at either site, from start-up on and however dictionaries arrive, fail or overlap.
    The language shown is always one of the site's with its dictionary loaded, it is the one the page's texts are
    in and, once changed, the one stored; the picker is busy exactly while the latest request is pending; changes
    happen in the order of the requests, so an overtaken request never changes anything after a later one.  Every
    request is done after at most two settlements.  Once the latest request is done, the language is the one it
    asked for - or, if that dictionary failed to load, the default on the management site and the one before on
    the public site. *)
Theorem latest_choice_wins `{UnicodeCase} (st : site) detected saved attempts initial evs lang source e2 :
  detected.1 ∈ available_for st -> loadInitialLocales detected.1 DEFAULT_LANG attempts = Some initial ->
  Forall no_choice e2 ->
  let s0 := initI18n detected saved initial in
  let s1 := language_run st (evs ++ [Choose lang source None]) s0 in
  let s := language_run st e2 s1 in
  (is_Some (languages s !! currentLang s) /\ currentLang s ∈ available_for st /\ page_lang s = currentLang s /\
   (loading s = true <-> is_Some (requests s !! languageRequestID s)) /\
   StronglySorted gt (change_ids s) /\
   (changes s <> [] -> stored s = Some (currentLang s))) /\
  (forall id d1 d2, requests (language_run st [Settle id d1; Settle id d2] s) !! id = None) /\
  (requests s !! languageRequestID s1 = None ->
   currentLang s = chosen st lang \/
   Settle (languageRequestID s1) None ∈ e2 /\
   currentLang s = match st with Management => DEFAULT_LANG | Public => currentLang s1 end).
Proof.
  intros Hav Hinit He2. cbn zeta. set (s0 := initI18n detected saved initial).
  assert (H0 : lang_ok st s0) by by eapply init_ok.
  assert (H1 : forall e, lang_ok st (language_run st e s0)) by (intros e; by apply language_run_ok).
  set (s1 := language_run st (evs ++ [Choose lang source None]) s0). specialize (H1 (evs ++ [Choose lang source None])).
  pose proof (language_run_ok st e2 s1 H1) as Hok. split_and!; try apply Hok.
  - intros Hne. pose proof (ok_last _ _ Hok) as Hlast.
    destruct (changes (language_run st e2 s1)) as [|[[i l] src] cs]; [done|]. by destruct Hlast as (<- & _ & ?).
  - intros id d1 d2. by apply settled_twice.
  - intros Hdone.
    assert (Hl : latest_state st (chosen st lang) (currentLang s1) (languageRequestID s1) [] s1).
    { unfold s1, language_run. rewrite (run_app (language_step st)). cbn [fold_left language_step].
      unfold latest_state, setLanguage, chosen. destruct (resolve_for st lang); cbn; by rewrite lookup_insert_eq. }
    destruct (latest_run st _ _ _ e2 s1 He2 H1 Hl) as [_ Hl2]. by rewrite Hdone in Hl2.
Qed.

(** ** A concrete run
    French is chosen, overtaken by German whose dictionary cannot be had; French arrives too late. *)
Section example.
Local Existing Instance latin_case.

Definition detected_japanese : jstr * jstr := (js "ja-JP", js "browser").

Definition sample_attempts : list (option dictionary * option dictionary) := [(None, Some ∅); (Some ∅, Some ∅)].

Definition sample_initial : jstr * gmap jstr dictionary :=
  (js "ja-JP", <[js "ja-JP" := ∅]> {[DEFAULT_LANG := ∅]}).

Lemma latest_choice_wins_witness :
  let s1 := language_run Management ([Choose (Some (js "fr")) (js "user-set") None] ++ [Choose (Some (js "de-AT")) (js "user-set") None])
              (initI18n detected_japanese None sample_initial) in
  let s := language_run Management [Settle 2 None; Settle 1 (Some ∅); Settle 2 None] s1 in
  chosen Management (Some (js "de-AT")) = js "de-DE" /\ currentLang s = DEFAULT_LANG /\
  (currentLang s = chosen Management (Some (js "de-AT")) \/
   Settle (languageRequestID s1) None ∈ [Settle 2 None; Settle 1 (Some ∅); Settle 2 None] /\ currentLang s = DEFAULT_LANG).
Proof.
  split; [vm_compute; reflexivity|]. split; [vm_compute; reflexivity|].
  refine (proj2 (proj2 (latest_choice_wins Management detected_japanese None sample_attempts sample_initial
    [Choose (Some (js "fr")) (js "user-set") None] (Some (js "de-AT")) (js "user-set")
    [Settle 2 None; Settle 1 (Some ∅); Settle 2 None] _ eq_refl _)) _).
  - refine (proj1 (bool_decide_eq_true _) _). vm_compute. reflexivity.
  - repeat constructor.
  - vm_compute. reflexivity.
Defined.
End example.
