(* ===== verification/AccountLanguage.v ===== *)
(** * The account's language

    [internal/service/frontend/renop-html/js/account-language.js] on top of the language switch: a signed-in
    account's language is fetched and applied ([hydrate]), the user's choices are remembered for the account and
    written back one at a time ([save]), and an unfinished choice survives reloads in local storage without reaching
    another account.  Every [await] is a point where other events come in.

    The account states the listeners close over live in a store by number; [active] is the one the module points
    at.  [log] records what happened, for the theorems; the code does not read it. *)
From S2P Require Export LanguageSwitch.

(** ** State *)

(** [state] of one sign-in; its number is also that of its [AbortController]'s signal.  [pending] is empty when
    nothing is to be written, [saved] missing before the account was read. *)
Record account := {
  username : jstr; userID : jstr; pending : jstr; saved : option jstr;
  ready : bool; acc_loading : bool; saving : bool; saveFailed : bool; loadFailed : bool
}.

(** The entry under [pendingKey]: what [remember] wrote, or something else. *)
Inductive stored_entry := Entry (user_id locale : jstr) | OtherJson | NotJson.

#[export] Instance stored_entry_eq_dec : EqDecision stored_entry.
Proof. solve_decision. Defined.

(** Where a [hydrate] is suspended: at the response, with the revision noted before it, or at [setLanguage], to save
    afterwards or not. *)
Inductive hydration := AwaitResponse (revision : nat) | AwaitLanguage (request : nat) (then_save : bool).

Inductive log_entry :=
| Identified (a : nat) (name user_id : jstr)      (* an answer naming the account was accepted *)
| Remembered (a : nat) (locale : jstr)            (* [remember]ed for the account *)
| Chosen (a : nat) (locale : jstr)                (* the user's choice, which took effect while the account was active *)
| Adopted (a : nat) (locale : jstr)               (* the page's language, taken as the server has none for the account *)
| FoundStored (user_id locale : jstr)             (* another tab or an earlier visit left it in storage *)
| Put (a : nat) (user_id locale : jstr)           (* the request that writes the preference *)
| Alert (key : jstr).

Record sync := {
  i18n_state : i18n;
  accounts : gmap nat account;
  active : option nat;
  storage : option stored_entry;
  hydrations : gmap nat hydration;
  saves : gmap nat jstr;              (* PUTs in flight, with their language *)
  next_account : nat;
  log : list log_entry                (* newest first *)
}.

Definition set_i18n (i : i18n) (s : sync) : sync :=
  {| i18n_state := i; accounts := accounts s; active := active s; storage := storage s; hydrations := hydrations s;
     saves := saves s; next_account := next_account s; log := log s |}.
Definition set_account (a : nat) (st : account) (s : sync) : sync :=
  {| i18n_state := i18n_state s; accounts := <[a := st]> (accounts s); active := active s; storage := storage s;
     hydrations := hydrations s; saves := saves s; next_account := next_account s; log := log s |}.
Definition set_active (a : option nat) (s : sync) : sync :=
  {| i18n_state := i18n_state s; accounts := accounts s; active := a; storage := storage s;
     hydrations := hydrations s; saves := saves s; next_account := next_account s; log := log s |}.
Definition set_storage (e : option stored_entry) (s : sync) : sync :=
  {| i18n_state := i18n_state s; accounts := accounts s; active := active s; storage := e;
     hydrations := hydrations s; saves := saves s; next_account := next_account s; log := log s |}.
Definition set_hydrations (h : gmap nat hydration) (s : sync) : sync :=
  {| i18n_state := i18n_state s; accounts := accounts s; active := active s; storage := storage s;
     hydrations := h; saves := saves s; next_account := next_account s; log := log s |}.
Definition set_saves (v : gmap nat jstr) (s : sync) : sync :=
  {| i18n_state := i18n_state s; accounts := accounts s; active := active s; storage := storage s;
     hydrations := hydrations s; saves := v; next_account := next_account s; log := log s |}.
Definition add_log (e : log_entry) (s : sync) : sync :=
  {| i18n_state := i18n_state s; accounts := accounts s; active := active s; storage := storage s;
     hydrations := hydrations s; saves := saves s; next_account := next_account s; log := e :: log s |}.

(** Field updates of an account. *)
Definition with_pending (v : jstr) (st : account) : account :=
  {| username := username st; userID := userID st; pending := v; saved := saved st; ready := ready st;
     acc_loading := acc_loading st; saving := saving st; saveFailed := saveFailed st; loadFailed := loadFailed st |}.
Definition with_loading (b : bool) (st : account) : account :=
  {| username := username st; userID := userID st; pending := pending st; saved := saved st; ready := ready st;
     acc_loading := b; saving := saving st; saveFailed := saveFailed st; loadFailed := loadFailed st |}.
Definition with_saving (b : bool) (st : account) : account :=
  {| username := username st; userID := userID st; pending := pending st; saved := saved st; ready := ready st;
     acc_loading := acc_loading st; saving := b; saveFailed := saveFailed st; loadFailed := loadFailed st |}.
Definition with_saved (v : jstr) (st : account) : account :=
  {| username := username st; userID := userID st; pending := pending st; saved := Some v; ready := ready st;
     acc_loading := acc_loading st; saving := saving st; saveFailed := false; loadFailed := loadFailed st |}.
Definition with_saveFailed (st : account) : account :=
  {| username := username st; userID := userID st; pending := pending st; saved := saved st; ready := ready st;
     acc_loading := acc_loading st; saving := saving st; saveFailed := true; loadFailed := loadFailed st |}.
Definition with_loadFailed (st : account) : account :=
  {| username := username st; userID := userID st; pending := pending st; saved := saved st; ready := ready st;
     acc_loading := acc_loading st; saving := saving st; saveFailed := saveFailed st; loadFailed := true |}.
Definition with_identity (user_id v : jstr) (p : jstr) (st : account) : account :=
  {| username := username st; userID := user_id; pending := p; saved := Some v; ready := true;
     acc_loading := acc_loading st; saving := saving st; saveFailed := saveFailed st; loadFailed := false |}.

Definition new_account (name : jstr) : account :=
  {| username := name; userID := []; pending := []; saved := None; ready := false; acc_loading := false;
     saving := false; saveFailed := false; loadFailed := false |}.

(** ** Operations *)
Section operations.
Context `{UnicodeCase}.

(** [remember(state, language)]: the state, and storage once the account is known. *)
Definition remember (a : nat) (language : jstr) (s : sync) : sync :=
  match accounts s !! a with
  | None => s
  | Some st =>
    let s := add_log (Remembered a language) (set_account a (with_pending language st) s) in
    match userID st with [] => s | uid => set_storage (Some (Entry uid language)) s end
  end.

(** [forget(state, language)]: the entry goes only if it is still this one. *)
Definition forget (st : account) (language : jstr) (s : sync) : sync :=
  if bool_decide (storage s = Some (Entry (userID st) language)) then set_storage None s else s.

(** [save(state)] up to its [await]. *)
Definition save (a : nat) (s : sync) : sync :=
  match accounts s !! a with
  | None => s
  | Some st =>
    if bool_decide (active s <> Some a) || negb (ready st) || saving st || bool_decide (pending st = []) then s
    else if bool_decide (saved st = Some (pending st)) then
      set_account a (with_pending [] st) (forget st (pending st) s)
    else
      add_log (Put a (userID st) (pending st))
        (set_saves (<[a := pending st]> (saves s)) (set_account a (with_saving true st) s))
  end.

(** The rest of [save]: [ok] tells a successful response from any failure or abort. *)
Definition save_answered (a : nat) (ok : bool) (s : sync) : sync :=
  match saves s !! a, accounts s !! a with
  | Some language, Some st =>
    let s := set_saves (delete a (saves s)) s in
    let is_active := bool_decide (active s = Some a) in
    let '(st, s) :=
      if ok && is_active then
        let st := with_saved language st in
        if bool_decide (pending st = language) then (with_pending [] st, forget st language s) else (st, s)
      else if negb ok && is_active && negb (saveFailed st) then
        (with_saveFailed st, add_log (Alert (js "profile.languageSaveFailed")) s)
      else (st, s) in
    let s := set_account a (with_saving false st) s in
    if is_active && negb (bool_decide (pending st = [])) && negb (bool_decide (pending st = language))
    then save a s else s
  | _, _ => s
  end.

(** [hydrate(state)] up to its first [await]. *)
Definition hydrate (a : nat) (s : sync) : sync :=
  match accounts s !! a with
  | None => s
  | Some st =>
    if bool_decide (active s <> Some a) || acc_loading st then s
    else set_hydrations (<[a := AwaitResponse (languageRequestID (i18n_state s))]> (hydrations s))
           (set_account a (with_loading true st) s)
  end.

(** The [finally] of [hydrate]. *)
Definition hydrated (a : nat) (s : sync) : sync :=
  let s := set_hydrations (delete a (hydrations s)) s in
  match accounts s !! a with Some st => set_account a (with_loading false st) s | None => s end.

Definition hydrate_failed (a : nat) (st : account) (s : sync) : sync :=
  hydrated a
    (if bool_decide (active s = Some a) && negb (loadFailed st)
     then add_log (Alert (js "profile.languageLoadFailed")) (set_account a (with_loadFailed st) s) else s).

(** The server's answer; [d_user_id] empty when it is not a string. *)
Record preference := { d_username : jstr; d_user_id : jstr; d_locale : jstr }.

Definition preference_ok (st : account) (d : preference) : bool :=
  bool_decide (d_username d = username st) && negb (bool_decide (d_user_id d = []))
  && (length (d_user_id d) <=? 64)
  && (bool_decide (d_locale d = []) || bool_decide (d_locale d ∈ getAvailableLanguages)).

(** The stored choice to go on with, and the storage after an unreadable entry was dropped. *)
Definition stored_choice (user_id : jstr) (e : option stored_entry) : jstr * option stored_entry :=
  match e with
  | Some (Entry uid locale) =>
    (if bool_decide (uid = user_id) && bool_decide (locale ∈ getAvailableLanguages) then locale else [], e)
  | Some NotJson => ([], None)
  | _ => ([], e)
  end.

(** [setLanguage(language, 'account', signal)] from [hydrate], which waits for it. *)
Definition apply_account_language (a : nat) (language : jstr) (then_save : bool) (s : sync) : sync :=
  let i := setLanguage Management (Some language) (js "account") (Some a) (i18n_state s) in
  set_hydrations (<[a := AwaitLanguage (languageRequestID i) then_save]> (hydrations s)) (set_i18n i s).

(** [hydrate] between its two [await]s. *)
Definition preference_arrived (a : nat) (revision : nat) (st : account) (d : preference) (s : sync) : sync :=
  let uid := d_user_id d in
  let '(p, e) := match pending st with [] => stored_choice uid (storage s) | p => (p, Some (Entry uid p)) end in
  let s := add_log (Identified a (d_username d) uid) (set_storage e (set_account a (with_identity uid (d_locale d) p st) s)) in
  let unchanged := bool_decide (languageRequestID (i18n_state s) = revision) in
  let current := currentLang (i18n_state s) in
  match p with
  | _ :: _ =>
    if unchanged && negb (bool_decide (current = p)) then apply_account_language a p true s
    else hydrated a (save a s)
  | [] =>
    if unchanged then
      match d_locale d with
      | [] => hydrated a (save a (remember a current (add_log (Adopted a current) s)))
      | l => if bool_decide (current = l) then hydrated a s else apply_account_language a l false s
      end
    else hydrated a s
  end.

Definition hydrate_answered (a : nat) (answer : option preference) (s : sync) : sync :=
  match hydrations s !! a, accounts s !! a with
  | Some (AwaitResponse revision), Some st =>
    match answer with
    | None => hydrate_failed a st s
    | Some d =>
      if bool_decide (active s <> Some a) then hydrated a s
      else if preference_ok st d then preference_arrived a revision st d s else hydrate_failed a st s
    end
  | _, _ => s
  end.

(** [setLanguage] of a hydration has resolved. *)
Definition language_applied (a : nat) (then_save : bool) (s : sync) : sync :=
  hydrated a (if then_save then save a s else s).

(** The hydrations that waited for a request which is now done. *)
Definition resume_hydration (a : nat) (s : sync) : sync :=
  match hydrations s !! a with
  | Some (AwaitLanguage request then_save) =>
    if bool_decide (requests (i18n_state s) !! request = None) then language_applied a then_save s else s
  | _ => s
  end.

Definition resume_hydrations (s : sync) : sync := foldr resume_hydration s (map fst (map_to_list (hydrations s))).

(** The [languageChanged] listener. *)
Definition on_language_changed (language source : jstr) (s : sync) : sync :=
  match active s with
  | Some a => if bool_decide (source = js "user-set") then save a (remember a language (add_log (Chosen a language) s)) else s
  | None => s
  end.

(** A dictionary settles: the switch may change the language and dispatch its event, then its promise resolves. *)
Definition language_settled (id : nat) (d : option dictionary) (s : sync) : sync :=
  let i := settle_request Management id d (i18n_state s) in
  let changed := bool_decide (length (changes (i18n_state s)) < length (changes i)) in
  let s := set_i18n i s in
  let s := match changes i with
           | (_, l, src) :: _ => if changed then on_language_changed l src s else s
           | [] => s
           end in
  resume_hydrations s.

(** [authChanged]; [name] empty when nobody is signed in.  Leaving an account aborts its controller. *)
Definition leave_account (s : sync) : sync :=
  match active s with
  | Some a => set_active None (set_i18n (abort_signal a (i18n_state s)) s)
  | None => s
  end.

Definition enter_account (name : jstr) (s : sync) : sync :=
  let a := next_account s in
  hydrate a
    {| i18n_state := i18n_state s; accounts := <[a := new_account name]> (accounts s); active := Some a;
       storage := storage s; hydrations := hydrations s; saves := saves s; next_account := S a; log := log s |}.

Definition auth_changed (demo : bool) (name : jstr) (s : sync) : sync :=
  if demo then leave_account s
  else
    match active s ≫= fun a => username <$> accounts s !! a with
    | Some current => if bool_decide (current = name) then s
                      else let s := leave_account s in match name with [] => s | _ => enter_account name s end
    | None => let s := leave_account s in match name with [] => s | _ => enter_account name s end
    end.

Definition retry (s : sync) : sync :=
  match active s with
  | Some a =>
    match accounts s !! a with Some st => if ready st then save a s else hydrate a s | None => s end
  | None => s
  end.

Inductive sync_event :=
| AuthChanged (demo : bool) (name : jstr)
| UserChooses (lang : jstr)
| DictionarySettled (id : nat) (d : option dictionary)
| HydrateAnswered (a : nat) (answer : option preference)
| SaveAnswered (a : nat) (ok : bool)
| Retry                                   (* online, pageshow, the page becoming visible *)
| OtherTab (e : option stored_entry).     (* storage written outside this page *)

Definition note_stored (e : option stored_entry) (s : sync) : sync :=
  match e with Some (Entry uid locale) => add_log (FoundStored uid locale) s | _ => s end.

Definition sync_step (ev : sync_event) (s : sync) : sync :=
  match ev with
  | AuthChanged demo name => auth_changed demo name s
  | UserChooses lang => set_i18n (setLanguage Management (Some lang) (js "user-set") None (i18n_state s)) s
  | DictionarySettled id d => language_settled id d s
  | HydrateAnswered a answer => hydrate_answered a answer s
  | SaveAnswered a ok => save_answered a ok s
  | Retry => retry s
  | OtherTab e => note_stored e (set_storage e s)
  end.

Definition sync_run (evs : list sync_event) (s : sync) : sync := fold_left (fun s ev => sync_step ev s) evs s.

(** [installAccountLanguageSync()] after [initI18n]. *)
Definition installAccountLanguageSync (i : i18n) (e : option stored_entry) : sync :=
  note_stored e {| i18n_state := i; accounts := ∅; active := None; storage := e; hydrations := ∅; saves := ∅;
                   next_account := 0; log := [] |}.
End operations.

(** ** Invariant *)
(** The newest language remembered for an account. *)
Fixpoint newest_choice (a : nat) (lg : list log_entry) : option jstr :=
  match lg with
  | [] => None
  | Remembered b l :: lg => if bool_decide (b = a) then Some l else newest_choice a lg
  | _ :: lg => newest_choice a lg
  end.

Ltac sync_simpl := cbn [set_i18n set_account set_active set_storage set_hydrations set_saves add_log
  i18n_state accounts active storage hydrations saves next_account log
  with_pending with_loading with_saving with_saved with_saveFailed with_loadFailed with_identity new_account
  username userID pending saved ready acc_loading saving saveFailed loadFailed newest_choice app] in *.

Section invariant.
Context `{UnicodeCase}.

(** A language came to be an account's: it was remembered under a sign-in the server identified as that account, or
    storage held it for the account. *)
Definition origin (accs : gmap nat account) (lg : list log_entry) (uid loc : jstr) : Prop :=
  FoundStored uid loc ∈ lg \/
  exists b st, accs !! b = Some st /\ Identified b (username st) uid ∈ lg /\ Remembered b loc ∈ lg.

Definition put_ok (accs : gmap nat account) (lg : list log_entry) (a : nat) (uid loc : jstr) : Prop :=
  (exists st, accs !! a = Some st /\ Identified a (username st) uid ∈ lg) /\ uid <> [] /\
  loc ∈ getAvailableLanguages /\ origin accs lg uid loc.

Record acc_ok (accs : gmap nat account) (lg : list log_entry) (h : option hydration) (v : option jstr) (a : nat)
    (st : account) : Prop := {
  acc_identified : ready st = true -> userID st <> [] /\ Identified a (username st) (userID st) ∈ lg;
  acc_unidentified : ready st = false -> userID st = [];
  acc_pending : pending st <> [] -> pending st ∈ getAvailableLanguages /\
    (Remembered a (pending st) ∈ lg \/ ready st = true /\ origin accs lg (userID st) (pending st));
  acc_saving : saving st = bool_decide (is_Some v);
  acc_put : forall l, v = Some l -> ready st = true /\ pending st <> [] /\ saved st <> Some l;
  acc_hydrating : acc_loading st = bool_decide (is_Some h);
  acc_newest : forall l, newest_choice a lg = Some l ->
    pending st = l \/ pending st = [] /\ saved st = Some l /\ ready st = true
}.

Record sync_ok (s : sync) : Prop := {
  ok_i18n : lang_ok Management (i18n_state s);
  ok_storage : forall uid loc, storage s = Some (Entry uid loc) -> origin (accounts s) (log s) uid loc;
  ok_active : forall a, active s = Some a -> is_Some (accounts s !! a);
  ok_numbers : forall a, is_Some (accounts s !! a) -> a < next_account s;
  ok_flights : forall a, is_Some (hydrations s !! a) \/ is_Some (saves s !! a) -> is_Some (accounts s !! a);
  ok_chosen : forall a l, Remembered a l ∈ log s -> is_Some (accounts s !! a) /\ l ∈ getAvailableLanguages;
  ok_puts : forall a uid loc, Put a uid loc ∈ log s -> put_ok (accounts s) (log s) a uid loc;
  ok_accounts : forall a st, accounts s !! a = Some st ->
    acc_ok (accounts s) (log s) (hydrations s !! a) (saves s !! a) a st
}.

(** What waits for what: only an unidentified account waits for a response. *)
Definition waiting_ok (s : sync) : Prop := forall a h st,
  hydrations s !! a = Some h -> accounts s !! a = Some st ->
  ready st = match h with AwaitResponse _ => false | AwaitLanguage _ _ => true end.

(** Nothing of the active account is left undone unless a failure was shown. *)
Definition rest_ok (h : option hydration) (st : account) : Prop :=
  (acc_loading st = false -> ready st = false -> loadFailed st = true) /\
  (ready st = true -> saving st = false -> pending st <> [] ->
    (exists request, h = Some (AwaitLanguage request true)) \/ saveFailed st = true /\ saved st <> Some (pending st)).

Definition rested (s : sync) : Prop := forall a st,
  active s = Some a -> accounts s !! a = Some st -> rest_ok (hydrations s !! a) st.

(** *** Growing the log and updating one account *)
Lemma origin_mono accs lg es uid loc : origin accs lg uid loc -> origin accs (es ++ lg) uid loc.
Proof.
  intros [?|(b & st & ? & ? & ?)]; [left; apply elem_of_app; by right|].
  right. exists b, st. split_and!; [done|apply elem_of_app; by right..].
Qed.

Lemma origin_accounts accs a st st' lg uid loc :
  accs !! a = Some st -> username st' = username st -> origin accs lg uid loc -> origin (<[a := st']> accs) lg uid loc.
Proof.
  intros Ha Hu [?|(b & stb & Hb & ? & ?)]; [by left|]. right. destruct (decide (b = a)) as [->|Hne].
  - exists a, st'. rewrite lookup_insert_eq, Hu. naive_solver.
  - exists b, stb. by rewrite lookup_insert_ne.
Qed.

Definition only_chooses (a : nat) (es : list log_entry) : Prop :=
  forall b l, Remembered b l ∈ es -> b = a /\ l ∈ getAvailableLanguages.

Lemma newest_choice_app a b es lg : only_chooses a es -> b <> a -> newest_choice b (es ++ lg) = newest_choice b lg.
Proof.
  intros Hes Hb. induction es as [|e es IH]; [done|]. cbn [app].
  assert (IH' := IH (fun b' l Hl => Hes b' l (list_elem_of_further _ _ _ Hl))).
  destruct e; cbn [newest_choice]; try done. rewrite bool_decide_eq_false_2; [done|].
  intros ->. apply Hb. by destruct (Hes b locale (list_elem_of_here _ _)).
Qed.

Lemma acc_ok_other accs a st0 st' lg es h v b st :
  accs !! a = Some st0 -> username st' = username st0 -> only_chooses a es -> b <> a ->
  acc_ok accs lg h v b st -> acc_ok (<[a := st']> accs) (es ++ lg) h v b st.
Proof.
  intros Ha Hu Hes Hb [H1 H2 H3 H4 H5 H6 H7]. constructor; try done.
  - intros Hr. destruct (H1 Hr). split; [done|]. apply elem_of_app; by right.
  - intros Hp. destruct (H3 Hp) as [? [Hc|[? Ho]]]; (split; [done|]); [left; apply elem_of_app; by right|].
    right. split; [done|]. by eapply origin_accounts; [..|by apply origin_mono].
  - intros l. rewrite (newest_choice_app a) by done. apply H7.
Qed.

(** One account, its flights, the log and storage change together. *)
Lemma sync_update s s' a st st' es :
  sync_ok s -> accounts s !! a = Some st -> username st' = username st -> accounts s' = <[a := st']> (accounts s) ->
  (forall b, b <> a -> hydrations s' !! b = hydrations s !! b) -> (forall b, b <> a -> saves s' !! b = saves s !! b) ->
  active s' = active s -> next_account s' = next_account s -> lang_ok Management (i18n_state s') ->
  log s' = es ++ log s -> only_chooses a es ->
  (forall uid loc, storage s' = Some (Entry uid loc) -> storage s = Some (Entry uid loc) \/ origin (accounts s') (log s') uid loc) ->
  (forall b uid loc, Put b uid loc ∈ es -> put_ok (accounts s') (log s') b uid loc) ->
  acc_ok (accounts s') (log s') (hydrations s' !! a) (saves s' !! a) a st' ->
  sync_ok s'.
Proof.
  intros [Hi Hst Hac Hnum Hfl Hch Hpu Hacc] Ha Hu Haccs Hhyd Hsav Hact Hnext Hi' Hlog Hes Hstorage Hputs Hself.
  assert (Hdom : forall b, is_Some (accounts s' !! b) <-> is_Some (accounts s !! b)).
  { intros b. rewrite Haccs. destruct (decide (b = a)) as [->|?]; [rewrite lookup_insert_eq, Ha; split; eauto|by rewrite lookup_insert_ne]. }
  assert (Horigin : forall uid loc, origin (accounts s) (log s) uid loc -> origin (accounts s') (log s') uid loc).
  { intros uid loc Ho. rewrite Haccs, Hlog. eapply origin_accounts; [done..|]. by apply origin_mono. }
  constructor; try done.
  - intros uid loc [?|?]%Hstorage; eauto.
  - intros b. rewrite Hact, Hdom. apply Hac.
  - intros b. rewrite Hnext, Hdom. apply Hnum.
  - intros b Hb. rewrite Hdom. destruct (decide (b = a)) as [->|Hne]; [eauto|]. apply Hfl. by rewrite <- Hhyd, <- Hsav.
  - intros b l. rewrite Hlog, Hdom. intros [Hin|Hin]%elem_of_app; [apply Hes in Hin as [-> ?]; eauto|by eapply Hch].
  - intros b uid loc. rewrite Hlog. intros [Hin|Hin]%elem_of_app; [rewrite <- Hlog; by apply Hputs|].
    destruct (Hpu _ _ _ Hin) as ((stb & Hb & Hid) & Hne & Hav & Ho). rewrite <- Hlog. split_and!; [|done..|by apply Horigin].
    rewrite Haccs, Hlog. destruct (decide (b = a)) as [->|?].
    + exists st'. rewrite lookup_insert_eq. split; [done|]. apply elem_of_app; right. congruence.
    + exists stb. rewrite lookup_insert_ne by done. split; [done|]. apply elem_of_app; by right.
  - intros b stb. destruct (decide (b = a)) as [->|Hne].
    + rewrite Haccs, lookup_insert_eq. intros [= <-]. rewrite <- Haccs. done.
    + rewrite Haccs, lookup_insert_ne by done. intros Hb. rewrite Hhyd, Hsav, Hlog by done. by eapply acc_ok_other; [..|apply Hacc].
Qed.

(** *** Each operation *)
Lemma available_nonempty l : l ∈ getAvailableLanguages -> l <> [].
Proof. intros Hl ->. revert Hl. apply (proj1 (bool_decide_eq_false _)). vm_compute. reflexivity. Qed.

Lemma no_chosen es a :
  Forall (fun e => match e with Remembered b l => b = a /\ l ∈ getAvailableLanguages | _ => True end) es -> only_chooses a es.
Proof. intros Hes b l Hin. rewrite Forall_forall in Hes. exact (Hes _ Hin). Qed.

(** What [acc_ok] keeps of the log when the account's own choices stay. *)
Lemma acc_origin_self accs lg es a st st' uid loc :
  accs !! a = Some st -> username st' = username st -> origin accs lg uid loc -> origin (<[a := st']> accs) (es ++ lg) uid loc.
Proof. intros Ha Hu Ho. eapply origin_accounts; [done..|]. by apply origin_mono. Qed.

Lemma elem_of_log (e : log_entry) es lg : e ∈ lg -> e ∈ es ++ lg.
Proof. intros. apply elem_of_app. by right. Qed.

Lemma forget_storage st l s e : storage (forget st l s) = Some e -> storage s = Some e.
Proof. unfold forget. destruct (bool_decide _); cbn; congruence. Qed.

Lemma forget_frame st l s : let s' := forget st l s in
  i18n_state s' = i18n_state s /\ accounts s' = accounts s /\ hydrations s' = hydrations s /\ saves s' = saves s /\
  active s' = active s /\ next_account s' = next_account s /\ log s' = log s.
Proof. unfold forget. by destruct (bool_decide _). Qed.

Lemma remember_ok a l s : sync_ok s -> l ∈ getAvailableLanguages -> sync_ok (remember a l s).
Proof.
  intros Hok Hl. unfold remember. destruct (accounts s !! a) as [st|] eqn:Ha; [|done].
  pose proof (ok_accounts s Hok a st Ha) as [H1 H2 H3 H4 H5 H6 H7]. pose proof (available_nonempty l Hl) as Hne.
  assert (Hchosen : Remembered a l ∈ Remembered a l :: log s) by apply list_elem_of_here.
  eapply (sync_update s _ a st (with_pending l st) [Remembered a l]); try done; destruct (userID st) as [|c u] eqn:Hu; try done.
  all: try apply (ok_i18n s Hok).
  all: try by (apply no_chosen; rewrite Forall_singleton).
  all: try by (intros b uid loc Hin; rewrite list_elem_of_singleton in Hin).
  - by left.
  - sync_simpl. intros uid loc [= <- <-]. right. right. exists a, (with_pending l st). rewrite lookup_insert_eq.
    split_and!; [done| |done]. sync_simpl. apply list_elem_of_further. destruct (ready st); [by apply H1|discriminate (H2 eq_refl)].
  - constructor; sync_simpl; try done; rewrite ?Hu.
    + intros Hr. by destruct (H1 Hr).
    + intros _. split; [done|by left].
    + intros l0 Hv. by destruct (H5 l0 Hv) as (? & ? & ?).
    + rewrite bool_decide_eq_true_2 by done. intros l0 [= ->]. by left.
  - constructor; sync_simpl; try done; rewrite ?Hu.
    + intros Hr. destruct (H1 Hr) as [? Hin]. split; [done|]. by apply list_elem_of_further.
    + exact H2.
    + intros _. split; [done|by left].
    + intros l0 Hv. by destruct (H5 l0 Hv) as (? & ? & ?).
    + rewrite bool_decide_eq_true_2 by done. intros l0 [= ->]. by left.
Qed.

Lemma save_ok a s : sync_ok s -> sync_ok (save a s).
Proof.
  intros Hok. unfold save. destruct (accounts s !! a) as [st|] eqn:Ha; [|done].
  destruct (_ || _ || _ || bool_decide (pending st = [])) eqn:Hg; [done|].
  apply orb_false_iff in Hg as [[[Hact Hr%negb_false_iff]%orb_false_iff Hs]%orb_false_iff Hp%bool_decide_eq_false].
  pose proof (ok_accounts s Hok a st Ha) as [H1 H2 H3 H4 H5 H6 H7]. destruct (H1 Hr) as [Huid Hid].
  assert (Hv : saves s !! a = None).
  { rewrite H4 in Hs. apply bool_decide_eq_false in Hs. by apply eq_None_not_Some. }
  destruct (decide (saved st = Some (pending st))) as [Hsaved|Hsaved];
    [rewrite bool_decide_eq_true_2 by done|rewrite bool_decide_eq_false_2 by done].
  - destruct (forget_frame st (pending st) s) as (E1 & E2 & E3 & E4 & E5 & E6 & E7).
    eapply (sync_update s _ a st (with_pending [] st) []); sync_simpl; try done; rewrite ?E1, ?E2, ?E3, ?E4, ?E7; try done.
    + apply (ok_i18n s Hok).
    + by apply no_chosen.
    + intros uid loc Hst%forget_storage. by left.
    + intros b uid loc Hin. by apply elem_of_nil in Hin.
    + constructor; sync_simpl; try done; [intros l; by rewrite Hv|]. intros l Hl. right. by destruct (H7 l Hl) as [<-|(? & _)].
  - eapply (sync_update s _ a st (with_saving true st) [Put a (userID st) (pending st)]); sync_simpl; try done.
    + intros b Hb. by rewrite lookup_insert_ne.
    + apply (ok_i18n s Hok).
    + apply no_chosen. by repeat constructor.
    + by left.
    + intros b uid loc Hin%list_elem_of_singleton. injection Hin as -> -> ->. destruct (H3 Hp) as [Hav Hor].
      split_and!; [|done..|].
      * exists (with_saving true st). rewrite lookup_insert_eq. split; [done|]. by apply list_elem_of_further.
      * destruct Hor as [Hc|[_ Ho]]; [|by apply (acc_origin_self _ _ [_] a st)].
        right. exists a, (with_saving true st). rewrite lookup_insert_eq. split_and!; [done|by apply list_elem_of_further..].
    + rewrite lookup_insert_eq. constructor; sync_simpl; try done.
      * intros _. split; [done|]. by apply list_elem_of_further.
      * intros _. destruct (H3 Hp) as [Hav [Hc|[_ Ho]]]; (split; [done|]); [left; by apply list_elem_of_further|].
        right. split; [done|]. by apply (acc_origin_self _ _ [_] a st).
      * intros l [= <-]. done.
Qed.

Lemma save_frame a s :
  i18n_state (save a s) = i18n_state s /\ hydrations (save a s) = hydrations s /\ active (save a s) = active s /\
  forall b st', accounts (save a s) !! b = Some st' -> exists st, accounts s !! b = Some st /\
    ready st' = ready st /\ acc_loading st' = acc_loading st /\ loadFailed st' = loadFailed st.
Proof.
  unfold save. destruct (accounts s !! a) as [st|] eqn:Ha; [|naive_solver].
  destruct (_ || _ || _ || _); [naive_solver|]. destruct (forget_frame st (pending st) s) as (E1 & E2 & E3 & _ & E4 & _).
  destruct (bool_decide (saved st = _)); sync_simpl; rewrite ?E1, ?E2, ?E3, ?E4; split_and!; try done;
    intros b st' [[<- <-]|[_ Hb]]%lookup_insert_Some; eauto.
Qed.

(** After [save], nothing of the active account waits for it. *)
Lemma save_done a s st :
  active s = Some a -> accounts (save a s) !! a = Some st -> ready st = true -> saving st = false -> pending st = [].
Proof.
  intros Hact. unfold save. destruct (accounts s !! a) as [st0|] eqn:Ha; [|congruence].
  rewrite (bool_decide_eq_false_2 (active s <> Some a)) by auto. cbn [orb].
  destruct (negb (ready st0) || saving st0 || bool_decide (pending st0 = [])) eqn:Hg.
  - rewrite Ha. intros [= <-] Hr Hs. rewrite Hr, Hs in Hg. by apply bool_decide_eq_true in Hg.
  - destruct (bool_decide (saved st0 = _)); sync_simpl; rewrite ?(proj1 (proj2 (forget_frame st0 _ s))), lookup_insert_eq;
      by intros [= <-].
Qed.

Lemma newest_in a lg l : newest_choice a lg = Some l -> Remembered a l ∈ lg.
Proof.
  induction lg as [|e lg IH]; [done|]. cbn [newest_choice]. destruct e; try (intros; by apply list_elem_of_further, IH).
  case_bool_decide as Hb; [intros [= ->]; subst; apply list_elem_of_here|intros; by apply list_elem_of_further, IH].
Qed.

Lemma set_i18n_ok i s : sync_ok s -> lang_ok Management i -> sync_ok (set_i18n i s).
Proof. intros [] Hi. by constructor. Qed.

Lemma hydrated_ok a s : sync_ok s -> sync_ok (hydrated a s).
Proof.
  intros Hok. unfold hydrated. sync_simpl. destruct (accounts s !! a) as [st|] eqn:Ha.
  - pose proof (ok_accounts s Hok a st Ha) as [H1 H2 H3 H4 H5 H6 H7].
    eapply (sync_update s _ a st (with_loading false st) []); sync_simpl; try done.
    + intros b Hb. by rewrite lookup_delete_ne.
    + apply (ok_i18n s Hok).
    + by apply no_chosen.
    + by left.
    + intros b uid loc Hin. by apply elem_of_nil in Hin.
    + rewrite lookup_delete_eq. constructor; sync_simpl; try done. intros Hp.
      destruct (H3 Hp) as [? [?|[? ?]]]; (split; [done|]); [by left|right; split; [done|]].
      by apply (acc_origin_self _ _ [] a st).
  - rewrite delete_id; [by destruct s|]. apply eq_None_not_Some. intros Hh.
    destruct (ok_flights s Hok a (or_introl Hh)). congruence.
Qed.

(** An update of one account that leaves its flights, its identity and its languages alone. *)
Lemma account_ok a st st' s :
  sync_ok s -> accounts s !! a = Some st -> username st' = username st -> userID st' = userID st ->
  pending st' = pending st -> saved st' = saved st -> ready st' = ready st -> acc_loading st' = acc_loading st ->
  saving st' = saving st -> sync_ok (set_account a st' s).
Proof.
  intros Hok Ha E1 E2 E3 E4 E5 E6 E7. pose proof (ok_accounts s Hok a st Ha) as [H1 H2 H3 H4 H5 H6 H7].
  eapply (sync_update s _ a st st' []); sync_simpl; try done.
  - apply (ok_i18n s Hok).
  - by apply no_chosen.
  - by left.
  - intros b uid loc Hin. by apply elem_of_nil in Hin.
  - constructor; rewrite ?E1, ?E2, ?E3, ?E4, ?E5, ?E6, ?E7; try done. intros Hp.
    destruct (H3 Hp) as [? [?|[? ?]]]; (split; [done|]); [by left|right; split; [done|]].
    by apply (acc_origin_self _ _ [] a st).
Qed.

Lemma add_log_ok e s :
  match e with Put _ _ _ | Remembered _ _ => False | _ => True end -> sync_ok s -> sync_ok (add_log e s).
Proof.
  intros He [Hi Hst Hac Hnum Hfl Hch Hpu Hacc].
  assert (Ho : forall uid loc, origin (accounts s) (log s) uid loc -> origin (accounts s) (e :: log s) uid loc)
    by (intros; by apply (origin_mono _ _ [_])).
  constructor; sync_simpl; try done.
  - intros uid loc ?. by apply Ho, Hst.
  - intros a l [<-|Hin]%elem_of_cons; [done|by eapply Hch].
  - intros a uid loc [<-|Hin]%elem_of_cons; [done|]. destruct (Hpu a uid loc Hin) as ((st & Ha & Hid) & ? & ? & ?).
    split_and!; [|done..|by apply Ho]. exists st. split; [done|]. by apply list_elem_of_further.
  - intros a st Ha. destruct (Hacc a st Ha) as [H1 H2 H3 H4 H5 H6 H7]. constructor; try done.
    + intros Hr. destruct (H1 Hr). split; [done|]. by apply list_elem_of_further.
    + intros Hp. destruct (H3 Hp) as [? [?|[? ?]]]; (split; [done|]); [left; by apply list_elem_of_further|right].
      split; [done|]. by apply Ho.
    + destruct e; done.
Qed.

Lemma hydrate_failed_ok a st s : sync_ok s -> accounts s !! a = Some st -> sync_ok (hydrate_failed a st s).
Proof.
  intros Hok Ha. unfold hydrate_failed. apply hydrated_ok. destruct (_ && _); [|done]. apply add_log_ok; [done|]. by eapply account_ok.
Qed.

Lemma hydrate_ok a s : sync_ok s -> sync_ok (hydrate a s).
Proof.
  intros Hok. unfold hydrate. destruct (accounts s !! a) as [st|] eqn:Ha; [|done]. destruct (_ || _); [done|].
  pose proof (ok_accounts s Hok a st Ha) as [H1 H2 H3 H4 H5 H6 H7].
  eapply (sync_update s _ a st (with_loading true st) []); sync_simpl; try done.
  - intros b Hb. by rewrite lookup_insert_ne.
  - apply (ok_i18n s Hok).
  - by apply no_chosen.
  - by left.
  - intros b uid loc Hin. by apply elem_of_nil in Hin.
  - rewrite lookup_insert_eq. constructor; sync_simpl; try done. intros Hp.
    destruct (H3 Hp) as [? [?|[? ?]]]; (split; [done|]); [by left|right; split; [done|]].
    by apply (acc_origin_self _ _ [] a st).
Qed.

(** The state of [save_answered] before the last [save]. *)
Definition answered (a : nat) (ok : bool) (language : jstr) (st : account) (s : sync) : account * sync :=
  let s := set_saves (delete a (saves s)) s in
  if ok && bool_decide (active s = Some a) then
    let st := with_saved language st in
    if bool_decide (pending st = language) then (with_pending [] st, forget st language s) else (st, s)
  else if negb ok && bool_decide (active s = Some a) && negb (saveFailed st) then
    (with_saveFailed st, add_log (Alert (js "profile.languageSaveFailed")) s)
  else (st, s).

Lemma answered_frame a ok language st s : let '(st', s') := answered a ok language st s in
  username st' = username st /\ userID st' = userID st /\ ready st' = ready st /\ acc_loading st' = acc_loading st /\
  loadFailed st' = loadFailed st /\
  i18n_state s' = i18n_state s /\ accounts s' = accounts s /\ hydrations s' = hydrations s /\
  saves s' = delete a (saves s) /\ active s' = active s /\ next_account s' = next_account s /\
  exists es, log s' = es ++ log s /\ Forall (fun e => match e with Alert _ => True | _ => False end) es.
Proof.
  unfold answered. set (s1 := set_saves (delete a (saves s)) s).
  destruct (forget_frame (with_saved language st) language s1) as (F1 & F2 & F3 & F4 & F5 & F6 & F7). cbv zeta.
  destruct ok, (bool_decide (active s1 = Some a)), (bool_decide (pending (with_saved language st) = language)), (saveFailed st);
    cbn [andb negb]; rewrite ?F1, ?F2, ?F3, ?F4, ?F5, ?F6, ?F7; split_and!; try done;
    first [by exists []|exists [Alert (js "profile.languageSaveFailed")]; split; [done|by rewrite Forall_singleton]].
Qed.

Lemma answered_languages a ok language st s : pending st <> [] ->
  let '(st', s') := answered a ok language st s in
  (pending st' = [] /\ pending st = language /\ saved st' = Some language) \/ pending st' = pending st.
Proof.
  intros Hp. unfold answered. set (s1 := set_saves (delete a (saves s)) s). cbv zeta.
  destruct (bool_decide (pending (with_saved language st) = language)) eqn:E;
    destruct ok, (bool_decide (active s1 = Some a)), (saveFailed st); cbn [andb negb]; try (by right).
  all: apply bool_decide_eq_true in E; by left.
Qed.

Lemma answered_storage a ok language st s e :
  storage (answered a ok language st s).2 = Some e -> storage s = Some e.
Proof.
  unfold answered. set (s1 := set_saves (delete a (saves s)) s). cbv zeta.
  destruct ok, (bool_decide (active s1 = Some a)), (saveFailed st), (bool_decide (pending (with_saved language st) = language));
    cbn [andb negb snd]; try done; by intros Hs%forget_storage.
Qed.

Lemma save_answered_unfold a ok language st s :
  saves s !! a = Some language -> accounts s !! a = Some st ->
  save_answered a ok s =
    let '(st', s') := answered a ok language st s in
    let s' := set_account a (with_saving false st') s' in
    if bool_decide (active s = Some a) && negb (bool_decide (pending st' = [])) && negb (bool_decide (pending st' = language))
    then save a s' else s'.
Proof. intros Hv Ha. unfold save_answered, answered. rewrite Hv, Ha. reflexivity. Qed.

Lemma answered_ok a ok language st s st' s' :
  sync_ok s -> saves s !! a = Some language -> accounts s !! a = Some st ->
  answered a ok language st s = (st', s') -> sync_ok (set_account a (with_saving false st') s').
Proof.
  intros Hok Hv Ha Hans. pose proof (ok_accounts s Hok a st Ha) as [H1 H2 H3 H4 H5 H6 H7].
  destruct (H5 language Hv) as (Hr & Hp & Hsv). pose proof (answered_frame a ok language st s) as Hf.
  pose proof (answered_languages a ok language st s Hp) as Hl.
  assert (Hst := answered_storage a ok language st s). rewrite Hans in Hf, Hl, Hst. cbn [snd] in Hst.
  destruct Hf as (F1 & F2 & F3 & F4 & F5 & F6 & F7 & F8 & F9 & F10 & F11 & es & Hlog & Hes).
  assert (Hno : forall b l, Remembered b l ∈ es -> False) by (intros b l Hin; rewrite Forall_forall in Hes; exact (Hes _ Hin)).
  eapply (sync_update s _ a st (with_saving false st') es); sync_simpl; rewrite ?F6, ?F7, ?F8, ?F9; try done.
  - intros b Hb. by rewrite lookup_delete_ne.
  - apply (ok_i18n s Hok).
  - intros b l Hin. by destruct (Hno b l Hin).
  - intros uid loc He. left. by apply Hst.
  - intros b uid loc Hin. rewrite Forall_forall in Hes. destruct (Hes _ Hin).
  - rewrite lookup_delete_eq, Hlog. constructor; sync_simpl; rewrite ?F1, ?F2, ?F3, ?F4; try done.
    + intros _. destruct (H1 Hr). split; [done|]. by apply elem_of_log.
    + intros Hp'. destruct Hl as [(E & _)|E]; [done|]. rewrite E. destruct (H3 Hp) as [? [?|[? ?]]]; (split; [done|]);
        [left; by apply elem_of_log|right; split; [done|]]. by eapply acc_origin_self.
    + intros l. assert (newest_choice a (es ++ log s) = newest_choice a (log s)) as ->.
      { clear -Hes. induction Hes as [|e es He _ IH]; [done|]. by destruct e. }
      intros Hl'. destruct (H7 l Hl') as [E|(E & _)]; [|done]. destruct Hl as [(E1 & E2 & E3)|E1]; [right|left; congruence].
      split_and!; congruence.
Qed.

Lemma save_answered_ok a ok s : sync_ok s -> sync_ok (save_answered a ok s).
Proof.
  intros Hok. destruct (saves s !! a) as [language|] eqn:Hv; [|unfold save_answered; by rewrite Hv].
  destruct (accounts s !! a) as [st|] eqn:Ha; [|unfold save_answered; by rewrite Hv, Ha].
  rewrite (save_answered_unfold _ _ language st) by done. destruct (answered a ok language st s) as [st' s'] eqn:E.
  pose proof (answered_ok _ _ _ _ _ _ _ Hok Hv Ha E). cbv zeta. destruct (_ && _ && _); [by apply save_ok|done].
Qed.

(** The identity the server gave, with the choice to go on with. *)
Lemma stored_choice_ok s uid p e :
  sync_ok s -> stored_choice uid (storage s) = (p, e) ->
  (p = [] \/ p ∈ getAvailableLanguages /\ origin (accounts s) (log s) uid p) /\
  (forall uid' loc, e = Some (Entry uid' loc) -> storage s = Some (Entry uid' loc)).
Proof.
  intros Hok. unfold stored_choice. destruct (storage s) as [[uid' loc| |]|] eqn:Hs; intros [= <- <-]; try by split; [left|].
  destruct (bool_decide (uid' = uid)) eqn:E; cbn [andb]; [|by split; [left|]].
  destruct (bool_decide (loc ∈ _)) eqn:E'; [|by split; [left|]]. apply bool_decide_eq_true in E as ->, E'.
  split; [|done]. right. split; [done|]. by apply ok_storage.
Qed.

Lemma identity_ok a st d p e s :
  sync_ok s -> accounts s !! a = Some st -> ready st = false -> preference_ok st d = true ->
  match pending st with [] => stored_choice (d_user_id d) (storage s) | p => (p, Some (Entry (d_user_id d) p)) end = (p, e) ->
  sync_ok (add_log (Identified a (d_username d) (d_user_id d))
    (set_storage e (set_account a (with_identity (d_user_id d) (d_locale d) p st) s))).
Proof.
  intros Hok Ha Hr Hd Hp. pose proof (ok_accounts s Hok a st Ha) as [H1 H2 H3 H4 H5 H6 H7].
  unfold preference_ok in Hd. apply andb_true_iff in Hd as [[[Hname Huid]%andb_true_iff _]%andb_true_iff _].
  apply bool_decide_eq_true in Hname. apply negb_true_iff, bool_decide_eq_false in Huid.
  set (st' := with_identity (d_user_id d) (d_locale d) p st). set (idd := Identified a (d_username d) (d_user_id d)).
  assert (Hself : forall l, Remembered a l ∈ log s -> origin (<[a := st']> (accounts s)) (idd :: log s) (d_user_id d) l).
  { intros l Hc. right. exists a, st'. rewrite lookup_insert_eq. split_and!; [done| |by apply list_elem_of_further].
    subst idd st'. sync_simpl. rewrite Hname. apply list_elem_of_here. }
  assert (Hcase : (p = [] \/ p ∈ getAvailableLanguages /\ origin (<[a := st']> (accounts s)) (idd :: log s) (d_user_id d) p) /\
    (forall uid loc, e = Some (Entry uid loc) ->
      storage s = Some (Entry uid loc) \/ origin (<[a := st']> (accounts s)) (idd :: log s) uid loc) /\
    (pending st <> [] -> p = pending st)).
  { destruct (pending st) as [|c l] eqn:El.
    - destruct (stored_choice_ok s _ _ _ Hok Hp) as [Ho He]. split_and!; [|intros; left; by apply He|done].
      destruct Ho as [?|[? Ho]]; [by left|right; split; [done|]]. by apply (acc_origin_self _ _ [_] a st).
    - injection Hp as <- <-. destruct (H3 ltac:(done)) as [Hav [Hc|[? _]]]; [|congruence]. split_and!; [|intros ? ? [= <- <-]|done]; auto. }
  destruct Hcase as (Hch & Hsto & Hkeep).
  eapply (sync_update s _ a st st' [idd]); sync_simpl; try done.
  - apply (ok_i18n s Hok).
  - by apply no_chosen; rewrite Forall_singleton.
  - intros b uid loc Hin%list_elem_of_singleton. done.
  - constructor; sync_simpl; try done; subst st'; sync_simpl.
    + intros _. split; [done|]. subst idd. rewrite Hname. apply list_elem_of_here.
    + intros Hne. destruct Hch as [?|[? ?]]; [done|]. split; [done|]. by right.
    + intros l Hv. destruct (H5 l Hv). congruence.
    + intros l Hl. destruct (H7 l Hl) as [E|(_ & _ & E)]; [|congruence]. left. subst l. apply Hkeep.
      apply newest_in in Hl. by apply available_nonempty, (ok_chosen s Hok a).
Qed.

Lemma current_available s : sync_ok s -> currentLang (i18n_state s) ∈ getAvailableLanguages.
Proof. intros Hok. apply (ok_available _ _ (ok_i18n s Hok)). Qed.

Lemma apply_account_language_ok a l b s :
  sync_ok s -> is_Some (hydrations s !! a) -> sync_ok (apply_account_language a l b s).
Proof.
  intros Hok Hh. destruct (ok_flights s Hok a (or_introl Hh)) as [st Ha].
  pose proof (ok_accounts s Hok a st Ha) as [H1 H2 H3 H4 H5 H6 H7]. unfold apply_account_language.
  eapply (sync_update s _ a st st []); sync_simpl; try done.
  - by rewrite insert_id.
  - intros c Hc. by rewrite lookup_insert_ne.
  - by apply setLanguage_ok, ok_i18n.
  - by apply no_chosen.
  - by left.
  - intros c uid loc Hin. by apply elem_of_nil in Hin.
  - rewrite lookup_insert_eq. constructor; try done. rewrite H6. by rewrite !bool_decide_eq_true_2.
Qed.

Lemma remember_frame a l s :
  i18n_state (remember a l s) = i18n_state s /\ hydrations (remember a l s) = hydrations s /\
  active (remember a l s) = active s /\
  forall b st', accounts (remember a l s) !! b = Some st' -> exists st, accounts s !! b = Some st /\
    ready st' = ready st /\ acc_loading st' = acc_loading st /\ loadFailed st' = loadFailed st.
Proof.
  unfold remember. destruct (accounts s !! a) as [st|] eqn:Ha; [|naive_solver].
  destruct (userID st); sync_simpl; split_and!; try done; intros b st' [[<- <-]|[_ Hb]]%lookup_insert_Some; eauto.
Qed.

Lemma preference_arrived_ok a revision st d s :
  sync_ok s -> accounts s !! a = Some st -> hydrations s !! a = Some (AwaitResponse revision) -> ready st = false ->
  preference_ok st d = true -> sync_ok (preference_arrived a revision st d s).
Proof.
  intros Hok Ha Hh Hr Hd. unfold preference_arrived.
  destruct (match pending st with [] => _ | _ => _ end) as [p e] eqn:Hp.
  pose proof (identity_ok a st d p e s Hok Ha Hr Hd Hp) as Hok1.
  set (s1 := add_log _ _) in *. assert (Hh1 : is_Some (hydrations s1 !! a)) by (subst s1; sync_simpl; eauto). clearbody s1.
  cbv zeta. destruct p as [|c p].
  - destruct (bool_decide (languageRequestID _ = _)); [|by apply hydrated_ok]. destruct (d_locale d) as [|c l].
    + apply hydrated_ok, save_ok, remember_ok; [by apply add_log_ok|]. by apply current_available.
    + destruct (bool_decide _); [by apply hydrated_ok|by apply apply_account_language_ok].
  - destruct (_ && _); [by apply apply_account_language_ok|by apply hydrated_ok, save_ok].
Qed.

Lemma hydrate_answered_ok a answer s : sync_ok s -> waiting_ok s -> sync_ok (hydrate_answered a answer s).
Proof.
  intros Hok Hw. unfold hydrate_answered. destruct (hydrations s !! a) as [[revision|]|] eqn:Hh; [|done..].
  destruct (accounts s !! a) as [st|] eqn:Ha; [|done].
  destruct answer as [d|]; [|by apply hydrate_failed_ok]. destruct (bool_decide _); [by apply hydrated_ok|].
  destruct (preference_ok st d) eqn:Hd; [|by apply hydrate_failed_ok].
  apply preference_arrived_ok; try done. exact (Hw _ _ _ Hh Ha).
Qed.

Lemma language_applied_ok a b s : sync_ok s -> sync_ok (language_applied a b s).
Proof. intros Hok. unfold language_applied. apply hydrated_ok. destruct b; [by apply save_ok|done]. Qed.

Lemma resume_hydration_ok a s : sync_ok s -> sync_ok (resume_hydration a s).
Proof.
  intros Hok. unfold resume_hydration. destruct (hydrations s !! a) as [[|]|]; [done| |done].
  destruct (bool_decide _); [by apply language_applied_ok|done].
Qed.

Lemma on_language_changed_ok l src s : sync_ok s -> l ∈ getAvailableLanguages -> sync_ok (on_language_changed l src s).
Proof.
  intros Hok Hl. unfold on_language_changed. destruct (active s); [|done].
  destruct (bool_decide _); [by apply save_ok, remember_ok; [apply add_log_ok|]|done].
Qed.

(** A settled dictionary ends the request, then the event and the waiting hydrations follow. *)
Definition after_settle (id : nat) (d : option dictionary) (s : sync) : sync :=
  let i := settle_request Management id d (i18n_state s) in
  match changes i with
  | (_, l, src) :: _ =>
    if bool_decide (length (changes (i18n_state s)) < length (changes i)) then on_language_changed l src (set_i18n i s)
    else set_i18n i s
  | [] => set_i18n i s
  end.

Lemma language_settled_unfold id d s : language_settled id d s = resume_hydrations (after_settle id d s).
Proof. reflexivity. Qed.

Lemma after_settle_ok id d s : sync_ok s -> sync_ok (after_settle id d s).
Proof.
  intros Hok. unfold after_settle. set (i := settle_request Management id d (i18n_state s)). cbv zeta.
  assert (Hi : lang_ok Management i) by (apply settle_request_ok, ok_i18n, Hok).
  pose proof (set_i18n_ok i s Hok Hi) as Hs. pose proof (ok_last _ _ Hi) as Hl.
  destruct (changes i) as [|[[id' l] src] cs] eqn:Hc; [done|]. destruct Hl as (-> & _ & _).
  destruct (bool_decide _); [|done]. apply on_language_changed_ok; [done|]. apply (ok_available _ _ Hi).
Qed.

Lemma resume_hydrations_ok s : sync_ok s -> sync_ok (resume_hydrations s).
Proof.
  intros Hok. unfold resume_hydrations. generalize (map fst (map_to_list (hydrations s))). intros l.
  induction l as [|a l IH]; [done|]. cbn [foldr]. by apply resume_hydration_ok.
Qed.

Lemma leave_account_ok s : sync_ok s -> sync_ok (leave_account s).
Proof.
  intros Hok. unfold leave_account. destruct (active s) as [a|] eqn:Hact; [|done].
  pose proof (set_i18n_ok _ s Hok (abort_ok Management a _ (ok_i18n s Hok))) as [Hi Hst Hac Hnum Hfl Hch Hpu Hacc].
  by constructor.
Qed.

Lemma new_account_fresh s : sync_ok s -> let a := next_account s in
  accounts s !! a = None /\ hydrations s !! a = None /\ saves s !! a = None.
Proof.
  intros Hok. cbv zeta. assert (Ha : accounts s !! next_account s = None).
  { apply eq_None_not_Some. intros Ha%(ok_numbers s Hok). lia. }
  split_and!; [done|..]; apply eq_None_not_Some; intros Hs; destruct (ok_flights s Hok (next_account s)) as [? ?]; auto; congruence.
Qed.

Lemma enter_account_ok name s : sync_ok s -> sync_ok (enter_account name s).
Proof.
  intros Hok. unfold enter_account. apply hydrate_ok. destruct (new_account_fresh s Hok) as (Ha & Hh & Hv).
  destruct Hok as [Hi Hst Hac Hnum Hfl Hch Hpu Hacc]. set (a := next_account s) in *.
  assert (Hkeep : forall b st, accounts s !! b = Some st -> <[a := new_account name]> (accounts s) !! b = Some st)
    by (intros b st Hb; rewrite lookup_insert_ne; [done|congruence]).
  assert (Ho : forall uid loc, origin (accounts s) (log s) uid loc -> origin (<[a := new_account name]> (accounts s)) (log s) uid loc).
  { intros uid loc [?|(b & st & Hb & ?)]; [by left|right]. exists b, st. eauto. }
  constructor; sync_simpl; try done.
  - intros uid loc ?. by apply Ho, Hst.
  - intros b [= <-]. rewrite lookup_insert_eq. eauto.
  - intros b [st [[<- <-]|[_ Hb]]%lookup_insert_Some]; [lia|]. assert (b < a) by (apply Hnum; eauto). lia.
  - intros b Hb%Hfl. destruct Hb as [st Hb]. eauto.
  - intros b l Hb. destruct (Hch b l Hb) as [[st Hb'] ?]. eauto.
  - intros b uid loc Hb. destruct (Hpu b uid loc Hb) as ((st & Hb' & ?) & ? & ? & ?). split_and!; [|done..|by apply Ho]. eauto.
  - intros b st [[<- <-]|[_ Hb]]%lookup_insert_Some.
    + rewrite Hh, Hv. constructor; sync_simpl; try done. intros l Hl%newest_in%Hch. destruct Hl as [[st Hst'] _]. congruence.
    + destruct (Hacc b st Hb) as [H1 H2 H3 H4 H5 H6 H7]. constructor; try done.
      intros Hp. destruct (H3 Hp) as [? [?|[? ?]]]; (split; [done|]); [by left|right]. split; [done|]. by apply Ho.
Qed.

Lemma auth_changed_ok demo name s : sync_ok s -> sync_ok (auth_changed demo name s).
Proof.
  intros Hok. unfold auth_changed. pose proof (leave_account_ok s Hok) as Hl.
  assert (Hn : sync_ok (match name with [] => leave_account s | _ => enter_account name (leave_account s) end))
    by (destruct name; [done|by apply enter_account_ok]).
  destruct demo; [done|]. destruct (_ ≫= _); [destruct (bool_decide _)|]; done.
Qed.

Lemma retry_ok s : sync_ok s -> sync_ok (retry s).
Proof.
  intros Hok. unfold retry. destruct (active s) as [a|]; [|done]. destruct (accounts s !! a) as [st|]; [|done].
  destruct (ready st); [by apply save_ok|by apply hydrate_ok].
Qed.

Lemma set_storage_ok e s :
  sync_ok s -> (forall uid loc, e = Some (Entry uid loc) -> origin (accounts s) (log s) uid loc) -> sync_ok (set_storage e s).
Proof. intros [] He. by constructor. Qed.

Lemma other_tab_ok e s : sync_ok s -> sync_ok (note_stored e (set_storage e s)).
Proof.
  intros Hok. destruct e as [[uid loc| |]|]; cbn [note_stored]; [|by apply set_storage_ok..].
  change (sync_ok (set_storage (Some (Entry uid loc)) (add_log (FoundStored uid loc) s))).
  apply set_storage_ok; [by apply add_log_ok|]. intros u l [= <- <-]. left. apply list_elem_of_here.
Qed.

Lemma sync_step_ok ev s : sync_ok s -> waiting_ok s -> sync_ok (sync_step ev s).
Proof.
  intros Hok Hw. destruct ev; cbn [sync_step].
  - by apply auth_changed_ok.
  - by apply set_i18n_ok, setLanguage_ok, ok_i18n.
  - rewrite language_settled_unfold. by apply resume_hydrations_ok, after_settle_ok.
  - by apply hydrate_answered_ok.
  - by apply save_answered_ok.
  - by apply retry_ok.
  - by apply other_tab_ok.
Qed.

(** *** What waits for what, and nothing left undone *)
Lemma waiting_frame s s' :
  hydrations s' = hydrations s ->
  (forall b st', accounts s' !! b = Some st' -> exists st, accounts s !! b = Some st /\
     ready st' = ready st /\ acc_loading st' = acc_loading st /\ loadFailed st' = loadFailed st) ->
  waiting_ok s -> waiting_ok s'.
Proof.
  intros Hh Hf Hw a h st Ha Hst. rewrite Hh in Ha. destruct (Hf a st Hst) as (st0 & Hst0 & -> & _). by apply (Hw a).
Qed.

Lemma waiting_save a s : waiting_ok s -> waiting_ok (save a s).
Proof. destruct (save_frame a s) as (_ & ? & _ & ?). by apply waiting_frame. Qed.

Lemma waiting_remember a l s : waiting_ok s -> waiting_ok (remember a l s).
Proof. destruct (remember_frame a l s) as (_ & ? & _ & ?). by apply waiting_frame. Qed.

(** Every account but one, whose hydration ends. *)
Definition waiting_but (a : nat) (s : sync) : Prop := forall b h st,
  b <> a -> hydrations s !! b = Some h -> accounts s !! b = Some st ->
  ready st = match h with AwaitResponse _ => false | AwaitLanguage _ _ => true end.

Lemma waiting_hydrated a s : waiting_but a s -> waiting_ok (hydrated a s).
Proof.
  intros Hw b h st. unfold hydrated. sync_simpl. destruct (accounts s !! a) as [st0|] eqn:Ha; sync_simpl.
  - intros [Hba Hh]%lookup_delete_Some. rewrite lookup_insert_ne by done. by apply Hw.
  - intros [Hba Hh]%lookup_delete_Some. by apply Hw.
Qed.

Lemma waiting_but_frame a s s' :
  hydrations s' = hydrations s ->
  (forall b st', b <> a -> accounts s' !! b = Some st' -> exists st, accounts s !! b = Some st /\ ready st' = ready st) ->
  waiting_ok s -> waiting_but a s'.
Proof.
  intros Hh Hf Hw b h st Hb Hbh Hst. rewrite Hh in Hbh. destruct (Hf b st Hb Hst) as (st0 & Hst0 & ->). by apply (Hw b).
Qed.

(** What [save] and [remember] leave of every account. *)
Definition frames (s s' : sync) : Prop :=
  i18n_state s' = i18n_state s /\ hydrations s' = hydrations s /\ active s' = active s /\
  forall b st', accounts s' !! b = Some st' -> exists st, accounts s !! b = Some st /\
    ready st' = ready st /\ acc_loading st' = acc_loading st /\ loadFailed st' = loadFailed st.

Lemma frames_trans s s1 s2 : frames s s1 -> frames s1 s2 -> frames s s2.
Proof.
  intros (A1 & A2 & A3 & A4) (B1 & B2 & B3 & B4). split_and!; [congruence..|]. intros b st Hb.
  destruct (B4 b st Hb) as (st1 & (st0 & ? & ? & ? & ?)%A4 & ? & ? & ?). exists st0. split_and!; congruence.
Qed.

Lemma frames_refl s : frames s s.
Proof. split_and!; naive_solver. Qed.

Lemma frames_remember_save a l e s : frames s (save a (remember a l (add_log e s))).
Proof. eapply frames_trans; [apply (remember_frame a l (add_log e s))|apply save_frame]. Qed.

Lemma waiting_frames s s' : frames s s' -> waiting_ok s -> waiting_ok s'.
Proof. intros (_ & ? & _ & ?). by apply waiting_frame. Qed.

Lemma frames_but a s s' : frames s s' -> waiting_but a s -> waiting_but a s'.
Proof.
  intros (_ & Hh & _ & Hf) Hw b h st Hb Hbh Hst. rewrite Hh in Hbh.
  destruct (Hf b st Hst) as (st0 & Hst0 & -> & _). by apply (Hw b).
Qed.

Lemma waiting_but_weaken a s : waiting_ok s -> waiting_but a s.
Proof. intros Hw b h st _. apply Hw. Qed.

(** The state in which [preference_arrived] decides. *)
Definition identified_state (a : nat) (st : account) (d : preference) (p : jstr) (e : option stored_entry) (s : sync) : sync :=
  add_log (Identified a (d_username d) (d_user_id d))
    (set_storage e (set_account a (with_identity (d_user_id d) (d_locale d) p st) s)).

Lemma identified_but a st d p e s : waiting_ok s -> waiting_but a (identified_state a st d p e s).
Proof.
  intros Hw b h stb Hb. unfold identified_state. sync_simpl. rewrite lookup_insert_ne by done. apply Hw.
Qed.

Lemma waiting_applied a l b s st :
  waiting_but a s -> accounts s !! a = Some st -> ready st = true -> waiting_ok (apply_account_language a l b s).
Proof.
  intros Hw Ha Hr c h stc. unfold apply_account_language. sync_simpl.
  intros [[<- <-]|[Hc Hh]]%lookup_insert_Some; [intros; congruence|]. by apply Hw.
Qed.

Lemma preference_arrived_waiting a revision st d s : waiting_ok s -> waiting_ok (preference_arrived a revision st d s).
Proof.
  intros Hw. unfold preference_arrived. destruct (match pending st with [] => _ | _ => _ end) as [p e].
  fold (identified_state a st d p e s). pose proof (identified_but a st d p e s Hw) as Hb.
  assert (Ha : accounts (identified_state a st d p e s) !! a = Some (with_identity (d_user_id d) (d_locale d) p st))
    by apply lookup_insert_eq.
  set (s1 := identified_state _ _ _ _ _ _) in *. clearbody s1. cbv zeta.
  assert (Hs : waiting_ok (hydrated a (save a s1))) by (eapply waiting_hydrated, frames_but, Hb; apply save_frame).
  destruct p as [|c p].
  - destruct (bool_decide (languageRequestID _ = _)); [|by apply waiting_hydrated]. destruct (d_locale d) as [|c l].
    + eapply waiting_hydrated, frames_but, Hb. apply frames_remember_save.
    + destruct (bool_decide _); [by apply waiting_hydrated|by eapply waiting_applied].
  - destruct (_ && _); [by eapply waiting_applied|done].
Qed.

Lemma hydrate_failed_waiting a st s : waiting_ok s -> waiting_ok (hydrate_failed a st s).
Proof.
  intros Hw. unfold hydrate_failed. apply waiting_hydrated. destruct (_ && _); [|by apply waiting_but_weaken].
  intros b h stb Hb. sync_simpl. rewrite lookup_insert_ne by done. apply Hw.
Qed.

Lemma hydrate_answered_waiting a answer s : waiting_ok s -> waiting_ok (hydrate_answered a answer s).
Proof.
  intros Hw. unfold hydrate_answered. destruct (hydrations s !! a) as [[revision|]|]; [|done..].
  destruct (accounts s !! a) as [st|]; [|done]. destruct answer as [d|]; [|by apply hydrate_failed_waiting].
  destruct (bool_decide _); [by apply waiting_hydrated, waiting_but_weaken|].
  destruct (preference_ok st d); [by apply preference_arrived_waiting|by apply hydrate_failed_waiting].
Qed.

Lemma resume_hydrations_waiting s : waiting_ok s -> waiting_ok (resume_hydrations s).
Proof.
  intros Hw. unfold resume_hydrations. generalize (map fst (map_to_list (hydrations s))). intros l.
  induction l as [|a l IH]; [done|]. cbn [foldr]. unfold resume_hydration at 1.
  destruct (hydrations _ !! a) as [[|r b]|]; [done| |done]. destruct (bool_decide _); [|done].
  apply waiting_hydrated. destruct b; [|by apply waiting_but_weaken].
  eapply frames_but; [apply save_frame|]. by apply waiting_but_weaken.
Qed.

Lemma after_settle_frames id d s : exists i, frames (set_i18n i s) (after_settle id d s).
Proof.
  unfold after_settle. set (i := settle_request _ _ _ _). cbv zeta. exists i.
  destruct (changes i) as [|[[id' l] src] cs]; [apply frames_refl|]. destruct (bool_decide _); [|apply frames_refl].
  unfold on_language_changed. destruct (active _); [|apply frames_refl].
  destruct (bool_decide _); [apply frames_remember_save|apply frames_refl].
Qed.

Lemma hydrate_waiting a s :
  waiting_ok s -> (forall st, accounts s !! a = Some st -> ready st = false) -> waiting_ok (hydrate a s).
Proof.
  intros Hw Hr. unfold hydrate. destruct (accounts s !! a) as [st|] eqn:Ha; [|done]. destruct (_ || _); [done|].
  intros b h stb. sync_simpl. intros [[<- <-]|[Hb Hh]]%lookup_insert_Some.
  - rewrite lookup_insert_eq. intros [= <-]. exact (Hr st eq_refl).
  - rewrite lookup_insert_ne by done. by apply Hw.
Qed.

Lemma leave_waiting s : waiting_ok s -> waiting_ok (leave_account s).
Proof. unfold leave_account. by destruct (active s). Qed.

Lemma enter_waiting name s : sync_ok s -> waiting_ok s -> waiting_ok (enter_account name s).
Proof.
  intros Hok Hw. destruct (new_account_fresh s Hok) as (Ha & Hh & _). apply hydrate_waiting; sync_simpl.
  - intros b h st. sync_simpl. intros Hb. rewrite lookup_insert_ne by congruence. by apply Hw.
  - intros st. rewrite lookup_insert_eq. by intros [= <-].
Qed.

Lemma save_answered_waiting a ok s : waiting_ok s -> waiting_ok (save_answered a ok s).
Proof.
  intros Hw. destruct (saves s !! a) as [language|] eqn:Hv; [|unfold save_answered; by rewrite Hv].
  destruct (accounts s !! a) as [st|] eqn:Ha; [|unfold save_answered; by rewrite Hv, Ha].
  rewrite (save_answered_unfold _ _ language st) by done. pose proof (answered_frame a ok language st s) as Hf.
  destruct (answered a ok language st s) as [st' s']. destruct Hf as (_ & _ & Hr & _ & _ & _ & Hacc & Hh & _). cbv zeta.
  assert (Hw' : waiting_ok (set_account a (with_saving false st') s')).
  { intros b h stb. sync_simpl. rewrite Hh, Hacc. intros Hbh [[<- <-]|[_ Hb]]%lookup_insert_Some; [|by eapply Hw].
    sync_simpl. rewrite Hr. by eapply Hw. }
  destruct (_ && _ && _); [by apply waiting_save|done].
Qed.

Lemma sync_step_waiting ev s : sync_ok s -> waiting_ok s -> waiting_ok (sync_step ev s).
Proof.
  intros Hok Hw. destruct ev as [demo name|lang|id d|a answer|a ok| |e]; cbn [sync_step].
  - unfold auth_changed. pose proof (leave_waiting s Hw) as Hl.
    assert (Hn : waiting_ok (match name with [] => leave_account s | _ => enter_account name (leave_account s) end))
      by (destruct name; [done|by apply enter_waiting; [apply leave_account_ok|]]).
    destruct demo; [done|]. destruct (_ ≫= _); [destruct (bool_decide _)|]; done.
  - done.
  - rewrite language_settled_unfold. apply resume_hydrations_waiting. destruct (after_settle_frames id d s) as [i Hf].
    by apply (waiting_frames _ _ Hf).
  - by apply hydrate_answered_waiting.
  - by apply save_answered_waiting.
  - unfold retry. destruct (active s) as [a|]; [|done]. destruct (accounts s !! a) as [st|] eqn:Ha; [|done].
    destruct (ready st) eqn:Hr; [by apply waiting_save|]. apply hydrate_waiting; [done|]. intros st'. congruence.
  - destruct e as [[| |]|]; done.
Qed.

(** *** Nothing left undone *)
Lemma save_inactive a s : active s <> Some a -> save a s = s.
Proof. intros Ha. unfold save. destruct (accounts s !! a); [|done]. by rewrite bool_decide_eq_true_2. Qed.

Lemma rested_other a s s' :
  active s' = active s -> active s <> Some a ->
  (forall b, b <> a -> accounts s' !! b = accounts s !! b /\ hydrations s' !! b = hydrations s !! b) -> rested s -> rested s'.
Proof.
  intros Hact Hne Hf Hr b st Hb. rewrite Hact in Hb. assert (b <> a) by congruence. destruct (Hf b) as [-> ->]; [done|].
  by apply Hr.
Qed.

Lemma rested_save a s :
  active s = Some a ->
  (forall st, accounts s !! a = Some st -> acc_loading st = false -> ready st = false -> loadFailed st = true) ->
  rested (save a s).
Proof.
  intros Hact Hf b st Hb Hst. destruct (save_frame a s) as (_ & _ & Hact' & Hfr). rewrite Hact', Hact in Hb.
  injection Hb as <-. destruct (Hfr _ _ Hst) as (st0 & Hst0 & Er & El & Ef). split; [rewrite Er, El, Ef; by apply Hf|].
  intros Hr Hs Hp. destruct (save_frame a s) as (_ & _ & _ & Hfr'). destruct Hp.
  destruct (Hfr' _ _ Hst) as (st1 & Hst1 & Hr1 & _). eapply save_done; [done..| |done]. congruence.
Qed.

Lemma rested_hydrated_save a s :
  active s = Some a -> (forall st, accounts s !! a = Some st -> ready st = true) -> rested (hydrated a (save a s)).
Proof.
  intros Hact Hr b st Hb. unfold hydrated in *. sync_simpl. destruct (save_frame a s) as (_ & _ & Hact' & Hfr).
  assert (b = a) as -> by (destruct (accounts (save a s) !! a); sync_simpl; congruence).
  destruct (accounts (save a s) !! a) as [st0|] eqn:Ha; sync_simpl; [|congruence].
  rewrite lookup_insert_eq. intros [= <-]. destruct (Hfr _ _ Ha) as (st1 & Hst1 & Hr0 & _). rewrite (Hr st1 Hst1) in Hr0.
  split; sync_simpl; [congruence|]. intros _ Hs Hp. destruct Hp. exact (save_done a s st0 Hact Ha Hr0 Hs).
Qed.

(** A hydration ends with nothing to write. *)
Lemma rested_hydrated a s :
  active s = Some a ->
  (forall st, accounts s !! a = Some st -> (ready st = false -> loadFailed st = true) /\
    (ready st = true -> saving st = false -> pending st <> [] -> saveFailed st = true /\ saved st <> Some (pending st))) ->
  rested (hydrated a s).
Proof.
  intros Hact Hf b st Hb. unfold hydrated in *. sync_simpl.
  assert (b = a) as -> by (destruct (accounts s !! a); sync_simpl; congruence).
  destruct (accounts s !! a) as [st0|] eqn:Ha; sync_simpl; [|congruence].
  rewrite lookup_insert_eq. intros [= <-]. destruct (Hf st0 eq_refl) as [H1 H2]. split; sync_simpl; [intros _; exact H1|].
  intros. right. by apply H2.
Qed.

Lemma rested_hydrated_other a s : active s <> Some a -> rested s -> rested (hydrated a s).
Proof.
  intros Hne. apply rested_other with (a := a); [|done|].
  - unfold hydrated. sync_simpl. by destruct (accounts s !! a).
  - intros b Hb. unfold hydrated. sync_simpl. destruct (accounts s !! a); sync_simpl;
      rewrite ?lookup_insert_ne, lookup_delete_ne by done; done.
Qed.

Lemma hydrate_failed_rested a st s :
  rested s -> accounts s !! a = Some st -> ready st = false -> rested (hydrate_failed a st s).
Proof.
  intros Hr Ha Hrd. unfold hydrate_failed. destruct (decide (active s = Some a)) as [Hact|Hne].
  - rewrite bool_decide_eq_true_2 by done. destruct (loadFailed st) eqn:Hf; cbn [andb negb]; apply rested_hydrated; sync_simpl; try done.
    + intros st'. rewrite Ha. intros [= <-]. split; [done|congruence].
    + intros st'. rewrite lookup_insert_eq. intros [= <-]. sync_simpl. split; [done|congruence].
  - rewrite bool_decide_eq_false_2 by done. by apply rested_hydrated_other.
Qed.

Lemma rested_applied a l b s st :
  active s = Some a -> accounts s !! a = Some st -> acc_loading st = true -> (b = true \/ pending st = []) ->
  rested (apply_account_language a l b s).
Proof.
  intros Hact Ha Hl Hb c stc Hc. unfold apply_account_language in *. sync_simpl. rewrite Hact in Hc. injection Hc as <-.
  rewrite Ha, lookup_insert_eq. intros [= <-]. split; [congruence|]. intros _ _ Hp. destruct Hb as [->|?]; [|done]. eauto.
Qed.

Lemma preference_arrived_rested a revision st d s :
  sync_ok s -> active s = Some a -> accounts s !! a = Some st -> hydrations s !! a = Some (AwaitResponse revision) ->
  rested (preference_arrived a revision st d s).
Proof.
  intros Hok Hact Ha Hh. unfold preference_arrived. destruct (match pending st with [] => _ | _ => _ end) as [p e].
  fold (identified_state a st d p e s).
  assert (Ha1 : accounts (identified_state a st d p e s) !! a = Some (with_identity (d_user_id d) (d_locale d) p st))
    by apply lookup_insert_eq.
  assert (Hact1 : active (identified_state a st d p e s) = Some a) by exact Hact.
  assert (Hl : acc_loading st = true).
  { rewrite (acc_hydrating _ _ _ _ _ _ (ok_accounts s Hok a st Ha)), Hh. by apply bool_decide_eq_true. }
  set (s1 := identified_state _ _ _ _ _ _) in *. clearbody s1. cbv zeta.
  assert (Hr1 : forall st', accounts s1 !! a = Some st' -> ready st' = true) by (intros st'; rewrite Ha1; by intros [= <-]).
  destruct p as [|c p].
  - assert (Hend : rested (hydrated a s1)).
    { apply rested_hydrated; [done|]. rewrite Ha1. intros st' [= <-]. sync_simpl. done. }
    destruct (bool_decide (languageRequestID _ = _)); [|done]. destruct (d_locale d) as [|c l].
    + destruct (remember_frame a (currentLang (i18n_state s1)) (add_log (Adopted a (currentLang (i18n_state s1))) s1)) as (_ & _ & E & Hf). apply rested_hydrated_save; [by rewrite E|].
      intros st' (st0 & Hst0 & -> & _)%Hf. by apply Hr1.
    + destruct (bool_decide _); [done|]. eapply rested_applied; [done..|]. by right.
  - destruct (_ && _); [eapply rested_applied; [done..|by left]|by apply rested_hydrated_save].
Qed.

Lemma hydrate_answered_rested a answer s : sync_ok s -> waiting_ok s -> rested s -> rested (hydrate_answered a answer s).
Proof.
  intros Hok Hw Hr. unfold hydrate_answered. destruct (hydrations s !! a) as [[revision|]|] eqn:Hh; [|done..].
  destruct (accounts s !! a) as [st|] eqn:Ha; [|done]. pose proof (Hw _ _ _ Hh Ha) as Hrd.
  destruct answer as [d|]; [|by apply hydrate_failed_rested].
  destruct (decide (active s = Some a)) as [Hact|Hne];
    [rewrite bool_decide_eq_false_2 by auto|rewrite bool_decide_eq_true_2 by done; by apply rested_hydrated_other].
  destruct (preference_ok st d); [by apply preference_arrived_rested|by apply hydrate_failed_rested].
Qed.

Lemma language_applied_rested a r b s :
  sync_ok s -> waiting_ok s -> rested s -> hydrations s !! a = Some (AwaitLanguage r b) -> rested (language_applied a b s).
Proof.
  intros Hok Hw Hr Hh. unfold language_applied. destruct (ok_flights s Hok a) as [st Ha]; [left; rewrite Hh; eauto|].
  pose proof (Hw _ _ _ Hh Ha) as Hrd. cbn in Hrd. destruct (decide (active s = Some a)) as [Hact|Hne].
  - destruct b; [apply rested_hydrated_save; [done|congruence]|]. apply rested_hydrated; [done|]. rewrite Ha. intros st' [= <-].
    split; [congruence|]. intros Hrd' Hs Hp. destruct (Hr a st Hact Ha) as [_ H2].
    destruct (H2 Hrd' Hs Hp) as [[r' Hr']|?]; [congruence|done].
  - rewrite save_inactive by done. destruct b; by apply rested_hydrated_other.
Qed.

(** The invariant of the whole. *)
Definition good (s : sync) : Prop := sync_ok s /\ waiting_ok s /\ rested s.

Lemma resume_hydrations_good s : good s -> good (resume_hydrations s).
Proof.
  intros (Hok & Hw & Hr). split_and!; [by apply resume_hydrations_ok|by apply resume_hydrations_waiting|].
  unfold resume_hydrations. generalize (map fst (map_to_list (hydrations s))). intros l.
  assert (Hall : good (foldr resume_hydration s l)); [|by destruct Hall as (_ & _ & ?)].
  induction l as [|a l (IHok & IHw & IHr)]; [done|]. cbn [foldr]. set (s1 := foldr _ _ _) in *. clearbody s1.
  unfold resume_hydration. destruct (hydrations s1 !! a) as [[|r b]|] eqn:Hh; [done| |done].
  destruct (bool_decide _); [|done]. split_and!; [by apply language_applied_ok| |by eapply language_applied_rested].
  apply waiting_hydrated. destruct b; [|by apply waiting_but_weaken].
  eapply frames_but; [apply save_frame|]. by apply waiting_but_weaken.
Qed.

Lemma after_settle_rested id d s : rested s -> rested (after_settle id d s).
Proof.
  intros Hr. unfold after_settle. set (i := settle_request _ _ _ _). cbv zeta.
  destruct (changes i) as [|[[id' l] src] cs]; [done|]. destruct (bool_decide _); [|done].
  unfold on_language_changed. sync_simpl. destruct (active s) as [a|] eqn:Hact; [|done].
  destruct (bool_decide _); [|done]. destruct (remember_frame a l (add_log (Chosen a l) (set_i18n i s))) as (_ & Hh & Hact' & Hf).
  apply rested_save; [by rewrite Hact'|]. intros st (st0 & Hst0 & -> & -> & ->)%Hf. by apply (Hr a).
Qed.

Lemma hydrate_rested a s :
  sync_ok s -> rested s -> (forall st, accounts s !! a = Some st -> ready st = false) -> rested (hydrate a s).
Proof.
  intros Hok Hr Hrd. unfold hydrate. destruct (accounts s !! a) as [st|] eqn:Ha; [|done].
  destruct (decide (active s = Some a)) as [Hact|]; [|by rewrite bool_decide_eq_true_2].
  rewrite bool_decide_eq_false_2 by auto. cbn [orb]. destruct (acc_loading st); [done|].
  intros b stb Hb. sync_simpl. rewrite Hact in Hb. injection Hb as <-. rewrite lookup_insert_eq. intros [= <-].
  split; sync_simpl; [done|]. rewrite (Hrd st eq_refl). done.
Qed.

Lemma enter_rested name s : rested (enter_account name s).
Proof.
  unfold enter_account, hydrate. sync_simpl. rewrite lookup_insert_eq, bool_decide_eq_false_2 by auto. cbn [orb].
  sync_simpl. intros b st Hb. sync_simpl. injection Hb as <-. rewrite lookup_insert_eq. intros [= <-]. by split; sync_simpl.
Qed.

Lemma leave_rested s : rested (leave_account s).
Proof. unfold leave_account. destruct (active s) eqn:E; intros a st Ha; sync_simpl; congruence. Qed.

Lemma answered_active a ok language st s : active s = Some a -> pending st <> [] ->
  let st' := (answered a ok language st s).1 in
  if ok then pending st' = [] \/ pending st' = pending st /\ pending st <> language
  else pending st' = pending st /\ saved st' = saved st /\ saveFailed st' = true.
Proof.
  intros Hact Hp. cbv zeta. unfold answered. sync_simpl. rewrite Hact, bool_decide_eq_true_2 by done. destruct ok; cbn [andb negb].
  - destruct (bool_decide (pending st = language)) eqn:E; cbn [fst]; sync_simpl; [by left|].
    apply bool_decide_eq_false in E. by right.
  - destruct (saveFailed st) eqn:E; cbn [fst]; sync_simpl; done.
Qed.

Lemma save_answered_rested a ok s : sync_ok s -> rested s -> rested (save_answered a ok s).
Proof.
  intros Hok Hr. destruct (saves s !! a) as [language|] eqn:Hv; [|unfold save_answered; by rewrite Hv].
  destruct (accounts s !! a) as [st|] eqn:Ha; [|unfold save_answered; by rewrite Hv, Ha].
  rewrite (save_answered_unfold _ _ language st) by done. pose proof (answered_frame a ok language st s) as Hf.
  pose proof (ok_accounts s Hok a st Ha) as Hacc. destruct (acc_put _ _ _ _ _ _ Hacc language Hv) as (Hrd & Hp & Hsv).
  pose proof (fun Hact => answered_active a ok language st s Hact Hp) as Hcases.
  destruct (answered a ok language st s) as [st' s']. cbn [fst] in *.
  destruct Hf as (_ & _ & Hr' & Hl' & Hlf & _ & Hacc' & Hh & _ & Hact' & _). cbv zeta.
  destruct (decide (active s = Some a)) as [Hact|Hne].
  - rewrite bool_decide_eq_true_2 by done. cbn [andb].
    assert (Hload : forall st0, accounts (set_account a (with_saving false st') s') !! a = Some st0 ->
      acc_loading st0 = false -> ready st0 = false -> loadFailed st0 = true).
    { intros st0. sync_simpl. rewrite lookup_insert_eq. intros [= <-]. sync_simpl. congruence. }
    destruct (negb _ && negb _) eqn:Hg; [apply rested_save; [sync_simpl; congruence|done]|].
    intros b st0 Hb Hst0. sync_simpl. assert (b = a) as -> by congruence. split; [by apply Hload|].
    rewrite lookup_insert_eq in Hst0. injection Hst0 as <-. sync_simpl. intros _ _ Hp'. right.
    rewrite (bool_decide_eq_false_2 (pending st' = [])) in Hg by done. cbn [negb andb] in Hg.
    apply negb_false_iff, bool_decide_eq_true in Hg. destruct ok.
    + destruct (Hcases Hact) as [E|[E Hne]]; congruence.
    + destruct (Hcases Hact) as (E1 & E2 & E3). split; [done|]. congruence.
  - rewrite bool_decide_eq_false_2 by done. cbn [andb]. eapply (rested_other a s); sync_simpl; [done..| |done].
    intros b Hb. by rewrite lookup_insert_ne, Hacc', Hh.
Qed.

Lemma sync_step_good ev s : good s -> good (sync_step ev s).
Proof.
  intros Hg. pose proof Hg as (Hok & Hw & Hr).
  assert (Ho : sync_ok (sync_step ev s)) by by apply sync_step_ok.
  assert (Hwt : waiting_ok (sync_step ev s)) by by apply sync_step_waiting.
  split_and!; [done..|]. clear Ho Hwt. destruct ev as [demo name|lang|id d|a answer|a ok| |e]; cbn [sync_step].
  - unfold auth_changed.
    assert (Hn : rested (match name with [] => leave_account s | _ => enter_account name (leave_account s) end))
      by (destruct name; [apply leave_rested|apply enter_rested]).
    destruct demo; [apply leave_rested|]. destruct (_ ≫= _); [destruct (bool_decide _)|]; done.
  - done.
  - rewrite language_settled_unfold. apply resume_hydrations_good. split_and!; [by apply after_settle_ok| |by apply after_settle_rested].
    destruct (after_settle_frames id d s) as [i Hf]. by apply (waiting_frames _ _ Hf).
  - by apply hydrate_answered_rested.
  - by apply save_answered_rested.
  - unfold retry. destruct (active s) as [a|] eqn:Hact; [|done]. destruct (accounts s !! a) as [st|] eqn:Ha; [|done].
    destruct (ready st) eqn:Hrd; [apply rested_save; [done|intros; congruence]|]. apply hydrate_rested; [done..|]. intros; congruence.
  - destruct e as [[| |]|]; done.
Qed.

Lemma install_good i e : lang_ok Management i -> good (installAccountLanguageSync i e).
Proof.
  intros Hi.
  assert (Hs : good {| i18n_state := i; accounts := ∅; active := None; storage := None; hydrations := ∅; saves := ∅;
    next_account := 0; log := [] |}).
  { split_and!; [constructor; sync_simpl; try done|..].
    - intros a [st Ha]. by rewrite lookup_empty in Ha.
    - intros a [[h Ha]|[h Ha]]; by rewrite lookup_empty in Ha.
    - intros a l Hin. by apply elem_of_nil in Hin.
    - intros a uid loc Hin. by apply elem_of_nil in Hin.
    - intros a h st Hh. sync_simpl. by rewrite lookup_empty in Hh.
    - intros a st Hh. sync_simpl. done. }
  destruct Hs as (Hok & Hw & Hr). unfold installAccountLanguageSync. split_and!.
  - by apply (other_tab_ok e _ Hok).
  - by destruct e as [[| |]|].
  - by destruct e as [[| |]|].
Qed.

Lemma sync_run_good evs s : good s -> good (sync_run evs s).
Proof. apply (run_invariant sync_step good). intros. by apply sync_step_good. Qed.

(** *** Why a language was remembered *)
Definition why (lg : list log_entry) (a : nat) (l : jstr) : Prop := Chosen a l ∈ lg \/ Adopted a l ∈ lg.

Definition why_ok (s : sync) : Prop := forall a l, Remembered a l ∈ log s -> why (log s) a l.

(** From [s] to [s'] nothing is remembered. *)
Definition plain (s s' : sync) : Prop := exists es, log s' = es ++ log s /\
  Forall (fun e => match e with Remembered _ _ => False | _ => True end) es.

Lemma plain_refl s : plain s s.
Proof. by exists []. Qed.

Lemma plain_trans s s1 s2 : plain s s1 -> plain s1 s2 -> plain s s2.
Proof.
  intros (e1 & E1 & F1) (e2 & E2 & F2). exists (e2 ++ e1). rewrite E2, E1, app_assoc. split; [done|]. by apply Forall_app.
Qed.

Lemma plain_log s s' : log s' = log s -> plain s s'.
Proof. by exists []. Qed.

Lemma plain_add e s s' : match e with Remembered _ _ => False | _ => True end -> log s' = log s -> plain s (add_log e s').
Proof. intros He Hl. exists [e]. sync_simpl. rewrite Hl. split; [done|]. by constructor. Qed.

Lemma why_plain s s' : plain s s' -> why_ok s -> why_ok s'.
Proof.
  intros (es & E & F) Hw a l. unfold why. rewrite E, !elem_of_app. intros [Hin|Hin]; [rewrite Forall_forall in F; destruct (F _ Hin)|].
  destruct (Hw a l Hin); auto.
Qed.

Lemma why_remember a l s : why (log s) a l -> why_ok s -> why_ok (remember a l s).
Proof.
  intros Hl Hw. unfold remember. destruct (accounts s !! a) as [st|]; [|done].
  assert (H1 : why_ok (add_log (Remembered a l) (set_account a (with_pending l st) s))).
  { intros b l'. sync_simpl. unfold why. rewrite !elem_of_cons. intros [[= -> ->]|Hin]; [destruct Hl; auto|].
    destruct (Hw b l' Hin); auto. }
  destruct (userID st); [done|]. by apply (why_plain _ _ (plain_log _ _ eq_refl) H1).
Qed.

Lemma save_plain a s : plain s (save a s).
Proof.
  unfold save. destruct (accounts s !! a) as [st|]; [|apply plain_refl]. destruct (_ || _ || _ || _); [apply plain_refl|].
  destruct (bool_decide _); [|by apply plain_add]. apply plain_log. sync_simpl. apply forget_frame.
Qed.

Lemma hydrated_plain a s : plain s (hydrated a s).
Proof. apply plain_log. unfold hydrated. sync_simpl. by destruct (accounts s !! a). Qed.

Lemma hydrate_plain a s : plain s (hydrate a s).
Proof. apply plain_log. unfold hydrate. destruct (accounts s !! a); [|done]. by destruct (_ || _). Qed.

Lemma hydrate_failed_plain a st s : plain s (hydrate_failed a st s).
Proof.
  unfold hydrate_failed. eapply plain_trans; [|apply hydrated_plain]. destruct (_ && _); [by apply plain_add|apply plain_refl].
Qed.

Lemma hydrated_save_plain a s : plain s (hydrated a (save a s)).
Proof. eapply plain_trans; [apply save_plain|apply hydrated_plain]. Qed.

Lemma why_chosen a l e s : (e = Chosen a l \/ e = Adopted a l) -> why_ok s -> why_ok (save a (remember a l (add_log e s))).
Proof.
  intros He Hw. eapply why_plain; [apply save_plain|]. apply why_remember.
  - unfold why. sync_simpl. rewrite !elem_of_cons. destruct He as [<-|<-]; auto.
  - refine (why_plain _ _ (plain_add _ _ _ _ eq_refl) Hw). by destruct He as [->| ->].
Qed.

Lemma hydrate_answered_why a answer s : why_ok s -> why_ok (hydrate_answered a answer s).
Proof.
  intros Hw. unfold hydrate_answered. destruct (hydrations s !! a) as [[revision|]|]; try done.
  destruct (accounts s !! a) as [st|]; [|done].
  assert (Hf : why_ok (hydrate_failed a st s)) by by apply (why_plain _ _ (hydrate_failed_plain a st s)).
  destruct answer as [d|]; [|done]. destruct (bool_decide _); [by apply (why_plain _ _ (hydrated_plain a s))|].
  destruct (preference_ok st d); [|done]. unfold preference_arrived. destruct (match pending st with [] => _ | _ => _ end) as [p e].
  set (s1 := add_log _ _). assert (H1 : why_ok s1) by (by apply (why_plain s); [apply plain_add|]).
  clearbody s1. cbv zeta.
  assert (Hl : forall l b, why_ok (apply_account_language a l b s1))
    by (intros; by apply (why_plain _ _ (plain_log s1 _ eq_refl))).
  destruct p as [|c p].
  - destruct (bool_decide (languageRequestID _ = _)); [|by apply (why_plain _ _ (hydrated_plain a s1))].
    destruct (d_locale d) as [|c l]; [eapply why_plain; [apply hydrated_plain|apply why_chosen; auto]|].
    destruct (bool_decide _); [by apply (why_plain _ _ (hydrated_plain a s1))|done].
  - destruct (_ && _); [done|]. by apply (why_plain _ _ (hydrated_save_plain a s1)).
Qed.

Lemma save_answered_plain a ok s : plain s (save_answered a ok s).
Proof.
  destruct (saves s !! a) as [language|] eqn:Hv; [|unfold save_answered; rewrite Hv; apply plain_refl].
  destruct (accounts s !! a) as [st|] eqn:Ha; [|unfold save_answered; rewrite Hv, Ha; apply plain_refl].
  rewrite (save_answered_unfold _ _ language st) by done. pose proof (answered_frame a ok language st s) as Hf.
  destruct (answered a ok language st s) as [st' s']. destruct Hf as (_ & _ & _ & _ & _ & _ & _ & _ & _ & _ & _ & es & E & F).
  assert (H1 : plain s (set_account a (with_saving false st') s')).
  { exists es. split; [done|]. eapply Forall_impl; [exact F|]. by intros []. }
  cbv zeta. destruct (_ && _ && _); [|done]. eapply plain_trans; [exact H1|apply save_plain].
Qed.

Lemma language_settled_why id d s : why_ok s -> why_ok (language_settled id d s).
Proof.
  intros Hw. rewrite language_settled_unfold. assert (H1 : why_ok (after_settle id d s)).
  { unfold after_settle. set (i := settle_request _ _ _ _). cbv zeta. destruct (changes i) as [|[[id' l] src] cs]; [done|].
    destruct (bool_decide _); [|done]. unfold on_language_changed. destruct (active _) as [a|]; [|done].
    destruct (bool_decide _); [|done]. by apply why_chosen; [left|]. }
  unfold resume_hydrations. generalize (map fst (map_to_list (hydrations (after_settle id d s)))). intros l.
  induction l as [|a l IH]; [done|]. cbn [foldr]. unfold resume_hydration at 1.
  destruct (hydrations _ !! a) as [[|r b]|]; try done. destruct (bool_decide _); [|done]. unfold language_applied.
  eapply why_plain; [|exact IH]. destruct b; [apply hydrated_save_plain|apply hydrated_plain].
Qed.

Lemma auth_changed_plain demo name s : plain s (auth_changed demo name s).
Proof.
  unfold auth_changed. assert (Hl : plain s (leave_account s)) by (apply plain_log; unfold leave_account; by destruct (active s)).
  assert (Hn : plain s (match name with [] => leave_account s | _ => enter_account name (leave_account s) end)).
  { destruct name; [done|]. eapply plain_trans; [exact Hl|]. unfold enter_account.
    eapply plain_trans; [|apply hydrate_plain]. by apply plain_log. }
  destruct demo; [done|]. destruct (_ ≫= _); [destruct (bool_decide _)|]; try done. apply plain_refl.
Qed.

Lemma sync_step_why ev s : why_ok s -> why_ok (sync_step ev s).
Proof.
  intros Hw. destruct ev; cbn [sync_step].
  - by apply (why_plain _ _ (auth_changed_plain _ _ _)).
  - done.
  - by apply language_settled_why.
  - by apply hydrate_answered_why.
  - by apply (why_plain _ _ (save_answered_plain _ _ _)).
  - unfold retry. destruct (active s) as [a|]; [|done]. destruct (accounts s !! a) as [st|]; [|done].
    destruct (ready st); [by apply (why_plain _ _ (save_plain _ _))|by apply (why_plain _ _ (hydrate_plain _ _))].
  - destruct e as [[uid loc| |]|]; cbn [note_stored]; try done. by apply (why_plain s); [apply plain_add|].
Qed.

Lemma sync_run_why i e evs : why_ok (sync_run evs (installAccountLanguageSync i e)).
Proof.
  apply (run_invariant sync_step why_ok); [intros; by apply sync_step_why|]. intros a l Hin. exfalso. revert Hin.
  unfold installAccountLanguageSync. destruct e as [[| |]|]; cbn; rewrite ?elem_of_cons; by rewrite ?elem_of_nil; intros [|] || intros [].
Qed.
End invariant.

(** ** Properties *)
Section theorems.
Context `{UnicodeCase}.

Lemma started_good detected saved_lang attempts initial e evs :
  detected.1 ∈ getAvailableLanguages -> loadInitialLocales detected.1 DEFAULT_LANG attempts = Some initial ->
  good (sync_run evs (installAccountLanguageSync (initI18n detected saved_lang initial) e)).
Proof. intros Hav Hinit. by eapply sync_run_good, install_good, init_ok. Qed.

(** C29: however sign-ins, choices, dictionaries, answers and other tabs interleave, a request that writes an account's
    language was made under a sign-in that an answer of the server, naming that account, identified; it carries a
    language of the site, and where that language comes from is one of three: it was found in storage for the same account;
    it is the user's choice, which took effect under a sign-in identified as the same account; or it was adopted under
    such a sign-in, which happens when the server has no language for the account: it is then the language of the page,
    which may be left from an account that was signed in before ([language_carried_over]). *)
Theorem account_language_isolated detected saved_lang attempts initial e evs :
  detected.1 ∈ getAvailableLanguages -> loadInitialLocales detected.1 DEFAULT_LANG attempts = Some initial ->
  let s := sync_run evs (installAccountLanguageSync (initI18n detected saved_lang initial) e) in
  forall a uid loc, Put a uid loc ∈ log s ->
    (exists st, accounts s !! a = Some st /\ Identified a (username st) uid ∈ log s) /\
    uid <> [] /\ loc ∈ getAvailableLanguages /\
    (FoundStored uid loc ∈ log s \/
     exists b st, accounts s !! b = Some st /\ Identified b (username st) uid ∈ log s /\
       (Chosen b loc ∈ log s \/ Adopted b loc ∈ log s)).
Proof.
  intros Hav Hinit s a uid loc Hput. destruct (started_good detected saved_lang attempts initial e evs Hav Hinit) as (Hok & _).
  destruct (ok_puts _ Hok a uid loc Hput) as (Hid & Hne & Hloc & Ho). split_and!; [done..|].
  destruct Ho as [?|(b & st & Hb & Hbid & Hr)]; [by left|right]. exists b, st. split_and!; [done..|].
  by apply sync_run_why in Hr.
Qed.

(** the newest choice under a sign-in is pending until the server acknowledged it.  For the active account, when no
    request is under way, either it was acknowledged, or a failure was recorded and the next [retry] asks again: for
    the account when it is not known yet, else with exactly this choice. *)
Theorem newest_choice_kept detected saved_lang attempts initial e evs :
  detected.1 ∈ getAvailableLanguages -> loadInitialLocales detected.1 DEFAULT_LANG attempts = Some initial ->
  let s := sync_run evs (installAccountLanguageSync (initI18n detected saved_lang initial) e) in
  forall a st l, accounts s !! a = Some st -> newest_choice a (log s) = Some l ->
    (pending st = l \/ pending st = [] /\ saved st = Some l /\ ready st = true) /\
    (active s = Some a -> acc_loading st = false -> saving st = false ->
       pending st = [] /\ saved st = Some l \/
       pending st = l /\ ready st = false /\ loadFailed st = true /\ is_Some (hydrations (retry s) !! a) \/
       pending st = l /\ ready st = true /\ saveFailed st = true /\ saves (retry s) !! a = Some l).
Proof.
  intros Hav Hinit s a st l Ha Hl. destruct (started_good detected saved_lang attempts initial e evs Hav Hinit) as (Hok & Hw & Hr).
  fold s in Hok, Hw, Hr. clearbody s. pose proof (ok_accounts s Hok a st Ha) as Hacc.
  pose proof (acc_newest _ _ _ _ _ _ Hacc l Hl) as Hn. split; [done|]. intros Hact Hload Hsave.
  assert (Hne : l <> []) by (apply newest_in in Hl; by apply available_nonempty, (ok_chosen s Hok a)).
  destruct (Hr a st Hact Ha) as [H1 H2]. destruct Hn as [Hp|(? & ? & _)]; [right|by left].
  unfold retry. rewrite Hact, Ha. destruct (ready st) eqn:Hrd.
  - right. destruct (H2 eq_refl Hsave) as [[r Hh]|[Hf Hs]]; [congruence| |].
    + rewrite (acc_hydrating _ _ _ _ _ _ Hacc), Hh in Hload. by apply bool_decide_eq_false in Hload as [].
    + split_and!; [done..|]. unfold save. rewrite Ha, Hrd, Hsave, (bool_decide_eq_false_2 (active s <> _)) by auto.
      rewrite (bool_decide_eq_false_2 (pending st = [])), (bool_decide_eq_false_2 (saved st = _)) by congruence.
      cbn [orb negb]. sync_simpl. rewrite lookup_insert_eq. congruence.
  - left. split_and!; [done..|by apply H1|]. unfold hydrate. rewrite Ha, Hload, (bool_decide_eq_false_2 (active s <> _)) by auto.
    cbn [orb]. sync_simpl. rewrite lookup_insert_eq. eauto.
Qed.
End theorems.

(** ** An example *)
Section example.
#[local] Existing Instance latin_case.

Definition ann_page : sync := installAccountLanguageSync (initI18n detected_japanese None sample_initial)
  (Some (Entry (js "u-ann") (js "fr-FR"))).

(** ann signs in, an answer for bob comes first, her own finds the stored choice; she chooses German, whose request
    fails while French was being saved. *)
Definition ann_events : list sync_event :=
  [AuthChanged false (js "ann");
   HydrateAnswered 0 (Some {| d_username := js "bob"; d_user_id := js "u-bob"; d_locale := [] |}); Retry;
   HydrateAnswered 0 (Some {| d_username := js "ann"; d_user_id := js "u-ann"; d_locale := js "en-US" |});
   DictionarySettled 1 (Some ∅); UserChooses (js "de"); DictionarySettled 2 (Some ∅);
   SaveAnswered 0 true; SaveAnswered 0 false].

(** ann leaves and bob, for whom the server has no language, signs in: the page still shows the German ann chose, and it
    becomes bob's. *)
Example language_carried_over :
  let s := sync_run (ann_events ++ [AuthChanged false (js "bob");
    HydrateAnswered 1 (Some {| d_username := js "bob"; d_user_id := js "u-bob"; d_locale := [] |})]) ann_page in
  take 4 (log s) = [Put 1 (js "u-bob") (js "de-DE"); Remembered 1 (js "de-DE"); Adopted 1 (js "de-DE");
    Identified 1 (js "bob") (js "u-bob")].
Proof. vm_compute. reflexivity. Qed.

Lemma account_language_isolated_witness :
  let s := sync_run ann_events ann_page in
  log s = [Alert (js "profile.languageSaveFailed"); Put 0 (js "u-ann") (js "de-DE"); Remembered 0 (js "de-DE"); Chosen 0 (js "de-DE");
           Put 0 (js "u-ann") (js "fr-FR"); Identified 0 (js "ann") (js "u-ann"); Alert (js "profile.languageLoadFailed");
           FoundStored (js "u-ann") (js "fr-FR")] /\
  (FoundStored (js "u-ann") (js "fr-FR") ∈ log s \/
   exists b st, accounts s !! b = Some st /\ Identified b (username st) (js "u-ann") ∈ log s /\
     (Chosen b (js "fr-FR") ∈ log s \/ Adopted b (js "fr-FR") ∈ log s)).
Proof.
  split; [vm_compute; reflexivity|].
  refine (proj2 (proj2 (proj2 (account_language_isolated detected_japanese None sample_attempts sample_initial
    (Some (Entry (js "u-ann") (js "fr-FR"))) ann_events _ eq_refl 0 (js "u-ann") (js "fr-FR") _)))).
  - refine (proj1 (bool_decide_eq_true _) _). vm_compute. reflexivity.
  - change (Put 0 (js "u-ann") (js "fr-FR") ∈ log (sync_run ann_events ann_page)).
    assert (E : exists l1 l2, log (sync_run ann_events ann_page) = l1 ++ Put 0 (js "u-ann") (js "fr-FR") :: l2)
      by (exists [Alert (js "profile.languageSaveFailed"); Put 0 (js "u-ann") (js "de-DE"); Remembered 0 (js "de-DE"); Chosen 0 (js "de-DE")]; eexists;
          vm_compute; reflexivity).
    destruct E as (l1 & l2 & ->). apply elem_of_app. right. apply list_elem_of_here.
Defined.

Lemma newest_choice_kept_witness :
  let s := sync_run ann_events ann_page in
  newest_choice 0 (log s) = Some (js "de-DE") /\
  exists st, accounts s !! 0 = Some st /\
    (pending st = js "de-DE" \/ pending st = [] /\ saved st = Some (js "de-DE") /\ ready st = true).
Proof.
  split; [vm_compute; reflexivity|]. eexists. split; [vm_compute; reflexivity|].
  refine (proj1 (newest_choice_kept detected_japanese None sample_attempts sample_initial
    (Some (Entry (js "u-ann") (js "fr-FR"))) ann_events _ eq_refl 0 _ (js "de-DE") _ _)).
  - refine (proj1 (bool_decide_eq_true _) _). vm_compute. reflexivity.
  - vm_compute. reflexivity.
  - vm_compute. reflexivity.
Defined.
End example.
