(* ===== verification/ErrorText.v ===== *)
(** * Localized error texts

    The part of [internal/service/frontend/renop-html/js/i18n.js] that turns a backend's error text into a message of
    the catalog - the table [ERROR_KEY_MAP], [translateKnownError], [translateError] - and
    [internal/service/frontend/renop-html/js/response-errors.js], which resolves a failed response by its error code,
    its bounded body or its status.

    The two tables are plain objects, so a lookup also finds what they inherit from [Object.prototype]; the
    dictionaries have no prototype.  [JSON.parse] and [TextDecoder] are parameters. *)
From Stdlib Require Import Ascii String.
From S2P Require Export JsJson LanguageSwitch.

(** ** Tables *)
Definition ERROR_KEY_MAP : list (jstr * jstr) := js_pairs
  [("A user may register at most 10 GPG keys", "profile.gpgKeyLimit");
   ("An error occurred during FIDO login", "error.fidoLoginError");
   ("An error occurred during login", "login.loginError");
   ("An unexpected error occurred while attempting to encode a Protobuf message", "error.internalServerError");
   ("Authentication failed", "login.loginError");
   ("Artifact or directory was deleted before publication", "profile.gpgFailure.deletedBeforePublication");
   ("Artifact redeployment is not allowed", "profile.gpgFailure.redeploymentDenied");
   ("Detached GPG signature was not uploaded before the publication deadline", "profile.gpgFailure.signatureDeadline");
   ("Failed to register GPG key", "profile.gpgAddFailed");
   ("GPG key could not be resolved by configured key servers", "profile.gpgResolveFailed");
   ("GPG key ID is ambiguous; use the full fingerprint", "profile.gpgAmbiguousKey");
   ("GPG key server URLs must contain only an HTTPS origin", "settings.gpgOriginOnly");
   ("GPG key server URLs must use HTTPS", "settings.gpgHttpsOnly");
   ("GPG validation timed out", "profile.gpgFailure.validationTimedOut");
   ("Invalid GPG key ID or fingerprint", "profile.gpgInvalidKey"); ("Invalid profile links", "profile.linksInvalid");
   ("Maven artifact was not uploaded before the publication deadline", "profile.gpgFailure.artifactDeadline");
   ("Publication failed during GPG validation or storage commit", "profile.gpgFailure.generic");
   ("Failed to update profile links", "profile.linksUpdateFailed");
   ("Repository was deleted before publication", "profile.gpgFailure.repositoryDeleted");
   ("The detached GPG signature is invalid", "profile.gpgFailure.invalidSignature");
   ("The quarantined artifact or signature is no longer available", "profile.gpgFailure.quarantineMissing");
   ("The signing key is not registered for the uploader", "profile.gpgFailure.keyUnregistered");
   ("The target repository no longer exists", "profile.gpgFailure.repositoryMissing");
   ("Uploader account was deleted", "profile.gpgFailure.uploaderDeleted");
   ("at least one GPG key server is required", "settings.gpgAtLeastOne");
   ("at most 8 GPG key servers are allowed", "settings.gpgAtMostEight");
   ("at most 16 global proxies are allowed", "settings.proxyAtMostSixteen");
   ("global proxy configuration is too long", "settings.proxyInvalidConfig");
   ("global proxy credentials must use the username and password fields", "settings.proxyInvalidUrl");
   ("global proxy name is invalid", "settings.proxyInvalidConfig");
   ("global proxy name is required", "settings.proxyNameRequired");
   ("global proxy names must be unique", "settings.proxyNamesUnique");
   ("global proxy URL is invalid", "settings.proxyInvalidUrl");
   ("global proxy URL must not contain a path, query, or fragment", "settings.proxyInvalidUrl");
   ("global proxy URL must use http, https, or socks5", "settings.proxyInvalidUrl");
   ("invalid GPG key server URL", "settings.gpgInvalidServer");
   ("selected global proxy does not exist", "settings.proxySelectedMissing");
   ("SOCKS5 global proxy URL must include a port", "settings.proxyInvalidUrl");
   ("storage path cannot be changed while GPG publications are pending", "settings.gpgPendingStorageChange");
   ("Background image exceeds 5 MiB", "error.bgExceedsSize");
   ("Background URL must be a valid WebP image", "error.bgMustBeWebp"); ("Bad path", "error.badPath");
   ("Bad request", "error.badRequest"); ("Bad Request", "error.badRequest"); ("Cancel", "confirm.cancelBtn");
   ("Cannot delete current account", "error.cannotDeleteCurrentAccount"); ("Click to copy", "prompt.clickToCopy");
   ("Close mirrors", "details.closeMirrors"); ("Close modal", "modal.close"); ("Confirm", "confirm.confirmBtn");
   ("Confirm Action", "confirm.title"); ("Conflict", "error.conflict"); ("Copied to clipboard!", "prompt.copied");
   ("Could not resolve host", "error.couldNotResolveHost"); ("Database DSN must not be empty", "error.dbDsnEmpty");
   ("Debug mode is not active (enable server.debug_mode and restart)", "error.debugModeInactive");
   ("Error", "common.error"); ("Error generating token", "profile.genTokenError");
   ("Error loading FIDO devices", "error.fidoLoadFailed"); ("Error updating password", "profile.updatePasswordError");
   ("Executable binary does not match current system or architecture", "error.incompatibleBinary");
   ("Failed to access background URL or returned non-success status", "error.failedAccessBackgroundUrl");
   ("Failed to begin FIDO login", "error.fidoBeginLoginFailed");
   ("Failed to begin registration", "error.fidoBeginRegFailed");
   ("Failed to create session", "error.failedCreateSession");
   ("Failed to delete FIDO device", "error.fidoDeleteFailed"); ("Failed to delete file.", "browser.failedDelete");
   ("Failed to delete repository", "repos.failedDelete"); ("Failed to delete token", "users.failedDeleteToken");
   ("Failed to generate token", "profile.genTokenFailed"); ("Failed to load policy.", "privacy.failedLoad");
   ("Failed to parse assertion response", "error.fidoParseAssertionFailed");
   ("Failed to parse creation response", "error.fidoParseCreationFailed");
   ("Failed to read chunk", "error.readChunk"); ("Failed to revoke session", "sessions.revokeFailed");
   ("Failed to revoke sessions", "sessions.revokeOthersFailed");
   ("Failed to save FIDO device", "error.failedSaveFidoDevice"); ("Failed to save token", "error.failedSaveToken");
   ("Failed to save user", "users.failedSaveUser"); ("Failed to update FIDO device", "error.failedUpdateFidoDevice");
   ("Failed to update password", "profile.updatePasswordFailed");
   ("Failed to update token", "error.failedUpdateToken"); ("FIDO authentication failed", "error.fidoAuthFailed");
   ("FIDO credential not found", "error.fidoCredNotFound"); ("File not found on S3", "error.notFound");
   ("Forbidden", "error.forbidden"); ("Input Required", "prompt.title");
   ("Installation already in progress", "error.installInProgress");
   ("Insufficient disk space", "error.insufficientStorage");
   ("Insufficient disk space to download update package", "updater.insufficientDiskSpace");
   ("Insufficient disk space to generate POM", "error.insufficientStorage");
   ("Insufficient disk space to upload file", "error.insufficientStorage");
   ("Insufficient disk space to upload update package", "updater.insufficientDiskSpace");
   ("Insufficient storage", "error.insufficientStorage"); ("Internal Server Error", "error.internalServerError");
   ("Invalid channel", "error.invalidChannel"); ("Invalid credential payload", "error.invalidCredentialPayload");
   ("Invalid credentials", "login.invalidCreds"); ("Invalid database driver", "error.invalidDbDriver");
   ("Invalid domain", "error.invalidDomain"); ("Invalid domain.", "error.invalidDomain");
   ("Invalid FIDO credential", "error.invalidFidoCred"); ("Invalid mode", "error.invalidMode");
   ("Invalid mode. Expected 'full' or 'diff'", "error.invalidRebuildMode");
   ("Invalid or expired login session", "error.invalidOrExpiredLoginSession");
   ("Invalid or expired session", "error.invalidOrExpiredSession");
   ("Invalid repository name", "error.invalidRepoName"); ("Invalid S3 key prefix", "error.invalidS3KeyPrefix");
   ("Invalid URL", "error.invalidUrl"); ("Invalid URL host", "error.invalidUrlHost");
   ("Invalid visibility. Expected PUBLIC, HIDDEN, or PRIVATE", "error.invalidVisibility");
   ("Is a dir", "error.isDirectory");
   ("Javadocs preview is not enabled on this RenoP instance.", "error.javadocsPreviewDisabled");
   ("Max active requests must be positive", "error.maxActiveRequestsPositive");
   ("Max Javadocs size limit must be positive", "error.maxJavadocSizePositive");
   ("Method not allowed", "error.methodNotAllowed");
   ("No update package file uploaded", "error.noUpdatePackageUploaded");
   ("No update ready to install", "error.noUpdateReady"); ("Not found", "error.notFound");
   ("Not Found", "error.notFound"); ("OK", "common.ok");
   ("Password must be between 6 and 72 bytes", "error.passwordLength");
   ("Port must be between 1 and 65535", "error.invalidPort"); ("profile not found", "error.notFound");
   ("Registration failed", "error.fidoRegFailed"); ("Repository not found", "error.notFound");
   ("Request Entity Too Large", "error.requestEntityTooLarge"); ("Service Unavailable", "error.serviceUnavailable");
   ("Session not found", "error.sessionNotFound"); ("Storage path must not be empty", "error.storagePathEmpty");
   ("Target executable not found in update package", "error.targetExeNotFound");
   ("Task submission failed", "error.taskFailed"); ("This is an invalid domain", "error.invalidDomain");
   ("This is an invalid domain.", "error.invalidDomain"); ("Token name already exists", "error.tokenExists");
   ("Too Many Requests", "error.tooManyRequests"); ("Unauthorized", "error.unauthorized");
   ("Uploaded file must be a .zip package", "error.mustBeZipPackage");
   ("Uploaded file must be a .br or .zip package", "error.mustBeZipPackage");
   ("URL must be http or https", "error.urlMustBeHttpOrHttps");
   ("URL must not contain credentials", "error.urlNoCredentials");
   ("URL points to an internal or private IP", "error.urlInternalIp");
   ("Users cannot clear their own activity logs", "error.cannotClearOwnAuditLogs");
   ("WebAuthn initialization failed", "error.webauthnInitFailed");
   ("Repository is already registered", "repos.gitAlreadyRegistered");
   ("Registration review is already pending for this repository", "repos.gitRegistrationPending");
   ("You are not an owner or member of this repository organization", "repos.gitNotOwner");
   ("You must link your GitHub account before registering a repository", "repos.gitIdentityNotLinked");
   ("You must link your GitLab account before registering a repository", "repos.gitIdentityNotLinked");
   ("GitHub OAuth is not configured on this server", "repos.gitOauthDisabled");
   ("GitLab OAuth is not configured on this server", "repos.gitOauthDisabled");
   ("Invalid repository format, expected owner/repository", "repos.gitInvalidFormat");
   ("Registration cooldown active", "repos.gitRegistrationCooldown");
   ("target_repo is required", "repos.gitTargetRequired");
   ("A quota review request is already pending for this repository", "repos.gitQuotaPendingError");
   ("Quota request cooldown active", "repos.gitQuotaCooldownError");
   ("Not authorized to request quota adjustments for this repository", "repos.gitQuotaNotAuthorized")]%string.



Definition object_prototype : list jstr :=
  map js ["constructor"; "hasOwnProperty"; "isPrototypeOf"; "propertyIsEnumerable"; "toLocaleString"; "toString";
          "valueOf"; "__proto__"; "__defineGetter__"; "__defineSetter__"; "__lookupGetter__"; "__lookupSetter__"]%string.

(** What the code calls a message: a text, or - where it took an inherited property for a key - that value. *)
Inductive message := Text (s : jstr) | Inherited (name : jstr).

(** [table[key]] on a plain object whose own values are non-empty strings. *)
Definition get_own_or_inherited (table : list (jstr * jstr)) (key : jstr) : option message :=
  match table_get table key with
  | Some v => Some (Text v)
  | None => if bool_decide (key ∈ object_prototype) then Some (Inherited key) else None
  end.

Section errors.
Context (parse_json : jstr -> option json) (decode_text : bytes -> jstr) (s : i18n).

Definition tr (key : jstr) (params : list (jstr * jstr)) : jstr := t s key params.

(** [t(key)] for a looked-up key: [translateKey] hands a non-string key back. *)
Definition tr_message (key : message) (params : list (jstr * jstr)) : message :=
  match key with Text k => Text (tr k params) | Inherited name => Inherited name end.

(** ** Known error texts *)
Definition is_trailing (c : N) : bool := (c =? 46)%N || (c =? 58)%N.

Fixpoint drop_while (p : N -> bool) (l : jstr) : jstr :=
  match l with c :: l' => if p c then drop_while p l' else l | [] => [] end.

(** [.replace(/[\.:]+$/, '').trim()] *)
Definition strip_trailing (text : jstr) : jstr := trim (reverse (drop_while is_trailing (reverse text))).

(** [parsed.error] or else [parsed.message], when a non-empty string. *)
Definition json_error_text (parsed : json) : option jstr :=
  match prop_opt (Some parsed) "error" with
  | Some (JStr ((_ :: _) as e)) => Some (trim e)
  | _ =>
    match prop_opt (Some parsed) "message" with
    | Some (JStr ((_ :: _) as e)) => Some (trim e)
    | _ => None
    end
  end.

Definition looks_like_json (text : jstr) : bool := starts_with (js "{") text && ends_with (js "}") text.

Fixpoint first_translation (candidates : list jstr) : option message :=
  match candidates with
  | [] => None
  | c :: candidates =>
    match get_own_or_inherited ERROR_KEY_MAP c with
    | Some key => Some (tr_message key [])
    | None => if bool_decide (tr c [] <> c) then Some (Text (tr c [])) else first_translation candidates
    end
  end.

Definition translate_normalized (normalized : jstr) : message :=
  let stripped := strip_trailing normalized in
  default (Text []) (first_translation (if bool_decide (normalized = stripped) then [normalized] else [normalized; stripped])).

Definition translateKnownError (errorText : jstr) : message :=
  match errorText with
  | [] => Text []
  | _ =>
    let normalized := trim errorText in
    if looks_like_json normalized then
      match parse_json normalized with
      | Some parsed => translate_normalized (default normalized (json_error_text parsed))
      | None => Text []
      end
    else translate_normalized normalized
  end.

(** ** Any error text *)
Definition tryTranslateSingle (str : jstr) : message :=
  match str with
  | [] => Text []
  | _ =>
    let clean := trim str in
    let stripped := strip_trailing clean in
    match get_own_or_inherited ERROR_KEY_MAP clean with
    | Some key => tr_message key []
    | None =>
      match get_own_or_inherited ERROR_KEY_MAP stripped with
      | Some key => tr_message key []
      | None =>
        if bool_decide (tr clean [] <> clean) then Text (tr clean [])
        else if bool_decide (tr stripped [] <> stripped) then Text (tr stripped [])
        else Text clean
      end
    end
  end.

Definition is_text (m : message) (u : jstr) : bool :=
  match m with Text v => bool_decide (v = u) | Inherited _ => false end.

(** [`${m}`]; the parameter prints an inherited value. *)
Definition show_message (show_inherited : jstr -> jstr) (m : message) : jstr :=
  match m with Text v => v | Inherited name => show_inherited name end.

(** [trimmed.split(': ')] into the first part and the rest joined again. *)
Definition split_prefix (text : jstr) : option (jstr * jstr) :=
  i ← index_of (js ": ") text; Some (take i text, drop (i + 2) text).

Definition translateError (show_inherited : jstr -> jstr) (errorText : jstr) : message :=
  match errorText with
  | [] => Text []
  | _ =>
    let trimmed := trim errorText in
    let trimmed := if looks_like_json trimmed then default trimmed (parse_json trimmed ≫= json_error_text) else trimmed in
    let directRes := tryTranslateSingle trimmed in
    if negb (is_text directRes trimmed) && negb (is_text directRes (strip_trailing trimmed)) then directRes
    else
      match split_prefix trimmed with
      | Some (prefix, rest) =>
        let prefix := trim prefix in
        let rest := trim rest in
        let translatedPrefix := tryTranslateSingle prefix in
        let translatedRest := tryTranslateSingle rest in
        if negb (is_text translatedPrefix prefix) || negb (is_text translatedRest rest)
        then Text (show_message show_inherited translatedPrefix ++ js ": " ++ show_message show_inherited translatedRest)
        else directRes
      | None => directRes
      end
  end.










End errors.

(** ** Only catalog text *)
Section localized.
Context (parse_json : jstr -> option json) (decode_text : bytes -> jstr) (s : i18n).
















(** An error text naming a property of [Object.prototype] is taken for a registered one. *)
Lemma constructor_is_known : translateKnownError parse_json s (js "constructor") = Inherited (js "constructor").
Proof. reflexivity. Qed.
End localized.
