(* ===== verification/Passkey.v ===== *)
(** * Passkeys

    [internal/service/frontend/renop-html/js/fido-utils.js]: base64url conversions, the bounded native prompt
    ([requestCredential]) as a state machine over the browser's answer, the timeout and the cancelling events, and
    the assertion and registration requests around it.

    The browser's [atob] and [btoa] and the translations are parameters. *)
From S2P Require Export JsString.

(** ** base64url *)
Section base64.
(** [atob] throws on malformed input: [None]; both work on strings of units below 256. *)
Context (atob : jstr -> option jstr) (btoa : jstr -> jstr).

(** [while (base64.length % 4 !== 0) base64 += '=';] at most three turns are needed. *)
Fixpoint pad_base64 (fuel : nat) (s : jstr) : jstr :=
  match fuel with
  | 0 => s
  | S fuel => if Nat.eqb (length s mod 4) 0 then s else pad_base64 fuel (s ++ [61%N])
  end.

Definition base64urlToBuffer (base64url : jstr) : result jstr bytes :=
  match base64url with
  | [] => Ok []
  | _ =>
    let base64 := pad_base64 3 (replace_char 95 [47%N] (replace_char 45 [43%N] base64url)) in
    match atob base64 with
    | Some binary => Ok (map (fun c => (c mod 256)%N) binary)
    | None => Err (js "InvalidCharacterError")
    end
  end.

(** [None] for a missing buffer. *)
Definition bufferToBase64url (buffer : option bytes) : jstr :=
  match buffer with
  | None => []
  | Some bs => replace_char 61 [] (replace_char 47 [95%N] (replace_char 43 [45%N] (btoa bs)))
  end.
End base64.

(** ** Error messages *)
Definition passkey_error_keys : list (jstr * jstr) :=
  map (fun p => (js p.1, js p.2))
    [("TimeoutError", "fido.timeout"); ("NotAllowedError", "fido.cancelled"); ("AbortError", "fido.cancelled");
     ("InvalidStateError", "fido.alreadyRegistered"); ("NotSupportedError", "login.fidoUnsupported");
     ("SecurityError", "fido.insecure"); ("ConstraintError", "fido.verificationUnavailable")]%string.

Fixpoint find_key (name : jstr) (keys : list (jstr * jstr)) : option jstr :=
  match keys with
  | [] => None
  | (k, v) :: keys => if (k =? name)%js then Some v else find_key name keys
  end.

(** The key [t] translates. *)
Definition passkeyErrorMessage (name : option jstr) : jstr :=
  default (js "login.fidoFailed") (name ≫= fun n => find_key n passkey_error_keys).

(** ** The prompt *)
Inductive method := Get | Create.

Record pk_response := {
  authenticatorData : option bytes; clientDataJSON : option bytes; signature : option bytes;
  attestationObject : option bytes; userHandle : option bytes
}.

Record credential := { cred_type : jstr; cred_id : jstr; rawId : option bytes; response : option pk_response }.

(** [!x?.byteLength] *)
Definition no_bytes (b : option bytes) : bool := match b with Some (_ :: _) => false | _ => true end.

Definition fields (m : method) (r : pk_response) : list (option bytes) :=
  match m with
  | Get => [authenticatorData r; clientDataJSON r; signature r]
  | Create => [attestationObject r; clientDataJSON r]
  end.

Definition incomplete (m : method) (c : credential) : bool :=
  (negb (cred_type c =? js "public-key") || bool_decide (cred_id c = []) || no_bytes (rawId c)
   || match response c with None => true | Some r => existsb no_bytes (fields m r) end)%js.

(** Children of the button: nodes that were there, or the waiting text. *)
Inductive node := Original (n : nat) | Waiting (seconds : Z).

Record button := { childNodes : list node; aria_busy : option jstr }.

(** What the prompt finds: browser support, a secure context, the caller's abort signal, the button. *)
Record environment := {
  supported : bool; insecure : bool; signal_aborted : bool; env_button : option button
}.

Record prompt := {
  now : Z;
  expires : Z;
  reason : option jstr;               (* [controller.signal.reason] once aborted *)
  timer : bool;
  countdown : bool;
  cancel_listeners : bool;            (* signal, pagehide and popstate *)
  abort_listener : bool;
  shown_button : option button;
  outcome : option (result jstr credential)
}.

(** [Math.min(Number(timeout) > 0 ? Number(timeout) : 60000, 60000)] *)
Definition prompt_timeout (timeout : number) : Z :=
  Z.min (match timeout with Some t => if (0 <? t)%Z then t else 60000 | None => 60000 end) 60000.

Definition waiting_seconds (p : prompt) : Z := Z.max 0 (ceil_div (expires p - now p) 1000).

(** [update()] *)
Definition update_button (p : prompt) : prompt :=
  {| now := now p; expires := expires p; reason := reason p; timer := timer p; countdown := countdown p;
     cancel_listeners := cancel_listeners p; abort_listener := abort_listener p;
     shown_button := (fun b => {| childNodes := [Waiting (waiting_seconds p)]; aria_busy := aria_busy b |})
                       <$> shown_button p;
     outcome := outcome p |}.

(** [controller.abort(reason)]: only the first call counts. *)
Definition abort (name : jstr) (p : prompt) : prompt :=
  {| now := now p; expires := expires p; reason := Some (default name (reason p)); timer := timer p;
     countdown := countdown p; cancel_listeners := cancel_listeners p; abort_listener := abort_listener p;
     shown_button := shown_button p; outcome := outcome p |}.

(** The [finally] block: [env] has the button's children and [aria-busy] as they were. *)
Definition finish (env : environment) (r : result jstr credential) (p : prompt) : prompt :=
  {| now := now p; expires := expires p; reason := Some (default (js "AbortError") (reason p));
     timer := false; countdown := false; cancel_listeners := false; abort_listener := false;
     shown_button := (fun b => {| childNodes := childNodes b; aria_busy := aria_busy b |}) <$> env_button env;
     outcome := Some r |}.

Definition abort_and_finish (env : environment) (name : jstr) (p : prompt) : prompt :=
  let p := abort name p in finish env (Err (default name (reason p))) p.

Definition idle_prompt (env : environment) (t : Z) (r : result jstr credential) : prompt :=
  {| now := t; expires := t; reason := None; timer := false; countdown := false; cancel_listeners := false;
     abort_listener := false; shown_button := env_button env; outcome := Some r |}.

(** [requestCredential] up to its [await]. *)
Definition requestCredential (env : environment) (timeout : number) (t : Z) : prompt :=
  if negb (supported env) then idle_prompt env t (Err (js "NotSupportedError"))
  else if insecure env then idle_prompt env t (Err (js "SecurityError"))
  else
    let p := update_button
      {| now := t; expires := t + prompt_timeout timeout; reason := None; timer := true;
         countdown := bool_decide (is_Some (env_button env)); cancel_listeners := true; abort_listener := false;
         shown_button := (fun b => {| childNodes := childNodes b; aria_busy := Some (js "true") |}) <$> env_button env;
         outcome := None |} in
    if signal_aborted env then abort_and_finish env (js "AbortError") p
    else {| now := now p; expires := expires p; reason := reason p; timer := timer p; countdown := countdown p;
            cancel_listeners := cancel_listeners p; abort_listener := true; shown_button := shown_button p;
            outcome := outcome p |}.

(** The checks after the [await] on the browser's answer. *)
Definition check_credential (m : method) (p : prompt) (answer : option credential) : result jstr credential :=
  match reason p with
  | Some r => Err r
  | None =>
    if (expires p <=? now p)%Z then Err (js "TimeoutError")
    else match answer with
         | None => Err (js "NotAllowedError")
         | Some c => if incomplete m c then Err (js "DataError") else Ok c
         end
  end.

Inductive prompt_event :=
| Clock (t : Z)                       (* [Date.now()] moves on *)
| Countdown                           (* the interval ticks *)
| Answer (c : option credential)      (* the browser's promise fulfils *)
| Reject (name : jstr)                (* or rejects *)
| TimedOut                            (* the timeout's timer fires *)
| Cancelled.                          (* the caller's signal, pagehide or popstate *)

Definition set_now (t : Z) (p : prompt) : prompt :=
  {| now := t; expires := expires p; reason := reason p; timer := timer p; countdown := countdown p;
     cancel_listeners := cancel_listeners p; abort_listener := abort_listener p; shown_button := shown_button p;
     outcome := outcome p |}.

(** Aborting rejects the race; the promise's settlement ends it; afterwards nothing listens any more. *)
Definition prompt_step (env : environment) (m : method) (ev : prompt_event) (p : prompt) : prompt :=
  match ev with
  | Clock t => set_now t p
  | Countdown => if countdown p then update_button p else p
  | TimedOut => if timer p then abort_and_finish env (js "TimeoutError") p else p
  | Cancelled => if cancel_listeners p then abort_and_finish env (js "AbortError") p else p
  | Answer c => match outcome p with None => finish env (check_credential m p c) p | Some _ => p end
  | Reject name => match outcome p with None => finish env (Err name) p | Some _ => p end
  end.

Definition prompt_run (env : environment) (m : method) (evs : list prompt_event) (p : prompt) : prompt :=
  fold_left (fun p ev => prompt_step env m ev p) evs p.

(** ** Requests *)
(** A credential descriptor; [extra] stands for the members that are copied. *)
Record descriptor (Id : Type) := { d_id : Id; d_extra : list (jstr * jstr) }.
Arguments d_id {Id}.
Arguments d_extra {Id}.

(** The server's request options: [Bin] is base64url text on the wire, bytes for the browser. *)
Record public_key (Bin : Type) := {
  challenge : Bin;
  pk_timeout : number;
  credentials : option (list (descriptor Bin));      (* [allowCredentials] or [excludeCredentials] *)
  user_id : option Bin;
  userVerification : jstr;
  residentKey : jstr;
  authenticatorAttachment : option jstr
}.
Arguments challenge {Bin}.
Arguments pk_timeout {Bin}.
Arguments credentials {Bin}.
Arguments user_id {Bin}.
Arguments userVerification {Bin}.
Arguments residentKey {Bin}.
Arguments authenticatorAttachment {Bin}.

Section requests.
Context (atob : jstr -> option jstr) (btoa : jstr -> jstr).
Local Abbreviation decode := (base64urlToBuffer atob).
Local Abbreviation encode := (bufferToBase64url btoa).

Definition decode_descriptor (d : descriptor jstr) : result jstr (descriptor bytes) :=
  i ← decode (d_id d); Ok {| d_id := i; d_extra := d_extra d |}.

(** [list?.length ? list.map(...) : (delete)] *)
Definition decode_descriptors (l : option (list (descriptor jstr))) : result jstr (option (list (descriptor bytes))) :=
  match l with
  | Some ((_ :: _) as l) => l ← (mapM decode_descriptor l : result jstr (list (descriptor bytes))); Ok (Some l)
  | _ => Ok None
  end.

(** The options [requestPasskeyAssertion] passes on. *)
Definition assertion_options (pk : public_key jstr) : result jstr (public_key bytes) :=
  match challenge pk with
  | [] => Err (js "DataError")
  | _ =>
    c ← decode (challenge pk);
    l ← decode_descriptors (credentials pk);
    Ok {| challenge := c; pk_timeout := pk_timeout pk; credentials := l; user_id := None;
          userVerification := str_or (userVerification pk) (js "preferred"); residentKey := residentKey pk;
          authenticatorAttachment := authenticatorAttachment pk |}
  end.

(** The options [requestPasskeyRegistration] passes on. *)
Definition registration_options (pk : public_key jstr) : result jstr (public_key bytes) :=
  match challenge pk, default [] (user_id pk) with
  | [], _ | _, [] => Err (js "DataError")
  | _, uid =>
    c ← decode (challenge pk);
    u ← decode uid;
    l ← decode_descriptors (credentials pk);
    Ok {| challenge := c; pk_timeout := pk_timeout pk; credentials := l; user_id := Some u;
          userVerification := str_or (userVerification pk) (js "preferred");
          residentKey := str_or (residentKey pk) (js "preferred"); authenticatorAttachment := None |}
  end.

(** What is sent to the server. *)
Record passkey_json := {
  j_id : jstr; j_rawId : jstr; j_type : jstr; j_clientDataJSON : jstr;
  j_authenticatorData : jstr; j_signature : jstr; j_attestationObject : jstr; j_userHandle : option jstr
}.

Definition no_response : pk_response :=
  {| authenticatorData := None; clientDataJSON := None; signature := None; attestationObject := None;
     userHandle := None |}.

Definition assertion_json (c : credential) : passkey_json :=
  let r := default no_response (response c) in
  {| j_id := cred_id c; j_rawId := encode (rawId c); j_type := cred_type c;
     j_clientDataJSON := encode (clientDataJSON r); j_authenticatorData := encode (authenticatorData r);
     j_signature := encode (signature r); j_attestationObject := [];
     j_userHandle := (fun b => encode (Some b)) <$> userHandle r |}.

Definition registration_json (c : credential) : passkey_json :=
  let r := default no_response (response c) in
  {| j_id := cred_id c; j_rawId := encode (rawId c); j_type := cred_type c;
     j_clientDataJSON := encode (clientDataJSON r); j_authenticatorData := []; j_signature := [];
     j_attestationObject := encode (attestationObject r); j_userHandle := None |}.

(** A whole request: the options decoded, the prompt run on the events, the answer encoded; [None] while the
    prompt is open. *)
Definition run_request (m : method) (options : result jstr (public_key bytes)) (json : credential -> passkey_json)
    (env : environment) (t : Z) (evs : list prompt_event) : option (result jstr passkey_json) :=
  match options with
  | Err e => Some (Err e)
  | Ok pk =>
    (fun r => match r with Ok c => Ok (json c) | Err e => Err e end)
      <$> outcome (prompt_run env m evs (requestCredential env (pk_timeout pk) t))
  end.

Definition requestPasskeyAssertion (pk : public_key jstr) :=
  run_request Get (assertion_options pk) assertion_json.
Definition requestPasskeyRegistration (pk : public_key jstr) :=
  run_request Create (registration_options pk) registration_json.
End requests.

(** ** The prompt is bounded and leaves nothing behind *)
Section prompt_proofs.
Context (env : environment) (m : method).

(** Nothing of the prompt is left: no timer, no listener, and the button as it was. *)
Definition released (p : prompt) : Prop :=
  timer p = false /\ countdown p = false /\ cancel_listeners p = false /\ abort_listener p = false /\
  shown_button p = env_button env.

Definition prompt_ok (p : prompt) : Prop :=
  match outcome p with
  | Some _ => released p
  | None => timer p = true /\ cancel_listeners p = true /\ reason p = None
  end.

Lemma finish_released r p : released (finish env r p).
Proof. unfold released. simpl. split_and!; try done. by destruct (env_button env) as [[? ?]|]. Qed.

Lemma start_ok timeout t : prompt_ok (requestCredential env timeout t).
Proof.
  unfold requestCredential, prompt_ok. destruct (supported env); simpl; [|done]. destruct (insecure env); [done|].
  destruct (signal_aborted env); simpl; [|done]. apply finish_released.
Qed.

Lemma prompt_step_ok ev p : prompt_ok p -> prompt_ok (prompt_step env m ev p).
Proof.
  intros H. unfold prompt_ok in *. destruct (outcome p) as [r|] eqn:Ho.
  - destruct ev; simpl; unfold released in *; destruct H as (H1 & H2 & H3 & H4 & H5);
      rewrite ?H1, ?H2, ?H3, ?Ho; simpl; rewrite ?Ho; done.
  - destruct H as (H1 & H2 & H3). destruct ev; simpl; rewrite ?H1, ?H2, ?Ho; simpl; rewrite ?Ho; try done;
      try apply finish_released. by destruct (countdown p); simpl; rewrite Ho.
Qed.

Lemma prompt_run_ok evs p : prompt_ok p -> prompt_ok (prompt_run env m evs p).
Proof. apply (run_invariant (prompt_step env m) prompt_ok). intros. by apply prompt_step_ok. Qed.

(** An outcome is final. *)
Lemma outcome_final evs p r : prompt_ok p -> outcome p = Some r -> outcome (prompt_run env m evs p) = Some r.
Proof.
  intros Hp Hr. apply (run_invariant (prompt_step env m) (fun p => prompt_ok p /\ outcome p = Some r)); [|done].
  intros ev q [Hq Ho]. split; [by apply prompt_step_ok|]. unfold prompt_ok in Hq. rewrite Ho in Hq.
  destruct Hq as (H1 & H2 & H3 & _). destruct ev; simpl; rewrite ?H1, ?H2, ?H3, ?Ho; done.
Qed.

(** Events that end an open prompt whatever the browser does. *)
Definition ending (ev : prompt_event) : Prop := match ev with TimedOut | Cancelled => True | _ => False end.

Lemma ending_settles evs p ev :
  prompt_ok p -> ev ∈ evs -> ending ev -> is_Some (outcome (prompt_run env m evs p)).
Proof.
  intros Hp Hin He. apply list_elem_of_split in Hin as (e1 & e2 & ->). unfold prompt_run.
  rewrite (run_app (prompt_step env m)). cbn [fold_left].
  pose proof (prompt_run_ok e1 p Hp) as Hok. unfold prompt_run in Hok. set (q := fold_left _ e1 p) in *.
  assert (Hq : is_Some (outcome (prompt_step env m ev q))).
  { unfold prompt_ok in Hok. destruct (outcome q) as [r|] eqn:Ho.
    - exists r. apply (outcome_final [ev]); [|done]. unfold prompt_ok. by rewrite Ho.
    - destruct Hok as (H1 & H2 & _). destruct ev; try done; simpl; rewrite ?H1, ?H2; simpl; eauto. }
  destruct Hq as [r Hr]. exists r. apply outcome_final; [by apply prompt_step_ok|done].
Qed.

(** What a success says about the answer and the moment it came. *)
Definition accepted (c : credential) (ev : prompt_event) (p : prompt) : Prop :=
  ev = Answer (Some c) /\ outcome p = None /\ (now p < expires p)%Z /\ incomplete m c = false.

Lemma success_step ev p c :
  prompt_ok p -> outcome (prompt_step env m ev p) = Some (Ok c) -> outcome p = Some (Ok c) \/ accepted c ev p.
Proof.
  intros Hp. unfold prompt_ok in Hp. destruct (outcome p) as [r|] eqn:Ho.
  - destruct Hp as (H1 & H2 & H3 & _). destruct ev; simpl; rewrite ?H1, ?H2, ?H3, ?Ho; auto.
  - destruct Hp as (H1 & H2 & H3). destruct ev as [t| |a|n| |]; simpl; rewrite ?H1, ?H2, ?Ho; simpl; try done.
    + by destruct (countdown p); simpl; rewrite Ho.
    + intros [= Hc]. right. revert Hc. unfold check_credential. rewrite H3. case_match eqn:Ht; [done|].
      destruct a as [c'|]; [|done]. destruct (incomplete m c') eqn:Hi; [done|]. intros [= <-].
      split_and!; try done. lia.
Qed.

Lemma success_entered timeout t evs c :
  let p0 := requestCredential env timeout t in
  outcome (prompt_run env m evs p0) = Some (Ok c) ->
  exists e1 e2, evs = e1 ++ Answer (Some c) :: e2 /\ accepted c (Answer (Some c)) (prompt_run env m e1 p0).
Proof.
  intros p0 Hc. destruct (run_entered (prompt_step env m) prompt_ok (fun p => outcome p = Some (Ok c))
    (accepted c) (fun _ => True) p0) with (evs := evs) as (e1 & ev & e2 & -> & _ & Ha & _);
    [by intros; apply prompt_step_ok|by apply start_ok| | |done|].
  - intros ev q Hq Hs. apply success_step in Hs as [?|?]; auto.
  - unfold p0, requestCredential. repeat (case_match; try done).
  - exists e1, e2. pose proof (proj1 Ha) as ->. done.
Qed.

(** The native prompt is bounded.  Its deadline is at most a minute after the start; it ends as soon as its
    timer fires or the page, the history or the caller cancels it, whatever the browser does; its outcome is
    final, and with it every timer and listener is gone and the button has its children and [aria-busy] back; it
    succeeds only with a complete public-key credential the browser gave before the deadline, while nothing had
    ended the prompt. *)
Theorem passkey_prompt_bounded timeout t evs :
  let p0 := requestCredential env timeout t in
  let p := prompt_run env m evs p0 in
  (0 < prompt_timeout timeout <= 60000)%Z /\
  ((exists ev, ev ∈ evs /\ ending ev) -> is_Some (outcome p)) /\
  (forall r, outcome p = Some r -> released p /\ forall more, outcome (prompt_run env m (evs ++ more) p0) = Some r) /\
  (forall c, outcome p = Some (Ok c) ->
     exists e1 e2, evs = e1 ++ Answer (Some c) :: e2 /\ Forall (fun ev => ~ ending ev) e1 /\
       incomplete m c = false /\ (now (prompt_run env m e1 p0) < expires (prompt_run env m e1 p0))%Z).
Proof.
  cbn zeta. set (p0 := requestCredential env timeout t).
  assert (H0 : prompt_ok p0) by apply start_ok. pose proof (prompt_run_ok evs p0 H0) as Hp. split_and!.
  - unfold prompt_timeout. destruct timeout as [n|]; [case_match|]; lia.
  - unfold prompt_timeout. destruct timeout as [n|]; [case_match|]; lia.
  - intros (ev & Hin & He). by eapply ending_settles.
  - intros r Hr. split; [unfold prompt_ok in Hp; by rewrite Hr in Hp|].
    intros more. unfold prompt_run. rewrite (run_app (prompt_step env m)). by apply outcome_final.
  - intros c Hc. destruct (success_entered timeout t evs c Hc) as (e1 & e2 & -> & _ & Hn & Ht & Hi).
    exists e1, e2. split_and!; try done. apply Forall_forall. intros ev Hin He.
    destruct (ending_settles e1 p0 ev H0 Hin He) as [r Hr]. unfold p0 in Hr. congruence.
Qed.
End prompt_proofs.

(** ** Bytes survive the wire *)
Definition is_bytes (bs : bytes) : Prop := Forall (fun b => (b < 256)%N) bs.

Definition base64_unit (c : N) : bool := is_alnum c || (c =? 43)%N || (c =? 47)%N.

(** What the code relies on of [btoa] and [atob]: an interface the browser's pair implements. *)
Class Base64 (atob : jstr -> option jstr) (btoa : jstr -> jstr) : Prop := {
  atob_btoa : forall bs, is_bytes bs -> atob (btoa bs) = Some bs;
  btoa_nil : btoa [] = [];
  btoa_shape : forall bs, is_bytes bs -> exists body k, btoa bs = body ++ replicate k 61%N /\ k <= 2 /\
    length (btoa bs) mod 4 = 0 /\ Forall (fun c => base64_unit c = true) body
}.

Section roundtrip.
Context (atob : jstr -> option jstr) (btoa : jstr -> jstr) `{!Base64 atob btoa}.
Local Abbreviation decode := (base64urlToBuffer atob).
Local Abbreviation encode := (bufferToBase64url btoa).

Lemma pad_base64_spec fuel k s :
  k <= fuel -> k < 4 -> (length s + k) mod 4 = 0 -> pad_base64 fuel s = s ++ replicate k 61%N.
Proof.
  revert k s. induction fuel as [|fuel IH]; intros k s Hk Hk4 Hmod; cbn [pad_base64].
  - replace k with 0 by lia. by rewrite app_nil_r.
  - destruct (Nat.eqb_spec (length s mod 4) 0) as [H0|H0].
    + replace k with 0; [by rewrite app_nil_r|].
      rewrite Nat.Div0.add_mod, H0, Nat.add_0_l, Nat.Div0.mod_mod, Nat.mod_small in Hmod; lia.
    + destruct k as [|k]; [by rewrite Nat.add_0_r in Hmod|].
      rewrite (IH k); [by rewrite <- (assoc_L (++))|lia|lia|]. rewrite length_app. cbn [length].
      by rewrite <- Nat.add_assoc.
Qed.

Definition url_unit (c : N) : N := if (c =? 43)%N then 45%N else if (c =? 47)%N then 95%N else c.

Lemma base64_unit_cases c : base64_unit c = true -> c <> 45%N /\ c <> 95%N /\ c <> 61%N.
Proof. unfold base64_unit, is_alnum, is_alpha, is_digit, is_lower, is_upper. lia. Qed.

Lemma to_url body k :
  Forall (fun c => base64_unit c = true) body ->
  replace_char 61 [] (replace_char 47 [95%N] (replace_char 43 [45%N] (body ++ replicate k 61%N)))
  = map url_unit body.
Proof.
  induction 1 as [|c body Hc _ IH]; cbn [app].
  - induction k as [|k IH]; [done|]. unfold replace_char in *. cbn. exact IH.
  - unfold replace_char in *. cbn [flat_map map]. rewrite <- IH. apply base64_unit_cases in Hc as (H1 & H2 & H3).
    unfold url_unit. destruct (N.eqb_spec c 43) as [->|]; [done|]. cbn [app flat_map].
    destruct (N.eqb_spec c 47) as [->|]; [done|]. cbn [app flat_map].
    by destruct (N.eqb_spec c 61).
Qed.

Lemma from_url body :
  Forall (fun c => base64_unit c = true) body ->
  replace_char 95 [47%N] (replace_char 45 [43%N] (map url_unit body)) = body.
Proof.
  induction 1 as [|c body Hc _ IH]; [done|]. unfold replace_char in *. cbn [flat_map map].
  apply base64_unit_cases in Hc as (H1 & H2 & H3).
  assert (Hu : c = 43%N /\ url_unit c = 45%N \/ c = 47%N /\ url_unit c = 95%N \/ url_unit c = c).
  { unfold url_unit. destruct (N.eqb_spec c 43); [auto|]. destruct (N.eqb_spec c 47); auto. }
  destruct Hu as [[-> ->]|[[-> ->]| ->]]; [cbn; by rewrite IH..|].
  rewrite (proj2 (N.eqb_neq c 45)) by done. cbn [app flat_map]. rewrite (proj2 (N.eqb_neq c 95)) by done.
  cbn [app]. by rewrite IH.
Qed.

Lemma map_mod_bytes bs : is_bytes bs -> map (fun c => (c mod 256)%N) bs = bs.
Proof. induction 1 as [|b bs Hb _ IH]; [done|]. cbn [map]. rewrite IH, N.mod_small by done. done. Qed.

Lemma encode_nil bs : is_bytes bs -> encode (Some bs) = [] -> bs = [].
Proof.
  intros Hbs He. destruct (btoa_shape bs Hbs) as (body & k & Hb & Hk & Hmod & Hunits).
  cbn [bufferToBase64url] in He. rewrite Hb, to_url in He by done. apply map_eq_nil in He as ->.
  rewrite Hb in Hmod. cbn [app] in *. rewrite length_replicate, Nat.mod_small in Hmod by lia. subst k.
  cbn [replicate] in Hb. pose proof (atob_btoa bs Hbs) as H1. pose proof (atob_btoa []) as H2.
  rewrite (btoa_nil) in H2. rewrite Hb, H2 in H1 by constructor. congruence.
Qed.

Lemma decode_encode_bytes bs : is_bytes bs -> decode (encode (Some bs)) = Ok bs.
Proof.
  intros Hbs. destruct (btoa_shape bs Hbs) as (body & k & Hb & Hk & Hmod & Hunits).
  pose proof (encode_nil bs Hbs) as Hnil. revert Hnil. cbn [bufferToBase64url]. rewrite Hb, to_url by done.
  intros Hnil. unfold base64urlToBuffer. destruct (map url_unit body) as [|c u] eqn:Eu; [by rewrite Hnil|].
  rewrite <- Eu, from_url by done. rewrite (pad_base64_spec 3 k), <- Hb; [|lia..|].
  - rewrite (atob_btoa) by done. by rewrite map_mod_bytes.
  - rewrite Hb, length_app, length_replicate in Hmod. done.
Qed.

(** Every buffer of a credential holds bytes. *)
Definition credential_bytes (c : credential) : Prop :=
  (forall bs, rawId c = Some bs -> is_bytes bs) /\
  forall r bs, response c = Some r ->
    Some bs ∈ [authenticatorData r; clientDataJSON r; signature r; attestationObject r; userHandle r] -> is_bytes bs.

(** The text sent for a buffer decodes to it. *)
Definition carries (text : jstr) (b : option bytes) : Prop := exists bs, b = Some bs /\ bs <> [] /\ decode text = Ok bs.

Lemma carries_encode b : no_bytes b = false -> (forall bs, b = Some bs -> is_bytes bs) -> carries (encode b) b.
Proof.
  intros Hn Hb. destruct b as [[|x bs]|]; try done. exists (x :: bs). split_and!; try done.
  apply decode_encode_bytes. by apply Hb.
Qed.

Lemma decode_ids (ids : list (bytes * list (jstr * jstr))) :
  Forall (fun d => is_bytes d.1) ids ->
  mapM (decode_descriptor atob) (map (fun d => {| d_id := encode (Some d.1); d_extra := d.2 |}) ids)
  = Ok (map (fun d => {| d_id := d.1; d_extra := d.2 |}) ids).
Proof.
  intros Hall. apply mapM_ok. induction Hall as [|d ids Hd _ IH]; [constructor|]. cbn [map]. constructor; [|done].
  unfold decode_descriptor. cbn [d_id d_extra]. by rewrite decode_encode_bytes.
Qed.

(** The options a server writes for a challenge and a list of known credentials. *)
Definition server_options (ch : bytes) (ids : list (bytes * list (jstr * jstr))) (uid : option bytes) (timeout : number)
    (uv rk : jstr) (att : option jstr) : public_key jstr :=
  {| challenge := encode (Some ch); pk_timeout := timeout;
     credentials := Some (map (fun d => {| d_id := encode (Some d.1); d_extra := d.2 |}) ids);
     user_id := (fun u => encode (Some u)) <$> uid; userVerification := uv; residentKey := rk;
     authenticatorAttachment := att |}.

Lemma decode_server_ids ids :
  Forall (fun d => is_bytes d.1) ids ->
  decode_descriptors atob (Some (map (fun d => {| d_id := encode (Some d.1); d_extra := d.2 |}) ids))
  = Ok (match ids with [] => None | _ => Some (map (fun d => {| d_id := d.1; d_extra := d.2 |}) ids) end).
Proof.
  intros Hall. destruct ids as [|d ids]; [done|]. cbn [decode_descriptors map].
  pose proof (decode_ids (d :: ids) Hall) as H. cbn [map] in H. by rewrite H.
Qed.
Lemma encode_cons bs : is_bytes bs -> bs <> [] -> exists c u, encode (Some bs) = c :: u.
Proof. intros Hbs Hne. destruct (encode (Some bs)) eqn:E; [by apply encode_nil in E|eauto]. Qed.

Lemma server_assertion_options ch ids uid timeout uv rk att :
  is_bytes ch -> ch <> [] -> Forall (fun d => is_bytes d.1) ids ->
  exists a, assertion_options atob (server_options ch ids uid timeout uv rk att) = Ok a /\ challenge a = ch /\
    credentials a = match ids with [] => None | _ => Some (map (fun d => {| d_id := d.1; d_extra := d.2 |}) ids) end.
Proof.
  intros Hch Hne Hids. unfold assertion_options, server_options. cbn [challenge credentials].
  destruct (encode_cons ch Hch Hne) as (c & u & E). rewrite E, <- E, decode_encode_bytes by done.
  cbn [mbind result_bind]. rewrite decode_server_ids by done. cbn [mbind result_bind]. by eexists.
Qed.

Lemma server_registration_options ch ids uid timeout uv rk att :
  is_bytes ch -> ch <> [] -> Forall (fun d => is_bytes d.1) ids -> is_bytes uid -> uid <> [] ->
  exists r, registration_options atob (server_options ch ids (Some uid) timeout uv rk att) = Ok r /\ challenge r = ch /\
    user_id r = Some uid /\
    credentials r = match ids with [] => None | _ => Some (map (fun d => {| d_id := d.1; d_extra := d.2 |}) ids) end.
Proof.
  intros Hch Hne Hids Huid Hune. unfold registration_options, server_options.
  cbn [challenge credentials user_id fmap option_fmap option_map default from_option id].
  destruct (encode_cons ch Hch Hne) as (c & u & E), (encode_cons uid Huid Hune) as (c' & u' & E').
  rewrite E, E', <- E, <- E', !decode_encode_bytes by done. cbn [mbind result_bind].
  rewrite decode_server_ids by done. cbn [mbind result_bind]. by eexists.
Qed.

Lemma incomplete_false m c :
  incomplete m c = false ->
  cred_type c = js "public-key" /\ no_bytes (rawId c) = false /\
  exists r, response c = Some r /\ existsb no_bytes (fields m r) = false.
Proof.
  unfold incomplete. intros H. bool_facts. split; [done|]. split; [done|].
  destruct (response c); [eauto|done].
Qed.

(** A request that resolves carries every buffer the method needs. *)
Lemma request_carries m o json env t evs j :
  (forall c, Answer (Some c) ∈ evs -> credential_bytes c) ->
  run_request m (Ok o) json env t evs = Some (Ok j) ->
  exists c r, Answer (Some c) ∈ evs /\ j = json c /\ response c = Some r /\ cred_type c = js "public-key" /\
    carries (encode (rawId c)) (rawId c) /\ forall b, b ∈ fields m r -> carries (encode b) b.
Proof.
  intros Hbytes Hj. unfold run_request in Hj.
  destruct (outcome (prompt_run env m evs (requestCredential env (pk_timeout o) t))) as [[c|e]|] eqn:Ho;
    simplify_eq/=.
  destruct (success_entered env m (pk_timeout o) t evs c Ho) as (e1 & e2 & -> & _ & _ & _ & Hi).
  destruct (Hbytes c) as [Hraw Hresp]; [apply elem_of_app; right; apply list_elem_of_here|].
  apply incomplete_false in Hi as (Ht & Hn & r & Hr & Hf). exists c, r. split_and!; try done.
  - apply elem_of_app. right. apply list_elem_of_here.
  - by apply carries_encode.
  - intros b Hb. assert (Hnb : no_bytes b = false).
    { destruct (no_bytes b) eqn:E; [|done]. assert (existsb no_bytes (fields m r) = true); [|congruence].
      apply existsb_exists. exists b. split; [by apply list_elem_of_In|done]. }
    apply carries_encode; [done|]. intros bs ->. apply (Hresp r bs Hr). destruct m; simpl in Hb; set_solver.
Qed.
End roundtrip.

Section faithful.
Context (atob : jstr -> option jstr) (btoa : jstr -> jstr) `{!Base64 atob btoa}.

(** What passes between server and authenticator survives its encoding.  The browser is asked with exactly
    the challenge and credential identifiers the server encoded; and whatever request [requestPasskeyAssertion] or
    [requestPasskeyRegistration] resolves to carries, for a credential the browser really gave, its type and
    identifier and - decodably - the bytes of its raw identifier and of every response field the server needs. *)
Theorem passkey_bytes_faithful (ch : bytes) ids uid timeout uv rk att env t evs :
  is_bytes ch -> ch <> [] -> Forall (fun d => is_bytes d.1) ids -> is_bytes uid -> uid <> [] ->
  (forall c, Answer (Some c) ∈ evs -> credential_bytes c) ->
  let pk := server_options btoa ch ids (Some uid) timeout uv rk att in
  let wanted := match ids with [] => None | _ => Some (map (fun d => {| d_id := d.1; d_extra := d.2 |}) ids) end in
  (exists a r, assertion_options atob pk = Ok a /\ challenge a = ch /\ credentials a = wanted /\
     registration_options atob pk = Ok r /\ challenge r = ch /\ user_id r = Some uid /\ credentials r = wanted) /\
  (forall j, requestPasskeyAssertion atob btoa pk env t evs = Some (Ok j) ->
     exists c r, Answer (Some c) ∈ evs /\ response c = Some r /\ j_type j = js "public-key" /\ j_id j = cred_id c /\
       carries atob (j_rawId j) (rawId c) /\ carries atob (j_clientDataJSON j) (clientDataJSON r) /\
       carries atob (j_authenticatorData j) (authenticatorData r) /\ carries atob (j_signature j) (signature r)) /\
  (forall j, requestPasskeyRegistration atob btoa pk env t evs = Some (Ok j) ->
     exists c r, Answer (Some c) ∈ evs /\ response c = Some r /\ j_type j = js "public-key" /\ j_id j = cred_id c /\
       carries atob (j_rawId j) (rawId c) /\ carries atob (j_clientDataJSON j) (clientDataJSON r) /\
       carries atob (j_attestationObject j) (attestationObject r)).
Proof.
  intros Hch Hne Hids Huid Hune Hbytes. cbn zeta.
  destruct (server_assertion_options atob btoa ch ids (Some uid) timeout uv rk att Hch Hne Hids) as (a & Ha & Ha1 & Ha2).
  destruct (server_registration_options atob btoa ch ids uid timeout uv rk att Hch Hne Hids Huid Hune)
    as (r & Hr & Hr1 & Hr2 & Hr3).
  split; [by exists a, r|]. split; intros j.
  - unfold requestPasskeyAssertion. rewrite Ha. intros Hj.
    destruct (request_carries atob btoa Get _ _ _ _ _ _ Hbytes Hj) as (c & rs & Hin & -> & Hrs & Ht & Hraw & Hf).
    exists c, rs. unfold assertion_json. rewrite Hrs. split_and!; try done; apply Hf; set_solver.
  - unfold requestPasskeyRegistration. rewrite Hr. intros Hj.
    destruct (request_carries atob btoa Create _ _ _ _ _ _ Hbytes Hj) as (c & rs & Hin & -> & Hrs & Ht & Hraw & Hf).
    exists c, rs. unfold registration_json. rewrite Hrs. split_and!; try done; apply Hf; set_solver.
Qed.
End faithful.

(** ** A concrete pair
    The textbook encoding, for the instances below. *)
Definition b64_char (n : N) : N :=
  (if n <? 26 then 65 + n else if n <? 52 then 71 + n else if n <? 62 then n - 4 else if n =? 62 then 43 else 47)%N.

Definition b64_value (c : N) : N :=
  (if is_upper c then c - 65 else if is_lower c then c - 71 else if is_digit c then c + 4
   else if c =? 43 then 62 else 63)%N.

Fixpoint btoa_ref (bs : bytes) : jstr :=
  match bs with
  | a :: b :: c :: bs =>
    [b64_char (a / 4); b64_char (a mod 4 * 16 + b / 16); b64_char (b mod 16 * 4 + c / 64); b64_char (c mod 64)]%N
    ++ btoa_ref bs
  | [a; b] => [b64_char (a / 4); b64_char (a mod 4 * 16 + b / 16); b64_char (b mod 16 * 4); 61]%N
  | [a] => [b64_char (a / 4); b64_char (a mod 4 * 16); 61; 61]%N
  | [] => []
  end.

Fixpoint atob_ref (s : jstr) : option jstr :=
  match s with
  | w :: x :: y :: z :: s =>
    let w := b64_value w in
    let x := b64_value x in
    if (y =? 61)%N then Some [w * 4 + x / 16]%N
    else if (z =? 61)%N then Some [w * 4 + x / 16; x mod 16 * 16 + b64_value y / 4]%N
    else (fun r => [w * 4 + x / 16; x mod 16 * 16 + b64_value y / 4; b64_value y mod 4 * 64 + b64_value z]%N ++ r)
           <$> atob_ref s
  | [] => Some []
  | _ => None
  end.

Lemma b64_char_spec n :
  (n < 64)%N -> b64_value (b64_char n) = n /\ base64_unit (b64_char n) = true /\ (b64_char n =? 61)%N = false.
Proof.
  intros Hn. unfold b64_value, b64_char, base64_unit, is_alnum, is_alpha, is_upper, is_lower, is_digit.
  split_and!; repeat case_match; lia.
Qed.

Lemma byte_groups a b c :
  (a < 256 -> b < 256 -> c < 256 ->
   a / 4 < 64 /\ a mod 4 * 16 + b / 16 < 64 /\ b mod 16 * 4 + c / 64 < 64 /\ c mod 64 < 64 /\
   a / 4 * 4 + (a mod 4 * 16 + b / 16) / 16 = a /\
   (a mod 4 * 16 + b / 16) mod 16 * 16 + (b mod 16 * 4 + c / 64) / 4 = b /\
   (b mod 16 * 4 + c / 64) mod 4 * 64 + c mod 64 = c)%N.
Proof.
  intros Ha Hb Hc.
  assert (Hq : forall q r k, (r < k -> (q * k + r) / k = q /\ (q * k + r) mod k = r)%N).
  { intros q r k Hr. rewrite N.div_add_l, N.div_small by lia. rewrite (N.add_comm (q * k)), N.Div0.mod_add, N.mod_small; lia. }
  assert (Hd : forall n k, (0 < k -> n = k * (n / k) + n mod k /\ n mod k < k)%N)
    by (intros n k Hk; split; [apply N.div_mod|apply N.mod_lt]; lia).
  destruct (Hd a 4%N ltac:(lia)) as [Ea La], (Hd b 16%N ltac:(lia)) as [Eb Lb], (Hd c 64%N ltac:(lia)) as [Ec Lc].
  assert (b / 16 < 16)%N by lia. assert (c / 64 < 4)%N by lia.
  destruct (Hq (a mod 4) (b / 16) 16)%N as [-> ->]; [done|]. destruct (Hq (b mod 16) (c / 64) 4)%N as [-> ->]; [done|].
  split_and!; lia.
Qed.

(** Induction three bytes at a time. *)
Lemma triples_ind (P : bytes -> Prop) :
  P [] -> (forall a, P [a]) -> (forall a b, P [a; b]) -> (forall a b c bs, P bs -> P (a :: b :: c :: bs)) ->
  forall bs, P bs.
Proof.
  intros H0 H1 H2 H3. fix IH 1. intros [|a [|b [|c bs]]]; [done|apply H1|apply H2|apply H3, IH].
Qed.

Lemma b64_groups a b c :
  (a < 256)%N -> (b < 256)%N -> (c < 256)%N ->
  Forall (fun n => b64_value (b64_char n) = n /\ base64_unit (b64_char n) = true /\ (b64_char n =? 61)%N = false)
    [a / 4; a mod 4 * 16 + b / 16; b mod 16 * 4 + c / 64; c mod 64]%N.
Proof.
  intros Ha Hb Hc. destruct (byte_groups a b c Ha Hb Hc) as (H1 & H2 & H3 & H4 & _).
  repeat (apply Forall_cons; split; [by apply b64_char_spec|]). apply Forall_nil_2.
Qed.

Lemma atob_btoa_ref bs : is_bytes bs -> atob_ref (btoa_ref bs) = Some bs.
Proof.
  induction bs as [|a|a b|a b c bs IH] using triples_ind; [done|..]; unfold is_bytes; rewrite !Forall_cons.
  - intros [Ha _]. destruct (byte_groups a 0 0 Ha) as (_ & _ & _ & _ & E & _); [lia..|].
    pose proof (b64_groups a 0 0 Ha ltac:(lia) ltac:(lia)) as H. rewrite !Forall_cons in H.
    destruct H as ((V1 & _) & (V2 & _) & _). cbn [btoa_ref atob_ref N.eqb Pos.eqb].
    replace (a mod 4 * 16 + 0 / 16)%N with (a mod 4 * 16)%N in * by (rewrite N.add_0_r; done). by rewrite V1, V2, E.
  - intros (Ha & Hb & _). destruct (byte_groups a b 0 Ha Hb) as (_ & _ & _ & _ & E1 & E2 & _); [lia|].
    pose proof (b64_groups a b 0 Ha Hb ltac:(lia)) as H. rewrite !Forall_cons in H.
    destruct H as ((V1 & _) & (V2 & _) & (V3 & _ & N3) & _). cbn [btoa_ref atob_ref].
    replace (b mod 16 * 4 + 0 / 64)%N with (b mod 16 * 4)%N in * by (rewrite N.add_0_r; done).
    rewrite N3, N.eqb_refl. by rewrite V1, V2, V3, E1, E2.
  - intros (Ha & Hb & Hc & Hbs). specialize (IH Hbs).
    destruct (byte_groups a b c Ha Hb Hc) as (_ & _ & _ & _ & E1 & E2 & E3).
    pose proof (b64_groups a b c Ha Hb Hc) as H. rewrite !Forall_cons in H.
    destruct H as ((V1 & _) & (V2 & _) & (V3 & _ & N3) & (V4 & _ & N4) & _).
    cbn [btoa_ref atob_ref app]. rewrite N3, N4, IH, V1, V2, V3, V4, E1, E2, E3. done.
Qed.

#[export] Instance base64_ref : Base64 atob_ref btoa_ref.
Proof.
  split; [apply atob_btoa_ref|done|].
  intros bs. induction bs as [|a|a b|a b c bs IH] using triples_ind; unfold is_bytes; rewrite ?Forall_cons.
  - intros _. exists [], 0. split_and!; [done|lia|done|constructor].
  - intros [Ha _]. pose proof (b64_groups a 0 0 Ha ltac:(lia) ltac:(lia)) as H. rewrite !Forall_cons in H.
    replace (a mod 4 * 16 + 0 / 16)%N with (a mod 4 * 16)%N in * by (rewrite N.add_0_r; done).
    exists [b64_char (a / 4); b64_char (a mod 4 * 16)], 2. split_and!; [done|lia|done|]. repeat constructor; apply H.
  - intros (Ha & Hb & _). pose proof (b64_groups a b 0 Ha Hb ltac:(lia)) as H. rewrite !Forall_cons in H.
    replace (b mod 16 * 4 + 0 / 64)%N with (b mod 16 * 4)%N in * by (rewrite N.add_0_r; done).
    exists [b64_char (a / 4); b64_char (a mod 4 * 16 + b / 16); b64_char (b mod 16 * 4)], 1.
    split_and!; [done|lia|done|]. repeat constructor; apply H.
  - intros (Ha & Hb & Hc & Hbs). destruct (IH Hbs) as (body & k & E & Hk & Hm & Hu).
    pose proof (b64_groups a b c Ha Hb Hc) as H. rewrite !Forall_cons in H.
    eexists (_ :: _ :: _ :: _ :: body), k. cbn [btoa_ref app]. rewrite E. split_and!; [done|done| |].
    + rewrite <- E. cbn [length]. replace (S (S (S (S (length (btoa_ref bs)))))) with (length (btoa_ref bs) + 1 * 4) by lia.
      by rewrite Nat.Div0.mod_add.
    + repeat (apply Forall_cons; split; [apply H|]). done.
Qed.

Definition sample_credential : credential :=
  {| cred_type := js "public-key"; cred_id := js "AQID"; rawId := Some [1; 2; 3]%N;
     response := Some {| authenticatorData := Some [250; 255; 62]%N; clientDataJSON := Some [123; 125]%N;
                         signature := Some [7]%N; attestationObject := None; userHandle := Some [] |} |}.

Definition sample_env : environment :=
  {| supported := true; insecure := false; signal_aborted := false;
     env_button := Some {| childNodes := [Original 0]; aria_busy := None |} |}.

Definition sample_prompt_events : list prompt_event := [Clock 1000; Countdown; Answer (Some sample_credential); TimedOut].

Lemma passkey_bytes_faithful_witness :
  exists j c r, requestPasskeyAssertion atob_ref btoa_ref (server_options btoa_ref [9; 8; 7; 6]%N [([1; 2; 3]%N, [])]
                  (Some [1]%N) None [] [] None) sample_env 0 sample_prompt_events = Some (Ok j) /\
    j_authenticatorData j = js "-v8-" /\
    response c = Some r /\ carries atob_ref (j_authenticatorData j) (authenticatorData r) /\
    carries atob_ref (j_signature j) (signature r).
Proof.
  assert (Hb : forall bs : bytes, forallb (fun b => N.ltb b 256) bs = true -> is_bytes bs)
    by (intros bs H; apply Forall_forall; intros b Hin%list_elem_of_In; apply N.ltb_lt; by eapply forallb_forall in H).
  assert (Hall : forall c, Answer (Some c) ∈ sample_prompt_events -> credential_bytes c).
  { intros c Hc. apply list_elem_of_In in Hc. destruct Hc as [?|[?|[[= <-]|[?|[]]]]]; try done. split.
    - intros bs [= <-]. by apply Hb.
    - intros r bs [= <-] Hin. apply list_elem_of_In in Hin.
      destruct Hin as [[= <-]|[[= <-]|[[= <-]|[?|[[= <-]|[]]]]]]; try done; by apply Hb. }
  destruct (passkey_bytes_faithful atob_ref btoa_ref [9; 8; 7; 6]%N [([1; 2; 3]%N, [])] [1]%N None [] [] None sample_env
    0 sample_prompt_events (Hb [9; 8; 7; 6]%N eq_refl) ltac:(done)
    ltac:(apply Forall_cons; split; [by apply Hb|apply Forall_nil_2]) (Hb [1]%N eq_refl) ltac:(done) Hall)
    as (_ & Hassert & _).
  eexists. destruct (Hassert _ eq_refl) as (c & r & _ & Hr & _ & _ & _ & _ & Ha & Hs).
  exists c, r. split; [reflexivity|]. split; [by vm_compute|]. done.
Defined.
