(* ===== verification/Captcha.v ===== *)
(** * CAPTCHA challenges

    [captcha.js]: the queue of challenges, the dialog that runs one in a disposable frame, and the single
    replay of a request after the server's explicit denial.  The module is a state machine: a step is what
    runs between two awaits, events are the answers of the network, the consent service and the timers,
    messages of the frame, user actions and the window events that cancel.  Frames and nonces are numbered
    in order of creation (a nonce is 16 random bytes); the message a frame is sent once loaded is left out. *)
From Stdlib Require Import Ascii String.
From S2P Require Import Prelude JsString JsJson.
Local Open Scope nat_scope.

Definition scopes : list jstr :=
  [js "password_login"; js "registration"; js "manual_mail"; js "super_team_create"; js "domain_create";
   js "package_create"; js "anti_abuse"].
Definition providers : list jstr :=
  [js "recaptcha_v2"; js "recaptcha_invisible"; js "recaptcha_v3"; js "turnstile"; js "hcaptcha";
   js "friendlycaptcha"].

(** The messages of the errors thrown. *)
Inductive failure := Cancelled | Unavailable | Changed | Failed | Thrown.

(** ** One dialog *)
Inductive status_text := Verifying | Loading | NeedsConsent | VerificationFailed.

(** The verification under way: awaiting the response, its body, or the consent service. *)
Inductive verification := VNone | VFetch | VRead | VConsent (proof : jstr).

Record dialog := {
  hidden_by_default : bool;
  settled : option (result failure jstr);
  aborted : bool;                       (** [controller.signal.aborted] *)
  frame : option nat;
  nonce : nat;
  frames_made : nat;
  frame_timer : bool;
  verifying : bool;
  verifications : list verification;    (** those started, oldest first *)
  renders : nat;                        (** calls of [render] awaiting the consent service *)
  host_shown : bool;
  frame_height : option Z;
  status : status_text;
  retry_shown : bool;
}.

Definition is_hidden_by_default (provider : jstr) : bool :=
  bool_decide (provider ∈ [js "turnstile"; js "recaptcha_invisible"; js "recaptcha_v3"]).

Definition initial_dialog (provider : jstr) : dialog :=
  let h := is_hidden_by_default provider in
  {| hidden_by_default := h; settled := None; aborted := false; frame := None; nonce := 0; frames_made := 0;
     frame_timer := false; verifying := false; verifications := []; renders := 0; host_shown := negb h;
     frame_height := None; status := if h then Verifying else Loading; retry_shown := false |}.

(** [finish]: the first outcome wins. *)
Definition finish (r : result failure jstr) (d : dialog) : dialog :=
  match settled d with
  | Some _ => d
  | None =>
    {| hidden_by_default := hidden_by_default d; settled := Some r; aborted := aborted d; frame := frame d;
       nonce := nonce d; frames_made := frames_made d; frame_timer := false; verifying := verifying d;
       verifications := verifications d; renders := renders d; host_shown := host_shown d;
       frame_height := frame_height d; status := status d; retry_shown := retry_shown d |}
  end.

(** [controller.abort()]: the listener finishes the dialog. *)
Definition abort (d : dialog) : dialog :=
  let d := finish (Err Cancelled) d in
  {| hidden_by_default := hidden_by_default d; settled := settled d; aborted := true; frame := frame d;
     nonce := nonce d; frames_made := frames_made d; frame_timer := frame_timer d; verifying := verifying d;
     verifications := verifications d; renders := renders d; host_shown := host_shown d;
     frame_height := frame_height d; status := status d; retry_shown := retry_shown d |}.

Definition failed (d : dialog) : dialog :=
  match settled d with
  | Some _ => d
  | None =>
    {| hidden_by_default := hidden_by_default d; settled := None; aborted := aborted d; frame := None;
       nonce := nonce d; frames_made := frames_made d; frame_timer := false; verifying := false;
       verifications := verifications d; renders := renders d; host_shown := false;
       frame_height := frame_height d; status := VerificationFailed; retry_shown := true |}
  end.

Definition set_renders (n : nat) (d : dialog) : dialog :=
  {| hidden_by_default := hidden_by_default d; settled := settled d; aborted := aborted d; frame := frame d;
     nonce := nonce d; frames_made := frames_made d; frame_timer := frame_timer d; verifying := verifying d;
     verifications := verifications d; renders := n; host_shown := host_shown d;
     frame_height := frame_height d; status := status d; retry_shown := retry_shown d |}.

Definition show (host : bool) (st : status_text) (d : dialog) : dialog :=
  {| hidden_by_default := hidden_by_default d; settled := settled d; aborted := aborted d; frame := frame d;
     nonce := nonce d; frames_made := frames_made d; frame_timer := frame_timer d; verifying := verifying d;
     verifications := verifications d; renders := renders d; host_shown := host;
     frame_height := frame_height d; status := st; retry_shown := retry_shown d |}.

Definition busy (d : dialog) : bool :=
  bool_decide (is_Some (frame d)) || verifying d || bool_decide (is_Some (settled d)).

(** [render], up to its await. *)
Definition render (d : dialog) : dialog := if busy d then d else set_renders (S (renders d)) d.

(** A frame with a fresh nonce and a 25 s timer. *)
Definition open_frame (d : dialog) : dialog :=
  {| hidden_by_default := hidden_by_default d; settled := settled d; aborted := aborted d;
     frame := Some (frames_made d); nonce := frames_made d; frames_made := S (frames_made d);
     frame_timer := true; verifying := verifying d; verifications := verifications d;
     renders := renders d; host_shown := negb (hidden_by_default d); frame_height := None;
     status := if hidden_by_default d then Verifying else Loading; retry_shown := false |}.

(** The consent service's answer to a [render]; [None] when it throws. *)
Definition after_consent (allowed : option bool) (d : dialog) : dialog :=
  match renders d with
  | 0 => d
  | S n =>
    let d := set_renders n d in
    match allowed with
    | None => failed d
    | Some false => show false NeedsConsent d
    | Some true => if busy d || aborted d then d else open_frame d
    end
  end.

Inductive message_kind :=
| SizeMessage (height : option Z)               (** [None]: not a finite number *)
| InteractiveMessage
| ErrorMessage
| ExpiredMessage
| CompleteMessage (response : option jstr)      (** [None]: not a string *)
| OtherMessage.

Record message := { source : option nat; same_origin : bool; message_nonce : option nat; kind : message_kind }.

Definition clear_frame_timer (d : dialog) : dialog :=
  {| hidden_by_default := hidden_by_default d; settled := settled d; aborted := aborted d; frame := frame d;
     nonce := nonce d; frames_made := frames_made d; frame_timer := false; verifying := verifying d;
     verifications := verifications d; renders := renders d; host_shown := host_shown d;
     frame_height := frame_height d; status := status d; retry_shown := retry_shown d |}.

Definition resize (height : Z) (d : dialog) : dialog :=
  {| hidden_by_default := hidden_by_default d; settled := settled d; aborted := aborted d; frame := frame d;
     nonce := nonce d; frames_made := frames_made d; frame_timer := frame_timer d; verifying := verifying d;
     verifications := verifications d; renders := renders d; host_shown := host_shown d;
     frame_height := Some height; status := status d; retry_shown := retry_shown d |}.

(** The frame is dropped and its response sent for verification. *)
Definition start_verification (d : dialog) : dialog :=
  {| hidden_by_default := hidden_by_default d; settled := settled d; aborted := aborted d; frame := None;
     nonce := nonce d; frames_made := frames_made d; frame_timer := frame_timer d; verifying := true;
     verifications := verifications d ++ [VFetch]; renders := renders d; host_shown := false; frame_height := frame_height d;
     status := Verifying; retry_shown := retry_shown d |}.

Definition is_Some_eq (o : option nat) (n : nat) : bool := bool_decide (o = Some n).

Definition onMessage (m : message) (d : dialog) : dialog :=
  match settled d, frame d with
  | None, Some f =>
    if is_Some_eq (source m) f && same_origin m && is_Some_eq (message_nonce m) (nonce d) then
      let d := clear_frame_timer d in
      match kind m with
      | SizeMessage (Some h) => if (50 <=? h)%Z && (h <=? 900)%Z then resize h d else d
      | SizeMessage None => d
      | InteractiveMessage => show true Loading d
      | ErrorMessage | ExpiredMessage => failed d
      | CompleteMessage (Some response) =>
        if negb (verifying d) && (length response <=? Z.to_nat 16384) then start_verification d else d
      | CompleteMessage None | OtherMessage => d
      end
    else d
  | _, _ => d
  end.

Definition set_verification (i : nat) (v : verification) (d : dialog) : dialog :=
  {| hidden_by_default := hidden_by_default d; settled := settled d; aborted := aborted d; frame := frame d;
     nonce := nonce d; frames_made := frames_made d; frame_timer := frame_timer d; verifying := verifying d;
     verifications := <[i := v]> (verifications d); renders := renders d; host_shown := host_shown d;
     frame_height := frame_height d; status := status d; retry_shown := retry_shown d |}.

(** The [catch] around the verification. *)
Definition verification_threw (i : nat) (d : dialog) : dialog :=
  let d := set_verification i VNone d in if aborted d then d else failed d.

(** The verification response: [None] when the request failed. *)
Definition after_verify_response (i : nat) (r : option (bool * Z)) (d : dialog) : dialog :=
  match verifications d !! i with
  | Some VFetch =>
    match r with
    | None => verification_threw i d
    | Some (true, _) => set_verification i VRead d
    | Some (false, status) =>
      let d := set_verification i VNone d in
      if (status =? 409)%Z then finish (Err Changed) d else failed d
    end
  | _ => d
  end.

(** Its body: [None] when it cannot be read or parsed.  [current]: [epoch === generation]. *)
Definition after_verify_body (current : bool) (i : nat) (body : option json) (d : dialog) : dialog :=
  match verifications d !! i with
  | Some VRead =>
    match body with
    | None => verification_threw i d
    | Some v =>
      match prop (Some v) "proof" with
      | Err _ => verification_threw i d
      | Ok (Some (JStr proof)) =>
        if (128 <? length proof) || bool_decide (proof = []) then failed (set_verification i VNone d)
        else if negb current || aborted d then abort (set_verification i VNone d)
        else set_verification i (VConsent proof) d
      | Ok _ => failed (set_verification i VNone d)
      end
    end
  | _ => d
  end.

(** The consent service's answer before the proof is accepted. *)
Definition after_verify_consent (i : nat) (allowed : option bool) (d : dialog) : dialog :=
  match verifications d !! i with
  | Some (VConsent proof) =>
    match allowed with
    | None => verification_threw i d
    | Some false => abort (set_verification i VNone d)
    | Some true => finish (Ok proof) (set_verification i VNone d)
    end
  | _ => d
  end.

Inductive dialog_event :=
| ConsentAnswered (allowed : option bool)
| FrameMessage (m : message)
| FrameTimeout
| DialogTimeout
| VerifyResponse (i : nat) (r : option (bool * Z))
| VerifyBody (i : nat) (body : option json)
| VerifyConsent (i : nat) (allowed : option bool)
| RetryClick
| UserAbort.                        (** close, cancel, backdrop, Escape, cookie preferences *)

Definition dialog_step (current : bool) (ev : dialog_event) (d : dialog) : dialog :=
  match ev with
  | ConsentAnswered allowed => after_consent allowed d
  | FrameMessage m => onMessage m d
  | FrameTimeout => if frame_timer d then failed d else d
  | DialogTimeout => finish (Err Failed) d
  | VerifyResponse i r => after_verify_response i r d
  | VerifyBody i body => after_verify_body current i body d
  | VerifyConsent i allowed => after_verify_consent i allowed d
  | RetryClick => render d
  | UserAbort => abort d
  end.

(** ** The queue *)
Record task := { task_id : nat; scope : jstr; epoch : nat; signal_aborted : bool }.

Inductive stage := AwaitMetadata | InDialog (d : dialog).

Record captcha := {
  generation : nat;
  next_id : nat;
  waiting : list task;
  running : option (task * stage);
  pending : nat;
  outcomes : list (nat * result failure jstr);     (** what each caller got, most recent first *)
}.

Definition initial_captcha : captcha :=
  {| generation := 0; next_id := 0; waiting := []; running := None; pending := 0; outcomes := [] |}.

(** [epoch !== generation || signal?.aborted]. *)
Definition stale (gen : nat) (t : task) : bool := negb (epoch t =? gen) || signal_aborted t.

(** What the caller of a settled challenge gets. *)
Definition delivered (gen : nat) (t : task) (r : result failure jstr) : result failure jstr :=
  match r with
  | Ok proof => if stale gen t then Err Cancelled else Ok proof
  | Err e => Err e
  end.

(** The queue moves on: tasks that went stale while waiting fail at once. *)
Fixpoint start_next (ws : list task) (s : captcha) : captcha :=
  match ws with
  | [] => {| generation := generation s; next_id := next_id s; waiting := []; running := None;
             pending := pending s; outcomes := outcomes s |}
  | t :: ws' =>
    if stale (generation s) t then
      start_next ws' {| generation := generation s; next_id := next_id s; waiting := ws'; running := None;
                        pending := pending s - 1; outcomes := (task_id t, Err Cancelled) :: outcomes s |}
    else {| generation := generation s; next_id := next_id s; waiting := ws'; running := Some (t, AwaitMetadata);
            pending := pending s; outcomes := outcomes s |}
  end.

(** The running challenge settles with [r]. *)
Definition settle (t : task) (r : result failure jstr) (s : captcha) : captcha :=
  start_next (waiting s)
    {| generation := generation s; next_id := next_id s; waiting := waiting s; running := None;
       pending := pending s - 1; outcomes := (task_id t, delivered (generation s) t r) :: outcomes s |}.

Definition set_running (r : option (task * stage)) (s : captcha) : captcha :=
  {| generation := generation s; next_id := next_id s; waiting := waiting s; running := r;
     pending := pending s; outcomes := outcomes s |}.

(** A dialog's new state: settled or still open. *)
Definition with_dialog (t : task) (d : dialog) (s : captcha) : captcha :=
  match settled d with
  | Some r => settle t r s
  | None => set_running (Some (t, InDialog d)) s
  end.

(** The first part of [challenge], once the metadata request has settled. *)
Definition after_metadata (t : task) (metadata : option json) (s : captcha) : captcha :=
  match metadata with
  | None => settle t (Err Thrown) s
  | Some v =>
    match prop (Some v) "provider" with
    | Err _ => settle t (Err Thrown) s
    | Ok provider =>
      let asked := match prop_opt (Some v) "scopes" with Some (JObj fields) => field (scope t) fields | _ => None end in
      if json_is provider "disabled" || negb (match asked with Some (JBool true) => true | _ => false end)
      then settle t (Ok []) s
      else
        match provider, prop_opt (Some v) "site_key" with
        | Some (JStr p), Some (JStr _) =>
          if bool_decide (p ∈ providers) then
            if stale (generation s) t then settle t (Err Cancelled) s
            else with_dialog t (render (initial_dialog p)) s
          else settle t (Err Unavailable) s
        | _, _ => settle t (Err Unavailable) s
        end
    end
  end.

(** The common part of [captchaHeaders] and [acquireCaptchaProof]: the scope is known. *)
Definition enqueue (scope : jstr) (s : captcha) : captcha :=
  if 8 <=? pending s then s
  else
    let t := {| task_id := next_id s; scope := scope; epoch := generation s; signal_aborted := false |} in
    let s' := {| generation := generation s; next_id := S (next_id s); waiting := waiting s ++ [t];
                 running := running s; pending := S (pending s); outcomes := outcomes s |} in
    match running s with None => start_next (waiting s') s' | Some _ => s' end.

Definition abort_signal (id : nat) (t : task) : task :=
  if task_id t =? id
  then {| task_id := task_id t; scope := scope t; epoch := epoch t; signal_aborted := true |} else t.

(** [cancelChallenges]: a dialog that is open is aborted. *)
Definition cancelChallenges (s : captcha) : captcha :=
  let s := {| generation := S (generation s); next_id := next_id s; waiting := waiting s; running := running s;
              pending := pending s; outcomes := outcomes s |} in
  match running s with
  | Some (t, InDialog d) => with_dialog t (abort d) s
  | _ => s
  end.

Inductive captcha_event :=
| Enqueue (scope : jstr)
| MetadataArrived (metadata : option json)
| DialogEvent (ev : dialog_event)
| ContextLeft                        (** popstate, pagehide, appNavigation, authChanged, captchaSettingsChanged *)
| PreferencesChanged (optional : bool)
| SignalAborted (id : nat).

Definition captcha_step (ev : captcha_event) (s : captcha) : captcha :=
  match ev with
  | Enqueue scope => if bool_decide (scope ∈ scopes) then enqueue scope s else s
  | MetadataArrived metadata =>
    match running s with Some (t, AwaitMetadata) => after_metadata t metadata s | _ => s end
  | DialogEvent ev =>
    match running s with
    | Some (t, InDialog d) => with_dialog t (dialog_step (epoch t =? generation s) ev d) s
    | _ => s
    end
  | ContextLeft => cancelChallenges s
  | PreferencesChanged optional =>
    match running s with
    | Some (t, InDialog d) => if optional then with_dialog t (render d) s else cancelChallenges s
    | _ => s
    end
  | SignalAborted id =>
    let s := {| generation := generation s; next_id := next_id s; waiting := map (abort_signal id) (waiting s);
                running := running s; pending := pending s; outcomes := outcomes s |} in
    match running s with
    | Some (t, st) =>
      let t' := abort_signal id t in
      match st with
      | InDialog d => if task_id t =? id then with_dialog t' (abort d) s else s
      | AwaitMetadata => set_running (Some (t', AwaitMetadata)) s
      end
    | None => s
    end
  end.

Definition captcha_run (evs : list captcha_event) (s : captcha) : captcha :=
  fold_left (fun s ev => captcha_step ev s) evs s.

(** ** The replay of a denied request *)
Record denial := {
  status_code : Z;
  error_code : option jstr;          (** X-Renop-Error-Code *)
  denied_scope : option jstr;        (** X-Renop-Captcha-Scope *)
}.

(** [captchaHeaders] before the queue: no retry, an error, or a scope to obtain a proof for. *)
Inductive verdict := NoRetry | Refused (f : failure) | ProofNeeded (scope : jstr).

(** [same]: the URL's origin is the page's, [None] when the URL does not parse. *)
Definition captchaHeaders (same : option bool) (r : denial) : verdict :=
  if negb (status_code r =? 428)%Z || negb (bool_decide (error_code r = Some (js "captcha_required"))) then NoRetry
  else
    match same with
    | None => Refused Thrown
    | Some false => NoRetry
    | Some true =>
      match denied_scope r with
      | Some scope => if bool_decide (scope ∈ scopes) then ProofNeeded scope else Refused Unavailable
      | None => Refused Unavailable
      end
    end.

(** Header names in lower case, as [Headers] keeps them. *)
Abbreviation header_map := (gmap jstr jstr).

Section captcha_fetch.
(** A response as the server gives it to the request with these headers, [None] when [fetch] rejects; its
    denial; and what the queue delivers for a scope. *)
Context {response : Type} (send : nat -> header_map -> option response) (denial_of : response -> denial)
  (approval : jstr -> result failure jstr).

Inductive fetch_error := FetchRejected | CaptchaError (f : failure).

(** The result and the headers of every request sent, in order. *)
Definition captchaFetch (same : option bool) (stream_body : bool) (headers : header_map)
    : result fetch_error response * list header_map :=
  match send 0 headers with
  | None => (Err FetchRejected, [headers])
  | Some r =>
    if stream_body then (Ok r, [headers])
    else
      match captchaHeaders same (denial_of r) with
      | NoRetry => (Ok r, [headers])
      | Refused f => (Err (CaptchaError f), [headers])
      | ProofNeeded scope =>
        match approval scope with
        | Err f => (Err (CaptchaError f), [headers])
        | Ok proof =>
          let headers' := match proof with [] => headers | _ => <[js "x-renop-captcha" := proof]> headers end in
          match send 1 headers' with
          | None => (Err FetchRejected, [headers; headers'])
          | Some r' => (Ok r', [headers; headers'])
          end
        end
      end
  end.
End captcha_fetch.

(** ** The dialog *)
Definition proof_sized (p : jstr) : Prop := 1 <= length p <= 128.

Definition dialog_ok (d : dialog) : Prop :=
  forall i p, verifications d !! i = Some (VConsent p) -> proof_sized p.

Lemma finish_same r d : verifications (finish r d) = verifications d /\ renders (finish r d) = renders d.
Proof. unfold finish. by destruct (settled d). Qed.

Lemma failed_same d : verifications (failed d) = verifications d /\ settled (failed d) = settled d.
Proof. unfold failed. destruct (settled d) eqn:E; by rewrite ?E. Qed.

Lemma render_same d : verifications (render d) = verifications d /\ settled (render d) = settled d.
Proof. unfold render. by destruct (busy d). Qed.

Lemma abort_same d : verifications (abort d) = verifications d.
Proof. unfold abort. simpl. apply finish_same. Qed.

Lemma threw_same i d :
  verifications (verification_threw i d) = <[i := VNone]> (verifications d) /\
  settled (verification_threw i d) = settled d.
Proof. unfold verification_threw. case_match; [done|]. by rewrite !(proj1 (failed_same _)), (proj2 (failed_same _)). Qed.

Lemma dialog_ok_insert d i v :
  dialog_ok d -> (forall p, v = VConsent p -> proof_sized p) -> forall j p,
  <[i := v]> (verifications d) !! j = Some (VConsent p) -> proof_sized p.
Proof. intros Hok Hv j p [[-> E]|[_ E]]%list_insert_cases; [by apply Hv|by eapply Hok]. Qed.

(** What a step does to the verifications: nothing, one ends or moves on, or one starts from a message of the
    frame on show. *)
Lemma onMessage_verifications m d :
  verifications (onMessage m d) = verifications d /\ settled (onMessage m d) = settled d \/
  (exists f response, frame d = Some f /\ source m = Some f /\ same_origin m = true /\
     message_nonce m = Some (nonce d) /\ kind m = CompleteMessage (Some response) /\
     length response <= Z.to_nat 16384 /\ verifying d = false /\
     verifications (onMessage m d) = verifications d ++ [VFetch] /\ settled (onMessage m d) = settled d).
Proof.
  unfold onMessage. destruct (settled d) eqn:Hs; [left; by rewrite ?Hs|]. destruct (frame d) as [f|] eqn:Hf; [|left; by rewrite ?Hs].
  destruct (_ && _) eqn:Hg; [|left; by rewrite ?Hs]. unfold is_Some_eq in Hg.
  apply andb_prop in Hg as [[Hsrc%bool_decide_eq_true Hor]%andb_prop Hn%bool_decide_eq_true].
  destruct (kind m) as [[h|]| | | |[response|]|] eqn:Hk; try (left; simpl; by rewrite ?Hs).
  - left. destruct (_ && _); simpl; by rewrite ?Hs.
  - left. rewrite (proj1 (failed_same _)), (proj2 (failed_same _)). simpl. by rewrite ?Hs.
  - left. rewrite (proj1 (failed_same _)), (proj2 (failed_same _)). simpl. by rewrite ?Hs.
  - destruct (_ && _) eqn:Hv; [|left; simpl; by rewrite ?Hs].
    apply andb_prop in Hv as [Hv%negb_true_iff Hlen%Nat.leb_le]. simpl in Hv.
    right. exists f, response. simpl. rewrite Hs. split_and!; done.
Qed.

Lemma dialog_step_ok current ev d : dialog_ok d -> dialog_ok (dialog_step current ev d).
Proof.
  intros Hok. unfold dialog_ok. destruct ev as [allowed|m| | |i r|i body|i allowed| |]; cbn [dialog_step].
  - unfold after_consent. destruct (renders d); [done|]. destruct allowed as [[]|]; [|done|].
    + by destruct (_ || _).
    + by rewrite (proj1 (failed_same _)).
  - destruct (onMessage_verifications m d) as [[-> _]|(f & response & _ & _ & _ & _ & _ & _ & _ & -> & _)]; [done|].
    intros j p [H|[_ H]]%lookup_app_Some; [by eapply Hok|]. by destruct (j - length (verifications d)) as [|[]].
  - destruct (frame_timer d); [|done]. by rewrite (proj1 (failed_same _)).
  - by rewrite (proj1 (finish_same _ _)).
  - unfold after_verify_response. destruct (verifications d !! i) as [[]|]; try done.
    destruct r as [[[] status]|].
    + by apply dialog_ok_insert.
    + case_match; [rewrite (proj1 (finish_same _ _))|rewrite (proj1 (failed_same _))]; by apply dialog_ok_insert.
    + rewrite (proj1 (threw_same _ _)). by apply dialog_ok_insert.
  - unfold after_verify_body. destruct (verifications d !! i) as [[]|]; try done.
    destruct body as [v|]; [|rewrite (proj1 (threw_same _ _)); by apply dialog_ok_insert].
    destruct (prop (Some v) "proof") as [[[| | |proof| |]|]|];
      try (rewrite (proj1 (failed_same _)); by apply dialog_ok_insert).
    + destruct ((128 <? length proof) || bool_decide (proof = [])) eqn:Hlen; [rewrite (proj1 (failed_same _)); by apply dialog_ok_insert|].
      destruct (negb current || aborted d); [rewrite abort_same; by apply dialog_ok_insert|].
      apply dialog_ok_insert; [done|]. intros p [= ->]. apply orb_false_iff in Hlen as [H1 H2].
      apply Nat.ltb_ge in H1. apply bool_decide_eq_false in H2. unfold proof_sized. destruct p; [done|]. simpl in *. lia.
    + rewrite (proj1 (threw_same _ _)). by apply dialog_ok_insert.
  - unfold after_verify_consent. destruct (verifications d !! i) as [[]|]; try done. destruct allowed as [[]|].
    + rewrite (proj1 (finish_same _ _)). by apply dialog_ok_insert.
    + rewrite abort_same. by apply dialog_ok_insert.
    + rewrite (proj1 (threw_same _ _)). by apply dialog_ok_insert.
  - by rewrite (proj1 (render_same _)).
  - by rewrite abort_same.
Qed.

(** An open dialog settles with a proof only when the consent service confirms a verified one. *)
Lemma dialog_step_proof current ev d p :
  settled d = None -> settled (dialog_step current ev d) = Some (Ok p) ->
  exists i, ev = VerifyConsent i (Some true) /\ verifications d !! i = Some (VConsent p).
Proof.
  intros Hs. assert (Hab : forall e, settled e = None -> settled (abort e) = Some (Err Cancelled)).
  { intros e He. unfold abort, finish. simpl. by rewrite He. }
  destruct ev as [allowed|m| | |i r|i body|i allowed| |]; cbn [dialog_step].
  - unfold after_consent. destruct (renders d); [congruence|]. destruct allowed as [[]|].
    + destruct (_ || _); simpl; congruence.
    + simpl. congruence.
    + rewrite (proj2 (failed_same _)). simpl. congruence.
  - destruct (onMessage_verifications m d) as [[_ ->]|(f & response & _ & _ & _ & _ & _ & _ & _ & _ & ->)]; congruence.
  - destruct (frame_timer d); [rewrite (proj2 (failed_same _))|]; congruence.
  - unfold finish. rewrite Hs. done.
  - unfold after_verify_response. destruct (verifications d !! i) as [[]|]; try congruence.
    destruct r as [[[] status]|]; [simpl; congruence| |rewrite (proj2 (threw_same _ _)); congruence].
    case_match; [unfold finish; simpl; by rewrite Hs|rewrite (proj2 (failed_same _)); simpl; congruence].
  - unfold after_verify_body. destruct (verifications d !! i) as [[]|]; try congruence.
    destruct body as [v|]; [|rewrite (proj2 (threw_same _ _)); congruence].
    destruct (prop (Some v) "proof") as [[[| | |proof| |]|]|];
      try (rewrite ?(proj2 (failed_same _)), ?(proj2 (threw_same _ _)); simpl; congruence).
    destruct ((128 <? length proof) || _); [rewrite (proj2 (failed_same _)); simpl; congruence|].
    destruct (negb current || aborted d); [by rewrite Hab|simpl; congruence].
  - unfold after_verify_consent. destruct (verifications d !! i) as [v|] eqn:Hv; [|congruence].
    destruct v; try congruence. destruct allowed as [[]|].
    + unfold finish. simpl. rewrite Hs. simpl. intros [= <-]. eauto.
    + by rewrite Hab.
    + rewrite (proj2 (threw_same _ _)). congruence.
  - rewrite (proj2 (render_same _)). congruence.
  - by rewrite Hab.
Qed.

(** ** The queue *)
Definition running_task (s : captcha) : list task := match running s with Some (t, _) => [t] | None => [] end.

Record captcha_ok (s : captcha) : Prop := {
  ok_pending : pending s = length (running_task s ++ waiting s);
  ok_bound : pending s <= 8;
  ok_order : reverse (map fst (outcomes s)) ++ map task_id (running_task s ++ waiting s) = seq 0 (next_id s);
  ok_idle : running s = None -> waiting s = [];
  ok_dialog : forall t d, running s = Some (t, InDialog d) -> dialog_ok d /\ settled d = None;
}.

Lemma start_next_ok ws s :
  pending s = length ws -> pending s <= 8 ->
  reverse (map fst (outcomes s)) ++ map task_id ws = seq 0 (next_id s) ->
  captcha_ok (start_next ws s).
Proof.
  revert s. induction ws as [|t ws IH]; intros s Hp Hb Hids; cbn [start_next].
  - by split.
  - destruct (stale (generation s) t).
    + simpl in Hp. apply IH; simpl; [lia|lia|]. rewrite reverse_cons, <- Hids, <- (assoc_L (++)). done.
    + by split.
Qed.

Lemma settle_ok t st r s : captcha_ok s -> running s = Some (t, st) -> captcha_ok (settle t r s).
Proof.
  intros [] Hr. unfold running_task in *. rewrite Hr in *. simpl in *. unfold settle.
  apply start_next_ok; simpl; [lia|lia|]. rewrite reverse_cons, <- ok_order0, <- (assoc_L (++)). done.
Qed.

Lemma with_dialog_ok t st d s :
  captcha_ok s -> running s = Some (t, st) -> dialog_ok d -> captcha_ok (with_dialog t d s).
Proof.
  intros Hok Hr Hd. unfold with_dialog. destruct (settled d) eqn:Hs; [by eapply settle_ok|].
  destruct Hok. unfold running_task in *. rewrite Hr in *. split; simpl; try done. by intros t' d' [= <- <-].
Qed.

Lemma initial_dialog_ok p : dialog_ok (initial_dialog p).
Proof. intros i q. simpl. by rewrite lookup_nil. Qed.

Lemma map_abort_ids id ws : map task_id (map (abort_signal id) ws) = map task_id ws.
Proof. rewrite map_map. apply map_ext. intros t. unfold abort_signal. by case_match. Qed.

Lemma same_dialog_ok d d' : verifications d' = verifications d -> dialog_ok d -> dialog_ok d'.
Proof. unfold dialog_ok. by intros ->. Qed.

Lemma captcha_step_ok ev s : captcha_ok s -> captcha_ok (captcha_step ev s).
Proof.
  intros Hok.
  set (next := {| generation := S (generation s); next_id := next_id s; waiting := waiting s; running := running s;
                 pending := pending s; outcomes := outcomes s |}).
  assert (Hnext : captcha_ok next) by (by destruct Hok).
  assert (Hcancel : captcha_ok (cancelChallenges s)).
  { unfold cancelChallenges. fold next. destruct (running next) as [[t [|d]]|] eqn:Hr; [done| |done].
    eapply with_dialog_ok; [done..|]. destruct Hok as [_ _ _ _ Hd]. destruct (Hd t d Hr).
    eapply same_dialog_ok; [apply abort_same|done]. }
  clear next Hnext.
  destruct ev as [scope|metadata|ev| |optional|id]; cbn [captcha_step].
  - case_bool_decide; [|done]. unfold enqueue. destruct (Nat.leb_spec 8 (pending s)); [done|].
    assert (Hseq : 0 :: seq 1 (next_id s) = seq 0 (next_id s) ++ [next_id s]) by apply (seq_S (next_id s) 0).
    destruct Hok. cbn [running waiting]. destruct (running s) as [[t st]|] eqn:Hr.
    + unfold running_task in *. rewrite Hr in *. split; simpl in *.
      * rewrite length_app. simpl. lia.
      * lia.
      * rewrite map_app, Hseq, <- ok_order0, <- (assoc_L (++)). done.
      * done.
      * done.
    + unfold running_task in *. rewrite Hr, (ok_idle0 eq_refl) in *. cbn [app] in *.
      apply start_next_ok; simpl in *; [lia|lia|]. rewrite app_nil_r in ok_order0. by rewrite Hseq, ok_order0.
  - destruct (running s) as [[t [|d]]|] eqn:Hr; [|done..]. unfold after_metadata.
    destruct metadata as [v|]; [|by eapply settle_ok].
    destruct (prop (Some v) "provider") as [provider|]; [|by eapply settle_ok].
    destruct (_ || _); [by eapply settle_ok|].
    destruct provider as [[| | |p| |]|]; try by eapply settle_ok.
    destruct (prop_opt (Some v) "site_key") as [[| | |k| |]|]; try by eapply settle_ok.
    destruct (bool_decide _); [|by eapply settle_ok]. destruct (stale _ _); [by eapply settle_ok|].
    eapply with_dialog_ok; [done..|]. eapply same_dialog_ok; [apply render_same|apply initial_dialog_ok].
  - destruct (running s) as [[t [|d]]|] eqn:Hr; [done| |done]. eapply with_dialog_ok; [done..|].
    apply dialog_step_ok. destruct Hok as [_ _ _ _ Hd]. by destruct (Hd t d Hr).
  - done.
  - destruct (running s) as [[t [|d]]|] eqn:Hr; [done| |done]. destruct optional; [|done].
    eapply with_dialog_ok; [done..|]. destruct Hok as [_ _ _ _ Hd]. destruct (Hd t d Hr).
    eapply same_dialog_ok; [apply render_same|done].
  - set (s' := {| generation := generation s; waiting := map (abort_signal id) (waiting s) |}).
    assert (Hok' : captcha_ok s').
    { destruct Hok. split; simpl; try done.
      - unfold running_task in *. simpl. rewrite length_app, length_map. by rewrite length_app in ok_pending0.
      - unfold running_task in *. simpl. rewrite map_app, map_abort_ids. by rewrite map_app in ok_order0.
      - intros Hr. by rewrite ok_idle0. }
    change (running s) with (running s'). destruct (running s') as [[t st]|] eqn:Hr; [|done].
    destruct st as [|d].
    + destruct Hok'. unfold running_task in *. rewrite Hr in *. split; simpl in *; try done.
      rewrite <- ok_order0. unfold abort_signal. by case_match.
    + case_match; [|done]. destruct Hok' as [H1 H2 H3 H4 Hd]. unfold with_dialog.
      destruct (Hd t d Hr) as [Hdo Hs]. assert (Hse : settled (abort d) = Some (Err Cancelled))
        by (unfold abort, finish; simpl; by rewrite Hs).
      rewrite Hse. unfold settle. unfold running_task in *. rewrite Hr in *. simpl in *.
      apply start_next_ok; simpl; [lia|lia|]. rewrite reverse_cons, <- H3, <- (assoc_L (++)).
      unfold abort_signal. by case_match.
Qed.

(** *** Where a proof comes from *)
Lemma start_next_outcomes ws s id p :
  (id, Ok p) ∈ outcomes (start_next ws s) -> (id, Ok p) ∈ outcomes s.
Proof.
  revert s. induction ws as [|t ws IH]; intros s; cbn [start_next]; [done|].
  destruct (stale _ _); [|done]. intros [[=]|H]%IH%elem_of_cons. done.
Qed.

Lemma settle_outcomes t r s id p :
  (id, Ok p) ∈ outcomes (settle t r s) ->
  (id, Ok p) ∈ outcomes s \/ id = task_id t /\ r = Ok p /\ stale (generation s) t = false.
Proof.
  unfold settle. intros [H|H]%start_next_outcomes%elem_of_cons; [|by left]. right.
  destruct r as [q|e]; simpl in H; [|done]. destruct (stale _ t); [done|]. by injection H as -> ->.
Qed.

Lemma with_dialog_outcomes t d s id p :
  (id, Ok p) ∈ outcomes (with_dialog t d s) ->
  (id, Ok p) ∈ outcomes s \/ id = task_id t /\ settled d = Some (Ok p) /\ stale (generation s) t = false.
Proof.
  unfold with_dialog. destruct (settled d) as [r|]; [|by left].
  intros [H|(-> & -> & H)]%settle_outcomes; [by left|by right].
Qed.

(** The step that hands [p] to caller [id]: the consent service confirms a verified proof in the dialog of a task
    that is neither cancelled nor aborted. *)
Definition accepts (id i : nat) (p : jstr) (ev : captcha_event) (s : captcha) : Prop :=
  exists t d, ev = DialogEvent (VerifyConsent i (Some true)) /\ running s = Some (t, InDialog d) /\
    task_id t = id /\ verifications d !! i = Some (VConsent p) /\ proof_sized p /\
    epoch t = generation s /\ signal_aborted t = false.

Lemma captcha_step_outcomes ev s id p :
  captcha_ok s -> p <> [] -> (id, Ok p) ∈ outcomes (captcha_step ev s) ->
  (id, Ok p) ∈ outcomes s \/ exists i, accepts id i p ev s.
Proof.
  intros Hok Hp.
  assert (Hrej : forall d, settled d = None -> forall q, settled (abort d) <> Some (Ok q)).
  { intros d Hd q. unfold abort, finish. simpl. by rewrite Hd. }
  assert (Hcancel : (id, Ok p) ∈ outcomes (cancelChallenges s) -> (id, Ok p) ∈ outcomes s).
  { unfold cancelChallenges. cbn [running]. destruct (running s) as [[t [|d]]|] eqn:Hr; [done| |done].
    intros [H|(_ & H & _)]%with_dialog_outcomes; [done|]. destruct Hok as [_ _ _ _ Hd].
    destruct (Hd t d Hr) as [_ Hs]. by apply Hrej in H. }
  destruct ev as [scope|metadata|ev| |optional|sid]; cbn [captcha_step].
  - case_bool_decide; [|by left]. unfold enqueue. case_match; [by left|]. cbn [running].
    destruct (running s); [by left|]. intros H'%start_next_outcomes. by left.
  - destruct (running s) as [[t [|d]]|] eqn:Hr; [|by left..]. unfold after_metadata.
    assert (Hset : forall r, match r with Ok q => q = [] | Err _ => True end ->
      (id, Ok p) ∈ outcomes (settle t r s) ->
      (id, Ok p) ∈ outcomes s \/ exists i, accepts id i p (MetadataArrived metadata) s).
    { intros r Hq [H|(_ & -> & _)]%settle_outcomes; [by left|done]. }
    destruct metadata as [v|]; [|by apply Hset].
    destruct (prop (Some v) "provider") as [provider|]; [|by apply Hset].
    destruct (_ || _); [by apply Hset|].
    destruct provider as [[| | |k| |]|]; try by apply Hset.
    destruct (prop_opt (Some v) "site_key") as [[| | |k'| |]|]; try by apply Hset.
    destruct (bool_decide _); [|by apply Hset]. destruct (stale _ _); [by apply Hset|].
    intros [H|(_ & H & _)]%with_dialog_outcomes; [by left|]. by rewrite (proj2 (render_same _)) in H.
  - destruct (running s) as [[t [|d]]|] eqn:Hr; [by left| |by left].
    intros [H|(Hid & H & Hst)]%with_dialog_outcomes; [by left|]. right.
    destruct Hok as [_ _ _ _ Hd]. destruct (Hd t d Hr) as [Hdo Hs].
    destruct (dialog_step_proof _ _ _ _ Hs H) as (i & -> & Hv). exists i, t, d.
    unfold stale in Hst. apply orb_false_iff in Hst as [He Ha].
    apply negb_false_iff, Nat.eqb_eq in He. split_and!; try done. by eapply Hdo.
  - intros H. left. by apply Hcancel.
  - destruct (running s) as [[t [|d]]|] eqn:Hr; [by left| |by left]. destruct optional; [|intros H; left; by apply Hcancel].
    intros [H|(_ & H & _)]%with_dialog_outcomes; [by left|]. rewrite (proj2 (render_same _)) in H.
    destruct Hok as [_ _ _ _ Hd]. destruct (Hd t d Hr) as [_ Hs]. congruence.
  - cbn [running]. destruct (running s) as [[t [|d]]|] eqn:Hr; [by left| |by left]. case_match; [|by left].
    intros [H'|(_ & H' & _)]%with_dialog_outcomes; [by left|]. destruct Hok as [_ _ _ _ Hd].
    destruct (Hd t d Hr) as [_ Hs]. by apply Hrej in H'.
Qed.

Lemma initial_captcha_ok : captcha_ok initial_captcha.
Proof. split; done || (simpl; lia). Qed.

(** The queue: whatever happens, at most eight challenges are pending, at most one runs at a time, every call
    accepted gets exactly one outcome, and outcomes come in the order of the calls; a challenge under way is
    the oldest one without an outcome. *)
Theorem captcha_queue evs :
  let s := captcha_run evs initial_captcha in
  pending s <= 8 /\ pending s = length (running_task s ++ waiting s) /\
  reverse (map fst (outcomes s)) ++ map task_id (running_task s ++ waiting s) = seq 0 (next_id s) /\
  (running s = None -> waiting s = []).
Proof.
  cbv zeta. assert (Hok : captcha_ok (captcha_run evs initial_captcha))
    by (apply (run_invariant captcha_step captcha_ok captcha_step_ok), initial_captcha_ok).
  by destruct Hok.
Qed.

(** *** The history of a verification *)
Local Abbreviation run evs := (captcha_run evs initial_captcha).

(** The dialog of challenge [id] is open. *)
Definition in_dialog (id : nat) (d : dialog) (s : captcha) : Prop :=
  exists t, running s = Some (t, InDialog d) /\ task_id t = id.

(** A message of the frame on show, from the page's origin, with that frame's nonce and a response within the limit,
    while nothing is being verified. *)
Definition completes (m : message) (d : dialog) : Prop :=
  exists f response, frame d = Some f /\ source m = Some f /\ same_origin m = true /\ message_nonce m = Some (nonce d) /\
    kind m = CompleteMessage (Some response) /\ length response <= Z.to_nat 16384 /\ verifying d = false.

(** Such a message started verification [i]. *)
Definition started (evs : list captcha_event) (id i : nat) : Prop :=
  exists pre m post d, evs = pre ++ DialogEvent (FrameMessage m) :: post /\ in_dialog id d (run pre) /\
    length (verifications d) = i /\ completes m d.

(** The server answered the request of verification [i] with success. *)
Definition approved (evs : list captcha_event) (id i : nat) : Prop :=
  exists pre status post d, evs = pre ++ DialogEvent (VerifyResponse i (Some (true, status))) :: post /\
    in_dialog id d (run pre) /\ started pre id i.

(** Its body carries the proof [p]. *)
Definition returned (evs : list captcha_event) (id i : nat) (p : jstr) : Prop :=
  exists pre v post d, evs = pre ++ DialogEvent (VerifyBody i (Some v)) :: post /\ in_dialog id d (run pre) /\
    prop (Some v) "proof" = Ok (Some (JStr p)) /\ approved pre id i.

(** How far verification [i] of the dialog has come. *)
Definition history (evs : list captcha_event) (id i : nat) (v : verification) : Prop :=
  started evs id i /\
  match v with VRead => approved evs id i | VConsent p => returned evs id i p | VNone | VFetch => True end.

Lemma history_snoc evs ev id i v : history evs id i v -> history (evs ++ [ev]) id i v.
Proof.
  assert (Hs : started evs id i -> started (evs ++ [ev]) id i).
  { intros (pre & m & post & d & -> & H). exists pre, m, (post ++ [ev]), d. by rewrite <- app_assoc. }
  intros [H1 H2]. split; [by apply Hs|]. destruct v; try done.
  - destruct H2 as (pre & st & post & d & -> & H). exists pre, st, (post ++ [ev]), d. by rewrite <- app_assoc.
  - destruct H2 as (pre & w & post & d & -> & H). exists pre, w, (post ++ [ev]), d. by rewrite <- app_assoc.
Qed.

(** What one event does to verification [i]. *)
Lemma dialog_step_history current ev d i v : verifications (dialog_step current ev d) !! i = Some v ->
  (exists w, verifications d !! i = Some w /\ (v = w \/ v = VNone)) \/
  (exists m, ev = FrameMessage m /\ completes m d /\ length (verifications d) = i /\ v = VFetch) \/
  (exists status, ev = VerifyResponse i (Some (true, status)) /\ verifications d !! i = Some VFetch /\ v = VRead) \/
  (exists w p, ev = VerifyBody i (Some w) /\ prop (Some w) "proof" = Ok (Some (JStr p)) /\ verifications d !! i = Some VRead /\
     v = VConsent p).
Proof.
  assert (Hold : verifications d !! i = Some v -> exists w, verifications d !! i = Some w /\ (v = w \/ v = VNone)) by eauto.
  assert (Hend : forall j w, verifications d !! j = Some w -> <[j := VNone]> (verifications d) !! i = Some v ->
    exists w, verifications d !! i = Some w /\ (v = w \/ v = VNone)).
  { intros j w Hj [[-> ->]|[_ H]]%list_insert_cases; eauto. }
  destruct ev as [allowed|m| | |j r|j body|j allowed| |]; cbn [dialog_step].
  - unfold after_consent. destruct (renders d); [by left; auto|]. destruct allowed as [[]|]; [|by left; auto|].
    + destruct (_ || _); by left; auto.
    + rewrite (proj1 (failed_same _)). by left; auto.
  - destruct (onMessage_verifications m d) as [[-> _]|(f & response & H1 & H2 & H3 & H4 & H5 & H6 & H7 & -> & _)]; [by left; auto|].
    intros [H|[Hle H]]%lookup_app_Some; [by left; auto|]. right; left. exists m.
    destruct (i - length (verifications d)) as [|[]] eqn:Hi; [|done..]. injection H as <-. split_and!; [done| |lia|done].
    by exists f, response.
  - destruct (frame_timer d); [rewrite (proj1 (failed_same _))|]; by left; auto.
  - rewrite (proj1 (finish_same _ _)). by left; auto.
  - unfold after_verify_response. destruct (verifications d !! j) as [[]|] eqn:Hj; try by left; auto.
    destruct r as [[[] status]|].
    + intros [[-> ->]|[_ H]]%list_insert_cases; [right; right; left; by exists status|left; auto].
    + case_match; [rewrite (proj1 (finish_same _ _))|rewrite (proj1 (failed_same _))]; intros ?; left; by eapply Hend.
    + rewrite (proj1 (threw_same _ _)). intros ?; left; by eapply Hend.
  - unfold after_verify_body. destruct (verifications d !! j) as [[]|] eqn:Hj; try by left; auto.
    destruct body as [w|]; [|rewrite (proj1 (threw_same _ _)); intros ?; left; by eapply Hend].
    destruct (prop (Some w) "proof") as [[[| | |proof| |]|]|] eqn:Hw;
      try (rewrite ?(proj1 (failed_same _)), ?(proj1 (threw_same _ _)); intros ?; left; by eapply Hend).
    destruct ((128 <? length proof) || _); [rewrite (proj1 (failed_same _)); intros ?; left; by eapply Hend|].
    destruct (negb current || aborted d); [rewrite abort_same; intros ?; left; by eapply Hend|].
    intros [[-> ->]|[_ H]]%list_insert_cases; [do 3 right; by exists w, proof|left; auto].
  - unfold after_verify_consent. destruct (verifications d !! j) as [[]|] eqn:Hj; try by left; auto. destruct allowed as [[]|].
    + rewrite (proj1 (finish_same _ _)). intros ?; left; by eapply Hend.
    + rewrite abort_same. intros ?; left; by eapply Hend.
    + rewrite (proj1 (threw_same _ _)). intros ?; left; by eapply Hend.
  - rewrite (proj1 (render_same _)). by left; auto.
  - rewrite abort_same. by left; auto.
Qed.

Lemma start_next_closed ws s t d : running (start_next ws s) <> Some (t, InDialog d).
Proof. revert s. induction ws as [|t' ws IH]; intros s; cbn [start_next]; [done|]. destruct (stale _ _); [apply IH|done]. Qed.

Lemma with_dialog_open t0 d0 s t d : running (with_dialog t0 d0 s) = Some (t, InDialog d) -> t = t0 /\ d = d0.
Proof. unfold with_dialog. destruct (settled d0); [by intros ?%start_next_closed|]. by intros [= <- <-]. Qed.

(** What one event does to the dialog that is open after it. *)
Lemma captcha_step_dialog ev s id d : in_dialog id d (captcha_step ev s) ->
  verifications d = [] \/
  exists d0, in_dialog id d0 s /\
    (verifications d = verifications d0 \/ exists current dev, ev = DialogEvent dev /\ d = dialog_step current dev d0).
Proof.
  intros (t & Hr & <-).
  assert (Hsame : forall t' d', running s = Some (t', InDialog d') -> t' = t -> verifications d = verifications d' ->
    exists d0, in_dialog (task_id t) d0 s /\
      (verifications d = verifications d0 \/ exists current dev, ev = DialogEvent dev /\ d = dialog_step current dev d0)).
  { intros t' d' Hd -> Hv. exists d'. split; [by exists t|by left]. }
  assert (Hcancel : running (cancelChallenges s) = Some (t, InDialog d) -> exists d0, in_dialog (task_id t) d0 s /\
      (verifications d = verifications d0 \/ exists current dev, ev = DialogEvent dev /\ d = dialog_step current dev d0)).
  { unfold cancelChallenges. cbn [running]. destruct (running s) as [[t0 [|d0]]|] eqn:Hs; cbn [running]; [congruence| |congruence].
    intros [-> ->]%with_dialog_open. eapply Hsame; [done..|]. apply abort_same. }
  destruct ev as [scope|metadata|ev| |optional|sid]; cbn [captcha_step] in Hr.
  - case_bool_decide; [|right; by eapply Hsame]. unfold enqueue in Hr. case_match; [right; by eapply Hsame|]. cbn [running] in Hr.
    destruct (running s) as [[t0 st]|] eqn:Hs; [|by apply start_next_closed in Hr]. cbn in Hr. injection Hr as -> ->. right. by eapply Hsame.
  - destruct (running s) as [[t0 [|d0]]|] eqn:Hs; [|rewrite Hs in Hr; injection Hr as -> ->; right; by eapply Hsame|congruence]. unfold after_metadata in Hr.
    assert (Hset : forall r, running (settle t0 r s) <> Some (t, InDialog d)) by (intros r; apply start_next_closed).
    destruct metadata as [v|]; [|by apply Hset in Hr]. destruct (prop (Some v) "provider") as [provider|]; [|by apply Hset in Hr].
    destruct (_ || _); [by apply Hset in Hr|]. destruct provider as [[| | |p| |]|]; try by apply Hset in Hr.
    destruct (prop_opt (Some v) "site_key") as [[| | |k| |]|]; try by apply Hset in Hr.
    destruct (bool_decide _); [|by apply Hset in Hr]. destruct (stale _ _); [by apply Hset in Hr|].
    apply with_dialog_open in Hr as [-> ->]. left. by rewrite (proj1 (render_same _)).
  - destruct (running s) as [[t0 [|d0]]|] eqn:Hs; [congruence| |congruence]. apply with_dialog_open in Hr as [-> ->]. right.
    exists d0. split; [by exists t0|]. right. eauto.
  - right. by apply Hcancel.
  - destruct (running s) as [[t0 [|d0]]|] eqn:Hs; [congruence| |congruence]. right. destruct optional; [|by apply Hcancel].
    apply with_dialog_open in Hr as [-> ->]. eapply Hsame; [done..|]. apply render_same.
  - cbn [running] in Hr. destruct (running s) as [[t0 [|d0]]|] eqn:Hs; [cbn in Hr; congruence| |cbn in Hr; congruence]. right.
    case_match; [apply with_dialog_open in Hr as [-> ->]|cbn in Hr; injection Hr as -> ->; by eapply Hsame].
    exists d0. split; [exists t0; split; [done|]|left; apply abort_same]. unfold abort_signal. by case_match.
Qed.

Lemma captcha_run_snoc evs ev : run (evs ++ [ev]) = captcha_step ev (run evs).
Proof. apply (run_app captcha_step evs [ev]). Qed.

Lemma run_history evs : forall id d i v, in_dialog id d (run evs) -> verifications d !! i = Some v -> history evs id i v.
Proof.
  induction evs as [|ev evs IH] using rev_ind; intros id d i v Hd Hv; [by destruct Hd as (t & ? & _)|].
  rewrite captcha_run_snoc in Hd. destruct (captcha_step_dialog _ _ _ _ Hd) as [E|(d0 & Hd0 & [E|(cur & dev & -> & ->)])].
  - by rewrite E in Hv.
  - apply history_snoc, (IH id d0); [done|]. by rewrite <- E.
  - destruct (dialog_step_history _ _ _ _ _ Hv) as [(w & Hw & [->| ->])|[(m & -> & Hm & Hi & ->)|[(st & -> & Hf & ->)|(w & p & -> & Hp & Hf & ->)]]].
    + apply history_snoc. by eapply IH.
    + apply history_snoc. destruct (IH id d0 i w Hd0 Hw). by split.
    + split; [|done]. by exists evs, m, [], d0.
    + destruct (history_snoc _ (DialogEvent (VerifyResponse i (Some (true, st)))) _ _ _ (IH id d0 i _ Hd0 Hf)) as [H1 _].
      split; [done|]. exists evs, st, [], d0. split_and!; [done..|]. by destruct (IH id d0 i _ Hd0 Hf).
    + destruct (history_snoc _ (DialogEvent (VerifyBody i (Some w))) _ _ _ (IH id d0 i _ Hd0 Hf)) as [H1 _].
      split; [done|]. exists evs, w, [], d0. split_and!; [done..|]. by destruct (IH id d0 i _ Hd0 Hf).
Qed.

(** C31: a caller gets a non-empty proof only if, all in the dialog of its own challenge and in this order: a message of
    the frame on show, from the page's origin, carrying that frame's nonce and a response within the limit, started a
    verification, none being under way; the server answered the request of this verification with success; the body
    of that answer carried exactly this proof, of 1 to 128 units; and the consent service confirmed it at a moment when the
    challenge had neither been cancelled nor aborted. *)
Theorem captcha_proof_earned evs id p : (id, Ok p) ∈ outcomes (run evs) -> p <> [] ->
  exists e1 i ev e2, evs = e1 ++ ev :: e2 /\ accepts id i p ev (run e1) /\ returned e1 id i p.
Proof.
  intros Hin Hp.
  destruct (run_entered captcha_step captcha_ok (fun s => (id, Ok p) ∈ outcomes s) (fun ev s => exists i, accepts id i p ev s)
    (fun _ => True) initial_captcha captcha_step_ok initial_captcha_ok) with (evs := evs)
    as (e1 & ev & e2 & -> & _ & [i Hacc] & _); [| |done|].
  - intros ev' t Ht H. destruct (captcha_step_outcomes ev' t id p Ht Hp H); auto.
  - apply not_elem_of_nil.
  - exists e1, i, ev, e2. split_and!; [done..|]. destruct Hacc as (t & d & _ & Hr & Hid & Hv & _).
    destruct (run_history e1 id d i (VConsent p)) as [_ H]; [by exists t|done|done].
Qed.

(** A run in which the second caller's challenge succeeds. *)
Definition demo_metadata (enabled : bool) : json :=
  JObj [(js "provider", JStr (js "turnstile")); (js "site_key", JStr (js "k"));
        (js "scopes", JObj [(js "registration", JBool enabled)])].

Definition demo_events : list captcha_event :=
  [Enqueue (js "registration"); Enqueue (js "registration"); MetadataArrived (Some (demo_metadata false));
   MetadataArrived (Some (demo_metadata true)); DialogEvent (ConsentAnswered (Some true));
   DialogEvent (FrameMessage {| source := Some 0; same_origin := true; message_nonce := Some 0;
                                kind := CompleteMessage (Some (js "answer")) |});
   DialogEvent (VerifyResponse 0 (Some (true, 200%Z)));
   DialogEvent (VerifyBody 0 (Some (JObj [(js "proof", JStr (js "p"))])));
   DialogEvent (VerifyConsent 0 (Some true))].

Lemma captcha_proof_earned_witness :
  outcomes (captcha_run demo_events initial_captcha) = [(1, Ok (js "p")); (0, Ok [])] /\
  exists e1 i ev e2, demo_events = e1 ++ ev :: e2 /\ accepts 1 i (js "p") ev (captcha_run e1 initial_captcha) /\
    returned e1 1 i (js "p").
Proof.
  assert (E : outcomes (captcha_run demo_events initial_captcha) = [(1, Ok (js "p")); (0, Ok [])])
    by (vm_compute; reflexivity).
  split; [exact E|].
  apply (captcha_proof_earned demo_events 1 (js "p")); [|done]. rewrite E. apply list_elem_of_here.
Defined.

Lemma captchaFetch_two {response} (send : nat -> header_map -> option response) denial_of approval same stream_body headers :
  length (snd (captchaFetch send denial_of approval same stream_body headers)) <= 2.
Proof. unfold captchaFetch. repeat case_match; simpl; lia. Qed.

(** Replays: [captchaFetch] sends the request once, and a second time only when the first answer was the
    server's 428 denial with the CAPTCHA error code, for a known scope, on the page's own origin, the body was
    not a stream, and a proof (or the news that none is needed) was obtained; the replay differs from the
    request only by the proof's header, and every other answer is returned as it came. *)
Theorem captchaFetch_replays_once {response} (send : nat -> header_map -> option response) denial_of approval
    same stream_body headers :
  let '(r, sent) := captchaFetch send denial_of approval same stream_body headers in
  sent = [headers] /\ (forall x, r = Ok x -> send 0 headers = Some x) \/
  exists first scope proof headers',
    sent = [headers; headers'] /\ send 0 headers = Some first /\ stream_body = false /\ same = Some true /\
    status_code (denial_of first) = 428%Z /\ error_code (denial_of first) = Some (js "captcha_required") /\
    denied_scope (denial_of first) = Some scope /\ scope ∈ scopes /\ approval scope = Ok proof /\
    headers' = (if bool_decide (proof = []) then headers else <[js "x-renop-captcha" := proof]> headers) /\
    r = match send 1 headers' with Some x => Ok x | None => Err FetchRejected end.
Proof.
  unfold captchaFetch. destruct (send 0 headers) as [first|] eqn:H0; [|left; done].
  destruct stream_body; [left; split; [done|by intros x [= ->]]|].
  unfold captchaHeaders. destruct (_ || _) eqn:Hd; [left; split; [done|by intros x [= ->]]|].
  apply orb_false_iff in Hd as [Hst%negb_false_iff%Z.eqb_eq Hcode%negb_false_iff%bool_decide_eq_true].
  destruct same as [[]|]; [|left; split; [done|by intros x [= ->]]|left; done].
  destruct (denied_scope (denial_of first)) as [scope|] eqn:Hs; [|left; done].
  case_bool_decide as Hin; [|left; done].
  destruct (approval scope) as [proof|f] eqn:Ha; [|left; done].
  destruct (send 1 _) as [r'|] eqn:H1; right; exists first, scope, proof;
    eexists; (split; [reflexivity|]); split_and!; try done; try (by destruct proof); by rewrite H1.
Qed.
