(* ===== verification/Api.v ===== *)
(** * The API client

    [api.js] on top of [captchaFetch]: default options, authentication failures, the JSON endpoint clients
    and the protobuf calls.  The network, the [Headers] constructor, the CAPTCHA queue's answers, the error
    localiser and the message codecs are parameters; what each call does to the session ([logout]) and sends
    is part of its result. *)
From Stdlib Require Import Ascii String.
From S2P Require Import Prelude JsString JsJson Captcha.
Local Open Scope nat_scope.

Definition PROTO_CONTENT_TYPE : jstr := js "application/x-protobuf".

Inductive payload := Text (body : jstr) | Encoded (body : bytes) | OtherBody (id : nat).
Inductive abort_source := CallerSignal (id : nat) | TimeoutSignal (ms : Z).

(** [RequestInit] options; several abort sources are [AbortSignal.any].  Headers are a plain object. *)
Record options := {
  credentials : option jstr;
  cache : option jstr;
  method : option jstr;
  body : option payload;
  signal : list abort_source;
  headers : gmap jstr jstr;
}.

Definition no_options : options :=
  {| credentials := None; cache := None; method := None; body := None; signal := []; headers := ∅ |}.

Definition getAuthHeaders : gmap jstr jstr := ∅.

(** [{...a, ...b}]: [b] wins. *)
Definition spread (a b : gmap jstr jstr) : gmap jstr jstr := b ∪ a.

(** [lang]: [document.documentElement.lang]. *)
Definition withCredentials (lang : jstr) (o : options) : options :=
  {| credentials := Some (default (js "include") (credentials o));
     cache := Some (default (js "no-store") (cache o));
     method := method o; body := body o; signal := signal o;
     headers := spread (spread {[js "Accept-Language" := str_or lang (js "en-US")]} getAuthHeaders) (headers o) |}.

Inductive api_error :=
| TransportError (e : fetch_error)
| Unauthorized
| Localized (status : Z)
| BodyError.

Record auth_policy := { logoutOnForbidden : bool }.

(** Whether [handleAuthFailure] logs out and throws. *)
Definition handleAuthFailure (status : Z) (policy : auth_policy) : bool :=
  (status =? 401)%Z || ((status =? 403)%Z && logoutOnForbidden policy).

Record response := {
  status : Z;
  denied : denial;                 (** its CAPTCHA headers *)
  json_body : option json;         (** what [json()] gives, [None] when it rejects *)
  raw_body : option bytes;         (** what [arrayBuffer()] gives *)
}.

Definition response_ok (r : response) : bool := (200 <=? status r)%Z && (status r <=? 299)%Z.

(** The outcome of a call, the requests sent (URL, options, header lists of each attempt), and whether the
    session was ended. *)
Record outcome (A : Type) := { value : result api_error A; sent : list (jstr * options * list header_map); logged_out : bool }.
Arguments value {A}. Arguments sent {A}. Arguments logged_out {A}.

Section client.
Context (lang : jstr) (to_headers : gmap jstr jstr -> header_map)
  (network : jstr -> options -> nat -> header_map -> option response)
  (approval : jstr -> result failure jstr) (same_origin : jstr -> option bool)
  (stringify : json -> jstr).

(** [captchaFetch(url, options)]. *)
Definition transport (url : jstr) (o : options) : outcome response :=
  let '(r, hs) := captchaFetch (network url o) denied approval (same_origin url) false (to_headers (headers o)) in
  {| value := match r with Ok x => Ok x | Err e => Err (TransportError e) end; sent := [(url, o, hs)];
     logged_out := false |}.

Definition bind {A B} (m : outcome A) (f : A -> outcome B) : outcome B :=
  match value m with
  | Ok a => let n := f a in
            {| value := value n; sent := sent m ++ sent n; logged_out := logged_out m || logged_out n |}
  | Err e => {| value := Err e; sent := sent m; logged_out := logged_out m |}
  end.

Definition done_with {A} (r : result api_error A) : outcome A := {| value := r; sent := []; logged_out := false |}.

Definition apiRequest (url : jstr) (o : options) (policy : auth_policy) : outcome response :=
  bind (transport url (withCredentials lang o)) (fun r =>
    if handleAuthFailure (status r) policy
    then {| value := Err Unauthorized; sent := []; logged_out := true |}
    else done_with (Ok r)).

Record client_policy := { publicRequest : bool; timeoutMS : Z }.

Definition json_options (payload : json) (o : options) : options :=
  {| credentials := credentials o; cache := cache o; method := Some (default (js "POST") (method o));
     body := Some (Text (stringify payload)); signal := signal o;
     headers := spread {[js "Content-Type" := js "application/json"]} (headers o) |}.

Definition with_timeout (ms : Z) (o : options) : options :=
  if (0 <? ms)%Z then
    {| credentials := credentials o; cache := cache o; method := method o; body := body o;
       signal := signal o ++ [TimeoutSignal ms]; headers := headers o |}
  else o.

(** One call of the client made by [createJSONClient(base, errorKey, policy)]; [None] is [null]. *)
Definition createJSONClient (base : jstr) (policy : client_policy) (path : jstr) (payload : option json) (o : options)
    : outcome (option json) :=
  let o := match payload with Some v => json_options v o | None => o end in
  let o := with_timeout (timeoutMS policy) o in
  let call := if publicRequest policy then transport (base ++ path) (withCredentials lang o)
              else apiRequest (base ++ path) o {| logoutOnForbidden := false |} in
  bind call (fun r =>
    if negb (response_ok r) then done_with (Err (Localized (status r)))
    else if (status r =? 204)%Z then done_with (Ok None)
    else match json_body r with Some v => done_with (Ok (Some v)) | None => done_with (Err BodyError) end).

(** A message type's codec. *)
Section proto.
Context {data : Type} (decode : bytes -> option data).

Definition decodeProtoResponse (r : response) : outcome data :=
  match raw_body r with
  | Some buf => match decode buf with Some d => done_with (Ok d) | None => done_with (Err BodyError) end
  | None => done_with (Err BodyError)
  end.

Definition with_headers (h : gmap jstr jstr) (o : options) : options :=
  {| credentials := credentials o; cache := cache o; method := method o; body := body o; signal := signal o;
     headers := h |}.

Definition fetchProto (url : jstr) (o : options) : outcome (response * option data) :=
  let o' := with_headers (spread {[js "Accept" := PROTO_CONTENT_TYPE]} (headers o)) o in
  bind (transport url (withCredentials lang o')) (fun r =>
    if negb (response_ok r) then done_with (Ok (r, None))
    else bind (decodeProtoResponse r) (fun d => done_with (Ok (r, Some d)))).

(** [encoded]: the request message, encoded, when there is a request type; [decodes]: a response type is given. *)
Definition sendProto (url meth : jstr) (encoded : option bytes) (decodes : bool) (o : options)
    : outcome (response * option data) :=
  let h := spread {[js "Accept" := PROTO_CONTENT_TYPE]} (headers o) in
  let h := match encoded with Some _ => <[js "Content-Type" := PROTO_CONTENT_TYPE]> h | None => h end in
  let o' := {| credentials := credentials o; cache := cache o; method := Some (default meth (method o));
               body := Encoded <$> encoded; signal := signal o; headers := h |} in
  bind (transport url (withCredentials lang o')) (fun r =>
    if negb (response_ok r) || negb decodes then done_with (Ok (r, None))
    else bind (decodeProtoResponse r) (fun d => done_with (Ok (r, Some d)))).

Definition postProto (url : jstr) (encoded : option bytes) (decodes : bool) (o : options) : outcome (response * option data) :=
  sendProto url (js "POST") encoded decodes o.

Definition putProto (url : jstr) (encoded : option bytes) (decodes : bool) (o : options) : outcome (response * option data) :=
  sendProto url (js "PUT") encoded decodes o.
End proto.

(** ** Properties *)
Lemma spread_lookup a b k : spread a b !! k = match b !! k with Some v => Some v | None => a !! k end.
Proof. unfold spread. rewrite lookup_union. by destruct (b !! k), (a !! k). Qed.

Lemma transport_sent url o : exists hs, sent (transport url o) = [(url, o, hs)] /\ length hs <= 2 /\ logged_out (transport url o) = false.
Proof.
  unfold transport. pose proof (captchaFetch_two (network url o) denied approval (same_origin url) false (to_headers (headers o))) as Hl.
  revert Hl. destruct (captchaFetch _ _ _ _ _ _) as [r hs]. simpl. eauto.
Qed.

Lemma bind_done_sent {A B} (m : outcome A) (f : A -> outcome B) :
  (forall a, sent (f a) = []) -> sent (bind m f) = sent m.
Proof. intros Hf. unfold bind. destruct (value m) as [a|]; simpl; [|done]. by rewrite Hf, app_nil_r. Qed.

(** JSON clients: every call makes one exchange (one request, at most one CAPTCHA replay) to the endpoint, with
    credentials and no caching unless the caller says otherwise, the caller's own headers winning over
    [Accept-Language] and, with a payload, over [Content-Type]; a payload makes it a POST unless another
    method is given; a public client never ends the session, and any other ends it exactly on 401; a value
    is returned only for a successful answer, null exactly for 204. *)
Theorem createJSONClient_exchange base policy path payload o :
  let call := createJSONClient base policy path payload o in
  exists o' hs, sent call = [(base ++ path, o', hs)] /\ length hs <= 2 /\
    credentials o' = Some (default (js "include") (credentials o)) /\
    cache o' = Some (default (js "no-store") (cache o)) /\
    (forall k v, headers o !! k = Some v -> headers o' !! k = Some v) /\
    is_Some (headers o' !! js "Accept-Language") /\
    (is_Some payload -> method o' = Some (default (js "POST") (method o)) /\ is_Some (headers o' !! js "Content-Type")) /\
    let answered := value (transport (base ++ path) o') in
    (logged_out call = true <->
       publicRequest policy = false /\ exists r, answered = Ok r /\ status r = 401%Z) /\
    (forall v, value call = Ok v -> exists r, answered = Ok r /\ response_ok r = true /\
       (v = None <-> status r = 204%Z) /\ (v <> None -> v = json_body r)).
Proof.
  cbv zeta. unfold createJSONClient.
  set (o1 := match payload with Some v => json_options v o | None => o end).
  set (o2 := with_timeout (timeoutMS policy) o1).
  assert (Ho2 : credentials o2 = credentials o /\ cache o2 = cache o /\ headers o2 = headers o1 /\ method o2 = method o1).
  { subst o2 o1. unfold with_timeout. by destruct (0 <? _)%Z, payload. }
  destruct Ho2 as (Hcr & Hca & Hh & Hm). exists (withCredentials lang o2).
  destruct (transport_sent (base ++ path) (withCredentials lang o2)) as (hs & Hsent & Hlen & Hlo). exists hs.
  split_and!; [| exact Hlen|by simpl; rewrite Hcr|by simpl; rewrite Hca|..].
  - rewrite bind_done_sent.
    + destruct (publicRequest policy); [done|]. unfold apiRequest. rewrite bind_done_sent; [done|].
      intros r. by case_match.
    + intros r. by repeat case_match.
  - intros k v Hk. simpl. rewrite spread_lookup, Hh. subst o1.
    destruct payload; simpl; [rewrite spread_lookup|]; by rewrite Hk.
  - simpl. rewrite spread_lookup. case_match; [done|]. unfold getAuthHeaders.
    rewrite spread_lookup, lookup_empty, lookup_singleton_eq. done.
  - intros [v ->]. subst o1. simpl. rewrite Hm. split; [done|].
    rewrite spread_lookup, Hh. simpl. rewrite spread_lookup, lookup_singleton_eq. by destruct (headers o !! _).
  - destruct (value (transport (base ++ path) (withCredentials lang o2))) as [r|e] eqn:Hv.
    + unfold bind at 1. destruct (publicRequest policy) eqn:Hp.
      * rewrite Hv. simpl. rewrite Hlo. split; [|intros [[=] _]]. by repeat case_match.
      * unfold apiRequest, bind. rewrite Hv. simpl. unfold handleAuthFailure. simpl. rewrite andb_false_r, orb_false_r.
        destruct (Z.eqb_spec (status r) 401); simpl; rewrite Hlo; simpl.
        -- split; [|done]. intros _. split; [done|]. eauto.
        -- split; [by repeat case_match|]. by intros (_ & r' & [= <-] & ?).
    + unfold bind at 1. destruct (publicRequest policy) eqn:Hp.
      * rewrite Hv. simpl. rewrite Hlo. split; [done|]. intros [[=] _].
      * unfold apiRequest, bind. rewrite Hv. simpl. rewrite Hlo. split; [done|]. by intros (_ & r & [=] & _).
  - intros v Hval. assert (Hr : exists r, value (transport (base ++ path) (withCredentials lang o2)) = Ok r /\
      value (if negb (response_ok r) then done_with (Err (Localized (status r)))
             else if (status r =? 204)%Z then done_with (Ok None)
             else match json_body r with Some v => done_with (Ok (Some v)) | None => done_with (Err BodyError) end) = Ok v).
    { unfold bind at 1 in Hval. destruct (publicRequest policy).
      - destruct (value (transport _ _)) as [r|]; [|done]. eauto.
      - unfold apiRequest, bind in Hval. destruct (value (transport _ _)) as [r|]; [|done].
        destruct (handleAuthFailure _ _); [done|]. eauto. }
    destruct Hr as (r & -> & Hres). exists r. split; [done|].
    destruct (response_ok r); [|done]. split; [done|]. simpl in Hres.
    destruct (Z.eqb_spec (status r) 204).
    + injection Hres as <-. done.
    + destruct (json_body r); [|done]. injection Hres as <-. done.
Qed.
End client.
