(* ===== verification/I18nCatalog.v ===== *)
(** * Translation catalogs: build-time validation, generation and loading

    [scripts/i18n-catalog.mjs] (the scan of the locale fragments and of the translation keys the sources
    use), [scripts/i18n-protobuf.mjs] (the assets written) and [packages/renop-ui/js/i18n-catalog.js] with
    [response-bytes.js] (the browser's loader).  A directory is the list of its entries; a fragment module
    is its default export.  Path functions, digests, the protobuf codec and collation are parameters. *)
From Stdlib Require Import Ascii String.
From S2P Require Import Prelude JsString JsArray JsNumber JsJson BrowserUtils.
Local Open Scope nat_scope.

(** ** File names *)
Definition all_len (lo hi : nat) (p : N -> bool) (s : jstr) : bool :=
  (lo <=? length s) && (length s <=? hi) && forallb p s.

(** [/^[A-Za-z]{2,3}(?:-[A-Za-z0-9]{2,8})+$/]. *)
Definition is_locale_name (s : jstr) : bool :=
  match split 45 s with
  | lang :: (_ :: _) as parts => all_len 2 3 is_alpha lang && forallb (all_len 2 8 is_alnum) (tail parts)
  | _ => false
  end.

(** [/^[a-z][a-z0-9-]*\.js$/]. *)
Definition is_fragment_name (s : jstr) : bool :=
  ends_with (js ".js") s &&
  match slice_drop_last 3 s with
  | c :: rest => is_lower c && forallb (fun c => is_lower c || is_digit c || (c =? 45)%N) rest
  | [] => false
  end.

(** [/^catalog\.<locale>\.generated\.js$/]. *)
Definition is_generated_name (s : jstr) : bool :=
  starts_with (js "catalog.") s && ends_with (js ".generated.js") s && (21 <? length s)
  && is_locale_name (slice_drop_last 13 (slice_from 8 s)).

(** ** Fragments *)
Inductive module_export := Exports (entries : list (jstr * json)) | NotAnObject.

Inductive sub_entry := SubFile (default : module_export) | SubOther.
Inductive dir_entry := EntryFile (default : module_export) | EntryDirectory (entries : list (jstr * sub_entry)) | EntryOther.

Inductive issue :=
| DuplicateKey (locale key fragment : jstr)
| MissingEnglishKey (key : jstr) (locations : list jstr)
| MissingFragments (locale : jstr) (fragments : list jstr)
| ExtraFragments (locale : jstr) (fragments : list jstr)
| MissingKeys (locale fragment : jstr) (keys : list jstr)
| ExtraKeys (locale fragment : jstr) (keys : list jstr)
| PlaceholderMismatches (locale fragment : jstr) (mismatches : list jstr).

Inductive scan_error :=
| DirectoryNotFound
| InvalidEntry (name : jstr)
| ReferenceMissing
| InvalidFragment (locale name : jstr)
| NotAnObjectExport (locale fragment : jstr)
| InvalidTranslation (locale fragment key : jstr)
| CommonMissing
| InvalidReference (issues : list issue)
| ValidationFailed (issues : list issue).

Definition listLocaleFragments (locale : jstr) (entries : list (jstr * sub_entry)) : result scan_error (list jstr) :=
  names ← mapM (fun '(name, e) =>
            match e with
            | SubFile _ => if is_fragment_name name then Ok name else Err (InvalidFragment locale name)
            | SubOther => Err (InvalidFragment locale name)
            end) entries;
  Ok (sort_strings names).

Record descriptor := { d_locale : jstr; d_fragment : jstr; d_translations : list (jstr * jstr) }.

Definition d_keys (d : descriptor) : list jstr := map fst (d_translations d).

Definition loadLocaleFragment (locale fragment : jstr) (default : module_export) : result scan_error descriptor :=
  match default with
  | NotAnObject => Err (NotAnObjectExport locale fragment)
  | Exports entries =>
    translations ← mapM (fun '(key, v) =>
                     match key, v with
                     | _ :: _, JStr value => Ok (key, value)
                     | _, _ => Err (InvalidTranslation locale fragment key)
                     end) entries;
    Ok {| d_locale := locale; d_fragment := fragment; d_translations := translations |}
  end.

Definition is_word (c : N) : bool := is_alnum c || (c =? 95)%N.

(** The scan of [/\{([A-Za-z0-9_]+)\}/g]: [opened] is what has been read since a [{]. *)
Fixpoint placeholder_names (opened : option jstr) (s : jstr) : list jstr :=
  match s with
  | [] => []
  | c :: s' =>
    if (c =? 123)%N then placeholder_names (Some []) s'
    else
      match opened with
      | None => placeholder_names None s'
      | Some name =>
        if is_word c then placeholder_names (Some (name ++ [c])) s'
        else if (c =? 125)%N && nonempty name then name :: placeholder_names None s'
        else placeholder_names None s'
      end
  end.

Definition placeholders (value : jstr) : gset jstr := list_to_set (placeholder_names None value).

Definition equalSets (left right : gset jstr) : bool :=
  (size left =? size right) && forallb (fun v => bool_decide (v ∈ right)) (elements left).

(** The keys of a locale's fragments and the duplicates among them, in order. *)
Fixpoint index_keys (locale fragment : jstr) (keys : list jstr) (combined : gset jstr) : gset jstr * list issue :=
  match keys with
  | [] => (combined, [])
  | key :: keys' =>
    let seen := bool_decide (key ∈ combined) in
    let '(c, found) := index_keys locale fragment keys' (if seen then combined else {[key]} ∪ combined) in
    (c, if seen then DuplicateKey locale key fragment :: found else found)
  end.

Fixpoint index_fragments (locale : jstr) (ds : list descriptor) (combined : gset jstr) : gset jstr * list issue :=
  match ds with
  | [] => (combined, [])
  | d :: ds' =>
    let '(c, found) := index_keys locale (d_fragment d) (d_keys d) combined in
    let '(c', found') := index_fragments locale ds' c in
    (c', found ++ found')
  end.

Definition indexLocale (locale : jstr) (ds : list descriptor) : gset jstr * list issue := index_fragments locale ds ∅.

(** ** Translation keys used by the sources *)
(** A static reference at the start of [s], after the unit [prev]: the key and the length matched. *)
Abbreviation matcher := (option N -> jstr -> option (jstr * nat)).

Definition skip_literal (p : string) (s : jstr) : option jstr :=
  if starts_with (js p) s then Some (drop (String.length p) s) else None.

Fixpoint skip_spaces (s : jstr) : jstr :=
  match s with c :: s' => if is_space c then skip_spaces s' else s | [] => [] end.

Definition is_quote (c : N) : bool := (c =? 39)%N || (c =? 34)%N.
Definition is_key_unit (c : N) : bool := is_word c || (c =? 46)%N || (c =? 58)%N || (c =? 45)%N.

(** A quote, a key of [A-Za-z0-9_.:-] units and the same quote: the key and the rest. *)
Definition quoted_key (s : jstr) : option (jstr * jstr) :=
  match s with
  | q :: r =>
    if is_quote q then
      let (key, r') := span is_key_unit r in
      match key, r' with
      | _ :: _, q' :: rest => if (q' =? q)%N then Some (key, rest) else None
      | _, _ => None
      end
    else None
  | [] => None
  end.

Definition matched (s : jstr) (m : option (jstr * jstr)) : option (jstr * nat) :=
  '(key, rest) ← m; Some (key, length s - length rest).

(** [t\(\s*] and the key. *)
Definition after_t (s : jstr) : option (jstr * jstr) :=
  r ← skip_literal "t(" s; quoted_key (skip_spaces r).

(** [staticTranslationCallPattern]: the start of the text or a unit outside [A-Za-z0-9_$], [t(], white space,
    a quoted key. *)
Definition static_call : matcher := fun prev s =>
  match (match prev with None => after_t s | Some _ => None end) with
  | Some m => matched s (Some m)
  | None =>
    match s with
    | c :: s' => if is_word c || (c =? 36)%N then None else matched s (after_t s')
    | [] => None
    end
  end.

(** [data-i18n(?:-(?:title|placeholder|aria-label))?], longest first: the possible rests. *)
Definition attribute_name (s : jstr) : list jstr :=
  match skip_literal "data-i18n" s with
  | None => []
  | Some r =>
    omap (fun p => skip_literal p r) ["-title"; "-placeholder"; "-aria-label"]%string ++ [r]
  end.

Definition first_some {A B} (f : A -> option B) (l : list A) : option B := head (omap f l).

(** [declarativeTranslationPattern]: at a word boundary, the attribute, [=] among white space, a quoted key. *)
Definition declarative : matcher := fun prev s =>
  if match prev with Some c => is_word c | None => false end then None
  else
    matched s (first_some (fun r => r' ← skip_literal "=" (skip_spaces r); quoted_key (skip_spaces r')) (attribute_name s)).

(** [declarativeTranslationObjectPattern]: the attribute in quotes, [:] among white space, a quoted key. *)
Definition declarative_object : matcher := fun _ s =>
  match s with
  | q :: s' =>
    if is_quote q then
      matched s (first_some (fun r =>
        match r with
        | q' :: r' => if is_quote q' then r'' ← skip_literal ":" (skip_spaces r'); quoted_key (skip_spaces r'') else None
        | [] => None
        end) (attribute_name s'))
    else None
  | [] => None
  end.

(** The references in a text, with the line each match starts on; [skip] units are left of the last match. *)
Fixpoint references_from (m : matcher) (skip : nat) (prev : option N) (line : nat) (s : jstr) : list (jstr * nat) :=
  match s with
  | [] => []
  | c :: s' =>
    let line' := if (c =? 10)%N then S line else line in
    match skip with
    | S k => references_from m k (Some c) line' s'
    | 0 =>
      match m prev s with
      | Some (key, len) => (key, line) :: references_from m (len - 1) (Some c) line' s'
      | None => references_from m 0 (Some c) line' s'
      end
    end
  end.

(** [references]: each key with the places that use it, in order of discovery. *)
Abbreviation reference_index := (list (jstr * list jstr)).

Fixpoint add_reference (key place : jstr) (refs : reference_index) : reference_index :=
  match refs with
  | [] => [(key, [place])]
  | (k, ps) :: refs' =>
    if bool_decide (k = key) then (k, if bool_decide (place ∈ ps) then ps else ps ++ [place]) :: refs'
    else (k, ps) :: add_reference key place refs'
  end.

Definition indexTranslationPattern (m : matcher) (source file : jstr) (refs : reference_index) : reference_index :=
  fold_left (fun refs '(key, line) => add_reference key (file ++ js ":" ++ show_Z (Z.of_nat line)) refs)
    (references_from m 0 None 1 source) refs.

(** A source root on disk. *)
Inductive source_tree :=
| SourceFile (text : jstr)
| SourceDirectory (entries : list (jstr * source_tree))
| SourceOther
| SourceMissing.

Definition ignoredSourceDirectories : list jstr := [js "i18n"; js "proto"].

Definition is_directory_tree (t : source_tree) : bool := match t with SourceDirectory _ => true | _ => false end.

Section paths.
(** [path.join], and the label [path.relative] gives (with forward slashes). *)
Context (join_path : jstr -> jstr -> jstr) (relative : jstr -> jstr -> jstr).

Fixpoint collectTranslationSources (path : jstr) (t : source_tree) : list (jstr * jstr) :=
  match t with
  | SourceFile text => if ends_with (js ".js") path || ends_with (js ".html") path then [(path, text)] else []
  | SourceDirectory entries =>
    flat_map (fun '(name, t') =>
      if is_directory_tree t' && bool_decide (name ∈ ignoredSourceDirectories) then []
      else collectTranslationSources (join_path path name) t') entries
  | SourceOther | SourceMissing => []
  end.

(** [new Set] of paths, sorted. *)
Fixpoint dedup_paths (files : list (jstr * jstr)) (seen : list jstr) : list (jstr * jstr) :=
  match files with
  | [] => []
  | (p, text) :: files' =>
    if bool_decide (p ∈ seen) then dedup_paths files' seen else (p, text) :: dedup_paths files' (p :: seen)
  end.

Definition source_files (roots : list (jstr * source_tree)) : list (jstr * jstr) :=
  array_sort (fun a b => unit_order (fst a) (fst b))
    (dedup_paths (flat_map (fun '(path, t) => collectTranslationSources path t) roots) []).

Definition source_label (roots : list (jstr * source_tree)) (path : jstr) : jstr :=
  match roots with
  | (root, _) :: _ =>
    if bool_decide (root = []) then path else str_or (replace_char 92 (js "/") (relative root path)) path
  | [] => path
  end.

Definition source_references (roots : list (jstr * source_tree)) : reference_index :=
  fold_left (fun refs '(path, text) =>
    let label := source_label roots path in
    indexTranslationPattern declarative_object text label
      (indexTranslationPattern declarative text label (indexTranslationPattern static_call text label refs)))
    (source_files roots) [].

(** The issues found and the number of keys referenced. *)
Definition validateTranslationReferences (roots : list (jstr * source_tree)) (referenceKeys : gset jstr)
    : list issue * nat :=
  let references := source_references roots in
  (omap (fun '(key, locations) =>
     if bool_decide (key ∈ referenceKeys) then None else Some (MissingEnglishKey key (sort_strings locations))) references,
   length references).
End paths.

(** ** The scan *)
Record scan_options := { referenceLocale : jstr; catalogName : jstr; flat : bool }.

(** The locale an entry of the directory names, [None] for a generated catalog to skip. *)
Definition entry_locale (o : scan_options) (e : jstr * dir_entry) : result scan_error (option jstr) :=
  let '(name, kind) := e in
  let is_file := match kind with EntryFile _ => true | _ => false end in
  let is_dir := match kind with EntryDirectory _ => true | _ => false end in
  if is_file && (bool_decide (name = catalogName o) || is_generated_name name) then Ok None
  else
    let locale := if flat o && ends_with (js ".js") name then slice_drop_last 3 name else name in
    if (if flat o then negb is_file || negb (ends_with (js ".js") name) else negb is_dir) || negb (is_locale_name locale)
    then Err (InvalidEntry name)
    else Ok (Some locale).

Definition find_entry (name : jstr) (dir : list (jstr * dir_entry)) : option dir_entry :=
  snd <$> List.find (fun e => bool_decide (fst e = name)) dir.

(** The fragment names of a locale, and the modules behind them. *)
Definition locale_fragments (o : scan_options) (dir : list (jstr * dir_entry)) (locale : jstr)
    : result scan_error (list (jstr * module_export)) :=
  if flat o then
    match find_entry (locale ++ js ".js") dir with
    | Some (EntryFile m) => Ok [(js "common.js", m)]
    | _ => Ok [(js "common.js", NotAnObject)]
    end
  else
    match find_entry locale dir with
    | Some (EntryDirectory entries) =>
      names ← listLocaleFragments locale entries;
      Ok (map (fun name => (name, match List.find (fun e => bool_decide (fst e = name)) entries with
                                  | Some (_, SubFile m) => m | _ => NotAnObject end)) names)
    | _ => Ok []
    end.

Definition find_descriptor (fragment : jstr) (ds : list descriptor) : option descriptor :=
  List.find (fun d => bool_decide (d_fragment d = fragment)) ds.

Definition translation_of (key : jstr) (d : descriptor) : option jstr :=
  snd <$> List.find (fun e => bool_decide (fst e = key)) (d_translations d).

Definition show_placeholders (s : gset jstr) : jstr := js "{" ++ join (js ",") (sort_strings (elements s)) ++ js "}".

(** One key of the reference fragment against the locale's fragment: missing, a mismatch, or fine. *)
Inductive key_verdict := KeyMissing | KeyMismatch (text : jstr) | KeyFine.

Definition compare_key (expected actual : descriptor) (key : jstr) : key_verdict :=
  match translation_of key actual with
  | None => KeyMissing
  | Some value =>
    let e := placeholders (default [] (translation_of key expected)) in
    let a := placeholders value in
    if equalSets e a then KeyFine
    else KeyMismatch (key ++ js " (" ++ show_placeholders e ++ js " != " ++ show_placeholders a ++ js ")")
  end.

Definition optional_issue (l : list jstr) (mk : list jstr -> issue) : list issue :=
  match l with [] => [] | _ => [mk l] end.

(** Missing keys, extra keys and placeholder mismatches of one fragment. *)
Definition compare_fragment (locale fragment : jstr) (expected actual : descriptor) : list issue :=
  let missing := omap (fun k => match compare_key expected actual k with KeyMissing => Some k | _ => None end) (d_keys expected) in
  let extra := List.filter (fun k => negb (bool_decide (k ∈ d_keys expected))) (d_keys actual) in
  let mismatches := omap (fun k => match compare_key expected actual k with KeyMismatch t => Some t | _ => None end) (d_keys expected) in
  optional_issue missing (fun l => MissingKeys locale fragment (sort_strings l))
  ++ optional_issue extra (fun l => ExtraKeys locale fragment (sort_strings l))
  ++ optional_issue mismatches (fun l => PlaceholderMismatches locale fragment (sort_strings l)).

Definition compare_locale (locale : jstr) (reference ds : list descriptor) : list issue :=
  let expected := map d_fragment reference in
  let fragments := map d_fragment ds in
  optional_issue (List.filter (fun f => negb (bool_decide (f ∈ fragments))) expected) (MissingFragments locale)
  ++ optional_issue (List.filter (fun f => negb (bool_decide (f ∈ expected))) fragments) (ExtraFragments locale)
  ++ snd (indexLocale locale ds)
  ++ flat_map (fun e =>
       match find_descriptor (d_fragment e) ds with
       | Some a => compare_fragment locale (d_fragment e) e a
       | None => []
       end) reference.

Record scan := {
  scan_locales : list jstr;
  referenceFragments : list jstr;
  fragmentsByLocale : list (jstr * list descriptor);
  keyCount : nat;
  referenceCount : nat;
}.

Section scan.
Context (join_path relative : jstr -> jstr -> jstr).

(** The comparison of all locales with the reference, once everything is loaded. *)
Definition check_catalogs (o : scan_options) (roots : list (jstr * source_tree)) (catalogs : list (jstr * list descriptor))
    (reference : list descriptor) : result scan_error scan :=
  if negb (bool_decide (js "common.js" ∈ map d_fragment reference)) then Err CommonMissing
  else
    let '(referenceKeys, dups) := indexLocale (referenceLocale o) reference in
    if negb (length dups =? 0) then Err (InvalidReference dups)
    else
      let '(missing, referenceCount) := validateTranslationReferences join_path relative roots referenceKeys in
      let issues := missing ++ flat_map (fun '(locale, ds) =>
        if bool_decide (locale = referenceLocale o) then [] else compare_locale locale reference ds) catalogs in
      if negb (length issues =? 0) then Err (ValidationFailed issues)
      else Ok {| scan_locales := map fst catalogs; referenceFragments := map d_fragment reference;
                 fragmentsByLocale := catalogs; keyCount := size referenceKeys; referenceCount := referenceCount |}.

(** [dir]: [None] when the directory does not exist; [order]: the order in which the fragment imports settle. *)
Definition scanI18nCatalog (o : scan_options) (dir : option (list (jstr * dir_entry))) (order : list nat)
    (roots : list (jstr * source_tree)) : result scan_error scan :=
  match dir with
  | None => Err DirectoryNotFound
  | Some entries =>
    named ← mapM (entry_locale o) entries;
    let locales := sort_strings (omap id named) in
    if negb (bool_decide (referenceLocale o ∈ locales)) then Err ReferenceMissing
    else
      fragments ← mapM (fun l => fs ← locale_fragments o entries l; Ok (l, fs)) locales;
      loaded ← promise_all order
        (flat_map (fun '(l, fs) => map (fun '(name, m) => loadLocaleFragment l name m) fs) fragments);
      let catalogs := map (fun l => (l, List.filter (fun d => bool_decide (d_locale d = l)) loaded)) locales in
      check_catalogs o roots catalogs (default [] (snd <$> List.find (fun e => bool_decide (fst e = referenceLocale o)) catalogs))
  end.
End scan.

(** ** The assets *)
(** [Object.assign(merged, translations)] over the fragments. *)
Definition merge_fragments (ds : list descriptor) : gmap jstr jstr :=
  fold_left (fun m d => fold_left (fun m '(k, v) => <[k := v]> m) (d_translations d) m) ds ∅.

Record loader_config := { index_url : jstr; revision : jstr; locale_urls : list (jstr * jstr) }.

Inductive generate_error := EnglishMissing | InvalidValidatedLocale (locale : jstr).

Section assets.
Context `{Collation} (digest_keys : list jstr -> jstr) (digest : bytes -> jstr)
  (encode_keys : jstr -> list jstr -> bytes) (encode_catalog : jstr -> jstr -> list jstr -> bytes).

(** [assets/i18n/<name>-<digest>.pb]; the URL has a leading slash. *)
Definition asset_path (name : jstr) (data : bytes) : jstr :=
  js "assets/i18n/" ++ name ++ js "-" ++ slice 0 20 (digest data) ++ js ".pb".

Definition asset_url (path : jstr) : jstr := js "/" ++ path.

Definition sorted_keys (m : gmap jstr jstr) : list jstr := sort_strings (map fst (map_to_list m)).

(** The loop over locales; the assets written so far, and the locales' URLs. *)
Fixpoint generate_locales (rev : jstr) (keys : list jstr) (catalogs : list (jstr * gmap jstr jstr))
    (assets : gmap jstr bytes) (urls : list (jstr * jstr))
    : result generate_error (gmap jstr bytes * list (jstr * jstr)) :=
  match catalogs with
  | [] => Ok (assets, urls)
  | (locale, entries) :: rest =>
    match mapM (fun k => entries !! k) keys with
    | Some values =>
      if size entries =? length keys then
        let data := encode_catalog locale rev values in
        let path := asset_path locale data in
        generate_locales rev keys rest (<[path := data]> assets) (urls ++ [(locale, asset_url path)])
      else Err (InvalidValidatedLocale locale)
    | None => Err (InvalidValidatedLocale locale)
    end
  end.

Definition generateLocaleAssets (catalogs : list (jstr * gmap jstr jstr))
    : result generate_error (gmap jstr bytes * loader_config) :=
  match snd <$> List.find (fun e => bool_decide (fst e = js "en-US")) catalogs with
  | None => Err EnglishMissing
  | Some english =>
    let keys := sorted_keys english in
    let rev := digest_keys keys in
    let data := encode_keys rev keys in
    let path := asset_path (js "keys") data in
    '(assets, urls) ← generate_locales rev keys (array_sort (fun a b => locale_compare (fst a) (fst b)) catalogs)
                        {[path := data]} [];
    Ok (assets, {| index_url := asset_url path; revision := rev; locale_urls := urls |})
  end.

(** [generateI18nCatalog] after its scan. *)
Definition generateI18nCatalog (s : scan) : result generate_error (gmap jstr bytes * loader_config) :=
  generateLocaleAssets (map (fun '(locale, ds) => (locale, merge_fragments ds)) (fragmentsByLocale s)).
End assets.

(** ** The loader *)
(** [2 << 20]. *)
Definition maxCatalogBytes : nat := N.to_nat 2097152.
Definition maxKeys : nat := N.to_nat 20000.

(** A response of [fetch]; [body]: the chunks read before the stream ends or ([false]) breaks. *)
Record http_response := {
  http_ok : bool;
  contentType : option jstr;
  contentLength : option jstr;
  stream : option (list bytes * bool);
}.

Definition media_type `{UnicodeCase} (r : http_response) : jstr :=
  to_lower (trim (default [] (head (split 59 (default [] (contentType r)))))).

(** The reading loop: the chunks kept, [None] once the limit is passed. *)
Fixpoint read_chunks (maxBytes length_read : nat) (chunks : list bytes) : option (list bytes) :=
  match chunks with
  | [] => Some []
  | c :: chunks' =>
    if maxBytes <? length_read + length c then None
    else (fun l => c :: l) <$> read_chunks maxBytes (length_read + length c) chunks'
  end.

Definition declared_too_long (r : http_response) (maxBytes : nat) : bool :=
  match contentLength r with
  | None => false
  | Some s => match Number s with Fin m e => double_lt (Fin (Z.of_nat maxBytes) 0) (Fin m e) | _ => false end
  end.

Definition readResponseBytes `{UnicodeCase} (r : http_response) (types : list jstr) (maxBytes : nat) : option bytes :=
  if negb (http_ok r) || negb (bool_decide (media_type r ∈ types)) || declared_too_long r maxBytes then None
  else
    match stream r with
    | Some (chunks, true) =>
      l ← read_chunks maxBytes 0 chunks;
      Some (copy_chunks (zeroed (total_length l)) 0 l)
    | _ => None
    end.

Section loader.
Context `{UnicodeCase} (decode_keys : bytes -> option (jstr * list jstr))
  (decode_catalog : bytes -> option (jstr * jstr * list jstr)).

Definition asset_types : list jstr :=
  [js "application/x-protobuf"; js "application/protobuf"; js "application/octet-stream"].

Definition fetchBytes (net : jstr -> option http_response) (url : jstr) : option bytes :=
  r ← net url; readResponseBytes r asset_types maxCatalogBytes.

Fixpoint distinct (l : list jstr) : bool :=
  match l with [] => true | k :: l' => negb (bool_decide (k ∈ l')) && distinct l' end.

Definition loadKeys (net : jstr -> option http_response) (c : loader_config) : option (list jstr) :=
  data ← fetchBytes net (index_url c);
  '(rev, keys) ← decode_keys data;
  if negb (bool_decide (rev = revision c)) || (maxKeys <? length keys) || negb (distinct keys) then None
  else Some keys.

(** [keys.forEach((key, index) => entries[key] = values[index])]. *)
Definition dictionary (keys values : list jstr) : gmap jstr jstr := list_to_map (zip keys values).

Definition loadLocale (net : jstr -> option http_response) (c : loader_config) (locale : jstr) : option (gmap jstr jstr) :=
  url ← snd <$> List.find (fun e => bool_decide (fst e = locale)) (locale_urls c);
  keys ← loadKeys net c;
  data ← fetchBytes net url;
  '(l, rev, values) ← decode_catalog data;
  if negb (bool_decide (l = locale)) || negb (bool_decide (rev = revision c)) || negb (length values =? length keys)
  then None
  else Some (dictionary keys values).
End loader.

(** ** What a validated scan means *)
Lemma equalSets_spec left right : equalSets left right = true <-> left = right.
Proof.
  unfold equalSets. rewrite andb_true_iff, Nat.eqb_eq, forallb_forall. split.
  - intros [Hsize Hall]. apply set_subseteq_size_eq; [|by rewrite Hsize].
    intros v Hv. apply elem_of_elements, list_elem_of_In, Hall, bool_decide_eq_true in Hv. done.
  - intros ->. split; [done|]. intros v Hv. apply bool_decide_eq_true. by apply list_elem_of_In, elem_of_elements in Hv.
Qed.

Definition all_keys (ds : list descriptor) : list jstr := concat (map d_keys ds).

Lemma index_keys_spec locale fragment keys combined :
  let '(c, found) := index_keys locale fragment keys combined in
  (forall k, k ∈ c <-> k ∈ combined \/ k ∈ keys) /\
  (found = [] <-> NoDup keys /\ forall k, k ∈ keys -> k ∉ combined).
Proof.
  revert combined. induction keys as [|key keys IH]; intros combined; cbn [index_keys].
  - split; [set_solver|]. split; [|done]. intros _. split; [constructor|]. intros k Hk. by apply not_elem_of_nil in Hk.
  - case_bool_decide as Hin.
    + specialize (IH combined). destruct (index_keys locale fragment keys combined) as [c found]. destruct IH as [IHc _].
      split; [set_solver|]. split; [done|]. intros [_ H]. exfalso. apply (H key); [apply list_elem_of_here|done].
    + specialize (IH ({[key]} ∪ combined)).
      destruct (index_keys locale fragment keys ({[key]} ∪ combined)) as [c found]. destruct IH as [IHc IHf].
      split; [set_solver|]. rewrite IHf, NoDup_cons. split.
      * intros [Hnd Hk]. split_and!; [|done|set_solver]. intros Hkk. by apply (Hk key Hkk), elem_of_union_l, elem_of_singleton.
      * intros [[Hkk Hnd] Hk]. split; [done|]. intros k Hk' [->%elem_of_singleton|Hc]%elem_of_union; [done|].
        eapply Hk; [by apply list_elem_of_further|done].
Qed.

Lemma index_fragments_spec locale ds combined :
  let '(c, found) := index_fragments locale ds combined in
  (forall k, k ∈ c <-> k ∈ combined \/ k ∈ all_keys ds) /\
  (found = [] <-> NoDup (all_keys ds) /\ forall k, k ∈ all_keys ds -> k ∉ combined).
Proof.
  revert combined. induction ds as [|d ds IH]; intros combined; cbn [index_fragments].
  - split; [set_solver|]. split; [|done]. intros _. split; [constructor|]. intros k Hk. by apply not_elem_of_nil in Hk.
  - pose proof (index_keys_spec locale (d_fragment d) (d_keys d) combined) as Hk.
    destruct (index_keys _ _ _ _) as [c found]. destruct Hk as [Hc Hf].
    specialize (IH c). destruct (index_fragments locale ds c) as [c' found']. destruct IH as [IHc IHf].
    unfold all_keys. cbn [map concat]. fold (all_keys ds).
    split; [intros k; rewrite IHc, Hc, elem_of_app; tauto|].
    rewrite app_nil, Hf, IHf, NoDup_app. setoid_rewrite Hc. set_solver.
Qed.

Lemma indexLocale_spec locale ds :
  (forall k, k ∈ fst (indexLocale locale ds) <-> k ∈ all_keys ds) /\
  (snd (indexLocale locale ds) = [] <-> NoDup (all_keys ds)).
Proof.
  unfold indexLocale. pose proof (index_fragments_spec locale ds ∅) as H.
  destruct (index_fragments _ _ _) as [c found]. destruct H as [Hc Hf]. simpl. split; [set_solver|]. set_solver.
Qed.

(** A locale's fragments against the reference: the same fragments, no key twice, and in each fragment the same
    keys with the same placeholders. *)
Definition consistent (reference ds : list descriptor) : Prop :=
  (forall f, f ∈ map d_fragment reference <-> f ∈ map d_fragment ds) /\ NoDup (all_keys ds) /\
  forall e a, e ∈ reference -> find_descriptor (d_fragment e) ds = Some a ->
    (forall k, k ∈ d_keys e <-> k ∈ d_keys a) /\
    forall k v w, translation_of k e = Some v -> translation_of k a = Some w -> placeholders v = placeholders w.

Lemma and_iff_compat_split (A B C D : Prop) : (A <-> C) /\ (B <-> D) -> (A /\ B <-> C /\ D).
Proof. tauto. Qed.

Lemma optional_issue_nil l mk : optional_issue l mk = [] <-> l = [].
Proof. by destruct l. Qed.

Lemma filter_nil_iff {A} (f : A -> bool) l : List.filter f l = [] <-> forall x, x ∈ l -> f x = false.
Proof.
  split.
  - intros H x Hx. destruct (f x) eqn:E; [|done]. apply list_elem_of_In in Hx.
    assert (Hin : In x (List.filter f l)) by by apply filter_In. by rewrite H in Hin.
  - induction l as [|x l IH]; simpl; intros H; [done|]. rewrite (H x) by apply list_elem_of_here.
    apply IH. intros y Hy. apply H. by apply list_elem_of_further.
Qed.

Lemma omap_nil_iff {A B} (f : A -> option B) l : omap f l = [] <-> forall x, x ∈ l -> f x = None.
Proof.
  split.
  - intros H x Hx. destruct (f x) as [y|] eqn:E; [|done].
    assert (Hy : y ∈ omap f l) by (apply list_elem_of_omap; eauto). rewrite H in Hy. by apply not_elem_of_nil in Hy.
  - induction l as [|x l IH]; intros H; [done|]. cbn. rewrite (H x) by apply list_elem_of_here.
    apply IH. intros y Hy. apply H. by apply list_elem_of_further.
Qed.

Lemma flat_map_nil_iff {A B} (f : A -> list B) l : flat_map f l = [] <-> forall x, x ∈ l -> f x = [].
Proof.
  induction l as [|x l IH]; simpl; [split; [|done]; intros _ x Hx; by apply not_elem_of_nil in Hx|].
  rewrite app_nil, IH. split.
  - intros [Hx Hl] y [->|Hy]%elem_of_cons; auto.
  - intros H. split; [apply H, list_elem_of_here|]. intros y Hy. apply H. by apply list_elem_of_further.
Qed.

Lemma translation_of_key k d : k ∈ d_keys d <-> is_Some (translation_of k d).
Proof.
  unfold d_keys, translation_of. split.
  - intros Hk. apply list_elem_of_In, in_map_iff in Hk as ([k' v] & <- & Hin). simpl.
    destruct (List.find _ _) eqn:E; [done|]. exfalso. apply (find_none _ _ E) in Hin. simpl in Hin.
    by apply bool_decide_eq_false in Hin.
  - destruct (List.find _ _) as [[k' v]|] eqn:E; [|by intros [? [=]]]. intros _.
    apply find_some in E as [Hin Hk]. apply bool_decide_eq_true in Hk. simpl in Hk. subst k'.
    apply list_elem_of_In, in_map_iff. by exists (k, v).
Qed.

Lemma compare_fragment_nil locale fragment expected actual :
  compare_fragment locale fragment expected actual = [] <->
  (forall k, k ∈ d_keys expected <-> k ∈ d_keys actual) /\
  forall k v w, translation_of k expected = Some v -> translation_of k actual = Some w ->
    placeholders v = placeholders w.
Proof.
  unfold compare_fragment. rewrite !app_nil, !optional_issue_nil, !omap_nil_iff, filter_nil_iff.
  assert (Hv : forall k v w, translation_of k expected = Some v -> translation_of k actual = Some w ->
    compare_key expected actual k = KeyFine <-> placeholders v = placeholders w).
  { intros k v w He Ha. unfold compare_key. rewrite He, Ha. simpl. rewrite <- equalSets_spec. by destruct (equalSets _ _). }
  split.
  - intros (Hmiss & Hextra & Hmis). split.
    + intros k. split; intros Hk.
      * apply translation_of_key. specialize (Hmiss k Hk). unfold compare_key in Hmiss.
        by destruct (translation_of k actual).
      * specialize (Hextra k Hk). by apply negb_false_iff, bool_decide_eq_true in Hextra.
    + intros k v w He Ha. apply (Hv k v w He Ha).
      assert (Hk : k ∈ d_keys expected) by (apply translation_of_key; eauto).
      specialize (Hmis k Hk). specialize (Hmiss k Hk). by destruct (compare_key expected actual k).
  - intros [Hkeys Hph]. assert (Hfine : forall k, k ∈ d_keys expected -> compare_key expected actual k = KeyFine).
    { intros k Hk. destruct (proj1 (translation_of_key k expected) Hk) as [v He].
      apply Hkeys in Hk. destruct (proj1 (translation_of_key k actual) Hk) as [w Ha].
      apply (Hv k v w He Ha). by eapply Hph. }
    split_and!.
    + intros k Hk. by rewrite Hfine.
    + intros k Hk. apply negb_false_iff, bool_decide_eq_true. by apply Hkeys.
    + intros k Hk. by rewrite Hfine.
Qed.

Lemma compare_locale_nil locale reference ds :
  compare_locale locale reference ds = [] <-> consistent reference ds.
Proof.
  unfold compare_locale, consistent. rewrite !app_nil, !optional_issue_nil, !filter_nil_iff, flat_map_nil_iff.
  rewrite (proj2 (indexLocale_spec locale ds)). split.
  - intros (Hm & Hx & Hnd & Hf). split_and!; [|done|].
    + intros f. split; intros H; [apply Hm in H|apply Hx in H]; by apply negb_false_iff, bool_decide_eq_true in H.
    + intros e a He Ha. specialize (Hf e He). rewrite Ha in Hf. by apply compare_fragment_nil in Hf.
  - intros (Hfr & Hnd & Hf). split_and!; [| |done|].
    + intros f H. apply negb_false_iff, bool_decide_eq_true. by apply Hfr.
    + intros f H. apply negb_false_iff, bool_decide_eq_true. by apply Hfr.
    + intros e He. destruct (find_descriptor _ ds) as [a|] eqn:Ha; [|done]. apply compare_fragment_nil. by apply Hf.
Qed.

Section validation.
Context (join_path relative : jstr -> jstr -> jstr).

(** Validation: once the catalogs are loaded, the scan succeeds exactly when the reference locale has its
    common fragment and no duplicate key, every translation key the sources name statically is an English
    key, and every other locale has the reference's fragments, no key twice, and in each fragment the same
    keys with the same interpolation placeholders. *)
Theorem check_catalogs_valid o roots catalogs reference :
  is_ok (check_catalogs join_path relative o roots catalogs reference) = true <->
  js "common.js" ∈ map d_fragment reference /\ NoDup (all_keys reference) /\
  (forall key places, (key, places) ∈ source_references join_path relative roots -> key ∈ all_keys reference) /\
  (forall locale ds, (locale, ds) ∈ catalogs -> locale <> referenceLocale o -> consistent reference ds).
Proof.
  unfold check_catalogs. destruct (indexLocale_spec (referenceLocale o) reference) as [Hkeys Hdup].
  case_bool_decide as Hcommon; simpl; [|split; [done|by intros [? _]]].
  destruct (indexLocale (referenceLocale o) reference) as [keys dups]. simpl in Hkeys, Hdup.
  destruct (Nat.eqb_spec (length dups) 0) as [E|E]; simpl.
  2:{ split; [done|]. intros (_ & Hnd & _). apply Hdup in Hnd. by subst dups. }
  apply nil_length_inv in E. rewrite <- Hdup. unfold validateTranslationReferences.
  match goal with |- context [length ?found] => set (issues := found) end.
  assert (Hi : issues = [] <->
    (forall key places, (key, places) ∈ source_references join_path relative roots -> key ∈ all_keys reference) /\
    (forall locale ds, (locale, ds) ∈ catalogs -> locale <> referenceLocale o -> consistent reference ds)).
  { unfold issues. rewrite app_nil, omap_nil_iff, flat_map_nil_iff. apply and_iff_compat_split; split; split.
    - intros H key places Hin. specialize (H _ Hin). simpl in H. case_bool_decide as Hk; [|done]. by apply Hkeys.
    - intros H [key places] Hin. rewrite bool_decide_eq_true_2; [done|]. apply Hkeys. by eapply H.
    - intros H locale ds Hin Hne. specialize (H _ Hin). simpl in H. rewrite bool_decide_eq_false_2 in H by done.
      by apply compare_locale_nil in H.
    - intros H [locale ds] Hin. case_bool_decide; [done|]. apply compare_locale_nil. by eapply H. }
  destruct (Nat.eqb_spec (length issues) 0) as [El|El]; simpl.
  - apply nil_length_inv in El. tauto.
  - split; [done|]. intros (_ & _ & H). by rewrite (proj2 Hi H) in El.
Qed.
End validation.

(** ** What is generated can be loaded *)
Lemma asset_path_inj (digest : bytes -> jstr) n1 d1 n2 d2 :
  (forall d, 20 <= length (digest d)) ->
  asset_path digest n1 d1 = asset_path digest n2 d2 -> n1 = n2.
Proof.
  intros Hlen. unfold asset_path. intros H%app_inv_head.
  assert (Hl : forall d, length (js "-" ++ slice 0 20 (digest d) ++ js ".pb") = 24).
  { intros d. rewrite !length_app. unfold slice. rewrite drop_0, length_take. specialize (Hlen d).
    change (length (js "-")) with 1. change (length (js ".pb")) with 3. lia. }
  by apply app_inj_2 in H as [H _]; [|by rewrite !Hl].
Qed.

Lemma read_chunks_all maxBytes n chunks :
  n + total_length chunks <= maxBytes -> read_chunks maxBytes n chunks = Some chunks.
Proof.
  revert n. induction chunks as [|c chunks IH]; intros n H; [done|]. unfold total_length in H. simpl in H. simpl.
  destruct (Nat.ltb_spec maxBytes (n + length c)); [lia|]. rewrite IH; [done|]. unfold total_length. lia.
Qed.

(** A [Content-Length] that names the number [n]. *)
Definition declares (r : http_response) (n : Z) : Prop :=
  exists text, contentLength r = Some text /\ digit_string text /\ digits_value text = n.

Lemma declared_value r n : declares r n -> declared_too_long r maxCatalogBytes = (Z.of_nat maxCatalogBytes <? n)%Z.
Proof.
  intros (text & E & (k & Hk & Hn)%Number_digit_string & Hv). unfold declared_too_long. rewrite E, Hn, Hv.
  generalize (Z.of_nat maxCatalogBytes). intros max. rewrite <- (double_lt_scaled max n 0 k) by lia. by rewrite Z.mul_1_r.
Qed.

(** A server response that carries [data] unharmed, in chunks.  Its [Content-Length], if there is one, counts what is sent:
    the file ([length data]), or its compressed form, which is within the limit as well. *)
Definition carries `{UnicodeCase} (data : bytes) (r : http_response) : Prop :=
  http_ok r = true /\ media_type r ∈ asset_types /\
  (contentLength r = None \/ declares r (Z.of_nat (length data)) \/
   exists n, declares r n /\ (n <= Z.of_nat maxCatalogBytes)%Z) /\
  exists chunks, stream r = Some (chunks, true) /\ concat chunks = data.

Lemma readResponseBytes_carries `{UnicodeCase} data r :
  carries data r -> length data <= maxCatalogBytes -> readResponseBytes r asset_types maxCatalogBytes = Some data.
Proof.
  intros (Hok & Ht & Hl & chunks & Hs & <-) Hlen. unfold readResponseBytes.
  assert (declared_too_long r maxCatalogBytes = false) as ->.
  { destruct Hl as [Hl|[Hl|(n & Hl & Hn)]]; [unfold declared_too_long; by rewrite Hl|..];
      rewrite (declared_value _ _ Hl); apply Z.ltb_ge; lia. }
  rewrite Hok, Hs, bool_decide_eq_true_2 by done. cbn [negb orb].
  rewrite read_chunks_all by (rewrite total_length_concat; lia). cbn [mbind option_bind].
  by rewrite copy_chunks_concat.
Qed.

Lemma distinct_NoDup l : distinct l = true <-> NoDup l.
Proof.
  induction l as [|k l IH]; simpl; [split; [constructor|done]|].
  rewrite andb_true_iff, IH, NoDup_cons, negb_true_iff, bool_decide_eq_false. done.
Qed.

Lemma sorted_keys_spec m : NoDup (sorted_keys m) /\ (forall k, k ∈ sorted_keys m <-> is_Some (m !! k)) /\ length (sorted_keys m) = size m.
Proof.
  unfold sorted_keys. rewrite sort_strings_perm. split_and!.
  - apply (NoDup_fst_map_to_list m).
  - intros k. rewrite sort_strings_perm. split.
    + intros Hk. apply list_elem_of_fmap in Hk as ([k' v] & -> & Hin). apply elem_of_map_to_list in Hin. simpl. eauto.
    + intros [v Hv]. apply list_elem_of_fmap. exists (k, v). split; [done|]. by apply elem_of_map_to_list.
  - rewrite ?sort_strings_perm, length_map. apply length_map_to_list.
Qed.

Lemma dictionary_lookups (entries : gmap jstr jstr) keys values :
  NoDup keys -> mapM (fun k => entries !! k) keys = Some values -> size entries = length keys ->
  dictionary keys values = entries.
Proof.
  intros Hnd Hv Hsize. apply mapM_Some in Hv.
  assert (Hfst : (zip keys values).*1 = keys).
  { apply fst_zip. apply Forall2_length in Hv. lia. }
  apply map_subseteq_size_eq.
  - apply map_subseteq_spec. intros k v Hk. unfold dictionary in Hk.
    apply elem_of_list_to_map_2 in Hk. apply elem_of_lookup_zip_with in Hk as (i & k' & v' & [= -> ->] & Hi & Hj).
    eapply Forall2_lookup_lr in Hv; [|done..]. done.
  - rewrite Hsize. unfold dictionary. rewrite map_size_list_to_map by by rewrite Hfst.
    rewrite length_zip. apply Forall2_length in Hv. lia.
Qed.

Section generation.
Context `{Collation} `{UnicodeCase} (digest_keys : list jstr -> jstr) (digest : bytes -> jstr)
  (encode_keys : jstr -> list jstr -> bytes) (encode_catalog : jstr -> jstr -> list jstr -> bytes)
  (decode_keys : bytes -> option (jstr * list jstr)) (decode_catalog : bytes -> option (jstr * jstr * list jstr)).

(** Decoding is inverse to encoding, and digests are hexadecimal SHA-256. *)
Context (decode_encode_keys : forall r k, decode_keys (encode_keys r k) = Some (r, k))
  (decode_encode_catalog : forall l r v, decode_catalog (encode_catalog l r v) = Some (l, r, v))
  (digest_length : forall d, 20 <= length (digest d)).

Lemma generate_locales_spec rev keys catalogs assets urls assets' urls' :
  NoDup (map fst catalogs) ->
  generate_locales digest encode_catalog rev keys catalogs assets urls = Ok (assets', urls') ->
  (forall name data, (forall l, l ∈ map fst catalogs -> l <> name) ->
     assets !! asset_path digest name data = Some data -> assets' !! asset_path digest name data = Some data) /\
  urls' = urls ++ map (fun '(l, e) => (l, asset_url (asset_path digest l
     (encode_catalog l rev (default [] (mapM (fun k => e !! k) keys)))))) catalogs /\
  forall l e, (l, e) ∈ catalogs -> exists values, mapM (fun k => e !! k) keys = Some values /\ size e = length keys /\
    assets' !! asset_path digest l (encode_catalog l rev values) = Some (encode_catalog l rev values).
Proof.
  revert assets urls. induction catalogs as [|[locale e] rest IH]; intros assets urls Hnd; cbn [generate_locales map fst].
  - intros [= <- <-]. split_and!; [done|by rewrite app_nil_r|]. intros l e Hin. by apply not_elem_of_nil in Hin.
  - cbn [map fst] in Hnd. apply NoDup_cons in Hnd as [Hl Hnd].
    destruct (mapM (fun k => e !! k) keys) as [values|] eqn:Hv; [|done].
    destruct (Nat.eqb_spec (size e) (length keys)) as [Hs|]; [|done].
    intros (Hkeep & Hurls & Hall)%IH; [|done]. split_and!.
    + intros name data Hne Ha. apply Hkeep; [intros l Hin; apply Hne; by right|].
      rewrite lookup_insert_ne; [done|]. intros Heq%asset_path_inj; [|done]. apply (Hne locale); [left|done].
    + rewrite Hurls, <- (assoc_L (++)). by simpl.
    + intros l' e' [[= -> ->]|Hin]%elem_of_cons.
      * exists values. split_and!; [done..|]. apply Hkeep; [|by rewrite lookup_insert_eq].
        intros l Hin <-. by apply Hl.
      * by apply Hall.
Qed.

Lemma find_url (f : jstr * gmap jstr jstr -> jstr * jstr) catalogs locale e :
  (forall c, fst (f c) = fst c) -> NoDup (map fst catalogs) -> (locale, e) ∈ catalogs ->
  snd <$> List.find (fun e => bool_decide (fst e = locale)) (map f catalogs) = Some (snd (f (locale, e))).
Proof.
  intros Hf Hnd Hin. induction catalogs as [|c catalogs IH]; [by apply not_elem_of_nil in Hin|].
  cbn [map fst] in *. apply NoDup_cons in Hnd as [Hc Hnd]. cbn [List.find]. rewrite Hf.
  apply elem_of_cons in Hin as [<-|Hin].
  - by rewrite bool_decide_eq_true_2.
  - rewrite bool_decide_eq_false_2; [by apply IH|]. intros E. apply Hc. rewrite E.
    apply list_elem_of_fmap. exists (locale, e). done.
Qed.

(** C40: Catalogs: when the generator succeeds on catalogs of distinct locales, none of them called [keys], and a server
    delivers each asset written under its URL, complete, with one of the loader's media types and, if it declares a length
    (the repository's server always does), that of the asset or of its compressed form within the limit; every asset is
    within the loader's size limit and the key index within its limit; then the loader built with the generated
    configuration loads, for every locale, exactly the merged dictionary the generator was given.  A response
    that declares more than the limit is refused whatever it carries. *)
Theorem generated_catalogs_load catalogs assets config net locale entries :
  NoDup (map fst catalogs) -> js "keys" ∉ map fst catalogs ->
  generateLocaleAssets digest_keys digest encode_keys encode_catalog catalogs = Ok (assets, config) ->
  (forall path data, assets !! path = Some data ->
     length data <= maxCatalogBytes /\ exists r, net (asset_url path) = Some r /\ carries data r) ->
  (forall english, (js "en-US", english) ∈ catalogs -> size english <= maxKeys) ->
  (locale, entries) ∈ catalogs ->
  loadLocale decode_keys decode_catalog net config locale = Some entries /\
  (forall url r n, net url = Some r -> declares r n -> (Z.of_nat maxCatalogBytes < n)%Z -> fetchBytes net url = None).
Proof.
  intros Hnd Hkeys Hgen Hnet Hmax Hin. split.
  2:{ intros url r n Hr Hd Hn. unfold fetchBytes. rewrite Hr. cbn [mbind option_bind]. unfold readResponseBytes.
      rewrite (declared_value _ _ Hd), (proj2 (Z.ltb_lt _ _) Hn). by rewrite orb_true_r. }
  unfold generateLocaleAssets in Hgen.
  destruct (List.find _ catalogs) as [[en english]|] eqn:Hen; [|done]. cbn [fmap option_fmap option_map snd] in Hgen.
  apply find_some in Hen as [Hen Heq%bool_decide_eq_true]. simpl in Heq. subst en.
  apply list_elem_of_In in Hen. specialize (Hmax _ Hen).
  destruct (sorted_keys_spec english) as (Hsnd & _ & Hslen).
  revert Hgen Hsnd Hslen. generalize (sorted_keys english) as keys. intros keys Hgen Hsnd Hslen.
  set (rev := digest_keys keys) in *. set (kdata := encode_keys rev keys) in *.
  destruct (generate_locales _ _ _ _ _ _ _) as [[assets' urls]|] eqn:Hg; [|done].
  cbn [mbind result_bind] in Hgen. injection Hgen as -> <-.
  apply generate_locales_spec in Hg as (Hkeep & Hurls & Hall).
  2:{ by rewrite array_sort_perm. }
  assert (Hin' : (locale, entries) ∈ array_sort (fun a b => locale_compare (fst a) (fst b)) catalogs) by by rewrite array_sort_perm.
  destruct (Hall locale entries Hin') as (values & Hv & Hs & Ha).
  assert (Hk : assets !! asset_path digest (js "keys") kdata = Some kdata).
  { apply Hkeep; [|by rewrite lookup_singleton_eq]. intros l Hl ->. rewrite array_sort_perm in Hl. by apply Hkeys. }
  assert (Hfetch : forall path data, assets !! path = Some data -> fetchBytes net (asset_url path) = Some data).
  { intros path data Hp. destruct (Hnet path data Hp) as (Hlen & r & Hr & Hc). unfold fetchBytes. rewrite Hr.
    cbn [mbind option_bind]. by apply readResponseBytes_carries. }
  unfold loadLocale. cbn [locale_urls revision index_url]. rewrite Hurls. cbn [app].
  rewrite (find_url (fun '(l, e) => (l, asset_url (asset_path digest l (encode_catalog l rev
    (default [] (mapM (fun k => e !! k) keys)))))) _ locale entries); [|by intros [l e]|by rewrite array_sort_perm|done].
  cbn [snd mbind option_bind]. rewrite Hv. cbn [default from_option id].
  unfold loadKeys. cbn [index_url revision]. rewrite (Hfetch _ _ Hk). cbn [mbind option_bind].
  unfold kdata at 1. rewrite decode_encode_keys. cbn [mbind option_bind].
  rewrite bool_decide_eq_true_2 by done. rewrite (proj2 (distinct_NoDup keys) Hsnd).
  replace (maxKeys <? length keys) with false by (symmetry; apply Nat.ltb_ge; lia). cbn [negb orb mbind option_bind].
  rewrite (Hfetch _ _ Ha). cbn [mbind option_bind]. rewrite decode_encode_catalog. cbn [mbind option_bind].
  rewrite !bool_decide_eq_true_2 by done.
  assert (Hvl : length values = length keys) by (apply mapM_Some, Forall2_length in Hv; lia).
  rewrite Hvl, Nat.eqb_refl. cbn [negb orb]. f_equal. by apply dictionary_lookups.
Qed.
End generation.

(** ** A concrete codec, digest and server for the witness *)
Definition put_string (s : jstr) : bytes := N.of_nat (length s) :: s.

Definition get_string (b : bytes) : option (jstr * bytes) :=
  match b with
  | [] => None
  | n :: r => Some (take (N.to_nat n) r, drop (N.to_nat n) r)
  end.

Fixpoint get_strings (n : nat) (b : bytes) : option (list jstr) :=
  match n with
  | 0 => Some []
  | S n => '(s, r) ← get_string b; l ← get_strings n r; Some (s :: l)
  end.

Definition put_strings (l : list jstr) : bytes := N.of_nat (length l) :: flat_map put_string l.

Definition get_all (b : bytes) : option (list jstr) :=
  match b with [] => None | n :: r => get_strings (N.to_nat n) r end.

Lemma get_put l : get_all (put_strings l) = Some l.
Proof.
  unfold get_all, put_strings. rewrite Nat2N.id. induction l as [|s l IH]; [done|].
  cbn [length get_strings flat_map]. unfold put_string at 1. cbn [app get_string].
  rewrite Nat2N.id, take_app_length, drop_app_length. cbn [mbind option_bind]. by rewrite IH.
Qed.

Definition demo_encode_keys (r : jstr) (k : list jstr) : bytes := put_strings (r :: k).
Definition demo_decode_keys (b : bytes) : option (jstr * list jstr) :=
  match get_all b with Some (r :: k) => Some (r, k) | _ => None end.
Definition demo_encode_catalog (l r : jstr) (v : list jstr) : bytes := put_strings (l :: r :: v).
Definition demo_decode_catalog (b : bytes) : option (jstr * jstr * list jstr) :=
  match get_all b with Some (l :: r :: v) => Some (l, r, v) | _ => None end.
Definition demo_digest (_ : bytes) : jstr := replicate 20 48%N.

Definition demo_catalogs : list (jstr * gmap jstr jstr) :=
  [(js "en-US", {[js "a" := js "Hello {n}"; js "b" := js "Bye"]}); (js "de-DE", {[js "a" := js "Hallo {n}"; js "b" := js "Ade"]})].

Definition demo_generated : gmap jstr bytes * loader_config :=
  match @generateLocaleAssets unit_collation (fun _ => js "rev") demo_digest demo_encode_keys demo_encode_catalog demo_catalogs with
  | Ok g => g
  | Err _ => (∅, {| index_url := []; revision := []; locale_urls := [] |})
  end.

Definition demo_response (data : bytes) : http_response :=
  {| http_ok := true; contentType := Some (js "application/x-protobuf"); contentLength := Some (show_Z (Z.of_nat (length data)));
     stream := Some ([data], true) |}.

Definition demo_net (url : jstr) : option http_response := demo_response <$> fst demo_generated !! tail url.

(** No tables are needed for ASCII media types. *)

Lemma generated_catalogs_load_witness :
  @loadLocale latin_case demo_decode_keys demo_decode_catalog demo_net (snd demo_generated) (js "de-DE") =
    Some {[js "a" := js "Hallo {n}"; js "b" := js "Ade"]}.
Proof.
  apply (@generated_catalogs_load unit_collation latin_case (fun _ => js "rev") demo_digest demo_encode_keys
    demo_encode_catalog demo_decode_keys demo_decode_catalog) with (catalogs := demo_catalogs) (assets := fst demo_generated).
  - intros r k. unfold demo_decode_keys, demo_encode_keys. by rewrite get_put.
  - intros l r v. unfold demo_decode_catalog, demo_encode_catalog. by rewrite get_put.
  - intros d. reflexivity || (unfold demo_digest; rewrite length_replicate; lia).
  - apply distinct_NoDup. vm_compute. reflexivity.
  - apply (bool_decide_eq_false (js "keys" ∈ map fst demo_catalogs)). vm_compute. reflexivity.
  - vm_compute. reflexivity.
  - intros path data Hp. split.
    + assert (Hsmall : map_Forall (fun _ d => length d <= 100) (fst demo_generated))
        by (refine (proj1 (bool_decide_eq_true (map_Forall (fun _ d => length d <= 100) (fst demo_generated))) _);
            vm_compute; reflexivity).
      specialize (Hsmall path data Hp). unfold maxCatalogBytes. simpl in Hsmall. lia.
    + exists (demo_response data). unfold demo_net, asset_url. cbn [tail app js]. split.
      * change (tail (js "/" ++ path)) with path. by rewrite Hp.
      * split_and!; [done|apply list_elem_of_here| |exists [data]; split; [done|apply app_nil_r]]. right. left.
        assert (Htext : forallb (fun e : jstr * bytes => let text := show_Z (Z.of_nat (length e.2)) in
            negb (bool_decide (text = [])) && forallb is_digit text && (digits_value text =? Z.of_nat (length e.2))%Z &&
            (digits_value text <? 2 ^ 53)%Z) (map_to_list (fst demo_generated)) = true) by (vm_compute; reflexivity).
        rewrite forallb_forall in Htext. apply elem_of_map_to_list, list_elem_of_In, Htext in Hp. cbn [snd] in Hp. cbv zeta in Hp.
        rewrite !andb_true_iff, negb_true_iff, bool_decide_eq_false, Z.eqb_eq, Z.ltb_lt in Hp.
        destruct Hp as [[[H1 H2] H3] H4]. exists (show_Z (Z.of_nat (length data))). split; [reflexivity|]. split; [|exact H3].
        split; [exact H1|]. split; [|exact H4]. apply Forall_forall. intros c Hc. rewrite forallb_forall in H2.
        apply H2. by apply list_elem_of_In.
  - intros english Hin. unfold maxKeys.
    assert (Hsmall : Forall (fun c => size (snd c) <= 100) demo_catalogs)
      by (refine (proj1 (bool_decide_eq_true (Forall (fun c => size (snd c) <= 100) demo_catalogs)) _); vm_compute; reflexivity).
    rewrite Forall_forall in Hsmall. specialize (Hsmall _ Hin). simpl in Hsmall. lia.
  - apply list_elem_of_further, list_elem_of_here.
Defined.
