(* ===== verification/UpdatePackage.v ===== *)
(** * Hosted update packages

    [web/js/lib/update-package.js], its worker [web/js/workers/update-package-worker.js] and
    [web/js/lib/brotli-zip.js]: the ranged download of a raw Brotli package, its authentication
    against the published digest, and the conversion into a ZIP archive.  The network ([fetch]), the
    digest, the Brotli decoder and the ZIP writer are parameters. *)
From Stdlib Require Import Ascii String QArith.
From S2P Require Import Prelude JsString.
Local Open Scope Z_scope.

Definition minParallelPartSize : Z := Z.shiftl 8 20.
Definition maxDownloadWorkers : Z := 4.
Definition maxUpdatePackageSize : Z := 2 * 1024 * 1024 * 1024.
Definition maxUpdateExecutableSize : Z := 512 * 1024 * 1024.

Record update_target := {
  t_file : option jstr;
  t_format : option jstr;
  t_packageFormat : option jstr;
}.

Definition isBrotliUpdateTarget `{UnicodeCase} (target : option update_target) : bool :=
  let field (f : update_target -> option jstr) := target ≫= f in
  let format := to_lower (opt_str_or (field t_format) (opt_str_or (field t_packageFormat) [])) in
  bool_decide (format = js "brotli") || ends_with (js ".br") (to_lower (opt_str_or (field t_file) [])).

(** [hardwareConcurrency] is an integer; [deviceMemory] is a fraction of a GiB (0.25, 0.5, 1, ...). *)
Definition chooseUpdateDownloadWorkers (size hardwareConcurrency : number) (deviceMemory : option Q) : Z :=
  let sizeWorkers := Z.max 1 (ceil_div (Z.max 0 (num_or size 0)) minParallelPartSize) in
  let cpuWorkers :=
    Z.max 1 (Z.min maxDownloadWorkers (num_or (Some (num_or hardwareConcurrency 1 - 1)) 1)) in
  let at_most q := match deviceMemory with Some m => Qle_bool m q | None => false end in
  let memoryWorkers := if at_most 2%Q then 1 else if at_most 4%Q then 2 else maxDownloadWorkers in
  Z.max 1 (Z.min (Z.min (Z.min maxDownloadWorkers sizeWorkers) cpuWorkers) memoryWorkers).

Definition legacyZipFilename `{UnicodeCase} (filename : option jstr) : jstr :=
  let name := opt_str_or filename (js "renop-update.br") in
  if ends_with (js ".br") (to_lower name) then slice_drop_last 3 name ++ js ".zip" else name ++ js ".zip".

(** An inclusive byte range. *)
Record byte_range := { r_start : Z; r_end : Z }.

(** The [for] loop from [index], with [fuel = workers - index] iterations left. *)
Fixpoint byteRanges_loop (fuel : nat) (index size partSize : Z) : list byte_range :=
  match fuel with
  | O => []
  | S fuel' =>
    let start := index * partSize in
    if size <=? start then []
    else {| r_start := start; r_end := Z.min (size - 1) (start + partSize - 1) |}
           :: byteRanges_loop fuel' (index + 1) size partSize
  end.

Definition byteRanges (size workers : Z) : list byte_range :=
  byteRanges_loop (Z.to_nat workers) 0 size (ceil_div size workers).

(** ** The worker *)

(** What [reader.read()] delivers, in order; the end of the list is [done]. *)
Inductive read_event :=
| ReadChunk (bs : bytes)
| ReadOther
| ReadError (e : jstr).

Record response := {
  status : Z;
  content_length : number;
  content_range : option jstr;
  body : option (list read_event);
  array_buffer : result jstr bytes;
}.

Definition response_ok (r : response) : bool := (200 <=? status r) && (status r <=? 299).

(** Messages a worker posts to its page; [received] and [expected] are not read there. *)
Inductive worker_payload :=
| MProgress (delta received expected : Z)
| MError (error : jstr)
| MData (data : option bytes).

Definition worker_message : Type := jstr * worker_payload.

(** The read loop of [readResponseBytes]: [output] is the preallocated buffer when the length was
    declared, [chunks] the collected chunks otherwise.  Returns the progress posted and the result. *)
Fixpoint read_loop (jobId : jstr) (expected : Z) (output : option bytes) (chunks : list bytes)
    (received : Z) (evs : list read_event) : list worker_message * result jstr bytes :=
  match evs with
  | [] =>
    match output with
    | Some out =>
      if received =? Z.of_nat (length out) then ([], Ok out) else ([], Err (js "download_size_mismatch"))
    | None => ([], Ok (copy_chunks (zeroed (Z.to_nat received)) 0 chunks))
    end
  | ReadError e :: _ => ([], Err e)
  | ReadOther :: evs' | ReadChunk [] :: evs' => read_loop jobId expected output chunks received evs'
  | ReadChunk bs :: evs' =>
    let received' := received + Z.of_nat (length bs) in
    let continue output' chunks' :=
      if maxUpdatePackageSize <? received' then ([], Err (js "package_too_large"))
      else
        let '(posts, r) := read_loop jobId expected output' chunks' received' evs' in
        ((jobId, MProgress (Z.of_nat (length bs)) received' expected) :: posts, r) in
    match output with
    | Some out =>
      if Z.of_nat (length out) <? received' then ([], Err (js "download_size_mismatch"))
      else continue (Some (set_at out (Z.to_nat received) bs)) chunks
    | None => continue None (chunks ++ [bs])
    end
  end.

Definition readResponseBytes (r : response) (jobId : jstr) : list worker_message * result jstr bytes :=
  match body r with
  | None => ([], array_buffer r)
  | Some evs =>
    let expected := num_or (content_length r) 0 in
    if maxUpdatePackageSize <? expected then ([], Err (js "package_too_large"))
    else
      let output := if 0 <? expected then Some (zeroed (Z.to_nat expected)) else None in
      read_loop jobId expected output [] 0 evs
  end.

Record fetch_request := { req_url : jstr; req_range : option jstr }.

(** Jobs posted to a worker; [start] and [end] of a download are present together or not at all. *)
Record download_job := { dj_id : jstr; dj_url : jstr; dj_range : option byte_range }.
Record convert_job := {
  cj_id : jstr;
  cj_data : bytes;
  cj_executableName : jstr;
  cj_expectedSize : Z;
}.
Inductive worker_job :=
| JobDownload (j : download_job)
| JobConvert (j : convert_job)
| JobOther (id : jstr).

(** One ZIP entry: its bytes, with the Unix host system and external attributes when they are set. *)
Record zip_entry := { ze_data : bytes; ze_unix : option (Z * Z) }.

(** Assigning property [k] of an object literal: an existing key keeps its place. *)
Fixpoint object_set (k : jstr) (v : zip_entry) (o : list (jstr * zip_entry)) : list (jstr * zip_entry) :=
  match o with
  | [] => [(k, v)]
  | (k', v') :: o' => if bool_decide (k = k') then (k, v) :: o' else (k', v') :: object_set k v o'
  end.

Definition range_header (a b : Z) : jstr := js "bytes=" ++ show_Z a ++ js "-" ++ show_Z b.

Definition legalNames : list jstr := [js "LICENSE"; js "README.md"; js "THIRD_PARTY_NOTICES.md"].

Section update_package.
Context `{UnicodeCase}.
(** The network, as a function of the request. *)
Variable fetch : fetch_request -> result jstr response.
(** [crypto.subtle.digest('SHA-256', _)], [brotli-compress]'s [decompress], [fflate]'s [zipSync]. *)
Variable sha256 : bytes -> bytes.
Variable decompress : bytes -> result jstr bytes.
Variable zipSync : list (jstr * zip_entry) -> result jstr bytes.
(** [navigator.hardwareConcurrency || 1] and [navigator.deviceMemory || 4]. *)
Variable nav_concurrency : Z.
Variable nav_memory : Q.

Definition download (job : download_job) : list worker_message * result jstr bytes :=
  match fetch {| req_url := dj_url job;
                 req_range := (fun r => range_header (r_start r) (r_end r)) <$> dj_range job |} with
  | Err e => ([], Err e)
  | Ok resp =>
    let ranged := bool_decide (is_Some (dj_range job)) in
    if negb (response_ok resp) || (ranged && negb (status resp =? 206)) then
      ([], Err (if ranged && (status resp =? 200) then js "range_unsupported"
                else js "download_http_" ++ show_Z (status resp)))
    else readResponseBytes resp (dj_id job)
  end.

Definition brotliExecutableToZip (compressed : bytes) (executableName : jstr) (expectedSize : Z)
    (additionalFiles : list (jstr * bytes)) : result jstr bytes :=
  executable ← decompress compressed;
  if (0 <? expectedSize) && negb (Z.of_nat (length executable) =? expectedSize)
  then Err (js "uncompressed_size_mismatch")
  else
    let windows := ends_with (js ".exe") (to_lower executableName) in
    (* [0o755] is [0x1ED] *)
    let entry := {| ze_data := executable;
                    ze_unix := if windows then None else Some (3, Z.shiftl 0x1ED 16) |} in
    zipSync (fold_left (fun o kv => object_set kv.1 {| ze_data := kv.2; ze_unix := None |} o)
               additionalFiles [(executableName, entry)]).

(** The loop over the three fetched documents. *)
Fixpoint legal_entries (names : list jstr) (responses : list response) : result jstr (list (jstr * bytes)) :=
  match names, responses with
  | n :: names', r :: responses' =>
    if response_ok r then
      bs ← array_buffer r;
      rest ← legal_entries names' responses';
      Ok ((n, bs) :: rest)
    else Err (js "release_document_unavailable")
  | _, _ => Ok []
  end.

(** [order] is the order in which the document requests settle. *)
Definition convert (order : list nat) (job : convert_job) : result jstr bytes :=
  responses ← promise_all order
    (map (fun n => fetch {| req_url := js "/assets/release/" ++ n; req_range := None |}) legalNames);
  legal ← legal_entries legalNames responses;
  brotliExecutableToZip (cj_data job) (cj_executableName job) (cj_expectedSize job) legal.

(** The worker's message listener: everything it posts for one job. *)
Definition worker_main (order : list nat) (job : worker_job) : list worker_message :=
  let finish id posts (r : result jstr bytes) :=
    posts ++ [(id, match r with Ok bs => MData (Some bs) | Err e => MError e end)] in
  match job with
  | JobDownload j => let '(posts, r) := download j in finish (dj_id j) posts r
  | JobConvert j => finish (cj_id j) [] (convert order j)
  | JobOther id => finish id [] (Err (js "unsupported_worker_job"))
  end.

(** ** The page *)

(** What the page hears from a worker: a message, or the worker's [error] event. *)
Inductive worker_event :=
| WMessage (m : worker_message)
| WError (message : jstr).

(** The promise of [runWorkerJob]: progress deltas reported so far, and its settlement.  Settling
    terminates the worker, so later events are not delivered. *)
Record worker_run := { wr_progress : list Z; wr_settled : option (result jstr bytes) }.

Definition on_worker_event (jobId : jstr) (st : worker_run) (ev : worker_event) : worker_run :=
  match wr_settled st with
  | Some _ => st
  | None =>
    let settle r := {| wr_progress := wr_progress st; wr_settled := Some r |} in
    match ev with
    | WError message => settle (Err (str_or message (js "worker_failed")))
    | WMessage (id, payload) =>
      if negb (bool_decide (id = jobId)) then st
      else match payload with
           | MProgress delta _ _ =>
             {| wr_progress := wr_progress st ++ [delta]; wr_settled := None |}
           | MError error => settle (Err (str_or error (js "worker_failed")))
           | MData (Some data) => settle (Ok data)
           | MData None => settle (Err (js "invalid_worker_response"))
           end
    end
  end.

Definition runWorkerJob (jobId : jstr) (evs : list worker_event) : worker_run :=
  fold_left (on_worker_event jobId) evs {| wr_progress := []; wr_settled := None |}.

Definition job_id (job : worker_job) : jstr :=
  match job with
  | JobDownload j => dj_id j
  | JobConvert j => cj_id j
  | JobOther id => id
  end.

(** A job posted to a fresh worker: the page's listener hears what the worker posts. *)
Definition run_job (order : list nat) (job : worker_job) : worker_run :=
  runWorkerJob (job_id job) (map WMessage (worker_main order job)).

(** [contentRange.match(/\/(\d+)$/)]: the digits after the last slash. *)
Definition content_range_total (header : jstr) : option Z :=
  match last_index_of_char (ch "/") header with
  | Some i =>
    let digits := drop (S i) header in
    if forallb is_digit digits && negb (bool_decide (digits = [])) then Some (digits_value digits) else None
  | None => None
  end.

Definition range_jobs (url : jstr) (ranges : list byte_range) : list worker_job :=
  imap (fun index range =>
          JobDownload {| dj_id := js "range-" ++ show_Z (Z.of_nat index);
                         dj_url := url; dj_range := Some range |}) ranges.

(** Concatenating the parts into one buffer and comparing its size with the announced one. *)
Definition assemble_parts (size : Z) (parts : list bytes) : result jstr bytes :=
  let output := copy_chunks (zeroed (total_length parts)) 0 parts in
  if Z.of_nat (length output) =? size then Ok output else Err (js "download_size_mismatch").

(** [None] is a promise that stays pending.  [order] is the order in which the range jobs settle. *)
Definition downloadPackage (order : list nat) (url : jstr) (declaredSize : number)
    : option (result jstr bytes) :=
  let size := Z.max 0 (num_or declaredSize 0) in
  let single id := wr_settled (run_job [] (JobDownload {| dj_id := js id; dj_url := url; dj_range := None |})) in
  if maxUpdatePackageSize <? size then Some (Err (js "package_too_large"))
  else
    let workerCount := chooseUpdateDownloadWorkers (Some size) (Some nav_concurrency) (Some nav_memory) in
    if (1 <? workerCount) && (0 <? size) then
      match fetch {| req_url := url; req_range := Some (js "bytes=0-0") |} with
      | Err e => Some (Err e)
      | Ok probe =>
        if status probe =? 206 then
          let size' := match content_range_total (opt_str_or (content_range probe) []) with
                       | Some total => if 0 <? total then total else size
                       | None => size
                       end in
          match array_buffer probe with
          | Err e => Some (Err e)
          | Ok _ =>
            results ← mapM (fun job => wr_settled (run_job [] job)) (range_jobs url (byteRanges size' workerCount));
            Some (parts ← promise_all order results; assemble_parts size' parts)
          end
        else if negb (response_ok probe) then Some (Err (js "download_http_" ++ show_Z (status probe)))
        else single "complete-fallback"%string
      end
    else single "complete"%string.

(** The progress listener of the ranged download: [received] grows by each delta, in arrival order. *)
Fixpoint range_progress (size received : Z) (deltas : list Z) : list (Z * Z) :=
  match deltas with
  | [] => []
  | d :: deltas' => (received + d, size) :: range_progress size (received + d) deltas'
  end.

(** [value.toString(16).padStart(2, '0')] for a byte. *)
Definition hex_digit (n : N) : N := if (n <? 10)%N then (48 + n)%N else (87 + n)%N.
Definition hex_byte (b : N) : jstr := [hex_digit (N.div b 16); hex_digit (N.modulo b 16)].
Definition hex_of (bs : bytes) : jstr := concat (map hex_byte bs).

(** [/^[0-9a-f]{64}$/]. *)
Definition is_sha256_hex (s : jstr) : bool :=
  (length s =? 64)%nat && forallb (fun c => is_digit c || ((97 <=? c) && (c <=? 102))%N) s.

Definition verifySHA256 (bs : bytes) (expectedHex : option jstr) : bool :=
  let expected := to_lower (trim (opt_str_or expectedHex [])) in
  if negb (is_sha256_hex expected) then false else bool_decide (hex_of (sha256 bs) = expected).

Record update_options := {
  uo_url : jstr;
  uo_size : number;
  uo_uncompressedSize : number;
  uo_sha256 : option jstr;
  uo_executableName : jstr;
  uo_filename : option jstr;
}.

(** [order] and [order'] are the settlement orders of the range jobs and of the document requests. *)
Definition convertBrotliUpdateToZip (order order' : list nat) (options : update_options)
    : option (result jstr (bytes * jstr)) :=
  let expectedSize := num_or (uo_uncompressedSize options) 0 in
  if (expectedSize <=? 0) || (maxUpdateExecutableSize <? expectedSize)
  then Some (Err (js "invalid_uncompressed_size"))
  else
    downloaded ← downloadPackage order (uo_url options) (Some (num_or (uo_size options) 0));
    match downloaded with
    | Err e => Some (Err e)
    | Ok compressed =>
      if negb (verifySHA256 compressed (uo_sha256 options)) then Some (Err (js "integrity_failed"))
      else
        converted ← wr_settled (run_job order' (JobConvert
          {| cj_id := js "convert"; cj_data := compressed;
             cj_executableName := uo_executableName options; cj_expectedSize := expectedSize |}));
        Some (zip ← converted; Ok (zip, legacyZipFilename (uo_filename options)))
    end.
End update_package.

(** ** Lemmas *)
Lemma byteRanges_loop_shape fuel index size partSize :
  0 < size -> 0 < partSize -> 0 <= index ->
  Forall (fun r => index * partSize <= r_start r <= r_end r /\ r_end r < size)
    (byteRanges_loop fuel index size partSize).
Proof.
  intros Hs Hp. revert index. induction fuel as [|fuel IH]; intros index Hi; simpl; [constructor|].
  destruct (Z.leb_spec size (index * partSize)); [constructor|].
  constructor; simpl; [nia|].
  eapply Forall_impl; [apply IH; lia|]. intros r; simpl. nia.
Qed.

Lemma byteRanges_loop_length fuel index size partSize :
  (length (byteRanges_loop fuel index size partSize) <= fuel)%nat.
Proof.
  revert index. induction fuel as [|fuel IH]; intros index; simpl; [lia|].
  case_match; simpl; [lia|]. specialize (IH (index + 1)). lia.
Qed.

(** The bytes of [data] inside an inclusive range. *)
Definition range_slice (data : bytes) (r : byte_range) : bytes :=
  take (Z.to_nat (r_end r - r_start r + 1)) (drop (Z.to_nat (r_start r)) data).

Lemma range_slice_length data r :
  0 <= r_start r <= r_end r -> r_end r < Z.of_nat (length data) ->
  Z.of_nat (length (range_slice data r)) = r_end r - r_start r + 1.
Proof. intros H1 H2. unfold range_slice. rewrite length_take, length_drop. lia. Qed.

Lemma byteRanges_loop_cover fuel index partSize (data : bytes) :
  0 < partSize -> 0 <= index -> Z.of_nat (length data) <= (index + Z.of_nat fuel) * partSize ->
  concat (map (range_slice data) (byteRanges_loop fuel index (Z.of_nat (length data)) partSize))
  = drop (Z.to_nat (index * partSize)) data.
Proof.
  intros Hp. revert index. induction fuel as [|fuel IH]; intros index Hi Hcov; simpl.
  - symmetry. apply drop_ge. nia.
  - destruct (Z.leb_spec (Z.of_nat (length data)) (index * partSize)); simpl.
    + symmetry. apply drop_ge. nia.
    + rewrite IH by nia. unfold range_slice; simpl.
      set (a := index * partSize) in *.
      replace ((index + 1) * partSize) with (a + partSize) by (unfold a; lia).
      assert (0 <= a) by (unfold a; nia).
      replace (Z.to_nat (a + partSize)) with (Z.to_nat a + Z.to_nat partSize)%nat by lia.
      rewrite <- drop_drop.
      destruct (Z.le_gt_cases (Z.of_nat (length data)) (a + partSize)) as [Hle|Hgt].
      * rewrite (drop_ge _ (Z.to_nat partSize)) by (rewrite length_drop; lia).
        rewrite app_nil_r. apply take_ge. rewrite length_drop. lia.
      * replace (Z.to_nat (Z.min (Z.of_nat (length data) - 1) (a + partSize - 1) - a + 1))
          with (Z.to_nat partSize) by lia.
        apply take_drop.
Qed.

(** Cutting [data] along the ranges and concatenating gives [data] back. *)
Lemma byteRanges_cover data workers :
  0 < workers -> data <> [] ->
  concat (map (range_slice data) (byteRanges (Z.of_nat (length data)) workers)) = data.
Proof.
  intros Hw Hd. unfold byteRanges.
  assert (0 < Z.of_nat (length data)) by (destruct data; simpl; [done|lia]).
  pose proof (ceil_div_spec (Z.of_nat (length data)) workers Hw).
  rewrite byteRanges_loop_cover; [done| |lia|nia].
  by apply ceil_div_pos.
Qed.

(** The bytes a stream delivers, and streams that end without an error. *)
Definition stream_bytes (evs : list read_event) : bytes :=
  concat (map (fun ev => match ev with ReadChunk bs => bs | _ => [] end) evs).

Definition stream_clean (evs : list read_event) : Prop :=
  Forall (fun ev => match ev with ReadError _ => False | _ => True end) evs.

(** What the loop has read so far, wherever it keeps it. *)
Definition read_so_far (output : option bytes) (chunks : list bytes) (pre : bytes) : Prop :=
  match output with
  | Some out => exists rest, out = pre ++ rest
  | None => concat chunks = pre
  end.

(** The progress messages of a stream: one per non-empty chunk. *)
Fixpoint stream_deltas (evs : list read_event) : list Z :=
  match evs with
  | ReadChunk (b :: bs) :: evs' => Z.of_nat (length (b :: bs)) :: stream_deltas evs'
  | _ :: evs' => stream_deltas evs'
  | [] => []
  end.

Definition payload_delta (m : worker_message) : option Z :=
  match m.2 with MProgress d _ _ => Some d | _ => None end.

Lemma read_so_far_step output chunks pre bs :
  read_so_far output chunks pre ->
  match output with Some out => (length (pre ++ bs) <= length out)%nat | None => True end ->
  match output with
  | Some out => read_so_far (Some (set_at out (length pre) bs)) chunks (pre ++ bs)
  | None => read_so_far None (chunks ++ [bs]) (pre ++ bs)
  end.
Proof.
  destruct output as [out|]; simpl.
  - intros [rest ->] Hlen. exists (drop (length bs) rest). apply set_at_app.
    rewrite !length_app in Hlen. lia.
  - intros <- _. rewrite concat_app. simpl. by rewrite app_nil_r.
Qed.

(** What it means for the loop, with [pre] read so far, to end with [bs]. *)
Definition read_loop_result (evs : list read_event) (output : option bytes) (pre bs : bytes) : Prop :=
  stream_clean evs /\ bs = pre ++ stream_bytes evs /\
  Z.of_nat (length bs) <= maxUpdatePackageSize /\
  match output with Some out => length out = length bs | None => True end.

Lemma read_loop_result_skip ev evs output pre bs :
  match ev with ReadChunk [] | ReadOther => True | _ => False end ->
  read_loop_result (ev :: evs) output pre bs <-> read_loop_result evs output pre bs.
Proof.
  intros Hev. unfold read_loop_result, stream_clean, stream_bytes. rewrite Forall_cons.
  destruct ev as [[|]| |]; simpl; tauto.
Qed.

Lemma read_loop_result_chunk c evs output pre bs :
  read_loop_result (ReadChunk c :: evs) output pre bs <-> read_loop_result evs output (pre ++ c) bs.
Proof.
  unfold read_loop_result, stream_clean, stream_bytes. rewrite Forall_cons. simpl.
  rewrite (assoc_L (++)). tauto.
Qed.

Lemma read_loop_result_length evs output pre bs :
  read_loop_result evs output pre bs -> (length pre <= length bs)%nat.
Proof. intros (_ & -> & _). rewrite length_app. lia. Qed.

Lemma read_loop_done jobId expected output chunks pre bs :
  read_so_far output chunks pre -> Z.of_nat (length pre) <= maxUpdatePackageSize ->
  (read_loop jobId expected output chunks (Z.of_nat (length pre)) []).2 = Ok bs <->
  read_loop_result [] output pre bs.
Proof.
  intros Hpre Hmax. unfold read_loop_result, stream_bytes; simpl. rewrite app_nil_r.
  destruct output as [out|]; simpl in *.
  - destruct Hpre as [rest ->]. rewrite length_app. case_match; bool_facts; simpl.
    + assert (rest = []) as -> by (apply nil_length_inv; lia). rewrite app_nil_r.
      split; [intros [= <-]|intros (_ & -> & _)]; [split_and!; [constructor|done..|simpl; lia]|done].
    + split; [done|]. intros (_ & -> & _ & Hlen). lia.
  - assert (Hc : copy_chunks (zeroed (Z.to_nat (Z.of_nat (length pre)))) 0 chunks = pre).
    { rewrite Nat2Z.id, <- Hpre, <- total_length_concat. apply copy_chunks_concat. }
    rewrite Hc. split; [intros [= <-]; split_and!; [constructor|done..]|by intros (_ & -> & _)].
Qed.

(** The loop delivers exactly the bytes of the stream, and only when the stream ends without an
    error, stays within the limit and has the declared length. *)
Lemma read_loop_ok jobId expected evs output chunks pre bs :
  read_so_far output chunks pre -> Z.of_nat (length pre) <= maxUpdatePackageSize ->
  (read_loop jobId expected output chunks (Z.of_nat (length pre)) evs).2 = Ok bs <->
  read_loop_result evs output pre bs.
Proof.
  revert output chunks pre. induction evs as [|ev evs IH]; intros output chunks pre Hpre Hmax;
    [by apply read_loop_done|].
  destruct ev as [[|b c]| |e]; [by rewrite read_loop_result_skip; [apply IH|]| |
    by rewrite read_loop_result_skip; [apply IH|]|split; [done|by intros [Hc _]; inversion Hc]].
  rewrite read_loop_result_chunk. cbn [read_loop]. remember (b :: c) as chunk eqn:Hchunk. clear Hchunk b c.
  replace (Z.of_nat (length pre) + Z.of_nat (length chunk)) with (Z.of_nat (length (pre ++ chunk)))
    by (rewrite length_app; lia).
  pose proof (read_so_far_step output chunks pre chunk Hpre) as Hstep.
  pose proof (read_loop_result_length evs output (pre ++ chunk) bs) as Hlen.
  destruct output as [out|]; [case_match; bool_facts|]; [|case_match; bool_facts..].
  - split; [done|]. intros Hr. specialize (Hlen Hr). destruct Hr as (_ & _ & _ & Hl). simpl in Hl. lia.
  - split; [done|]. intros Hr. specialize (Hlen Hr). destruct Hr as (_ & _ & Hl & _). lia.
  - rewrite Nat2Z.id. specialize (Hstep ltac:(lia)). specialize (IH _ _ _ Hstep ltac:(lia)).
    destruct (read_loop _ _ _ _ _ evs) as [posts r]. simpl in *. rewrite IH. unfold read_loop_result.
    rewrite set_at_length; [done|]. rewrite length_app in *. lia.
  - split; [done|]. intros Hr. specialize (Hlen Hr). destruct Hr as (_ & _ & Hl & _). lia.
  - specialize (Hstep I). specialize (IH _ _ _ Hstep ltac:(lia)).
    destruct (read_loop _ _ _ _ _ evs) as [posts r]. simpl in *. by rewrite IH.
Qed.

(** Everything the loop posts is progress of its own job. *)
Definition own_progress (jobId : jstr) (m : worker_message) : Prop :=
  m.1 = jobId /\ is_Some (payload_delta m).

Lemma read_loop_posts jobId expected evs output chunks received :
  Forall (own_progress jobId) (read_loop jobId expected output chunks received evs).1.
Proof.
  revert output chunks received. induction evs as [|ev evs IH]; intros output chunks received.
  - simpl. repeat case_match; constructor.
  - destruct ev as [[|b c]| |e]; [simpl; apply IH| |simpl; apply IH|constructor].
    cbn [read_loop].
    repeat case_match; subst; simpl; try constructor; try (split; [done|by eexists]);
      match goal with Hr : read_loop ?i ?x ?o ?c ?r evs = _ |- _ =>
        pose proof (IH o c r) as Hf; rewrite Hr in Hf; exact Hf end.
Qed.

Lemma read_loop_deltas jobId expected evs output chunks received posts bs :
  read_loop jobId expected output chunks received evs = (posts, Ok bs) ->
  omap payload_delta posts = stream_deltas evs.
Proof.
  revert output chunks received posts. induction evs as [|ev evs IH]; intros output chunks received posts.
  - simpl. repeat case_match; intros; simplify_eq; done.
  - destruct ev as [[|b c]| |e]; [simpl; apply IH| |simpl; apply IH|done].
    cbn [read_loop stream_deltas].
    repeat case_match; intros; simplify_eq;
      match goal with Hr : read_loop _ _ _ _ _ evs = _ |- _ => apply IH in Hr end;
      cbn [omap list_omap payload_delta snd]; by f_equal.
Qed.

Lemma stream_deltas_sum evs : foldr Z.add 0 (stream_deltas evs) = Z.of_nat (length (stream_bytes evs)).
Proof.
  unfold stream_bytes. induction evs as [|[[|b c]| |e] evs IH]; simpl; try done.
  rewrite length_app, IH. lia.
Qed.

Lemma readResponseBytes_posts r jobId : Forall (own_progress jobId) (readResponseBytes r jobId).1.
Proof.
  unfold readResponseBytes. repeat case_match; first [apply read_loop_posts|constructor].
Qed.

Lemma fold_own_progress jobId posts deltas :
  Forall (own_progress jobId) posts ->
  fold_left (on_worker_event jobId) (map WMessage posts) {| wr_progress := deltas; wr_settled := None |}
  = {| wr_progress := deltas ++ omap payload_delta posts; wr_settled := None |}.
Proof.
  intros Hall. revert deltas. induction Hall as [|[id p] posts [Hid Hp] Hall IH]; intros deltas; simpl.
  - by rewrite app_nil_r.
  - simpl in Hid. subst id. unfold on_worker_event at 2; simpl. rewrite bool_decide_eq_true_2 by done. simpl.
    destruct p as [d ? ?|?|?]; [|by destruct Hp as [? [=]]..].
    rewrite IH. simpl. by rewrite <- (assoc_L (++)).
Qed.

(** How the page sees the result of a job: an empty error text becomes [worker_failed]. *)
Definition settle_result (r : result jstr bytes) : result jstr bytes :=
  match r with Ok bs => Ok bs | Err e => Err (str_or e (js "worker_failed")) end.

Lemma runWorkerJob_finish jobId posts r :
  Forall (own_progress jobId) posts ->
  runWorkerJob jobId
    (map WMessage (posts ++ [(jobId, match r with Ok bs => MData (Some bs) | Err e => MError e end)]))
  = {| wr_progress := omap payload_delta posts; wr_settled := Some (settle_result r) |}.
Proof.
  intros Hall. unfold runWorkerJob. rewrite map_app, fold_left_app, fold_own_progress by done. simpl.
  unfold on_worker_event; simpl. rewrite bool_decide_eq_true_2 by done. by destruct r.
Qed.

Section jobs.
Context `{UnicodeCase} (fetch : fetch_request -> result jstr response).
Context (decompress : bytes -> result jstr bytes) (zipSync : list (jstr * zip_entry) -> result jstr bytes).

Lemma download_posts job : Forall (own_progress (dj_id job)) (download fetch job).1.
Proof.
  unfold download. repeat case_match; first [apply readResponseBytes_posts|constructor].
Qed.

(** Every job settles: the page never waits for a worker that has finished. *)
Lemma run_job_settled order job :
  wr_settled (run_job fetch decompress zipSync order job)
  = Some (settle_result
      match job with
      | JobDownload j => (download fetch j).2
      | JobConvert j => convert fetch decompress zipSync order j
      | JobOther _ => Err (js "unsupported_worker_job")
      end).
Proof.
  destruct job as [j|j|id]; unfold run_job, worker_main; simpl.
  - pose proof (download_posts j) as Hp. destruct (download fetch j) as [posts r]. simpl in *.
    by rewrite runWorkerJob_finish.
  - exact (f_equal wr_settled (runWorkerJob_finish (cj_id j) [] _ (List.Forall_nil _))).
  - exact (f_equal wr_settled (runWorkerJob_finish id [] (Err _) (List.Forall_nil _))).
Qed.
End jobs.

(** The server behind [url] serves [data]: a [Range: bytes=0-0] probe announces the total length,
    every range inside the data is answered by 206 with exactly those bytes, and a plain request by
    200 with all of them.  A response may omit its length. *)
Definition delivers (r : response) (data : bytes) : Prop :=
  exists evs, body r = Some evs /\ stream_clean evs /\ stream_bytes evs = data /\
    (num_or (content_length r) 0 = 0 \/ num_or (content_length r) 0 = Z.of_nat (length data)).

Record serves (fetch : fetch_request -> result jstr response) (url : jstr) (data : bytes) : Prop := {
  serves_probe : exists r bs,
    fetch {| req_url := url; req_range := Some (js "bytes=0-0") |} = Ok r /\ status r = 206 /\
    content_range_total (opt_str_or (content_range r) []) = Some (Z.of_nat (length data)) /\
    array_buffer r = Ok bs;
  serves_range a b : 0 <= a <= b -> b < Z.of_nat (length data) -> exists r,
    fetch {| req_url := url; req_range := Some (range_header a b) |} = Ok r /\ status r = 206 /\
    delivers r (range_slice data {| r_start := a; r_end := b |});
  serves_whole : exists r,
    fetch {| req_url := url; req_range := None |} = Ok r /\ status r = 200 /\ delivers r data;
}.

Lemma readResponseBytes_delivers r jobId data :
  Z.of_nat (length data) <= maxUpdatePackageSize -> delivers r data ->
  (readResponseBytes r jobId).2 = Ok data.
Proof.
  intros Hmax (evs & Hbody & Hclean & Hbytes & Hlen). unfold readResponseBytes. rewrite Hbody.
  destruct (Z.ltb_spec maxUpdatePackageSize (num_or (content_length r) 0)); [unfold maxUpdatePackageSize in *; lia|].
  apply (read_loop_ok jobId _ evs _ [] [] data).
  - destruct (0 <? _); simpl; [by eexists|done].
  - unfold maxUpdatePackageSize; simpl; lia.
  - split_and!; [done|by rewrite <- Hbytes|done|].
    destruct (Z.ltb_spec 0 (num_or (content_length r) 0)); [|done].
    unfold zeroed. rewrite length_replicate. lia.
Qed.

Section correctness.
Context `{UnicodeCase} (fetch : fetch_request -> result jstr response).
Context (decompress : bytes -> result jstr bytes) (zipSync : list (jstr * zip_entry) -> result jstr bytes).
Lemma range_jobs_results order url data workers :
  serves fetch url data -> Z.of_nat (length data) <= maxUpdatePackageSize ->
  0 < workers -> data <> [] ->
  let ranges := byteRanges (Z.of_nat (length data)) workers in
  mapM (fun job => wr_settled (run_job fetch decompress zipSync order job)) (range_jobs url ranges)
  = Some (map Ok (map (range_slice data) ranges)).
Proof.
  intros Hs Hmax Hw Hd ranges.
  assert (Hr : Forall (fun r => 0 <= r_start r <= r_end r /\ r_end r < Z.of_nat (length data)) ranges).
  { assert (0 < Z.of_nat (length data)) by (destruct data; simpl; [done|lia]).
    eapply Forall_impl; [apply byteRanges_loop_shape; [done|by apply ceil_div_pos|done]|].
    intros r; simpl; lia. }
  unfold range_jobs. generalize 0%nat as k. clearbody ranges.
  enough (Hgen : forall f, (forall i r, exists id, f i r = JobDownload {| dj_id := id; dj_url := url; dj_range := Some r |}) ->
    mapM (fun job => wr_settled (run_job fetch decompress zipSync order job)) (imap f ranges)
    = Some (map Ok (map (range_slice data) ranges))) by (intros _; apply Hgen; eauto).
  induction Hr as [|r ranges [Hr1 Hr2] Hr IH]; intros f Hf; [done|].
  simpl. destruct (Hf 0%nat r) as [id ->]. rewrite run_job_settled. simpl.
  rewrite (IH (f ∘ S)) by (intros; apply Hf). simpl.
  pose proof (range_slice_length data r Hr1 Hr2) as Hlen.
  assert (Hfit : Z.of_nat (length (range_slice data r)) <= maxUpdatePackageSize) by lia.
  unfold download; simpl. destruct (serves_range _ _ _ Hs _ _ Hr1 Hr2) as (resp & -> & Hst & Hdel).
  unfold response_ok. rewrite Hst. simpl. destruct r as [a b].
  by rewrite (readResponseBytes_delivers _ _ _ Hfit Hdel).
Qed.
End correctness.

(** [byteRanges] cuts a non-empty download into at most [workers] inclusive ranges inside it that
    neither overlap nor leave a gap: slicing any data along them and concatenating the slices in
    order gives the data back. *)
Theorem byteRanges_partition (data : bytes) workers :
  0 < workers -> data <> [] ->
  let ranges := byteRanges (Z.of_nat (length data)) workers in
  concat (map (range_slice data) ranges) = data /\
  Z.of_nat (length ranges) <= workers /\
  Forall (fun r => 0 <= r_start r <= r_end r /\ r_end r < Z.of_nat (length data)) ranges.
Proof.
  intros Hw Hd. assert (0 < Z.of_nat (length data)) by (destruct data; simpl; [done|lia]).
  split_and!.
  - by apply byteRanges_cover.
  - pose proof (byteRanges_loop_length (Z.to_nat workers) 0 (Z.of_nat (length data))
      (ceil_div (Z.of_nat (length data)) workers)). unfold byteRanges. lia.
  - eapply Forall_impl; [apply byteRanges_loop_shape; [done|by apply ceil_div_pos|done]|].
    intros r; simpl; lia.
Qed.

Lemma byteRanges_partition_witness :
  map (range_slice [10; 11; 12; 13; 14; 15; 16]%N) (byteRanges 7 3) = [[10; 11; 12]; [13; 14; 15]; [16]]%N /\
  concat (map (range_slice [10; 11; 12; 13; 14; 15; 16]%N) (byteRanges 7 3)) = [10; 11; 12; 13; 14; 15; 16]%N.
Proof.
  split; [vm_compute; reflexivity|].
  apply (byteRanges_partition [10; 11; 12; 13; 14; 15; 16]%N 3); [lia|discriminate].
Defined.

(** A response stream is accepted by [readResponseBytes] exactly when it ends without an error,
    stays within the 2 GiB limit and has the declared length if one was declared; the result is then
    the concatenation of the chunks, whichever of the two buffers was used, and the progress deltas
    posted on the way add up to its length. *)
Theorem readResponseBytes_exact r jobId evs bs :
  body r = Some evs ->
  ((readResponseBytes r jobId).2 = Ok bs <->
   stream_clean evs /\ bs = stream_bytes evs /\ Z.of_nat (length bs) <= maxUpdatePackageSize /\
   (0 < num_or (content_length r) 0 -> num_or (content_length r) 0 = Z.of_nat (length bs))) /\
  ((readResponseBytes r jobId).2 = Ok bs ->
   foldr Z.add 0 (omap payload_delta (readResponseBytes r jobId).1) = Z.of_nat (length bs)).
Proof.
  intros Hbody. unfold readResponseBytes. rewrite Hbody.
  set (declared := num_or (content_length r) 0).
  assert (H0 : Z.of_nat (length (@nil N)) <= maxUpdatePackageSize) by (unfold maxUpdatePackageSize; simpl; lia).
  set (output := if 0 <? declared then Some (zeroed (Z.to_nat declared)) else None).
  assert (Hso : read_so_far output [] []) by (unfold output; destruct (0 <? declared); simpl; [by eexists|done]).
  pose proof (read_loop_ok jobId declared evs output [] [] bs Hso H0) as Hok.
  assert (Hout : match output with Some out => length out = length bs | None => True end
    <-> (0 < declared -> declared = Z.of_nat (length bs))).
  { unfold output. destruct (Z.ltb_spec 0 declared); [|split; [lia|done]].
    unfold zeroed. rewrite length_replicate. lia. }
  unfold read_loop_result in Hok. simpl in Hok. change (Z.of_nat 0) with 0 in Hok. rewrite Hout in Hok.
  destruct (Z.ltb_spec maxUpdatePackageSize declared).
  - split; [|done]. split; [done|]. intros (_ & _ & Hl & Hd). unfold maxUpdatePackageSize in *. lia.
  - destruct (read_loop jobId declared output [] 0 evs) as [posts res] eqn:E. simpl in *. split; [done|].
    intros ->. destruct Hok as [Hok _]. specialize (Hok eq_refl) as (_ & Hbs & _).
    rewrite (read_loop_deltas _ _ _ _ _ _ _ _ E), stream_deltas_sum. by rewrite Hbs.
Qed.

Lemma readResponseBytes_exact_witness :
  let r := {| status := 200; content_length := Some 3; content_range := None;
              body := Some [ReadChunk [1]; ReadOther; ReadChunk []; ReadChunk [2; 3]]%N;
              array_buffer := Ok [] |} in
  (readResponseBytes r (js "complete")).2 = Ok [1; 2; 3]%N /\
  foldr Z.add 0 (omap payload_delta (readResponseBytes r (js "complete")).1) = 3.
Proof.
  intros r.
  assert (Hok : (readResponseBytes r (js "complete")).2 = Ok [1; 2; 3]%N) by (vm_compute; reflexivity).
  split; [exact Hok|].
  exact (proj2 (readResponseBytes_exact r (js "complete") _ [1; 2; 3]%N eq_refl) Hok).
Defined.

(** The number of range workers is between one and four, a device with at most 2 GiB of memory
    gets one, every worker but the last has a full 8 MiB part of the package to fetch, and one
    processor is left to the page whenever there is more than one. *)
Theorem chooseUpdateDownloadWorkers_bounds size concurrency memory :
  let w := chooseUpdateDownloadWorkers size concurrency memory in
  1 <= w <= maxDownloadWorkers /\
  (1 < w -> (w - 1) * minParallelPartSize < num_or size 0) /\
  (1 < w -> w <= num_or concurrency 1 - 1) /\
  (forall m, memory = Some m -> Qle_bool m 2 = true -> w = 1).
Proof.
  unfold chooseUpdateDownloadWorkers, maxDownloadWorkers.
  set (sz := Z.max 0 (num_or size 0)).
  pose proof (ceil_div_spec sz minParallelPartSize ltac:(reflexivity)) as Hc.
  set (parts := ceil_div sz minParallelPartSize) in *.
  set (cpu := num_or (Some (num_or concurrency 1 - 1)) 1).
  assert (Hcpu : cpu = num_or concurrency 1 - 1 \/ cpu = 1)
    by (unfold cpu; destruct (num_or concurrency 1 - 1); simpl; lia).
  change minParallelPartSize with 8388608 in *. unfold maxDownloadWorkers.
  set (at_most := fun q => match memory with Some m => Qle_bool m q | None => false end).
  set (mem := if at_most 2%Q then 1 else if at_most 4%Q then 2 else 4).
  assert (Hm : 1 <= mem <= 4) by (unfold mem; repeat case_match; lia).
  split_and!; [lia|lia|lia|lia|].
  intros m -> Hq. unfold mem, at_most. rewrite Hq. lia.
Qed.

(** C5: Against a server that serves [data] (with ranges), which is not empty and not larger than 2 GiB,
    [downloadPackage] refuses a declared size above 2 GiB and for every other one returns exactly [data]: whatever
    the declared size, the number of workers chosen from it and the order in which the range jobs settle, the parts
    are fetched once each, reassembled in order and accepted. *)
Theorem downloadPackage_correct `{UnicodeCase} fetch decompress zipSync concurrency memory
    order url data declared :
  serves fetch url data -> data <> [] -> Z.of_nat (length data) <= maxUpdatePackageSize ->
  downloadPackage fetch decompress zipSync concurrency memory order url declared =
  Some (if maxUpdatePackageSize <? num_or declared 0 then Err (js "package_too_large") else Ok data).
Proof.
  intros Hs Hd Hmax. destruct (Z.ltb_spec maxUpdatePackageSize (num_or declared 0)) as [Hdecl|Hdecl].
  { unfold downloadPackage. cbv zeta. destruct (Z.ltb_spec maxUpdatePackageSize (Z.max 0 (num_or declared 0))); [done|lia]. }
  unfold downloadPackage.
  destruct (Z.ltb_spec maxUpdatePackageSize (Z.max 0 (num_or declared 0)));
    [unfold maxUpdatePackageSize in *; lia|].
  pose proof (chooseUpdateDownloadWorkers_bounds
    (Some (Z.max 0 (num_or declared 0))) (Some concurrency) (Some memory)) as [Hw _].
  set (w := chooseUpdateDownloadWorkers _ _ _) in *.
  assert (0 < Z.of_nat (length data)) by (destruct data; simpl; [done|lia]).
  case_match.
  - destruct (serves_probe _ _ _ Hs) as (r & bs & -> & -> & -> & ->). simpl.
    destruct (Z.ltb_spec 0 (Z.of_nat (length data))); [|lia].
    rewrite (range_jobs_results _ _ _ _ url data) by (done || lia). simpl.
    rewrite promise_all_ok. simpl. unfold assemble_parts. rewrite copy_chunks_concat.
    rewrite byteRanges_cover by (done || lia). by rewrite Z.eqb_refl.
  - rewrite run_job_settled. simpl. unfold download. simpl.
    destruct (serves_whole _ _ _ Hs) as (r & -> & Hst & Hdel). unfold response_ok. rewrite Hst. simpl.
    by rewrite (readResponseBytes_delivers _ _ _ Hmax Hdel).
Qed.

(** A server for two bytes, used by the witnesses. *)
Definition demo_response (st : Z) (data : bytes) (range : option jstr) : response :=
  {| status := st; content_length := Some (Z.of_nat (length data)); content_range := range;
     body := Some [ReadChunk data]; array_buffer := Ok data |}.

Definition demo_fetch (req : fetch_request) : result jstr response :=
  match req_range req with
  | None => Ok (demo_response 200 [7; 9]%N None)
  | Some h =>
    if bool_decide (h = js "bytes=0-0") then Ok (demo_response 206 [7]%N (Some (js "bytes 0-0/2")))
    else if bool_decide (h = js "bytes=1-1") then Ok (demo_response 206 [9]%N None)
    else Ok (demo_response 206 [7; 9]%N None)
  end.

Lemma demo_serves url : serves demo_fetch url [7; 9]%N.
Proof.
  split.
  - eexists _, _. by split_and!.
  - intros a b Hab Hb. simpl in Hb.
    assert ((a = 0 /\ b = 0) \/ (a = 0 /\ b = 1) \/ (a = 1 /\ b = 1)) as [[-> ->]|[[-> ->]|[-> ->]]] by lia;
      (eexists; split_and!; [reflexivity|reflexivity|]);
      (eexists; split_and!; [reflexivity|repeat constructor|reflexivity|right; reflexivity]).
  - eexists. split_and!; [reflexivity..|].
    eexists. split_and!; [reflexivity|repeat constructor|reflexivity|right; reflexivity].
Defined.


Lemma downloadPackage_correct_witness :
  chooseUpdateDownloadWorkers (Some 16777216) (Some 8) (Some (8 # 1)%Q) = 2 /\
  downloadPackage (H := latin_case) demo_fetch (fun _ => Err []) (fun _ => Err []) 8 (8 # 1)%Q [1%nat; 0%nat]
    (js "u") (Some 16777216) = Some (Ok [7; 9]%N).
Proof.
  split; [vm_compute; reflexivity|].
  exact (downloadPackage_correct (H := latin_case) demo_fetch (fun _ => Err []) (fun _ => Err []) 8 (8 # 1)%Q [1%nat; 0%nat] (js "u") [7; 9]%N
           (Some 16777216) (demo_serves (js "u")) ltac:(discriminate) ltac:(vm_compute; discriminate)).
Defined.

Lemma legal_entries_names names responses legal :
  length responses = length names -> legal_entries names responses = Ok legal -> map fst legal = names.
Proof.
  revert responses legal. induction names as [|n names IH]; intros [|r responses] legal; simpl; try done.
  - by intros _ [= <-].
  - intros [= Hlen]. destruct (response_ok r); [|done]. destruct (array_buffer r); simpl; [|done].
    destruct (legal_entries names responses) eqn:E; simpl; [|done]. intros [= <-]. simpl.
    by rewrite (IH _ _ Hlen E).
Qed.

Lemma convert_ok `{UnicodeCase} fetch decompress zipSync order job zip :
  convert fetch decompress zipSync order job = Ok zip ->
  exists executable legal,
    decompress (cj_data job) = Ok executable /\
    (0 < cj_expectedSize job -> Z.of_nat (length executable) = cj_expectedSize job) /\
    zipSync (fold_left (fun o kv => object_set kv.1 {| ze_data := kv.2; ze_unix := None |} o) legal
      [(cj_executableName job,
        {| ze_data := executable;
           ze_unix := if ends_with (js ".exe") (to_lower (cj_executableName job)) then None
                      else Some (3, 32309248) |})]) = Ok zip /\
    map fst legal = legalNames.
Proof.
  unfold convert. destruct (promise_all order _) as [responses|e] eqn:Hp; cbn [mbind result_bind]; [|done].
  apply promise_all_inv, (f_equal length) in Hp. rewrite !length_map in Hp.
  destruct (legal_entries legalNames responses) as [legal|e] eqn:Hl; cbn [mbind result_bind]; [|done].
  unfold brotliExecutableToZip. destruct (decompress _) as [executable|e]; cbn [mbind result_bind]; [|done].
  destruct (_ && _) eqn:Hsize; [done|]. intros Hzip. exists executable, legal.
  split_and!; [done| |done|].
  - apply andb_false_iff in Hsize as [Hs|Hs]; bool_facts; lia.
  - by eapply legal_entries_names; [rewrite <- Hp|].
Qed.

(** C6: A conversion that succeeds is authenticated and complete: the compressed bytes come from
    [downloadPackage], their SHA-256 is the published digest (trimmed, in lower case), they
    decompress to an executable of exactly the announced size (positive, at most 512 MiB), and the
    archive is the ZIP of that executable, under its name and with Unix mode 0755 unless it is a
    Windows [.exe], followed by the legal documents. *)
Theorem convertBrotliUpdateToZip_authenticated `{UnicodeCase} fetch sha256 decompress zipSync
    concurrency memory order order' options zip name :
  convertBrotliUpdateToZip fetch sha256 decompress zipSync concurrency memory order order' options
    = Some (Ok (zip, name)) ->
  exists compressed executable legal,
    downloadPackage fetch decompress zipSync concurrency memory order (uo_url options)
      (Some (num_or (uo_size options) 0)) = Some (Ok compressed) /\
    hex_of (sha256 compressed) = to_lower (trim (opt_str_or (uo_sha256 options) [])) /\
    decompress compressed = Ok executable /\
    Some (Z.of_nat (length executable)) = uo_uncompressedSize options /\
    0 < Z.of_nat (length executable) <= maxUpdateExecutableSize /\
    zipSync (fold_left (fun o kv => object_set kv.1 {| ze_data := kv.2; ze_unix := None |} o) legal
      [(uo_executableName options,
        {| ze_data := executable;
           ze_unix := if ends_with (js ".exe") (to_lower (uo_executableName options)) then None
                      else Some (3, 32309248) |})]) = Ok zip /\
    map fst legal = legalNames /\
    name = legacyZipFilename (uo_filename options).
Proof.
  unfold convertBrotliUpdateToZip.
  destruct (_ || _) eqn:Hsize; [done|]. bool_facts.
  destruct (downloadPackage _ _ _ _ _ _ _ _) as [[compressed|e]|] eqn:Hdl; simpl; [|done|done].
  destruct (verifySHA256 _ _ _) eqn:Hsha; simpl; [|done].
  rewrite run_job_settled. simpl.
  destruct (convert _ _ _ _ _) as [zip'|e] eqn:Hconv; simpl; [|done]. intros [= -> <-].
  apply convert_ok in Hconv as (executable & legal & Hdec & Hlen & Hzip & Hlegal). simpl in *.
  exists compressed, executable, legal. unfold verifySHA256 in Hsha.
  destruct (is_sha256_hex _); simpl in Hsha; [|done]. bool_facts.
  specialize (Hlen ltac:(lia)). rewrite Hlen in *. split_and!; [done..| |lia|lia|done|done|done].
  unfold num_or in *. by destruct (uo_uncompressedSize options) as [[]|].
Qed.

Lemma convertBrotliUpdateToZip_authenticated_witness :
  let options := {| uo_url := js "u"; uo_size := Some 2; uo_uncompressedSize := Some 1;
                    uo_sha256 := Some (hex_of (replicate 32 0xAB%N));
                    uo_executableName := js "renop"; uo_filename := Some (js "renop.br") |} in
  let run := convertBrotliUpdateToZip (H := latin_case) demo_fetch (fun _ => replicate 32 0xAB%N)
    (fun _ => Ok [5%N]) (fun es => Ok (concat (map (fun e => ze_data e.2) es))) 8 (8 # 1)%Q [] [] options in
  run = Some (Ok ([5; 7; 9; 7; 9; 7; 9]%N, js "renop.zip")) /\
  exists compressed : bytes, hex_of (replicate 32 0xAB%N) = to_lower (H := latin_case) (trim (hex_of (replicate 32 0xAB%N))).
Proof.
  intros options run.
  assert (Hrun : run = Some (Ok ([5; 7; 9; 7; 9; 7; 9]%N, js "renop.zip"))) by (vm_compute; reflexivity).
  split; [exact Hrun|].
  destruct (convertBrotliUpdateToZip_authenticated (H := latin_case) _ _ _ _ _ _ _ _ _ _ _ Hrun)
    as (compressed & executable & legal & _ & Hsha & _).
  exists compressed. exact Hsha.
Defined.
