(* ===== verification/ChunkedUpload.v ===== *)
(** * Chunked uploads

    [internal/service/frontend/renop-html/js/chunked-upload.js]: sizing of the parts, and the pool of
    asynchronous workers that upload them with retries, progress and cancellation.  A worker is
    represented by the [await] it is suspended at; the code between two suspension points runs
    synchronously, as in the event loop, and every interleaving of wake-ups, XHR events, frames and
    aborts is a sequence of [pool_event]s. *)
From Stdlib Require Import Ascii String.
From S2P Require Import Prelude JsString.
Local Open Scope Z_scope.

Definition MiB : Z := 1024 * 1024.
Definition CHUNK_THRESHOLD : Z := 8 * 1024 * 1024.
Definition PREFERRED_CHUNK_SIZE : Z := 4 * 1024 * 1024.
Definition MAX_CHUNK_SIZE : Z := 32 * 1024 * 1024.
Definition CHUNK_MAX_RETRIES : nat := 3.
Definition CHUNK_RETRY_BASE_MS : Z := 400.

(** [file] is absent or has a size. *)
Definition shouldUseChunkedUpload (file : option Z) : bool :=
  match file with Some size => CHUNK_THRESHOLD <=? size | None => false end.

Definition suggestChunkSize (fileSize : number) : Z :=
  let size := num_or fileSize 0 in
  if size <=? 0 then PREFERRED_CHUNK_SIZE
  else if size <=? 8 * MiB then size
  else if size <=? 32 * MiB then 4 * MiB
  else if size <=? 128 * MiB then 8 * MiB
  else if size <=? 512 * MiB then 16 * MiB
  else if size <=? 2 * 1024 * MiB then 24 * MiB
  else MAX_CHUNK_SIZE.

Definition suggestConcurrency (fileSize chunkCount : number) : Z :=
  let n := Z.max 0 (num_or chunkCount 0) in
  if n <=? 1 then 1
  else
    let size := num_or fileSize 0 in
    let limit := if size <? 32 * MiB then 3 else if size <? 256 * MiB then 5 else 6 in
    Z.min limit n.

(** ** Parts of the file *)
Inductive chunk_status := Pending | Uploading | Done | Errored | Retrying.

#[export] Instance chunk_status_eq_dec : EqDecision chunk_status.
Proof. solve_decision. Defined.

Record chunk_state := {
  c_index : nat;
  c_loaded : Z;
  c_total : Z;
  c_status : chunk_status;
  c_attempt : Z;
}.

Definition chunk_start (chunkSize : Z) (i : nat) : Z := Z.of_nat i * chunkSize.
Definition chunk_end (fileSize chunkSize : Z) (i : nat) : Z := Z.min (chunk_start chunkSize i + chunkSize) fileSize.

(** [file.slice(start, end)]. *)
Definition chunk_blob (chunkSize : Z) (file : bytes) (i : nat) : bytes :=
  let start := chunk_start chunkSize i in
  let end_ := chunk_end (Z.of_nat (length file)) chunkSize i in
  take (Z.to_nat (end_ - start)) (drop (Z.to_nat start) file).

Definition initial_chunk (fileSize chunkSize : Z) (i : nat) : chunk_state :=
  {| c_index := i; c_loaded := 0;
     c_total := Z.max 0 (chunk_end fileSize chunkSize i - chunk_start chunkSize i);
     c_status := Pending; c_attempt := 0 |}.

Definition chunk_plan (fileSize chunkSize : Z) (chunkCount : nat) : list chunk_state :=
  map (initial_chunk fileSize chunkSize) (seq 0 chunkCount).

(** Delay before retry number [attempt >= 1]. *)
Definition retry_delay (attempt : nat) : Z := CHUNK_RETRY_BASE_MS * 2 ^ Z.of_nat (attempt - 1).

Section upload.
(** [JSON.parse], failing on malformed text. *)
Context {json : Type} (parse_json : jstr -> option json).

Definition tryParseJsonError (text : jstr) : option json :=
  match text with [] => None | _ => parse_json text end.

(** What a chunk's XHR ends with, and the value [putChunkWithProgress] resolves to. *)
Inductive xhr_outcome :=
| XhrLoad (status : Z) (text errorCode : jstr)
| XhrError
| XhrAbort.

Record put_result := {
  p_ok : bool;
  p_status : Z;
  p_body : option json;
  p_responseText : jstr;
  p_errorCode : jstr;
}.

Definition putChunkWithProgress (o : xhr_outcome) : put_result :=
  match o with
  | XhrLoad status text code =>
    {| p_ok := (200 <=? status) && (status <? 300); p_status := status;
       p_body := tryParseJsonError text; p_responseText := text; p_errorCode := code |}
  | XhrError => {| p_ok := false; p_status := 0; p_body := None; p_responseText := js "network error"; p_errorCode := [] |}
  | XhrAbort => {| p_ok := false; p_status := 0; p_body := None; p_responseText := js "aborted"; p_errorCode := [] |}
  end.

(** An [Error] with the properties [Object.assign] puts on it; empty strings are missing. *)
Record upload_error := {
  e_message : jstr;
  e_status : Z;
  e_body : option json;
  e_responseText : jstr;
  e_errorCode : jstr;
}.

Definition aborted_error (text : jstr) : upload_error :=
  {| e_message := js "aborted"; e_status := 0; e_body := None; e_responseText := text; e_errorCode := [] |}.

Definition chunk_error (fallback : jstr) (r : put_result) : upload_error :=
  {| e_message := str_or (p_responseText r) fallback; e_status := p_status r; e_body := p_body r;
     e_responseText := p_responseText r; e_errorCode := p_errorCode r |}.

(** ** The worker pool *)

(** Where a worker is suspended: in the back-off [sleep] before attempt [a] of chunk [i], in its
    PUT, at [await uploadOneChunk(index)] once that call has returned, or finished. *)
Inductive worker_phase :=
| WSleep (i a : nat)
| WPut (i a : nat)
| WReturn (e : option upload_error)
| WDone.

Record config := {
  fileSize : Z;
  chunkSize : Z;
  chunkCount : nat;
  concurrency : Z;
  maxRetries : nat;
}.

Record pool := {
  chunks : list chunk_state;
  nextIndex : nat;
  firstError : option upload_error;
  aborted : bool;
  workers : list worker_phase;
  progressRaf : bool;
  progressDirty : bool;
  reports : list (Z * Z);
  puts : list (nat * nat);
}.

Context (cfg : config).

Definition set_chunks (cs : list chunk_state) (s : pool) : pool :=
  {| chunks := cs; nextIndex := nextIndex s; firstError := firstError s; aborted := aborted s;
     workers := workers s; progressRaf := progressRaf s; progressDirty := progressDirty s;
     reports := reports s; puts := puts s |}.
Definition set_nextIndex (n : nat) (s : pool) : pool :=
  {| chunks := chunks s; nextIndex := n; firstError := firstError s; aborted := aborted s;
     workers := workers s; progressRaf := progressRaf s; progressDirty := progressDirty s;
     reports := reports s; puts := puts s |}.
Definition set_firstError (e : option upload_error) (s : pool) : pool :=
  {| chunks := chunks s; nextIndex := nextIndex s; firstError := e; aborted := aborted s;
     workers := workers s; progressRaf := progressRaf s; progressDirty := progressDirty s;
     reports := reports s; puts := puts s |}.
Definition set_aborted (b : bool) (s : pool) : pool :=
  {| chunks := chunks s; nextIndex := nextIndex s; firstError := firstError s; aborted := b;
     workers := workers s; progressRaf := progressRaf s; progressDirty := progressDirty s;
     reports := reports s; puts := puts s |}.
Definition set_workers (ws : list worker_phase) (s : pool) : pool :=
  {| chunks := chunks s; nextIndex := nextIndex s; firstError := firstError s; aborted := aborted s;
     workers := ws; progressRaf := progressRaf s; progressDirty := progressDirty s;
     reports := reports s; puts := puts s |}.
Definition set_progress (raf dirty : bool) (rs : list (Z * Z)) (s : pool) : pool :=
  {| chunks := chunks s; nextIndex := nextIndex s; firstError := firstError s; aborted := aborted s;
     workers := workers s; progressRaf := raf; progressDirty := dirty; reports := rs; puts := puts s |}.
Definition add_put (p : nat * nat) (s : pool) : pool :=
  {| chunks := chunks s; nextIndex := nextIndex s; firstError := firstError s; aborted := aborted s;
     workers := workers s; progressRaf := progressRaf s; progressDirty := progressDirty s;
     reports := reports s; puts := puts s ++ [p] |}.

Definition total_loaded (cs : list chunk_state) : Z := foldr (fun c acc => c_loaded c + acc) 0 cs.

(** [reports] collects the calls of [onProgress]. *)
Definition flushProgress (s : pool) : pool :=
  set_progress false false (reports s ++ [(Z.min (total_loaded (chunks s)) (fileSize cfg), fileSize cfg)]) s.

Definition emitChunkProgress (immediate : bool) (s : pool) : pool :=
  if immediate then flushProgress s else set_progress true true (reports s) s.

Definition update_chunk (i : nat) (f : chunk_state -> chunk_state) (s : pool) : pool :=
  set_chunks (alter f i (chunks s)) s.

Definition with_status (st : chunk_status) (c : chunk_state) : chunk_state :=
  {| c_index := c_index c; c_loaded := c_loaded c; c_total := c_total c; c_status := st; c_attempt := c_attempt c |}.
Definition begin_attempt (a : nat) (c : chunk_state) : chunk_state :=
  {| c_index := c_index c; c_loaded := 0; c_total := c_total c;
     c_status := if (a =? 0)%nat then Uploading else Retrying; c_attempt := Z.of_nat a + 1 |}.
Definition note_loaded (a : nat) (loaded : Z) (c : chunk_state) : chunk_state :=
  {| c_index := c_index c; c_loaded := Z.min loaded (c_total c); c_total := c_total c;
     c_status := if (a =? 0)%nat then Uploading else Retrying; c_attempt := c_attempt c |}.
Definition finish_chunk (c : chunk_state) : chunk_state :=
  {| c_index := c_index c; c_loaded := c_total c; c_total := c_total c; c_status := Done; c_attempt := c_attempt c |}.

Definition mark_error (i : nat) (s : pool) : pool := emitChunkProgress true (update_chunk i (with_status Errored) s).

(** The top of the attempt loop of [uploadOneChunk(index)], down to its first [await] or return. *)
Definition attempt_top (i a : nat) (s : pool) : pool * worker_phase :=
  if aborted s then (mark_error i s, WReturn (Some (aborted_error (js "aborted"))))
  else match firstError s with
       | Some e => (s, WReturn (Some e))
       | None =>
         let s1 := emitChunkProgress true (update_chunk i (begin_attempt a) s) in
         if (0 <? a)%nat then (s1, WSleep i a) else (add_put (i, a) s1, WPut i a)
       end.

(** After the back-off. *)
Definition after_sleep (i a : nat) (s : pool) : pool * worker_phase :=
  if aborted s || bool_decide (is_Some (firstError s))
  then (mark_error i s, WReturn (Some (default (aborted_error []) (firstError s))))
  else (add_put (i, a) s, WPut i a).

(** After the PUT of attempt [a] resolved with [r]. *)
Definition after_put (i a : nat) (r : put_result) (s : pool) : pool * worker_phase :=
  let fails suffix :=
    (mark_error i s, WReturn (Some (chunk_error (js "chunk " ++ show_Z (Z.of_nat i) ++ suffix) r))) in
  if p_ok r then (emitChunkProgress true (update_chunk i finish_chunk s), WReturn None)
  else if (400 <=? p_status r) && (p_status r <? 500) && negb (p_status r =? 408) && negb (p_status r =? 429)
  then fails (js " failed")
  else if (a =? maxRetries cfg)%nat then fails (js " failed after retries")
  else attempt_top i (S a) s.

(** The top of the loop of [worker], down to its next suspension. *)
Definition worker_top (s : pool) : pool * worker_phase :=
  if aborted s then (set_firstError (Some (default (aborted_error []) (firstError s))) s, WDone)
  else match firstError s with
       | Some _ => (s, WDone)
       | None =>
         let index := nextIndex s in
         let s1 := set_nextIndex (S index) s in
         if (chunkCount cfg <=? index)%nat then (s1, WDone) else attempt_top index 0 s1
       end.

(** After [await uploadOneChunk(index)]. *)
Definition after_chunk (e : option upload_error) (s : pool) : pool * worker_phase :=
  match e with
  | Some err => (set_firstError (Some (default err (firstError s))) s, WDone)
  | None => worker_top s
  end.

Inductive pool_event :=
| EvAbort
| EvFrame
| EvProgress (w : nat) (loaded : Z)
| EvWake (w : nat)
| EvResult (w : nat) (o : xhr_outcome)
| EvResume (w : nat).

Definition resume (w : nat) (r : pool * worker_phase) : pool := set_workers (<[w := r.2]> (workers r.1)) r.1.

(** One event; [None] when it cannot happen in this state. *)
Definition pool_step (ev : pool_event) (s : pool) : option pool :=
  match ev with
  | EvAbort => if aborted s then None else Some (set_aborted true s)
  | EvFrame => if progressRaf s then Some (flushProgress s) else None
  | EvProgress w loaded =>
    match workers s !! w with
    | Some (WPut i a) =>
      if loaded <? 0 then None
      else Some (emitChunkProgress false (update_chunk i (note_loaded a loaded) s))
    | _ => None
    end
  | EvWake w =>
    match workers s !! w with
    | Some (WSleep i a) => Some (resume w (after_sleep i a s))
    | _ => None
    end
  | EvResult w o =>
    match workers s !! w with
    | Some (WPut i a) => Some (resume w (after_put i a (putChunkWithProgress o) s))
    | _ => None
    end
  | EvResume w =>
    match workers s !! w with
    | Some (WReturn e) => Some (resume w (after_chunk e s))
    | _ => None
    end
  end.

Fixpoint pool_run (evs : list pool_event) (s : pool) : option pool :=
  match evs with
  | [] => Some s
  | ev :: evs' => s' ← pool_step ev s; pool_run evs' s'
  end.

(** The state before the workers start: the plan, after [emitChunkProgress(true)]. *)
Definition pool_init (isAborted : bool) : pool :=
  emitChunkProgress true
    {| chunks := chunk_plan (fileSize cfg) (chunkSize cfg) (chunkCount cfg); nextIndex := 0;
       firstError := None; aborted := isAborted; workers := []; progressRaf := false;
       progressDirty := false; reports := []; puts := [] |}.

(** [workers.push(worker())], [n] times: each worker runs to its first suspension. *)
Fixpoint start_workers (n : nat) (s : pool) : pool :=
  match n with
  | O => s
  | S n' =>
    let '(s1, phase) := worker_top s in
    start_workers n' (set_workers (workers s1 ++ [phase]) s1)
  end.

Definition pool_start : pool :=
  start_workers (Nat.min (Z.to_nat (concurrency cfg)) (chunkCount cfg)) (pool_init false).

Definition is_done (p : worker_phase) : bool := match p with WDone => true | _ => false end.

Definition all_done (s : pool) : bool := forallb is_done (workers s).

(** After [await Promise.all(workers)]. *)
Definition pool_finish (s : pool) : pool :=
  let s1 := set_progress false (progressDirty s) (reports s) s in
  if progressDirty s1 then flushProgress s1 else s1.
End upload.

(** ** The whole upload *)
Section session.
Context {json payload : Type} (parse_json : jstr -> option json).

Record upload_options := {
  o_chunkSize : number;
  o_maxRetries : option Z;
  o_concurrency : number;
}.

(** The answers of the server outside the part transfers: to the [init] request (with the decoded
    [upload_id] left abstract), and to [complete]. *)
Inductive init_outcome :=
| InitThrown
| InitHttpError (status : Z) (text errorCode : jstr)
| InitMalformed (status : Z) (text : jstr)
| InitOk (chunk_size chunk_count : number).

Inductive complete_outcome :=
| CompleteThrown
| CompleteHttpError (status : Z) (text errorCode : jstr)
| CompleteOk (status : Z) (body : option payload) (reviewID : jstr).

Inductive result_body := BodyNull | BodyError (j : json) | BodyComplete (p : payload).

Definition body_of_error (j : option json) : result_body :=
  match j with Some j => BodyError j | None => BodyNull end.

Inductive upload_outcome :=
| Returned (ok : bool) (status : Z) (body : result_body) (responseText errorCode reviewID : jstr)
| Thrown.

(** Requests that the client sends, in order. *)
Inductive upload_request :=
| ReqInit
| ReqPut (index attempt : nat)
| ReqComplete
| ReqDelete.

Record upload_result := {
  u_outcome : upload_outcome;
  u_requests : list upload_request;
  u_chunks : list chunk_state;
  u_reports : list (Z * Z);
}.

Definition session_config (size : Z) (options : upload_options) (chunk_size chunk_count : number) : config :=
  let preferredChunk := num_or (o_chunkSize options) (suggestChunkSize (Some size)) in
  let count := num_or chunk_count 0 in
  {| fileSize := size;
     chunkSize := num_or chunk_size preferredChunk;
     chunkCount := Z.to_nat count;
     concurrency := Z.max 1 (num_or (o_concurrency options) (suggestConcurrency (Some size) (Some count)));
     maxRetries := Z.to_nat (Z.max 0 (default (Z.of_nat CHUNK_MAX_RETRIES) (o_maxRetries options))) |}.

Definition put_requests (puts : list (nat * nat)) : list upload_request :=
  map (fun p => ReqPut p.1 p.2) puts.

(** The [complete] request after the pool [s] has finished without an error. *)
Definition complete_upload (cfg : config) (s : pool (json := json)) (complete : complete_outcome) : upload_result :=
  let sent := [ReqInit] ++ put_requests (puts s) ++ [ReqComplete] in
  let failed outcome :=
    {| u_outcome := outcome; u_requests := sent ++ [ReqDelete]; u_chunks := chunks s; u_reports := reports s |} in
  match complete with
  | CompleteThrown => failed Thrown
  | CompleteHttpError status text code =>
    failed (Returned false status (body_of_error (tryParseJsonError parse_json text)) text code [])
  | CompleteOk status body review =>
    let reported := set_progress (progressRaf s) (progressDirty s)
      (reports s ++ [(fileSize cfg, fileSize cfg)]) s in
    let done_ := emitChunkProgress cfg true (set_chunks (map finish_chunk (chunks s)) reported) in
    {| u_outcome := Returned true status (match body with Some p => BodyComplete p | None => BodyNull end) [] [] review;
       u_requests := sent; u_chunks := chunks done_; u_reports := reports done_ |}
  end.

(** [uploadFileChunked]: [init] is the answer to the init request, [abortedEarly] whether the signal
    is aborted when the plan is ready, [schedule] the events of the pool and [complete] the answer to
    the completion request.  [None] when [schedule] is not a complete run of the pool. *)
Definition uploadFileChunked (size : Z) (options : upload_options) (init : init_outcome) (abortedEarly : bool)
    (schedule : list pool_event) (complete : complete_outcome) : option upload_result :=
  let early outcome :=
    Some {| u_outcome := outcome; u_requests := [ReqInit]; u_chunks := []; u_reports := [] |} in
  match init with
  | InitThrown => early Thrown
  | InitHttpError status text code =>
    early (Returned false status (body_of_error (tryParseJsonError parse_json text)) text code [])
  | InitMalformed status text => early (Returned false status BodyNull text [] [])
  | InitOk chunk_size chunk_count =>
    let cfg := session_config size options chunk_size chunk_count in
    let s0 := pool_init (json := json) cfg abortedEarly in
    if abortedEarly then
      Some {| u_outcome := Returned false 0 BodyNull (js "aborted") [] []; u_requests := [ReqInit; ReqDelete];
              u_chunks := chunks s0; u_reports := reports s0 |}
    else if (chunkCount cfg =? 0)%nat then
      Some (complete_upload cfg (set_progress false false (reports s0 ++ [(0, 0)]) s0) complete)
    else
      s ← pool_run parse_json cfg schedule (pool_start cfg);
      if all_done s then
        let s' := pool_finish cfg s in
        match firstError s' with
        | Some e =>
          Some {| u_outcome := Returned false (e_status e) (body_of_error (e_body e))
                    (str_or (e_responseText e) (e_message e)) (e_errorCode e) [];
                  u_requests := [ReqInit] ++ put_requests (puts s') ++ [ReqDelete];
                  u_chunks := chunks s'; u_reports := reports s' |}
        | None => Some (complete_upload cfg s' complete)
        end
      else None
  end.
End session.

(** ** Invariant of the pool *)
Section invariant.
Context {json : Type} (parse_json : jstr -> option json) (cfg : config).
Local Abbreviation pool := (pool (json := json)).

(** The chunk a suspended worker owns, with a bound on the attempts it has already sent. *)
Definition claim_of (p : worker_phase (json := json)) : option (nat * nat) :=
  match p with
  | WSleep i a => Some (i, a)
  | WPut i a => Some (i, S a)
  | _ => None
  end.

Definition chunk_ok (i : nat) (c : chunk_state) : Prop :=
  c_index c = i /\ c_total c = c_total (initial_chunk (fileSize cfg) (chunkSize cfg) i) /\
  0 <= c_loaded c <= c_total c /\ (c_status c = Done -> c_loaded c = c_total c) /\
  0 <= c_attempt c <= Z.of_nat (maxRetries cfg) + 1.

Definition chunk_done (s : pool) (i : nat) : Prop := exists c, chunks s !! i = Some c /\ c_status c = Done.

Definition failing (s : pool) : Prop :=
  is_Some (firstError s) \/ exists w e, workers s !! w = Some (WReturn (Some e)).

Definition phase_ok (s : pool) (p : worker_phase (json := json)) : Prop :=
  match p with
  | WSleep i a => (i < nextIndex s /\ i < chunkCount cfg /\ a <= maxRetries cfg)%nat
  | WPut i a => (i < nextIndex s /\ i < chunkCount cfg /\ a <= maxRetries cfg)%nat /\ (i, a) ∈ puts s
  | WReturn _ => True
  | WDone => is_Some (firstError s) \/ (chunkCount cfg <= nextIndex s)%nat
  end.

Record pool_inv (s : pool) : Prop := {
  inv_length : length (chunks s) = chunkCount cfg;
  inv_chunks i c : chunks s !! i = Some c -> chunk_ok i c;
  inv_phases w p : workers s !! w = Some p -> phase_ok s p;
  inv_owner w1 w2 p1 p2 i b1 b2 :
    workers s !! w1 = Some p1 -> claim_of p1 = Some (i, b1) ->
    workers s !! w2 = Some p2 -> claim_of p2 = Some (i, b2) -> w1 = w2;
  inv_claimed i : (i < nextIndex s)%nat -> (i < chunkCount cfg)%nat ->
    chunk_done s i \/ (exists w p b, workers s !! w = Some p /\ claim_of p = Some (i, b)) \/ failing s;
  inv_sent i a : (i, a) ∈ puts s -> (i < nextIndex s /\ a <= maxRetries cfg)%nat /\
    forall w p b, workers s !! w = Some p -> claim_of p = Some (i, b) -> (a < b)%nat;
  inv_once : NoDup (puts s);
  inv_delivered i : chunk_done s i -> exists a, (i, a) ∈ puts s;
  inv_reports : 0 <= fileSize cfg ->
    Forall (fun r => 0 <= r.1 <= fileSize cfg /\ r.2 = fileSize cfg) (reports s);
  inv_current : progressDirty s = false ->
    last (reports s) = Some (Z.min (total_loaded (chunks s)) (fileSize cfg), fileSize cfg);
}.

Lemma total_loaded_nonneg cs : (forall i c, cs !! i = Some c -> chunk_ok i c) -> 0 <= total_loaded cs.
Proof.
  intros Hok. assert (Hl : forall i c, cs !! i = Some c -> 0 <= c_loaded c) by (intros i c Hc; apply Hok in Hc as (?&?&?&?); lia).
  clear Hok. induction cs as [|c cs IH]; simpl; [lia|].
  specialize (Hl 0%nat c eq_refl) as H0. specialize (IH (fun i => Hl (S i))). lia.
Qed.

Lemma inv_phase s w p q :
  pool_inv s -> workers s !! w = Some p -> phase_ok s q ->
  (forall i b, claim_of q = Some (i, b) -> exists b', claim_of p = Some (i, b') /\ (b' <= b)%nat) ->
  (forall i b, claim_of p = Some (i, b) -> claim_of q = None -> chunk_done s i \/ exists e, q = WReturn (Some e)) ->
  (forall e, p = WReturn (Some e) -> is_Some (firstError s)) ->
  pool_inv (set_workers (<[w := q]> (workers s)) s).
Proof.
  intros [Hlen Hch Hph Hown Hcl Hsent Honce Hdel Hrep Hcur] Hw Hq Hsub Hrel Hfail.
  assert (Hf : failing s -> failing (set_workers (<[w := q]> (workers s)) s)).
  { intros [He|(w' & e & Hw')]; [by left|]. destruct (decide (w' = w)) as [->|].
    - left. simplify_eq. by eapply Hfail.
    - right. exists w', e. simpl. by rewrite list_lookup_insert_ne. }
  split; simpl; [done|done| | | | |done..].
  - intros w' p' [[-> ->]|[_ Hw']]%list_insert_cases; [by destruct q|]. by specialize (Hph _ _ Hw'); destruct p'.
  - intros w1 w2 p1 p2 i b1 b2 [[-> ->]|[Hn1 Hw1]]%list_insert_cases Hc1
      [[-> ->]|[Hn2 Hw2]]%list_insert_cases Hc2; [done| | |by eapply Hown].
    + destruct (Hsub _ _ Hc1) as (b' & Hp & _). by eapply Hown.
    + destruct (Hsub _ _ Hc2) as (b' & Hp & _). by eapply Hown.
  - intros i Hi Hc. destruct (Hcl i Hi Hc) as [Hd|[(w' & p' & b & Hw' & Hp')|Hfl]]; [by left| |by auto].
    destruct (decide (w' = w)) as [->|Hne].
    + simplify_eq. destruct (claim_of q) as [[j b']|] eqn:Hq'.
      * destruct (Hsub _ _ eq_refl) as (b'' & Hp & _). simplify_eq.
        right; left. exists w, q, b'. split; [by eapply list_insert_hit|done].
      * destruct (Hrel _ _ Hp' eq_refl) as [Hd|[e ->]]; [by left|].
        right; right; right. exists w, e. simpl. by eapply list_insert_hit.
    + right; left. exists w', p', b. by rewrite list_lookup_insert_ne.
  - intros i a Hin. destruct (Hsent i a Hin) as [Hb Ho]. split; [done|].
    intros w' p' b [[-> ->]|[_ Hw']]%list_insert_cases Hc; [|by eapply Ho].
    destruct (Hsub _ _ Hc) as (b' & Hp & Hle). specialize (Ho _ _ _ Hw Hp). lia.
Qed.

(** A change of one's own chunk, announced at once or in the next frame. *)
Lemma inv_update_chunk s w p i b f imm :
  pool_inv s -> workers s !! w = Some p -> claim_of p = Some (i, b) ->
  (forall c, chunk_ok i c -> chunk_ok i (f c)) ->
  (forall c, c_status (f c) = Done -> exists a, (i, a) ∈ puts s) ->
  pool_inv (emitChunkProgress cfg imm (update_chunk i f s)).
Proof.
  intros [Hlen Hch Hph Hown Hcl Hsent Honce Hdel Hrep Hcur] Hw Hp Hf Hd.
  assert (Hch' : forall j c, alter f i (chunks s) !! j = Some c -> chunk_ok j c)
    by (intros j c [[-> (c' & Hc' & ->)]|[_ Hc]]%list_alter_cases; eauto).
  assert (Hcl' : forall j, (j < nextIndex s)%nat -> (j < chunkCount cfg)%nat ->
    chunk_done (update_chunk i f s) j \/
    (exists w p b, workers s !! w = Some p /\ claim_of p = Some (j, b)) \/ failing s).
  { intros j Hj Hjc. destruct (decide (j = i)) as [->|Hne]; [right; left; by exists w, p, b|].
    destruct (Hcl j Hj Hjc) as [(c & Hc & Hdn)|Ho]; [left|by right].
    exists c. simpl. by rewrite list_lookup_alter_ne. }
  assert (Hdel' : forall j, chunk_done (update_chunk i f s) j -> exists a, (j, a) ∈ puts s).
  { intros j (c & Hc & Hdn). simpl in Hc.
    apply list_alter_cases in Hc as [[-> (c' & _ & ->)]|[_ Hc]]; [by eapply Hd|]. apply Hdel. by exists c. }
  destruct imm; split; simpl; try done; try (by rewrite length_alter).
  - intros Hs. apply Forall_app. split; [by apply Hrep|]. repeat constructor; simpl; try lia.
    pose proof (total_loaded_nonneg _ Hch'). lia.
  - intros _. by rewrite last_snoc.
Qed.

Lemma inv_flush s : pool_inv s -> pool_inv (flushProgress cfg s).
Proof.
  intros [Hlen Hch Hph Hown Hcl Hsent Honce Hdel Hrep Hcur]. split; simpl; try done.
  - intros Hs. apply Forall_app. split; [by apply Hrep|]. repeat constructor; simpl; try lia.
    pose proof (total_loaded_nonneg _ Hch). lia.
  - intros _. by rewrite last_snoc.
Qed.

Lemma inv_aborted b s : pool_inv s -> pool_inv (set_aborted b s).
Proof. intros [??????????]. by split. Qed.

Lemma inv_firstError e s : pool_inv s -> pool_inv (set_firstError (Some e) s).
Proof.
  intros [Hlen Hch Hph Hown Hcl Hsent Honce Hdel Hrep Hcur]. split; simpl; [done|done| |done| |done..].
  - intros w p Hw. specialize (Hph w p Hw). destruct p; simpl in *; [done|done|done|]. left. by eexists.
  - intros i Hi Hc. right; right; left. by eexists.
Qed.

(** A PUT is sent for the attempt its worker was waiting to make. *)
Lemma inv_put s w i a :
  pool_inv s -> workers s !! w = Some (WSleep i a) ->
  pool_inv (set_workers (<[w := WPut i a]> (workers s)) (add_put (i, a) s)).
Proof.
  intros [Hlen Hch Hph Hown Hcl Hsent Honce Hdel Hrep Hcur] Hw. pose proof (Hph _ _ Hw) as Hok. simpl in Hok.
  assert (Hnew : (i, a) ∉ puts s).
  { intros Hin. destruct (Hsent _ _ Hin) as [_ Ho]. specialize (Ho _ _ _ Hw eq_refl). lia. }
  split; simpl in *; [done|done| | | | | | |done..].
  - intros w' p [[-> ->]|[_ Hw']]%list_insert_cases; simpl.
    + split; [done|]. apply elem_of_app. right. by apply list_elem_of_singleton.
    + specialize (Hph _ _ Hw'). destruct p; simpl in *; try done.
      split; [tauto|]. apply elem_of_app. tauto.
  - intros w1 w2 p1 p2 j b1 b2 [[-> ->]|[Hn1 Hw1]]%list_insert_cases Hc1
      [[-> ->]|[Hn2 Hw2]]%list_insert_cases Hc2; simpl in *; simplify_eq; eauto.
  - intros j Hj Hjc. destruct (Hcl j Hj Hjc) as [Hd|[(w' & p & b & Hw' & Hp)|Hfl]]; [by left|right; left|right; right].
    + destruct (decide (w' = w)) as [->|Hne].
      * simplify_eq. simpl in Hp. simplify_eq. exists w, (WPut j b), (S b). split; [by eapply list_insert_hit|done].
      * exists w', p, b. by rewrite list_lookup_insert_ne.
    + destruct Hfl as [He|(w' & e & Hw')]; [by left|right]. exists w', e. simpl.
      rewrite list_lookup_insert_ne; [done|]. intros ->. simplify_eq.
  - intros j a'. rewrite elem_of_app, list_elem_of_singleton. intros [Hin|[= -> ->]].
    + destruct (Hsent _ _ Hin) as [Hb Ho]. split; [done|].
      intros w' p b [[-> ->]|[Hne Hw']]%list_insert_cases Hc; simpl in *; simplify_eq; [|by eapply Ho].
      specialize (Ho _ _ _ Hw eq_refl). lia.
    + split; [lia|]. intros w' p b [[-> ->]|[Hne Hw']]%list_insert_cases Hc; simpl in *; simplify_eq; [lia|].
      exfalso. apply Hne. by eapply Hown.
  - apply NoDup_app. split_and!; [done| |by apply NoDup_singleton].
    intros x Hx ->%list_elem_of_singleton. done.
  - intros j Hj. destruct (Hdel j Hj) as [a' Ha']. exists a'. apply elem_of_app. by left.
Qed.

(** A free worker claims the next chunk. *)
Lemma inv_claim s w :
  pool_inv s -> workers s !! w = Some (WReturn None) -> (nextIndex s < chunkCount cfg)%nat ->
  pool_inv (set_workers (<[w := WSleep (nextIndex s) 0]> (workers s)) (set_nextIndex (S (nextIndex s)) s)).
Proof.
  intros [Hlen Hch Hph Hown Hcl Hsent Honce Hdel Hrep Hcur] Hw Hn.
  assert (Hold : forall w' p i b, workers s !! w' = Some p -> claim_of p = Some (i, b) -> (i < nextIndex s)%nat).
  { intros w' p i b Hw' Hp. specialize (Hph _ _ Hw'). destruct p; simpl in *; simplify_eq; tauto. }
  split; simpl; [done|done| | | | |done..].
  - intros w' p [[-> ->]|[_ Hw']]%list_insert_cases; simpl; [lia|].
    specialize (Hph _ _ Hw'). destruct p; simpl in *; [lia|split; [lia|tauto]|done|]. destruct Hph; [by left|right; lia].
  - intros w1 w2 p1 p2 i b1 b2 [[-> ->]|[Hn1 Hw1]]%list_insert_cases Hc1
      [[-> ->]|[Hn2 Hw2]]%list_insert_cases Hc2; simpl in *; simplify_eq; [done| | |by eapply Hown].
    + specialize (Hold _ _ _ _ Hw2 Hc2). lia.
    + specialize (Hold _ _ _ _ Hw1 Hc1). lia.
  - intros i Hi Hc. destruct (decide (i = nextIndex s)) as [->|Hne].
    { right; left. exists w, (WSleep (nextIndex s) 0), 0%nat. split; [by eapply list_insert_hit|done]. }
    destruct (Hcl i ltac:(lia) Hc) as [Hd|[(w' & p' & b & Hw' & Hp')|Hfl]]; [by left| |].
    + right; left. exists w', p', b. rewrite list_lookup_insert_ne; [done|]. intros ->. simplify_eq.
    + right; right. destruct Hfl as [He|(w' & e & Hw')]; [by left|right]. exists w', e. simpl.
      rewrite list_lookup_insert_ne; [done|]. intros ->. simplify_eq.
  - intros i a Hin. destruct (Hsent i a Hin) as [Hb Ho]. split; [lia|].
    intros w' p b [[-> ->]|[_ Hw']]%list_insert_cases Hc; [simpl in Hc; simplify_eq; lia|by eapply Ho].
Qed.

Lemma chunk_ok_errored i c : chunk_ok i c -> chunk_ok i (with_status Errored c).
Proof. unfold chunk_ok; simpl. intros (?&?&?&?&?). split_and!; try done; lia. Qed.

Lemma chunk_ok_begin i a c : (a <= maxRetries cfg)%nat -> chunk_ok i c -> chunk_ok i (begin_attempt a c).
Proof. unfold chunk_ok; simpl. intros Ha (?&?&?&?&?). split_and!; try done; try lia. by case_match. Qed.

Lemma chunk_ok_loaded i a l c : 0 <= l -> chunk_ok i c -> chunk_ok i (note_loaded a l c).
Proof. unfold chunk_ok; simpl. intros Ha (?&?&?&?&?). split_and!; try done; try lia. by case_match. Qed.

Lemma chunk_ok_finish i c : chunk_ok i c -> chunk_ok i (finish_chunk c).
Proof. unfold chunk_ok; simpl. intros (?&?&?&?&?). split_and!; try done; lia. Qed.

Lemma attempt_top_workers i a ws (s : pool) :
  attempt_top cfg i a (set_workers ws s)
  = (set_workers ws (attempt_top cfg i a s).1, (attempt_top cfg i a s).2).
Proof.
  unfold attempt_top; simpl. destruct (aborted s); [done|]. destruct (firstError s); [done|].
  by destruct (0 <? a)%nat.
Qed.

Lemma attempt_top_keeps i a (s : pool) : workers (attempt_top cfg i a s).1 = workers s.
Proof. unfold attempt_top. repeat case_match; simplify_eq; done. Qed.

Lemma resume_attempt_top w q i a (s : pool) :
  resume w (attempt_top cfg i a (set_workers (<[w := q]> (workers s)) s)) = resume w (attempt_top cfg i a s).
Proof.
  rewrite attempt_top_workers. unfold resume. simpl. rewrite list_insert_insert_eq, attempt_top_keeps.
  by destruct (attempt_top cfg i a s).
Qed.

(** Failing with an error reported to the worker, or with one already noted. *)
Lemma inv_fail s w p e :
  pool_inv s -> workers s !! w = Some p -> (forall e', p <> WReturn (Some e')) ->
  pool_inv (set_workers (<[w := WReturn (Some e)]> (workers s)) s).
Proof.
  intros Hinv Hw Hp. apply (inv_phase s w p); try done; [|by intros ? ->; edestruct Hp].
  intros i b _ _. right. by eexists.
Qed.

Lemma inv_mark_error s w p i b e :
  pool_inv s -> workers s !! w = Some p -> claim_of p = Some (i, b) ->
  pool_inv (resume w (mark_error cfg i s, WReturn (Some e))).
Proof.
  intros Hinv Hw Hp. unfold resume; simpl.
  apply (inv_fail (mark_error cfg i s) w p); [|done|by intros e' ->].
  apply (inv_update_chunk s w p i b); auto using chunk_ok_errored. done.
Qed.

Lemma inv_attempt_top s w i a :
  pool_inv s -> workers s !! w = Some (WSleep i a) -> pool_inv (resume w (attempt_top cfg i a s)).
Proof.
  intros Hinv Hw. pose proof (inv_phases _ Hinv _ _ Hw) as (_ & _ & Ha). unfold attempt_top.
  destruct (aborted s); [by eapply inv_mark_error|].
  destruct (firstError s) as [e|] eqn:He; [by eapply (inv_fail s)|].
  assert (Hs1 : pool_inv (emitChunkProgress cfg true (update_chunk i (begin_attempt a) s))).
  { apply (inv_update_chunk s w (WSleep i a) i a); auto using chunk_ok_begin. intros c; simpl. by case_match. }
  destruct (Nat.ltb_spec 0 a).
  - apply (inv_phase _ w (WSleep i a)); try done; simpl; eauto.
    exact (inv_phases _ Hs1 w (WSleep i a) Hw).
  - exact (inv_put _ w i a Hs1 Hw).
Qed.

Lemma inv_after_sleep s w i a :
  pool_inv s -> workers s !! w = Some (WSleep i a) -> pool_inv (resume w (after_sleep cfg i a s)).
Proof.
  intros Hinv Hw. unfold after_sleep. destruct (_ || _); [by eapply inv_mark_error|].
  exact (inv_put s w i a Hinv Hw).
Qed.

Lemma inv_after_put s w i a r :
  pool_inv s -> workers s !! w = Some (WPut i a) -> pool_inv (resume w (after_put cfg i a r s)).
Proof.
  intros Hinv Hw. pose proof (inv_phases _ Hinv _ _ Hw) as ((Hn & Hc & Ha) & Hsent). unfold after_put.
  destruct (p_ok r).
  { apply (inv_phase _ w (WPut i a)); try done.
    - apply (inv_update_chunk s w (WPut i a) i (S a)); eauto using chunk_ok_finish.
    - intros j b [= <- <-] _. left.
      destruct (lookup_lt_is_Some_2 (chunks s) i) as [c Hci]; [by rewrite (inv_length _ Hinv)|].
      exists (finish_chunk c). simpl. by rewrite list_lookup_alter_eq, Hci. }
  destruct (_ && _); [by eapply inv_mark_error|].
  destruct (Nat.eqb_spec a (maxRetries cfg)); [by eapply inv_mark_error|].
  rewrite <- (resume_attempt_top w (WSleep i (S a))).
  apply inv_attempt_top; [|simpl; by eapply list_insert_hit].
  apply (inv_phase s w (WPut i a)); try done; [simpl; lia|].
  intros j b [= <- <-]. eauto.
Qed.

Lemma inv_worker_top s w :
  pool_inv s -> workers s !! w = Some (WReturn None) -> pool_inv (resume w (worker_top cfg s)).
Proof.
  intros Hinv Hw. unfold worker_top. destruct (aborted s).
  { apply (inv_phase _ w (WReturn None)); try done; [by apply inv_firstError|left; by eexists]. }
  destruct (firstError s) as [e|] eqn:He.
  { apply (inv_phase s w (WReturn None)); try done. left. by eexists. }
  destruct (Nat.leb_spec (chunkCount cfg) (nextIndex s)) as [Hle|Hlt].
  - destruct (inv_phase s w (WReturn None) WDone) as [Hlen Hch Hph Hown Hcl Hsent Honce Hdel Hrep Hcur];
      [done|done|by right|done..|].
    split; simpl in *; [done|done| |done| | |done..].
    + intros w' p Hp. specialize (Hph _ _ Hp). destruct p; simpl in *; [lia|split; [lia|tauto]|done|].
      destruct Hph; [by left|right; lia].
    + intros i Hi Hic. apply Hcl; lia.
    + intros i a Hin. destruct (Hsent i a Hin) as [? Ho]. split; [lia|done].
  - rewrite <- (resume_attempt_top w (WSleep (nextIndex s) 0)).
    apply inv_attempt_top; [exact (inv_claim s w Hinv Hw Hlt)|simpl; by eapply list_insert_hit].
Qed.

Lemma inv_after_chunk s w e :
  pool_inv s -> workers s !! w = Some (WReturn e) -> pool_inv (resume w (after_chunk cfg e s)).
Proof.
  destruct e as [e|]; simpl; [|apply inv_worker_top]. intros Hinv Hw.
  apply (inv_phase _ w (WReturn (Some e))); try done; [by apply inv_firstError|left; by eexists].
Qed.

Lemma inv_step ev s s' : pool_inv s -> pool_step parse_json cfg ev s = Some s' -> pool_inv s'.
Proof.
  intros Hinv. destruct ev as [| |w l|w|w o|w]; simpl.
  - case_match; [done|]. intros [= <-]. by apply inv_aborted.
  - case_match; [|done]. intros [= <-]. by apply inv_flush.
  - destruct (workers s !! w) as [[]|] eqn:Hw; try done. destruct (Z.ltb_spec l 0); [done|]. intros [= <-].
    refine (inv_update_chunk s w _ i _ (note_loaded a l) false Hinv Hw eq_refl _ _);
      [auto using chunk_ok_loaded|intros c; simpl; by case_match].
  - destruct (workers s !! w) as [[]|] eqn:Hw; try done. intros [= <-]. by apply inv_after_sleep.
  - destruct (workers s !! w) as [[]|] eqn:Hw; try done. intros [= <-]. by apply inv_after_put.
  - destruct (workers s !! w) as [[]|] eqn:Hw; try done. intros [= <-]. by apply inv_after_chunk.
Qed.

Lemma inv_run evs s s' : pool_inv s -> pool_run parse_json cfg evs s = Some s' -> pool_inv s'.
Proof.
  revert s. induction evs as [|ev evs IH]; intros s Hinv; simpl; [by intros [= <-]|].
  destruct (pool_step _ _ _ _) as [s1|] eqn:Hs; simpl; [|done]. apply IH. by eapply inv_step.
Qed.

(** ** The initial state *)
Lemma chunk_plan_lookup i c :
  chunk_plan (fileSize cfg) (chunkSize cfg) (chunkCount cfg) !! i = Some c ->
  c = initial_chunk (fileSize cfg) (chunkSize cfg) i.
Proof.
  unfold chunk_plan. rewrite (list_lookup_fmap (initial_chunk (fileSize cfg) (chunkSize cfg))).
  destruct (seq 0 (chunkCount cfg) !! i) as [j|] eqn:Hj; simpl; [|done].
  apply lookup_seq in Hj as [-> _]. by intros [= <-].
Qed.

Lemma chunk_plan_pending i : ~ exists c,
  chunk_plan (fileSize cfg) (chunkSize cfg) (chunkCount cfg) !! i = Some c /\ c_status c = Done.
Proof. intros (c & ->%chunk_plan_lookup & Hd). done. Qed.

Lemma inv_init b : pool_inv (pool_init cfg b).
Proof.
  assert (Hok : forall i c, chunk_plan (fileSize cfg) (chunkSize cfg) (chunkCount cfg) !! i = Some c -> chunk_ok i c).
  { intros i c ->%chunk_plan_lookup. unfold chunk_ok; simpl. split_and!; try done; lia. }
  split; simpl; try done.
  - unfold chunk_plan. by rewrite length_map, length_seq.
  - intros i Hi. lia.
  - intros i a Hin. by apply elem_of_nil in Hin.
  - constructor.
  - intros i Hi. by apply chunk_plan_pending in Hi.
  - intros Hs. pose proof (total_loaded_nonneg _ Hok). repeat constructor; simpl; lia.
Qed.
End invariant.

(** ** Starting the workers *)
Section start.
Context {json : Type} (parse_json : jstr -> option json) (cfg : config).
Local Abbreviation pool := (pool (json := json)).

(** Starting a worker is resuming a free one appended to the list. *)
Definition with_free_worker (s : pool) : pool := set_workers (workers s ++ [WReturn None]) s.

Lemma worker_top_workers ws (s : pool) :
  worker_top cfg (set_workers ws s) = (set_workers ws (worker_top cfg s).1, (worker_top cfg s).2).
Proof.
  unfold worker_top; simpl. destruct (aborted s); [done|]. destruct (firstError s); [done|].
  destruct (_ <=? _)%nat; [done|].
  apply (attempt_top_workers cfg (nextIndex s) 0 ws (set_nextIndex (S (nextIndex s)) s)).
Qed.

Lemma worker_top_keeps (s : pool) : workers (worker_top cfg s).1 = workers s.
Proof.
  unfold worker_top. destruct (aborted s); [done|]. destruct (firstError s); [done|].
  destruct (_ <=? _)%nat; [done|]. by rewrite attempt_top_keeps.
Qed.

Lemma start_worker_resume (s : pool) :
  set_workers (workers (worker_top cfg s).1 ++ [(worker_top cfg s).2]) (worker_top cfg s).1
  = resume (length (workers s)) (worker_top cfg (with_free_worker s)).
Proof.
  unfold with_free_worker. rewrite worker_top_workers. unfold resume. simpl.
  rewrite worker_top_keeps, (insert_app_r_alt _ _ (length (workers s))) by lia.
  by rewrite Nat.sub_diag.
Qed.

Lemma inv_free_worker (s : pool) : pool_inv cfg s -> pool_inv cfg (with_free_worker s).
Proof.
  assert (Hold : forall w p, (workers s ++ [WReturn None]) !! w = Some p ->
    workers s !! w = Some p \/ p = WReturn None).
  { intros w p [Hw|[_ Hw]]%lookup_app_Some; [by left|right].
    apply list_lookup_singleton_Some in Hw as [_ <-]. done. }
  assert (Hlift : forall w p, workers s !! w = Some p -> (workers s ++ [WReturn None]) !! w = Some p)
    by (intros w p Hw; by apply lookup_app_l_Some).
  intros [Hlen Hch Hph Hown Hcl Hsent Honce Hdel Hrep Hcur]. split; simpl; try done.
  - intros w p [Hw| ->]%Hold; [|done]. by specialize (Hph _ _ Hw).
  - intros w1 w2 p1 p2 i b1 b2 [Hw1| ->]%Hold Hc1 [Hw2| ->]%Hold Hc2; try done. by eapply Hown.
  - intros i Hi Hc. destruct (Hcl i Hi Hc) as [Hd|[(w & p & b & Hw & Hp)|[He|(w & e & Hw)]]]; [by left| | |].
    + right; left. exists w, p, b. auto.
    + right; right; by left.
    + right; right; right. exists w, e. simpl. auto.
  - intros i a Hin. destruct (Hsent i a Hin) as [Hb Ho]. split; [done|].
    intros w p b [Hw| ->]%Hold Hc; [by eapply Ho|done].
Qed.

Lemma free_worker_lookup (s : pool) : workers (with_free_worker s) !! length (workers s) = Some (WReturn None).
Proof. unfold with_free_worker; simpl. by rewrite lookup_app_r, Nat.sub_diag. Qed.

Lemma start_workers_S n (s : pool) :
  start_workers cfg (S n) s
  = start_workers cfg n (resume (length (workers s)) (worker_top cfg (with_free_worker s))).
Proof. simpl. rewrite <- start_worker_resume. by destruct (worker_top cfg s). Qed.

Lemma inv_start_workers n (s : pool) : pool_inv cfg s -> pool_inv cfg (start_workers cfg n s).
Proof.
  revert s. induction n as [|n IH]; intros s Hinv; [done|]. rewrite start_workers_S.
  apply IH, inv_worker_top; [by apply inv_free_worker|apply free_worker_lookup].
Qed.

Lemma inv_start : pool_inv cfg (pool_start (json := json) cfg).
Proof. apply inv_start_workers, inv_init. Qed.

Lemma start_workers_length n (s : pool) :
  length (workers (start_workers cfg n s)) = (length (workers s) + n)%nat.
Proof.
  revert s. induction n as [|n IH]; intros s; [simpl; lia|].
  rewrite start_workers_S, IH. unfold resume, with_free_worker. rewrite worker_top_workers. simpl.
  rewrite length_insert, length_app. simpl. lia.
Qed.

Lemma pool_step_length ev (s s' : pool) :
  pool_step parse_json cfg ev s = Some s' -> length (workers s') = length (workers s).
Proof.
  destruct ev; simpl; repeat case_match; intros; simplify_eq; try done; unfold resume; simpl; rewrite length_insert.
  all: unfold after_sleep, after_put, after_chunk, worker_top; repeat case_match; simpl;
    rewrite ?attempt_top_keeps; done.
Qed.

Lemma pool_run_length evs (s s' : pool) :
  pool_run parse_json cfg evs s = Some s' -> length (workers s') = length (workers s).
Proof.
  revert s. induction evs as [|ev evs IH]; intros s; simpl; [by intros [= <-]|].
  destruct (pool_step _ _ _ _) as [s1|] eqn:Hs; simpl; [|done]. intros Hr.
  rewrite (IH _ Hr). by eapply pool_step_length.
Qed.

(** ** Termination *)

(** Events that move a worker or abort the upload; progress events and frames do neither. *)
Definition is_control (ev : pool_event) : bool :=
  match ev with EvFrame | EvProgress _ _ => false | _ => true end.

Definition phase_weight (p : worker_phase (json := json)) : nat :=
  match p with
  | WSleep i a => 2 * (maxRetries cfg - a) + 3
  | WPut i a => 2 * (maxRetries cfg - a) + 2
  | WReturn _ => 1
  | WDone => 0
  end.

Definition chunk_weight : nat := 2 * maxRetries cfg + 3.

(** What a state can still do: unclaimed chunks, what each worker has left, and the abort. *)
Definition pool_measure (s : pool) : nat :=
  (chunkCount cfg - nextIndex s) * chunk_weight + sum_list_with phase_weight (workers s)
  + (if aborted s then 0 else 1).

Lemma sum_list_with_insert {A} (f : A -> nat) (l : list A) w p q :
  l !! w = Some p -> (sum_list_with f (<[w := q]> l) + f p = sum_list_with f l + f q)%nat.
Proof.
  revert w. induction l as [|x l IH]; intros [|w]; simpl; intros H; simplify_eq; [lia|].
  specialize (IH _ H). lia.
Qed.

(** A resumption decreases the measure when what it leaves, with the claim it makes, weighs less. *)
Lemma measure_resume w p (s : pool) (r : pool * worker_phase) :
  workers s !! w = Some p -> workers r.1 = workers s -> aborted r.1 = aborted s ->
  ((chunkCount cfg - nextIndex r.1) * chunk_weight + phase_weight r.2
   < (chunkCount cfg - nextIndex s) * chunk_weight + phase_weight p)%nat ->
  (pool_measure (resume w r) < pool_measure s)%nat.
Proof.
  intros Hw Hws Hab Hlt. unfold pool_measure, resume. simpl. rewrite Hws, Hab.
  pose proof (sum_list_with_insert phase_weight (workers s) w p r.2 Hw). lia.
Qed.

Lemma attempt_top_shape i a (s : pool) :
  let r := attempt_top cfg i a s in
  nextIndex r.1 = nextIndex s /\ aborted r.1 = aborted s /\ workers r.1 = workers s /\
  (phase_weight r.2 <= 2 * (maxRetries cfg - a) + 3)%nat.
Proof.
  unfold attempt_top. repeat case_match; simplify_eq; simpl; split_and!; (done || lia).
Qed.

Lemma measure_after_sleep w i a (s : pool) :
  workers s !! w = Some (WSleep i a) -> (pool_measure (resume w (after_sleep cfg i a s)) < pool_measure s)%nat.
Proof.
  intros Hw. apply (measure_resume w (WSleep i a)); [done|..];
    unfold after_sleep; case_match; simpl; (done || lia).
Qed.

Lemma measure_after_put w i a r (s : pool) :
  workers s !! w = Some (WPut i a) -> (a <= maxRetries cfg)%nat ->
  (pool_measure (resume w (after_put cfg i a r s)) < pool_measure s)%nat.
Proof.
  intros Hw Ha. pose proof (attempt_top_shape i (S a) s) as (Hn & Hab & Hws & Hwt).
  apply (measure_resume w (WPut i a)); [done|..]; unfold after_put;
    (destruct (p_ok r); [simpl; done || lia|]);
    (destruct (_ && _); [simpl; done || lia|]);
    (destruct (Nat.eqb_spec a (maxRetries cfg)); [simpl; done || lia|]); try done.
  rewrite Hn. simpl. lia.
Qed.

Lemma measure_worker_top w (s : pool) :
  workers s !! w = Some (WReturn None) -> (pool_measure (resume w (worker_top cfg s)) < pool_measure s)%nat.
Proof.
  intros Hw. pose proof (attempt_top_shape (nextIndex s) 0 (set_nextIndex (S (nextIndex s)) s)) as (Hn & Hab & Hws & Hwt).
  apply (measure_resume w (WReturn None)); [done|..]; unfold worker_top;
    (destruct (aborted s) eqn:?; [simpl; done || lia|]);
    (destruct (firstError s); [simpl; done || lia|]);
    (destruct (Nat.leb_spec (chunkCount cfg) (nextIndex s)); [simpl; done || nia|]); try done.
  - by rewrite Hab.
  - rewrite Hn. unfold chunk_weight. simpl. nia.
Qed.

Lemma measure_after_chunk w e (s : pool) :
  workers s !! w = Some (WReturn e) -> (pool_measure (resume w (after_chunk cfg e s)) < pool_measure s)%nat.
Proof.
  destruct e as [e|]; simpl; [|apply measure_worker_top]. intros Hw.
  apply (measure_resume w (WReturn (Some e))); simpl; (done || lia).
Qed.

Lemma measure_step ev (s s' : pool) :
  pool_inv cfg s -> pool_step parse_json cfg ev s = Some s' ->
  ((if is_control ev then 1 else 0) + pool_measure s' <= pool_measure s)%nat.
Proof.
  intros Hinv. destruct ev as [| |w l|w|w o|w]; simpl.
  - destruct (aborted s) eqn:Ha; [done|]. intros [= <-]. unfold pool_measure; simpl. rewrite Ha. lia.
  - case_match; [|done]. by intros [= <-].
  - destruct (workers s !! w) as [[]|] eqn:Hw; try done. destruct (l <? 0); [done|]. by intros [= <-].
  - destruct (workers s !! w) as [[]|] eqn:Hw; try done. intros [= <-]. by apply measure_after_sleep.
  - destruct (workers s !! w) as [[]|] eqn:Hw; try done. intros [= <-].
    pose proof (inv_phases _ _ Hinv _ _ Hw) as ((_ & _ & Ha) & _). by apply measure_after_put.
  - destruct (workers s !! w) as [[]|] eqn:Hw; try done. intros [= <-]. by apply measure_after_chunk.
Qed.

Lemma measure_run evs (s s' : pool) :
  pool_inv cfg s -> pool_run parse_json cfg evs s = Some s' ->
  (length (List.filter is_control evs) + pool_measure s' <= pool_measure s)%nat.
Proof.
  revert s. induction evs as [|ev evs IH]; intros s Hinv; simpl; [intros [= <-]; lia|].
  destruct (pool_step _ _ _ _) as [s1|] eqn:Hs; simpl; [|done]. intros Hr.
  specialize (IH s1 (inv_step _ _ _ _ _ Hinv Hs) Hr). pose proof (measure_step _ _ _ Hinv Hs).
  destruct (is_control ev); simpl in *; lia.
Qed.

Lemma measure_start_workers n (s : pool) :
  pool_inv cfg s -> (pool_measure (start_workers cfg n s) <= pool_measure s)%nat.
Proof.
  revert s. induction n as [|n IH]; intros s Hinv; [simpl; lia|]. rewrite start_workers_S.
  pose proof (measure_worker_top _ _ (free_worker_lookup s)) as Hlt.
  assert (Hf : pool_measure (with_free_worker s) = S (pool_measure s)).
  { unfold pool_measure, with_free_worker; simpl. rewrite sum_list_with_app. simpl. lia. }
  etransitivity; [apply IH|lia].
  apply inv_worker_top; [by apply inv_free_worker|apply free_worker_lookup].
Qed.

Lemma measure_start : (pool_measure (pool_start cfg) <= chunkCount cfg * chunk_weight + 1)%nat.
Proof.
  unfold pool_start. etransitivity; [apply measure_start_workers, inv_init|].
  unfold pool_measure; simpl. lia.
Qed.

(** A pool with an unfinished worker can always move it: the server's answer, the timer or the
    microtask it waits for is an enabled event. *)
Lemma pool_progress (s : pool) :
  all_done s = false -> exists ev, is_control ev = true /\ is_Some (pool_step parse_json cfg ev s).
Proof.
  unfold all_done. intros Hd.
  assert (Hex : exists w p, workers s !! w = Some p /\ is_done p = false).
  { revert Hd. induction (workers s) as [|p ws IH]; simpl; [done|]. destruct (is_done p) eqn:Hp; simpl.
    - intros Hd. destruct (IH Hd) as (w & q & Hw & Hq). by exists (S w), q.
    - intros _. by exists 0%nat, p. }
  destruct Hex as (w & p & Hw & Hp). destruct p as [i a|i a|e|]; [| | |done].
  - exists (EvWake w). simpl. rewrite Hw. eauto.
  - exists (EvResult w XhrError). simpl. rewrite Hw. eauto.
  - exists (EvResume w). simpl. rewrite Hw. eauto.
Qed.
End start.

(** ** Outcomes *)
Section outcomes.
Context {json : Type} (parse_json : jstr -> option json) (cfg : config).
Local Abbreviation pool := (pool (json := json)).

Lemma all_done_lookup (s : pool) w p : all_done s = true -> workers s !! w = Some p -> p = WDone.
Proof.
  unfold all_done. rewrite forallb_forall. intros Hd Hw%list_elem_of_lookup_2%list_elem_of_In.
  specialize (Hd p Hw). by destruct p.
Qed.

(** When every worker has finished and none failed, every part of the file has been stored. *)
Lemma all_done_chunks (s : pool) i :
  pool_inv cfg s -> all_done s = true -> firstError s = None -> (0 < length (workers s))%nat ->
  (i < chunkCount cfg)%nat -> chunk_done s i.
Proof.
  intros Hinv Hd He Hl Hi.
  destruct (lookup_lt_is_Some_2 (workers s) 0 Hl) as [p Hp].
  pose proof (inv_phases _ _ Hinv _ _ Hp) as Hok. rewrite (all_done_lookup s 0 p Hd Hp) in Hok. simpl in Hok.
  rewrite He in Hok. destruct Hok as [[? [=]]|Hn].
  destruct (inv_claimed _ _ Hinv i ltac:(lia) Hi) as [Hc|[(w & q & b & Hw & Hq)|[[? Hf]|(w & e & Hw)]]].
  - done.
  - apply (all_done_lookup s w q Hd) in Hw as ->. done.
  - congruence.
  - by apply (all_done_lookup s w _ Hd) in Hw.
Qed.

Lemma pool_finish_inv (s : pool) : pool_inv cfg s -> pool_inv cfg (pool_finish cfg s).
Proof.
  intros [Hlen Hch Hph Hown Hcl Hsent Honce Hdel Hrep Hcur]. unfold pool_finish. simpl.
  destruct (progressDirty s); [apply inv_flush|]; by split.
Qed.

Lemma pool_finish_same (s : pool) :
  chunks (pool_finish cfg s) = chunks s /\ workers (pool_finish cfg s) = workers s /\
  firstError (pool_finish cfg s) = firstError s /\ puts (pool_finish cfg s) = puts s.
Proof. unfold pool_finish. simpl. by destruct (progressDirty s). Qed.

(** Before the end of the run the server answered a PUT of chunk [i] with a success, while a worker waited for it. *)
Definition accepted (evs : list pool_event) (i : nat) : Prop :=
  exists before after s w a status text code, evs = before ++ EvResult w (XhrLoad status text code) :: after /\
    pool_run parse_json cfg before (pool_start cfg) = Some s /\ workers s !! w = Some (WPut i a) /\ 200 <= status < 300.

Lemma update_chunk_done j f (s : pool) i : (forall c, c_status (f c) <> Done) -> chunk_done (update_chunk j f s) i -> chunk_done s i.
Proof.
  intros Hf (c & Hc & Hd). simpl in Hc. destruct (decide (j = i)) as [->|Hne].
  - rewrite list_lookup_alter_eq in Hc. destruct (chunks s !! i) as [c'|]; [|done]. injection Hc as <-. by destruct (Hf c').
  - rewrite list_lookup_alter_ne in Hc by done. by exists c.
Qed.

Lemma attempt_top_done j a (s : pool) i : chunk_done (attempt_top cfg j a s).1 i -> chunk_done s i.
Proof.
  unfold attempt_top. destruct (aborted s); [by apply update_chunk_done|]. destruct (firstError s); [done|].
  assert (Hb : forall c, c_status (begin_attempt a c) <> Done) by (intros c; simpl; by destruct (a =? 0)%nat).
  destruct (0 <? a)%nat; exact (update_chunk_done j (begin_attempt a) s i Hb).
Qed.

Lemma worker_top_done (s : pool) i : chunk_done (worker_top cfg s).1 i -> chunk_done s i.
Proof.
  unfold worker_top. destruct (aborted s); [done|]. destruct (firstError s); [done|].
  destruct (chunkCount cfg <=? nextIndex s)%nat; [done|]. intros H%attempt_top_done. done.
Qed.

Lemma start_not_done i : ~ chunk_done (json := json) (pool_start cfg) i.
Proof.
  assert (H0 : ~ chunk_done (json := json) (pool_init cfg false) i).
  { intros (c & Hc & Hd). simpl in Hc. unfold chunk_plan in Hc. rewrite list_lookup_fmap in Hc.
    destruct (seq 0 (chunkCount cfg) !! i); [|done]. injection Hc as <-. done. }
  unfold pool_start. generalize dependent (pool_init (json := json) cfg false). generalize (Nat.min (Z.to_nat (concurrency cfg)) (chunkCount cfg)).
  intros n. induction n as [|n IH]; intros s Hs; [done|]. simpl. pose proof (worker_top_done s i) as Hw.
  destruct (worker_top cfg s) as [s1 ph]. apply IH. intros H. by apply Hs, Hw.
Qed.

(** A chunk becomes done by a success of its PUT only. *)
Lemma pool_step_done ev (s s' : pool) i : pool_step parse_json cfg ev s = Some s' -> chunk_done s' i ->
  chunk_done s i \/ exists w a status text code, ev = EvResult w (XhrLoad status text code) /\ workers s !! w = Some (WPut i a) /\ 200 <= status < 300.
Proof.
  destruct ev as [| |w l|w|w o|w]; simpl.
  - destruct (aborted s); [done|]. intros [= <-] H. by left.
  - destruct (progressRaf s); [|done]. intros [= <-] H. by left.
  - destruct (workers s !! w) as [[| j a| |]|]; try done. destruct (l <? 0); [done|]. intros [= <-] H. left.
    apply (update_chunk_done j (note_loaded a l) s i); [|exact H]. intros c. simpl. by destruct (a =? 0)%nat.
  - destruct (workers s !! w) as [[j a| | |]|]; try done. intros [= <-] H. left. unfold after_sleep in H.
    destruct (_ || _); [|done]. by apply (update_chunk_done j (with_status Errored) s i).
  - destruct (workers s !! w) as [[|j a| |]|] eqn:Hw; try done. intros [= <-] H. unfold after_put in H.
    destruct (p_ok (putChunkWithProgress parse_json o)) eqn:Hok.
    + destruct (decide (j = i)) as [->|Hne].
      * right. destruct o as [status text code| |]; simpl in Hok; try done. apply andb_true_iff in Hok as [H1%Z.leb_le H2%Z.ltb_lt].
        by exists w, a, status, text, code.
      * left. destruct H as (c & Hc & Hd). simpl in Hc. rewrite list_lookup_alter_ne in Hc by done. by exists c.
    + left. revert H. destruct (_ && _); [by apply (update_chunk_done j (with_status Errored) s i)|].
      destruct (a =? maxRetries cfg)%nat; [by apply (update_chunk_done j (with_status Errored) s i)|]. intros H. by apply attempt_top_done in H.
  - destruct (workers s !! w) as [[| |e|]|]; try done. intros [= <-] H. left. destruct e as [e|]; [done|]. by apply worker_top_done in H.
Qed.

Lemma run_done_accepted evs (s : pool) i : pool_run parse_json cfg evs (pool_start cfg) = Some s -> chunk_done s i -> accepted evs i.
Proof.
  revert s. induction evs as [|ev evs IH] using rev_ind; intros s Hr Hd.
  - injection Hr as <-. by destruct (start_not_done i).
  - assert (Happ : forall xs ys t, pool_run parse_json cfg (xs ++ ys) t = (t' ← pool_run parse_json cfg xs t; pool_run parse_json cfg ys t')).
    { induction xs as [|x xs IHx]; intros ys t; [done|]. simpl. destruct (pool_step _ _ x t); [|done]. apply IHx. }
    rewrite Happ in Hr. destruct (pool_run parse_json cfg evs (pool_start cfg)) as [s0|] eqn:H0; [|done]. simpl in Hr.
    destruct (pool_step parse_json cfg ev s0) as [s1|] eqn:H1; [|done]. simpl in Hr. injection Hr as ->.
    destruct (pool_step_done ev s0 s i H1 Hd) as [H|(w & a & st & t & c & -> & Hw & Hst)].
    + destruct (IH s0 eq_refl H) as (b & af & s2 & w & a & st & t & c & -> & H2 & H3 & H4).
      exists b, (af ++ [ev]), s2, w, a, st, t, c. by rewrite <- app_assoc.
    + by exists evs, [], s0, w, a, st, t, c.
Qed.

(** The reachable states of the pool. *)
Definition pool_reachable (s : pool) : Prop := exists evs, pool_run parse_json cfg evs (pool_start cfg) = Some s.

Lemma inv_reachable (s : pool) : pool_reachable s -> pool_inv cfg s.
Proof. intros [evs Hr]. eapply inv_run; [apply inv_start|done]. Qed.

Lemma reachable_workers (s : pool) :
  pool_reachable s -> length (workers s) = Nat.min (Z.to_nat (concurrency cfg)) (chunkCount cfg).
Proof.
  intros [evs Hr]. rewrite (pool_run_length _ _ _ _ _ Hr). unfold pool_start.
  rewrite start_workers_length. done.
Qed.
End outcomes.

Lemma chunk_blobs_cover chunkSize (file : bytes) n k :
  0 < chunkSize -> Z.of_nat (length file) <= Z.of_nat (k + n) * chunkSize ->
  concat (map (chunk_blob chunkSize file) (seq k n)) = drop (Z.to_nat (Z.of_nat k * chunkSize)) file.
Proof.
  intros Hc. revert k. induction n as [|n IH]; intros k Hcov; simpl.
  - symmetry. apply drop_ge. nia.
  - rewrite IH by (rewrite <- Hcov || lia; f_equal; lia). unfold chunk_blob, chunk_end, chunk_start.
    set (a := Z.of_nat k * chunkSize) in *. assert (0 <= a) by nia.
    replace (Z.of_nat (S k) * chunkSize) with (a + chunkSize) by lia.
    replace (Z.to_nat (a + chunkSize)) with (Z.to_nat a + Z.to_nat chunkSize)%nat by lia.
    rewrite <- drop_drop.
    destruct (Z.le_gt_cases (Z.of_nat (length file)) (a + chunkSize)) as [Hle|Hgt].
    + rewrite (drop_ge _ (Z.to_nat chunkSize)) by (rewrite length_drop; lia).
      rewrite app_nil_r. apply take_ge. rewrite length_drop. lia.
    + replace (Z.to_nat (Z.min (a + chunkSize) (Z.of_nat (length file)) - a)) with (Z.to_nat chunkSize) by lia.
      apply take_drop.
Qed.

(** C2: In every reachable state of the worker pool, whatever the interleaving of timers, XHR events,
    frames and aborts: the parts keep their index and size and never show more bytes than they have;
    no two workers own the same part; each (part, attempt) pair is sent at most once, with at most
    [maxRetries + 1] attempts per part; a part shown as done has been sent and is fully loaded; and
    every progress report stays between zero and the file size. *)
Theorem pool_safety {json} parse_json cfg (s : pool (json := json)) :
  0 <= fileSize cfg -> pool_reachable parse_json cfg s ->
  (forall i c, chunks s !! i = Some c ->
     c_index c = i /\ c_total c = c_total (initial_chunk (fileSize cfg) (chunkSize cfg) i) /\
     0 <= c_loaded c <= c_total c /\
     (c_status c = Done -> c_loaded c = c_total c /\ exists a, (i, a) ∈ puts s)) /\
  (forall w1 w2 p1 p2 i b1 b2, workers s !! w1 = Some p1 -> claim_of p1 = Some (i, b1) ->
     workers s !! w2 = Some p2 -> claim_of p2 = Some (i, b2) -> w1 = w2) /\
  NoDup (puts s) /\ (forall i a, (i, a) ∈ puts s -> (a <= maxRetries cfg)%nat) /\
  Forall (fun r => 0 <= r.1 <= fileSize cfg /\ r.2 = fileSize cfg) (reports s).
Proof.
  intros Hs Hr%inv_reachable. split_and!.
  - intros i c Hc. destruct (inv_chunks _ _ Hr i c Hc) as (Hi & Ht & Hl & Hd & _). split_and!; try tauto.
    intros Hdone. split; [by apply Hd|]. apply (inv_delivered _ _ Hr). by exists c.
  - apply (inv_owner _ _ Hr).
  - apply (inv_once _ _ Hr).
  - intros i a Hin. by destruct (inv_sent _ _ Hr i a Hin) as [[_ ?] _].
  - by apply (inv_reports _ _ Hr).
Qed.

Definition demo_cfg : config :=
  {| fileSize := 10; chunkSize := 4; chunkCount := 3; concurrency := 2; maxRetries := 1 |}.

Definition demo_schedule : list pool_event :=
  [EvProgress 1 3; EvFrame; EvResult 0 XhrError; EvResult 1 (XhrLoad 200 [] []); EvResume 1; EvWake 0;
   EvResult 1 (XhrLoad 204 [] []); EvResult 0 (XhrLoad 200 [] []); EvResume 0; EvResume 1].

Lemma pool_safety_witness :
  exists s : pool (json := unit), pool_run (fun _ => None) demo_cfg demo_schedule (pool_start demo_cfg) = Some s /\
    puts s = [(0, 0); (1, 0); (2, 0); (0, 1)]%nat /\ NoDup (puts s).
Proof.
  destruct (pool_run (fun _ => None) demo_cfg demo_schedule (pool_start (json := unit) demo_cfg)) as [s|] eqn:Hs;
    [|vm_compute in Hs; discriminate].
  exists s. split; [reflexivity|].
  assert (Hr : pool_reachable (fun _ => None) demo_cfg s) by (exists demo_schedule; exact Hs).
  split; [vm_compute in Hs; injection Hs as <-; reflexivity|].
  destruct (pool_safety (fun _ => None) demo_cfg s) as (_ & _ & Hn & _); [simpl; lia|exact Hr|exact Hn].
Defined.

(** C3: The pool terminates: any run has at most [chunkCount * (2 * maxRetries + 3) + 1] events that
    are not mere progress or frames, and as long as some worker is unfinished one such event is
    enabled, so no worker ever waits for something that cannot happen. *)
Theorem pool_terminates {json} (parse_json : jstr -> option json) cfg evs s :
  pool_run parse_json cfg evs (pool_start cfg) = Some s ->
  (length (List.filter is_control evs) <= chunkCount cfg * (2 * maxRetries cfg + 3) + 1)%nat /\
  (all_done s = false -> exists ev, is_control ev = true /\ is_Some (pool_step parse_json cfg ev s)).
Proof.
  intros Hr. split; [|apply pool_progress].
  pose proof (measure_run parse_json cfg evs _ _ (inv_start cfg) Hr) as Hm.
  pose proof (measure_start (json := json) cfg). unfold chunk_weight in *. lia.
Qed.

Lemma pool_terminates_witness :
  (length (List.filter is_control demo_schedule) <= 3 * (2 * 1 + 3) + 1)%nat.
Proof.
  destruct (pool_run (fun _ => None) demo_cfg demo_schedule (pool_start (json := unit) demo_cfg)) as [s|] eqn:Hs;
    [|vm_compute in Hs; discriminate].
  exact (proj1 (pool_terminates (fun _ => None) demo_cfg demo_schedule s Hs)).
Defined.

Lemma put_requests_no_delete puts : ReqDelete ∉ put_requests puts.
Proof.
  unfold put_requests. intros Hin%list_elem_of_In%in_map_iff. by destruct Hin as (? & [=] & _).
Qed.

Definition succeeded {json payload} (o : upload_outcome (json := json) (payload := payload)) : bool :=
  match o with Returned ok _ _ _ _ _ => ok | Thrown => false end.

(** The requests of an upload whose session was opened: the session is deleted, last, exactly when
    the upload does not succeed. *)
Definition session_closed {json payload} (r : upload_result (json := json) (payload := payload)) : Prop :=
  if succeeded (u_outcome r) then ReqDelete ∉ u_requests r else last (u_requests r) = Some ReqDelete.

Lemma complete_upload_closed {json payload} parse_json cfg (s : pool (json := json))
    (complete : complete_outcome (payload := payload)) :
  session_closed (complete_upload parse_json cfg s complete).
Proof.
  unfold complete_upload, session_closed. destruct complete; simpl.
  - by rewrite !app_comm_cons, !last_snoc.
  - by rewrite !app_comm_cons, !last_snoc.
  - intros [?|Hin]%elem_of_cons; [done|]. apply elem_of_app in Hin as [Hin|Hin].
    + by apply put_requests_no_delete in Hin.
    + by apply list_elem_of_singleton in Hin.
Qed.

(** C4: Once the init request has opened a session, every way the upload can end - abort before the
    first part, a part that fails for good, a refused or interrupted completion, or success - leaves
    no session behind: the DELETE request is the last one of every unsuccessful upload and is never
    sent by a successful one. *)
Theorem uploadFileChunked_closes_session {json payload} parse_json size options chunk_size chunk_count
    abortedEarly schedule (complete : complete_outcome (payload := payload))
    (r : upload_result (json := json)) :
  uploadFileChunked parse_json size options (InitOk chunk_size chunk_count) abortedEarly schedule complete = Some r ->
  session_closed r.
Proof.
  unfold uploadFileChunked. destruct abortedEarly; [by intros [= <-]|].
  destruct (_ =? 0)%nat; [intros [= <-]; apply complete_upload_closed|].
  destruct (pool_run _ _ _ _) as [s|]; simpl; [|done]. destruct (all_done s); [|done].
  destruct (firstError _) as [e|]; intros [= <-]; [|apply complete_upload_closed].
  unfold session_closed; simpl. by rewrite app_comm_cons, last_snoc.
Qed.

Definition demo_options : upload_options :=
  {| o_chunkSize := None; o_maxRetries := Some 1; o_concurrency := Some 2 |}.

Lemma uploadFileChunked_closes_session_witness :
  exists r : upload_result (json := unit) (payload := unit),
    uploadFileChunked (fun _ => None) 10 demo_options (InitOk (Some 4) (Some 3)) false
      [EvResult 1 (XhrLoad 403 [] []); EvResult 0 (XhrLoad 200 [] []); EvResume 1; EvResume 0]
      CompleteThrown = Some r /\
    u_requests r = [ReqInit; ReqPut 0 0; ReqPut 1 0; ReqDelete] /\ session_closed r.
Proof.
  eexists.
  assert (Hr : uploadFileChunked (json := unit) (payload := unit) (fun _ => None) 10 demo_options (InitOk (Some 4) (Some 3)) false
      [EvResult 1 (XhrLoad 403 [] []); EvResult 0 (XhrLoad 200 [] []); EvResume 1; EvResume 0]
      CompleteThrown = Some _) by (vm_compute; reflexivity).
  split; [exact Hr|]. split; [vm_compute; reflexivity|].
  exact (uploadFileChunked_closes_session _ _ _ _ _ _ _ _ _ Hr).
Defined.

(** C1: A successful upload is complete: the completion request was the last one and was answered
    positively; before it the pool ran until every worker had finished without an error; every
    announced part had been sent, and the server had answered its PUT with a success while a worker
    waited for it; and when the announced parts cover the file, the
    blobs sent for them, in index order, are the file. *)
Theorem uploadFileChunked_complete {json payload} parse_json options chunk_size chunk_count
    abortedEarly schedule (complete : complete_outcome (payload := payload)) (file : bytes)
    (r : upload_result (json := json)) :
  let cfg := session_config (Z.of_nat (length file)) options chunk_size chunk_count in
  uploadFileChunked parse_json (Z.of_nat (length file)) options (InitOk chunk_size chunk_count)
    abortedEarly schedule complete = Some r ->
  succeeded (u_outcome r) = true ->
  (exists status body review, complete = CompleteOk status body review) /\
  (exists puts_, u_requests r = [ReqInit] ++ put_requests puts_ ++ [ReqComplete] /\ NoDup puts_ /\
     forall i, (i < chunkCount cfg)%nat -> exists a, (i, a) ∈ puts_) /\
  ((0 < chunkCount cfg)%nat -> exists s, pool_run parse_json cfg schedule (pool_start cfg) = Some s /\
     all_done s = true /\ firstError s = None /\
     forall i, (i < chunkCount cfg)%nat -> chunk_done s i /\ accepted parse_json cfg schedule i) /\
  (0 < chunkSize cfg -> Z.of_nat (length file) <= Z.of_nat (chunkCount cfg) * chunkSize cfg ->
     concat (map (chunk_blob (chunkSize cfg) file) (seq 0 (chunkCount cfg))) = file).
Proof.
  intros cfg. unfold uploadFileChunked. fold cfg. intros Hr Hok.
  assert (Hblobs : 0 < chunkSize cfg -> Z.of_nat (length file) <= Z.of_nat (chunkCount cfg) * chunkSize cfg ->
     concat (map (chunk_blob (chunkSize cfg) file) (seq 0 (chunkCount cfg))) = file)
    by (intros; by rewrite chunk_blobs_cover).
  assert (Hcomplete : forall s : pool, succeeded (u_outcome (complete_upload parse_json cfg s complete)) = true ->
    (exists status body review, complete = CompleteOk status body review) /\
    u_requests (complete_upload parse_json cfg s complete) = [ReqInit] ++ put_requests (puts s) ++ [ReqComplete])
    by (intros s; destruct complete; simpl; naive_solver).
  destruct abortedEarly; [by injection Hr as <-|].
  destruct (Nat.eqb_spec (chunkCount cfg) 0) as [H0|H0].
  - injection Hr as <-. destruct (Hcomplete _ Hok) as [Hc Hreq]. split_and!; [done| |lia|done].
    exists []. split_and!; [done|constructor|lia].
  - destruct (pool_run _ _ _ _) as [s|] eqn:Hrun; simpl in Hr; [|done].
    destruct (all_done s) eqn:Hd; [|done].
    pose proof (pool_finish_same cfg s) as (_ & _ & He & Hp). rewrite He in Hr.
    destruct (firstError s) as [e|] eqn:Hf; injection Hr as <-; [done|].
    assert (Hreach : pool_reachable parse_json cfg s) by (by exists schedule).
    pose proof (inv_reachable _ _ _ Hreach) as Hinv.
    assert (Hchunks : forall i, (i < chunkCount cfg)%nat -> chunk_done s i).
    { intros i Hi. apply (all_done_chunks cfg); try done. rewrite (reachable_workers _ _ _ Hreach).
      assert (1 <= concurrency cfg) by (unfold cfg, session_config; simpl; lia). lia. }
    destruct (Hcomplete _ Hok) as [Hc Hreq]. rewrite Hp in Hreq. split_and!; [done| | |done];
      [|intros _; exists s; split_and!; try done; intros i Hi; split; [by apply Hchunks|by eapply run_done_accepted, Hchunks]].
    exists (puts s). split_and!; [done|apply (inv_once _ _ Hinv)|].
    intros i Hi. by apply (inv_delivered _ _ Hinv), Hchunks.
Qed.

Lemma uploadFileChunked_complete_witness :
  let file := [1; 2; 3; 4; 5; 6; 7; 8; 9; 10]%N in
  exists r : upload_result (json := unit) (payload := unit),
    uploadFileChunked (fun _ => None) 10 demo_options (InitOk (Some 4) (Some 3)) false demo_schedule
      (CompleteOk 200 None []) = Some r /\
    u_requests r = [ReqInit; ReqPut 0 0; ReqPut 1 0; ReqPut 2 0; ReqPut 0 1; ReqComplete] /\
    concat (map (chunk_blob 4 file) (seq 0 3)) = file.
Proof.
  intros file. eexists.
  assert (Hr : uploadFileChunked (json := unit) (payload := unit) (fun _ => None) (Z.of_nat (length file))
      demo_options (InitOk (Some 4) (Some 3)) false demo_schedule (CompleteOk 200 None []) = Some _)
    by (vm_compute; reflexivity).
  split; [exact Hr|]. split; [vm_compute; reflexivity|].
  apply (uploadFileChunked_complete (fun _ => None) _ _ _ _ _ _ file _ Hr); vm_compute; (reflexivity || discriminate).
Defined.

(** The suggested sizes stay within the server's limits: a part is positive, never larger than
    the file or 32 MiB, no file below 64 GiB needs more than 2048 parts of it, and a file that goes through
    the chunked path is cut into parts of at least 4 MiB; the suggested concurrency is between one
    and six and never exceeds the number of parts. *)
Theorem suggested_sizes_bounded size count :
  let part := suggestChunkSize (Some size) in
  let workers := suggestConcurrency (Some size) (Some count) in
  0 < part <= MAX_CHUNK_SIZE /\
  (0 < size -> part <= size) /\
  (size <= 64 * 1024 * MiB -> ceil_div size part <= 2048) /\
  (shouldUseChunkedUpload (Some size) = true -> 4 * MiB <= part) /\
  1 <= workers <= 6 /\ workers <= Z.max 1 count.
Proof.
  unfold suggestChunkSize, suggestConcurrency, shouldUseChunkedUpload, MAX_CHUNK_SIZE, PREFERRED_CHUNK_SIZE,
    CHUNK_THRESHOLD, MiB.
  assert (Hor : forall n, num_or (Some n) 0 = n) by (by intros [| |]). rewrite !Hor.
  split_and!; try (repeat case_match; bool_facts; lia).
  intros Hs. match goal with |- ceil_div size ?p <= _ => set (part := p) end.
  assert (Hpart : 0 < part /\ (size <= 0 \/ size <= 2048 * part)) by (unfold part; repeat case_match; bool_facts; lia).
  pose proof (ceil_div_spec size part ltac:(lia)). nia.
Qed.
