(* ===== verification/UploadList.v ===== *)
(** * The list of files to upload

    [renderPendingFiles] of [internal/service/frontend/renop-html/js/browser/upload.js] reconciles the list's elements
    with the pending files.  An element is a record in document order; [insertBefore] and [remove] act on the list of
    records, and a file's [_id] is a number ([addPendingFiles] makes them up).  Animations are not part of the model,
    the classes [is-leaving] and [is-entering] that they set are. *)
From Stdlib Require Import Sorting.Sorted.
From S2P Require Export JsString.

(** ** Files and elements *)
Inductive file_status := Queued | Uploading | Done | Failed.

#[export] Instance file_status_eq_dec : EqDecision file_status.
Proof. solve_decision. Defined.

Record pending_file := { f_id : nat; f_name : jstr; f_size : Z }.

#[export] Instance pending_file_eq_dec : EqDecision pending_file.
Proof. solve_decision. Defined.

(** The properties the page adds to a file object: [_status], [_progress] (in percent), [_isNew]. *)
Record file_state := { fs_status : file_status; fs_progress : option Z; fs_new : bool }.

(** An element of the list; [e_index] is also the number of its id [upload-entry-n]. *)
Record entry := {
  e_node : nat; e_file : nat; e_leaving : bool; e_entering : bool;
  e_index : nat; e_total : nat; e_status : file_status; e_progress : option Z
}.

Record list_view := {
  children : list entry;
  next_node : nat;
  has_multiple : bool;
  has_many : bool;
  deleting : bool;
  count_shown : nat;
  size_shown : Z
}.

(** ** Reconciliation *)

(** [currentMap]: a later child with the same file id replaces an earlier one. *)
Definition currentMap (cs : list entry) : gmap nat entry :=
  fold_left (fun m e => <[e_file e := e]> m) cs ∅.

(** [el.remove()] for the mapped elements whose file is gone. *)
Definition remove_stale (pending : list pending_file) (m : gmap nat entry) (cs : list entry) : list entry :=
  List.filter (fun e => bool_decide (e_file e ∈ map f_id pending)
                        || negb (bool_decide (e_node <$> m !! e_file e = Some (e_node e)))) cs.

Definition is_active (e : entry) : bool := negb (e_leaving e).

(** [getActiveChild(n)] *)
Definition getActiveChild (n : nat) (cs : list entry) : option entry := List.filter is_active cs !! n.

Definition remove_node (node : nat) (cs : list entry) : list entry :=
  List.filter (fun e => negb (e_node e =? node)) cs.

(** [insertBefore(e, target)], at the end without a target. *)
Fixpoint insert_at_node (e : entry) (node : nat) (cs : list entry) : list entry :=
  match cs with
  | [] => [e]
  | c :: cs => if e_node c =? node then e :: c :: cs else c :: insert_at_node e node cs
  end.

Definition insertBefore (e : entry) (target : option entry) (cs : list entry) : list entry :=
  let cs := remove_node (e_node e) cs in
  match target with Some t => insert_at_node e (e_node t) cs | None => cs ++ [e] end.

(** Changing an element in place. *)
Definition update_node (node : nat) (g : entry -> entry) (cs : list entry) : list entry :=
  map (fun e => if e_node e =? node then g e else e) cs.

Definition file_status_of (store : gmap nat file_state) (id : nat) : file_status :=
  default Queued (fs_status <$> store !! id).
Definition file_progress_of (store : gmap nat file_state) (id : nat) : option Z := store !! id ≫= fs_progress.

Definition show_file (store : gmap nat file_state) (total : nat) (index : nat) (e : entry) : entry :=
  {| e_node := e_node e; e_file := e_file e; e_leaving := e_leaving e; e_entering := e_entering e; e_index := index;
     e_total := total; e_status := file_status_of store (e_file e); e_progress := file_progress_of store (e_file e) |}.

(** [createUploadEntry] and the attributes set after it. *)
Definition new_entry (store : gmap nat file_state) (total index : nat) (f : pending_file) (node : nat) : entry :=
  {| e_node := node; e_file := f_id f; e_leaving := false;
     e_entering := default false (fs_new <$> store !! f_id f); e_index := index; e_total := total;
     e_status := file_status_of store (f_id f); e_progress := file_progress_of store (f_id f) |}.

(** The body of [pendingFiles.forEach] for the file at [index]. *)
Definition place_file (store : gmap nat file_state) (m : gmap nat entry) (total index : nat) (f : pending_file)
    (v : list entry * nat) : list entry * nat :=
  let '(cs, fresh) := v in
  match m !! f_id f with
  | Some e =>
    if e_leaving e then (insertBefore (new_entry store total index f fresh) (getActiveChild index cs) cs, S fresh)
    else
      let e := show_file store total index e in
      let cs := update_node (e_node e) (show_file store total index) cs in
      let target := getActiveChild index cs in
      (if bool_decide (e_node <$> target = Some (e_node e)) then cs else insertBefore e target cs, fresh)
  | None => (insertBefore (new_entry store total index f fresh) (getActiveChild index cs) cs, S fresh)
  end.

Fixpoint place_files (store : gmap nat file_state) (m : gmap nat entry) (total index : nat) (fs : list pending_file)
    (v : list entry * nat) : list entry * nat :=
  match fs with
  | [] => v
  | f :: fs => place_files store m total (S index) fs (place_file store m total index f v)
  end.

Definition total_size (fs : list pending_file) : Z := fold_left (fun acc f => (acc + f_size f)%Z) fs 0%Z.

(** [renderPendingFiles] with at least one file; without files it only starts closing the panel. *)
Definition renderPendingFiles (pending : list pending_file) (store : gmap nat file_state) (v : list_view) : list_view :=
  match pending with
  | [] => v
  | _ =>
    let m := currentMap (children v) in
    let '(cs, fresh) := place_files store m (length pending) 0 pending
                          (remove_stale pending m (children v), next_node v) in
    {| children := cs; next_node := fresh; has_multiple := 1 <? length pending; has_many := 4 <? length pending;
       deleting := deleting v && existsb e_leaving cs; count_shown := length pending; size_shown := total_size pending |}
  end.

(** [clearUploadControlsContent] *)
Definition clearUploadControlsContent (v : list_view) : list_view :=
  {| children := []; next_node := next_node v; has_multiple := false; has_many := false; deleting := false;
     count_shown := 0; size_shown := 0 |}.

(** [collapseUploadEntry] once its class is set. *)
Definition collapseUploadEntry (node : nat) (v : list_view) : list_view :=
  {| children := update_node node (fun e =>
       {| e_node := e_node e; e_file := e_file e; e_leaving := true; e_entering := e_entering e; e_index := e_index e;
          e_total := e_total e; e_status := e_status e; e_progress := e_progress e |}) (children v);
     next_node := next_node v; has_multiple := has_multiple v; has_many := has_many v; deleting := deleting v;
     count_shown := count_shown v; size_shown := size_shown v |}.

Definition remove_entry (node : nat) (v : list_view) : list_view :=
  {| children := remove_node node (children v); next_node := next_node v; has_multiple := has_multiple v;
     has_many := has_many v; deleting := deleting v; count_shown := count_shown v; size_shown := size_shown v |}.

(** [byId('upload-entry-' + n)]: the first in document order. *)
Definition entry_by_index (n : nat) (v : list_view) : option entry := List.find (fun e => e_index e =? n) (children v).

(** ** What a list looks like *)
Section reconcile.
Implicit Types (cs : list entry) (e : entry).

Definition active_entries cs : list entry := List.filter is_active cs.
Definition leaving_entries cs : list entry := List.filter e_leaving cs.

(** An active element's file comes before the files of all later elements. *)
Definition in_order (x y : entry) : Prop := is_active x = true -> e_file x < e_file y.

Record view_ok (cs : list entry) (fresh : nat) : Prop := {
  vo_nodes : NoDup (map e_node cs);
  vo_fresh : forall e, e ∈ cs -> e_node e < fresh;
  vo_order : StronglySorted in_order cs
}.

Lemma view_ok_Lfilter p cs fresh : view_ok cs fresh -> view_ok (List.filter p cs) fresh.
Proof.
  intros [H1 H2 H3]. constructor; [by apply NoDup_map_Lfilter| |by apply Sorted_Lfilter].
  intros e [He _]%elem_of_Lfilter. by apply H2.
Qed.

(** Updates that keep an element's node, file and class. *)
Definition keeps (g : entry -> entry) : Prop :=
  forall e, e_node (g e) = e_node e /\ e_file (g e) = e_file e /\ e_leaving (g e) = e_leaving e.

Lemma update_node_fields node g cs : keeps g ->
  map e_node (update_node node g cs) = map e_node cs /\ map e_file (update_node node g cs) = map e_file cs /\
  map e_leaving (update_node node g cs) = map e_leaving cs.
Proof.
  intros Hg. unfold update_node. rewrite !map_map. split_and!; apply map_ext; intros e; destruct (e_node e =? node);
    destruct (Hg e) as (? & ? & ?); done.
Qed.

Lemma update_node_filter node g cs (p : entry -> bool) :
  (forall e, p (g e) = p e) -> List.filter p (update_node node g cs) = update_node node g (List.filter p cs).
Proof.
  intros Hp. induction cs as [|e cs IH]; [done|]. cbn [update_node map List.filter]. fold (update_node node g cs).
  destruct (e_node e =? node) eqn:E; rewrite ?Hp; destruct (p e); cbn [update_node map]; rewrite ?E, IH; done.
Qed.

Lemma update_node_absent node g cs : (forall e, e ∈ cs -> e_node e <> node) -> update_node node g cs = cs.
Proof.
  induction cs as [|e cs IH]; intros Hn; [done|]. cbn [update_node map]. fold (update_node node g cs).
  destruct (Nat.eqb_spec (e_node e) node) as [E|E]; [destruct (Hn e); [apply list_elem_of_here|done]|].
  rewrite IH; [done|]. intros e' He'. by apply Hn, list_elem_of_further.
Qed.

Lemma update_node_ok node g cs fresh : keeps g -> view_ok cs fresh -> view_ok (update_node node g cs) fresh.
Proof.
  intros Hg [H1 H2 H3]. destruct (update_node_fields node g cs Hg) as (En & Ef & El). constructor.
  - by rewrite En.
  - intros e He. assert (Hin : e_node e ∈ map e_node (update_node node g cs)) by (apply list_elem_of_fmap; eauto).
    rewrite En in Hin. apply list_elem_of_fmap in Hin as (e' & -> & He'). by apply H2.
  - clear -H3 Hg. induction H3 as [|e cs Hs IH He]; [constructor|]. cbn [update_node map]. fold (update_node node g cs).
    constructor; [done|]. rewrite Forall_forall in *. intros y Hy. unfold update_node in Hy.
    apply list_elem_of_fmap in Hy as (y' & -> & Hy'). pose proof (He y' Hy') as Ho. unfold in_order, is_active in *.
    destruct (Hg e) as (_ & E1 & E2), (Hg y') as (_ & E3 & E4). destruct (e_node e =? node), (e_node y' =? node);
      rewrite ?E1, ?E2, ?E3, ?E4; done.
Qed.

(** *** Insertion *)
Lemma remove_node_absent node cs : (forall e, e ∈ cs -> e_node e <> node) -> remove_node node cs = cs.
Proof.
  induction cs as [|e cs IH]; intros Hn; [done|]. cbn [remove_node List.filter]. fold (remove_node node cs).
  destruct (Nat.eqb_spec (e_node e) node) as [E|E]; [destruct (Hn e); [apply list_elem_of_here|done]|].
  cbn [negb]. rewrite IH; [done|]. intros e' He'. by apply Hn, list_elem_of_further.
Qed.

Lemma insert_at_node_perm e node cs : insert_at_node e node cs ≡ₚ e :: cs.
Proof.
  induction cs as [|c cs IH]; [done|]. cbn [insert_at_node]. destruct (e_node c =? node); [done|].
  rewrite IH. apply Permutation_swap.
Qed.

Lemma insert_at_node_leaving e node cs : is_active e = true ->
  leaving_entries (insert_at_node e node cs) = leaving_entries cs.
Proof.
  intros He. unfold leaving_entries. assert (e_leaving e = false) as Hl by (by apply negb_true_iff).
  induction cs as [|c cs IH]; cbn [insert_at_node List.filter]; [by rewrite Hl|].
  destruct (e_node c =? node); cbn [List.filter]; rewrite ?Hl; [done|]. by rewrite IH.
Qed.

(** Before the first active element [t] that follows the active elements [P]. *)
Lemma insert_before_active e t P R cs fresh :
  view_ok cs fresh -> active_entries cs = P ++ t :: R -> is_active e = true -> e_node e = fresh ->
  (forall x, x ∈ P -> e_file x < e_file e) -> e_file e < e_file t ->
  view_ok (insert_at_node e (e_node t) cs) (S fresh) /\
  active_entries (insert_at_node e (e_node t) cs) = P ++ e :: t :: R.
Proof.
  intros [H1 H2 H3] Hact He Hn HP Ht.
  assert (Hboth : StronglySorted in_order (insert_at_node e (e_node t) cs) /\
    active_entries (insert_at_node e (e_node t) cs) = P ++ e :: t :: R).
  { clear Hn H2. revert P Hact HP. induction H3 as [|c cs Hs IH Hc]; intros P Hact HP; [by destruct P|].
    apply NoDup_cons in H1 as [Hnc H1]. cbn [insert_at_node]. unfold active_entries in *. cbn [List.filter] in *.
    assert (Htin : t ∈ (if is_active c then c :: List.filter is_active cs else List.filter is_active cs))
      by (rewrite Hact; apply elem_of_app; right; apply list_elem_of_here).
    destruct (Nat.eqb_spec (e_node c) (e_node t)) as [E|E].
    - assert (c = t) as ->.
      { destruct (is_active c); [apply elem_of_cons in Htin as [->|Htin]; [done|]|]; apply elem_of_Lfilter in Htin as [Htin _];
          destruct Hnc; rewrite E; by apply list_elem_of_fmap_2. }
      assert (Hta : is_active t = true).
      { assert (Hin : t ∈ List.filter is_active (t :: cs)) by (cbn [List.filter]; exact Htin). by apply elem_of_Lfilter in Hin as [_ ?]. }
      rewrite Hta in *. assert (HPn : P = []).
      { destruct P as [|x P]; [done|]. injection Hact as <- Hact. destruct Hnc.
        assert (Hin : t ∈ List.filter is_active cs) by (rewrite Hact; apply elem_of_app; right; apply list_elem_of_here).
        apply elem_of_Lfilter in Hin as [Hin _]. by apply list_elem_of_fmap_2. }
      subst P. split; [|cbn [List.filter]; rewrite He, Hta; cbn [app] in *; by rewrite Hact].
      constructor; [by constructor|]. constructor; [by intros _|]. rewrite Forall_forall in *. intros y Hy _.
      specialize (Hc y Hy Hta). lia.
    - destruct (is_active c) eqn:Hca.
      + destruct P as [|x P]; [by injection Hact as -> _|]. injection Hact as <- Hact.
        destruct (IH H1 P Hact) as [IHs IHa]; [intros x Hx; by apply HP, list_elem_of_further|].
        split; [|cbn [List.filter]; by rewrite Hca, IHa]. constructor; [done|]. rewrite insert_at_node_perm.
        constructor; [|done]. intros _. apply HP, list_elem_of_here.
      + destruct (IH H1 P Hact HP) as [IHs IHa]. split; [|cbn [List.filter]; by rewrite Hca, IHa].
        constructor; [done|]. rewrite insert_at_node_perm. constructor; [|done]. intros Hc'. congruence. }
  destruct Hboth as [Hs Ha]. split; [|done]. constructor; [| |done].
  - rewrite insert_at_node_perm. cbn [map]. constructor; [|done]. rewrite list_elem_of_fmap. intros (y & E & Hy).
    specialize (H2 y Hy). lia.
  - intros y. rewrite insert_at_node_perm. intros [->|Hy]%elem_of_cons; [lia|]. specialize (H2 y Hy). lia.
Qed.

Lemma append_active e P cs fresh :
  view_ok cs fresh -> active_entries cs = P -> is_active e = true -> e_node e = fresh ->
  (forall x, x ∈ P -> e_file x < e_file e) ->
  view_ok (cs ++ [e]) (S fresh) /\ active_entries (cs ++ [e]) = P ++ [e].
Proof.
  intros [H1 H2 H3] Hact He Hn HP. split.
  - constructor.
    + rewrite map_app. apply NoDup_app. split_and!; [done| |by apply NoDup_singleton].
      intros n Hin Hn'%list_elem_of_singleton. apply list_elem_of_fmap in Hin as (y & -> & Hy). specialize (H2 y Hy). lia.
    + intros y [Hy|Hy%list_elem_of_singleton]%elem_of_app; [specialize (H2 y Hy); lia|subst; lia].
    + clear H1 H2. subst P. induction H3 as [|c cs Hs IH Hc]; cbn [app]; [repeat constructor|].
      unfold active_entries in HP. cbn [List.filter] in HP. constructor.
      * apply IH. intros x Hx. apply HP. destruct (is_active c); [by apply list_elem_of_further|done].
      * apply Forall_app. split; [done|]. constructor; [|constructor]. intros Ha. apply HP. rewrite Ha. apply list_elem_of_here.
  - unfold active_entries in *. rewrite List.filter_app, Hact. cbn [List.filter]. by rewrite He.
Qed.

(** *** Placing the files one after the other *)
Section placing.
Context (store : gmap nat file_state) (m : gmap nat entry) (total : nat) (fresh0 : nat).

(** What an element of the file at [index] shows; a file that had an active element keeps it. *)
Definition shows (index : nat) (f : pending_file) (e : entry) : Prop :=
  e_file e = f_id f /\ is_active e = true /\ e_index e = index /\ e_total e = total /\
  e_status e = file_status_of store (f_id f) /\ e_progress e = file_progress_of store (f_id f) /\
  match m !! f_id f with
  | Some e0 => if e_leaving e0 then fresh0 <= e_node e else e_node e = e_node e0
  | None => fresh0 <= e_node e
  end.

(** [P] is placed, [R] holds the active elements of the files [fs] still to come. *)
Record placing_ok (index : nat) (fs : list pending_file) (P R : list entry) (cs : list entry) (fresh : nat) : Prop := {
  po_view : view_ok cs fresh;
  po_active : active_entries cs = P ++ R;
  po_placed : length P = index;
  po_before : forall x f, x ∈ P -> f ∈ fs -> e_file x < f_id f;
  po_rest : forall e, e ∈ R -> e_file e ∈ map f_id fs /\
    exists e0, m !! e_file e = Some e0 /\ e_node e0 = e_node e /\ e_leaving e0 = false;
  po_kept : forall f e0, f ∈ fs -> m !! f_id f = Some e0 -> e_leaving e0 = false -> exists e, e ∈ R /\ e_file e = f_id f;
  po_fresh : fresh0 <= fresh
}.

Lemma active_sorted cs fresh : view_ok cs fresh -> StronglySorted (fun x y => e_file x < e_file y) (active_entries cs).
Proof.
  intros [_ _ Hs]. apply (Sorted_Lfilter _ is_active) in Hs. unfold active_entries.
  assert (Hall : forall e, e ∈ List.filter is_active cs -> is_active e = true) by (by intros e [_ He]%elem_of_Lfilter).
  induction Hs as [|x l Hl IH Hx]; constructor.
  - apply IH. intros e He. by apply Hall, list_elem_of_further.
  - rewrite Forall_forall in *. intros y Hy. apply Hx; [done|]. apply Hall, list_elem_of_here.
Qed.

Lemma sorted_app_r {A} (R : A -> A -> Prop) l1 l2 : StronglySorted R (l1 ++ l2) -> StronglySorted R l2.
Proof. induction l1 as [|x l1 IH]; [done|]. cbn [app]. inversion 1; subst. by apply IH. Qed.

Lemma keeps_show_file index : keeps (show_file store total index).
Proof. by intros e. Qed.

(** The first file to come that has an active element has the first of the rest. *)
Lemma kept_first index f fs P R cs fresh :
  placing_ok index (f :: fs) P R cs fresh -> StronglySorted lt (map f_id (f :: fs)) ->
  (exists e, e ∈ R /\ e_file e = f_id f) -> exists e R', R = e :: R' /\ e_file e = f_id f.
Proof.
  intros Hok Hs (e & He & Ef). destruct R as [|x R]; [by apply elem_of_nil in He|]. exists x, R. split; [done|].
  apply elem_of_cons in He as [->|He]; [done|]. exfalso.
  pose proof (active_sorted _ _ (po_view _ _ _ _ _ _ Hok)) as Hsort. rewrite (po_active _ _ _ _ _ _ Hok) in Hsort.
  apply sorted_app_r in Hsort. inversion Hsort as [|? ? Hs' Hx]; subst. rewrite Forall_forall in Hx. specialize (Hx e He).
  destruct (po_rest _ _ _ _ _ _ Hok x (list_elem_of_here _ _)) as [Hin _]. cbn [map] in Hin, Hs.
  inversion Hs as [|? ? Hs2 Hf]; subst. rewrite Forall_forall in Hf.
  apply elem_of_cons in Hin as [Hin|Hin]; [lia|]. specialize (Hf _ Hin). lia.
Qed.

Lemma place_kept index f fs P e R cs fresh e0 :
  placing_ok index (f :: fs) P (e :: R) cs fresh -> StronglySorted lt (map f_id (f :: fs)) -> e_file e = f_id f ->
  m !! f_id f = Some e0 -> e_leaving e0 = false ->
  exists e1, place_file store m total index f (cs, fresh) = (update_node (e_node e0) (show_file store total index) cs, fresh) /\
    shows index f e1 /\
    placing_ok (S index) fs (P ++ [e1]) R (update_node (e_node e0) (show_file store total index) cs) fresh.
Proof.
  intros Hok Hs Ef Hm Hl. pose proof (po_view _ _ _ _ _ _ Hok) as Hv. pose proof (po_active _ _ _ _ _ _ Hok) as Ha.
  destruct (po_rest _ _ _ _ _ _ Hok e (list_elem_of_here _ _)) as [_ (e0' & Hm' & Hn & _)].
  rewrite Ef, Hm in Hm'. injection Hm' as <-.
  assert (Hea : e ∈ cs /\ is_active e = true).
  { apply elem_of_Lfilter. fold (active_entries cs). rewrite Ha. apply elem_of_app. right. apply list_elem_of_here. }
  set (g := show_file store total index). assert (Hnd : NoDup (map e_node (P ++ e :: R))).
  { rewrite <- Ha. apply NoDup_map_Lfilter, vo_nodes with fresh, Hv. }
  assert (Hact : active_entries (update_node (e_node e0) g cs) = P ++ g e :: R).
  { unfold active_entries. rewrite update_node_filter by done. fold (active_entries cs). rewrite Ha, Hn.
    rewrite map_app in Hnd. cbn [map] in Hnd. apply NoDup_app in Hnd as (_ & HP & [HR _]%NoDup_cons).
    unfold update_node at 1. rewrite map_app. cbn [map]. rewrite Nat.eqb_refl. f_equal; [|f_equal].
    - apply (update_node_absent (e_node e) g). intros x Hx E. apply (HP (e_node x)); [by apply list_elem_of_fmap_2|].
      rewrite E. apply list_elem_of_here.
    - apply (update_node_absent (e_node e) g). intros x Hx E. apply HR. rewrite <- E. by apply list_elem_of_fmap_2. }
  exists (g e). split_and!.
  - unfold place_file. rewrite Hm, Hl. cbv zeta. fold g. unfold getActiveChild. fold (active_entries (update_node (e_node (g e0)) g cs)).
    change (e_node (g e0)) with (e_node e0). rewrite Hact. rewrite lookup_app_r by (rewrite (po_placed _ _ _ _ _ _ Hok); lia).
    rewrite (po_placed _ _ _ _ _ _ Hok), Nat.sub_diag. cbn [lookup list_lookup fmap option_fmap option_map].
    rewrite bool_decide_eq_true_2; [done|]. cbn. by rewrite Hn.
  - unfold shows. rewrite Hm, Hl. subst g. cbn. rewrite Ef. destruct Hea as [_ Hea]. split_and!; try done.
  - destruct Hok as [_ _ Hlen Hbef Hrest Hkept Hfr]. constructor.
    + by apply update_node_ok; [apply keeps_show_file|].
    + rewrite Hact, <- app_assoc. done.
    + rewrite length_app. cbn. lia.
    + intros x f' [Hx|Hx%list_elem_of_singleton]%elem_of_app Hf'; [by apply Hbef; [|apply list_elem_of_further]|].
      subst x. change (e_file (g e)) with (e_file e). rewrite Ef. cbn [map] in Hs. inversion Hs as [|? ? _ Hlt]; subst.
      rewrite Forall_forall in Hlt. by apply Hlt, list_elem_of_fmap_2.
    + intros x Hx. destruct (Hrest x (list_elem_of_further _ _ _ Hx)) as [Hin ?]. split; [|done]. cbn [map] in Hin.
      apply elem_of_cons in Hin as [Hin|Hin]; [|done]. exfalso.
      pose proof (active_sorted _ _ Hv) as Hsort. rewrite Ha in Hsort. apply sorted_app_r in Hsort.
      inversion Hsort as [|? ? _ Hlt]; subst. rewrite Forall_forall in Hlt. specialize (Hlt x Hx). lia.
    + intros f' e' Hf' Hm2 Hl'. destruct (Hkept f' e' (list_elem_of_further _ _ _ Hf') Hm2 Hl') as (x & Hx & Ex).
      apply elem_of_cons in Hx as [->|Hx]; [|eauto]. exfalso. cbn [map] in Hs. inversion Hs as [|? ? _ Hlt]; subst.
      rewrite Forall_forall in Hlt. specialize (Hlt (f_id f') (list_elem_of_fmap_2 _ _ _ Hf')). lia.
    + done.
Qed.

Lemma place_new index f fs P R cs fresh :
  placing_ok index (f :: fs) P R cs fresh -> StronglySorted lt (map f_id (f :: fs)) ->
  (forall e0, m !! f_id f = Some e0 -> e_leaving e0 = true) ->
  exists cs', place_file store m total index f (cs, fresh) = (cs', S fresh) /\
    leaving_entries cs' = leaving_entries cs /\
    shows index f (new_entry store total index f fresh) /\
    placing_ok (S index) fs (P ++ [new_entry store total index f fresh]) R cs' (S fresh).
Proof.
  intros Hok Hs Hm. pose proof (po_view _ _ _ _ _ _ Hok) as Hv. pose proof (po_active _ _ _ _ _ _ Hok) as Ha.
  set (e := new_entry store total index f fresh). set (cs' := insertBefore e (getActiveChild index cs) cs).
  assert (Hplace : place_file store m total index f (cs, fresh) = (cs', S fresh)).
  { unfold place_file. destruct (m !! f_id f) as [e0|] eqn:E; [|done]. by rewrite (Hm e0). }
  assert (Hf : forall g, g ∈ fs -> f_id f < f_id g).
  { intros g Hg. cbn [map] in Hs. inversion Hs as [|? ? _ Hlt]; subst. rewrite Forall_forall in Hlt.
    by apply Hlt, list_elem_of_fmap_2. }
  assert (HP : forall x, x ∈ P -> e_file x < e_file e).
  { intros x Hx. by apply (po_before _ _ _ _ _ _ Hok); [|apply list_elem_of_here]. }
  assert (HR : forall x, x ∈ R -> e_file e < e_file x).
  { intros x Hx. destruct (po_rest _ _ _ _ _ _ Hok x Hx) as [Hin (e0 & Hm0 & _ & Hl0)]. cbn [map] in Hin.
    apply elem_of_cons in Hin as [Hin|Hin]; [rewrite Hin in Hm0; rewrite (Hm e0 Hm0) in Hl0; done|].
    apply list_elem_of_fmap in Hin as (g & -> & Hg). by apply Hf. }
  assert (Hrm : remove_node (e_node e) cs = cs).
  { apply remove_node_absent. intros x Hx. pose proof (vo_fresh _ _ Hv x Hx) as Hlt. change (e_node e) with fresh. lia. }
  assert (Hins : view_ok cs' (S fresh) /\ active_entries cs' = P ++ e :: R /\ leaving_entries cs' = leaving_entries cs).
  { subst cs'. unfold insertBefore. rewrite Hrm. unfold getActiveChild. fold (active_entries cs).
    rewrite Ha, lookup_app_r by (rewrite (po_placed _ _ _ _ _ _ Hok); lia). rewrite (po_placed _ _ _ _ _ _ Hok), Nat.sub_diag.
    destruct R as [|t R]; cbn [lookup list_lookup].
    - rewrite app_nil_r in Ha. destruct (append_active e P cs fresh) as [? ?]; [done..|]. split_and!; [done..|].
      unfold leaving_entries. rewrite List.filter_app. cbn [List.filter]. by rewrite app_nil_r.
    - destruct (insert_before_active e t P R cs fresh) as [? ?]; [done..|apply HR, list_elem_of_here|].
      split_and!; [done..|]. by apply insert_at_node_leaving. }
  destruct Hins as (Hv' & Ha' & Hl'). exists cs'. split_and!; [done..| |].
  - unfold shows, e. cbn. pose proof (po_fresh _ _ _ _ _ _ Hok). split_and!; try done.
    destruct (m !! f_id f) as [e0|] eqn:E; [by rewrite (Hm e0)|done].
  - destruct Hok as [_ _ Hlen Hbef Hrest Hkept Hfr]. constructor; [done| | | | | |lia].
    + by rewrite Ha', <- app_assoc.
    + rewrite length_app. cbn. lia.
    + intros x g [Hx|Hx%list_elem_of_singleton]%elem_of_app Hg; [by apply Hbef; [|apply list_elem_of_further]|].
      subst x. by apply Hf.
    + intros x Hx. destruct (Hrest x Hx) as [Hin ?]. split; [|done]. cbn [map] in Hin. specialize (HR x Hx).
      change (e_file e) with (f_id f) in HR. apply elem_of_cons in Hin as [Hin|Hin]; [lia|done].
    + intros g e' Hg. apply Hkept. by apply list_elem_of_further.
Qed.

Lemma place_files_ok fs : forall index P cs fresh R,
  placing_ok index fs P R cs fresh -> StronglySorted lt (map f_id fs) ->
  let '(cs', fresh') := place_files store m total index fs (cs, fresh) in
  exists Q, view_ok cs' fresh' /\ active_entries cs' = P ++ Q /\ length Q = length fs /\ fresh <= fresh' /\
    (forall i f e, fs !! i = Some f -> Q !! i = Some e -> shows (index + i) f e) /\
    map e_node (leaving_entries cs') = map e_node (leaving_entries cs).
Proof.
  induction fs as [|f fs IH]; intros index P cs fresh R Hok Hs; cbn [place_files].
  - exists []. destruct Hok as [? Ha _ _ Hrest _ _]. split_and!; try done.
    destruct R as [|x R]; [done|]. destruct (Hrest x (list_elem_of_here _ _)) as [Hin _]. by apply elem_of_nil in Hin.
  - assert (Hs' : StronglySorted lt (map f_id fs)) by (by inversion Hs).
    assert (Hstep : exists e1 cs1 fresh1 R1, place_file store m total index f (cs, fresh) = (cs1, fresh1) /\ shows index f e1 /\
      placing_ok (S index) fs (P ++ [e1]) R1 cs1 fresh1 /\ fresh <= fresh1 /\
      map e_node (leaving_entries cs1) = map e_node (leaving_entries cs)).
    { destruct (m !! f_id f) as [e0|] eqn:Hm; [destruct (e_leaving e0) eqn:Hl|].
      - destruct (place_new index f fs P R cs fresh Hok Hs) as (cs1 & ? & E & ? & ?); [intros; congruence|].
        do 4 eexists. split_and!; [done..|lia|by rewrite E].
      - destruct (kept_first index f fs P R cs fresh Hok Hs) as (e & R' & -> & Ef).
        { by eapply (po_kept _ _ _ _ _ _ Hok); [apply list_elem_of_here|..]. }
        destruct (place_kept index f fs P e R' cs fresh e0 Hok Hs Ef Hm Hl) as (e1 & ? & ? & ?).
        do 4 eexists. split_and!; [done..|]. unfold leaving_entries. rewrite update_node_filter by done.
        by destruct (update_node_fields (e_node e0) (show_file store total index) (List.filter e_leaving cs)
          (keeps_show_file index)) as (-> & _).
      - destruct (place_new index f fs P R cs fresh Hok Hs) as (cs1 & ? & E & ? & ?); [intros; congruence|].
        do 4 eexists. split_and!; [done..|lia|by rewrite E]. }
    destruct Hstep as (e1 & cs1 & fresh1 & R1 & -> & Hshow & Hok1 & Hle & Hlv).
    specialize (IH (S index) (P ++ [e1]) cs1 fresh1 R1 Hok1 Hs').
    destruct (place_files store m total (S index) fs (cs1, fresh1)) as [cs' fresh'].
    destruct IH as (Q & ? & Ha & Hlen & ? & Hq & Hlv'). exists (e1 :: Q). split_and!; [done|..].
    + by rewrite Ha, <- app_assoc.
    + cbn. lia.
    + lia.
    + intros [|i] g e; cbn [lookup list_lookup]; [intros [= <-] [= <-]; by rewrite Nat.add_0_r|].
      intros Hg He. rewrite <- Nat.add_succ_comm. by apply (Hq i).
    + congruence.
Qed.
End placing.
End reconcile.

(** ** Properties *)
Section theorem.
Implicit Types (cs : list entry) (e : entry).

Lemma currentMap_snoc cs e : currentMap (cs ++ [e]) = <[e_file e := e]> (currentMap cs).
Proof. unfold currentMap. by rewrite fold_left_app. Qed.

Lemma currentMap_in cs id e : currentMap cs !! id = Some e -> e ∈ cs /\ e_file e = id.
Proof.
  induction cs as [|c cs IH] using rev_ind; [unfold currentMap; cbn; by rewrite lookup_empty|].
  rewrite currentMap_snoc. intros [[<- <-]|[_ Hc]]%lookup_insert_Some.
  - split; [|done]. apply elem_of_app. right. apply list_elem_of_here.
  - destruct (IH Hc). split; [|done]. apply elem_of_app. by left.
Qed.

(** The map holds the active element of a file that has one. *)
Lemma currentMap_active cs e : StronglySorted in_order cs -> e ∈ cs -> is_active e = true -> currentMap cs !! e_file e = Some e.
Proof.
  induction cs as [|c cs IH] using rev_ind; intros Hs He Ha; [by apply elem_of_nil in He|]. rewrite currentMap_snoc.
  assert (Hs' : StronglySorted in_order cs /\ Forall (fun x => in_order x c) cs).
  { clear -Hs. induction cs as [|x cs IH]; [repeat constructor|]. cbn [app] in Hs. inversion Hs as [|? ? Hs' Hx]; subst.
    destruct (IH Hs') as [? ?]. apply Forall_app in Hx as [Hx Hc]. rewrite Forall_singleton in Hc. split; by constructor. }
  destruct Hs' as [Hs' Hc]. apply elem_of_app in He as [He|He%list_elem_of_singleton]; [|subst; by rewrite lookup_insert_eq].
  rewrite Forall_forall in Hc. specialize (Hc e He Ha). rewrite lookup_insert_ne by lia. by apply IH.
Qed.

Lemma placing_start pending cs fresh :
  view_ok cs fresh -> let m := currentMap cs in let cs1 := remove_stale pending m cs in
  placing_ok m fresh 0 pending [] (active_entries cs1) cs1 fresh.
Proof.
  intros Hv. cbn zeta. set (m := currentMap cs). constructor; try done.
  - by apply view_ok_Lfilter.
  - intros x f Hx. by apply elem_of_nil in Hx.
  - intros e [[He Hp]%elem_of_Lfilter Ha]%elem_of_Lfilter.
    assert (Hm : m !! e_file e = Some e) by (apply currentMap_active; [apply (vo_order _ _ Hv)|done..]).
    rewrite Hm in Hp. cbn in Hp. rewrite (bool_decide_eq_true_2 (Some _ = _)), orb_false_r in Hp by done.
    apply bool_decide_eq_true in Hp. split; [done|]. exists e. split_and!; [done..|by apply negb_true_iff].
  - intros f e0 Hf Hm Hl. destruct (currentMap_in cs (f_id f) e0 Hm) as [He Ef]. exists e0. split; [|done].
    apply elem_of_Lfilter. split; [|unfold is_active; by rewrite Hl]. apply elem_of_Lfilter. split; [done|].
    rewrite Ef, bool_decide_eq_true_2; [done|]. by apply list_elem_of_fmap_2.
Qed.

(** The list as a whole: what every operation keeps. *)
Definition list_ok (v : list_view) : Prop := view_ok (children v) (next_node v).

(** after [renderPendingFiles] the elements that are not leaving are exactly the pending files' elements, in their
    order, each with its position, the number of files and its file's status and progress; a file that had such an
    element keeps it and the others get fresh ones; no leaving element is touched but those whose file is gone. *)
Theorem renderPendingFiles_shows pending store v :
  list_ok v -> StronglySorted lt (map f_id pending) -> pending <> [] ->
  let v' := renderPendingFiles pending store v in
  list_ok v' /\ map e_file (active_entries (children v')) = map f_id pending /\
  (forall i f e, pending !! i = Some f -> active_entries (children v') !! i = Some e ->
     e_index e = i /\ e_total e = length pending /\ e_status e = file_status_of store (f_id f) /\
     e_progress e = file_progress_of store (f_id f) /\
     (forall e0, e0 ∈ active_entries (children v) -> e_file e0 = f_id f -> e_node e = e_node e0) /\
     ((forall e0, e0 ∈ active_entries (children v) -> e_file e0 <> f_id f) -> next_node v <= e_node e)) /\
  (forall n, n ∈ map e_node (leaving_entries (children v')) -> n ∈ map e_node (leaving_entries (children v))).
Proof.
  intros Hv Hs Hne. destruct pending as [|f0 fs0] eqn:Ep; [done|]. rewrite <- Ep in *. cbn zeta.
  assert (Hr : renderPendingFiles pending store v =
    let m := currentMap (children v) in
    let '(cs, fresh) := place_files store m (length pending) 0 pending (remove_stale pending m (children v), next_node v) in
    {| children := cs; next_node := fresh; has_multiple := 1 <? length pending; has_many := 4 <? length pending;
       deleting := deleting v && existsb e_leaving cs; count_shown := length pending; size_shown := total_size pending |})
    by (by rewrite Ep).
  rewrite Hr. clear Hr. cbv zeta. set (m := currentMap (children v)).
  pose proof (place_files_ok store m (length pending) (next_node v) pending 0 []
    (remove_stale pending m (children v)) (next_node v) _ (placing_start pending _ _ Hv) Hs) as Hp.
  destruct (place_files _ _ _ _ _ _) as [cs fresh]. destruct Hp as (Q & Hv' & Ha & Hlen & _ & Hshow & Hlv).
  cbn [children next_node]. cbn [app] in Ha. split_and!; [done| | |].
  - rewrite Ha. apply list_eq_same_length with (n := length pending); rewrite ?length_map; [done..|].
    intros i x y Hi. rewrite !list_lookup_fmap. intros (e & He & ->)%fmap_Some (f & Hf & ->)%fmap_Some.
    by destruct (Hshow i f e Hf He).
  - intros i f e Hf He. rewrite Ha in He. destruct (Hshow i f e Hf He) as (_ & _ & H1 & H2 & H3 & H4 & H5).
    rewrite Nat.add_0_l in H1. split_and!; [done..| |].
    + intros e0 [Hin Ha0]%elem_of_Lfilter Ef. pose proof (currentMap_active _ _ (vo_order _ _ Hv) Hin Ha0) as Hm.
      fold m in Hm. rewrite Ef in Hm. rewrite Hm in H5. apply negb_true_iff in Ha0. by rewrite Ha0 in H5.
    + intros Hno. destruct (m !! f_id f) as [e0|] eqn:Hm; [|done]. destruct (e_leaving e0) eqn:Hl; [done|].
      destruct (currentMap_in _ _ _ Hm) as [Hin Ef]. destruct (Hno e0); [|done]. apply elem_of_Lfilter.
      unfold is_active. by rewrite Hl.
  - intros n. rewrite Hlv. intros (e & -> & [[He _]%elem_of_Lfilter Hl]%elem_of_Lfilter)%list_elem_of_fmap.
    apply list_elem_of_fmap. exists e. split; [done|]. by apply elem_of_Lfilter.
Qed.
End theorem.

(** ** An example *)
Definition sample_entry (node file : nat) (leaving : bool) : entry :=
  {| e_node := node; e_file := file; e_leaving := leaving; e_entering := false; e_index := file; e_total := 2;
     e_status := Queued; e_progress := None |}.

Definition sample_view : list_view :=
  {| children := [sample_entry 0 3 false; sample_entry 1 4 true; sample_entry 2 5 false]; next_node := 3; has_multiple := true;
     has_many := false; deleting := false; count_shown := 3; size_shown := 9 |}.

Definition sample_pending : list pending_file :=
  map (fun i => {| f_id := i; f_name := js "f"; f_size := 3 |}) [3; 4; 7].

Lemma renderPendingFiles_shows_witness :
  let v' := renderPendingFiles sample_pending ∅ sample_view in
  map (fun e => (e_node e, e_file e, e_leaving e, e_index e)) (children v') =
    [(0, 3, false, 0); (1, 4, true, 4); (3, 4, false, 1); (4, 7, false, 2)] /\
  list_ok v' /\ map e_file (active_entries (children v')) = map f_id sample_pending.
Proof.
  assert (Hv : list_ok sample_view).
  { constructor.
    - refine (proj1 (bool_decide_eq_true _) _). vm_compute. reflexivity.
    - cbn. intros e. rewrite !elem_of_cons, elem_of_nil. intros [->|[->|[->|[]]]]; cbn; lia.
    - repeat constructor; intros _; cbn; lia. }
  split; [vm_compute; reflexivity|].
  destruct (renderPendingFiles_shows sample_pending ∅ sample_view Hv) as (H1 & H2 & _).
  - cbn. repeat constructor; lia.
  - done.
  - exact (conj H1 H2).
Defined.
