(* ===== verification/UploadQueue.v ===== *)
(** * Uploading the selected files

    [internal/service/frontend/renop-html/js/browser/upload.js]: the pending files, their removal, the batch that one
    click on the upload button starts, and the signing policy it obeys.  Every [await] and every timer is an event, so
    clicks, removals and batches interleave as they can on the page.

    The files' states ([_status], [_progress]) live in a store, since the pending list and a running batch share the
    file objects.  The list on the page is that of [UploadList]; panel animations, the warning about missing space and
    the directory reload are not modelled. *)
From Stdlib Require Import Ascii String Sorting.Sorted.
From S2P Require Import JsArray BrowserUtils.
From S2P Require Export UploadList JsNumber.
From S2P Require ChunkedUpload.
Local Open Scope nat_scope.

(** ** Names *)
Section names.
Context `{UnicodeCase}.

(** [fileExt] *)
Definition fileExt (name : jstr) : jstr :=
  match last_index_of_char (ch "."%char) name with
  | Some (S idx) => to_lower (slice_from (S (S idx)) name)
  | _ => []
  end.

Definition isGPGProtectedFile (name : jstr) : bool :=
  let lower := to_lower name in
  ends_with (js ".jar") lower || ends_with (js ".pom") lower || ends_with (js ".module") lower.

Definition isGPGDetachedSignature (name : jstr) : bool :=
  ends_with (js ".asc") name && isGPGProtectedFile (slice_drop_last 4 name).

(** [signedArtifactNames], a [Set]. *)
Definition signedArtifactNames (files : list pending_file) : list jstr :=
  map (fun f => slice_drop_last 4 (f_name f)) (List.filter (fun f => isGPGDetachedSignature (f_name f)) files).

Definition missingSignatures (files : list pending_file) : list pending_file :=
  List.filter (fun f => isGPGProtectedFile (f_name f) && negb (bool_decide (f_name f ∈ signedArtifactNames files))) files.

(** [calculatePendingRequiredSpace] *)
Definition calculatePendingRequiredSpace (files : list pending_file) : Z :=
  fold_left (fun total f =>
    (total + f_size f * (if ends_with (js "-javadoc.jar") (to_lower (f_name f)) then 4 else 2) + 1024 * 1024)%Z) files 0%Z.

(** The answer of [updateUploadSpaceCheck]: the disk's used and total bytes, or no usable response. *)
Definition insufficient_space (answer : option (Z * Z)) (files : list pending_file) : bool :=
  match files, answer with
  | _ :: _, Some (used, total) =>
    let free := Z.max 0 (total - used) in (free <? calculatePendingRequiredSpace files)%Z || (free <=? 0)%Z
  | _, _ => false
  end.

(** [uploadQueue]: files with their positions, detached signatures last. *)
Definition signature_order (left right : pending_file * nat) : Z :=
  (Z.b2z (isGPGDetachedSignature (f_name left.1)) - Z.b2z (isGPGDetachedSignature (f_name right.1)))%Z.

Definition uploadQueue (files : list pending_file) : list (pending_file * nat) :=
  array_sort signature_order (zip files (seq 0 (length files))).
End names.

(** ** Requests *)

(** [cleanDest + file.name] *)
Definition relativeDest (dest name : jstr) : jstr :=
  let d := match dest with 47%N :: d => d | _ => dest end in
  (if ends_with (js "/") d then d else d ++ js "/") ++ name.

(** [replace(/\/+/g, '/').replace(/^\//, '')] *)
Fixpoint collapse_slashes (after_slash : bool) (s : jstr) : jstr :=
  match s with
  | [] => []
  | c :: s =>
    if (c =? 47)%N then (if after_slash then collapse_slashes true s else c :: collapse_slashes true s)
    else c :: collapse_slashes false s
  end.

Definition chunked_path (relative : jstr) : jstr :=
  match collapse_slashes false relative with 47%N :: s => s | s => s end.

(** What one click uploads, read once at its start; [b_checksums] is the header of its requests; [b_checked] and [b_policy] are the files and the policy its first
    checks saw. *)
Record batch := {
  b_checked : list pending_file; b_policy : bool; b_signed : list jstr;
  b_dest : jstr; b_checksums : bool; b_repo : jstr; b_path : jstr; b_files : list pending_file
}.

Inductive action :=
| PutFile (run : nat) (f : pending_file) (target : jstr) (signature_expected checksums : bool)
| ChunkFile (run : nat) (f : pending_file) (path : jstr) (signature_expected checksums generateChecksums : bool)
| GeneratePom (run : nat) (repo relative groupId artifactId version : jstr)
| Show (key name : jstr)
| LoadDirectory (path : jstr).

Section requests.
Context `{UnicodeCase}.

Definition signatureExpected (b : batch) (f : pending_file) : bool :=
  isGPGProtectedFile (f_name f) && bool_decide (f_name f ∈ b_signed b).

(** The request for a file, if its path can be encoded ([encodeRelativePath] throws on a lone surrogate).  The batch's
    headers say whether its start found the checksum box ticked; a chunked upload also asks for what the box says now. *)
Definition file_request (live : bool) (run : nat) (b : batch) (f : pending_file) : option action :=
  let relative := relativeDest (b_dest b) (f_name f) in
  target ← encodeRelativePath relative;
  Some (if ChunkedUpload.shouldUseChunkedUpload (Some (f_size f))
        then ChunkFile run f (chunked_path relative) (signatureExpected b f) (b_checksums b) live
        else PutFile run f (js "/" ++ target) (signatureExpected b f) (b_checksums b)).

(** [dest.substring(repoName.length + 1)] *)
Definition pom_request (run : nat) (b : batch) (pom : jstr * jstr * jstr) : option action :=
  let '(groupId, artifactId, version) := pom in
  relative ← encodeRelativePath (slice_from (length (b_repo b) + 1) (b_dest b));
  repo ← encodePathSegment (b_repo b);
  Some (GeneratePom run repo relative groupId artifactId version).
End requests.

(** ** The machine *)

(** A click's progress: at the space check; sending a file, whose element's node it noted; at the POM request; over.
    [completed] files took [before] bytes. *)
Inductive run :=
| CheckingSpace (checked : list pending_file) (policy : bool) (signed : list jstr)
| Transferring (b : batch) (queue : list (pending_file * nat)) (f : pending_file) (node : option nat)
    (completed : nat) (before : Z)
| AwaitingPom (b : batch) (completed : nat)
| Ended (b : batch) (completed : nat).

Record form := {
  destination : jstr; checksums : bool; pom_checked : bool; pom_fields : jstr * jstr * jstr; location : jstr
}.

Record upload := {
  pendingFiles : list pending_file;
  next_file : nat;
  store : gmap nat file_state;
  uploading : bool;
  busy : bool;
  repositoryRequiresGPG : bool;
  the_form : form;
  view : list_view;
  batch_percent : option Z;
  runs : gmap nat run;
  removals : gmap nat (nat * nat);    (* the index and the node noted at the click *)
  clears : gmap nat (list nat);
  next_task : nat;
  actions : list action               (* newest first *)
}.

Definition set_pending (fs : list pending_file) (s : upload) : upload :=
  {| pendingFiles := fs; next_file := next_file s; store := store s; uploading := uploading s; busy := busy s;
     repositoryRequiresGPG := repositoryRequiresGPG s; the_form := the_form s; view := view s;
     batch_percent := batch_percent s; runs := runs s; removals := removals s; clears := clears s;
     next_task := next_task s; actions := actions s |}.
Definition set_store (m : gmap nat file_state) (s : upload) : upload :=
  {| pendingFiles := pendingFiles s; next_file := next_file s; store := m; uploading := uploading s; busy := busy s;
     repositoryRequiresGPG := repositoryRequiresGPG s; the_form := the_form s; view := view s;
     batch_percent := batch_percent s; runs := runs s; removals := removals s; clears := clears s;
     next_task := next_task s; actions := actions s |}.
Definition set_uploading (b : bool) (s : upload) : upload :=
  {| pendingFiles := pendingFiles s; next_file := next_file s; store := store s; uploading := b; busy := b;
     repositoryRequiresGPG := repositoryRequiresGPG s; the_form := the_form s; view := view s;
     batch_percent := batch_percent s; runs := runs s; removals := removals s; clears := clears s;
     next_task := next_task s; actions := actions s |}.
Definition set_form (required : bool) (g : form) (s : upload) : upload :=
  {| pendingFiles := pendingFiles s; next_file := next_file s; store := store s; uploading := uploading s; busy := busy s;
     repositoryRequiresGPG := required; the_form := g; view := view s;
     batch_percent := batch_percent s; runs := runs s; removals := removals s; clears := clears s;
     next_task := next_task s; actions := actions s |}.
Definition set_view (v : list_view) (s : upload) : upload :=
  {| pendingFiles := pendingFiles s; next_file := next_file s; store := store s; uploading := uploading s; busy := busy s;
     repositoryRequiresGPG := repositoryRequiresGPG s; the_form := the_form s; view := v;
     batch_percent := batch_percent s; runs := runs s; removals := removals s; clears := clears s;
     next_task := next_task s; actions := actions s |}.
Definition set_percent (p : option Z) (s : upload) : upload :=
  {| pendingFiles := pendingFiles s; next_file := next_file s; store := store s; uploading := uploading s; busy := busy s;
     repositoryRequiresGPG := repositoryRequiresGPG s; the_form := the_form s; view := view s;
     batch_percent := p; runs := runs s; removals := removals s; clears := clears s;
     next_task := next_task s; actions := actions s |}.
Definition set_run (k : nat) (r : run) (s : upload) : upload :=
  {| pendingFiles := pendingFiles s; next_file := next_file s; store := store s; uploading := uploading s; busy := busy s;
     repositoryRequiresGPG := repositoryRequiresGPG s; the_form := the_form s; view := view s;
     batch_percent := batch_percent s; runs := <[k := r]> (runs s); removals := removals s; clears := clears s;
     next_task := next_task s; actions := actions s |}.
Definition drop_run (k : nat) (s : upload) : upload :=
  {| pendingFiles := pendingFiles s; next_file := next_file s; store := store s; uploading := uploading s; busy := busy s;
     repositoryRequiresGPG := repositoryRequiresGPG s; the_form := the_form s; view := view s;
     batch_percent := batch_percent s; runs := delete k (runs s); removals := removals s; clears := clears s;
     next_task := next_task s; actions := actions s |}.
Definition set_tasks (r : gmap nat (nat * nat)) (c : gmap nat (list nat)) (n : nat) (s : upload) : upload :=
  {| pendingFiles := pendingFiles s; next_file := next_file s; store := store s; uploading := uploading s; busy := busy s;
     repositoryRequiresGPG := repositoryRequiresGPG s; the_form := the_form s; view := view s;
     batch_percent := batch_percent s; runs := runs s; removals := r; clears := c; next_task := n;
     actions := actions s |}.
Definition act (a : action) (s : upload) : upload :=
  {| pendingFiles := pendingFiles s; next_file := next_file s; store := store s; uploading := uploading s; busy := busy s;
     repositoryRequiresGPG := repositoryRequiresGPG s; the_form := the_form s; view := view s;
     batch_percent := batch_percent s; runs := runs s; removals := removals s; clears := clears s;
     next_task := next_task s; actions := a :: actions s |}.

(** *** The pending list *)

(** [renderPendingFiles()]; the files it gave a new element lose [_isNew]. *)
Definition render (s : upload) : upload :=
  let v := renderPendingFiles (pendingFiles s) (store s) (view s) in
  let created := List.filter (fun e => next_node (view s) <=? e_node e) (children v) in
  set_store (foldr (fun e => alter (fun st =>
      {| fs_status := fs_status st; fs_progress := fs_progress st; fs_new := false |}) (e_file e)) (store s) created)
    (set_view v s).

(** [addPendingFiles]: each file object is new to the page. *)
Fixpoint add_files (fs : list (jstr * Z)) (s : upload) : upload :=
  match fs with
  | [] => s
  | (name, size) :: fs =>
    let f := {| f_id := next_file s; f_name := name; f_size := size |} in
    add_files fs
      {| pendingFiles := pendingFiles s ++ [f]; next_file := S (next_file s);
         store := <[next_file s := {| fs_status := Queued; fs_progress := None; fs_new := true |}]> (store s);
         uploading := uploading s; busy := busy s; repositoryRequiresGPG := repositoryRequiresGPG s;
         the_form := the_form s; view := view s; batch_percent := batch_percent s; runs := runs s;
         removals := removals s; clears := clears s; next_task := next_task s; actions := actions s |}
  end.

Definition addPendingFiles (fs : list (jstr * Z)) (s : upload) : upload := render (add_files fs s).

Definition index_of_file (id : nat) (fs : list pending_file) : option nat :=
  fst <$> list_find (fun f => f_id f = id) fs.

(** [onRemoveHandler]: the element collapses first; [cleanup] comes later, with the index found now. *)
Definition click_remove (id : nat) (s : upload) : upload :=
  if uploading s then s
  else
    match index_of_file id (pendingFiles s) with
    | None => s
    | Some i =>
      match entry_by_index i (view s) with
      | Some e =>
        set_tasks (<[next_task s := (i, e_node e)]> (removals s)) (clears s) (S (next_task s))
          (set_view (collapseUploadEntry (e_node e) (view s)) s)
      | None => render (set_pending (delete i (pendingFiles s)) s)
      end
    end.

Definition removal_ended (k : nat) (s : upload) : upload :=
  match removals s !! k with
  | None => s
  | Some (i, node) =>
    render (set_pending (delete i (pendingFiles s))
      (set_view (remove_entry node (view s)) (set_tasks (delete k (removals s)) (clears s) (next_task s) s)))
  end.

(** The clear button: the elements shown collapse one by one, then the list is emptied. *)
Definition click_clear (s : upload) : upload :=
  if uploading s then s
  else
    match active_entries (children (view s)) with
    | [] => render (set_pending [] s)
    | es => set_tasks (removals s) (<[next_task s := map e_node es]> (clears s)) (S (next_task s)) s
    end.

Definition clear_collapses (k node : nat) (s : upload) : upload :=
  match clears s !! k with
  | Some nodes => if bool_decide (node ∈ nodes) then set_view (collapseUploadEntry node (view s)) s else s
  | None => s
  end.

Definition clear_ended (k : nat) (s : upload) : upload :=
  match clears s !! k with
  | Some _ => render (set_pending [] (set_tasks (removals s) (delete k (clears s)) (next_task s) s))
  | None => s
  end.

(** [applyRepositoryGPGPolicy] *)
Definition applyRepositoryGPGPolicy (required supportsHelpers : bool) (s : upload) : upload :=
  let g := the_form s in
  set_form required
    {| destination := destination g; checksums := supportsHelpers && checksums g;
       pom_checked := supportsHelpers && negb required && pom_checked g; pom_fields := pom_fields g;
       location := location g |} s.

(** *** One click *)
Section running.
Context `{UnicodeCase}.

(** The upload button's handler up to the space check. *)
Definition click_upload (s : upload) : upload :=
  match pendingFiles s with
  | [] => s
  | fs =>
    if uploading s then s
    else
      match repositoryRequiresGPG s, missingSignatures fs with
      | true, _ :: _ => act (Show (js "browser.gpgSignatureRequired") []) s
      | _, _ =>
        set_tasks (removals s) (clears s) (S (next_task s))
          (set_run (next_task s) (CheckingSpace fs (repositoryRequiresGPG s) (signedArtifactNames fs)) s)
      end
  end.

(** The attributes of an element whose file is being sent. *)
Definition show_status (status : file_status) (progress : option Z) (e : entry) : entry :=
  {| e_node := e_node e; e_file := e_file e; e_leaving := e_leaving e; e_entering := e_entering e;
     e_index := e_index e; e_total := e_total e; e_status := status;
     e_progress := match progress with Some _ => progress | None => e_progress e end |}.

(** [file._status] and [file._progress], and the same on the element noted at the file's start. *)
Definition set_file (id : nat) (node : option nat) (status : file_status) (progress shown : option Z) (s : upload) : upload :=
  let st := default {| fs_status := Queued; fs_progress := None; fs_new := false |} (store s !! id) in
  let p := match progress with Some _ => progress | None => fs_progress st end in
  let s := set_store (<[id := {| fs_status := status; fs_progress := p; fs_new := fs_new st |}]> (store s)) s in
  match node with
  | None => s
  | Some n =>
    set_view
      {| children := update_node n (show_status status shown) (children (view s)); next_node := next_node (view s);
         has_multiple := has_multiple (view s); has_many := has_many (view s); deleting := deleting (view s);
         count_shown := count_shown (view s); size_shown := size_shown (view s) |} s
  end.

(** The end of the handler. *)
Definition end_batch (k : nat) (b : batch) (completed : nat) (s : upload) : upload :=
  act (LoadDirectory (b_path b)) (render (set_uploading false (set_pending [] (set_run k (Ended b completed) s)))).

(** After the last file: the POM, if it is wanted. *)
Definition files_done (k : nat) (b : batch) (completed : nat) (s : upload) : upload :=
  if pom_checked (the_form s) then
    match pom_fields (the_form s) with
    | (_ :: _, _ :: _, _ :: _) as pom =>
      match pom_request k b pom with
      | Some a => act a (set_run k (AwaitingPom b completed) s)
      | None => end_batch k b completed s
      end
    | _ => end_batch k b completed (act (Show (js "browser.fillPomFields") []) s)
    end
  else end_batch k b completed s.

(** The loop over [uploadQueue] up to its next [await]: a file whose path cannot be encoded fails at once. *)
Fixpoint send_files (k : nat) (b : batch) (queue : list (pending_file * nat)) (completed : nat) (before : Z)
    (s : upload) : upload :=
  match queue with
  | [] => files_done k b completed s
  | (f, i) :: queue =>
    let node := e_node <$> entry_by_index i (view s) in
    match file_request (checksums (the_form s)) k b f with
    | Some a =>
      act a (set_run k (Transferring b queue f node completed before) (set_file (f_id f) node Uploading None (Some 0%Z) s))
    | None =>
      let s := act (Show (js "browser.failedUpload") (f_name f)) (set_file (f_id f) node Failed None None s) in
      send_files k b queue (S completed) (before + f_size f)%Z s
    end
  end.

(** The space check has answered; the batch is taken from the page as it is now. *)
Definition space_answered (k : nat) (answer : option (Z * Z)) (s : upload) : upload :=
  match runs s !! k with
  | Some (CheckingSpace checked policy signed) =>
    if insufficient_space answer (pendingFiles s) then
      act (Show (js "browser.insufficientDiskSpace") []) (drop_run k s)
    else
      match path_parts (location (the_form s)) with
      | [] => drop_run k s
      | segment :: _ =>
        let b := {| b_checked := checked; b_policy := policy; b_signed := signed; b_dest := destination (the_form s);
                    b_checksums := checksums (the_form s); b_repo := decodePathSegment segment;
                    b_path := location (the_form s); b_files := pendingFiles s |} in
        let s := set_uploading true s in
        let s := if 1 <? length (pendingFiles s) then set_percent (Some 0%Z) s else s in
        send_files k b (uploadQueue (b_files b)) 0 0 s
      end
  | _ => s
  end.

(** [applyProgress] *)
Definition progress (k : nat) (loaded total : Z) (s : upload) : upload :=
  match runs s !! k with
  | Some (Transferring b queue f node completed before) =>
    if (total <=? 0)%Z then s
    else
      let p := Some (percentage loaded total) in
      let status := file_status_of (store s) (f_id f) in
      let s := set_file (f_id f) node status p p s in
      let all := total_size (b_files b) in
      if (1 <? length (b_files b)) && (0 <? all)%Z
      then set_percent (Some (Z.min 100 (percentage (before + loaded) all))) s else s
  | _ => s
  end.

(** How the transfer of a file ended; [None] for an exception. *)
Definition file_ended (k : nat) (outcome : option (bool * bool)) (s : upload) : upload :=
  match runs s !! k with
  | Some (Transferring b queue f node completed before) =>
    let s :=
      match outcome with
      | Some (true, reviewed) =>
        act (Show (if reviewed then js "browser.uploadQueuedReview" else js "browser.uploadedSuccess") (f_name f))
          (set_file (f_id f) node Done (Some 100%Z) (Some 100%Z) s)
      | _ => act (Show (js "browser.failedUpload") (f_name f)) (set_file (f_id f) node Failed None None s)
      end in
    send_files k b queue (S completed) (before + f_size f)%Z s
  | _ => s
  end.

(** The POM's response, [None] for an exception, which stays silent. *)
Definition pom_answered (k : nat) (ok : option bool) (s : upload) : upload :=
  match runs s !! k with
  | Some (AwaitingPom b completed) =>
    end_batch k b completed
      (match ok with Some false => act (Show (js "browser.failedGenPom") []) s | _ => s end)
  | _ => s
  end.

Inductive upload_event :=
| AddFiles (fs : list (jstr * Z))
| ClickRemove (id : nat)
| RemovalEnded (k : nat)
| ClickClear
| ClearCollapses (k node : nat)
| ClearEnded (k : nat)
| SetPolicy (required supportsHelpers : bool)
| SetForm (g : form)
| ClickUpload
| SpaceAnswered (k : nat) (answer : option (Z * Z))
| Progress (k : nat) (loaded total : Z)
| FileEnded (k : nat) (outcome : option (bool * bool))
| PomAnswered (k : nat) (ok : option bool)
| ClosePanel                              (* [setUploadPanelOpen(false)] *)
| ControlsClosed                          (* the controls have collapsed *)
| LanguageChanged.

Definition upload_step (ev : upload_event) (s : upload) : upload :=
  match ev with
  | AddFiles fs => addPendingFiles fs s
  | ClickRemove id => click_remove id s
  | RemovalEnded k => removal_ended k s
  | ClickClear => click_clear s
  | ClearCollapses k node => clear_collapses k node s
  | ClearEnded k => clear_ended k s
  | SetPolicy required helpers => applyRepositoryGPGPolicy required helpers s
  | SetForm g => set_form (repositoryRequiresGPG s) g s
  | ClickUpload => click_upload s
  | SpaceAnswered k answer => space_answered k answer s
  | Progress k loaded total => progress k loaded total s
  | FileEnded k outcome => file_ended k outcome s
  | PomAnswered k ok => pom_answered k ok s
  | ClosePanel => set_pending [] s
  | ControlsClosed => match pendingFiles s with [] => set_view (clearUploadControlsContent (view s)) s | _ => s end
  | LanguageChanged => match pendingFiles s with [] => s | _ => render s end
  end.

Definition upload_run (evs : list upload_event) (s : upload) : upload := fold_left (fun s ev => upload_step ev s) evs s.
End running.

(** The module's state before any event. *)
Definition initUpload (g : form) : upload :=
  {| pendingFiles := []; next_file := 0; store := ∅; uploading := false; busy := false; repositoryRequiresGPG := false;
     the_form := g;
     view := {| children := []; next_node := 0; has_multiple := false; has_many := false; deleting := false;
                count_shown := 0; size_shown := 0 |};
     batch_percent := None; runs := ∅; removals := ∅; clears := ∅; next_task := 0; actions := [] |}.

(** ** Names and queues *)
Section queue_lemmas.
Context `{UnicodeCase}.

Lemma ends_with_iff p s : ends_with p s = true <-> exists q, s = q ++ p.
Proof.
  unfold ends_with. rewrite starts_with_spec. split.
  - intros [r E]. exists (reverse r). apply (f_equal reverse) in E. rewrite reverse_involutive, reverse_app, reverse_involutive in E. done.
  - intros [q ->]. exists (reverse q). by rewrite reverse_app.
Qed.

(** The signature of a protected file is the file's name with [.asc]. *)
Lemma detached_signature name :
  isGPGDetachedSignature name = true <-> exists base, name = base ++ js ".asc" /\ isGPGProtectedFile base = true.
Proof.
  unfold isGPGDetachedSignature. rewrite andb_true_iff, ends_with_iff.
  assert (Hdrop : forall base, slice_drop_last 4 (base ++ js ".asc") = base).
  { intros base. unfold slice_drop_last. rewrite length_app. change (length (js ".asc")) with 4.
    by rewrite Nat.add_sub, take_app_length. }
  split; [intros [[base ->] Hb]|intros (base & -> & Hb)]; rewrite Hdrop in *; [by exists base|split; [by exists base|done]].
Qed.

Lemma signed_names fs name :
  isGPGProtectedFile name = true ->
  (name ∈ signedArtifactNames fs <-> exists g, g ∈ fs /\ f_name g = name ++ js ".asc").
Proof.
  intros Hp. unfold signedArtifactNames. rewrite list_elem_of_fmap. split.
  - intros (g & -> & [Hg Hs]%elem_of_Lfilter). exists g. split; [done|]. apply detached_signature in Hs as (base & E & _).
    rewrite E. f_equal. unfold slice_drop_last. rewrite length_app. change (length (js ".asc")) with 4.
    by rewrite Nat.add_sub, take_app_length.
  - intros (g & Hg & E). exists g. rewrite E. split.
    + unfold slice_drop_last. rewrite length_app. change (length (js ".asc")) with 4. by rewrite Nat.add_sub, take_app_length.
    + apply elem_of_Lfilter. split; [done|]. rewrite E. apply detached_signature. by exists name.
Qed.

Definition plain (p : pending_file * nat) : bool := negb (isGPGDetachedSignature (f_name p.1)).

Lemma sort_insert_plain x l :
  plain x = true -> sort_insert signature_order x l = x :: l.
Proof.
  intros Hx. destruct l as [|y l]; [done|]. cbn [sort_insert]. unfold signature_order. apply negb_true_iff in Hx. rewrite Hx.
  by destruct (isGPGDetachedSignature (f_name y.1)).
Qed.

Lemma sort_insert_signature x P S :
  plain x = false -> Forall (fun y => plain y = true) P -> Forall (fun y => plain y = false) S ->
  sort_insert signature_order x (P ++ S) = P ++ x :: S.
Proof.
  intros Hx HP HS. induction HP as [|y P Hy _ IH]; cbn [app].
  - destruct HS as [|y S Hy _]; [done|]. cbn [sort_insert]. unfold signature_order. apply negb_false_iff in Hx, Hy.
    by rewrite Hx, Hy.
  - cbn [sort_insert]. unfold signature_order at 1. apply negb_false_iff in Hx. apply negb_true_iff in Hy. rewrite Hx, Hy. cbn. by rewrite IH.
Qed.

Lemma Forall_filtered {A} (p : A -> bool) l : Forall (fun x => p x = true) (List.filter p l).
Proof. apply Forall_forall. by intros x [_ Hx]%elem_of_Lfilter. Qed.

Lemma array_sort_signatures l :
  array_sort signature_order l = List.filter plain l ++ List.filter (fun p => negb (plain p)) l.
Proof.
  induction l as [|x l IH]; [done|]. cbn [array_sort List.filter]. rewrite IH. destruct (plain x) eqn:Hx; cbn [negb].
  - by rewrite sort_insert_plain.
  - apply sort_insert_signature; [done|apply Forall_filtered|]. eapply Forall_impl; [apply Forall_filtered|].
    intros y Hy. by apply negb_true_iff.
Qed.

Lemma map_fst_Lfilter_zip (q : pending_file -> bool) fs n :
  map fst (List.filter (fun p : pending_file * nat => q p.1) (zip fs (seq n (length fs)))) = List.filter q fs.
Proof.
  revert n. induction fs as [|f fs IH]; intros n; [done|]. cbn [length seq zip zip_with List.filter fst]. 
  destruct (q f); cbn [map fst]; by rewrite IH.
Qed.

(** The queue sends every file once, the others before the detached signatures, each in the list's order. *)
Definition send_order (fs : list pending_file) : list pending_file :=
  List.filter (fun f => negb (isGPGDetachedSignature (f_name f))) fs ++ List.filter (fun f => isGPGDetachedSignature (f_name f)) fs.

Lemma uploadQueue_order fs : map fst (uploadQueue fs) = send_order fs.
Proof.
  unfold uploadQueue, send_order. rewrite array_sort_signatures, map_app. f_equal.
  - apply (map_fst_Lfilter_zip (fun f => negb (isGPGDetachedSignature (f_name f)))).
  - rewrite <- (map_fst_Lfilter_zip (fun f => isGPGDetachedSignature (f_name f)) fs 0). f_equal.
    apply List.filter_ext. intros p. unfold plain. by rewrite negb_involutive.
Qed.

Lemma send_order_perm fs : send_order fs ≡ₚ fs.
Proof.
  unfold send_order. induction fs as [|f fs IH]; [done|]. cbn [List.filter]. destruct (isGPGDetachedSignature (f_name f)); cbn [negb app].
  - rewrite <- Permutation_middle. by rewrite IH.
  - by rewrite IH.
Qed.
End queue_lemmas.

(** ** What a batch sends *)
Section batches.
Context `{UnicodeCase}.

(** The run and the file of a file request. *)
Definition sent (a : action) : option (nat * pending_file) :=
  match a with PutFile k f _ _ _ | ChunkFile k f _ _ _ _ => Some (k, f) | _ => None end.

(** The file requests of a run, oldest first. *)
Definition requests_of (k : nat) (acts : list action) : list action :=
  reverse (List.filter (fun a => bool_decide (fst <$> sent a = Some k)) acts).

(** The requests for files that were started when the box was ticked or not. *)
Definition planned (k : nat) (b : batch) (fs : list (bool * pending_file)) : list action := omap (fun p => file_request p.1 k b p.2) fs.

(** The requests sent are those for the files [fs]. *)
Definition requests_for (k : nat) (b : batch) (fs : list pending_file) (l : list action) : Prop :=
  exists started, map snd started = fs /\ l = planned k b started.

Lemma requests_for_nil k b : requests_for k b [] [].
Proof. by exists []. Qed.

Lemma requests_for_snoc k b fs f l live :
  requests_for k b fs l -> requests_for k b (fs ++ [f]) (l ++ match file_request live k b f with Some a => [a] | None => [] end).
Proof.
  intros (st & <- & ->). exists (st ++ [(live, f)]). split; [by rewrite map_app|]. unfold planned. by rewrite omap_app.
Qed.

Definition batch_ok (b : batch) : Prop :=
  b_signed b = signedArtifactNames (b_checked b) /\ (b_policy b = true -> missingSignatures (b_checked b) = []).

Definition run_ok (k : nat) (acts : list action) (r : option run) : Prop :=
  match r with
  | None => requests_of k acts = []
  | Some (CheckingSpace checked policy signed) =>
    requests_of k acts = [] /\ signed = signedArtifactNames checked /\ (policy = true -> missingSignatures checked = [])
  | Some (Transferring b queue f node completed before) =>
    batch_ok b /\ exists sent_before i,
      uploadQueue (b_files b) = sent_before ++ (f, i) :: queue /\ length sent_before = completed /\
      before = total_size (map fst sent_before) /\ requests_for k b (map fst sent_before ++ [f]) (requests_of k acts)
  | Some (AwaitingPom b completed) | Some (Ended b completed) =>
    batch_ok b /\ completed = length (b_files b) /\ requests_for k b (send_order (b_files b)) (requests_of k acts)
  end.

Definition runs_ok (s : upload) : Prop :=
  (forall k, run_ok k (actions s) (runs s !! k)) /\ (forall k, is_Some (runs s !! k) -> k < next_task s).

Lemma requests_of_cons k a acts :
  requests_of k (a :: acts) = if bool_decide (fst <$> sent a = Some k) then requests_of k acts ++ [a] else requests_of k acts.
Proof.
  unfold requests_of. cbn [List.filter]. destruct (bool_decide _); [|done]. by rewrite reverse_cons.
Qed.

Lemma file_request_sent live k b f a : file_request live k b f = Some a -> sent a = Some (k, f).
Proof.
  unfold file_request. destruct (encodeRelativePath _); [|done]. cbn. intros [= <-]. by case_match.
Qed.

Lemma pom_request_sent k b pom a : pom_request k b pom = Some a -> sent a = None.
Proof.
  unfold pom_request. destruct pom as [[g x] v]. destruct (encodeRelativePath _); [|done]. cbn.
  destruct (encodePathSegment _); [|done]. cbn. by intros [= <-].
Qed.

(** Everything but run [k] and its requests. *)
Definition others_kept (k : nat) (s s' : upload) : Prop :=
  next_task s' = next_task s /\
  forall j, j <> k -> runs s' !! j = runs s !! j /\ requests_of j (actions s') = requests_of j (actions s).

Lemma runs_ok_update k s s' :
  others_kept k s s' -> k < next_task s -> run_ok k (actions s') (runs s' !! k) -> runs_ok s -> runs_ok s'.
Proof.
  intros [Hn Ho] Hk Hr [Hs Hb]. split.
  - intros j. destruct (decide (j = k)) as [->|Hj]; [done|]. destruct (Ho j Hj) as [-> E]. specialize (Hs j).
    unfold run_ok in *. rewrite E. exact Hs.
  - intros j Hj. rewrite Hn. destruct (decide (j = k)) as [->|Hne]; [done|]. apply Hb. by destruct (Ho j Hne) as [<- _].
Qed.

Lemma act_other k a s : (fst <$> sent a = None \/ fst <$> sent a = Some k) -> others_kept k s (act a s).
Proof.
  intros Ha. split; [done|]. intros j Hj. split; [done|]. cbn [act actions]. rewrite requests_of_cons.
  rewrite bool_decide_eq_false_2; [done|]. destruct Ha as [->| ->]; congruence.
Qed.

Lemma others_trans k s s1 s2 : others_kept k s s1 -> others_kept k s1 s2 -> others_kept k s s2.
Proof.
  intros [En E] [En' E']. split; [congruence|]. intros j Hj. destruct (E j Hj) as [<- <-]. by apply E'.
Qed.

Lemma set_run_other k r s : others_kept k s (set_run k r s).
Proof. split; [done|]. intros j Hj. split; [|done]. cbn. by rewrite lookup_insert_ne. Qed.

Lemma set_file_frame id node st p q s :
  runs (set_file id node st p q s) = runs s /\ actions (set_file id node st p q s) = actions s /\
  next_task (set_file id node st p q s) = next_task s /\ pendingFiles (set_file id node st p q s) = pendingFiles s /\
  uploading (set_file id node st p q s) = uploading s /\ next_file (set_file id node st p q s) = next_file s.
Proof. unfold set_file. by destruct node. Qed.

Lemma set_file_other k id node st p q s : others_kept k s (set_file id node st p q s).
Proof.
  destruct (set_file_frame id node st p q s) as (E1 & E2 & E3 & _). split; [done|]. intros j _. by rewrite E1, E2.
Qed.

(** Where the batch stands when [queue] is still to be sent. *)
Definition stands (k : nat) (b : batch) (queue : list (pending_file * nat)) (completed : nat) (before : Z) (s : upload) : Prop :=
  batch_ok b /\ exists sent_before,
    uploadQueue (b_files b) = sent_before ++ queue /\ length sent_before = completed /\
    before = total_size (map fst sent_before) /\ requests_for k b (map fst sent_before) (requests_of k (actions s)).

Lemma end_batch_ok k b completed s :
  batch_ok b -> completed = length (b_files b) -> requests_for k b (send_order (b_files b)) (requests_of k (actions s)) ->
  others_kept k s (end_batch k b completed s) /\
  run_ok k (actions (end_batch k b completed s)) (runs (end_batch k b completed s) !! k).
Proof.
  intros Hb Hc Hr. split.
  - eapply others_trans; [apply (set_run_other k (Ended b completed))|]. split; [done|]. intros j Hj. split; [done|].
    unfold end_batch. cbn [act actions]. rewrite requests_of_cons. by rewrite bool_decide_eq_false_2.
  - unfold end_batch. cbn. rewrite lookup_insert_eq. split_and!; [done..|]. rewrite requests_of_cons. by rewrite bool_decide_eq_false_2.
Qed.

Lemma files_done_ok k b completed before s :
  stands k b [] completed before s ->
  others_kept k s (files_done k b completed s) /\
  run_ok k (actions (files_done k b completed s)) (runs (files_done k b completed s) !! k).
Proof.
  intros (Hb & sb & Hq & Hlen & _ & Hr). rewrite app_nil_r in Hq.
  assert (Hc : completed = length (b_files b)).
  { rewrite <- Hlen, <- Hq, <- (length_map fst), uploadQueue_order. apply Permutation_length, send_order_perm. }
  assert (Hr' : requests_for k b (send_order (b_files b)) (requests_of k (actions s))) by (by rewrite <- uploadQueue_order, Hq).
  unfold files_done. destruct (pom_checked (the_form s)); [|by apply end_batch_ok].
  assert (Hmiss : forall key, let s1 := act (Show key []) s in
    others_kept k s (end_batch k b completed s1) /\
    run_ok k (actions (end_batch k b completed s1)) (runs (end_batch k b completed s1) !! k)).
  { intros key. cbv zeta. destruct (end_batch_ok k b completed (act (Show key []) s)) as [H1 H2]; [done..| |].
    - cbn [act actions]. rewrite requests_of_cons. by rewrite bool_decide_eq_false_2.
    - split; [|done]. eapply others_trans, H1. apply act_other. by left. }
  destruct (pom_fields (the_form s)) as [[[|g0 g] [|a0 a]] [|v0 v]]; try apply Hmiss.
  destruct (pom_request k b _) as [a1|] eqn:Hp; [|by apply end_batch_ok]. apply pom_request_sent in Hp. split.
  - eapply others_trans; [apply (set_run_other k (AwaitingPom b completed))|]. apply act_other. left. by rewrite Hp.
  - cbn. rewrite lookup_insert_eq. split_and!; [done..|]. rewrite requests_of_cons, Hp. by rewrite bool_decide_eq_false_2.
Qed.

Lemma total_size_snoc fs f : total_size (fs ++ [f]) = (total_size fs + f_size f)%Z.
Proof. unfold total_size. by rewrite fold_left_app. Qed.

Lemma send_files_ok k b queue : forall completed before s,
  stands k b queue completed before s ->
  others_kept k s (send_files k b queue completed before s) /\
  run_ok k (actions (send_files k b queue completed before s)) (runs (send_files k b queue completed before s) !! k).
Proof.
  induction queue as [|[f i] queue IH]; intros completed before s Hs; cbn [send_files]; [by eapply files_done_ok|].
  destruct Hs as (Hb & sb & Hq & Hlen & Hbef & Hr).
  set (node := e_node <$> entry_by_index i (view s)). destruct (file_request (checksums (the_form s)) k b f) as [a|] eqn:Hf.
  - pose proof (file_request_sent _ k b f a Hf) as Ha. destruct (set_file_frame (f_id f) node Uploading None (Some 0%Z) s) as (_ & E & _).
    split.
    + eapply others_trans; [apply (set_file_other k (f_id f) node Uploading None (Some 0%Z))|].
      eapply others_trans; [apply (set_run_other k (Transferring b queue f node completed before))|].
      apply act_other. right. by rewrite Ha.
    + cbn. rewrite lookup_insert_eq. split; [done|]. exists sb, i. split_and!; [done..|].
      rewrite requests_of_cons, Ha, bool_decide_eq_true_2, E by done.
      pose proof (requests_for_snoc k b _ f _ (checksums (the_form s)) Hr) as Hp. by rewrite Hf in Hp.
  - destruct (IH (S completed) (before + f_size f)%Z
      (act (Show (js "browser.failedUpload") (f_name f)) (set_file (f_id f) node Failed None None s))) as [H1 H2].
    + split; [done|]. exists (sb ++ [(f, i)]). rewrite map_app. cbn [map fst]. split_and!.
      * by rewrite <- app_assoc.
      * rewrite length_app. cbn. lia.
      * by rewrite total_size_snoc, Hbef.
      * cbn [act actions]. rewrite requests_of_cons, bool_decide_eq_false_2 by done.
        destruct (set_file_frame (f_id f) node Failed None None s) as (_ & -> & _).
        pose proof (requests_for_snoc k b _ f _ (checksums (the_form s)) Hr) as Hp. by rewrite Hf, app_nil_r in Hp.
    + split; [|done]. eapply others_trans, H1. eapply others_trans; [apply (set_file_other k)|]. apply act_other. by left.
Qed.

(** Steps that send nothing and leave every run alone. *)
Definition quiet (s s' : upload) : Prop :=
  runs s' = runs s /\ (forall k, requests_of k (actions s') = requests_of k (actions s)) /\ next_task s <= next_task s'.

Lemma quiet_ok s s' : quiet s s' -> runs_ok s -> runs_ok s'.
Proof.
  intros (Hr & Ha & Hn) [Hs Hb]. split.
  - intros k. specialize (Hs k). unfold run_ok in *. by rewrite Hr, Ha.
  - intros k. rewrite Hr. intros Hk. specialize (Hb k Hk). lia.
Qed.

Lemma quiet_same s s' : runs s' = runs s -> actions s' = actions s -> next_task s <= next_task s' -> quiet s s'.
Proof. intros Hr Ha Hn. split_and!; [done|by intros k; rewrite Ha|done]. Qed.

Lemma add_files_frame fs s :
  runs (add_files fs s) = runs s /\ actions (add_files fs s) = actions s /\ next_task (add_files fs s) = next_task s /\
  removals (add_files fs s) = removals s /\ clears (add_files fs s) = clears s /\ view (add_files fs s) = view s /\
  uploading (add_files fs s) = uploading s.
Proof. revert s. induction fs as [|[n z] fs IH]; intros s; cbn [add_files]; [done|]. exact (IH _). Qed.

Ltac same_runs := apply quiet_same; cbn; first [done|lia].

Lemma quiet_step ev s :
  match ev with ClickUpload | SpaceAnswered _ _ | FileEnded _ _ | PomAnswered _ _ => False | _ => True end ->
  quiet s (upload_step ev s).
Proof.
  intros Hev. destruct ev; try done; cbn [upload_step].
  - unfold addPendingFiles. destruct (add_files_frame fs s) as (E1 & E2 & E3 & _). apply quiet_same; cbn; rewrite ?E1, ?E2, ?E3; first [done|lia].
  - unfold click_remove. destruct (uploading s); [same_runs|]. destruct (index_of_file _ _) as [i|]; [|same_runs].
    destruct (entry_by_index _ _); same_runs.
  - unfold removal_ended. destruct (removals s !! k) as [[i node]|]; same_runs.
  - unfold click_clear. destruct (uploading s); [same_runs|]. destruct (active_entries _); same_runs.
  - unfold clear_collapses. destruct (clears s !! k); [destruct (bool_decide _)|]; same_runs.
  - unfold clear_ended. destruct (clears s !! k); same_runs.
  - unfold progress. destruct (runs s !! k) as [[| | |]|]; try same_runs. destruct (_ <=? _)%Z; [same_runs|].
    destruct (set_file_frame (f_id f) node (file_status_of (store s) (f_id f)) (Some (percentage loaded total)) (Some (percentage loaded total)) s)
      as (E1 & E2 & E3 & _). destruct (_ && _); apply quiet_same; cbn; rewrite ?E1, ?E2, ?E3; first [done|lia].
  - destruct (pendingFiles s); same_runs.
  - destruct (pendingFiles s); same_runs.
Qed.

Lemma click_upload_ok s : runs_ok s -> runs_ok (click_upload s).
Proof.
  intros Hok. unfold click_upload. destruct (pendingFiles s) as [|f0 fs0] eqn:Ep; [done|]. rewrite <- Ep.
  destruct (uploading s); [done|]. pose proof Hok as [Hs Hb].
  assert (Hnone : runs s !! next_task s = None) by (apply eq_None_not_Some; intros Hk%Hb; lia).
  set (start := set_tasks _ _ _ _). assert (Hstart : (repositoryRequiresGPG s = true -> missingSignatures (pendingFiles s) = []) -> runs_ok start).
  { intros Hm. subst start. split.
    - intros k. cbn. destruct (decide (k = next_task s)) as [->|Hk]; [|by rewrite lookup_insert_ne].
      rewrite lookup_insert_eq. split_and!; [|done..]. pose proof (Hs (next_task s)) as Hn. by rewrite Hnone in Hn.
    - intros k. cbn. intros [r [[<- <-]|[_ Hk]]%lookup_insert_Some]; [lia|]. assert (k < next_task s) by (apply Hb; eauto). lia. }
  destruct (repositoryRequiresGPG s) eqn:Er; [|by apply Hstart].
  destruct (missingSignatures (pendingFiles s)) eqn:Em; [by apply Hstart|].
  apply (quiet_ok s); [|done]. split_and!; [done| |done]. intros k. cbn [act actions]. rewrite requests_of_cons.
  by rewrite bool_decide_eq_false_2.
Qed.

Lemma space_answered_ok k answer s : runs_ok s -> runs_ok (space_answered k answer s).
Proof.
  intros Hok. unfold space_answered. destruct (runs s !! k) as [[checked policy signed| | |]|] eqn:Hk; try done.
  pose proof Hok as [Hs Hb]. pose proof (Hs k) as Hrun. rewrite Hk in Hrun. destruct Hrun as (Hr & Hsig & Hpol).
  assert (Hlt : k < next_task s) by (apply Hb; rewrite Hk; eauto).
  assert (Hdrop : runs_ok (drop_run k s)).
  { apply (runs_ok_update k s); [|done| |done].
    - split; [done|]. intros j Hj. split; [|done]. cbn. by rewrite lookup_delete_ne.
    - cbn. by rewrite lookup_delete_eq. }
  destruct (insufficient_space answer (pendingFiles s)).
  - apply (quiet_ok (drop_run k s)); [|done]. split_and!; [done| |done]. intros j. cbn [act actions]. rewrite requests_of_cons.
    by rewrite bool_decide_eq_false_2.
  - destruct (path_parts (location (the_form s))) as [|segment parts]; [done|]. cbv zeta. set (b := Build_batch _ _ _ _ _ _ _ _).
    set (s1 := if 1 <? _ then _ else _).
    assert (E : runs s1 = runs s /\ actions s1 = actions s /\ next_task s1 = next_task s)
      by (subst s1; by destruct (1 <? length (pendingFiles (set_uploading true s)))).
    destruct E as (E1 & E2 & E3). destruct (send_files_ok k b (uploadQueue (b_files b)) 0 0 s1) as [H1 H2].
    + split; [done|]. exists []. split_and!; try done. rewrite E2, Hr. apply requests_for_nil.
    + apply (runs_ok_update k s); [|done..]. destruct H1 as [En H1]. split; [congruence|]. intros j Hj.
      destruct (H1 j Hj) as [-> ->]. by rewrite E1, E2.
Qed.

Lemma file_ended_ok k outcome s : runs_ok s -> runs_ok (file_ended k outcome s).
Proof.
  intros Hok. unfold file_ended. destruct (runs s !! k) as [[|b queue f node completed before| |]|] eqn:Hk; try done.
  pose proof Hok as [Hs Hb]. pose proof (Hs k) as Hrun. rewrite Hk in Hrun. destruct Hrun as (Hbok & sb & i & Hq & Hlen & Hbef & Hr).
  assert (Hlt : k < next_task s) by (apply Hb; rewrite Hk; eauto). cbv zeta.
  match goal with |- context [send_files _ _ _ _ _ ?x] => set (s1 := x) end.
  assert (E : others_kept k s s1 /\ requests_of k (actions s1) = requests_of k (actions s)).
  { assert (Hshow : forall key st p q, let s2 := act (Show key (f_name f)) (set_file (f_id f) node st p q s) in
      others_kept k s s2 /\ requests_of k (actions s2) = requests_of k (actions s)).
    { intros. split; [eapply others_trans; [apply (set_file_other k)|apply act_other; by left]|]. subst s2. cbn [act actions].
      rewrite requests_of_cons, bool_decide_eq_false_2 by done. by destruct (set_file_frame (f_id f) node st p q s) as (_ & -> & _). }
    subst s1. destruct outcome as [[[] reviewed]|]; apply Hshow. }
  destruct E as [Ho Ereq]. destruct (send_files_ok k b queue (S completed) (before + f_size f)%Z s1) as [H1 H2].
  - split; [done|]. exists (sb ++ [(f, i)]). rewrite map_app. cbn [map fst]. split_and!.
    + by rewrite <- app_assoc.
    + rewrite length_app. cbn. lia.
    + by rewrite total_size_snoc, Hbef.
    + by rewrite Ereq.
  - apply (runs_ok_update k s); [by eapply others_trans|done..].
Qed.

Lemma pom_answered_ok k ok s : runs_ok s -> runs_ok (pom_answered k ok s).
Proof.
  intros Hok. unfold pom_answered. destruct (runs s !! k) as [[| |b completed|]|] eqn:Hk; try done.
  pose proof Hok as [Hs Hb]. pose proof (Hs k) as Hrun. rewrite Hk in Hrun. destruct Hrun as (Hbok & Hc & Hr).
  assert (Hlt : k < next_task s) by (apply Hb; rewrite Hk; eauto).
  match goal with |- context [end_batch _ _ _ ?x] => set (s1 := x) end.
  assert (E : others_kept k s s1 /\ requests_of k (actions s1) = requests_of k (actions s)).
  { subst s1. destruct ok as [[]|]; [by split| |by split]. split; [apply act_other; by left|]. cbn [act actions].
    by rewrite requests_of_cons, bool_decide_eq_false_2. }
  destruct E as [Ho E]. destruct (end_batch_ok k b completed s1) as [H1 H2]; [done..|by rewrite E|].
  apply (runs_ok_update k s); [by eapply others_trans|done..].
Qed.

Lemma upload_step_ok ev s : runs_ok s -> runs_ok (upload_step ev s).
Proof.
  intros Hok. destruct ev; try (by apply (quiet_ok s); [apply quiet_step|]); cbn [upload_step].
  - by apply click_upload_ok.
  - by apply space_answered_ok.
  - by apply file_ended_ok.
  - by apply pom_answered_ok.
Qed.

Lemma upload_run_ok evs g : runs_ok (upload_run evs (initUpload g)).
Proof.
  apply (run_invariant upload_step runs_ok); [intros; by apply upload_step_ok|]. split.
  - intros k. cbn. by rewrite lookup_empty.
  - intros k [r Hk]. cbn in Hk. by rewrite lookup_empty in Hk.
Qed.
End batches.

(** ** Properties of a batch *)
Section batch_theorems.
Context `{UnicodeCase}.

Definition run_batch (r : run) : option batch :=
  match r with CheckingSpace _ _ _ => None | Transferring b _ _ _ _ _ | AwaitingPom b _ | Ended b _ => Some b end.

(** What a step adds to the requests; a chunked upload that it starts asks for checksums as the box says in the page before. *)
Definition asks_checksums (live : bool) (a : action) : Prop :=
  match a with ChunkFile _ _ _ _ _ generate => generate = live | _ => True end.

Definition acts_new (live : bool) (s s' : upload) : Prop :=
  exists new, actions s' = new ++ actions s /\ Forall (asks_checksums live) new.

Lemma acts_same live s s' : actions s' = actions s -> acts_new live s s'.
Proof. intros E. exists []. by split. Qed.

Lemma acts_trans live s s1 s2 : acts_new live s s1 -> acts_new live s1 s2 -> acts_new live s s2.
Proof. intros (n1 & E1 & H1) (n2 & E2 & H2). exists (n2 ++ n1). rewrite E2, E1, app_assoc. split; [done|by apply Forall_app]. Qed.

Lemma acts_act live a s s' : asks_checksums live a -> actions s' = actions s -> acts_new live s (act a s').
Proof. intros Ha E. exists [a]. cbn. rewrite E. split; [done|by apply Forall_singleton]. Qed.

Lemma end_batch_acts live k b completed s : acts_new live s (end_batch k b completed s).
Proof. by apply acts_act. Qed.

Lemma files_done_acts live k b completed s : acts_new live s (files_done k b completed s).
Proof.
  assert (Hshow : acts_new live s (end_batch k b completed (act (Show (js "browser.fillPomFields") []) s))).
  { eapply acts_trans; [by apply (acts_act live (Show (js "browser.fillPomFields") []) s s)|apply end_batch_acts]. }
  unfold files_done. destruct (pom_checked _); [|apply end_batch_acts]. destruct (pom_fields _) as [[[|? ?] [|? ?]] [|? ?]]; try exact Hshow.
  destruct (pom_request _ _ _) as [a|] eqn:Ha; [|apply end_batch_acts]. apply acts_act; [|done]. apply pom_request_sent in Ha. by destruct a.
Qed.

Lemma set_file_form id node st p q s : the_form (set_file id node st p q s) = the_form s.
Proof. unfold set_file. by destruct node. Qed.

Lemma send_files_acts live k b queue : forall completed before s,
  checksums (the_form s) = live -> acts_new live s (send_files k b queue completed before s).
Proof.
  induction queue as [|[f i] queue IH]; intros completed before s Hl; cbn [send_files]; [apply files_done_acts|]. cbv zeta.
  set (node := e_node <$> entry_by_index i (view s)). rewrite Hl. destruct (file_request live k b f) as [a|] eqn:Hf.
  - apply acts_act; [|cbn; by destruct (set_file_frame (f_id f) node Uploading None (Some 0%Z) s) as (_ & -> & _)].
    unfold file_request in Hf. destruct (encodeRelativePath _); [|done]. cbn in Hf. injection Hf as <-. by case_match.
  - eapply acts_trans; [|apply IH; cbn; by rewrite set_file_form].
    apply acts_act; [done|]. by destruct (set_file_frame (f_id f) node Failed None None s) as (_ & -> & _).
Qed.

Lemma upload_step_acts ev s : acts_new (checksums (the_form s)) s (upload_step ev s).
Proof.
  destruct ev; cbn [upload_step].
  - apply acts_same. unfold addPendingFiles. by destruct (add_files_frame fs s) as (_ & E & _).
  - apply acts_same. unfold click_remove. by repeat case_match.
  - apply acts_same. unfold removal_ended. by repeat case_match.
  - apply acts_same. unfold click_clear. by repeat case_match.
  - apply acts_same. unfold clear_collapses. by repeat case_match.
  - apply acts_same. unfold clear_ended. by repeat case_match.
  - by apply acts_same.
  - by apply acts_same.
  - unfold click_upload. repeat case_match; first [by apply acts_same|by apply acts_act].
  - unfold space_answered. repeat case_match; try (by apply acts_same); [by apply acts_act|..]; cbv zeta;
      (eapply acts_trans; [|by apply send_files_acts]); by apply acts_same.
  - unfold progress. repeat case_match; try (by apply acts_same); apply acts_same; cbn;
      by destruct (set_file_frame (f_id f) node (file_status_of (store s) (f_id f)) (Some (percentage loaded total)) (Some (percentage loaded total)) s)
        as (_ & -> & _).
  - unfold file_ended. destruct (runs s !! k) as [[|b queue f node completed before| |]|]; try (by apply acts_same). cbv zeta.
    eapply acts_trans; [|apply send_files_acts]; destruct outcome as [[[] reviewed]|]; cbn; rewrite ?set_file_form; try done;
      (apply acts_act; [done|]); by match goal with |- actions (set_file ?i ?n ?st ?p ?q s) = _ => destruct (set_file_frame i n st p q s) as (_ & -> & _) end.
  - unfold pom_answered. destruct (runs s !! k) as [[| |b completed|]|]; try (by apply acts_same).
    eapply acts_trans; [|apply end_batch_acts]. destruct ok as [[]|]; first [by apply acts_same|by apply acts_act].
  - by apply acts_same.
  - apply acts_same. by case_match.
  - apply acts_same. by case_match.
Qed.

(** C13: whatever else happens on the page, a batch sends the files it was started with, one request per file whose path
    can be encoded, detached signatures after all other files and each group in the list's order; its counters say how far
    it is, and when it is over every file was tried.  Its destination, headers and signatures are those of the batch; only
    the request for checksums of a chunked upload follows the page: it is what the box says at the moment when that file's
    transfer starts. *)
Theorem upload_batch_requests evs g :
  let s := upload_run evs (initUpload g) in
  (forall k r b, runs s !! k = Some r -> run_batch r = Some b ->
    send_order (b_files b) ≡ₚ b_files b /\
    match r with
    | Transferring _ queue f _ completed before => exists sent_before,
        send_order (b_files b) = sent_before ++ f :: map fst queue /\ length sent_before = completed /\
        before = total_size sent_before /\ requests_for k b (sent_before ++ [f]) (requests_of k (actions s))
    | AwaitingPom _ completed | Ended _ completed =>
        completed = length (b_files b) /\ requests_for k b (send_order (b_files b)) (requests_of k (actions s))
    | CheckingSpace _ _ _ => False
    end) /\
  forall ev, exists new, actions (upload_step ev s) = new ++ actions s /\ Forall (asks_checksums (checksums (the_form s))) new.
Proof.
  intros s. split; [|intros ev; apply upload_step_acts].
  intros k r b Hk Hb. destruct (upload_run_ok evs g) as [Hs _]. specialize (Hs k). fold s in Hs. rewrite Hk in Hs.
  split; [apply send_order_perm|]. destruct r as [|b' queue f node completed before|b' completed|b' completed]; [done|..];
    injection Hb as ->.
  - destruct Hs as (_ & sb & i & Hq & Hlen & Hbef & Hr). exists (map fst sb).
    rewrite <- uploadQueue_order, Hq, map_app, length_map. done.
  - by destruct Hs as (_ & ? & ?).
  - by destruct Hs as (_ & ? & ?).
Qed.

Definition expects_signature (a : action) : bool :=
  match a with PutFile _ _ _ e _ | ChunkFile _ _ _ e _ _ => e | _ => false end.

Lemma requests_of_in k a acts : a ∈ requests_of k acts <-> a ∈ acts /\ fst <$> sent a = Some k.
Proof. unfold requests_of. rewrite elem_of_reverse, elem_of_Lfilter, bool_decide_eq_true. done. Qed.

Lemma request_batch s k a f :
  runs_ok s -> a ∈ actions s -> sent a = Some (k, f) ->
  exists r b, runs s !! k = Some r /\ run_batch r = Some b /\ batch_ok b /\ f ∈ b_files b /\ exists live, file_request live k b f = Some a.
Proof.
  intros [Hs _] Ha Hsent. assert (Hin : a ∈ requests_of k (actions s)) by (apply requests_of_in; by rewrite Hsent).
  assert (Hplan : forall b fs, requests_for k b fs (requests_of k (actions s)) -> f ∈ fs /\ exists live, file_request live k b f = Some a).
  { intros b fs (st & <- & E). rewrite E in Hin. apply list_elem_of_omap in Hin as ([live f'] & Hf' & Hreq).
    pose proof (file_request_sent live k b f' a Hreq) as Hsent'. rewrite Hsent in Hsent'. injection Hsent' as <-.
    split; [|by exists live]. by apply (list_elem_of_fmap_2 snd) in Hf'. }
  specialize (Hs k). destruct (runs s !! k) as [r|] eqn:Hk; [|rewrite Hs in Hin; by apply elem_of_nil in Hin]. exists r.
  assert (Hord : forall b, f ∈ send_order (b_files b) -> f ∈ b_files b) by (intros b; by rewrite send_order_perm).
  destruct r as [checked policy signed|b queue f' node completed before|b completed|b completed].
  - destruct Hs as [E _]. rewrite E in Hin. by apply elem_of_nil in Hin.
  - destruct Hs as (Hb & sb & i & Hq & _ & _ & Hr). exists b. destruct (Hplan _ _ Hr) as [Hf Hreq]. split_and!; try done.
    apply Hord. rewrite <- uploadQueue_order, Hq, map_app. cbn [map fst]. rewrite cons_middle, app_assoc. apply elem_of_app. by left.
  - destruct Hs as (Hb & _ & Hr). exists b. destruct (Hplan _ _ Hr). auto 7.
  - destruct Hs as (Hb & _ & Hr). exists b. destruct (Hplan _ _ Hr). auto 7.
Qed.

(** C14: a file is announced to the server as signed exactly when it is an artifact whose detached signature was among
    the files its click checked; and if signatures are required and the files were not changed between the click and
    the start of the batch, every artifact sent is announced so and its signature is in the same batch. *)
Theorem artifacts_sent_with_signatures evs g :
  let s := upload_run evs (initUpload g) in
  forall a k f, a ∈ actions s -> sent a = Some (k, f) ->
    exists r b, runs s !! k = Some r /\ run_batch r = Some b /\ f ∈ b_files b /\
      (expects_signature a = true <->
         isGPGProtectedFile (f_name f) = true /\ exists sg, sg ∈ b_checked b /\ f_name sg = f_name f ++ js ".asc") /\
      (b_policy b = true -> b_files b = b_checked b -> isGPGProtectedFile (f_name f) = true ->
         expects_signature a = true /\ exists sg, sg ∈ b_files b /\ f_name sg = f_name f ++ js ".asc").
Proof.
  intros s a k f Ha Hsent. destruct (request_batch s k a f (upload_run_ok evs g) Ha Hsent) as (r & b & Hk & Hb & [Hsig Hpol] & Hf & live & Hreq).
  exists r, b. split_and!; [done..| |].
  all: assert (He : expects_signature a = signatureExpected b f)
    by (unfold file_request in Hreq; destruct (encodeRelativePath _); [|done]; cbn in Hreq; injection Hreq as <-; by case_match).
  all: unfold signatureExpected in He; rewrite Hsig in He; rewrite He, andb_true_iff, bool_decide_eq_true.
  - split; intros [Hp Hn]; (split; [done|]); by apply signed_names.
  - intros Hpolicy Hsame Hp. rewrite Hsame in Hf |- *. specialize (Hpol Hpolicy).
    assert (Hn : f_name f ∈ signedArtifactNames (b_checked b)).
    { destruct (decide (f_name f ∈ signedArtifactNames (b_checked b))) as [|Hno]; [done|]. exfalso.
      assert (Hm : f ∈ missingSignatures (b_checked b)).
      { apply elem_of_Lfilter. split; [done|]. by rewrite Hp, bool_decide_eq_false_2. }
      rewrite Hpol in Hm. by apply elem_of_nil in Hm. }
    split; [done|]. by apply signed_names.
Qed.
End batch_theorems.

(** ** The list follows the files *)
Section list.
Context `{UnicodeCase}.

Definition shown_files (v : list_view) : list nat := map e_file (active_entries (children v)).

Record files_ok (s : upload) : Prop := {
  fo_list : list_ok (view s);
  fo_sorted : StronglySorted lt (map f_id (pendingFiles s));
  fo_bound : forall f, f ∈ pendingFiles s -> f_id f < next_file s;
  fo_shown : removals s = ∅ -> clears s = ∅ -> pendingFiles s <> [] -> shown_files (view s) = map f_id (pendingFiles s)
}.

(** Views of the same elements. *)
Lemma update_node_list node g v w : keeps g -> list_ok v -> next_node w = next_node v ->
  children w = update_node node g (children v) -> list_ok w /\ shown_files w = shown_files v.
Proof.
  intros Hg Hv Hn Hc. unfold list_ok, shown_files. rewrite Hn, Hc. split; [by apply update_node_ok|].
  unfold active_entries. rewrite update_node_filter; [by destruct (update_node_fields node g (List.filter is_active (children v)) Hg) as (_ & -> & _)|].
  intros e. unfold is_active. by destruct (Hg e) as (_ & _ & ->).
Qed.

Lemma collapse_list node v : list_ok v -> list_ok (collapseUploadEntry node v).
Proof.
  intros [H1 H2 H3]. unfold list_ok, collapseUploadEntry, update_node. cbn [children next_node].
  set (g := fun e : entry => if e_node e =? node then _ else e).
  assert (Hg : forall e, e_node (g e) = e_node e /\ e_file (g e) = e_file e /\ (is_active (g e) = true -> is_active e = true))
    by (intros e; subst g; cbn; by destruct (e_node e =? node)).
  constructor.
  - rewrite map_map. erewrite map_ext; [exact H1|]. intros e. apply (Hg e).
  - intros e (e' & -> & He')%list_elem_of_fmap. rewrite (proj1 (Hg e')). by apply H2.
  - clear H1 H2. induction H3 as [|e cs Hs IH He]; cbn [map]; constructor; [done|]. rewrite Forall_forall in *.
    intros y (e' & -> & He')%list_elem_of_fmap Ha. destruct (Hg e) as (_ & -> & Ha'), (Hg e') as (_ & -> & _). by apply He, Ha'.
Qed.

Lemma remove_entry_list node v : list_ok v -> list_ok (remove_entry node v).
Proof. intros Hv. by apply view_ok_Lfilter. Qed.

Lemma clear_list v : list_ok (clearUploadControlsContent v).
Proof. constructor; [constructor| |constructor]. intros e He. by apply elem_of_nil in He. Qed.

Lemma render_files s :
  list_ok (view s) -> StronglySorted lt (map f_id (pendingFiles s)) ->
  list_ok (view (render s)) /\ (pendingFiles s <> [] -> shown_files (view (render s)) = map f_id (pendingFiles s)).
Proof.
  intros Hv Hs. change (view (render s)) with (renderPendingFiles (pendingFiles s) (store s) (view s)).
  destruct (decide (pendingFiles s = [])) as [E|E]; [by rewrite E|].
  destruct (renderPendingFiles_shows (pendingFiles s) (store s) (view s) Hv Hs E) as (? & ? & _). done.
Qed.

Lemma render_files_ok s :
  list_ok (view s) -> StronglySorted lt (map f_id (pendingFiles s)) -> (forall f, f ∈ pendingFiles s -> f_id f < next_file s) ->
  files_ok (render s).
Proof. intros Hv Hs Hb. destruct (render_files s Hv Hs) as [? ?]. by constructor. Qed.

Lemma sublist_sorted (R : nat -> nat -> Prop) (l k : list nat) : sublist l k -> StronglySorted R k -> StronglySorted R l.
Proof.
  induction 1 as [|x l k Hlk IH|x l k Hlk IH]; intros Hs; [constructor|..]; inversion Hs as [|? ? Hs' Hx]; subst; [|by apply IH].
  constructor; [by apply IH|]. rewrite Forall_forall in *. intros y Hy. apply Hx.
  by eapply elem_of_sublist.
Qed.

Lemma delete_sublist {A} i (l : list A) : sublist (delete i l) l.
Proof. revert i. induction l as [|x l IH]; intros [|i]; cbn; [constructor|constructor|by apply sublist_cons|by apply sublist_skip]. Qed.

Lemma delete_files_sorted i fs : StronglySorted lt (map f_id fs) -> StronglySorted lt (map f_id (delete i fs)).
Proof.
  apply sublist_sorted. assert (map f_id (delete i fs) = delete i (map f_id fs)) as ->; [|apply delete_sublist].
  revert i. induction fs as [|f fs IH]; intros [|i]; cbn; [done..|]. by rewrite IH.
Qed.

Lemma sorted_snoc (l : list nat) n : StronglySorted lt l -> (forall x, x ∈ l -> x < n) -> StronglySorted lt (l ++ [n]).
Proof.
  induction 1 as [|x l Hl IH Hx]; intros Hn; cbn [app]; [repeat constructor|]. constructor.
  - apply IH. intros y Hy. by apply Hn, list_elem_of_further.
  - apply Forall_app. split; [done|]. constructor; [apply Hn, list_elem_of_here|constructor].
Qed.

Lemma add_files_ok fs s :
  StronglySorted lt (map f_id (pendingFiles s)) -> (forall f, f ∈ pendingFiles s -> f_id f < next_file s) ->
  StronglySorted lt (map f_id (pendingFiles (add_files fs s))) /\
  (forall f, f ∈ pendingFiles (add_files fs s) -> f_id f < next_file (add_files fs s)) /\ next_file s <= next_file (add_files fs s).
Proof.
  revert s. induction fs as [|[name size] fs IH]; intros s Hs Hb; cbn [add_files]; [done|].
  match goal with |- context [add_files fs ?x] => destruct (IH x) as (H1 & H2 & H3) end; cbn.
  - rewrite map_app. cbn [map f_id]. apply sorted_snoc; [done|]. intros x (f & -> & Hf)%list_elem_of_fmap. by apply Hb.
  - intros f [Hf|Hf%list_elem_of_singleton]%elem_of_app; [specialize (Hb f Hf); lia|subst; cbn; lia].
  - split_and!; [done..|]. cbn in H3. lia.
Qed.

Lemma files_ok_same s s' :
  pendingFiles s' = pendingFiles s -> next_file s' = next_file s -> removals s' = removals s -> clears s' = clears s ->
  view s' = view s -> files_ok s -> files_ok s'.
Proof. intros E1 E2 E3 E4 E5 [H1 H2 H3 H4]. constructor; rewrite ?E1, ?E2, ?E3, ?E4, ?E5; done. Qed.

Lemma keeps_show_status st p : keeps (show_status st p).
Proof. by intros e. Qed.

Lemma set_file_files_ok id node st p q s : files_ok s -> files_ok (set_file id node st p q s).
Proof.
  intros Hs. unfold set_file. destruct node as [n|]; [|by apply (files_ok_same s)]. destruct Hs as [H1 H2 H3 H4].
  match goal with |- files_ok (set_view ?w _) => destruct (update_node_list n (show_status st q) (view s) w) as [Hv Hw] end;
    [apply keeps_show_status|done..|]. constructor; try done. intros Hr Hc Hp. etransitivity; [exact Hw|]. by apply H4.
Qed.

Lemma no_files_ok s : list_ok (view s) -> pendingFiles s = [] -> files_ok s.
Proof.
  intros Hv Hp. constructor; rewrite ?Hp; [done|constructor| |done]. intros f Hf. by apply elem_of_nil in Hf.
Qed.

Lemma end_batch_files_ok k b completed s : files_ok s -> files_ok (end_batch k b completed s).
Proof. intros [Hv _ _ _]. unfold end_batch. by apply no_files_ok. Qed.

Lemma files_done_files_ok k b completed s : files_ok s -> files_ok (files_done k b completed s).
Proof.
  intros Hs. unfold files_done. destruct (pom_checked _); [|by apply end_batch_files_ok].
  destruct (pom_fields _) as [[[|? ?] [|? ?]] [|? ?]]; try (by apply end_batch_files_ok, (files_ok_same s)).
  destruct (pom_request _ _ _); [by apply (files_ok_same s)|by apply end_batch_files_ok].
Qed.

Lemma send_files_files_ok k b queue : forall completed before s,
  files_ok s -> files_ok (send_files k b queue completed before s).
Proof.
  induction queue as [|[f i] queue IH]; intros completed before s Hs; cbn [send_files]; [by apply files_done_files_ok|].
  cbv zeta. destruct (file_request _ k b f).
  - eapply (files_ok_same (set_file _ _ _ _ _ s)); [done..|]. by apply set_file_files_ok.
  - apply IH. eapply (files_ok_same (set_file _ _ _ _ _ s)); [done..|]. by apply set_file_files_ok.
Qed.

Lemma with_view_ok v s :
  list_ok v -> (removals s = ∅ -> clears s = ∅ -> pendingFiles s = []) -> files_ok s -> files_ok (set_view v s).
Proof. intros Hv Hn [H1 H2 H3 H4]. constructor; try done. intros Hr Hc Hp. destruct Hp. by apply Hn. Qed.

Lemma insert_task_nonempty {A} (m : gmap nat A) k x : <[k := x]> m <> ∅.
Proof. apply insert_non_empty. Qed.

Lemma delete_files_ok i s : files_ok s -> files_ok (render (set_pending (delete i (pendingFiles s)) s)).
Proof.
  intros [H1 H2 H3 H4]. apply render_files_ok; cbn; [done|by apply delete_files_sorted|]. intros f Hf. apply H3.
  by eapply elem_of_sublist, delete_sublist.
Qed.

Lemma upload_step_files_ok ev s : files_ok s -> files_ok (upload_step ev s).
Proof.
  intros Hs. pose proof Hs as [H1 H2 H3 H4]. destruct ev; cbn [upload_step].
  - destruct (add_files_ok fs s H2 H3) as (? & ? & _). destruct (add_files_frame fs s) as (_ & _ & _ & _ & _ & E & _).
    apply render_files_ok; [by rewrite E|done..].
  - unfold click_remove. destruct (uploading s); [done|]. destruct (index_of_file _ _) as [i|]; [|done].
    destruct (entry_by_index _ _) as [e|]; [|by apply delete_files_ok]. constructor; cbn; try done; [by apply collapse_list|].
    intros Hr. by apply insert_task_nonempty in Hr.
  - unfold removal_ended. destruct (removals s !! k) as [[i node]|]; [|done]. apply render_files_ok; cbn.
    + by apply remove_entry_list.
    + by apply delete_files_sorted.
    + intros f Hf. apply H3. by eapply elem_of_sublist, delete_sublist.
  - unfold click_clear. destruct (uploading s); [done|]. destruct (active_entries _) eqn:E; [by apply no_files_ok|].
    constructor; cbn; try done. intros _ Hc. by apply insert_task_nonempty in Hc.
  - unfold clear_collapses. destruct (clears s !! k) as [nodes|] eqn:Hk; [|done]. destruct (bool_decide _); [|done].
    apply with_view_ok; [by apply collapse_list| |done]. intros _ Hc. rewrite Hc in Hk. by rewrite lookup_empty in Hk.
  - unfold clear_ended. destruct (clears s !! k); [by apply no_files_ok|done].
  - by apply (files_ok_same s).
  - by apply (files_ok_same s).
  - unfold click_upload. destruct (pendingFiles s) eqn:Ep; [done|]. destruct (uploading s); [done|].
    rewrite <- Ep. destruct (repositoryRequiresGPG s); [destruct (missingSignatures (pendingFiles s))|]; by apply (files_ok_same s).
  - unfold space_answered. destruct (runs s !! k) as [[| | |]|]; try done.
    destruct (insufficient_space _ _); [by apply (files_ok_same s)|]. destruct (path_parts _); [by apply (files_ok_same s)|].
    cbv zeta. apply send_files_files_ok. case_match; by apply (files_ok_same s).
  - unfold progress. destruct (runs s !! k) as [[| | |]|]; try done. destruct (_ <=? _)%Z; [done|]. cbv zeta.
    destruct (_ && _); [eapply (files_ok_same (set_file _ _ _ _ _ s)); [done..|]|]; by apply set_file_files_ok.
  - unfold file_ended. destruct (runs s !! k) as [[| | |]|]; try done. cbv zeta. apply send_files_files_ok.
    destruct outcome as [[[] reviewed]|]; (eapply (files_ok_same (set_file _ _ _ _ _ s)); [done..|by apply set_file_files_ok]).
  - unfold pom_answered. destruct (runs s !! k) as [[| | |]|]; try done. apply end_batch_files_ok.
    destruct ok as [[]|]; by apply (files_ok_same s).
  - by apply no_files_ok.
  - destruct (pendingFiles s) eqn:Ep; [|done]. apply no_files_ok; [apply clear_list|done].
  - destruct (pendingFiles s) eqn:Ep; [done|]. by apply render_files_ok; rewrite ?Ep.
Qed.

Lemma upload_run_files_ok evs g : files_ok (upload_run evs (initUpload g)).
Proof.
  apply (run_invariant upload_step files_ok); [intros; by apply upload_step_files_ok|]. apply no_files_ok; [|done]. apply (clear_list (view (initUpload g))).
Qed.

(** *** Removing a file *)
Lemma delete_by_id fs i id :
  StronglySorted lt (map f_id fs) -> index_of_file id fs = Some i ->
  delete i fs = List.filter (fun f => negb (f_id f =? id)) fs.
Proof.
  unfold index_of_file. intros Hs Hi. apply fmap_Some in Hi as ([j f] & Hf & ->). cbn [fst].
  apply list_find_Some in Hf as (Hf & Hid & _).
  revert j Hf. induction fs as [|f0 fs IH]; intros j Hf; [done|]. cbn [map] in Hs. inversion Hs as [|? ? Hs' Hlt]; subst.
  rewrite Forall_forall in Hlt. assert (Hin : forall g, g ∈ fs -> f_id f0 < f_id g) by (intros g Hg; by apply Hlt, list_elem_of_fmap_2).
  destruct j as [|j]; cbn [lookup list_lookup] in Hf; cbn [delete list_delete List.filter].
  - injection Hf as ->. rewrite Nat.eqb_refl. cbn [negb]. symmetry. apply List.forallb_filter_id. apply forallb_forall.
    intros g Hg. apply list_elem_of_In in Hg. specialize (Hin g Hg). destruct (Nat.eqb_spec (f_id g) (f_id f)); [lia|done].
  - assert (Hfin : f ∈ fs) by (by eapply list_elem_of_lookup_2). specialize (Hin f Hfin).
    destruct (Nat.eqb_spec (f_id f0) (f_id f)); [lia|]. cbn [negb]. f_equal. by apply IH.
Qed.

(** at every moment the list is well formed, and when no removal or clearing is under way it shows exactly the
    pending files; removing a file then removes this file and no other, and the list shows the rest. *)
Theorem list_follows_files evs g :
  let s := upload_run evs (initUpload g) in
  list_ok (view s) /\
  (removals s = ∅ -> clears s = ∅ ->
     (pendingFiles s <> [] -> map e_file (active_entries (children (view s))) = map f_id (pendingFiles s)) /\
     (forall f, f ∈ pendingFiles s -> uploading s = false ->
        let s' := upload_step (RemovalEnded (next_task s)) (upload_step (ClickRemove (f_id f)) s) in
        pendingFiles s' = List.filter (fun h => negb (f_id h =? f_id f)) (pendingFiles s) /\
        (pendingFiles s' <> [] -> map e_file (active_entries (children (view s'))) = map f_id (pendingFiles s')))).
Proof.
  intros s. pose proof (upload_run_files_ok evs g) as Hs. fold s in Hs. clearbody s. pose proof Hs as [H1 H2 H3 H4].
  split; [done|]. intros Hr Hc. split; [by apply H4|]. intros f Hf Hup.
  assert (Hi : exists i, index_of_file (f_id f) (pendingFiles s) = Some i).
  { unfold index_of_file. destruct (list_find_elem_of (fun h => f_id h = f_id f) _ _ Hf eq_refl) as [[i h] E].
    rewrite E. by exists i. }
  destruct Hi as [i Hi]. cbv zeta. pose proof (delete_by_id _ _ _ H2 Hi) as Hdel.
  set (s1 := upload_step (ClickRemove (f_id f)) s) in *.
  assert (Hs2 : files_ok (upload_step (RemovalEnded (next_task s)) s1)) by by apply upload_step_files_ok, upload_step_files_ok.
  assert (Hcase : pendingFiles (upload_step (RemovalEnded (next_task s)) s1) = delete i (pendingFiles s) /\
    removals (upload_step (RemovalEnded (next_task s)) s1) = ∅ /\ clears (upload_step (RemovalEnded (next_task s)) s1) = ∅).
  { subst s1. cbn [upload_step]. unfold click_remove. rewrite Hup, Hi. destruct (entry_by_index i (view s)) as [e|].
    - unfold removal_ended. cbn. rewrite lookup_insert_eq. cbn. rewrite Hr, delete_insert_eq. rewrite delete_empty. done.
    - unfold removal_ended. cbn. rewrite Hr, lookup_empty. done. }
  destruct Hcase as (E1 & E2 & E3). rewrite E1, Hdel. split; [done|]. intros Hne.
  rewrite <- Hdel, <- E1. apply (fo_shown _ Hs2 E2 E3). by rewrite E1, Hdel.
Qed.
End list.

(** ** One batch at a time *)
Section single.
Context `{UnicodeCase}.

Definition live (r : run) : bool := match r with Ended _ _ => false | _ => true end.
Definition sending (r : run) : bool := match r with Transferring _ _ _ _ _ _ | AwaitingPom _ _ => true | _ => false end.

(** Nobody clicks the upload button while a space check is under way. *)
Fixpoint patient (evs : list upload_event) (s : upload) : Prop :=
  match evs with
  | [] => True
  | ev :: evs =>
    match ev with ClickUpload => forall k checked policy signed, runs s !! k <> Some (CheckingSpace checked policy signed) | _ => True end
    /\ patient evs (upload_step ev s)
  end.

Definition sent_files (acts : list action) : list nat := omap (fun a => (f_id ∘ snd) <$> sent a) acts.

Record single_ok (s : upload) : Prop := {
  so_live : forall j k r q, runs s !! j = Some r -> runs s !! k = Some q -> live r = true -> live q = true -> j = k;
  so_uploading : uploading s = true <-> exists k r, runs s !! k = Some r /\ sending r = true;
  so_once : NoDup (sent_files (actions s));
  so_bound : forall id, id ∈ sent_files (actions s) -> id < next_file s;
  so_new : uploading s = false -> forall f, f ∈ pendingFiles s -> f_id f ∉ sent_files (actions s);
  so_queue : forall k b queue f node c before, runs s !! k = Some (Transferring b queue f node c before) ->
    NoDup (map (fun p => f_id (p.1)) queue) /\
    forall p, p ∈ queue -> (f_id (p.1) ∉ sent_files (actions s)) /\ f_id (p.1) < next_file s
}.

Lemma sent_files_cons a acts :
  sent_files (a :: acts) = match sent a with Some (_, f) => f_id f :: sent_files acts | None => sent_files acts end.
Proof. unfold sent_files. cbn. by destruct (sent a) as [[k f]|]. Qed.

(** While run [k] is the one that sends: what [send_files] needs and keeps. *)
Record sending_ok (k : nat) (queue : list (pending_file * nat)) (s : upload) : Prop := {
  se_other : forall j r, j <> k -> runs s !! j = Some r -> live r = false;
  se_uploading : uploading s = true;
  se_once : NoDup (sent_files (actions s));
  se_bound : forall id, id ∈ sent_files (actions s) -> id < next_file s;
  se_nodup : NoDup (map (fun p => f_id (p.1)) queue);
  se_queue : forall p, p ∈ queue -> (f_id (p.1) ∉ sent_files (actions s)) /\ f_id (p.1) < next_file s
}.

Lemma sending_other_live k queue s : sending_ok k queue s ->
  forall j q, runs s !! j = Some q -> live q = true -> j = k.
Proof. intros Hs j q Hj Hl. destruct (decide (j = k)) as [|Hne]; [done|]. by rewrite (se_other _ _ _ Hs j q Hne Hj) in Hl. Qed.

(** The state after the run was set to a stage that is live or over. *)
Lemma sending_stage k queue s s' r :
  sending_ok k queue s -> runs s' = <[k := r]> (runs s) -> next_file s' = next_file s ->
  sending r = uploading s' -> (forall id, id ∈ sent_files (actions s') -> id < next_file s) -> NoDup (sent_files (actions s')) ->
  (live r = true -> sending r = true) -> (uploading s' = false -> pendingFiles s' = []) ->
  (forall b q f node c before, r = Transferring b q f node c before -> NoDup (map (fun p => f_id (p.1)) q) /\
     forall p, p ∈ q -> (f_id (p.1) ∉ sent_files (actions s')) /\ f_id (p.1) < next_file s) ->
  single_ok s'.
Proof.
  intros Hs Hr Hn Hup Hb Hnd Hlive Hpend Hq.
  assert (Honly : forall j q, runs s' !! j = Some q -> live q = true -> j = k).
  { intros j q. rewrite Hr. intros [[<- _]|[Hne Hj]]%lookup_insert_Some Hl; [done|]. by apply (sending_other_live _ _ _ Hs j q). }
  constructor; try done.
  - intros j i q1 q2 Hj Hi Hl1 Hl2. rewrite (Honly j q1 Hj Hl1). symmetry. by apply (Honly i q2).
  - rewrite <- Hup. split; [intros Hsend; exists k, r; by rewrite Hr, lookup_insert_eq|].
    intros (j & q & Hj & Hsend). assert (Hl : live q = true) by (by destruct q). rewrite (Honly j q Hj Hl), Hr, lookup_insert_eq in Hj.
    by injection Hj as ->.
  - intros id Hid. rewrite Hn. by apply Hb.
  - intros Hu f Hf. rewrite (Hpend Hu) in Hf. by apply elem_of_nil in Hf.
  - intros j b q f node c before Hj. rewrite Hn. assert (j = k) as -> by (by apply (Honly j _ Hj)).
    rewrite Hr, lookup_insert_eq in Hj. injection Hj as ->. by eapply Hq.
Qed.

Lemma end_batch_single k b completed s : sending_ok k [] s -> single_ok (end_batch k b completed s).
Proof.
  intros Hs. apply (sending_stage k [] s _ (Ended b completed)); try done; cbn [end_batch act actions]; rewrite sent_files_cons; cbn [sent];
    [apply (se_bound _ _ _ Hs)|apply (se_once _ _ _ Hs)].
Qed.

Lemma sending_same k queue s s' :
  runs s' = runs s -> uploading s' = uploading s -> next_file s' = next_file s -> sent_files (actions s') = sent_files (actions s) ->
  sending_ok k queue s -> sending_ok k queue s'.
Proof. intros E1 E2 E3 E4 []. constructor; rewrite ?E1, ?E2, ?E3, ?E4; done. Qed.

Lemma files_done_single k b completed s : sending_ok k [] s -> single_ok (files_done k b completed s).
Proof.
  intros Hs. unfold files_done. destruct (pom_checked _); [|by apply end_batch_single].
  assert (Hshow : forall key, single_ok (end_batch k b completed (act (Show key []) s)))
    by (intros key; apply end_batch_single; by apply (sending_same k [] s)).
  destruct (pom_fields _) as [[[|? ?] [|? ?]] [|? ?]]; try apply Hshow.
  destruct (pom_request _ _ _) as [a|] eqn:Ha; [|by apply end_batch_single]. apply pom_request_sent in Ha.
  apply (sending_stage k [] s _ (AwaitingPom b completed)); try done; cbn [act actions]; rewrite ?sent_files_cons, ?Ha.
  - symmetry. apply (se_uploading _ _ _ Hs).
  - apply (se_bound _ _ _ Hs).
  - apply (se_once _ _ _ Hs).
  - intros Hu. by rewrite (se_uploading _ _ _ Hs : uploading (act a (set_run k _ s)) = true) in Hu.
Qed.

Lemma send_files_single k b queue : forall completed before s,
  sending_ok k queue s -> single_ok (send_files k b queue completed before s).
Proof.
  induction queue as [|[f i] queue IH]; intros completed before s Hs; cbn [send_files]; [by apply files_done_single|].
  cbv zeta. set (node := e_node <$> entry_by_index i (view s)).
  assert (Hf : (f_id f ∉ sent_files (actions s)) /\ f_id f < next_file s) by (apply (se_queue _ _ _ Hs (f, i)), list_elem_of_here).
  pose proof (se_nodup _ _ _ Hs) as Hnd. cbn [map fst] in Hnd. apply NoDup_cons in Hnd as [Hnf Hnd].
  destruct (file_request _ k b f) as [a|] eqn:Ha.
  - pose proof (file_request_sent _ k b f a Ha) as Hsent.
    destruct (set_file_frame (f_id f) node Uploading None (Some 0%Z) s) as (E1 & E2 & _ & _ & E5 & E6).
    apply (sending_stage k ((f, i) :: queue) s _ (Transferring b queue f node completed before)); try done; cbn [act set_run set_store runs actions uploading next_file sending live];
      rewrite ?E1, ?E5, ?E6; try done.
    + symmetry. apply (se_uploading _ _ _ Hs).
    + rewrite sent_files_cons, Hsent, E2. intros id [->|Hid]%elem_of_cons; [apply Hf|by apply (se_bound _ _ _ Hs)].
    + rewrite sent_files_cons, Hsent, E2. constructor; [apply Hf|apply (se_once _ _ _ Hs)].
    + rewrite (se_uploading _ _ _ Hs). done.
    + intros b' q f' node' c bf [= <- <- <- <- <- <-]. split; [done|]. intros p Hp.
      destruct (se_queue _ _ _ Hs p (list_elem_of_further _ _ _ Hp)) as [Hno Hlt]. split; [|done].
      rewrite sent_files_cons, Hsent, E2. intros [E|Hin]%elem_of_cons; [|done]. apply Hnf. rewrite <- E.
      by apply (list_elem_of_fmap_2 (fun p => f_id (p.1))).
  - apply IH. destruct (set_file_frame (f_id f) node Failed None None s) as (E1 & E2 & _ & _ & E5 & E6).
    apply (sending_same k queue s); cbn [act runs actions uploading next_file]; rewrite ?E1, ?E5, ?E6; try done; [by rewrite sent_files_cons; cbn; rewrite E2|].
    destruct Hs as [H1 H2 H3 H4 H5 H6]. constructor; try done. intros p Hp. by apply H6, list_elem_of_further.
Qed.

Lemma single_quiet s s' :
  runs s' = runs s -> uploading s' = uploading s -> sent_files (actions s') = sent_files (actions s) ->
  next_file s <= next_file s' -> (forall f, f ∈ pendingFiles s' -> f ∈ pendingFiles s \/ next_file s <= f_id f) ->
  single_ok s -> single_ok s'.
Proof.
  intros E1 E2 E3 Hn Hp [H1 H2 H3 H4 H5 H6]. constructor; rewrite ?E1, ?E2, ?E3; try done.
  - intros id Hid. specialize (H4 id Hid). lia.
  - intros Hu f [Hf|Hf]%Hp; [by apply H5|]. intros Hin%H4. lia.
  - intros k b q f node c before Hk. destruct (H6 _ _ _ _ _ _ _ Hk) as [? Hq]. split; [done|]. intros p Hpq.
    destruct (Hq p Hpq). split; [done|lia].
Qed.

Lemma add_files_pending fs s f : f ∈ pendingFiles (add_files fs s) -> f ∈ pendingFiles s \/ next_file s <= f_id f.
Proof.
  revert s. induction fs as [|[name size] fs IH]; intros s; cbn [add_files]; [by left|].
  intros [Hf|Hf]%IH; cbn in Hf; [|right; lia]. apply elem_of_app in Hf as [Hf|Hf%list_elem_of_singleton]; [by left|].
  right. by subst.
Qed.

Lemma add_files_next fs s : next_file s <= next_file (add_files fs s).
Proof. revert s. induction fs as [|[n z] fs IH]; intros s; cbn [add_files]; [done|]. etransitivity; [|apply IH]. cbn. lia. Qed.

Lemma in_deleted {A} i (l : list A) x : x ∈ delete i l -> x ∈ l.
Proof. intros Hx. by eapply elem_of_sublist, delete_sublist. Qed.

Lemma quiet_single ev s :
  match ev with ClickUpload | SpaceAnswered _ _ | FileEnded _ _ | PomAnswered _ _ => False | _ => True end ->
  single_ok s -> single_ok (upload_step ev s).
Proof.
  intros Hev Hs. assert (Hsame : forall s', runs s' = runs s -> uploading s' = uploading s -> actions s' = actions s ->
    next_file s' = next_file s -> (forall f, f ∈ pendingFiles s' -> f ∈ pendingFiles s) -> single_ok s').
  { intros s' E1 E2 E3 E4 Hf. apply (single_quiet s); rewrite ?E3, ?E4; [done..|lia| |done]. intros f Hin. left. by apply Hf. }
  assert (Hnil : forall s', pendingFiles s' = [] -> forall f, f ∈ pendingFiles s' -> f ∈ pendingFiles s)
    by (intros s' E f; rewrite E; by intros ?%elem_of_nil).
  destruct ev; try done; cbn [upload_step].
  - unfold addPendingFiles. destruct (add_files_frame fs s) as (E1 & E2 & _ & _ & _ & _ & E7).
    apply (single_quiet s); cbn [render set_store set_view runs actions uploading next_file pendingFiles]; rewrite ?E1, ?E2, ?E7;
      [done..|apply add_files_next|apply add_files_pending|done].
  - unfold click_remove. destruct (uploading s) eqn:Eu; [done|]. destruct (index_of_file _ _) as [i|]; [|done].
    destruct (entry_by_index _ _); apply Hsame; try done. intros f. apply in_deleted.
  - unfold removal_ended. destruct (removals s !! k) as [[i node]|]; [|done]. apply Hsame; try done. intros f. apply in_deleted.
  - unfold click_clear. destruct (uploading s) eqn:Eu; [done|]. destruct (active_entries _); apply Hsame; try done. by apply Hnil.
  - unfold clear_collapses. destruct (clears s !! k); [destruct (bool_decide _)|]; by apply Hsame.
  - unfold clear_ended. destruct (clears s !! k); [|done]. apply Hsame; try done. by apply Hnil.
  - by apply Hsame.
  - by apply Hsame.
  - unfold progress. destruct (runs s !! k) as [[| | |]|]; try done. destruct (_ <=? _)%Z; [done|]. cbv zeta.
    match goal with |- context [set_file ?i ?n ?st ?p ?q s] => destruct (set_file_frame i n st p q s) as (E1 & E2 & _ & E4 & E5 & E6) end.
    destruct (_ && _); (apply Hsame; [exact E1|exact E5|exact E2|exact E6|]); intros f0; cbn; by rewrite E4.
  - apply Hsame; try done. by apply Hnil.
  - destruct (pendingFiles s) eqn:Ep; [|done]. apply Hsame; try done. intros f. cbn. by rewrite Ep.
  - destruct (pendingFiles s) eqn:Ep; [done|]. rewrite <- Ep in *. by apply Hsame.
Qed.

Lemma not_uploading k checked policy signed s :
  single_ok s -> runs s !! k = Some (CheckingSpace checked policy signed) -> uploading s = false.
Proof.
  intros Hs Hk. destruct (uploading s) eqn:Eu; [|done]. apply (so_uploading _ Hs) in Eu as (j & r & Hj & Hsend).
  assert (j = k) as -> by (eapply (so_live _ Hs); [exact Hj|exact Hk| |done]; by destruct r).
  rewrite Hk in Hj. by injection Hj as <-.
Qed.

Lemma drop_single k checked policy signed s :
  single_ok s -> runs s !! k = Some (CheckingSpace checked policy signed) -> single_ok (drop_run k s).
Proof.
  intros Hs Hk. pose proof Hs as [H1 H2 H3 H4 H5 H6]. constructor; try done.
  - intros j i r q. cbn. intros [_ Hj]%lookup_delete_Some [_ Hi]%lookup_delete_Some. by apply (H1 j i r q).
  - cbn. rewrite H2. split; intros (j & r & Hj & Hsend); exists j, r.
    + split; [|done]. apply lookup_delete_Some. split; [|done]. intros ->. rewrite Hk in Hj. by injection Hj as <-.
    + by apply lookup_delete_Some in Hj as [_ Hj].
  - intros j b q f node c before. cbn. intros [_ Hj]%lookup_delete_Some. by apply (H6 j b q f node c before).
Qed.

Lemma space_answered_single k answer s : files_ok s -> single_ok s -> single_ok (space_answered k answer s).
Proof.
  intros Hfiles Hs. unfold space_answered. destruct (runs s !! k) as [[checked policy signed| | |]|] eqn:Hk; try done.
  pose proof (not_uploading _ _ _ _ _ Hs Hk) as Hu. pose proof (drop_single _ _ _ _ _ Hs Hk) as Hdrop.
  destruct (insufficient_space _ _); [apply (single_quiet (drop_run k s)); [done..|by left|done]|].
  destruct (path_parts _) as [|segment parts]; [done|]. cbv zeta. set (s1 := if 1 <? _ then _ else _).
  assert (E : runs s1 = runs s /\ actions s1 = actions s /\ next_file s1 = next_file s /\ uploading s1 = true)
    by (subst s1; by destruct (1 <? length (pendingFiles (set_uploading true s)))).
  destruct E as (E1 & E2 & E3 & E4). apply send_files_single. cbn [b_files]. constructor; rewrite ?E1, ?E2, ?E3; try done.
  - intros j r Hj Hr. destruct (live r) eqn:Hl; [|done]. destruct Hj. by eapply (so_live _ Hs).
  - apply (so_once _ Hs).
  - apply (so_bound _ Hs).
  - assert (Hmap : map (fun p : pending_file * nat => f_id (p.1)) (uploadQueue (pendingFiles s)) = map f_id (send_order (pendingFiles s)))
      by (rewrite <- uploadQueue_order, map_map; done).
    rewrite Hmap. rewrite (send_order_perm (pendingFiles s)). pose proof (fo_sorted _ Hfiles) as Hsort.
    induction Hsort as [|x l Hl IH Hx]; constructor; [|done]. intros Hin. rewrite Forall_forall in Hx. specialize (Hx x Hin). lia.
  - intros p Hp. assert (Hin : p.1 ∈ pendingFiles s).
    { rewrite <- (send_order_perm (pendingFiles s)), <- uploadQueue_order. by apply list_elem_of_fmap_2. }
    split; [by apply (so_new _ Hs)|by apply (fo_bound _ Hfiles)].
Qed.

Lemma file_ended_single k outcome s : single_ok s -> single_ok (file_ended k outcome s).
Proof.
  intros Hs. unfold file_ended. destruct (runs s !! k) as [[|b queue f node completed before| |]|] eqn:Hk; try done. cbv zeta.
  assert (Hsend : sending_ok k queue s).
  { destruct (so_queue _ Hs _ _ _ _ _ _ _ Hk). constructor; try done; [|..|apply (so_once _ Hs)|apply (so_bound _ Hs)].
    - intros j r Hj Hr. destruct (live r) eqn:Hl; [|done]. destruct Hj. by eapply (so_live _ Hs).
    - apply (so_uploading _ Hs). by exists k, (Transferring b queue f node completed before). }
  apply send_files_single. destruct outcome as [[[] reviewed]|];
    match goal with |- context [set_file ?i ?n ?st ?p ?q s] => destruct (set_file_frame i n st p q s) as (E1 & E2 & _ & _ & E5 & E6) end;
    (apply (sending_same k queue s); [exact E1|exact E5|exact E6| |exact Hsend]; cbn [act actions]; rewrite sent_files_cons; cbn [sent]; by rewrite E2).
Qed.

Lemma pom_answered_single k ok s : single_ok s -> single_ok (pom_answered k ok s).
Proof.
  intros Hs. unfold pom_answered. destruct (runs s !! k) as [[| |b completed|]|] eqn:Hk; try done.
  apply end_batch_single. assert (Hsend : sending_ok k [] s).
  { constructor; try done; [|..|apply (so_once _ Hs)|apply (so_bound _ Hs)|constructor|by intros p ?%elem_of_nil].
    - intros j r Hj Hr. destruct (live r) eqn:Hl; [|done]. destruct Hj. by eapply (so_live _ Hs).
    - apply (so_uploading _ Hs). by exists k, (AwaitingPom b completed). }
  destruct ok as [[]|]; [done| |done]. by apply (sending_same k [] s).
Qed.

Lemma click_upload_single s :
  (forall k checked policy signed, runs s !! k <> Some (CheckingSpace checked policy signed)) -> runs_ok s ->
  single_ok s -> single_ok (click_upload s).
Proof.
  intros Hno Hruns Hs. unfold click_upload. destruct (pendingFiles s) as [|f0 fs0] eqn:Ep; [done|]. rewrite <- Ep.
  destruct (uploading s) eqn:Eu; [done|]. pose proof Hs as [H1 H2 H3 H4 H5 H6].
  assert (Hnone : forall j r, runs s !! j = Some r -> live r = false).
  { intros j r Hj. destruct r as [checked policy signed| | |] eqn:Er; [by apply Hno in Hj|..|done];
      (assert (uploading s = true); [apply H2; eauto|congruence]). }
  assert (Hnew : runs s !! next_task s = None).
  { apply eq_None_not_Some. intros Hk. destruct Hruns as [_ Hb]. specialize (Hb _ Hk). lia. }
  set (start := set_tasks _ _ _ _). assert (Hstart : single_ok start).
  { subst start. constructor; try done.
    - intros j k r q. cbn. intros [[<- _]|[_ Hj]]%lookup_insert_Some [[<- _]|[_ Hk]]%lookup_insert_Some Hl Hl'; [done|..];
        [by rewrite (Hnone _ _ Hk) in Hl'|by rewrite (Hnone _ _ Hj) in Hl..].
    - cbn. rewrite Eu. split; [done|]. intros (j & r & [[<- <-]|[_ Hj]]%lookup_insert_Some & Hsend); [done|].
      assert (live r = true) by (by destruct r). by rewrite (Hnone _ _ Hj) in *.
    - intros k b q f node c before. cbn. intros [[_ ?]|[_ Hk]]%lookup_insert_Some; [done|]. by apply (H6 k b q f node c before). }
  destruct (repositoryRequiresGPG s); [|done]. destruct (missingSignatures (pendingFiles s)); [done|].
  apply (single_quiet s); try done. by left.
Qed.

Lemma single_run evs : forall s, runs_ok s -> files_ok s -> single_ok s -> patient evs s -> single_ok (upload_run evs s).
Proof.
  induction evs as [|ev evs IH]; intros s Hr Hf Hs Hp; [done|]. destruct Hp as [Hev Hp]. cbn [upload_run fold_left].
  apply IH; [by apply upload_step_ok|by apply upload_step_files_ok| |done].
  destruct ev; try (by apply quiet_single); cbn [upload_step].
  - by apply click_upload_single.
  - by apply space_answered_single.
  - by apply file_ended_single.
  - by apply pom_answered_single.
Qed.

(** if the upload button is never clicked during the space check of an earlier click, then at most one batch is
    under way, the page is marked as uploading exactly while one sends, no file is ever requested twice, and outside a
    batch no pending file was sent before. *)
Theorem one_batch_at_a_time evs g :
  patient evs (initUpload g) ->
  let s := upload_run evs (initUpload g) in
  (forall j k r q, runs s !! j = Some r -> runs s !! k = Some q -> live r = true -> live q = true -> j = k) /\
  (uploading s = true <-> exists k r, runs s !! k = Some r /\ sending r = true) /\
  NoDup (sent_files (actions s)) /\
  (uploading s = false -> forall f, f ∈ pendingFiles s -> f_id f ∉ sent_files (actions s)).
Proof.
  intros Hp. assert (Hs : single_ok (upload_run evs (initUpload g))).
  { apply single_run; [apply (upload_run_ok [] g)|apply (upload_run_files_ok [] g)| |done].
    constructor; cbn; try done; try (by intros ? ? ? ?; rewrite lookup_empty).
    - split; [done|]. intros (k & r & Hk & _). by rewrite lookup_empty in Hk.
    - constructor.
    - intros id Hid. by apply elem_of_nil in Hid.
    - intros _ f Hf. by apply elem_of_nil in Hf. }
  destruct Hs. done.
Qed.
End single.

(** ** Examples *)
Section example.
#[local] Existing Instance latin_case.

Definition releases_form : form :=
  {| destination := js "releases/com/acme"; checksums := true; pom_checked := false; pom_fields := ([], [], []);
     location := js "/releases/com/acme" |}.

(** A signature and its artifact, in this order, under a policy that requires it. *)
Definition signed_upload : list upload_event :=
  [SetPolicy true true; AddFiles [(js "lib.jar.asc", 500%Z); (js "lib.jar", 9000000%Z)]; ClickUpload;
   SpaceAnswered 0 (Some (1000%Z, 1000000000%Z)); Progress 0 4500000 9000000; FileEnded 0 (Some (true, false));
   FileEnded 0 (Some (true, true))].

Definition signed_batch : batch :=
  let fs := [{| f_id := 0; f_name := js "lib.jar.asc"; f_size := 500 |}; {| f_id := 1; f_name := js "lib.jar"; f_size := 9000000 |}] in
  {| b_checked := fs; b_policy := true; b_signed := [js "lib.jar"]; b_dest := js "releases/com/acme"; b_checksums := true;
     b_repo := js "releases"; b_path := js "/releases/com/acme"; b_files := fs |}.

Definition the_jar : pending_file := {| f_id := 1; f_name := js "lib.jar"; f_size := 9000000 |}.

Example signed_upload_actions :
  actions (upload_run signed_upload (initUpload releases_form)) =
    [LoadDirectory (js "/releases/com/acme"); Show (js "browser.uploadQueuedReview") (js "lib.jar.asc");
     PutFile 0 {| f_id := 0; f_name := js "lib.jar.asc"; f_size := 500 |} (js "/releases/com/acme/lib.jar.asc") false true;
     Show (js "browser.uploadedSuccess") (js "lib.jar");
     ChunkFile 0 the_jar (js "releases/com/acme/lib.jar") true true true].
Proof. vm_compute. reflexivity. Qed.

Lemma upload_batch_requests_witness :
  let s := upload_run signed_upload (initUpload releases_form) in
  runs s !! 0 = Some (Ended signed_batch 2) /\
  (2 = length (b_files signed_batch) /\ requests_for 0 signed_batch (send_order (b_files signed_batch)) (requests_of 0 (actions s))).
Proof.
  assert (Hk : runs (upload_run signed_upload (initUpload releases_form)) !! 0 = Some (Ended signed_batch 2))
    by (vm_compute; reflexivity).
  split; [exact Hk|]. exact (proj2 (proj1 (upload_batch_requests signed_upload releases_form) 0 (Ended signed_batch 2) signed_batch Hk eq_refl)).
Defined.

Lemma artifacts_sent_with_signatures_witness :
  let s := upload_run signed_upload (initUpload releases_form) in
  let a := ChunkFile 0 the_jar (js "releases/com/acme/lib.jar") true true true in
  a ∈ actions s /\
  exists r b, runs s !! 0 = Some r /\ run_batch r = Some b /\
    (b_policy b = true -> b_files b = b_checked b -> isGPGProtectedFile (js "lib.jar") = true ->
       expects_signature a = true /\ exists sg, sg ∈ b_files b /\ f_name sg = js "lib.jar" ++ js ".asc").
Proof.
  assert (Ha : ChunkFile 0 the_jar (js "releases/com/acme/lib.jar") true true true ∈
    actions (upload_run signed_upload (initUpload releases_form))) by (rewrite signed_upload_actions; repeat constructor).
  split; [exact Ha|].
  destruct (artifacts_sent_with_signatures signed_upload releases_form _ 0 the_jar Ha eq_refl) as (r & b & Hr & Hb & _ & _ & Hs).
  exists r, b. split; [exact Hr|]. split; [exact Hb|]. exact Hs.
Defined.

Definition three_files : list upload_event := [AddFiles [(js "a", 1%Z); (js "b", 1%Z); (js "c", 1%Z)]].

Lemma list_follows_files_witness :
  let s := upload_run three_files (initUpload releases_form) in
  let s' := upload_step (RemovalEnded 0) (upload_step (ClickRemove 1) s) in
  map f_id (pendingFiles s') = [0; 2] /\
  (pendingFiles s' <> [] -> map e_file (active_entries (children (view s'))) = map f_id (pendingFiles s')).
Proof.
  split; [vm_compute; reflexivity|].
  refine (proj2 (proj2 (proj2 (list_follows_files three_files releases_form) _ _) {| f_id := 1; f_name := js "b"; f_size := 1 |} _ _)).
  - vm_compute. reflexivity.
  - vm_compute. reflexivity.
  - repeat constructor.
  - vm_compute. reflexivity.
Defined.

Lemma one_batch_at_a_time_witness :
  patient (signed_upload ++ [AddFiles [(js "lib.jar", 5%Z)]]) (initUpload releases_form) /\
  NoDup (sent_files (actions (upload_run (signed_upload ++ [AddFiles [(js "lib.jar", 5%Z)]]) (initUpload releases_form)))).
Proof.
  assert (Hp : patient (signed_upload ++ [AddFiles [(js "lib.jar", 5%Z)]]) (initUpload releases_form)).
  { cbn [app signed_upload patient]. split_and!; done. }
  split; [exact Hp|].
  exact (proj1 (proj2 (proj2 (one_batch_at_a_time (signed_upload ++ [AddFiles [(js "lib.jar", 5%Z)]]) releases_form Hp)))).
Defined.

(** The index noted at a click is stale when an earlier removal ends first: removing [a] and then [b] removes [a] and
    [c], and [b] stays. *)
Example overlapping_removals :
  map f_id (pendingFiles (upload_run (three_files ++ [ClickRemove 0; ClickRemove 1; RemovalEnded 0; RemovalEnded 1])
    (initUpload releases_form))) = [1].
Proof. vm_compute. reflexivity. Qed.

(** The checksum box cleared while a file is sent: the next one, sent in parts, still has the batch's header, and no longer
    asks for checksums itself. *)
Example checksums_cleared :
  actions (upload_run [AddFiles [(js "a", 1%Z); (js "b.zip", 9000000%Z)]; ClickUpload; SpaceAnswered 0 None;
    SetForm {| destination := []; checksums := false; pom_checked := false; pom_fields := ([], [], []); location := js "/releases" |};
    FileEnded 0 (Some (true, false))] (initUpload releases_form)) !! 0 =
  Some (ChunkFile 0 {| f_id := 1; f_name := js "b.zip"; f_size := 9000000 |} (js "releases/com/acme/b.zip") false true false).
Proof. vm_compute. reflexivity. Qed.

(** Two clicks before the space check answers send every file twice. *)
Example double_click :
  sent_files (actions (upload_run [AddFiles [(js "a", 1%Z)]; ClickUpload; ClickUpload; SpaceAnswered 0 None; SpaceAnswered 1 None]
    (initUpload releases_form))) = [0; 0].
Proof. vm_compute. reflexivity. Qed.

(** An artifact added during the space check escapes the signature policy. *)
Example unsigned_artifact_sent :
  actions (upload_run [SetPolicy true true; AddFiles [(js "a.txt", 1%Z)]; ClickUpload; AddFiles [(js "b.jar", 1%Z)];
    SpaceAnswered 0 None; FileEnded 0 (Some (true, false))] (initUpload releases_form)) !! 0 =
  Some (PutFile 0 {| f_id := 1; f_name := js "b.jar"; f_size := 1 |} (js "/releases/com/acme/b.jar") false true).
Proof. vm_compute. reflexivity. Qed.
End example.
