(* ===== verification/LegalConsent.v ===== *)
(** * Consent to the current policies

    [internal/service/frontend/renop-html/js/legal-consent.js]: the revision of the policies, the checkboxes of the
    sign-in and registration pages, and the question every account entry asks before it goes on.  The fetch of the
    policy descriptor is an event ([None] for any failure, including an invalid descriptor); the browser decides what
    [document.cookie] reads after a write. *)
From S2P Require Export JsString.

(** ** Paths and cookies *)
Section paths.
Context `{UnicodeCase}.

Definition LEGAL_DOCUMENTS : list jstr := map js ["privacy-policy"; "terms-of-service"; "legal-notice"]%string.

(** [replace(/^\//, '').replace(/\/$/, '')] *)
Definition legalPageFromPath (path : jstr) : jstr :=
  let name := to_lower path in
  let name := match name with 47%N :: s => s | _ => name end in
  let name := if ends_with (js "/") name then slice_drop_last 1 name else name in
  if bool_decide (name ∈ LEGAL_DOCUMENTS) then name else [].
End paths.

Definition LEGAL_COOKIE : jstr := js "renop_legal_consent".

(** [acceptedRevision()] of what [document.cookie] reads. *)
Definition acceptedRevision (cookie : jstr) : jstr :=
  let prefix := LEGAL_COOKIE ++ js "=" in
  match List.find (starts_with prefix) (map trim (split 59 cookie)) with
  | Some part => slice_from (length LEGAL_COOKIE + 1) part
  | None => []
  end.

(** [/^[a-f0-9]{64}$/] *)
Definition is_revision (s : jstr) : bool :=
  (length s =? 64) && forallb (fun c => is_digit c || (97 <=? c)%N && (c <=? 102)%N) s.

(** ** State *)
Inductive kind := Login | Registration.

#[export] Instance kind_eq_dec : EqDecision kind.
Proof. solve_decision. Defined.

Record metadata := { revision : jstr; cookie_banner : bool; content_revision : jstr }.

#[export] Instance metadata_eq_dec : EqDecision metadata.
Proof. solve_decision. Defined.

(** A checkbox and the error beside it; [data-revision] is missing before the first descriptor. *)
Record control := { checked : bool; disabled : bool; data_revision : option jstr; error : option jstr }.

(** Who waits for a descriptor: the page's first load, or an [ensureLegalConsent] with its epoch. *)
Inductive reader := FirstLoad | Call (n : nat) (k : kind) (epoch : nat).

Record consent := {
  descriptor : option metadata;
  pending : bool;
  consentEpoch : nat;
  login_control : control;
  registration_control : control;
  cookie : jstr;
  waiting : list reader;               (* readers of the running fetch, oldest first *)
  next_call : nat;
  answers : list (nat * bool);         (* newest first *)
  announced : list metadata            (* [legalConfigurationChanged], newest first *)
}.

Definition control_of (k : kind) (s : consent) : control :=
  match k with Login => login_control s | Registration => registration_control s end.

Definition set_controls (f : kind -> control -> control) (s : consent) : consent :=
  {| descriptor := descriptor s; pending := pending s; consentEpoch := consentEpoch s;
     login_control := f Login (login_control s); registration_control := f Registration (registration_control s);
     cookie := cookie s; waiting := waiting s; next_call := next_call s; answers := answers s; announced := announced s |}.

Definition set_control (k : kind) (c : control) (s : consent) : consent :=
  set_controls (fun k' c' => if bool_decide (k' = k) then c else c') s.

Definition set_error (e : option jstr) (c : control) : control :=
  {| checked := checked c; disabled := disabled c; data_revision := data_revision c; error := e |}.

Definition consentError (k : kind) (key : jstr) (s : consent) : consent :=
  set_control k (set_error (Some key) (control_of k s)) s.

(** ** Operations *)

(** [updateConsentControls] *)
Definition updateConsentControls (s : consent) : consent :=
  set_controls (fun _ c =>
    match descriptor s with
    | None => {| checked := checked c; disabled := true; data_revision := data_revision c; error := error c |}
    | Some m =>
      {| checked := if negb (bool_decide (data_revision c = Some (revision m)))
                       || negb (bool_decide (acceptedRevision (cookie s) = revision m)) then false else checked c;
         disabled := false; data_revision := Some (revision m); error := error c |}
    end) s.

Definition bump (s : consent) : consent :=
  {| descriptor := descriptor s; pending := pending s; consentEpoch := S (consentEpoch s); login_control := login_control s;
     registration_control := registration_control s; cookie := cookie s; waiting := waiting s; next_call := next_call s;
     answers := answers s; announced := announced s |}.

Definition set_cookie (c : jstr) (s : consent) : consent :=
  {| descriptor := descriptor s; pending := pending s; consentEpoch := consentEpoch s; login_control := login_control s;
     registration_control := registration_control s; cookie := c; waiting := waiting s; next_call := next_call s;
     answers := answers s; announced := announced s |}.

(** [resetLegalConsent] *)
Definition resetLegalConsent (k : kind) (s : consent) : consent :=
  let c := control_of k s in
  if checked c then
    bump (set_control k {| checked := false; disabled := disabled c; data_revision := data_revision c; error := error c |} s)
  else s.

(** The [change] listener: the box has changed, a cookie is written, [after] is what [document.cookie] then reads. *)
Definition choice_changed (k : kind) (b : bool) (after : jstr) (s : consent) : consent :=
  let c := control_of k s in
  if disabled c then s
  else
    let c := {| checked := b; disabled := disabled c; data_revision := data_revision c; error := error c |} in
    let s := bump (set_control k c s) in
    match descriptor s with
    | Some m =>
      if negb (bool_decide (data_revision c = Some (revision m))) then s
      else
        let s := set_cookie after s in
        if b && negb (bool_decide (acceptedRevision after = revision m)) then consentError k (js "legal.cookiesRequired") s
        else set_control k (set_error None c) s
    | None => s
    end.

(** [ensureLegalConsent] up to its [await]; a running fetch is shared. *)
Definition ensureLegalConsent (k : kind) (s : consent) : consent :=
  {| descriptor := descriptor s; pending := true; consentEpoch := consentEpoch s; login_control := login_control s;
     registration_control := registration_control s; cookie := cookie s;
     waiting := waiting s ++ [Call (next_call s) k (consentEpoch s)]; next_call := S (next_call s); answers := answers s;
     announced := announced s |}.

(** [loadLegalMetadata(true)] for another reader. *)
Definition loadLegalMetadata (s : consent) : consent :=
  {| descriptor := descriptor s; pending := true; consentEpoch := consentEpoch s; login_control := login_control s;
     registration_control := registration_control s; cookie := cookie s; waiting := waiting s; next_call := next_call s;
     answers := answers s; announced := announced s |}.

Definition answer (n : nat) (b : bool) (s : consent) : consent :=
  {| descriptor := descriptor s; pending := pending s; consentEpoch := consentEpoch s; login_control := login_control s;
     registration_control := registration_control s; cookie := cookie s; waiting := waiting s; next_call := next_call s;
     answers := (n, b) :: answers s; announced := announced s |}.

(** The rest of one [ensureLegalConsent], and the failure of the first load. *)
Definition resume_call (loaded : bool) (n : nat) (k : kind) (epoch : nat) (s : consent) : consent :=
  if negb loaded then answer n false (consentError k (js "legal.loadFailed") s)
  else if negb (epoch =? consentEpoch s) then answer n false s
  else
    let c := control_of k s in
    let rev := revision <$> descriptor s in
    if negb (checked c) || negb (bool_decide (data_revision c = rev))
       || negb (bool_decide (Some (acceptedRevision (cookie s)) = rev))
    then answer n false (consentError k (js "legal.consentRequired") s)
    else answer n true (set_control k (set_error None c) s).

Definition resume_reader (loaded : bool) (r : reader) (s : consent) : consent :=
  match r with
  | FirstLoad =>
    if loaded then s else consentError Registration (js "legal.loadFailed") (consentError Login (js "legal.loadFailed") s)
  | Call n k epoch => resume_call loaded n k epoch s
  end.

(** A fresh descriptor: the controls follow it, and a change is announced. *)
Definition descriptor_loaded (m : metadata) (s : consent) : consent :=
  updateConsentControls
    {| descriptor := Some m; pending := pending s; consentEpoch := consentEpoch s; login_control := login_control s;
       registration_control := registration_control s; cookie := cookie s; waiting := waiting s; next_call := next_call s;
       answers := answers s;
       announced := if bool_decide (descriptor s = Some m) then announced s else m :: announced s |}.

Definition settle (s : consent) : consent :=
  {| descriptor := descriptor s; pending := false; consentEpoch := consentEpoch s; login_control := login_control s;
     registration_control := registration_control s; cookie := cookie s; waiting := []; next_call := next_call s;
     answers := answers s; announced := announced s |}.

(** The shared fetch settles, then every waiting reader goes on. *)
Definition descriptor_settled (d : option metadata) (s : consent) : consent :=
  if negb (pending s) then s
  else
    let loaded := match d with Some m => if is_revision (revision m) then Some m else None | None => None end in
    let s' := match loaded with Some m => descriptor_loaded m s | None => s end in
    fold_left (fun s r => resume_reader (bool_decide (is_Some loaded)) r s) (waiting s) (settle s').

Inductive consent_event :=
| Choice (k : kind) (b : bool) (after : jstr)
| Reset (k : kind)
| Ensure (k : kind)
| Load
| Settled (d : option metadata)
| CookieChanged (c : jstr).           (* expiry, or another page *)

Definition consent_step (ev : consent_event) (s : consent) : consent :=
  match ev with
  | Choice k b after => choice_changed k b after s
  | Reset k => resetLegalConsent k s
  | Ensure k => ensureLegalConsent k s
  | Load => loadLegalMetadata s
  | Settled d => descriptor_settled d s
  | CookieChanged c => set_cookie c s
  end.

Definition consent_run (evs : list consent_event) (s : consent) : consent := fold_left (fun s ev => consent_step ev s) evs s.

(** [initializeLegalConsent] *)
Definition initializeLegalConsent (c : jstr) : consent :=
  let box := {| checked := false; disabled := true; data_revision := None; error := None |} in
  {| descriptor := None; pending := true; consentEpoch := 0; login_control := box; registration_control := box; cookie := c;
     waiting := [FirstLoad]; next_call := 0; answers := []; announced := [] |}.

(** ** Invariant *)

(** Controls follow the descriptor, and a page without a running fetch has no waiting reader. *)
Record consent_ok (s : consent) : Prop := {
  co_disabled : forall k, disabled (control_of k s) = bool_decide (descriptor s = None);
  co_revision : forall k, data_revision (control_of k s) = revision <$> descriptor s;
  co_checked : forall k, checked (control_of k s) = true -> is_Some (descriptor s);
  co_pending : pending s = false -> waiting s = []
}.

Definition ids (l : list reader) : list nat := omap (fun r => match r with Call n _ _ => Some n | FirstLoad => None end) l.

(** Every call has one answer or waits for it. *)
Definition calls_ok (readers : list reader) (s : consent) : Prop :=
  (answers s).*1 ++ ids readers ≡ₚ seq 0 (next_call s).

Lemma ids_app l1 l2 : ids (l1 ++ l2) = ids l1 ++ ids l2.
Proof. apply omap_app. Qed.

Lemma control_of_set k k' c s : control_of k (set_control k' c s) = if bool_decide (k = k') then c else control_of k s.
Proof. by destruct k, k'. Qed.

(** A control may change its error and its mark, while it is enabled. *)
Lemma set_control_ok k c s :
  consent_ok s -> disabled c = disabled (control_of k s) -> data_revision c = data_revision (control_of k s) ->
  (checked c = true -> disabled c = false) -> consent_ok (set_control k c s).
Proof.
  intros [H1 H2 H3 H4] Hd Hr Hc.
  constructor; try done; intros k'; rewrite control_of_set; destruct (bool_decide (k' = k)) eqn:E; try done.
  - by rewrite Hd, H1.
  - by rewrite Hr, H2.
  - intros H%Hc. rewrite Hd, H1 in H. apply bool_decide_eq_false in H. cbn. destruct (descriptor s); [by eexists|done].
  - apply H3.
Qed.

Lemma checked_enabled k s : consent_ok s -> checked (control_of k s) = true -> disabled (control_of k s) = false.
Proof. intros [H1 _ H3 _] Hc. rewrite H1. apply bool_decide_eq_false. by destruct (H3 k Hc) as [? ->]. Qed.

Lemma set_error_ok k e s : consent_ok s -> consent_ok (set_control k (set_error e (control_of k s)) s).
Proof. intros Hs. apply set_control_ok; try done. by apply checked_enabled. Qed.

(** What a reader of the descriptor leaves as it is. *)
Definition same_choice (s s' : consent) : Prop :=
  (forall k, checked (control_of k s') = checked (control_of k s)) /\ consentEpoch s' = consentEpoch s /\ cookie s' = cookie s /\
  descriptor s' = descriptor s /\ waiting s' = waiting s /\ next_call s' = next_call s.

Lemma same_choice_error k e s : same_choice s (set_control k (set_error e (control_of k s)) s).
Proof. split; [|done]. intros k'. by destruct k, k'. Qed.

Lemma same_choice_trans s1 s2 s3 : same_choice s1 s2 -> same_choice s2 s3 -> same_choice s1 s3.
Proof. unfold same_choice. naive_solver congruence. Qed.

(** One reader goes on: nothing but errors and its own answer change. *)
Definition permitted (n : nat) (k : kind) (epoch : nat) (s : consent) : Prop :=
  epoch = consentEpoch s /\ checked (control_of k s) = true /\ Some (acceptedRevision (cookie s)) = revision <$> descriptor s.

Lemma resume_reader_spec loaded r s :
  consent_ok s ->
  let s' := resume_reader loaded r s in
  consent_ok s' /\ same_choice s s' /\
  match r with
  | FirstLoad => answers s' = answers s
  | Call n k epoch => exists b, answers s' = (n, b) :: answers s /\ (b = true -> loaded = true /\ permitted n k epoch s)
  end.
Proof.
  intros Hs. destruct r as [|n k epoch]; cbn [resume_reader].
  - destruct loaded; [done|]. unfold consentError. split_and!; [by do 2 apply set_error_ok| |done].
    eapply same_choice_trans; apply same_choice_error.
  - assert (Ha : forall m b s, consent_ok s -> consent_ok (answer m b s)) by (intros ???[]; by constructor).
    assert (He : forall e, same_choice s (answer n false (set_control k (set_error e (control_of k s)) s)))
      by (intros e; apply same_choice_error).
    unfold resume_call, consentError. destruct loaded; cbn [negb];
      [|split_and!; [by apply Ha, set_error_ok|apply He|by exists false]].
    destruct (epoch =? consentEpoch s) eqn:E; cbn [negb]; [|split_and!; [by apply Ha|done|by exists false]].
    destruct (_ || _) eqn:Hc; [split_and!; [by apply Ha, set_error_ok|apply He|by exists false]|].
    split_and!; [by apply Ha, set_error_ok|apply same_choice_error|]. exists true. split; [done|]. intros _. split; [done|].
    apply orb_false_iff in Hc as [[Hm%negb_false_iff _]%orb_false_iff Hr%negb_false_iff%bool_decide_eq_true].
    split_and!; [by apply Nat.eqb_eq|done|done].
Qed.

Lemma resume_readers_spec loaded rs s :
  consent_ok s ->
  let s' := fold_left (fun s r => resume_reader loaded r s) rs s in
  consent_ok s' /\ same_choice s s' /\ (calls_ok (rs ++ waiting s) s -> calls_ok (waiting s') s') /\
  (forall n, (n, true) ∈ answers s' -> (n, true) ∈ answers s \/
     loaded = true /\ exists k epoch, Call n k epoch ∈ rs /\ permitted n k epoch s).
Proof.
  revert s. induction rs as [|r rs IH]; intros s Hs; [cbn; split_and!; try done; by left|]. cbn [fold_left].
  destruct (resume_reader_spec loaded r s Hs) as (H1 & H2 & H3).
  destruct (IH _ H1) as (I1 & I2 & I3 & I4). pose proof H2 as (C1 & C2 & C3 & C4 & C5 & C6).
  split_and!; [done|by eapply same_choice_trans| |].
  - intros Hc. apply I3. unfold calls_ok in *. rewrite C5, C6. destruct r as [|n k epoch]; [by rewrite H3|].
    destruct H3 as (b & -> & _). rewrite <- Hc. unfold ids. cbn. apply Permutation_middle.
  - intros n [Hn|(-> & k & epoch & Hin & Hp)]%I4.
    + destruct r as [|n' k epoch]; [left; by rewrite <- H3|]. destruct H3 as (b & E & Hb). rewrite E in Hn.
      apply elem_of_cons in Hn as [[= <- <-]|?]; [|by left]. right. destruct Hb as [-> Hp]; [done|]. split; [done|].
      exists k, epoch. split; [apply list_elem_of_here|done].
    + right. split; [done|]. exists k, epoch. split; [by apply list_elem_of_further|]. unfold permitted in *.
      by rewrite <- C1, <- C2, <- C3, <- C4.
Qed.

(** *** Every event *)
Lemma updateConsentControls_controls s k :
  control_of k (updateConsentControls s) =
  match descriptor s with
  | None => {| checked := checked (control_of k s); disabled := true; data_revision := data_revision (control_of k s);
               error := error (control_of k s) |}
  | Some m =>
    {| checked := if negb (bool_decide (data_revision (control_of k s) = Some (revision m)))
                     || negb (bool_decide (acceptedRevision (cookie s) = revision m)) then false else checked (control_of k s);
       disabled := false; data_revision := Some (revision m); error := error (control_of k s) |}
  end.
Proof. by destruct k; unfold updateConsentControls; destruct (descriptor s). Qed.

Lemma descriptor_loaded_ok m s : consent_ok s -> consent_ok (descriptor_loaded m s).
Proof.
  intros [H1 H2 H3 H4].
  constructor; try done; intros k; unfold descriptor_loaded; rewrite updateConsentControls_controls; cbn; done.
Qed.

Lemma settle_consent_ok s : consent_ok s -> consent_ok (settle s).
Proof. intros [H1 H2 H3 H4]. by constructor. Qed.

Lemma loaded_checked m s k :
  checked (control_of k (descriptor_loaded m s)) = true ->
  checked (control_of k s) = true /\ data_revision (control_of k s) = Some (revision m).
Proof.
  unfold descriptor_loaded. rewrite updateConsentControls_controls. cbn [descriptor checked].
  destruct (_ || _) eqn:E; [done|]. apply orb_false_iff in E as [E%negb_false_iff%bool_decide_eq_true _]. intros H.
  by destruct k.
Qed.

(** What the readers see when the fetch settles, and what they leave. *)
Lemma descriptor_settled_spec d s :
  consent_ok s ->
  let s' := descriptor_settled d s in
  consent_ok s' /\ (calls_ok (waiting s) s -> calls_ok (waiting s') s') /\ consentEpoch s' = consentEpoch s /\
  (forall r, r ∈ waiting s' -> r ∈ waiting s) /\
  (forall k, checked (control_of k s') = true ->
     checked (control_of k s) = true /\ revision <$> descriptor s' = revision <$> descriptor s) /\
  (forall n, (n, true) ∈ answers s' -> (n, true) ∈ answers s \/
     exists m k epoch, d = Some m /\ is_revision (revision m) = true /\ Call n k epoch ∈ waiting s /\ epoch = consentEpoch s /\
       checked (control_of k s) = true /\ acceptedRevision (cookie s) = revision m /\ revision <$> descriptor s = Some (revision m)).
Proof.
  intros Hs. unfold descriptor_settled. destruct (pending s) eqn:Hp; cbn [negb];
    [|cbv zeta; split_and!; try done; intros; by left]. cbv zeta.
  set (loaded := match d with Some m => _ | None => None end).
  set (s0 := match loaded with Some m => descriptor_loaded m s | None => s end).
  assert (Hs0 : consent_ok (settle s0)) by (apply settle_consent_ok; subst s0; destruct loaded; [by apply descriptor_loaded_ok|done]).
  assert (Hl : loaded = None \/ exists m, loaded = Some m /\ d = Some m /\ is_revision (revision m) = true).
  { subst loaded. destruct d as [m|]; [|by left]. destruct (is_revision (revision m)) eqn:E; [right; by exists m|by left]. }
  assert (H0 : answers s0 = answers s /\ next_call s0 = next_call s /\ consentEpoch s0 = consentEpoch s /\ cookie s0 = cookie s)
    by (subst s0; by destruct loaded). destruct H0 as (A1 & A2 & A3 & A4).
  assert (Hc : forall k, checked (control_of k s0) = true ->
    checked (control_of k s) = true /\ revision <$> descriptor s0 = revision <$> descriptor s /\
    (forall m, loaded = Some m -> revision <$> descriptor s = Some (revision m))).
  { intros k. subst s0. destruct loaded as [m|]; [|done]. intros [Hck Hrev]%loaded_checked.
    rewrite (co_revision s Hs) in Hrev. split_and!; [done|by rewrite Hrev|intros ? [= <-]; done]. }
  destruct (resume_readers_spec (bool_decide (is_Some loaded)) (waiting s) (settle s0) Hs0) as (R1 & (C1 & C2 & C3 & C4 & C5 & C6) & R2 & R3).
  clearbody s0. split_and!; [done| |by rewrite C2| | |].
  - intros Hcalls. apply R2. unfold calls_ok in *. cbn. rewrite app_nil_r, A1, A2. done.
  - intros r. rewrite C5. by intros ?%not_elem_of_nil.
  - intros k. rewrite C1, C4. intros (? & ? & _)%(Hc k). done.
  - intros n [Hn|(Hload & k & epoch & Hin & -> & Hck & Hrev)]%R3; [left; by rewrite <- A1|]. right.
    destruct Hl as [E|(m & E & -> & Hm)]; rewrite E in Hload; [done|]. destruct (Hc k Hck) as (Hck' & Hd & Hd').
    specialize (Hd' m E). cbn in Hrev. rewrite A4, Hd, Hd' in Hrev. injection Hrev as Hrev.
    exists m, k, (consentEpoch s0). split_and!; done.
Qed.

Lemma choice_ok k b after s : consent_ok s -> consent_ok (choice_changed k b after s).
Proof.
  intros Hs. unfold choice_changed. destruct (disabled (control_of k s)) eqn:Hd; [done|]. cbv zeta.
  set (c := {| checked := b; disabled := _; data_revision := _; error := _ |}).
  assert (Hb : consent_ok (bump (set_control k c s))).
  { assert (H0 : consent_ok (set_control k c s)) by by apply set_control_ok. destruct H0; by constructor. }
  destruct (descriptor (bump _)) as [m|]; [|exact Hb]. destruct (negb _); [exact Hb|].
  assert (H1 : consent_ok (set_cookie after (bump (set_control k c s)))) by (destruct Hb; by constructor).
  assert (Hc : forall e, set_error e c = set_error e (control_of k (set_cookie after (bump (set_control k c s))))) by by destruct k.
  destruct (b && _); unfold consentError; rewrite ?Hc; by apply set_error_ok.
Qed.

(** A choice cannot restore an epoch, and marks only the box that was ticked. *)
Lemma choice_spec k b after s :
  let s' := choice_changed k b after s in
  s' = s \/
  consentEpoch s' = S (consentEpoch s) /\ answers s' = answers s /\ waiting s' = waiting s /\ next_call s' = next_call s /\
  descriptor s' = descriptor s /\ disabled (control_of k s) = false /\
  (forall k', checked (control_of k' s') = if bool_decide (k' = k) then b else checked (control_of k' s)).
Proof.
  unfold choice_changed. destruct (disabled (control_of k s)) eqn:Hd; [by left|]. right. cbv zeta.
  destruct (descriptor (bump _)) as [m|]; [|by destruct k; split_and!; try done; intros []].
  destruct (negb _); [by destruct k; split_and!; try done; intros []|]. destruct (b && _);
    destruct k; split_and!; try done; intros []; done.
Qed.

Lemma reset_spec k s :
  let s' := resetLegalConsent k s in
  s' = s \/
  consentEpoch s' = S (consentEpoch s) /\ answers s' = answers s /\ waiting s' = waiting s /\ next_call s' = next_call s /\
  descriptor s' = descriptor s /\
  (forall k', checked (control_of k' s') = true -> checked (control_of k' s) = true).
Proof.
  unfold resetLegalConsent. destruct (checked (control_of k s)); [right|by left]. split_and!; try done. intros []; by destruct k.
Qed.

Lemma reset_consent_ok k s : consent_ok s -> consent_ok (resetLegalConsent k s).
Proof.
  intros Hs. unfold resetLegalConsent. destruct (checked _); [|done].
  assert (consent_ok (set_control k {| checked := false; disabled := disabled (control_of k s);
    data_revision := data_revision (control_of k s); error := error (control_of k s) |} s)) as [] by by apply set_control_ok.
  by constructor.
Qed.

Lemma consent_step_ok ev s : consent_ok s -> consent_ok (consent_step ev s).
Proof.
  intros Hs. destruct ev; cbn [consent_step].
  - by apply choice_ok.
  - by apply reset_consent_ok.
  - destruct Hs; by constructor.
  - destruct Hs; by constructor.
  - by apply descriptor_settled_spec.
  - destruct Hs; by constructor.
Qed.

Lemma consent_step_calls ev s : consent_ok s -> calls_ok (waiting s) s -> calls_ok (waiting (consent_step ev s)) (consent_step ev s).
Proof.
  intros Hs Hc. destruct ev as [k b after|k|k| |d|c]; cbn [consent_step]; try done.
  - destruct (choice_spec k b after s) as [->|(_ & E1 & E2 & E3 & _)]; [done|]. unfold calls_ok in *. by rewrite E1, E2, E3.
  - destruct (reset_spec k s) as [->|(_ & E1 & E2 & E3 & _)]; [done|]. unfold calls_ok in *. by rewrite E1, E2, E3.
  - unfold calls_ok in *. cbn [ensureLegalConsent answers waiting next_call]. rewrite ids_app, seq_S, app_assoc, Hc. done.
  - by apply descriptor_settled_spec.
Qed.

(** The epoch counts choices: a box that is ticked in the same epoch was ticked before, under the same revision. *)
Lemma consent_step_epoch ev s :
  consent_ok s ->
  consentEpoch s <= consentEpoch (consent_step ev s) /\
  (consentEpoch (consent_step ev s) = consentEpoch s -> forall k,
     checked (control_of k (consent_step ev s)) = true ->
     checked (control_of k s) = true /\ revision <$> descriptor (consent_step ev s) = revision <$> descriptor s).
Proof.
  intros Hs. destruct ev as [k b after|k|k| |d|c]; cbn [consent_step]; try (split; [cbn; lia|done]).
  - destruct (choice_spec k b after s) as [->|(E & _)]; [done|]. split; [lia|]. intros; lia.
  - destruct (reset_spec k s) as [->|(E & _)]; [done|]. split; [lia|]. intros; lia.
  - destruct (descriptor_settled_spec d s Hs) as (_ & _ & E & _ & Hc & _). split; [lia|]. intros _ k Hk. by apply Hc.
Qed.

(** A mark is a tick of the descriptor shown, or was there under the same revision. *)
Lemma consent_step_checked ev s k :
  consent_ok s -> checked (control_of k (consent_step ev s)) = true ->
  (exists after, ev = Choice k true after /\ descriptor (consent_step ev s) = descriptor s) \/
  checked (control_of k s) = true /\ revision <$> descriptor (consent_step ev s) = revision <$> descriptor s.
Proof.
  intros Hs. destruct ev as [k' b after|k'|k'| |d|c]; cbn [consent_step]; intros Hk; try (by right).
  - destruct (choice_spec k' b after s) as [E|(_ & _ & _ & _ & E & _ & Hc)]; [rewrite E in Hk |- *; by right|].
    rewrite Hc in Hk. destruct (decide (k = k')) as [<-|Hne].
    + rewrite bool_decide_eq_true_2 in Hk by done. subst b. left. by exists after.
    + rewrite bool_decide_eq_false_2 in Hk by done. right. by rewrite E.
  - destruct (reset_spec k' s) as [E|(_ & _ & _ & _ & E & Hc)]; [rewrite E in Hk |- *; by right|]. right. rewrite E. split; [by apply Hc|done].
  - right. by apply descriptor_settled_spec.
Qed.

Lemma consent_step_waiting ev s n k epoch :
  consent_ok s -> Call n k epoch ∈ waiting (consent_step ev s) ->
  Call n k epoch ∈ waiting s \/ ev = Ensure k /\ n = next_call s /\ epoch = consentEpoch s.
Proof.
  intros Hs. destruct ev as [k' b after|k'|k'| |d|c]; cbn [consent_step]; try (by left).
  - destruct (choice_spec k' b after s) as [->|(_ & _ & -> & _)]; by left.
  - destruct (reset_spec k' s) as [->|(_ & _ & -> & _)]; by left.
  - cbn. intros [?|[= -> -> ->]%list_elem_of_singleton]%elem_of_app; [by left|by right].
  - intros Hin. left. by apply (descriptor_settled_spec d s Hs).
Qed.

(** ** Properties *)
Section runs.
Context (c : jstr).
Local Abbreviation run evs := (consent_run evs (initializeLegalConsent c)).

Lemma consent_run_ok evs : consent_ok (run evs).
Proof. apply (run_invariant consent_step consent_ok); [by intros; apply consent_step_ok|]. constructor; try done; by intros []. Qed.

Lemma run_snoc evs ev : run (evs ++ [ev]) = consent_step ev (run evs).
Proof. unfold consent_run. by rewrite (run_app consent_step). Qed.

Lemma consent_run_calls evs : calls_ok (waiting (run evs)) (run evs).
Proof.
  induction evs as [|ev evs IH] using rev_ind; [constructor|]. rewrite run_snoc. apply consent_step_calls; [apply consent_run_ok|done].
Qed.

(** A ticked box was ticked while the page held the revision it still holds. *)
Lemma ticked evs k :
  checked (control_of k (run evs)) = true ->
  exists pre after post, evs = pre ++ Choice k true after :: post /\
    revision <$> descriptor (run pre) = revision <$> descriptor (run evs).
Proof.
  induction evs as [|ev evs IH] using rev_ind; [by destruct k|]. rewrite run_snoc.
  intros [(after & -> & E)|[Hk E]]%consent_step_checked; [| |apply consent_run_ok].
  - exists evs, after, []. by rewrite E.
  - destruct (IH Hk) as (pre & after & post & -> & E'). exists pre, after, (post ++ [ev]). split; [by rewrite <- app_assoc|].
    by rewrite E, E'.
Qed.

(** A waiting call was asked in its epoch, and its box is ticked now only if it was ticked then. *)
Lemma asked evs n k epoch :
  Call n k epoch ∈ waiting (run evs) ->
  exists pre post, evs = pre ++ Ensure k :: post /\ n = next_call (run pre) /\ epoch = consentEpoch (run pre) /\
    epoch <= consentEpoch (run evs) /\
    (consentEpoch (run evs) = epoch -> checked (control_of k (run evs)) = true ->
     checked (control_of k (run pre)) = true /\ revision <$> descriptor (run evs) = revision <$> descriptor (run pre)).
Proof.
  induction evs as [|ev evs IH] using rev_ind; [by intros ?%list_elem_of_singleton|]. rewrite run_snoc. intros Hin.
  destruct (consent_step_epoch ev (run evs) (consent_run_ok evs)) as [He Hk].
  destruct (consent_step_waiting ev _ n k epoch (consent_run_ok evs) Hin) as [Hw|(-> & -> & ->)].
  - destruct (IH Hw) as (pre & post & -> & -> & -> & Hle & Hc). exists pre, (post ++ [ev]).
    split_and!; [by rewrite <- app_assoc|done|done|lia|]. intros E Hck. destruct (Hk ltac:(lia) k Hck) as [Hck' ->].
    apply Hc; [lia|done].
  - exists evs, []. split_and!; try done; by intros _.
Qed.

(** C28: an account entry goes on only with the explicit consent its page shows: when it asked, its own box was ticked,
    by a choice made while the page held the very revision that the server has just confirmed; the cookie carries that
    revision; and no choice was made or reset since it asked.  Every call is answered exactly once, when the fetch it
    waits for settles, and boxes can be ticked only once a descriptor is there. *)
Theorem consent_is_explicit evs ev n :
  let s := run evs in
  (answers s).*1 ++ ids (waiting s) ≡ₚ seq 0 (next_call s) /\ (pending s = false -> waiting s = []) /\
  (forall k, disabled (control_of k s) = bool_decide (descriptor s = None)) /\
  ((n, true) ∉ answers s -> (n, true) ∈ answers (consent_step ev s) ->
   exists k m pre post pre' after post', ev = Settled (Some m) /\ is_revision (revision m) = true /\
     acceptedRevision (cookie s) = revision m /\ checked (control_of k s) = true /\
     evs = pre ++ Ensure k :: post /\ n = next_call (run pre) /\ consentEpoch (run pre) = consentEpoch s /\
     pre = pre' ++ Choice k true after :: post' /\ revision <$> descriptor (run pre') = Some (revision m)).
Proof.
  cbv zeta. pose proof (consent_run_ok evs) as Hs. split_and!; [apply consent_run_calls|apply Hs|apply Hs|].
  intros Hnew Hin. destruct ev as [k' b after|k'|k'| |d|]; cbn [consent_step] in Hin; try done.
  - by destruct (choice_spec k' b after (run evs)) as [E|(_ & E & _)]; rewrite E in Hin.
  - by destruct (reset_spec k' (run evs)) as [E|(_ & E & _)]; rewrite E in Hin.
  - apply (descriptor_settled_spec d _ Hs) in Hin as [?|(m & k & epoch & -> & Hm & Hw & E & Hck & Hacc & Hrev)]; [done|].
    destruct (asked evs n k epoch Hw) as (pre & post & -> & -> & Ee & _ & Hpre).
    destruct (Hpre (eq_sym E) Hck) as [Hckp Erev]. destruct (ticked pre k Hckp) as (pre' & after & post' & Epre & Erev').
    exists k, m, pre, post, pre', after, post'. split_and!; try done; [congruence|by rewrite Erev', <- Erev].
Qed.
End runs.

(** A sign-in that asks after a choice, and one whose box is reset while it waits. *)
Definition shown : metadata :=
  {| revision := replicate 64 97%N; cookie_banner := false; content_revision := js "1" |}.
Definition accepted : jstr := js "theme=dark; renop_legal_consent=" ++ replicate 64 97%N.
Definition chosen : list consent_event := [Settled (Some shown); Choice Login true accepted; Ensure Login].

Example consent_runs :
  answers (consent_run (chosen ++ [Settled (Some shown)]) (initializeLegalConsent [])) = [(0, true)] /\
  answers (consent_run (chosen ++ [Reset Login; Settled (Some shown)]) (initializeLegalConsent [])) = [(0, false)] /\
  answers (consent_run (chosen ++ [Settled (Some {| revision := replicate 64 98%N; cookie_banner := false; content_revision := [] |})])
             (initializeLegalConsent [])) = [(0, false)] /\
  answers (consent_run (chosen ++ [Settled None]) (initializeLegalConsent [])) = [(0, false)].
Proof. vm_compute. done. Qed.

Lemma consent_is_explicit_witness :
  let s := consent_run chosen (initializeLegalConsent []) in
  exists k m pre post pre' after post', Settled (Some shown) = Settled (Some m) /\ is_revision (revision m) = true /\
    acceptedRevision (cookie s) = revision m /\ checked (control_of k s) = true /\
    chosen = pre ++ Ensure k :: post /\ 0 = next_call (consent_run pre (initializeLegalConsent [])) /\
    consentEpoch (consent_run pre (initializeLegalConsent [])) = consentEpoch s /\
    pre = pre' ++ Choice k true after :: post' /\
    revision <$> descriptor (consent_run pre' (initializeLegalConsent [])) = Some (revision m).
Proof.
  destruct (consent_is_explicit [] chosen (Settled (Some shown)) 0) as (_ & _ & _ & H). apply H.
  - refine (proj1 (bool_decide_eq_true _) _). vm_compute. reflexivity.
  - refine (proj1 (bool_decide_eq_true _) _). vm_compute. reflexivity.
Defined.
