(* ===== verification/LoginRoute.v ===== *)
(** * The way to the sign-in page and back

    [internal/service/frontend/renop-html/js/login-route.js]: where a sign-in returns to, and the two navigations
    around it.  The browser's [URL] and [URLSearchParams] are parameters; [WebUrl] states what the code relies on. *)
From Stdlib Require Import Ascii String.
From S2P Require Export Prelude JsString JsUri.
Local Open Scope N_scope.

(** ** The browser's address API *)

(** [URL(value, 'https://renop.invalid')] as its origin and pathname, and a query string of at most two
    parameters with [get('return_to')] on it. *)
Class UrlApi := {
  parse_url : jstr -> option (jstr * jstr);
  query_string : option jstr -> bool -> jstr;      (* [return_to] and [reauth=1] *)
  query_return_to : jstr -> option jstr
}.

Definition ascii (s : jstr) : Prop := Forall (fun c => c < 128) s.

(** [/[\\\x00-\x20]/] *)
Definition has_unsafe (s : jstr) : bool := existsb (fun c => (c =? 92) || (c <=? 32)) s.

(** [toLowerCase] maps ASCII prefixes unit by unit. *)
Class CaseAscii `{UnicodeCase} : Prop :=
  lower_prefix : forall p s, ascii p -> exists t, unicode_lower (p ++ s) = map lower_unit p ++ t.

(** Pathnames of this special scheme start with a slash, are ASCII without white space, controls and backslashes,
    and parse to themselves unless they look like a host; query strings give ASCII values back. *)
Class WebUrl `{UrlApi} : Prop := {
  parse_slash : forall v o p, parse_url v = Some (o, p) -> starts_with (js "/") p = true;
  parse_ascii : forall v o p, parse_url v = Some (o, p) -> ascii p;
  parse_clean : forall v o p, parse_url v = Some (o, p) -> has_unsafe p = false;
  parse_again : forall v o p, parse_url v = Some (o, p) -> starts_with (js "//") p = false ->
    parse_url p = Some (js "https://renop.invalid", p);
  query_back : forall t reauth, (forall v, t = Some v -> ascii v) -> query_return_to (query_string t reauth) = t;
  parse_root : parse_url (js "/") = Some (js "https://renop.invalid", js "/");
  query_none : query_return_to [] = None
}.

(** ** Paths *)
Section paths.
Context {UC : UnicodeCase} {UA : UrlApi}.

(** [replace(/\/$/, '')] *)
Definition drop_slash (s : jstr) : jstr := if ends_with (js "/") s then slice_drop_last 1 s else s.

Definition accountPageFromPath (pathname : jstr) : jstr :=
  let path := drop_slash (to_lower pathname) in
  if bool_decide (path = js "/account/login") then js "login"
  else if bool_decide (path = js "/account/register") then js "registration"
  else if bool_decide (path = js "/account/recovery") then js "recovery"
  else if bool_decide (path = js "/account/forgot-password") then js "password-recovery"
  else [].

Definition isLoginPath (pathname : jstr) : bool := bool_decide (accountPageFromPath pathname = js "login").

(** [value] is [None] when it is not a string. *)
Definition safeLoginReturnTo (value : option jstr) : jstr :=
  match value with
  | None => js "/"
  | Some value =>
    if (1024 <? length value)%nat || negb (starts_with (js "/") value) || starts_with (js "//") value || has_unsafe value
    then js "/"
    else
      match parse_url value with
      | None => js "/"
      | Some (origin, pathname) =>
        match decodeURIComponent pathname with
        | None => js "/"
        | Some d =>
          let decoded := to_lower d in
          if negb (bool_decide (origin = js "https://renop.invalid")) || starts_with (js "//") decoded || has_unsafe decoded
             || negb (bool_decide (accountPageFromPath decoded = [])) || bool_decide (decoded = js "/api")
             || starts_with (js "/api/") decoded || (1024 <? length pathname)%nat
          then js "/" else pathname
        end
      end
  end.

(** ** Navigation *)

(** An entry of the browser's history; [search] without its question mark. *)
Record place := { pathname : jstr; search : jstr }.

Record browser_history := { current : place; back : list place }.

Definition loginReturnTo (search : jstr) : jstr := safeLoginReturnTo (query_return_to search).

Definition pushState (p : place) (h : browser_history) : browser_history := {| current := p; back := current h :: back h |}.
Definition replaceState (p : place) (h : browser_history) : browser_history := {| current := p; back := back h |}.

Definition navigateToLogin (returnTo : jstr) (replace reauth : bool) (h : browser_history) : browser_history :=
  if isLoginPath (pathname (current h)) then h
  else
    let target := safeLoginReturnTo (Some returnTo) in
    let return_to := if bool_decide (target = js "/") then None else Some target in
    let route := {| pathname := js "/account/login";
                    search := if bool_decide (return_to = None) && negb reauth then [] else query_string return_to reauth |} in
    if replace then replaceState route h else pushState route h.

Definition leaveLoginPage (h : browser_history) : browser_history :=
  if negb (isLoginPath (pathname (current h))) then h
  else replaceState {| pathname := loginReturnTo (search (current h)); search := [] |} h.

(** ** Safety of the destination *)
Context {WU : WebUrl} {CA : CaseAscii}.

Lemma to_lower_ascii s : ascii s -> to_lower s = map lower_unit s.
Proof.
  intros Hs. unfold to_lower. assert (is_latin1 s = true) as ->; [|done]. apply forallb_forall. intros c Hc.
  unfold ascii in Hs. rewrite Forall_forall in Hs. apply list_elem_of_In in Hc. specialize (Hs c Hc). cbn in Hs. lia.
Qed.

Lemma lower_unit_ascii c : c < 128 -> lower_unit c < 128 /\ lower_unit (lower_unit c) = lower_unit c.
Proof. unfold lower_unit, is_upper. intros Hc. repeat case_match; lia. Qed.

Lemma lower_twice s : ascii s -> to_lower (to_lower s) = to_lower s.
Proof.
  intros Hs. rewrite (to_lower_ascii s Hs). rewrite to_lower_ascii.
  - rewrite map_map. apply map_ext_in. intros c Hc. apply lower_unit_ascii. unfold ascii in Hs. rewrite Forall_forall in Hs.
    by apply Hs, list_elem_of_In.
  - apply Forall_forall. intros c (c' & -> & Hc)%list_elem_of_fmap. apply lower_unit_ascii.
    unfold ascii in Hs. rewrite Forall_forall in Hs. by apply Hs.
Qed.

Lemma drop_slash_percent s : 37 ∈ s -> 37 ∈ drop_slash s.
Proof.
  unfold drop_slash. destruct (ends_with (js "/") s) eqn:E; [|done]. intros Hin.
  apply ends_with_spec in E as [q ->]. unfold slice_drop_last. rewrite length_app. change (length (js "/")) with 1%nat.
  rewrite Nat.add_sub, take_app_length. apply elem_of_app in Hin as [?|Hin]; [done|].
  change (js "/") with [47] in Hin. by apply list_elem_of_singleton in Hin.
Qed.

(** A pathname that is an account page has no escapes. *)
Lemma account_page_plain s : ascii s -> accountPageFromPath s <> [] -> 37 ∉ s.
Proof.
  intros Hs Hp Hin. apply Hp. assert (Hl : 37 ∈ drop_slash (to_lower s)).
  { apply drop_slash_percent. rewrite to_lower_ascii by done. by apply (list_elem_of_fmap_2 lower_unit s 37). }
  unfold accountPageFromPath.
  assert (Hne : forall k, 37 ∉ k -> bool_decide (drop_slash (to_lower s) = k) = false).
  { intros k Hk. apply bool_decide_eq_false. intros E. by rewrite E in Hl. }
  rewrite !Hne; [done|..]; refine (proj1 (bool_decide_eq_true _) _); vm_compute; reflexivity.
Qed.

Lemma starts_lower p s : ascii p -> map lower_unit p = p -> starts_with p s = true -> starts_with p (to_lower s) = true.
Proof.
  intros Hp Hl [r ->]%starts_with_spec. unfold to_lower. destruct (is_latin1 (p ++ r)).
  - rewrite map_app, Hl. apply starts_with_app.
  - destruct (lower_prefix p r Hp) as [t ->]. rewrite Hl. apply starts_with_app.
Qed.

(** What the checks establish. *)
Record safe_path (r : jstr) : Prop := {
  sp_slash : starts_with (js "/") r = true;
  sp_local : starts_with (js "//") r = false;
  sp_bound : (length r <= 1024)%nat;
  sp_ascii : ascii r;
  sp_clean : has_unsafe r = false;
  sp_page : accountPageFromPath r = [];
  sp_decoded : exists d, decodeURIComponent r = Some d /\ starts_with (js "//") (to_lower d) = false /\
    has_unsafe (to_lower d) = false /\ accountPageFromPath (to_lower d) = [] /\ to_lower d <> js "/api" /\
    starts_with (js "/api/") (to_lower d) = false
}.

Lemma checked_path v o p d :
  parse_url v = Some (o, p) -> decodeURIComponent p = Some d -> starts_with (js "//") (to_lower d) = false ->
  has_unsafe (to_lower d) = false -> accountPageFromPath (to_lower d) = [] -> to_lower d <> js "/api" ->
  starts_with (js "/api/") (to_lower d) = false -> (length p <= 1024)%nat -> safe_path p.
Proof.
  intros Hparse Hd Hlocal Hun Hpage Hapi Hapis Hlen. pose proof (parse_ascii _ _ _ Hparse) as Hascii. constructor; try done.
  - by eapply parse_slash.
  - destruct (starts_with (js "//") p) eqn:E; [|done]. pose proof E as [r ->]%starts_with_spec.
    change (js "//" ++ r) with (47 :: 47 :: r) in Hd. rewrite !decode_raw in Hd by done.
    destruct (decodeURIComponent r) as [dr|]; [|done]. injection Hd as <-.
    rewrite (starts_lower (js "//")) in Hlocal; [done| |done|apply (starts_with_app (js "//") dr)].
    repeat constructor.
  - by eapply parse_clean.
  - destruct (decide (accountPageFromPath p = [])) as [|Hne]; [done|]. pose proof (account_page_plain p Hascii Hne) as Hp.
    rewrite (decode_plain p Hp) in Hd. injection Hd as <-. rewrite <- Hpage. unfold accountPageFromPath. by rewrite lower_twice.
  - exists d. done.
Qed.

Lemma safe_return value : safeLoginReturnTo value = js "/" \/
  safe_path (safeLoginReturnTo value) /\ exists v o, parse_url v = Some (o, safeLoginReturnTo value).
Proof.
  unfold safeLoginReturnTo. destruct value as [value|]; [|by left]. destruct (_ || _); [by left|].
  destruct (parse_url value) as [[o p]|] eqn:Hparse; [|by left]. destruct (decodeURIComponent p) as [d|] eqn:Hd; [|by left].
  cbv zeta. destruct (negb _ || _ || _ || _ || _ || _ || _) eqn:E; [by left|]. right.
  apply orb_false_iff in E as [[[[[[_ Hl]%orb_false_iff Hu]%orb_false_iff Hpage%negb_false_iff%bool_decide_eq_true]%orb_false_iff
    Hapi%bool_decide_eq_false]%orb_false_iff Hapis]%orb_false_iff Hlen%Nat.ltb_ge].
  split; [|by exists value, o]. by eapply checked_path.
Qed.

Lemma safe_again r v o : safe_path r -> parse_url v = Some (o, r) -> safeLoginReturnTo (Some r) = r.
Proof.
  intros [S1 S2 S3 S4 S5 S6 (d & Hd & D1 & D2 & D3 & D4 & D5)] Hparse. unfold safeLoginReturnTo.
  rewrite S1, S2, S5, (proj2 (Nat.ltb_ge 1024 (length r)) S3). cbn [negb orb].
  rewrite (parse_again _ _ _ Hparse S2), Hd. cbv zeta. rewrite D1, D2, D5, D3.
  rewrite (bool_decide_eq_false_2 _ D4), (bool_decide_eq_true_2 _ (eq_refl (js "https://renop.invalid"))),
    (bool_decide_eq_true_2 _ (eq_refl [])), (proj2 (Nat.ltb_ge 1024 (length r)) S3). done.
Qed.

(** The paths a sign-in returns to: local, bounded, and decoding to text without spaces, controls and backslashes that is
    no account page and no endpoint. *)
Definition returnable (p : jstr) : bool :=
  (length p <=? 1024)%nat && negb (starts_with (js "//") p) &&
  match decodeURIComponent p with
  | None => false
  | Some d =>
    let d := to_lower d in
    negb (starts_with (js "//") d) && negb (has_unsafe d) && bool_decide (accountPageFromPath d = []) &&
    negb (bool_decide (d = js "/api")) && negb (starts_with (js "/api/") d)
  end.

(** A pathname of the address API is kept exactly when it is such a path. *)
Lemma return_from v o p : parse_url v = Some (o, p) -> safeLoginReturnTo (Some p) = if returnable p then p else js "/".
Proof.
  intros Hv. unfold safeLoginReturnTo, returnable. rewrite (parse_slash _ _ _ Hv), (parse_clean _ _ _ Hv), Nat.leb_antisym.
  destruct (1024 <? length p)%nat eqn:El; cbn [orb andb negb]; [done|].
  destruct (starts_with (js "//") p) eqn:E; cbn [orb andb negb]; [done|]. rewrite (parse_again _ _ _ Hv E).
  destruct (decodeURIComponent p) as [d|]; [|done]. cbv zeta. rewrite El.
  rewrite (bool_decide_eq_true_2 _ (eq_refl (js "https://renop.invalid"))). cbn [negb orb].
  by destruct (starts_with (js "//") (to_lower d)), (has_unsafe (to_lower d)), (bool_decide (accountPageFromPath _ = [])),
    (bool_decide (to_lower d = js "/api")), (starts_with (js "/api/") (to_lower d)).
Qed.

(** C34: whatever the address asked for, a sign-in returns to the start page or to a local path that is no account page and
    no endpoint.  A sign-in that was opened outside the sign-in page returns, with the same history, to the checked form of
    the path it was opened with; for the path of the page it was opened from, as the address bar gives it (without query),
    this is that very path when it is [returnable] and the start page otherwise: so not for paths longer than 1024, account
    pages and endpoints, nor for paths that decode to text with a space ([space_returns_home]). *)
Theorem login_returns_safely :
  (forall search, let r := loginReturnTo search in r = js "/" \/
     starts_with (js "/") r = true /\ starts_with (js "//") r = false /\ (length r <= 1024)%nat /\ ascii r /\
     has_unsafe r = false /\ accountPageFromPath r = [] /\
     exists d, decodeURIComponent r = Some d /\ starts_with (js "//") (to_lower d) = false /\ has_unsafe (to_lower d) = false /\
       to_lower d <> js "/api" /\ starts_with (js "/api/") (to_lower d) = false) /\
  (forall returnTo replace reauth h, isLoginPath (pathname (current h)) = false ->
     let h' := leaveLoginPage (navigateToLogin returnTo replace reauth h) in
     current h' = {| pathname := safeLoginReturnTo (Some returnTo); search := [] |} /\
     back h' = (if replace then back h else current h :: back h) /\
     safeLoginReturnTo (Some (safeLoginReturnTo (Some returnTo))) = safeLoginReturnTo (Some returnTo) /\
     (forall v o, returnTo = pathname (current h) -> parse_url v = Some (o, returnTo) ->
        pathname (current h') = if returnable returnTo then pathname (current h) else js "/")).
Proof.
  split.
  - intros search. destruct (safe_return (query_return_to search)) as [E|[[? ? ? ? ? ? (d & ? & ? & ? & ? & ? & ?)] _]]; [by left|].
    right. split_and!; try done. by exists d.
  - intros returnTo replace reauth h Hh. unfold navigateToLogin. rewrite Hh. cbv zeta. set (r := safeLoginReturnTo (Some returnTo)).
    assert (Hlogin : isLoginPath (js "/account/login") = true) by (vm_compute; reflexivity).
    assert (Hroot : safeLoginReturnTo (Some (js "/")) = js "/").
    { unfold safeLoginReturnTo. rewrite parse_root. destruct (_ || _); [done|]. destruct (decodeURIComponent _); [|done].
      cbv zeta. by destruct (_ || _). }
    assert (Hr : r = js "/" \/ r <> js "/" /\ safeLoginReturnTo (Some r) = r /\ ascii r).
    { destruct (decide (r = js "/")) as [|Hne]; [by left|right]. destruct (safe_return (Some returnTo)) as [E|[Hs (v & o & Hv)]]; [done|].
      split_and!; [done|by eapply safe_again|apply Hs]. }
    set (return_to := if bool_decide (r = js "/") then None else Some r).
    set (query := if bool_decide (return_to = None) && negb reauth then [] else query_string return_to reauth).
    assert (Hget : query_return_to query = return_to).
    { subst query. destruct (bool_decide (return_to = None)) eqn:E, reauth; cbn [andb negb];
        try (apply query_back; intros v Hv; subst return_to; destruct Hr as [->|(? & _ & ?)];
             [by rewrite bool_decide_eq_true_2 in Hv|rewrite bool_decide_eq_false_2 in Hv by done; by injection Hv as <-]).
      apply bool_decide_eq_true in E. by rewrite E, query_none. }
    assert (Hback : loginReturnTo query = r).
    { unfold loginReturnTo. rewrite Hget. subst return_to. destruct Hr as [E|(Hne & E & _)];
        [by rewrite bool_decide_eq_true_2|by rewrite bool_decide_eq_false_2]. }
    assert (Hpath : pathname (current (leaveLoginPage (if replace
        then replaceState {| pathname := js "/account/login"; search := query |} h
        else pushState {| pathname := js "/account/login"; search := query |} h))) = r).
    { unfold leaveLoginPage. destruct replace; cbn [replaceState pushState current pathname search]; rewrite Hlogin; cbn; by rewrite Hback. }
    split_and!; [| | |intros v o E Hv; subst returnTo; rewrite Hpath; exact (return_from v o _ Hv)];
      clear Hpath; clearbody query; unfold leaveLoginPage.
    + destruct replace; cbn [replaceState pushState current pathname search]; rewrite Hlogin; cbn; by rewrite Hback.
    + destruct replace; cbn [replaceState pushState current pathname search]; by rewrite Hlogin.
    + destruct Hr as [->|(_ & ? & _)]; done.
Qed.
End paths.

(** ** An instance *)
Section example.

(** A lower-casing and an address API that meet the assumptions: pathnames end at a question mark or a hash, and
    units outside printable ASCII are escaped. *)
#[local] Instance unit_case : UnicodeCase := {| unicode_lower := map lower_unit |}.

#[local] Instance unit_case_ascii : CaseAscii.
Proof. intros p s _. exists (map lower_unit s). apply map_app. Qed.

Definition path_end (c : N) : bool := (c =? 63) || (c =? 35).
Definition keeps_unit (c : N) : bool := (32 <? c) && (c <? 128) && negb (c =? 92).

Fixpoint take_until (stop : N -> bool) (s : jstr) : jstr :=
  match s with [] => [] | c :: s => if stop c then [] else c :: take_until stop s end.

Definition simple_parse (v : jstr) : option (jstr * jstr) :=
  if starts_with (js "/") v && negb (starts_with (js "//") v)
  then Some (js "https://renop.invalid",
             flat_map (fun c => if keeps_unit c then [c] else percent (c mod 256)) (take_until path_end v))
  else None.

Definition simple_query (t : option jstr) (reauth : bool) : jstr :=
  match t with
  | None => if reauth then js "reauth=1" else []
  | Some v => js "return_to=" ++ default v (encodeURIComponent v) ++ (if reauth then js "&reauth=1" else [])
  end.

Definition simple_return_to (q : jstr) : option jstr :=
  if starts_with (js "return_to=") q then decodeURIComponent (take_until (N.eqb 38) (slice_from 10 q)) else None.

#[local] Instance simple_url : UrlApi :=
  {| parse_url := simple_parse; query_string := simple_query; query_return_to := simple_return_to |}.

Lemma uri_safe_kept c : uri_safe c = true -> keeps_unit c = true /\ path_end c = false /\ (38 =? c) = false.
Proof. unfold uri_safe, uri_unreserved, is_alnum, is_alpha, is_lower, is_upper, is_digit, keeps_unit, path_end. lia. Qed.

Lemma parsed_units v : Forall (fun c => keeps_unit c = true /\ path_end c = false)
  (flat_map (fun c => if keeps_unit c then [c] else percent (c mod 256)) (take_until path_end v)).
Proof.
  induction v as [|c v IH]; cbn [take_until flat_map]; [constructor|]. destruct (path_end c) eqn:Hp; [constructor|].
  cbn [flat_map]. apply Forall_app. split; [|done]. destruct (keeps_unit c) eqn:Hk; [by repeat constructor|].
  eapply Forall_impl; [apply percent_safe, N.mod_lt; lia|]. intros x Hx. by destruct (uri_safe_kept x Hx) as (? & ? & _).
Qed.

Lemma units_fixed p : Forall (fun c => keeps_unit c = true /\ path_end c = false) p ->
  flat_map (fun c => if keeps_unit c then [c] else percent (c mod 256)) (take_until path_end p) = p.
Proof. induction 1 as [|c p [Hk Hp] _ IH]; [done|]. cbn [take_until]. rewrite Hp. cbn [flat_map]. by rewrite Hk, IH. Qed.

Lemma ascii_encodes v : ascii v -> exists e, encodeURIComponent v = Some e.
Proof.
  induction 1 as [|c v Hc _ [e IH]]; [by exists []|]. cbn [encodeURIComponent]. rewrite IH.
  assert (is_low_surrogate c = false) as -> by (unfold is_low_surrogate; cbn in Hc; lia).
  assert (is_high_surrogate c = false) as -> by (unfold is_high_surrogate; cbn in Hc; lia).
  destruct (uri_unreserved c); cbn; eauto.
Qed.

Lemma take_until_safe e r : Forall (fun c => uri_safe c = true) e -> (r = [] \/ exists r', r = 38 :: r') ->
  take_until (N.eqb 38) (e ++ r) = e.
Proof.
  intros He Hr. induction He as [|c e Hc _ IH]; cbn [app take_until].
  - destruct Hr as [->|[r' ->]]; done.
  - destruct (uri_safe_kept c Hc) as (_ & _ & E). by rewrite E, IH.
Qed.

#[local] Instance simple_web : WebUrl.
Proof.
  constructor.
  - intros v o p. cbn. unfold simple_parse. destruct (starts_with (js "/") v) eqn:E; [|done]. destruct (negb _); [|done].
    cbn [andb]. intros [= _ <-]. apply starts_with_spec in E as [r ->]. reflexivity.
  - intros v o p. cbn. unfold simple_parse. destruct (_ && _); [|done]. intros [= _ <-].
    eapply Forall_impl; [apply parsed_units|]. cbn. unfold keeps_unit. intros c [Hc _]. lia.
  - intros v o p. cbn. unfold simple_parse. destruct (_ && _); [|done]. intros [= _ <-].
    pose proof (parsed_units v) as Hp. unfold has_unsafe. induction Hp as [|c p [Hc _] _ IH]; [done|]. cbn [existsb]. rewrite IH.
    unfold keeps_unit in Hc. lia.
  - intros v o p. change parse_url with simple_parse. unfold simple_parse at 1. destruct (starts_with (js "/") v) eqn:E; [|done]. destruct (negb _); [|done].
    cbn [andb]. intros [= _ <-] Hloc. unfold simple_parse. rewrite Hloc, (units_fixed _ (parsed_units v)).
    apply starts_with_spec in E as [r ->]. reflexivity.
  - intros t reauth Ht. change (simple_return_to (simple_query t reauth) = t). destruct t as [v|]; [|by destruct reauth]. specialize (Ht v eq_refl).
    destruct (ascii_encodes v Ht) as [e He]. unfold simple_query, simple_return_to. rewrite He. cbn [default].
    rewrite starts_with_app. unfold slice_from. rewrite (drop_app_length' _ _ 10) by reflexivity.
    assert (Hu : is_utf16 v) by (eapply Forall_impl; [exact Ht|]; cbn; intros; lia).
    rewrite take_until_safe; [by apply decode_encode|by eapply encode_safe|]. destruct reauth; [right; by eexists|by left].
  - reflexivity.
  - reflexivity.
Qed.

(** An artifact whose name has a space. *)
Example space_returns_home :
  safeLoginReturnTo (Some (js "/repo/A%20b")) = js "/" /\ returnable (js "/repo/A%20b") = false /\ returnable (js "/repo/A-b") = true.
Proof. vm_compute. done. Qed.

Lemma login_returns_safely_witness :
  let h := {| current := {| pathname := js "/releases/caf%C3%A9"; search := [] |}; back := [] |} in
  let h' := leaveLoginPage (navigateToLogin (js "/releases/caf%C3%A9?tab=1") false true h) in
  isLoginPath (js "/releases/caf%C3%A9") = false /\
  navigateToLogin (js "/releases/caf%C3%A9?tab=1") false true h =
    {| current := {| pathname := js "/account/login"; search := js "return_to=%2Freleases%2Fcaf%25C3%25A9&reauth=1" |}; back := [current h] |} /\
  loginReturnTo (js "return_to=//evil.example") = js "/" /\ loginReturnTo (js "return_to=/%61pi/users") = js "/" /\
  current h' = {| pathname := safeLoginReturnTo (Some (js "/releases/caf%C3%A9?tab=1")); search := [] |} /\
  back h' = [current h] /\
  pathname (current (leaveLoginPage (navigateToLogin (pathname (current h)) true false h))) = js "/releases/caf%C3%A9".
Proof.
  split; [vm_compute; reflexivity|]. split; [vm_compute; reflexivity|]. split; [vm_compute; reflexivity|].
  split; [vm_compute; reflexivity|].
  destruct (proj2 login_returns_safely (js "/releases/caf%C3%A9?tab=1") false true
    {| current := {| pathname := js "/releases/caf%C3%A9"; search := [] |}; back := [] |} ltac:(vm_compute; reflexivity)) as (E1 & E2 & _).
  destruct (proj2 login_returns_safely (js "/releases/caf%C3%A9") true false
    {| current := {| pathname := js "/releases/caf%C3%A9"; search := [] |}; back := [] |} ltac:(vm_compute; reflexivity))
    as (_ & _ & _ & E3).
  refine (conj E1 (conj E2 _)). refine (eq_trans (E3 (js "/releases/caf%C3%A9") (js "https://renop.invalid") eq_refl _) _);
    vm_compute; reflexivity.
Defined.
End example.
