(* ===== verification/Permissions.v ===== *)
(** * What a session may do

    The permission part of [internal/service/frontend/renop-html/js/auth.js]: which permissions make a manager, which
    allow writes to a repository, and the caches of the current session. *)
From S2P Require Export Prelude JsString JsUri.
Local Open Scope js_scope.

(** ** Session payloads *)

(** An entry is a text, or a record whose [identifier] may be missing; anything else is [PermissionNull]. *)
Inductive permission := PermissionText (s : jstr) | PermissionRecord (identifier : option jstr) | PermissionNull.

#[export] Instance permission_eq_dec : EqDecision permission.
Proof. solve_decision. Defined.

(** [permission && permission.identifier] of a route; a null route is [None] in the lists. *)
Record route := { path : option jstr; route_permission : option jstr }.

#[export] Instance route_eq_dec : EqDecision route.
Proof. solve_decision. Defined.

Record details := { permissions : option (list permission); routes : option (list (option route)); access_name : option jstr }.

#[export] Instance details_eq_dec : EqDecision details.
Proof. solve_decision. Defined.

Record caches := {
  cachedIsLoggedIn : bool;
  cachedIsManager : bool;
  cachedPermissions : list permission;
  cachedRoutes : list (option route)
}.

(** ** Managers *)
Definition MANAGER_PERMISSION_IDS : list jstr := map js ["manager"; "m"; "access-token:manager"; "admin"]%string.
Definition MANAGER_TAB_IDS : list jstr := map js ["dashboard"; "users"; "repositories"; "settings"; "storage"; "database"]%string.

Definition isManagerTab (tabId : jstr) : bool := bool_decide (tabId ∈ MANAGER_TAB_IDS).

(** [typeof p === 'string' ? p : p && p.identifier], the empty text for what is falsy. *)
Definition permission_id (p : permission) : jstr :=
  match p with PermissionText s => s | PermissionRecord id => default [] id | PermissionNull => [] end.

Definition isManagerFromSession (ps : list permission) : bool :=
  existsb (fun p => negb (bool_decide (permission_id p = [])) && bool_decide (permission_id p ∈ MANAGER_PERMISSION_IDS)) ps.

(** ** Repositories *)
Definition repoNameFromPath (path : jstr) : jstr :=
  match List.filter (fun p => 0 <? length p) (split 47 path) with
  | [] => []
  | part :: _ => default part (decodeURIComponent part)
  end.

Definition permission_allows (name : jstr) (p : permission) : bool :=
  let id := permission_id p in
  negb (bool_decide (id = [])) && (bool_decide (id = js "canupdate:*") || bool_decide (id = js "canupdate:" ++ name)).

Definition route_allows (name : jstr) (r : option route) : bool :=
  match r with
  | Some r =>
    (bool_decide (route_permission r = Some (js "route:write")) || bool_decide (route_permission r = Some (js "w")))
    && (bool_decide (path r = Some (js "*")) || bool_decide (path r = Some name))
  | None => false
  end.

Definition canUpdateRepo (c : caches) (repoName : jstr) : bool :=
  if negb (cachedIsLoggedIn c) then false
  else if cachedIsManager c then true
  else if bool_decide (repoName = []) then false
  else
    let name := default repoName (decodeURIComponent repoName) in
    existsb (permission_allows name) (cachedPermissions c) || existsb (route_allows name) (cachedRoutes c).

(** ** The caches *)
Definition applySessionCaches (isLoggedIn : bool) (ps : list permission) (rs : list (option route)) : caches :=
  let ps := if isLoggedIn then ps else [] in
  {| cachedIsLoggedIn := isLoggedIn; cachedIsManager := isLoggedIn && isManagerFromSession ps;
     cachedPermissions := ps; cachedRoutes := if isLoggedIn then rs else [] |}.

(** The caches [updateAuthUI] leaves, with its older manager flag. *)
Definition session_caches (isLoggedIn isManager : bool) (ps : list permission) (rs : list (option route)) : caches :=
  let c := applySessionCaches isLoggedIn ps rs in
  if isLoggedIn && bool_decide (ps = []) && isManager
  then {| cachedIsLoggedIn := cachedIsLoggedIn c; cachedIsManager := true; cachedPermissions := cachedPermissions c;
          cachedRoutes := cachedRoutes c |}
  else c.

(** ** Properties *)
Lemma isManagerFromSession_spec ps :
  isManagerFromSession ps = true <-> exists p, p ∈ ps /\ permission_id p ∈ MANAGER_PERMISSION_IDS.
Proof.
  unfold isManagerFromSession. rewrite existsb_exists. split.
  - intros (p & Hp & [_ Hm%bool_decide_eq_true]%andb_true_iff). exists p. split; [by apply list_elem_of_In|done].
  - intros (p & Hp & Hm). exists p. split; [by apply list_elem_of_In|]. apply andb_true_iff.
    split; [|by apply bool_decide_eq_true]. apply negb_true_iff, bool_decide_eq_false. intros E. rewrite E in Hm. revert Hm.
    refine (proj1 (bool_decide_eq_true _) _). vm_compute. reflexivity.
Qed.

(** The older flag adds nothing to the permissions it comes from. *)
Lemma session_caches_manager isLoggedIn ps rs :
  session_caches isLoggedIn (isManagerFromSession ps) ps rs = applySessionCaches isLoggedIn ps rs.
Proof.
  unfold session_caches. destruct (_ && _) eqn:E; [|done].
  apply andb_true_iff in E as [[->%Is_true_eq_left%Is_true_true E%bool_decide_eq_true]%andb_true_iff H]. by rewrite E in H.
Qed.

(** A name that is encoded as one segment of a path is the repository that the path names. *)
Lemma repoNameFromPath_segment name e rest :
  name <> [] -> encodeURIComponent name = Some e -> is_utf16 name ->
  repoNameFromPath (47%N :: e ++ 47%N :: rest) = name.
Proof.
  intros Hne He Hu. pose proof (encode_safe name e Hu He) as Hs. unfold repoNameFromPath.
  assert (H47 : 47%N ∉ e) by (intros Hin; rewrite Forall_forall in Hs; by specialize (Hs 47%N Hin)).
  change (47%N :: e ++ 47%N :: rest) with ([] ++ 47%N :: e ++ 47%N :: rest).
  rewrite split_app_sep by (by intros ?%not_elem_of_nil).
  rewrite split_app_sep by done.
  assert (e <> []).
  { intros ->. apply Hne. apply (decode_encode _ _ Hu) in He. by injection He as <-. }
  destruct e as [|c e]; [done|]. cbn [List.filter length Nat.ltb Nat.leb].
  by rewrite (decode_encode name (c :: e) Hu He).
Qed.

Lemma permission_allows_spec name p :
  permission_allows name p = true <-> permission_id p = js "canupdate:*" \/ permission_id p = js "canupdate:" ++ name.
Proof.
  unfold permission_allows. cbv zeta. rewrite andb_true_iff, orb_true_iff, negb_true_iff, bool_decide_eq_false, !bool_decide_eq_true.
  split; [by intros [_ ?]|]. intros H. split; [|done]. intros E. rewrite E in H. by destruct H.
Qed.

Lemma route_allows_spec name r :
  route_allows name r = true <->
  exists r', r = Some r' /\ (route_permission r' = Some (js "route:write") \/ route_permission r' = Some (js "w")) /\
    (path r' = Some (js "*") \/ path r' = Some name).
Proof.
  unfold route_allows. destruct r as [r|]; [|split; [done|by intros (? & ? & _)]].
  rewrite andb_true_iff, !orb_true_iff, !bool_decide_eq_true. split; [intros ?; by exists r|by intros (? & [= <-] & ?)].
Qed.

(** the repository a path names can be changed in a session exactly when it is signed in and it has a manager's
    permission, the permission for every repository or for this one, or a write route to every repository or to this
    one; names without a percent sign, whose second decoding changes nothing. *)
Theorem repository_writers name e rest isLoggedIn ps rs :
  name <> [] -> encodeURIComponent name = Some e -> is_utf16 name -> 37%N ∉ name ->
  canUpdateRepo (session_caches isLoggedIn (isManagerFromSession ps) ps rs) (repoNameFromPath (47%N :: e ++ 47%N :: rest)) = true <->
  isLoggedIn = true /\
  ((exists p, p ∈ ps /\ (permission_id p ∈ MANAGER_PERMISSION_IDS \/ permission_id p = js "canupdate:*" \/
                         permission_id p = js "canupdate:" ++ name)) \/
   (exists r, Some r ∈ rs /\ (route_permission r = Some (js "route:write") \/ route_permission r = Some (js "w")) /\
     (path r = Some (js "*") \/ path r = Some name))).
Proof.
  intros Hne He Hu H37. rewrite (repoNameFromPath_segment name e rest Hne He Hu). rewrite session_caches_manager. unfold canUpdateRepo.
  destruct isLoggedIn; [|by cbn; split; [|intros [? _]]].
  cbn [applySessionCaches cachedIsLoggedIn cachedIsManager cachedPermissions cachedRoutes andb negb].
  destruct (isManagerFromSession ps) eqn:Hm.
  - apply isManagerFromSession_spec in Hm as (p & Hp & Hid). split; [|done]. intros _. split; [done|]. left. exists p. naive_solver.
  - rewrite (bool_decide_eq_false_2 _ Hne), decode_plain by done. cbn [default].
    rewrite orb_true_iff, !existsb_exists. setoid_rewrite <- list_elem_of_In. split.
    + intros H. split; [done|]. destruct H as [(p & Hp & H%permission_allows_spec)|(r & Hr & (r' & -> & H)%route_allows_spec)].
      * left. exists p. naive_solver.
      * right. by exists r'.
    + intros [_ [(p & Hp & [H|H])|(r & Hr & H)]].
      * assert (isManagerFromSession ps = true); [apply isManagerFromSession_spec; by exists p|congruence].
      * left. exists p. split; [done|]. by apply permission_allows_spec.
      * right. exists (Some r). split; [done|]. apply route_allows_spec. by exists r.
Qed.

(** A write route to one repository, and a repository whose name has an escape in it. *)
Definition route_to (s : jstr) : option route := Some {| path := Some s; route_permission := Some (js "route:write") |}.

Lemma repository_writers_witness :
  canUpdateRepo (session_caches true (isManagerFromSession [PermissionText (js "view")]) [PermissionText (js "view")] [route_to (js "my repo")])
    (repoNameFromPath (js "/my%20repo/a.jar")) = true /\ repoNameFromPath (js "/my%20repo/a.jar") = js "my repo".
Proof.
  split; [|vm_compute; done].
  refine (proj2 (repository_writers (js "my repo") (js "my%20repo") (js "a.jar") true [PermissionText (js "view")] [route_to (js "my repo")] _ _ _ _) _).
  - done.
  - vm_compute. done.
  - apply is_utf16_forallb. vm_compute. done.
  - refine (proj1 (bool_decide_eq_true _) _). vm_compute. reflexivity.
  - split; [done|]. right. exists {| path := Some (js "my repo"); route_permission := Some (js "route:write") |}.
    split; [apply list_elem_of_here|]. split; [by left|by right].
Defined.

(** A second decoding loses a name with an escape. *)
Example decoded_twice :
  let name := repoNameFromPath (js "/50%2525/a.jar") in
  name = js "50%25" /\
  canUpdateRepo (session_caches true false [PermissionText (js "canupdate:50%25")] []) name = false.
Proof. vm_compute. done. Qed.
