(* ===== verification/MfaLogin.v ===== *)
(** * The second factor of a sign-in

    [internal/service/frontend/renop-html/js/mfa-login.js]: the challenge that follows a password or provider login.
    Challenges are shown, verified, withdrawn and expire while requests are in flight; [sequence] numbers the
    challenges and every [await] is an event.  A request's failure is an event of its own, so that of an aborted
    request may come at any time. *)
From S2P Require Export JsString.

(** ** State *)
Inductive factor := Totp | PasskeyFactor.

(** The server's description of a live challenge. *)
Record challenge := { has_totp : bool; has_passkey : bool }.

(** Where [showMFALogin] is suspended: at the status, or at the text of a refusal. *)
Inductive showing := AwaitStatus (current : nat) (silent : bool) | AwaitShowText.

(** Where [verifyFactor] is suspended; its controller has the call's number. *)
Inductive verifying :=
| AwaitConsent (f : factor) (current : nat)
| AwaitBegin (current : nat)
| AwaitAssertion (current : nat)
| AwaitResponse (f : factor) (current : nat)
| AwaitSession (f : factor) (current : nat)
| AwaitVerifyText.

Section mfa.
Context {session : Type}.

Inductive mfa_action :=
| Activated                       (* the second step is shown *)
| BeginAssertion
| SendFactor (f : factor)
| Withdraw                        (* the DELETE request *)
| Completed (s : session)         (* [mfaLoginCompleted] *)
| ChallengeError (key : option jstr).  (* [None]: the text for a passkey failure *)

Record mfa := {
  sequence : nat;
  active : bool;
  abort : option nat;
  aborted : list nat;
  deadline : option nat;              (* the challenge whose timer runs *)
  form_hidden : bool;
  password_hidden : bool;
  errorBox_hidden : bool;
  loginError_shown : bool;
  code_disabled : bool;
  passkey_hidden : bool;
  shows : gmap nat showing;
  verifies : gmap nat verifying;
  next_call : nat;
  log : list mfa_action               (* newest first *)
}.

Definition initial : mfa :=
  {| sequence := 0; active := false; abort := None; aborted := []; deadline := None; form_hidden := true;
     password_hidden := false; errorBox_hidden := true; loginError_shown := false; code_disabled := false;
     passkey_hidden := true; shows := ∅; verifies := ∅; next_call := 0; log := [] |}.

Definition set_shows (m : gmap nat showing) (s : mfa) : mfa :=
  {| sequence := sequence s; active := active s; abort := abort s; aborted := aborted s; deadline := deadline s;
     form_hidden := form_hidden s; password_hidden := password_hidden s; errorBox_hidden := errorBox_hidden s;
     loginError_shown := loginError_shown s; code_disabled := code_disabled s; passkey_hidden := passkey_hidden s;
     shows := m; verifies := verifies s; next_call := next_call s; log := log s |}.
Definition set_verifies (m : gmap nat verifying) (s : mfa) : mfa :=
  {| sequence := sequence s; active := active s; abort := abort s; aborted := aborted s; deadline := deadline s;
     form_hidden := form_hidden s; password_hidden := password_hidden s; errorBox_hidden := errorBox_hidden s;
     loginError_shown := loginError_shown s; code_disabled := code_disabled s; passkey_hidden := passkey_hidden s;
     shows := shows s; verifies := m; next_call := next_call s; log := log s |}.
Definition set_errors (box login : bool) (s : mfa) : mfa :=
  {| sequence := sequence s; active := active s; abort := abort s; aborted := aborted s; deadline := deadline s;
     form_hidden := form_hidden s; password_hidden := password_hidden s; errorBox_hidden := box;
     loginError_shown := login; code_disabled := code_disabled s; passkey_hidden := passkey_hidden s;
     shows := shows s; verifies := verifies s; next_call := next_call s; log := log s |}.
Definition add_log (a : mfa_action) (s : mfa) : mfa :=
  {| sequence := sequence s; active := active s; abort := abort s; aborted := aborted s; deadline := deadline s;
     form_hidden := form_hidden s; password_hidden := password_hidden s; errorBox_hidden := errorBox_hidden s;
     loginError_shown := loginError_shown s; code_disabled := code_disabled s; passkey_hidden := passkey_hidden s;
     shows := shows s; verifies := verifies s; next_call := next_call s; log := a :: log s |}.

(** ** Operations *)
Definition showChallengeError (key : option jstr) (s : mfa) : mfa :=
  add_log (ChallengeError key) (if active s then set_errors false (loginError_shown s) s else set_errors (errorBox_hidden s) true s).

(** [errorBox.textContent = ...; errorBox.hidden = false] *)
Definition show_in_box (key : option jstr) (s : mfa) : mfa := add_log (ChallengeError key) (set_errors false (loginError_shown s) s).

(** [resetMFALogin]; [had] is [active] at its start. *)
Definition resetMFALogin (s : mfa) : mfa :=
  let had := active s in
  let s :=
    {| sequence := S (sequence s); active := false; abort := None;
       aborted := match abort s with Some c => c :: aborted s | None => aborted s end; deadline := None;
       form_hidden := true; password_hidden := false; errorBox_hidden := true; loginError_shown := loginError_shown s;
       code_disabled := false; passkey_hidden := passkey_hidden s; shows := shows s; verifies := verifies s;
       next_call := next_call s; log := log s |} in
  if had then add_log Withdraw s else s.

(** [showMFALogin] up to its first [await]. *)
Definition showMFALogin (silent : bool) (s : mfa) : mfa :=
  {| sequence := S (sequence s); active := active s; abort := abort s; aborted := aborted s; deadline := deadline s;
     form_hidden := form_hidden s; password_hidden := password_hidden s; errorBox_hidden := errorBox_hidden s;
     loginError_shown := loginError_shown s; code_disabled := code_disabled s; passkey_hidden := passkey_hidden s;
     shows := <[next_call s := AwaitStatus (S (sequence s)) silent]> (shows s); verifies := verifies s;
     next_call := S (next_call s); log := log s |}.

Inductive status_answer := StatusFailed | StatusRefused | StatusLive (c : challenge).

(** The second step appears and its timer starts. *)
Definition activate (current : nat) (c : challenge) (s : mfa) : mfa :=
  {| sequence := sequence s; active := true; abort := abort s; aborted := aborted s; deadline := Some current;
     form_hidden := false; password_hidden := true; errorBox_hidden := true; loginError_shown := loginError_shown s;
     code_disabled := negb (has_totp c); passkey_hidden := negb (has_passkey c); shows := shows s;
     verifies := verifies s; next_call := next_call s; log := Activated :: log s |}.

(** The status and its body, whose two checks of the sequence are one here. *)
Definition status_answered (k : nat) (a : status_answer) (s : mfa) : mfa :=
  match shows s !! k with
  | Some (AwaitStatus current silent) =>
    let s := set_shows (delete k (shows s)) s in
    if negb (current =? sequence s) then s
    else
      match a with
      | StatusFailed => if silent then s else showChallengeError (Some (js "mfa.unavailable")) s
      | StatusRefused => if silent then s else set_shows (<[k := AwaitShowText]> (shows s)) s
      | StatusLive c => activate current c s
      end
  | _ => s
  end.

Definition show_text_ready (k : nat) (s : mfa) : mfa :=
  match shows s !! k with
  | Some AwaitShowText => showChallengeError (Some (js "mfa.invalid")) (set_shows (delete k (shows s)) s)
  | _ => s
  end.

Definition deadline_passed (s : mfa) : mfa :=
  match deadline s with
  | Some current =>
    let s := {| sequence := sequence s; active := active s; abort := abort s; aborted := aborted s; deadline := None;
                form_hidden := form_hidden s; password_hidden := password_hidden s;
                errorBox_hidden := errorBox_hidden s; loginError_shown := loginError_shown s;
                code_disabled := code_disabled s; passkey_hidden := passkey_hidden s; shows := shows s;
                verifies := verifies s; next_call := next_call s; log := log s |} in
    if negb (current =? sequence s) then s else showChallengeError (Some (js "mfa.invalid")) (resetMFALogin s)
  | None => s
  end.

(** [updateMFALoginPage] *)
Definition updateMFALoginPage (visible entering : bool) (s : mfa) : mfa :=
  if negb visible then resetMFALogin s else if entering then showMFALogin true s else s.

(** [verifyFactor] up to its first [await]. *)
Definition verifyFactor (f : factor) (s : mfa) : mfa :=
  if negb (active s) then s
  else
    let k := next_call s in
    {| sequence := sequence s; active := active s; abort := Some k;
       aborted := match abort s with Some c => c :: aborted s | None => aborted s end; deadline := deadline s;
       form_hidden := form_hidden s; password_hidden := password_hidden s; errorBox_hidden := true;
       loginError_shown := loginError_shown s; code_disabled := code_disabled s; passkey_hidden := passkey_hidden s;
       shows := shows s; verifies := <[k := AwaitConsent f (sequence s)]> (verifies s); next_call := S k; log := log s |}.

(** [current !== sequence || controller.signal.aborted] *)
Definition superseded (k current : nat) (s : mfa) : bool := negb (current =? sequence s) || bool_decide (k ∈ aborted s).

Definition end_verify (k : nat) (s : mfa) : mfa := set_verifies (delete k (verifies s)) s.
Definition go_on (k : nat) (v : verifying) (s : mfa) : mfa := set_verifies (<[k := v]> (verifies s)) s.

(** The [catch] block; [timeout] tells a [TimeoutError]. *)
Definition verify_failed (k current : nat) (f : factor) (timeout : bool) (s : mfa) : mfa :=
  let s := end_verify k s in
  if superseded k current s then s
  else
    let s := if timeout then resetMFALogin s else s in
    showChallengeError (match f with PasskeyFactor => None | Totp => Some (js "mfa.unavailable") end) s.

(** [throwIfAborted()] jumps to the [catch] block, which then returns. *)
Definition unless_aborted (k : nat) (next : mfa -> mfa) (s : mfa) : mfa :=
  if bool_decide (k ∈ aborted s) then end_verify k s else next s.

Definition consent_answered (k : nat) (given : bool) (s : mfa) : mfa :=
  match verifies s !! k with
  | Some (AwaitConsent f current) =>
    if negb given || superseded k current s then end_verify k s
    else
      match f with
      | PasskeyFactor => add_log BeginAssertion (go_on k (AwaitBegin current) s)
      | Totp => add_log (SendFactor Totp) (go_on k (AwaitResponse Totp current) s)
      end
  | _ => s
  end.

(** The challenge for the authenticator: refused, or with its options. *)
Definition begin_answered (k : nat) (ok : bool) (s : mfa) : mfa :=
  match verifies s !! k with
  | Some (AwaitBegin current) =>
    unless_aborted k (fun s => if ok then go_on k (AwaitAssertion current) s else go_on k AwaitVerifyText s) s
  | _ => s
  end.

Definition assertion_ready (k : nat) (s : mfa) : mfa :=
  match verifies s !! k with
  | Some (AwaitAssertion current) =>
    unless_aborted k (fun s => add_log (SendFactor PasskeyFactor) (go_on k (AwaitResponse PasskeyFactor current) s)) s
  | _ => s
  end.

Definition factor_answered (k : nat) (ok : bool) (s : mfa) : mfa :=
  match verifies s !! k with
  | Some (AwaitResponse f current) =>
    if superseded k current s then end_verify k s
    else go_on k (if ok then AwaitSession f current else AwaitVerifyText) s
  | _ => s
  end.

(** The session: the challenge is over without being withdrawn. *)
Definition session_decoded (k : nat) (d : session) (s : mfa) : mfa :=
  match verifies s !! k with
  | Some (AwaitSession f current) =>
    let s := end_verify k s in
    if superseded k current s then s
    else
      add_log (Completed d)
        (resetMFALogin
           {| sequence := sequence s; active := false; abort := abort s; aborted := aborted s; deadline := deadline s;
              form_hidden := form_hidden s; password_hidden := password_hidden s; errorBox_hidden := errorBox_hidden s;
              loginError_shown := loginError_shown s; code_disabled := code_disabled s; passkey_hidden := passkey_hidden s;
              shows := shows s; verifies := verifies s; next_call := next_call s; log := log s |})
  | _ => s
  end.

Definition verify_text_ready (k : nat) (s : mfa) : mfa :=
  match verifies s !! k with
  | Some AwaitVerifyText => show_in_box (Some (js "mfa.invalid")) (end_verify k s)
  | _ => s
  end.

(** Any request of a verification may fail instead. *)
Definition verification_failed (k : nat) (timeout : bool) (s : mfa) : mfa :=
  match verifies s !! k with
  | Some (AwaitConsent f current) | Some (AwaitResponse f current) | Some (AwaitSession f current) =>
    verify_failed k current f timeout s
  | Some (AwaitBegin current) | Some (AwaitAssertion current) => verify_failed k current PasskeyFactor timeout s
  | _ => s
  end.

Inductive mfa_event :=
| ShowMFA (silent : bool)
| StatusAnswered (k : nat) (a : status_answer)
| ShowTextReady (k : nat)
| DeadlinePassed
| UpdatePage (visible entering : bool)
| Restart                                  (* the restart button, or the page going away *)
| VerifyClicked (f : factor)
| ConsentAnswered (k : nat) (given : bool)
| BeginAnswered (k : nat) (ok : bool)
| AssertionReady (k : nat)
| FactorAnswered (k : nat) (ok : bool)
| SessionDecoded (k : nat) (d : session)
| VerifyTextReady (k : nat)
| VerificationFailed (k : nat) (timeout : bool).

Definition mfa_step (ev : mfa_event) (s : mfa) : mfa :=
  match ev with
  | ShowMFA silent => showMFALogin silent s
  | StatusAnswered k a => status_answered k a s
  | ShowTextReady k => show_text_ready k s
  | DeadlinePassed => deadline_passed s
  | UpdatePage visible entering => updateMFALoginPage visible entering s
  | Restart => resetMFALogin s
  | VerifyClicked f => verifyFactor f s
  | ConsentAnswered k given => consent_answered k given s
  | BeginAnswered k ok => begin_answered k ok s
  | AssertionReady k => assertion_ready k s
  | FactorAnswered k ok => factor_answered k ok s
  | SessionDecoded k d => session_decoded k d s
  | VerifyTextReady k => verify_text_ready k s
  | VerificationFailed k timeout => verification_failed k timeout s
  end.

Definition mfa_run (evs : list mfa_event) (s : mfa) : mfa := fold_left (fun s ev => mfa_step ev s) evs s.
End mfa.

(** ** Invariant *)
Section invariant.
Context {session : Type}.
Implicit Types (s : @mfa session).

(** Reads a log: whether a challenge is shown at its end, if every end of one follows its start. *)
Fixpoint balanced (lg : list (@mfa_action session)) : option bool :=
  match lg with
  | [] => Some false
  | Activated :: lg => balanced lg ≫= fun _ : bool => Some true
  | (Withdraw | Completed _) :: lg => balanced lg ≫= fun b : bool => if b then Some false else None
  | _ :: lg => balanced lg
  end.

Definition current_of (v : verifying) : option nat :=
  match v with
  | AwaitConsent _ c | AwaitBegin c | AwaitAssertion c | AwaitResponse _ c | AwaitSession _ c => Some c
  | AwaitVerifyText => None
  end.

Record mfa_ok s : Prop := {
  mo_balanced : balanced (log s) = Some (active s);
  mo_forms : form_hidden s = negb (active s) /\ password_hidden s = active s;
  mo_deadline : forall c, deadline s = Some c -> c <= sequence s /\ (c = sequence s -> active s = true);
  mo_verify : forall k v c, verifies s !! k = Some v -> current_of v = Some c ->
    c <= sequence s /\ (c = sequence s -> active s = true);
  mo_latest : forall k v, verifies s !! k = Some v -> k ∈ aborted s \/ abort s = Some k;
  mo_calls : forall k v, verifies s !! k = Some v -> k < next_call s
}.

Ltac mfa_simpl := cbn [set_shows set_verifies set_errors add_log sequence active abort aborted deadline form_hidden
  password_hidden errorBox_hidden loginError_shown shows verifies next_call log balanced mbind option_bind] in *.

Lemma log_ok a s : match a with ChallengeError _ | BeginAssertion | SendFactor _ => True | _ => False end ->
  mfa_ok s -> mfa_ok (add_log a s).
Proof. intros Ha []. constructor; mfa_simpl; try done. by destruct a. Qed.

Lemma errors_ok b l s : mfa_ok s -> mfa_ok (set_errors b l s).
Proof. intros []. by constructor. Qed.

Lemma shows_ok m s : mfa_ok s -> mfa_ok (set_shows m s).
Proof. intros []. by constructor. Qed.

Lemma show_error_ok key s : mfa_ok s -> mfa_ok (showChallengeError key s).
Proof. intros Hs. unfold showChallengeError. apply log_ok; [done|]. destruct (active s); by apply errors_ok. Qed.

Lemma box_ok key s : mfa_ok s -> mfa_ok (show_in_box key s).
Proof. intros Hs. by apply log_ok, errors_ok. Qed.

Lemma end_verify_ok k s : mfa_ok s -> mfa_ok (end_verify k s).
Proof.
  intros [H1 H2 H3 H4 H5 H6]. constructor; unfold end_verify; mfa_simpl; try done.
  - intros j v c [_ Hj]%lookup_delete_Some. by apply (H4 j v c).
  - intros j v [_ Hj]%lookup_delete_Some. by apply (H5 j v).
  - intros j v [_ Hj]%lookup_delete_Some. by apply (H6 j v).
Qed.

(** A verification moves on within its challenge. *)
Lemma go_on_ok k v v' s :
  verifies s !! k = Some v -> (current_of v' = current_of v \/ current_of v' = None) -> mfa_ok s -> mfa_ok (go_on k v' s).
Proof.
  intros Hk Hc [H1 H2 H3 H4 H5 H6]. constructor; unfold go_on; mfa_simpl; try done.
  - intros j w c [[<- <-]|[_ Hj]]%lookup_insert_Some; [|by apply (H4 j w c)]. destruct Hc as [->| ->]; [by apply (H4 k v c)|done].
  - intros j w [[<- <-]|[_ Hj]]%lookup_insert_Some; [by apply (H5 k v)|by apply (H5 j w)].
  - intros j w [[<- <-]|[_ Hj]]%lookup_insert_Some; [by apply (H6 k v)|by apply (H6 j w)].
Qed.

Lemma reset_ok s : mfa_ok s -> mfa_ok (resetMFALogin s).
Proof.
  intros [H1 H2 H3 H4 H5 H6]. unfold resetMFALogin. destruct (active s) eqn:Ha; constructor; mfa_simpl; rewrite ?H1, ?Ha; try done.
  all: try (intros k v c Hk Hc; destruct (H4 k v c Hk Hc) as [Hle _]; split; [|intros E]; lia).
  all: intros k v Hk; left; destruct (H5 k v Hk) as [?| ->]; [|apply list_elem_of_here]; case_match; [by apply list_elem_of_further|done].
Qed.

Lemma show_ok silent s : mfa_ok s -> mfa_ok (showMFALogin silent s).
Proof.
  intros [H1 H2 H3 H4 H5 H6]. unfold showMFALogin. constructor; mfa_simpl; try done.
  - intros c Hc. destruct (H3 c Hc). lia.
  - intros k v c Hk Hc. destruct (H4 k v c Hk Hc). lia.
  - intros k v Hk. specialize (H6 k v Hk). lia.
Qed.

Lemma activate_ok current c s : mfa_ok s -> current = sequence s -> mfa_ok (activate current c s).
Proof.
  intros [H1 H2 H3 H4 H5 H6] ->. unfold activate. constructor; mfa_simpl; try done.
  - by rewrite H1.
  - by intros ? [= <-].
  - intros k v c' Hk Hc. by destruct (H4 k v c' Hk Hc).
Qed.

Lemma verify_ok f s : mfa_ok s -> mfa_ok (verifyFactor f s).
Proof.
  intros Hs. unfold verifyFactor. destruct (active s) eqn:Ha; [|done]. cbn [negb]. cbv zeta.
  destruct Hs as [H1 H2 H3 H4 H5 H6]. rewrite Ha in *.
  constructor; mfa_simpl; rewrite ?Ha; try done.
  - intros k v c [[<- <-]|[_ Hk]]%lookup_insert_Some; [by intros [= <-]|by apply (H4 k v c)].
  - intros k v [[<- <-]|[_ Hk]]%lookup_insert_Some; [by right|]. left. destruct (H5 k v Hk) as [?| ->]; [|apply list_elem_of_here].
    case_match; [by apply list_elem_of_further|done].
  - intros k v [[<- <-]|[_ Hk]]%lookup_insert_Some; [lia|]. specialize (H6 k v Hk). lia.
Qed.

Lemma superseded_false k c s : superseded k c s = false -> c = sequence s /\ k ∉ aborted s.
Proof.
  unfold superseded. intros [Hc%negb_false_iff%Nat.eqb_eq Hk%bool_decide_eq_false]%orb_false_iff. done.
Qed.

(** The session of the live challenge ends it. *)
Lemma complete_ok d s :
  mfa_ok s -> active s = true ->
  let s' := add_log (Completed d) (resetMFALogin
     {| sequence := sequence s; active := false; abort := abort s; aborted := aborted s; deadline := deadline s;
        form_hidden := form_hidden s; password_hidden := password_hidden s; errorBox_hidden := errorBox_hidden s;
        loginError_shown := loginError_shown s; code_disabled := code_disabled s; passkey_hidden := passkey_hidden s;
        shows := shows s; verifies := verifies s; next_call := next_call s; log := log s |}) in
  mfa_ok s' /\ log s' = Completed d :: log s /\ active s' = false.
Proof.
  intros [H1 H2 H3 H4 H5 H6] Ha. cbv zeta. unfold resetMFALogin. mfa_simpl. split; [|done].
  constructor; mfa_simpl; try done; [by rewrite H1, Ha|..].
  - intros k v c Hk Hc. destruct (H4 k v c Hk Hc) as [Hle _]. split; [|intros E]; lia.
  - intros k v Hk. left. destruct (H5 k v Hk) as [?| ->]; [|apply list_elem_of_here]. case_match; [by apply list_elem_of_further|done].
Qed.

Lemma verify_failed_ok k c f t s : mfa_ok s -> mfa_ok (verify_failed k c f t s).
Proof.
  intros Hs. unfold verify_failed. apply (end_verify_ok k) in Hs. destruct (superseded _ _ _); [done|].
  apply show_error_ok. destruct t; [by apply reset_ok|done].
Qed.

Lemma mfa_step_ok ev s : mfa_ok s -> mfa_ok (mfa_step ev s).
Proof.
  intros Hs. destruct ev; cbn [mfa_step].
  - by apply show_ok.
  - unfold status_answered. destruct (shows s !! k) as [[current silent|]|]; try done.
    destruct (negb _) eqn:Hc; [by apply shows_ok|]. apply negb_false_iff, Nat.eqb_eq in Hc. destruct a as [| |c].
    + destruct silent; [by apply shows_ok|by apply show_error_ok, shows_ok].
    + destruct silent; by repeat apply shows_ok.
    + by apply activate_ok; [apply shows_ok|].
  - unfold show_text_ready. destruct (shows s !! k) as [[|]|]; [done|by apply show_error_ok, shows_ok|done].
  - unfold deadline_passed. destruct (deadline s) as [c|] eqn:Hd; [|done].
    assert (Hs' : mfa_ok {| sequence := sequence s; active := active s; abort := abort s; aborted := aborted s; deadline := None;
      form_hidden := form_hidden s; password_hidden := password_hidden s; errorBox_hidden := errorBox_hidden s;
      loginError_shown := loginError_shown s; code_disabled := code_disabled s; passkey_hidden := passkey_hidden s;
      shows := shows s; verifies := verifies s; next_call := next_call s; log := log s |}) by (destruct Hs; by constructor).
    destruct (negb _); [done|by apply show_error_ok, reset_ok].
  - unfold updateMFALoginPage. destruct visible; [|by apply reset_ok]. destruct entering; [by apply show_ok|done].
  - by apply reset_ok.
  - by apply verify_ok.
  - unfold consent_answered. destruct (verifies s !! k) as [[f c| | | | |]|] eqn:Hk; try done.
    destruct (_ || _); [by apply end_verify_ok|].
    destruct f; (apply log_ok; [done|]; eapply go_on_ok; [exact Hk|by left|done]).
  - unfold begin_answered, unless_aborted. destruct (verifies s !! k) as [[|c| | | |]|] eqn:Hk; try done.
    destruct (bool_decide _); [by apply end_verify_ok|]. destruct ok; (eapply go_on_ok; [exact Hk| |done]); [by left|by right].
  - unfold assertion_ready, unless_aborted. destruct (verifies s !! k) as [[| |c| | |]|] eqn:Hk; try done.
    destruct (bool_decide _); [by apply end_verify_ok|]. apply log_ok; [done|]. eapply go_on_ok; [exact Hk|by left|done].
  - unfold factor_answered. destruct (verifies s !! k) as [[| | |f c| |]|] eqn:Hk; try done.
    destruct (superseded _ _ _); [by apply end_verify_ok|]. destruct ok; (eapply go_on_ok; [exact Hk| |done]); [by left|by right].
  - unfold session_decoded. destruct (verifies s !! k) as [[| | | |f c|]|] eqn:Hk; try done.
    destruct (superseded _ _ _) eqn:Hsup; [by apply end_verify_ok|]. apply superseded_false in Hsup as [Hc _].
    apply complete_ok; [by apply end_verify_ok|]. by apply (mo_verify _ Hs k _ c Hk eq_refl).
  - unfold verify_text_ready. destruct (verifies s !! k) as [[]|]; try done. by apply box_ok, end_verify_ok.
  - unfold verification_failed. destruct (verifies s !! k) as [[]|]; try done; by apply verify_failed_ok.
Qed.

Lemma mfa_run_ok evs : mfa_ok (mfa_run evs (initial (session := session))).
Proof.
  apply (run_invariant mfa_step mfa_ok); [intros; by apply mfa_step_ok|]. constructor; cbn; try done; by intros ?; rewrite lookup_empty.
Qed.
End invariant.

(** ** Properties *)
Section completions.
Context {session : Type}.
Implicit Types (s : @mfa session).

Definition completions s : list session := omap (fun a => match a with Completed d => Some d | _ => None end) (log s).

Lemma completions_error key s : completions (showChallengeError key s) = completions s.
Proof. unfold showChallengeError. by destruct (active s). Qed.

Lemma completions_reset s : completions (resetMFALogin s) = completions s.
Proof. unfold resetMFALogin. by destruct (active s). Qed.

Lemma completions_failed k c f t s : completions (verify_failed k c f t s) = completions s.
Proof.
  unfold verify_failed. destruct (superseded _ _ _); [done|]. rewrite completions_error. destruct t; [by rewrite completions_reset|done].
Qed.

(** Only a decoded session completes a login. *)
Lemma completions_step ev s :
  completions (mfa_step ev s) = completions s \/
  exists k d f, ev = SessionDecoded k d /\ verifies s !! k = Some (AwaitSession f (sequence s)) /\ (k ∉ aborted s) /\
    completions (mfa_step ev s) = d :: completions s.
Proof.
  destruct ev; cbn [mfa_step]; try (left; done).
  - left. unfold status_answered. destruct (shows s !! k) as [[current silent|]|]; try done. destruct (negb _); [done|].
    destruct a as [| |c]; [destruct silent; [done|by rewrite completions_error]|by destruct silent|done].
  - left. unfold show_text_ready. destruct (shows s !! k) as [[|]|]; [done|by rewrite completions_error|done].
  - left. unfold deadline_passed. destruct (deadline s); [|done]. destruct (negb _); [done|].
    by rewrite completions_error, completions_reset.
  - left. unfold updateMFALoginPage. destruct visible; [by destruct entering|by apply completions_reset].
  - left. apply completions_reset.
  - left. unfold verifyFactor. by destruct (active s).
  - left. unfold consent_answered. destruct (verifies s !! k) as [[f c| | | | |]|]; try done. destruct (_ || _); [done|by destruct f].
  - left. unfold begin_answered, unless_aborted. destruct (verifies s !! k) as [[]|]; try done.
    destruct (bool_decide _); [done|by destruct ok].
  - left. unfold assertion_ready, unless_aborted. destruct (verifies s !! k) as [[]|]; try done. by destruct (bool_decide _).
  - left. unfold factor_answered. destruct (verifies s !! k) as [[]|]; try done. by destruct (superseded _ _ _).
  - unfold session_decoded. destruct (verifies s !! k) as [[| | | |f c|]|] eqn:Hk; try (left; done).
    destruct (superseded k c (end_verify k s)) eqn:Hsup; [by left|]. apply superseded_false in Hsup as [-> Hab].
    right. exists k, d, f. split_and!; try done.
  - left. unfold verify_text_ready. by destruct (verifies s !! k) as [[]|].
  - left. unfold verification_failed. destruct (verifies s !! k) as [[]|]; try done; by rewrite completions_failed.
Qed.

(** Past its consent, a verification had it given. *)
Definition past_consent (v : verifying) : bool := match v with AwaitConsent _ _ => false | _ => true end.

Lemma verifies_reset s : verifies (resetMFALogin s) = verifies s.
Proof. unfold resetMFALogin. by destruct (active s). Qed.

Lemma verifies_error key s : verifies (showChallengeError key s) = verifies s.
Proof. unfold showChallengeError. by destruct (active s). Qed.

Lemma verifies_failed k c f t s : verifies (verify_failed k c f t s) = delete k (verifies s).
Proof.
  unfold verify_failed. cbv zeta. destruct (superseded _ _ _); [done|]. rewrite verifies_error. destruct t; [by rewrite verifies_reset|done].
Qed.

Inductive verify_change s (ev : @mfa_event session) : gmap nat verifying -> Prop :=
| vc_same : verify_change s ev (verifies s)
| vc_end j : verify_change s ev (delete j (verifies s))
| vc_start f c : verify_change s ev (<[next_call s := AwaitConsent f c]> (verifies s))
| vc_consent j w : ev = ConsentAnswered j true -> verify_change s ev (<[j := w]> (verifies s))
| vc_go j w w' : verifies s !! j = Some w -> past_consent w = true -> verify_change s ev (<[j := w']> (verifies s)).

Lemma verifies_change ev s : verify_change s ev (verifies (mfa_step ev s)).
Proof.
  destruct ev; cbn [mfa_step]; try (exact (vc_same s _)).
  - unfold status_answered. destruct (shows s !! k) as [[c sl|]|]; try exact (vc_same s _). cbv zeta. destruct (negb _); [exact (vc_same s _)|].
    destruct a; [destruct sl; [|rewrite verifies_error]; exact (vc_same s _)|destruct sl; exact (vc_same s _)|exact (vc_same s _)].
  - unfold show_text_ready. destruct (shows s !! k) as [[]|]; try exact (vc_same s _). rewrite verifies_error. exact (vc_same s _).
  - unfold deadline_passed. destruct (deadline s); [|exact (vc_same s _)]. cbv zeta. destruct (negb _); [exact (vc_same s _)|].
    rewrite verifies_error, verifies_reset. exact (vc_same s _).
  - unfold updateMFALoginPage. destruct visible; [destruct entering; exact (vc_same s _)|]. cbn [negb]. rewrite verifies_reset. exact (vc_same s _).
  - unfold resetMFALogin. destruct (active s); exact (vc_same s _).
  - unfold verifyFactor. destruct (negb _); [exact (vc_same s _)|exact (vc_start s _ _ _)].
  - unfold consent_answered. destruct (verifies s !! k) as [[f c| | | | |]|] eqn:Hk; try exact (vc_same s _).
    destruct given; cbn [negb orb]; [|exact (vc_end s _ _)]. destruct (superseded _ _ _); [exact (vc_end s _ _)|].
    by destruct f; apply vc_consent.
  - unfold begin_answered, unless_aborted. destruct (verifies s !! k) as [[]|] eqn:Hk; try exact (vc_same s _).
    destruct (bool_decide _); [exact (vc_end s _ _)|]. by destruct ok; eapply vc_go.
  - unfold assertion_ready, unless_aborted. destruct (verifies s !! k) as [[]|] eqn:Hk; try exact (vc_same s _).
    destruct (bool_decide _); [exact (vc_end s _ _)|]. by eapply vc_go.
  - unfold factor_answered. destruct (verifies s !! k) as [[]|] eqn:Hk; try exact (vc_same s _).
    destruct (superseded _ _ _); [exact (vc_end s _ _)|]. by eapply vc_go.
  - unfold session_decoded. destruct (verifies s !! k) as [[]|] eqn:Hk; try exact (vc_same s _). cbv zeta.
    destruct (superseded _ _ _); exact (vc_end s _ _).
  - unfold verify_text_ready. destruct (verifies s !! k) as [[]|] eqn:Hk; try exact (vc_same s _). exact (vc_end s _ _).
  - unfold verification_failed. destruct (verifies s !! k) as [[]|] eqn:Hk; try exact (vc_same s _); rewrite verifies_failed; exact (vc_end s _ _).
Qed.

Lemma verifies_step ev s k v :
  mfa_ok s -> verifies (mfa_step ev s) !! k = Some v -> past_consent v = true ->
  (exists v', verifies s !! k = Some v' /\ past_consent v' = true) \/ ev = ConsentAnswered k true.
Proof.
  intros Hs. destruct (verifies_change ev s) as [|j|f c|j w ->|j w w' Hj Hw].
  - intros Hk Hv. left. by exists v.
  - intros [_ Hk]%lookup_delete_Some Hv. left. by exists v.
  - intros [[_ <-]|[_ Hk]]%lookup_insert_Some Hv; [done|]. left. by exists v.
  - intros [[-> _]|[_ Hk]]%lookup_insert_Some Hv; [by right|]. left. by exists v.
  - intros [[-> _]|[_ Hk]]%lookup_insert_Some Hv; left; [by exists w|by exists v].
Qed.

(** C9: every challenge shown ends at most once, by the session of a factor or by its withdrawal, and none ends without
    having been shown; the page shows exactly one of the two steps; at most one verification can still complete, and
    one completes only for the challenge it was started for, while that challenge is live. *)
Theorem mfa_challenges_end_once evs :
  let s := mfa_run evs (initial (session := session)) in
  balanced (log s) = Some (active s) /\
  form_hidden s = negb (active s) /\ password_hidden s = active s /\
  (forall j k v w, verifies s !! j = Some v -> verifies s !! k = Some w -> j ∉ aborted s -> k ∉ aborted s -> j = k) /\
  (forall ev, completions (mfa_step ev s) = completions s \/
     exists k d f, ev = SessionDecoded k d /\ active s = true /\ (k ∉ aborted s) /\
       verifies s !! k = Some (AwaitSession f (sequence s)) /\ completions (mfa_step ev s) = d :: completions s /\
       active (mfa_step ev s) = false).
Proof.
  intros s. pose proof (mfa_run_ok evs) as Hs. fold s in Hs. clearbody s. pose proof Hs as [H1 [H2 H3] _ H4 H5 _].
  split_and!; try done.
  - intros j k v w Hj Hk Hja Hka. destruct (H5 j v Hj) as [?|E]; [done|]. destruct (H5 k w Hk) as [?|E']; [done|]. congruence.
  - intros ev. destruct (completions_step ev s) as [|(k & d & f & -> & Hk & Hab & Hc)]; [by left|]. right.
    destruct (H4 k _ (sequence s) Hk eq_refl) as [_ Ha]. exists k, d, f. split_and!; try done; [by apply Ha|].
    cbn [mfa_step]. unfold session_decoded. rewrite Hk. unfold superseded. cbn [end_verify set_verifies sequence aborted].
    rewrite Nat.eqb_refl, bool_decide_eq_false_2 by done. done.
Qed.

End completions.

(** A challenge verified with a code while an earlier attempt is still at the consent dialog. *)
Definition code_login : list (mfa_event (session := jstr)) :=
  [ShowMFA false; StatusAnswered 0 (StatusLive {| has_totp := true; has_passkey := true |}); VerifyClicked PasskeyFactor;
   VerifyClicked Totp; ConsentAnswered 1 true; ConsentAnswered 2 true; FactorAnswered 2 true].

Example code_login_log :
  let s := mfa_run code_login initial in
  log s = [SendFactor Totp; Activated] /\ log (mfa_step (SessionDecoded 2 (js "ann")) s) = [Completed (js "ann"); SendFactor Totp; Activated] /\
  log (mfa_step Restart s) = [Withdraw; SendFactor Totp; Activated].
Proof. vm_compute. done. Qed.

Lemma mfa_challenges_end_once_witness :
  let s := mfa_run code_login initial in
  (forall k v w, verifies s !! 2 = Some v -> verifies s !! k = Some w -> 2 ∉ aborted s -> k ∉ aborted s -> 2 = k) /\
  (completions (mfa_step (SessionDecoded 2 (js "ann")) s) = completions s \/
   exists k d f, SessionDecoded 2 (js "ann") = SessionDecoded k d /\ active s = true /\ (k ∉ aborted s) /\
     verifies s !! k = Some (AwaitSession f (sequence s)) /\
     completions (mfa_step (SessionDecoded 2 (js "ann")) s) = d :: completions s /\
     active (mfa_step (SessionDecoded 2 (js "ann")) s) = false).
Proof.
  destruct (mfa_challenges_end_once code_login) as (_ & _ & _ & H & H'). split; [intros k v w; exact (H 2 k v w)|exact (H' _)].
Defined.
