(* ===== verification/Session.v ===== *)
(** * The browser session

    [internal/service/frontend/renop-html/js/auth.js]: restoring, starting and ending a session, composed with the
    second factor ([MfaLogin]), the way back from the sign-in page ([LoginRoute]) and the permission caches
    ([Permissions]).  Every [await] is an event; the sign-in policies, the captcha and the server answer through
    events.  The main page's tab handler, the dashboard and the profile cache are told what happened in the log. *)
From S2P Require Export Prelude JsString LoginRoute Permissions MfaLogin.

(** ** State *)
Inductive reason := Expired | Kicked | AccountDeleted | Silent | Manual.

#[export] Instance reason_eq_dec : EqDecision reason.
Proof. solve_decision. Defined.

(** The part of a public profile the navigation shows as a name. *)
Record profile := { nickname : option jstr }.

Inductive auth_action :=
| RouteExit (status : Z)
| LogoutRequest
| LoginRequest (name secret : jstr)
| FidoBegin (name : jstr)
| FidoFinish
| SwitchTab (tab : jstr)
| AuthChanged (isLoggedIn isManager : bool) (username : jstr)
| Alert (key : jstr)
| ProfileRequest (username : jstr)
| ClearProfiles
| StopDashboard.

(** What the page shows of the session; the managers' and users' controls as one each. *)
Record view := {
  login_btn : bool;
  user_info : bool;
  manager_only : bool;
  user_only : bool;
  usernameDisplay : jstr;
  loginError : option jstr               (* the key, or the server's text *)
}.

Record nav := { navProfile : option profile; navProfileLoadSequence : nat; loads : list nat }.

Inductive login_phase := LoginConsent (name secret : jstr) | LoginPost (name : jstr) | LoginText.

Inductive fido_phase :=
| FidoConsent (name : jstr) | FidoProof (name : jstr) | FidoBeginAnswer (name : jstr) | FidoBeginText
| FidoOptions (name : jstr) | FidoAssertion (name : jstr) | FidoFinishAnswer (name : jstr) | FidoDecode (name : jstr)
| FidoFinishText | FidoChallenge.

Record calls := {
  fidoLoginAbort : option nat;
  aborted_fidos : list nat;
  reads : gmap nat bool;                 (* [initializeSession]s at their answer, with [wasLoggedIn] *)
  logins : gmap nat login_phase;
  fidos : gmap nat fido_phase;
  next : nat
}.

Record auth := {
  cached : caches;
  shown : view;
  storage : gmap jstr jstr;
  handler : bool;                        (* [switchTabHandler] is set *)
  navigation : nav;
  language : jstr;
  logoutPromise : option (reason * bool);
  pages : browser_history;
  second : @mfa (option details);
  running : calls;
  actions : list auth_action             (* newest first *)
}.

Section setters.
Implicit Types s : auth.

Definition set_cached c s := {| cached := c; shown := shown s; storage := storage s; handler := handler s;
  navigation := navigation s; language := language s; logoutPromise := logoutPromise s; pages := pages s;
  second := second s; running := running s; actions := actions s |}.
Definition set_shown v s := {| cached := cached s; shown := v; storage := storage s; handler := handler s;
  navigation := navigation s; language := language s; logoutPromise := logoutPromise s; pages := pages s;
  second := second s; running := running s; actions := actions s |}.
Definition set_storage m s := {| cached := cached s; shown := shown s; storage := m; handler := handler s;
  navigation := navigation s; language := language s; logoutPromise := logoutPromise s; pages := pages s;
  second := second s; running := running s; actions := actions s |}.
Definition set_handler s := {| cached := cached s; shown := shown s; storage := storage s; handler := true;
  navigation := navigation s; language := language s; logoutPromise := logoutPromise s; pages := pages s;
  second := second s; running := running s; actions := actions s |}.
Definition set_nav n s := {| cached := cached s; shown := shown s; storage := storage s; handler := handler s;
  navigation := n; language := language s; logoutPromise := logoutPromise s; pages := pages s;
  second := second s; running := running s; actions := actions s |}.
Definition set_language l s := {| cached := cached s; shown := shown s; storage := storage s; handler := handler s;
  navigation := navigation s; language := l; logoutPromise := logoutPromise s; pages := pages s;
  second := second s; running := running s; actions := actions s |}.
Definition set_logout p s := {| cached := cached s; shown := shown s; storage := storage s; handler := handler s;
  navigation := navigation s; language := language s; logoutPromise := p; pages := pages s;
  second := second s; running := running s; actions := actions s |}.
Definition set_pages p s := {| cached := cached s; shown := shown s; storage := storage s; handler := handler s;
  navigation := navigation s; language := language s; logoutPromise := logoutPromise s; pages := p;
  second := second s; running := running s; actions := actions s |}.
Definition set_second m s := {| cached := cached s; shown := shown s; storage := storage s; handler := handler s;
  navigation := navigation s; language := language s; logoutPromise := logoutPromise s; pages := pages s;
  second := m; running := running s; actions := actions s |}.
Definition set_running r s := {| cached := cached s; shown := shown s; storage := storage s; handler := handler s;
  navigation := navigation s; language := language s; logoutPromise := logoutPromise s; pages := pages s;
  second := second s; running := r; actions := actions s |}.
Definition act a s := {| cached := cached s; shown := shown s; storage := storage s; handler := handler s;
  navigation := navigation s; language := language s; logoutPromise := logoutPromise s; pages := pages s;
  second := second s; running := running s; actions := a :: actions s |}.
End setters.

(** Storage entries. *)
Definition k_username : jstr := js "username".
Definition k_selected : jstr := js "selectedTab".
Definition overview : jstr := js "overview".
Definition remembered (s : auth) : jstr := default [] (storage s !! k_username).
Definition setItem (k v : jstr) (s : auth) : auth := set_storage (<[k := v]> (storage s)) s.
Definition removeItem (k : jstr) (s : auth) : auth := set_storage (delete k (storage s)) s.

Definition set_error (e : option jstr) (s : auth) : auth :=
  let v := shown s in
  set_shown {| login_btn := login_btn v; user_info := user_info v; manager_only := manager_only v; user_only := user_only v;
               usernameDisplay := usernameDisplay v; loginError := e |} s.

(** ** The name in the navigation *)
Section session.
Context {UC : UnicodeCase} {UA : UrlApi}.
(** [t('profile.unnamedUser')] *)
Context (unnamedUser : jstr -> jstr).

Definition profileDisplayName (lang : jstr) (p : option profile) : jstr :=
  str_or (trim (default [] (p ≫= nickname))) (unnamedUser lang).

Definition applyNavProfile (p : option profile) (s : auth) : auth :=
  let n := navigation s in
  let v := shown s in
  set_shown {| login_btn := login_btn v; user_info := user_info v; manager_only := manager_only v; user_only := user_only v;
               usernameDisplay := profileDisplayName (language s) p; loginError := loginError v |}
    (set_nav {| navProfile := p; navProfileLoadSequence := navProfileLoadSequence n; loads := loads n |} s).

(** [refreshNavProfile] up to its answer. *)
Definition refreshNavProfile (username : jstr) (s : auth) : auth :=
  let n := navigation s in
  let sequence := S (navProfileLoadSequence n) in
  act (ProfileRequest username)
    (set_nav {| navProfile := navProfile n; navProfileLoadSequence := sequence; loads := sequence :: loads n |} s).

(** One of the loads settles; [None] when it failed. *)
Definition profile_answered (sequence : nat) (answer : option profile) (s : auth) : auth :=
  let n := navigation s in
  if negb (bool_decide (sequence ∈ loads n)) then s
  else
    let s := set_nav {| navProfile := navProfile n; navProfileLoadSequence := navProfileLoadSequence n;
                        loads := list_difference (loads n) [sequence] |} s in
    if negb (sequence =? navProfileLoadSequence n) then s
    else
      match answer with
      | Some p => applyNavProfile (Some p) s
      | None => match navProfile n with None => applyNavProfile None s | Some _ => s end
      end.

Definition bump_sequence (s : auth) : auth :=
  let n := navigation s in
  set_nav {| navProfile := navProfile n; navProfileLoadSequence := S (navProfileLoadSequence n); loads := loads n |} s.

Definition user_profile_changed (username : jstr) (p : option profile) (s : auth) : auth :=
  if negb (bool_decide (username = to_lower (remembered s))) then s else applyNavProfile p (bump_sequence s).

Definition user_profiles_invalidated (usernames : list jstr) (s : auth) : auth :=
  if bool_decide (to_lower (remembered s) ∈ usernames) then refreshNavProfile (to_lower (remembered s)) s else s.

Definition language_changed (l : jstr) (s : auth) : auth :=
  let s := set_language l s in
  match navProfile (navigation s) with
  | Some p => if cachedIsLoggedIn (cached s) then applyNavProfile (Some p) s else s
  | None => s
  end.

(** ** The session *)
Definition requestSwitchTab (tab : jstr) (s : auth) : auth :=
  let s := act (SwitchTab tab) s in if handler s then s else setItem k_selected tab s.

Definition show_session (isLoggedIn isManager : bool) (s : auth) : auth :=
  let v := shown s in
  set_shown {| login_btn := negb isLoggedIn; user_info := isLoggedIn; manager_only := isManager; user_only := isLoggedIn;
               usernameDisplay := if isLoggedIn then usernameDisplay v else []; loginError := loginError v |} s.

Definition updateAuthUI (isLoggedIn : bool) (name : jstr) (isManager : bool) (ps : list permission) (rs : list (option route))
    (s : auth) : auth :=
  let s := set_cached (session_caches isLoggedIn isManager ps rs) s in
  let isManager := cachedIsManager (cached s) in
  let s := show_session isLoggedIn isManager s in
  let s := if isLoggedIn then refreshNavProfile name s
           else set_nav {| navProfile := None; navProfileLoadSequence := navProfileLoadSequence (navigation s);
                           loads := loads (navigation s) |} s in
  let currentTabId := opt_str_or (storage s !! k_selected) overview in
  let s := if negb isLoggedIn || isManagerTab currentTabId && negb isManager
           then requestSwitchTab overview (setItem k_selected overview s) else s in
  act (AuthChanged isLoggedIn isManager name) s.

Definition signed_out (s : auth) : auth := updateAuthUI false [] false [] [] s.

(** [logout] up to the server's answer; a running logout is shared. *)
Definition logout (r : reason) (s : auth) : auth :=
  let s := act (RouteExit (match r with Expired | Kicked => 401 | _ => 0 end)%Z) s in
  match logoutPromise s with
  | Some _ => s
  | None => act LogoutRequest (set_logout (Some (r, negb (bool_decide (remembered s = [])))) s)
  end.

Definition logout_alert (r : reason) (wasLoggedIn revocationFailed : bool) : option jstr :=
  if wasLoggedIn && revocationFailed then Some (js "oauth.logoutRevokeFailed")
  else if wasLoggedIn && bool_decide (r = Expired \/ r = Kicked) then Some (js "login.sessionExpired")
  else if wasLoggedIn && negb (bool_decide (r = Silent)) && negb (bool_decide (r = AccountDeleted)) then Some (js "login.signedOut")
  else None.

(** The rest of [performLogout]; a failed request counts as an answer without a provider. *)
Definition logout_answered (revocationFailed : bool) (s : auth) : auth :=
  match logoutPromise s with
  | None => s
  | Some (r, wasLoggedIn) =>
    let s := removeItem (js "token-secret") (removeItem (js "token-name") (removeItem k_username (removeItem (js "session-token") s))) in
    let s := signed_out (act ClearProfiles (bump_sequence s)) in
    let s := match logout_alert r wasLoggedIn revocationFailed with Some key => act (Alert key) s | None => s end in
    let s := setItem k_selected overview (act StopDashboard s) in
    set_logout None (requestSwitchTab overview s)
  end.

(** *** Restoring *)
Definition with_reads (m : gmap nat bool) (s : auth) : auth :=
  let r := running s in
  set_running {| fidoLoginAbort := fidoLoginAbort r; aborted_fidos := aborted_fidos r; reads := m; logins := logins r;
                 fidos := fidos r; next := next r |} s.
Definition with_next (s : auth) : auth :=
  let r := running s in
  set_running {| fidoLoginAbort := fidoLoginAbort r; aborted_fidos := aborted_fidos r; reads := reads r; logins := logins r;
                 fidos := fidos r; next := S (next r) |} s.

Definition initializeSession (s : auth) : auth :=
  let s := removeItem (js "session-token") s in
  with_next (with_reads (<[next (running s) := negb (bool_decide (remembered s = []))]> (reads (running s))) s).

Inductive me_answer := MeOk (d : option details) | MeStatus (status : Z) | MeFailed.

Definition details_permissions (d : option details) : list permission := default [] (d ≫= permissions).
Definition details_routes (d : option details) : list (option route) := default [] (d ≫= routes).

Definition sign_in (name : jstr) (d : option details) (s : auth) : auth :=
  updateAuthUI true name (isManagerFromSession (details_permissions d)) (details_permissions d) (details_routes d) s.

Definition me_answered (k : nat) (a : me_answer) (s : auth) : auth :=
  match reads (running s) !! k with
  | None => s
  | Some wasLoggedIn =>
    let s := with_reads (delete k (reads (running s))) s in
    match a with
    | MeOk d =>
      let serverName := opt_str_or (d ≫= access_name) (remembered s) in
      let s := if bool_decide (serverName = []) then s else setItem k_username serverName s in
      sign_in serverName d s
    | MeStatus status =>
      if bool_decide (status = 401%Z) then (if wasLoggedIn : bool then logout Expired s else signed_out s)
      else let username := remembered s in updateAuthUI (negb (bool_decide (username = []))) username false [] [] s
    | MeFailed => signed_out s
    end
  end.

(** *** Starting *)
Definition set_fidos (m : gmap nat fido_phase) (s : auth) : auth :=
  let r := running s in
  set_running {| fidoLoginAbort := fidoLoginAbort r; aborted_fidos := aborted_fidos r; reads := reads r; logins := logins r;
                 fidos := m; next := next r |} s.
Definition set_logins (m : gmap nat login_phase) (s : auth) : auth :=
  let r := running s in
  set_running {| fidoLoginAbort := fidoLoginAbort r; aborted_fidos := aborted_fidos r; reads := reads r; logins := m;
                 fidos := fidos r; next := next r |} s.
Definition set_abort (a : option nat) (s : auth) : auth :=
  let r := running s in
  set_running {| fidoLoginAbort := a; aborted_fidos := aborted_fidos r; reads := reads r; logins := logins r;
                 fidos := fidos r; next := next r |} s.

(** [cancelFidoLogin], and the [popstate] listener; the controller stays. *)
Definition cancelFidoLogin (s : auth) : auth :=
  let r := running s in
  match fidoLoginAbort r with
  | Some k => set_running {| fidoLoginAbort := fidoLoginAbort r; aborted_fidos := k :: aborted_fidos r; reads := reads r;
                             logins := logins r; fidos := fidos r; next := next r |} s
  | None => s
  end.

(** [leaveLoginPage] and its [popstate]. *)
Definition leave_login_page (s : auth) : auth :=
  if isLoginPath (pathname (current (pages s))) then cancelFidoLogin (set_pages (leaveLoginPage (pages s)) s) else s.

Definition completeLogin (session : option details) (fallback : jstr) (s : auth) : auth :=
  let name := opt_str_or (session ≫= access_name) fallback in
  let s := removeItem (js "session-token") (removeItem (js "token-secret") (removeItem (js "token-name") s)) in
  let s := sign_in name session (setItem k_username name s) in
  leave_login_page (act (Alert (js "login.welcomeBack")) s).

Definition show_mfa (s : auth) : auth := set_second (showMFALogin false (second s)) s.

Definition login (name secret : jstr) (s : auth) : auth :=
  with_next (set_logins (<[next (running s) := LoginConsent name secret]> (logins (running s))) s).

Inductive login_event :=
| LoginConsentAnswered (given : bool)
| LoginOk (d : option details)
| LoginMfaRequired
| LoginRefused
| LoginTextReady (text : jstr)
| LoginFailed.

Definition end_login (k : nat) (s : auth) : auth := set_logins (delete k (logins (running s))) s.
Definition login_goes_on (k : nat) (p : login_phase) (s : auth) : auth := set_logins (<[k := p]> (logins (running s))) s.

Definition login_step (k : nat) (ev : login_event) (s : auth) : auth :=
  match logins (running s) !! k, ev with
  | Some (LoginConsent name secret), LoginConsentAnswered given =>
    if given then act (LoginRequest name secret) (login_goes_on k (LoginPost name) (set_error None s)) else end_login k s
  | Some (LoginPost name), LoginOk d => completeLogin d name (end_login k s)
  | Some (LoginPost name), LoginMfaRequired => show_mfa (end_login k s)
  | Some (LoginPost name), LoginRefused => login_goes_on k LoginText s
  | Some LoginText, LoginTextReady text => set_error (Some text) (end_login k s)
  | Some (LoginPost _), LoginFailed | Some LoginText, LoginFailed => set_error (Some (js "login.loginError")) (end_login k s)
  | _, _ => s
  end.

(** *** Passkeys *)
Definition fidoLogin (supported : bool) (username : jstr) (s : auth) : auth :=
  let s := set_error None (cancelFidoLogin s) in
  if negb supported then set_error (Some (js "login.fidoUnsupported")) s
  else
    let k := next (running s) in
    with_next (set_fidos (<[k := FidoConsent (trim username)]> (fidos (running s))) (set_abort (Some k) s)).

Inductive fido_event :=
| FidoConsentAnswered (given : bool)
| ProofAcquired
| BeginAccepted | BeginRefused
| OptionsDecoded (usable : bool)
| AssertionGiven
| FinishAccepted | FinishMfaRequired | FinishRefused
| FidoSessionDecoded (d : option details)
| FidoTextReady (text : jstr)
| ChallengeShown
| FidoFailed (text : jstr).

(** The end of the call with its [finally]. *)
Definition end_fido (k : nat) (s : auth) : auth :=
  let s := set_fidos (delete k (fidos (running s))) s in
  if bool_decide (fidoLoginAbort (running s) = Some k) then set_abort None s else s.

Definition fido_aborted (k : nat) (s : auth) : bool := bool_decide (k ∈ aborted_fidos (running s)).

Definition fido_goes_on (k : nat) (p : fido_phase) (s : auth) : auth := set_fidos (<[k := p]> (fidos (running s))) s.

(** A step of the call; in the phases with a check an aborted controller ends it silently. *)
Definition fido_step (k : nat) (ev : fido_event) (s : auth) : auth :=
  match fidos (running s) !! k, ev with
  | Some _, FidoFailed text => end_fido k (if fido_aborted k s then s else set_error (Some text) s)
  | Some FidoBeginText, FidoTextReady text | Some FidoFinishText, FidoTextReady text => end_fido k (set_error (Some text) s)
  | Some FidoChallenge, ChallengeShown => end_fido k s
  | Some phase, _ =>
    if fido_aborted k s then
      match phase with FidoBeginText | FidoFinishText | FidoChallenge => s | _ => end_fido k s end
    else
      match phase, ev with
      | FidoConsent name, FidoConsentAnswered given => if given then fido_goes_on k (FidoProof name) s else end_fido k s
      | FidoProof name, ProofAcquired => act (FidoBegin name) (fido_goes_on k (FidoBeginAnswer name) s)
      | FidoBeginAnswer name, BeginAccepted => fido_goes_on k (FidoOptions name) s
      | FidoBeginAnswer name, BeginRefused => fido_goes_on k FidoBeginText s
      | FidoOptions name, OptionsDecoded true => fido_goes_on k (FidoAssertion name) s
      | FidoOptions name, OptionsDecoded false => end_fido k (set_error (Some (js "login.fidoFailed")) s)
      | FidoAssertion name, AssertionGiven => act FidoFinish (fido_goes_on k (FidoFinishAnswer name) s)
      | FidoFinishAnswer name, FinishAccepted => fido_goes_on k (FidoDecode name) s
      | FidoFinishAnswer name, FinishMfaRequired => show_mfa (fido_goes_on k FidoChallenge s)
      | FidoFinishAnswer name, FinishRefused => fido_goes_on k FidoFinishText s
      | FidoDecode name, FidoSessionDecoded d => end_fido k (completeLogin d name s)
      | _, _ => s
      end
  | None, _ => s
  end.

(** *** The second factor *)

(** A step of the second factor; the session it completes with is published to [completeLogin]. *)
Definition second_step (ev : @mfa_event (option details)) (s : auth) : auth :=
  let m := mfa_step ev (second s) in
  let s' := set_second m s in
  match drop (length (completions (second s))) (reverse (completions m)) with
  | d :: _ => completeLogin d [] s'
  | [] => s'
  end.

(** ** Events *)
Inductive auth_event :=
| SetHandler
| TabSelected (tab : jstr)                 (* the main page stores its tab *)
| Initialize
| MeAnswered (k : nat) (a : me_answer)
| LoginSubmitted (name secret : jstr)
| LoginStep (k : nat) (ev : login_event)
| FidoClicked (supported : bool) (username : jstr)
| FidoStep (k : nat) (ev : fido_event)
| SecondStep (ev : @mfa_event (option details))
| Logout (r : reason)
| LogoutAnswered (revocationFailed : bool)
| LoginClicked                             (* [navigateToLogin()] *)
| Navigated (p : place) (reload : bool)    (* another page of the site; [true] for one that only hides this one *)
| ProfileAnswered (sequence : nat) (answer : option profile)
| UserProfileChanged (username : jstr) (p : option profile)
| UserProfilesInvalidated (usernames : list jstr)
| LanguageChanged (l : jstr).

Definition auth_step (ev : auth_event) (s : auth) : auth :=
  match ev with
  | SetHandler => set_handler s
  | TabSelected tab => setItem k_selected tab s
  | Initialize => initializeSession s
  | MeAnswered k a => me_answered k a s
  | LoginSubmitted name secret => login name secret s
  | LoginStep k ev => login_step k ev s
  | FidoClicked supported username => fidoLogin supported username s
  | FidoStep k ev => fido_step k ev s
  | SecondStep ev => second_step ev s
  | Logout r => logout r s
  | LogoutAnswered failed => logout_answered failed s
  | LoginClicked =>
    if isLoginPath (pathname (current (pages s))) then s
    else cancelFidoLogin (set_pages (navigateToLogin (pathname (current (pages s))) false false (pages s)) s)
  | Navigated p hidden => cancelFidoLogin (if hidden then s else set_pages (pushState p (pages s)) s)
  | ProfileAnswered sequence a => profile_answered sequence a s
  | UserProfileChanged username p => user_profile_changed username p s
  | UserProfilesInvalidated usernames => user_profiles_invalidated usernames s
  | LanguageChanged l => language_changed l s
  end.

Definition auth_run (evs : list auth_event) (s : auth) : auth := fold_left (fun s ev => auth_step ev s) evs s.

(** The page as it loads, with the controls as the document has them. *)
Definition loaded (stored : gmap jstr jstr) (h : browser_history) (l : jstr) (v : view) : auth :=
  {| cached := {| cachedIsLoggedIn := false; cachedIsManager := false; cachedPermissions := []; cachedRoutes := [] |};
     shown := v; storage := stored; handler := false; navigation := {| navProfile := None; navProfileLoadSequence := 0; loads := [] |};
     language := l; logoutPromise := None; pages := h; second := initial;
     running := {| fidoLoginAbort := None; aborted_fidos := []; reads := ∅; logins := ∅; fidos := ∅; next := 0 |};
     actions := [] |}.
End session.

(** ** What is published *)
Section publication.
Context {UC : UnicodeCase} {UA : UrlApi} (unnamedUser : jstr -> jstr).
Implicit Types s : auth.

Definition flags (v : view) : bool * bool * bool * bool := (login_btn v, user_info v, manager_only v, user_only v).

(** The latest [authChanged]. *)
Fixpoint last_change (l : list auth_action) : option (bool * bool * jstr) :=
  match l with
  | [] => None
  | AuthChanged b m name :: _ => Some (b, m, name)
  | _ :: l => last_change l
  end.

(** The session as the page, its caches and its listeners have it. *)
Definition publication s := (cached s, flags (shown s), last_change (actions s)).

Definition published (l m : bool) (name : jstr) (ps : list permission) (rs : list (option route)) :=
  let c := session_caches l m ps rs in
  (c, (negb l, l, cachedIsManager c, l), Some (l, cachedIsManager c, name)).

Lemma requestSwitchTab_publication tab s : publication (requestSwitchTab tab s) = publication s.
Proof. unfold requestSwitchTab. by destruct (handler _). Qed.

Lemma updateAuthUI_publication l name m ps rs s :
  publication (updateAuthUI l name m ps rs s) = published l m name ps rs.
Proof.
  unfold updateAuthUI. cbv zeta. destruct l; destruct (_ || _); try done;
    unfold requestSwitchTab; by destruct (handler _).
Qed.

Lemma cancel_publication s : publication (cancelFidoLogin s) = publication s.
Proof. unfold cancelFidoLogin. by destruct (fidoLoginAbort _). Qed.

Lemma leave_publication s : publication (leave_login_page s) = publication s.
Proof. unfold leave_login_page. destruct (isLoginPath _); [|done]. by rewrite cancel_publication. Qed.

Lemma act_publication a s : match a with AuthChanged _ _ _ => False | _ => True end -> publication (act a s) = publication s.
Proof. by destruct a. Qed.

Lemma completeLogin_publication d fallback s :
  publication (completeLogin d fallback s) =
  published true (isManagerFromSession (details_permissions d)) (opt_str_or (d ≫= access_name) fallback) (details_permissions d)
    (details_routes d).
Proof.
  unfold completeLogin, sign_in. cbv zeta. rewrite leave_publication, act_publication; [|exact I]. apply updateAuthUI_publication.
Qed.

(** Reads a log: whether a logout is under way at its end, if requests and ends alternate. *)
Fixpoint logout_log (l : list auth_action) : option bool :=
  match l with
  | [] => Some false
  | LogoutRequest :: l => logout_log l ≫= fun b : bool => if b then None else Some true
  | StopDashboard :: l => logout_log l ≫= fun b : bool => if b then Some false else None
  | _ :: l => logout_log l
  end.

(** Profile loads that can still be shown are the latest. *)
Definition nav_ok s : Prop := Forall (fun q => q <= navProfileLoadSequence (navigation s)) (loads (navigation s)).

(** A step outside logout and the second factor. *)
Definition quiet s s' : Prop :=
  second s' = second s /\ logoutPromise s' = logoutPromise s /\ logout_log (actions s') = logout_log (actions s) /\
  (nav_ok s -> nav_ok s').

(** A step that also leaves the running calls and the history. *)
Definition still s s' : Prop := quiet s s' /\ running s' = running s /\ pages s' = pages s.

Lemma quiet_trans s1 s2 s3 : quiet s1 s2 -> quiet s2 s3 -> quiet s1 s3.
Proof. unfold quiet. naive_solver congruence. Qed.

Lemma still_trans s1 s2 s3 : still s1 s2 -> still s2 s3 -> still s1 s3.
Proof. unfold still. intros (H1 & -> & ->) (H2 & -> & ->). split_and!; try done. by eapply quiet_trans. Qed.

Lemma requestSwitchTab_still tab s : still s (requestSwitchTab tab s).
Proof. unfold requestSwitchTab. by destruct (handler _). Qed.

Lemma refreshNavProfile_still name s : still s (refreshNavProfile name s).
Proof.
  repeat split. unfold nav_ok. cbn. intros H. constructor; [done|]. eapply Forall_impl; [exact H|]. cbn. lia.
Qed.

Lemma updateAuthUI_still l name m ps rs s : still s (updateAuthUI l name m ps rs s).
Proof.
  unfold updateAuthUI. cbv zeta.
  set (s1 := show_session _ _ _). set (s2 := if l then refreshNavProfile name s1 else _).
  assert (H2 : still s s2).
  { apply still_trans with s1; [done|]. subst s2. destruct l; [apply refreshNavProfile_still|done]. }
  set (b := negb l || _). set (s3 := if b then _ else s2).
  assert (H3 : still s2 s3) by (subst s3; destruct b; [|done]; apply (still_trans _ (setItem k_selected overview s2)); [done|apply requestSwitchTab_still]).
  apply still_trans with s3; [by eapply still_trans|done].
Qed.

Lemma bump_sequence_still s : still s (bump_sequence s).
Proof. repeat split. unfold nav_ok. cbn. intros H. eapply Forall_impl; [exact H|]. cbn. lia. Qed.

Lemma profile_answered_still q a s : still s (profile_answered unnamedUser q a s).
Proof.
  unfold profile_answered. cbv zeta. destruct (negb _); [done|]. set (s1 := set_nav _ s).
  assert (H1 : still s s1).
  { repeat split. unfold nav_ok. cbn. rewrite !Forall_forall. intros H q' [Hq _]%list_elem_of_difference. by apply H. }
  destruct (negb _); [done|]. destruct a; [by apply still_trans with s1|]. destruct (navProfile _); [done|by apply still_trans with s1].
Qed.

Lemma profile_answered_publication q a s : publication (profile_answered unnamedUser q a s) = publication s.
Proof.
  unfold profile_answered. cbv zeta. destruct (negb _); [done|]. destruct (negb _); [done|]. destruct a; [done|].
  by destruct (navProfile _).
Qed.

(** *** Passkey calls *)
Record calls_ok (r : calls) : Prop := {
  ca_fidos : forall k ph, fidos r !! k = Some ph -> k < next r /\ (k ∈ aborted_fidos r \/ fidoLoginAbort r = Some k);
  ca_abort : forall k, fidoLoginAbort r = Some k -> k < next r
}.

Lemma cancel_spec s :
  let s' := cancelFidoLogin s in
  quiet s s' /\ (calls_ok (running s) -> calls_ok (running s')) /\ pages s' = pages s /\ fidos (running s') = fidos (running s) /\
  logins (running s') = logins (running s) /\ reads (running s') = reads (running s) /\ next (running s') = next (running s) /\
  fidoLoginAbort (running s') = fidoLoginAbort (running s) /\
  (forall k, fidoLoginAbort (running s) = Some k \/ k ∈ aborted_fidos (running s) -> k ∈ aborted_fidos (running s')).
Proof.
  unfold cancelFidoLogin. destruct (fidoLoginAbort (running s)) as [k|] eqn:Hk; cbv zeta; [|by split_and!; try done; intros ? [[=]|?]].
  split_and!; try done; try (by rewrite Hk).
  - intros [H1 H2]. constructor; cbn; [|intros j [= <-]; by apply H2]. intros j ph Hj.
    destruct (H1 j ph Hj) as [? [?|?]]; (split; [done|]); [left; by apply list_elem_of_further|right; congruence].
  - intros j [[= <-]|Hj]; cbn; [apply list_elem_of_here|by apply list_elem_of_further].
Qed.

(** A completed sign-in cancels the passkey prompt when it leaves the page. *)
Lemma completeLogin_spec d fallback s :
  let s' := completeLogin d fallback s in
  quiet s s' /\
  (if isLoginPath (pathname (current (pages s)))
   then pages s' = leaveLoginPage (pages s) /\ running s' = running (cancelFidoLogin s)
   else pages s' = pages s /\ running s' = running s).
Proof.
  unfold completeLogin, sign_in. cbv zeta. set (s0 := setItem k_username _ _). set (s1 := updateAuthUI _ _ _ _ _ _).
  set (s2 := act _ s1).
  assert (H2 : still s s2) by (apply still_trans with s0; [done|]; apply still_trans with s1; [apply updateAuthUI_still|done]).
  clearbody s2. destruct H2 as (Hq & Hr & Hp). unfold leave_login_page. rewrite Hp. destruct (isLoginPath _); [|done].
  destruct (cancel_spec (set_pages (leaveLoginPage (pages s)) s2)) as (Hc & _ & Hcp & _). split_and!.
  - eapply quiet_trans; [exact Hq|]. eapply quiet_trans; [|exact Hc]. done.
  - by rewrite Hcp.
  - unfold cancelFidoLogin. change (running (set_pages _ s2)) with (running s2). rewrite Hr. by destruct (fidoLoginAbort (running s)).
Qed.

(** Where a signed-in session may come from. *)
Inductive source s : auth_event -> Prop :=
| from_server k d w : reads (running s) !! k = Some w -> source s (MeAnswered k (MeOk d))
| from_memory k status w : reads (running s) !! k = Some w -> status <> 401%Z -> remembered s <> [] ->
    source s (MeAnswered k (MeStatus status))
| from_password k name d : logins (running s) !! k = Some (LoginPost name) -> source s (LoginStep k (LoginOk d))
| from_passkey k name d : fidos (running s) !! k = Some (FidoDecode name) -> k ∉ aborted_fidos (running s) ->
    source s (FidoStep k (FidoSessionDecoded d))
| from_factor k f d : verifies (second s) !! k = Some (AwaitSession f (sequence (second s))) -> k ∉ aborted (second s) ->
    source s (SecondStep (SessionDecoded k d)).

Lemma logout_publication r s : publication (logout r s) = publication s.
Proof. unfold logout. cbv zeta. by destruct (logoutPromise _). Qed.

Lemma set_error_publication e s : publication (set_error e s) = publication s.
Proof. done. Qed.

Lemma end_fido_publication k s : publication (end_fido k s) = publication s.
Proof. unfold end_fido. cbv zeta. by destruct (bool_decide _). Qed.

Lemma set_logout_publication p s : publication (set_logout p s) = publication s.
Proof. done. Qed.

Lemma setItem_publication k v s : publication (setItem k v s) = publication s.
Proof. done. Qed.

Lemma logout_answered_publication failed s :
  publication (logout_answered failed s) = match logoutPromise s with None => publication s | Some _ => published false false [] [] [] end.
Proof.
  unfold logout_answered. destruct (logoutPromise s) as [[r w]|]; [|done]. cbv zeta.
  rewrite set_logout_publication, requestSwitchTab_publication, setItem_publication, act_publication; [|exact I].
  destruct (logout_alert r w failed); [rewrite act_publication; [|exact I]|]; apply updateAuthUI_publication.
Qed.

Lemma second_step_spec ev s :
  mfa_ok (second s) ->
  let s' := second_step ev s in
  second s' = mfa_step ev (second s) /\
  (s' = set_second (mfa_step ev (second s)) s \/
   exists k d f, ev = SessionDecoded k d /\ verifies (second s) !! k = Some (AwaitSession f (sequence (second s))) /\
     (k ∉ aborted (second s)) /\ s' = completeLogin d [] (set_second (mfa_step ev (second s)) s)).
Proof.
  intros Hok. unfold second_step. cbv zeta. destruct (completions_step ev (second s)) as [E|(k & d & f & -> & Hk & Hab & E)]; rewrite E.
  - rewrite drop_ge by by rewrite length_reverse. split; [done|by left].
  - rewrite reverse_cons, drop_app_length' by by rewrite length_reverse. split.
    + apply (completeLogin_spec d []).
    + right. by exists k, d, f.
Qed.

Definition publishes s ev s' : Prop :=
  publication s' = publication s \/
  exists l name ps rs, publication s' = published l (isManagerFromSession ps) name ps rs /\ (l = true -> source s ev).

Lemma me_answered_publishes k a s : publishes s (MeAnswered k a) (me_answered k a s).
Proof.
  unfold me_answered. destruct (reads (running s) !! k) as [w|] eqn:Hk; [|by left]. cbv zeta. destruct a as [d|status|].
  - right. unfold sign_in. rewrite updateAuthUI_publication. do 4 eexists. split; [done|]. intros _. by eapply from_server.
  - destruct (bool_decide (status = 401%Z)) eqn:E401.
    + destruct w; [left; by rewrite logout_publication|]. right. unfold signed_out. rewrite updateAuthUI_publication.
      exists false, [], [], []. done.
    + right. rewrite updateAuthUI_publication. exists (negb (bool_decide (remembered s = []))), (remembered s), [], []. split; [done|].
      intros Hr%negb_true_iff%bool_decide_eq_false. apply bool_decide_eq_false in E401. by eapply from_memory.
  - right. unfold signed_out. rewrite updateAuthUI_publication. exists false, [], [], []. done.
Qed.

Lemma login_step_publishes k ev s : publishes s (LoginStep k ev) (login_step k ev s).
Proof.
  unfold login_step. destruct (logins (running s) !! k) as [[n sec|n|]|] eqn:Hk, ev as [[]|d| | |text|]; try (by left).
  right. rewrite completeLogin_publication. do 4 eexists. split; [done|]. intros _. by eapply from_password.
Qed.

Lemma fido_step_publishes k ev s : publishes s (FidoStep k ev) (fido_step k ev s).
Proof.
  unfold fido_step. destruct (fidos (running s) !! k) as [ph|] eqn:Hk; [|by left].
  assert (Hend : forall s', publication s' = publication s -> publishes s (FidoStep k ev) (end_fido k s'))
    by (intros s' E; left; by rewrite end_fido_publication).
  unfold fido_aborted. destruct (bool_decide (k ∈ aborted_fidos (running s))) eqn:Hab.
  - destruct ph, ev; by try (by apply Hend); left.
  - apply bool_decide_eq_false in Hab.
    destruct ph, ev as [[]| | | |[]| | | | |d|text| |text]; try (by apply Hend); try (by left).
    right. rewrite end_fido_publication, completeLogin_publication. do 4 eexists. split; [done|]. intros _. by eapply from_passkey.
Qed.

Lemma auth_step_publishes ev s : mfa_ok (second s) -> publishes s ev (auth_step unnamedUser ev s).
Proof.
  intros Hok. destruct ev; cbn [auth_step]; try (by left).
  - apply me_answered_publishes.
  - apply login_step_publishes.
  - left. unfold fidoLogin. cbv zeta. destruct supported; cbn [negb].
    + transitivity (publication (cancelFidoLogin s)); [done|apply cancel_publication].
    + transitivity (publication (cancelFidoLogin s)); [done|apply cancel_publication].
  - apply fido_step_publishes.
  - destruct (second_step_spec ev s Hok) as [_ [->|(k & d & f & -> & Hk & Hab & ->)]]; [by left|]. right.
    rewrite completeLogin_publication. do 4 eexists. split; [done|]. intros _. by eapply from_factor.
  - left. apply logout_publication.
  - unfold publishes. rewrite logout_answered_publication. destruct (logoutPromise s); [|by left]. right. exists false, [], [], []. done.
  - left. destruct (isLoginPath _); [done|]. by rewrite cancel_publication.
  - left. rewrite cancel_publication. by destruct reload.
  - left. apply profile_answered_publication.
  - left. unfold user_profile_changed. by destruct (negb _).
  - left. unfold user_profiles_invalidated. by destruct (bool_decide _).
  - left. unfold language_changed. cbv zeta. destruct (navProfile _); [|done]. by destruct (cachedIsLoggedIn _).
Qed.

(** *** Every event *)
Definition agrees (v : view) (p : caches * (bool * bool * bool * bool) * option (bool * bool * jstr)) : Prop :=
  let '(c, f, change) := p in
  c = applySessionCaches (cachedIsLoggedIn c) (cachedPermissions c) (cachedRoutes c) /\
  match change with
  | None => cachedIsLoggedIn c = false /\ f = flags v
  | Some (l, m, _) => l = cachedIsLoggedIn c /\ m = cachedIsManager c /\ f = (negb l, l, m, l)
  end.

Record auth_ok (v : view) s : Prop := {
  ao_second : mfa_ok (second s);
  ao_calls : calls_ok (running s);
  ao_logout : logout_log (actions s) = Some (bool_decide (is_Some (logoutPromise s)));
  ao_nav : nav_ok s;
  ao_agrees : agrees v (publication s)
}.

Lemma agrees_published v l name ps rs : agrees v (published l (isManagerFromSession ps) name ps rs).
Proof. unfold published. rewrite session_caches_manager. by destruct l. Qed.

Lemma publishes_agrees v s ev s' : publishes s ev s' -> agrees v (publication s) -> agrees v (publication s').
Proof. intros [->|(l & name & ps & rs & -> & _)]; [done|]. intros _. apply agrees_published. Qed.

Lemma quiet_auth_ok v s s' :
  quiet s s' -> (calls_ok (running s) -> calls_ok (running s')) -> agrees v (publication s') -> auth_ok v s -> auth_ok v s'.
Proof. intros (E1 & E2 & E3 & E4) Hc Ha [H1 H2 H3 H4 _]. constructor; [by rewrite E1|by apply Hc|by rewrite E3, E2|by apply E4|done]. Qed.

Lemma fidos_ok (r : calls) m :
  (forall k ph, m !! k = Some ph -> is_Some (fidos r !! k)) -> calls_ok r ->
  calls_ok {| fidoLoginAbort := fidoLoginAbort r; aborted_fidos := aborted_fidos r; reads := reads r; logins := logins r;
              fidos := m; next := next r |}.
Proof. intros Hm [H1 H2]. constructor; cbn; [|done]. intros k ph Hk. destruct (Hm k ph Hk) as [ph' Hk']. by apply (H1 k ph'). Qed.

Lemma calls_ok_next (r r' : calls) :
  fidos r' = fidos r -> fidoLoginAbort r' = fidoLoginAbort r -> aborted_fidos r' = aborted_fidos r -> next r <= next r' ->
  calls_ok r -> calls_ok r'.
Proof.
  intros E1 E2 E3 Hn [H1 H2]. constructor; rewrite ?E1, E2; [|intros k Hk; specialize (H2 k Hk); lia].
  intros k ph Hk. destruct (H1 k ph Hk). rewrite E3. split; [lia|done].
Qed.

Lemma end_fido_calls k s : calls_ok (running s) -> calls_ok (running (end_fido k s)).
Proof.
  intros Hc. unfold end_fido. cbv zeta.
  assert (H1 : calls_ok (running (set_fidos (delete k (fidos (running s))) s)))
    by (apply fidos_ok; [intros j ph [_ Hj]%lookup_delete_Some; by exists ph|done]).
  destruct (bool_decide _) eqn:E; [|done]. apply bool_decide_eq_true in E. cbn in E.
  destruct H1 as [H1 H2]. constructor; [|done]. cbn in H1 |- *. intros j ph Hj. destruct (H1 j ph Hj) as [? [?|Hab]]; [by split; [|left]|].
  assert (j = k) as -> by congruence. by rewrite lookup_delete_eq in Hj.
Qed.

Lemma end_fido_quiet k s : quiet s (end_fido k s) /\ pages (end_fido k s) = pages s.
Proof. unfold end_fido. cbv zeta. by destruct (bool_decide _). Qed.

Lemma fido_goes_on_calls k ph ph' s :
  fidos (running s) !! k = Some ph -> calls_ok (running s) -> calls_ok (running (fido_goes_on k ph' s)).
Proof.
  intros Hk. apply fidos_ok. intros j p [[<- _]|[_ Hj]]%lookup_insert_Some; [by rewrite Hk; eexists|by rewrite Hj; eexists].
Qed.

(** Ends and continuations of a passkey call. *)
Lemma fido_step_spec k ev s :
  let s' := fido_step k ev s in
  (quiet s s' \/ (ev = FinishMfaRequired /\ s' = show_mfa (fido_goes_on k FidoChallenge s))) /\
  (calls_ok (running s) -> calls_ok (running s')).
Proof.
  unfold fido_step. destruct (fidos (running s) !! k) as [ph|] eqn:Hk; [|by split; [left|]].
  assert (Hend : forall s', quiet s s' -> running s' = running s ->
    (quiet s (end_fido k s') \/ (ev = FinishMfaRequired /\ end_fido k s' = show_mfa (fido_goes_on k FidoChallenge s))) /\
    (calls_ok (running s) -> calls_ok (running (end_fido k s')))).
  { intros s' Hq Hr. split; [left; eapply quiet_trans; [exact Hq|apply end_fido_quiet]|]. intros Hc. apply end_fido_calls. by rewrite Hr. }
  assert (Hgo : forall ph', calls_ok (running s) -> calls_ok (running (fido_goes_on k ph' s))) by (intros; by eapply fido_goes_on_calls).
  destruct (fido_aborted k s).
  - destruct ph, ev; first [by apply Hend|by split; [left|]].
  - destruct ph, ev as [[]| | | |[]| | | | |d|text| |text]; cbv zeta;
      try (by apply Hend); try (by split; [left|]); try (by split; [left|apply Hgo]).
    + split; [by right|]. by apply Hgo.
    + destruct (completeLogin_spec d name s) as [Hq Hr]. split.
      * left. eapply quiet_trans; [exact Hq|]. apply end_fido_quiet.
      * intros Hc. apply end_fido_calls. destruct (isLoginPath _); destruct Hr as [_ ->]; [|done]. by apply cancel_spec.
Qed.

Lemma login_step_spec k ev s :
  let s' := login_step k ev s in
  (quiet s s' \/ s' = show_mfa (end_login k s)) /\ (calls_ok (running s) -> calls_ok (running s')).
Proof.
  assert (Hl : forall m s, calls_ok (running s) -> calls_ok (running (set_logins m s))) by (intros m s' []; by constructor).
  unfold login_step. destruct (logins (running s) !! k) as [[n sec|n|]|], ev as [[]|d| | |text|]; cbv zeta;
    try (by split; [left|]); try (by split; [left|apply Hl]).
  - split; [by left|]. apply (Hl _ (set_error None s)).
  - destruct (completeLogin_spec d n (end_login k s)) as [Hq Hr]. split; [left; by eapply quiet_trans; [|exact Hq]|]. intros Hc%(Hl (delete k (logins (running s)))).
    destruct (isLoginPath _); destruct Hr as [_ ->]; [|done]. by apply cancel_spec.
  - split; [by right|]. apply Hl.
Qed.

Lemma fidoLogin_spec supported username s :
  let s' := fidoLogin supported username s in quiet s s' /\ (calls_ok (running s) -> calls_ok (running s')).
Proof.
  destruct (cancel_spec s) as (Hq & Hc & _ & Hf & _ & _ & Hn & Ha & Hab).
  unfold fidoLogin. cbv zeta. set (s1 := set_error None (cancelFidoLogin s)).
  assert (H1 : quiet s s1) by (eapply quiet_trans; [exact Hq|done]).
  destruct (negb supported); [split; [by eapply quiet_trans; [exact H1|]|exact Hc]|]. split; [by eapply quiet_trans; [exact H1|]|].
  intros [C1 C2]. constructor; cbn.
  - intros k ph [[<- _]|[Hne Hk]]%lookup_insert_Some; [split; [lia|by right]|]. rewrite Hf in Hk. destruct (C1 k ph Hk) as [Hlt Hor].
    rewrite Hn. split; [lia|]. left. apply Hab. naive_solver.
  - intros k [= <-]. lia.
Qed.

Lemma logout_ok v r s : auth_ok v s -> auth_ok v (logout r s).
Proof.
  intros [H1 H2 H3 H4 H5]. unfold logout. cbv zeta. change (logoutPromise (act _ s)) with (logoutPromise s).
  destruct (logoutPromise s) as [w|] eqn:E; constructor; try done.
  - cbn. by rewrite H3, E.
  - cbn. by rewrite H3.
Qed.

Lemma keys_differ : k_username <> k_selected.
Proof. refine (proj1 (bool_decide_eq_true _) _). vm_compute. reflexivity. Qed.

Lemma requestSwitchTab_shown tab s :
  let s' := requestSwitchTab tab s in
  navigation s' = navigation s /\ shown s' = shown s /\ remembered s' = remembered s /\
  (storage s !! k_selected = Some tab -> storage s' !! k_selected = Some tab).
Proof.
  unfold requestSwitchTab. cbv zeta. destruct (handler _); [done|]. split_and!; [done..| |].
  - unfold remembered, setItem. cbn [storage set_storage act]. by rewrite lookup_insert_ne by (apply not_eq_sym, keys_differ).
  - intros _. apply lookup_insert_eq.
Qed.

Lemma signed_out_shown s :
  let s' := signed_out s in
  navigation s' = {| navProfile := None; navProfileLoadSequence := navProfileLoadSequence (navigation s); loads := loads (navigation s) |} /\
  usernameDisplay (shown s') = [] /\ remembered s' = remembered s.
Proof.
  unfold signed_out, updateAuthUI. cbn [negb orb]. cbv zeta. set (s1 := setItem k_selected overview _).
  destruct (requestSwitchTab_shown overview s1) as (E1 & E2 & E3 & _).
  set (s2 := requestSwitchTab overview s1) in *. clearbody s2. split_and!.
  - change (navigation s2 = navigation s1). done.
  - change (usernameDisplay (shown s2) = []). by rewrite E2.
  - change (remembered s2 = remembered s). rewrite E3. subst s1. unfold remembered, setItem. cbn [storage set_storage].
    by rewrite lookup_insert_ne by (apply not_eq_sym, keys_differ).
Qed.

(** The end of a logout: nothing of the session is left, and no profile still loading can be shown. *)
Lemma logout_answered_spec failed s :
  logoutPromise s <> None ->
  let s' := logout_answered failed s in
  second s' = second s /\ running s' = running s /\ pages s' = pages s /\ logoutPromise s' = None /\
  logout_log (actions s') = (logout_log (actions s) ≫= fun b : bool => if b then Some false else None) /\
  (nav_ok s -> nav_ok s' /\ Forall (fun q => q < navProfileLoadSequence (navigation s')) (loads (navigation s'))) /\
  navProfile (navigation s') = None /\ usernameDisplay (shown s') = [] /\ remembered s' = [] /\
  storage s' !! k_selected = Some overview.
Proof.
  intros Hs. unfold logout_answered. destruct (logoutPromise s) as [[r w]|]; [|done]. clear Hs. cbv zeta.
  set (s1 := removeItem (js "token-secret") _).
  assert (H1 : still s s1) by done. assert (R1 : remembered s1 = []).
  { unfold remembered. subst s1. unfold removeItem. cbn [storage set_storage].
    rewrite lookup_delete_ne, lookup_delete_ne, lookup_delete_eq; [done|..]; refine (proj1 (bool_decide_eq_true _) _); vm_compute; reflexivity. }
  assert (N1 : navigation s1 = navigation s) by done. clearbody s1.
  set (s2 := act ClearProfiles (bump_sequence s1)).
  assert (H2 : still s s2) by (eapply still_trans; [exact H1|]; apply (bump_sequence_still s1)).
  assert (R2 : remembered s2 = []) by done.
  assert (N2 : nav_ok s -> Forall (fun q => q < navProfileLoadSequence (navigation s2)) (loads (navigation s2))).
  { unfold nav_ok. subst s2. cbn. rewrite N1. intros H. eapply Forall_impl; [exact H|]. cbn. lia. }
  clearbody s2. destruct (signed_out_shown s2) as (N3 & D3 & R3). set (s3 := signed_out s2) in *.
  assert (H3 : still s s3) by (eapply still_trans; [exact H2|]; apply updateAuthUI_still). clearbody s3.
  set (s4 := match logout_alert r w failed with Some key => _ | None => s3 end).
  assert (H4 : still s s4 /\ navigation s4 = navigation s3 /\ shown s4 = shown s3 /\ remembered s4 = remembered s3)
    by (subst s4; by destruct (logout_alert r w failed)).
  destruct H4 as (H4 & N4 & D4 & R4). clearbody s4. set (s5 := setItem k_selected overview (act StopDashboard s4)).
  destruct (requestSwitchTab_shown overview s5) as (N6 & D6 & R6 & T6).
  destruct (requestSwitchTab_still overview s5) as ((Q1 & Q2 & Q3 & Q4) & Q5 & Q6).
  destruct H4 as ((P1 & P2 & P3 & P4) & P5 & P6).
  assert (R5 : remembered s5 = remembered s4).
  { unfold remembered. subst s5. unfold setItem. cbn [storage set_storage act]. by rewrite lookup_insert_ne by (apply not_eq_sym, keys_differ). }
  set (s6 := requestSwitchTab overview s5) in *. clearbody s6.
  assert (N7 : navigation s6 = {| navProfile := None; navProfileLoadSequence := navProfileLoadSequence (navigation s2); loads := loads (navigation s2) |})
    by (rewrite N6; change (navigation s5) with (navigation s4); by rewrite N4).
  split_and!.
  - change (second s6 = second s). rewrite Q1. exact P1.
  - change (running s6 = running s). rewrite Q5. exact P5.
  - change (pages s6 = pages s). rewrite Q6. exact P6.
  - done.
  - change (logout_log (actions s6) = (logout_log (actions s) ≫= fun b : bool => if b then Some false else None)).
    rewrite Q3, <- P3. done.
  - change (navigation (set_logout None s6)) with (navigation s6). intros Hn. split; [by apply Q4, P4|]. rewrite N7. by apply N2.
  - change (navProfile (navigation s6) = None). by rewrite N7.
  - change (usernameDisplay (shown s6) = []). rewrite D6. change (shown s5) with (shown s4). by rewrite D4.
  - change (remembered s6 = []). by rewrite R6, R5, R4, R3.
  - change (storage s6 !! k_selected = Some overview). apply T6. apply lookup_insert_eq.
Qed.

Lemma still_ok v s s' : still s s' -> agrees v (publication s') -> auth_ok v s -> auth_ok v s'.
Proof. intros (Hq & Hr & _). apply quiet_auth_ok; [done|by rewrite Hr]. Qed.

Lemma auth_step_ok v ev s : auth_ok v s -> auth_ok v (auth_step unnamedUser ev s).
Proof.
  intros Hs. pose proof Hs as [H1 H2 H3 H4 H5].
  assert (Ha : agrees v (publication (auth_step unnamedUser ev s)))
    by (eapply publishes_agrees; [by apply auth_step_publishes|done]).
  destruct ev; cbn [auth_step] in *.
  - by apply (still_ok v s).
  - by apply (still_ok v s).
  - apply (quiet_auth_ok v s); try done. apply calls_ok_next; try done. cbn. lia.
  - unfold me_answered in *. destruct (reads (running s) !! k) as [w|]; [|done]. cbv zeta in *.
    set (s1 := with_reads _ s) in *.
    assert (Hs1 : auth_ok v s1) by (apply (quiet_auth_ok v s); try done; by apply calls_ok_next).
    assert (Hu : forall l n m ps rs, agrees v (publication (updateAuthUI l n m ps rs s1)) -> auth_ok v (updateAuthUI l n m ps rs s1))
      by (intros; apply (still_ok v s1); [apply updateAuthUI_still|done|done]).
    destruct a as [d|status|].
    + unfold sign_in in *. set (name := opt_str_or _ _) in *. set (s2 := if bool_decide (name = []) then s1 else _) in *.
      assert (H12 : still s1 s2) by (subst s2; by destruct (bool_decide (name = []))).
      apply (still_ok v s1); [|exact Ha|exact Hs1]. apply still_trans with s2; [exact H12|apply updateAuthUI_still].
    + destruct (bool_decide (status = 401%Z)); [destruct w; [by apply logout_ok|by apply Hu]|by apply Hu].
    + by apply Hu.
  - apply (quiet_auth_ok v s); try done. apply calls_ok_next; try done. cbn. lia.
  - destruct (login_step_spec k ev s) as [[Hq|E] Hc]; [by apply (quiet_auth_ok v s)|]. rewrite E in *. constructor; try done.
    + apply show_ok, H1.
    + by apply Hc.
  - destruct (fidoLogin_spec supported username s) as [Hq Hc]. by apply (quiet_auth_ok v s).
  - destruct (fido_step_spec k ev s) as [[Hq|[-> E]] Hc]; [by apply (quiet_auth_ok v s)|]. rewrite E in *. constructor; try done.
    + apply show_ok, H1.
    + by apply Hc.
  - destruct (second_step_spec ev s H1) as [Esec E].
    assert (Hm : auth_ok v (set_second (mfa_step ev (second s)) s)) by (constructor; try done; by apply mfa_step_ok).
    destruct E as [->|(k & d & f & -> & Hk & Hab & E)]; [done|]. rewrite E in *.
    set (s1 := set_second _ s) in *. destruct (completeLogin_spec d [] s1) as [Hq Hr]. apply (quiet_auth_ok v s1); try done.
    intros Hc. destruct (isLoginPath _); destruct Hr as [_ ->]; [|done]. by apply cancel_spec.
  - by apply logout_ok.
  - destruct (decide (logoutPromise s = None)) as [E|Hl]; [unfold logout_answered in *; by rewrite E in *|].
    destruct (logout_answered_spec revocationFailed s Hl) as (E1 & E2 & _ & E4 & E5 & E6 & _).
    constructor; [by rewrite E1|by rewrite E2|rewrite E5, E4, H3|by apply E6|done].
    by destruct (logoutPromise s).
  - destruct (isLoginPath _); [done|]. set (s1 := set_pages _ s) in *. destruct (cancel_spec s1) as (Hq & Hc & _).
    apply (quiet_auth_ok v s); [by eapply quiet_trans; [|exact Hq]|done..].
  - set (s1 := if reload then s else _) in *. destruct (cancel_spec s1) as (Hq & Hc & _).
    assert (quiet s s1 /\ running s1 = running s) as [Hq1 Hr1] by (subst s1; by destruct reload).
    apply (quiet_auth_ok v s); [by eapply quiet_trans; [exact Hq1|]|by rewrite <- Hr1|done..].
  - apply (still_ok v s); [apply profile_answered_still|done|done].
  - apply (still_ok v s); try done. unfold user_profile_changed. destruct (negb _); [done|].
    apply (still_trans _ (bump_sequence s)); [apply bump_sequence_still|done].
  - apply (still_ok v s); try done. unfold user_profiles_invalidated.
    destruct (bool_decide (to_lower (remembered s) ∈ usernames)); [apply refreshNavProfile_still|done].
  - apply (still_ok v s); try done. unfold language_changed. cbv zeta. destruct (navProfile _); [|done]. by destruct (cachedIsLoggedIn _).
Qed.

(** *** Consent *)

(** The three forms of a sign-in that asks, and the event that answers it. *)
Inductive sign_in_call := PasswordCall (k : nat) | PasskeyCall (k : nat) | FactorCall (k : nat).

Definition given (c : sign_in_call) : auth_event :=
  match c with
  | PasswordCall k => LoginStep k (LoginConsentAnswered true)
  | PasskeyCall k => FidoStep k (FidoConsentAnswered true)
  | FactorCall k => SecondStep (ConsentAnswered k true)
  end.

Definition login_past (p : login_phase) : bool := match p with LoginConsent _ _ => false | _ => true end.
Definition fido_past (p : fido_phase) : bool := match p with FidoConsent _ => false | _ => true end.

Definition consented s (c : sign_in_call) : Prop :=
  match c with
  | PasswordCall k => exists p, logins (running s) !! k = Some p /\ login_past p = true
  | PasskeyCall k => exists p, fidos (running s) !! k = Some p /\ fido_past p = true
  | FactorCall k => exists v, verifies (second s) !! k = Some v /\ past_consent v = true
  end.

(** Nothing newly consented. *)
Definition no_new s s' : Prop := forall c, consented s' c -> consented s c.

Lemma no_new_frame s s' :
  logins (running s') = logins (running s) -> fidos (running s') = fidos (running s) -> verifies (second s') = verifies (second s) ->
  no_new s s'.
Proof. intros E1 E2 E3 [k|k|k]; cbn; by rewrite ?E1, ?E2, ?E3. Qed.

Lemma no_new_trans s1 s2 s3 : no_new s1 s2 -> no_new s2 s3 -> no_new s1 s3.
Proof. intros H1 H2 c Hc. by apply H1, H2. Qed.

Lemma still_no_new s s' : still s s' -> no_new s s'.
Proof. intros ((E & _) & Er & _). apply no_new_frame; by rewrite ?E, ?Er. Qed.

Lemma cancel_no_new s : no_new s (cancelFidoLogin s).
Proof. destruct (cancel_spec s) as ((E & _) & _ & _ & E1 & E2 & _). apply no_new_frame; [done|done|by rewrite E]. Qed.

Lemma completeLogin_no_new d fallback s : no_new s (completeLogin d fallback s).
Proof.
  destruct (completeLogin_spec d fallback s) as [(E & _) Hr]. destruct (cancel_spec s) as (_ & _ & _ & E1 & E2 & _).
  destruct (isLoginPath _); destruct Hr as [_ Hr]; apply no_new_frame; by rewrite ?E, ?Hr.
Qed.

Lemma end_fido_no_new k s : no_new s (end_fido k s).
Proof.
  intros c Hc. unfold end_fido in Hc. cbv zeta in Hc.
  assert (H : consented (set_fidos (delete k (fidos (running s))) s) c) by (by destruct c, (bool_decide _)).
  destruct c as [j|j|j]; try done. destruct H as (p & Hp & Hpast). cbn in Hp. apply lookup_delete_Some in Hp as [_ Hp]. by exists p.
Qed.

Lemma end_login_no_new k s : no_new s (end_login k s).
Proof. intros [j|j|j]; try done. intros (p & Hp & Hpast). cbn in Hp. apply lookup_delete_Some in Hp as [_ Hp]. by exists p. Qed.

Lemma fido_goes_on_consented k p p' s c :
  fidos (running s) !! k = Some p -> consented (fido_goes_on k p' s) c -> consented s c \/ c = PasskeyCall k.
Proof.
  intros Hk Hc. destruct c as [j|j|j]; [by left| |by left]. destruct Hc as (q & Hq & Hpast). cbn in Hq.
  apply lookup_insert_Some in Hq as [[<- _]|[_ Hq]]; [by right|].
  left. by exists q.
Qed.

Lemma login_goes_on_consented k p p' s c :
  logins (running s) !! k = Some p -> consented (login_goes_on k p' s) c -> consented s c \/ c = PasswordCall k.
Proof.
  intros Hk Hc. destruct c as [j|j|j]; [|by left..]. destruct Hc as (q & Hq & Hpast). cbn in Hq.
  apply lookup_insert_Some in Hq as [[<- _]|[_ Hq]]; [by right|].
  left. by exists q.
Qed.

Lemma fido_step_consented k ev s c : consented (fido_step k ev s) c -> consented s c \/ FidoStep k ev = given c.
Proof.
  unfold fido_step. destruct (fidos (running s) !! k) as [ph|] eqn:Hk; [|by left].
  assert (Hend : forall s', no_new s s' -> consented (end_fido k s') c -> consented s c \/ FidoStep k ev = given c)
    by (intros s' H Hc; left; by apply H, (end_fido_no_new k)).
  assert (Hgo : forall p', fido_past ph = true -> consented (fido_goes_on k p' s) c -> consented s c \/ FidoStep k ev = given c).
  { intros p' Hp Hc. destruct (fido_goes_on_consented k ph p' s c Hk Hc) as [| ->]; [by left|]. left. by exists ph. }
  destruct (fido_aborted k s).
  - destruct ph, ev; first [apply Hend; by apply no_new_frame|by left].
  - destruct ph, ev as [[]| | | |[]| | | | |d|text| |text];
      try (apply Hend; by apply no_new_frame); try (by left); try (by apply Hgo); try (apply Hend; by apply completeLogin_no_new).
    intros Hc. destruct (fido_goes_on_consented k _ _ s c Hk Hc) as [| ->]; [by left|by right].
Qed.

Lemma login_step_consented k ev s c : consented (login_step k ev s) c -> consented s c \/ LoginStep k ev = given c.
Proof.
  unfold login_step. destruct (logins (running s) !! k) as [[n sec|n|]|] eqn:Hk, ev as [[]|d| | |text|]; try (by left);
    try (intros Hc; left; by apply (end_login_no_new k)).
  - intros Hc. destruct (login_goes_on_consented k _ (LoginPost n) (set_error None s) c Hk Hc) as [| ->]; [by left|by right].
  - intros Hc. left. by apply (end_login_no_new k), (completeLogin_no_new d n).
  - intros Hc. destruct (login_goes_on_consented k _ LoginText s c Hk Hc) as [| ->]; [by left|]. left. by exists (LoginPost n).
Qed.

Lemma auth_step_consented ev s c :
  mfa_ok (second s) -> consented (auth_step unnamedUser ev s) c -> consented s c \/ ev = given c.
Proof.
  intros Hok. assert (Hs : forall s', no_new s s' -> consented s' c -> consented s c \/ ev = given c) by (intros s' H Hc; left; by apply H).
  destruct ev; cbn [auth_step]; try (apply Hs; by apply no_new_frame).
  - unfold me_answered. destruct (reads (running s) !! k) as [w|]; [|by left]. cbv zeta. set (s1 := with_reads _ s).
    assert (H1 : no_new s s1) by by apply no_new_frame. clearbody s1. destruct a as [d|status|].
    + apply Hs. eapply no_new_trans; [exact H1|]. unfold sign_in. set (name := opt_str_or _ _).
      set (s2 := if bool_decide (name = []) then s1 else _).
      apply no_new_trans with s2; [subst s2; destruct (bool_decide _); by apply no_new_frame|]. apply still_no_new, updateAuthUI_still.
    + destruct (bool_decide (status = 401%Z)); [destruct w|]; apply Hs; (eapply no_new_trans; [exact H1|]).
      * unfold logout. cbv zeta. destruct (logoutPromise _); by apply no_new_frame.
      * apply still_no_new, updateAuthUI_still.
      * apply still_no_new, updateAuthUI_still.
    + apply Hs. eapply no_new_trans; [exact H1|]. apply still_no_new, updateAuthUI_still.
  - apply Hs. intros [k|k|k]; try done. intros (p & Hp & Hpast). cbn in Hp. apply lookup_insert_Some in Hp as [[_ <-]|[_ Hp]]; [done|by exists p].
  - apply login_step_consented.
  - apply Hs. unfold fidoLogin. cbv zeta. set (s1 := set_error None (cancelFidoLogin s)).
    assert (H1 : no_new s s1) by (eapply no_new_trans; [apply (cancel_no_new s)|by apply no_new_frame]).
    destruct (negb supported); [done|]. eapply no_new_trans; [exact H1|].
    intros [k|k|k]; try done. intros (p & Hp & Hpast). cbn in Hp. apply lookup_insert_Some in Hp as [[_ <-]|[_ Hp]]; [done|by exists p].
  - apply fido_step_consented.
  - destruct (second_step_spec ev s Hok) as [Es E]. set (s1 := set_second _ s) in *. intros Hc.
    assert (H1 : consented s1 c).
    { destruct E as [E|(k & d & f & _ & _ & _ & E)]; rewrite E in Hc; [done|]. by apply (completeLogin_no_new d []). }
    destruct c as [k|k|k]; [by left|by left|]. destruct H1 as (v & Hv & Hpast).
    destruct (verifies_step ev (second s) k v Hok Hv Hpast) as [?| ->]; [by left|by right].
  - apply Hs. unfold logout. cbv zeta. destruct (logoutPromise _); by apply no_new_frame.
  - apply Hs. destruct (decide (logoutPromise s = None)) as [E|Hl]; [unfold logout_answered; rewrite E; by apply no_new_frame|].
    destruct (logout_answered_spec revocationFailed s Hl) as (E1 & E2 & _). apply no_new_frame; by rewrite ?E1, ?E2.
  - apply Hs. destruct (isLoginPath _); [by apply no_new_frame|]. eapply no_new_trans; [|apply cancel_no_new]. by apply no_new_frame.
  - apply Hs. eapply no_new_trans; [|apply cancel_no_new]. destruct reload; by apply no_new_frame.
  - apply Hs. apply still_no_new, profile_answered_still.
  - apply Hs. unfold user_profile_changed. destruct (negb _); by apply no_new_frame.
  - apply Hs. unfold user_profiles_invalidated. destruct (bool_decide _); by apply no_new_frame.
  - apply Hs. unfold language_changed. cbv zeta. destruct (navProfile _); [destruct (cachedIsLoggedIn _)|]; by apply no_new_frame.
Qed.
End publication.

(** ** Properties *)
Section runs.
Context {UC : UnicodeCase} {UA : UrlApi} (unnamedUser : jstr -> jstr).
Context (stored : gmap jstr jstr) (h : browser_history) (l : jstr) (v : view).
Local Abbreviation run evs := (auth_run unnamedUser evs (loaded stored h l v)).
Local Abbreviation step := (auth_step unnamedUser).

Lemma auth_run_snoc evs ev : run (evs ++ [ev]) = step ev (run evs).
Proof. unfold auth_run. by rewrite (run_app step). Qed.

Lemma auth_run_ok evs : auth_ok v (run evs).
Proof.
  apply (run_invariant step (auth_ok v)); [by intros; apply auth_step_ok|].
  constructor; [apply (mfa_run_ok [])|by constructor|done|by constructor|done].
Qed.

Lemma auth_run_consented evs c : consented (run evs) c -> given c ∈ evs.
Proof.
  induction evs as [|ev evs IH] using rev_ind; [by destruct c; intros (? & ? & _)|]. rewrite auth_run_snoc.
  intros [Hc|E]%auth_step_consented; [apply elem_of_app; left; by apply IH|apply elem_of_app; right; rewrite <- E; apply list_elem_of_here|].
  apply (auth_run_ok evs).
Qed.

(** C37: the session the page shows is the one its caches hold and the one its listeners were last told: a manager is
    signed in with a manager's permission, a signed-out page keeps no permission or route, and the controls for
    signing in, for users and for managers follow. *)
Theorem session_consistent evs :
  let s := run evs in
  let c := cached s in
  cachedIsManager c = cachedIsLoggedIn c && isManagerFromSession (cachedPermissions c) /\
  (cachedIsLoggedIn c = false -> cachedPermissions c = [] /\ cachedRoutes c = []) /\
  match last_change (actions s) with
  | None => cachedIsLoggedIn c = false /\ flags (shown s) = flags v
  | Some (signedIn, manager, _) =>
    signedIn = cachedIsLoggedIn c /\ manager = cachedIsManager c /\
    flags (shown s) = (negb signedIn, signedIn, manager, signedIn)
  end.
Proof.
  cbv zeta. destruct (ao_agrees v _ (auth_run_ok evs)) as [E H]. destruct (cached (run evs)) as [b m ps rs].
  cbn [cachedIsLoggedIn cachedIsManager cachedPermissions cachedRoutes] in *. injection E as Em Ep Er.
  split_and!; [|intros ->; done|exact H]. rewrite Em. by destruct b; cbn [andb]; [|done].
Qed.

(** C8: logouts do not overlap: a request is sent only when the one before has been answered.  Its answer, whatever it
    is, signs the page out: no name, no remembered account, the overview, and no profile that was still loading
    comes back; what it announces follows the first reason given. *)
Theorem logout_signs_out evs failed :
  let s := run evs in
  let s' := step (LogoutAnswered failed) s in
  logout_log (actions s) = Some (bool_decide (is_Some (logoutPromise s))) /\
  (forall r, logoutPromise s <> None -> logoutPromise (step (Logout r) s) = logoutPromise s) /\
  (logoutPromise s <> None ->
   logoutPromise s' = None /\ cached s' = applySessionCaches false [] [] /\ flags (shown s') = (true, false, false, false) /\
   usernameDisplay (shown s') = [] /\ navProfile (navigation s') = None /\ remembered s' = [] /\
   storage s' !! k_selected = Some overview /\
   forall q a, shown (step (ProfileAnswered q a) s') = shown s').
Proof.
  cbv zeta. pose proof (auth_run_ok evs) as Hs. split_and!; [apply Hs| |].
  - intros r Hl. cbn [auth_step]. unfold logout. cbv zeta. change (logoutPromise (act _ (run evs))) with (logoutPromise (run evs)).
    by destruct (logoutPromise (run evs)) eqn:E; [cbn [act logoutPromise]; rewrite ?E|].
  - intros Hl. cbn [auth_step]. destruct (logout_answered_spec unnamedUser failed (run evs) Hl) as (_ & _ & _ & E4 & _ & E6 & E7 & E8 & E9 & E10).
    destruct (E6 (ao_nav v _ Hs)) as [_ Hq]. pose proof (logout_answered_publication failed (run evs)) as Hp.
    destruct (logoutPromise (run evs)); [|done]. injection Hp as Hc Hf1 Hf2 Hf3 Hf4 _. split_and!; try done.
    + unfold flags. by rewrite Hf1, Hf2, Hf3, Hf4.
    + intros q a. set (s' := logout_answered failed (run evs)) in *. unfold profile_answered. cbv zeta.
      destruct (bool_decide (q ∈ loads (navigation s'))) eqn:E; [|done]. apply bool_decide_eq_true in E. cbn [negb].
      rewrite Forall_forall in Hq. specialize (Hq q E). cbn in Hq.
      by rewrite (proj2 (Nat.eqb_neq q (navProfileLoadSequence (navigation s')))) by lia.
Qed.

(** No passkey prompt can sign in any more. *)
Definition prompts_dead (s : auth) : Prop := forall j, is_Some (fidos (running s) !! j) -> j ∈ aborted_fidos (running s).

Lemma completeLogin_leaves d fallback s :
  calls_ok (running s) -> isLoginPath (pathname (current (pages s))) = true ->
  pages (completeLogin d fallback s) = leaveLoginPage (pages s) /\ prompts_dead (completeLogin d fallback s).
Proof.
  intros Hc Hp. destruct (completeLogin_spec unnamedUser d fallback s) as [_ Hl]. rewrite Hp in Hl. unfold prompts_dead.
  destruct Hl as [-> ->]. split; [done|]. intros j [ph Hj]. destruct (cancel_spec s) as (_ & _ & _ & Ef & _ & _ & _ & _ & Hab).
  rewrite Ef in Hj. apply Hab. destruct (ca_fidos _ Hc j ph Hj) as [_ [?|?]]; [by right|by left].
Qed.

Lemma end_fido_dead k s : prompts_dead s -> prompts_dead (end_fido k s).
Proof.
  intros Hs j Hj. unfold end_fido in Hj |- *. cbv zeta in *.
  assert (Hj' : is_Some (fidos (running s) !! j)).
  { destruct Hj as [ph Hj]. exists ph. by destruct (bool_decide _); cbn in Hj; apply lookup_delete_Some in Hj as [_ Hj]. }
  specialize (Hs j Hj'). by destruct (bool_decide _).
Qed.

(** How a call completes. *)
Definition completes (s : auth) (ev : auth_event) (c : sign_in_call) : Prop :=
  match c with
  | PasswordCall k => exists d, ev = LoginStep k (LoginOk d)
  | PasskeyCall k =>
    exists d, ev = FidoStep k (FidoSessionDecoded d) /\ fidoLoginAbort (running s) = Some k /\ k ∉ aborted_fidos (running s)
  | FactorCall k => exists d, ev = SecondStep (SessionDecoded k d) /\ active (second s) = true /\ k ∉ aborted (second s)
  end.

(** C7: a page that is signed out becomes signed in only by the server's answer to [/api/auth/me], or by a remembered
    account when that answer is an error other than 401, or by a sign-in whose consent was given: with the password,
    with the only passkey prompt still alive, or with a factor of the live challenge.  From the sign-in page such a
    sign-in goes back to the page it was opened from, and leaves no passkey prompt that could still sign in. *)
Theorem sign_in_earned evs ev :
  let s := run evs in
  let s' := step ev s in
  cachedIsLoggedIn (cached s) = false -> cachedIsLoggedIn (cached s') = true ->
  (exists k d, ev = MeAnswered k (MeOk d)) \/
  (exists k status, ev = MeAnswered k (MeStatus status) /\ status <> 401%Z /\ remembered s <> []) \/
  (exists c, given c ∈ evs /\ completes s ev c /\
    (isLoginPath (pathname (current (pages s))) = true ->
     pages s' = leaveLoginPage (pages s) /\ prompts_dead s')).
Proof.
  cbv zeta. intros Hout Hin. pose proof (auth_run_ok evs) as Hs. set (s := run evs) in *.
  destruct (auth_step_publishes unnamedUser ev s (ao_second v _ Hs)) as [E|(b & name & ps & rs & E & Hsrc)].
  { injection E as E _ _. congruence. }
  assert (b = true) as ->. { destruct b; [done|]. injection E as E _ _. by rewrite E in Hin. }
  specialize (Hsrc eq_refl). clear E. destruct Hsrc as [k d w|k status w|k n d Hk|k n d Hk Hab|k f d Hk Hab].
  - left. by exists k, d.
  - right. left. by exists k, status.
  - right. right. exists (PasswordCall k). split_and!.
    + apply auth_run_consented. by exists (LoginPost n).
    + by exists d.
    + cbn [auth_step]. unfold login_step. rewrite Hk. apply (completeLogin_leaves d n (end_login k s)). by eapply calls_ok_next, Hs.
  - right. right. exists (PasskeyCall k). split_and!.
    + apply auth_run_consented. by exists (FidoDecode n).
    + exists d. split_and!; try done. by destruct (ca_fidos _ (ao_calls v _ Hs) k _ Hk) as [_ [?|?]].
    + cbn [auth_step]. unfold fido_step, fido_aborted. rewrite Hk, bool_decide_eq_false_2 by done. intros Hp.
      destruct (completeLogin_leaves d n s (ao_calls v _ Hs) Hp) as [Hpages Hf]. split; [by rewrite (proj2 (end_fido_quiet k _))|].
      by apply end_fido_dead.
  - right. right. exists (FactorCall k). split_and!.
    + apply auth_run_consented. by exists (AwaitSession f (sequence (second s))).
    + exists d. split_and!; try done. by apply (mo_verify _ (ao_second v _ Hs) k _ (sequence (second s)) Hk eq_refl).
    + cbn [auth_step]. destruct (second_step_spec unnamedUser (SessionDecoded k d) s (ao_second v _ Hs)) as [_ [E|(k' & d' & f' & E' & _ & _ & E)]].
      * cbn [auth_step] in Hin. rewrite E in Hin. cbn in Hin. congruence.
      * injection E' as <- <-. rewrite E. apply (completeLogin_leaves d [] (set_second (mfa_step (SessionDecoded k d) (second s)) s)). apply Hs.
Qed.
End runs.

(** ** A sign-in and its end *)
Section example.
#[local] Existing Instance latin_case.
#[local] Existing Instance simple_url.

Definition ann : option details :=
  Some {| permissions := Some [PermissionText (js "manager")]; routes := None; access_name := Some (js "ann") |}.
Definition history0 : browser_history := {| current := {| pathname := js "/releases/a.jar"; search := [] |}; back := [] |}.
Definition view0 : view :=
  {| login_btn := true; user_info := false; manager_only := true; user_only := true; usernameDisplay := []; loginError := None |}.
Definition page0 : auth := loaded ∅ history0 (js "en-US") view0.
Definition no_name (_ : jstr) : jstr := js "Anonymous".

(** A passkey prompt is open when the password signs in. *)
Definition sign_in_run : list auth_event :=
  [SetHandler; LoginClicked; FidoClicked true (js " ann "); LoginSubmitted (js "ann") (js "pw");
   LoginStep 1 (LoginConsentAnswered true)].

Example signs_in_and_out :
  let s := auth_run no_name (sign_in_run ++ [LoginStep 1 (LoginOk ann)]) page0 in
  cachedIsManager (cached s) = true /\ current (pages s) = current (pages page0) /\ aborted_fidos (running s) = [0] /\
  (let s := auth_run no_name [Logout Manual; Logout Expired; LogoutAnswered false; ProfileAnswered 1 (Some {| nickname := Some (js "Ann") |})] s in
   flags (shown s) = (true, false, false, false) /\ usernameDisplay (shown s) = [] /\
   take 3 (actions s) = [SwitchTab overview; StopDashboard; Alert (js "login.signedOut")]).
Proof. vm_compute. done. Qed.

Lemma sign_in_earned_witness :
  let s := auth_run no_name sign_in_run page0 in
  cachedIsLoggedIn (cached s) = false /\ cachedIsLoggedIn (cached (auth_step no_name (LoginStep 1 (LoginOk ann)) s)) = true /\
  ((exists k d, LoginStep 1 (LoginOk ann) = MeAnswered k (MeOk d)) \/
   (exists k status, LoginStep 1 (LoginOk ann) = MeAnswered k (MeStatus status) /\ status <> 401%Z /\ remembered s <> []) \/
   (exists c, given c ∈ sign_in_run /\ completes s (LoginStep 1 (LoginOk ann)) c /\
    (isLoginPath (pathname (current (pages s))) = true ->
     pages (auth_step no_name (LoginStep 1 (LoginOk ann)) s) = leaveLoginPage (pages s) /\
     prompts_dead (auth_step no_name (LoginStep 1 (LoginOk ann)) s)))).
Proof.
  split; [vm_compute; reflexivity|]. split; [vm_compute; reflexivity|].
  unfold page0. apply sign_in_earned; vm_compute; reflexivity.
Defined.

Lemma logout_signs_out_witness :
  let s := auth_run no_name (sign_in_run ++ [LoginStep 1 (LoginOk ann); Logout Manual]) page0 in
  logoutPromise s = Some (Manual, true) /\ logoutPromise (auth_step no_name (Logout Expired) s) = Some (Manual, true) /\
  (forall q a, shown (auth_step no_name (ProfileAnswered q a) (auth_step no_name (LogoutAnswered false) s)) =
               shown (auth_step no_name (LogoutAnswered false) s)).
Proof.
  assert (H : logoutPromise (auth_run no_name (sign_in_run ++ [LoginStep 1 (LoginOk ann); Logout Manual]) page0) = Some (Manual, true))
    by (vm_compute; reflexivity).
  destruct (logout_signs_out no_name ∅ history0 (js "en-US") view0 (sign_in_run ++ [LoginStep 1 (LoginOk ann); Logout Manual]) false) as (_ & H1 & H2).
  change (loaded ∅ history0 (js "en-US") view0) with page0 in *.
  split; [exact H|]. split; [rewrite H1; [exact H|by rewrite H]|]. apply H2. by rewrite H.
Defined.

(** An answer to [/api/auth/me] that comes after a logout signs the page back in. *)
Example stale_answer_signs_in :
  let s := auth_run no_name (Initialize :: sign_in_run ++
    [LoginStep 2 (LoginConsentAnswered true); LoginStep 2 (LoginOk ann); Logout Manual; LogoutAnswered false]) page0 in
  cachedIsLoggedIn (cached s) = false /\ cachedIsLoggedIn (cached (auth_step no_name (MeAnswered 0 (MeOk ann)) s)) = true.
Proof. vm_compute. done. Qed.
End example.
