(* ===== verification/UserProfiles.v ===== *)
(** * Public profiles

    [internal/service/frontend/renop-html/js/user-profiles.js]: the bounded cache of public profiles, the requests it
    shares, the batches of lookups, and what makes cached identities obsolete.  Answers of the server and the
    microtask that flushes the queue are events; each carries the time. *)
From S2P Require Export Prelude JsString JsUri.

(** ** State *)
Section profiles.
Context {UC : UnicodeCase}.
Context {P : Type} (profile_name : P -> jstr).

(** A lookup: its name, the generation it started in, and the queued promise it waits for ([None]: its own fetch). *)
Record request := { r_name : jstr; r_generation : nat; r_source : option nat }.

Inductive profile_action :=
| BatchRequest (names : jstr)            (* the encoded names *)
| ProfileFetch (name : jstr)
| Invalidated (usernames : list jstr)    (* [userProfilesInvalidated] *)
| Changed (username oldUsername : jstr). (* [userProfileChanged] *)

(** Maps are lists in insertion order; promises, requests, flushes and calls are numbers. *)
Record profiles := {
  profileCache : list (jstr * (P * Z));
  profileRequests : list (jstr * nat);
  profileBatchQueue : list (jstr * nat);
  profileBatchScheduled : bool;
  profileCacheGeneration : nat;
  requests : list (nat * request);             (* in flight, oldest first *)
  flushes : list (nat * list (list (jstr * nat)));   (* the batch in flight and those after it *)
  callers : list (nat * nat);                  (* calls and the requests they wait for *)
  next : nat;
  next_call : nat;
  answers : list (nat * option P);             (* newest first; [None]: rejected *)
  sent : list profile_action                   (* newest first *)
}.

Implicit Types s : profiles.

(** ** Maps *)
Definition assoc {A} (k : jstr) (m : list (jstr * A)) : option A := snd <$> List.find (fun e => bool_decide (e.1 = k)) m.
Definition without {A} (k : jstr) (m : list (jstr * A)) : list (jstr * A) := List.filter (fun e => negb (bool_decide (e.1 = k))) m.

(** [Map.prototype.set]: a known key keeps its place. *)
Definition map_set {A} (k : jstr) (v : A) (m : list (jstr * A)) : list (jstr * A) :=
  match assoc k m with
  | Some _ => map (fun e => if bool_decide (e.1 = k) then (k, v) else e) m
  | None => m ++ [(k, v)]
  end.

(** ** Operations *)
Definition PROFILE_CACHE_TTL_MS : Z := 5 * 60 * 1000.
Definition PROFILE_CACHE_MAX_ENTRIES : nat := 256.

Definition set_cache c s : profiles :=
  {| profileCache := c; profileRequests := profileRequests s; profileBatchQueue := profileBatchQueue s;
     profileBatchScheduled := profileBatchScheduled s; profileCacheGeneration := profileCacheGeneration s;
     requests := requests s; flushes := flushes s; callers := callers s; next := next s; next_call := next_call s;
     answers := answers s; sent := sent s |}.
Definition set_requests m s : profiles :=
  {| profileCache := profileCache s; profileRequests := m; profileBatchQueue := profileBatchQueue s;
     profileBatchScheduled := profileBatchScheduled s; profileCacheGeneration := profileCacheGeneration s;
     requests := requests s; flushes := flushes s; callers := callers s; next := next s; next_call := next_call s;
     answers := answers s; sent := sent s |}.
Definition set_queue q b s : profiles :=
  {| profileCache := profileCache s; profileRequests := profileRequests s; profileBatchQueue := q;
     profileBatchScheduled := b; profileCacheGeneration := profileCacheGeneration s;
     requests := requests s; flushes := flushes s; callers := callers s; next := next s; next_call := next_call s;
     answers := answers s; sent := sent s |}.
Definition set_flushes f s : profiles :=
  {| profileCache := profileCache s; profileRequests := profileRequests s; profileBatchQueue := profileBatchQueue s;
     profileBatchScheduled := profileBatchScheduled s; profileCacheGeneration := profileCacheGeneration s;
     requests := requests s; flushes := f; callers := callers s; next := next s; next_call := next_call s;
     answers := answers s; sent := sent s |}.
Definition new_generation s : profiles :=
  {| profileCache := profileCache s; profileRequests := profileRequests s; profileBatchQueue := profileBatchQueue s;
     profileBatchScheduled := profileBatchScheduled s; profileCacheGeneration := S (profileCacheGeneration s);
     requests := requests s; flushes := flushes s; callers := callers s; next := next s; next_call := next_call s;
     answers := answers s; sent := sent s |}.
Definition send a s : profiles :=
  {| profileCache := profileCache s; profileRequests := profileRequests s; profileBatchQueue := profileBatchQueue s;
     profileBatchScheduled := profileBatchScheduled s; profileCacheGeneration := profileCacheGeneration s;
     requests := requests s; flushes := flushes s; callers := callers s; next := next s; next_call := next_call s;
     answers := answers s; sent := a :: sent s |}.
Definition fresh s : profiles :=
  {| profileCache := profileCache s; profileRequests := profileRequests s; profileBatchQueue := profileBatchQueue s;
     profileBatchScheduled := profileBatchScheduled s; profileCacheGeneration := profileCacheGeneration s;
     requests := requests s; flushes := flushes s; callers := callers s; next := S (next s); next_call := next_call s;
     answers := answers s; sent := sent s |}.

(** [cacheUserProfile] *)
Definition cache_set (username : jstr) (profile : P) (now : Z) (c : list (jstr * (P * Z))) : list (jstr * (P * Z)) :=
  let c := List.filter (fun e => negb (e.2.2 <=? now)%Z) (without username c) in
  let c := if PROFILE_CACHE_MAX_ENTRIES <=? length c then tail c else c in
  c ++ [(username, (profile, now + PROFILE_CACHE_TTL_MS)%Z)].

Definition cacheUserProfile (username : jstr) (profile : P) (now : Z) s : profiles :=
  set_cache (cache_set username profile now (profileCache s)) s.

(** [queueUserProfile], the promise it returns; the microtask that flushes is the event [Flush]. *)
Definition queueUserProfile (username : jstr) s : nat * profiles :=
  match assoc username (profileBatchQueue s) with
  | Some q => (q, s)
  | None => (next s, fresh (set_queue (profileBatchQueue s ++ [(username, next s)]) true s))
  end.

Definition normalize (username : jstr) : jstr := to_lower (trim username).

Definition answer_call (call : nat) (r : option P) s : profiles :=
  {| profileCache := profileCache s; profileRequests := profileRequests s; profileBatchQueue := profileBatchQueue s;
     profileBatchScheduled := profileBatchScheduled s; profileCacheGeneration := profileCacheGeneration s;
     requests := requests s; flushes := flushes s; callers := callers s; next := next s; next_call := next_call s;
     answers := (call, r) :: answers s; sent := sent s |}.

(** The call waits for request [r]. *)
Definition wait_call (call r : nat) s : profiles :=
  {| profileCache := profileCache s; profileRequests := profileRequests s; profileBatchQueue := profileBatchQueue s;
     profileBatchScheduled := profileBatchScheduled s; profileCacheGeneration := profileCacheGeneration s;
     requests := requests s; flushes := flushes s; callers := callers s ++ [(call, r)]; next := next s;
     next_call := next_call s; answers := answers s; sent := sent s |}.

Definition add_request (r : nat) (req : request) s : profiles :=
  {| profileCache := profileCache s; profileRequests := profileRequests s; profileBatchQueue := profileBatchQueue s;
     profileBatchScheduled := profileBatchScheduled s; profileCacheGeneration := profileCacheGeneration s;
     requests := requests s ++ [(r, req)]; flushes := flushes s; callers := callers s; next := next s;
     next_call := next_call s; answers := answers s; sent := sent s |}.

Definition next_call_of s : profiles :=
  {| profileCache := profileCache s; profileRequests := profileRequests s; profileBatchQueue := profileBatchQueue s;
     profileBatchScheduled := profileBatchScheduled s; profileCacheGeneration := profileCacheGeneration s;
     requests := requests s; flushes := flushes s; callers := callers s; next := next s;
     next_call := S (next_call s); answers := answers s; sent := sent s |}.

(** The new request of a lookup: its own fetch, or the queue. *)
Definition start_request (name : jstr) (refresh : bool) s : nat * profiles :=
  let r := next s in
  let s := fresh s in
  let generation := profileCacheGeneration s in
  let '(source, s) :=
    if refresh then
      (None, match encodeURIComponent name with Some e => send (ProfileFetch e) s | None => s end)
    else let '(q, s) := queueUserProfile name s in (Some q, s) in
  (r, set_requests (map_set name r (profileRequests s))
        (add_request r {| r_name := name; r_generation := generation; r_source := source |} s)).

(** [getUserProfile] up to its answer. *)
Definition getUserProfile (username : jstr) (refresh : bool) (now : Z) s : profiles :=
  let call := next_call s in
  let s := next_call_of s in
  let normalized := normalize username in
  if bool_decide (normalized = []) then answer_call call None s
  else
    let cached := assoc normalized (profileCache s) in
    match (if refresh then None else cached ≫= fun '(p, expires) => if (now <? expires)%Z then Some p else None) with
    | Some p => answer_call call (Some p) s
    | None =>
      let s := match cached with Some _ => set_cache (without normalized (profileCache s)) s | None => s end in
      match (if refresh then None else assoc normalized (profileRequests s)) with
      | Some r => wait_call call r s
      | None => let '(r, s) := start_request normalized refresh s in wait_call call r s
      end
    end.

(** The request [r] settles: the cache, its calls, and the shared request if it is still this one. *)
Definition finish_request (r : nat) (req : request) (res : option P) (now : Z) s : profiles :=
  let s := match res with
           | Some p => if r_generation req =? profileCacheGeneration s then cacheUserProfile (r_name req) p now s else s
           | None => s
           end in
  {| profileCache := profileCache s;
     profileRequests := match assoc (r_name req) (profileRequests s) with
                        | Some r' => if r' =? r then without (r_name req) (profileRequests s) else profileRequests s
                        | None => profileRequests s
                        end;
     profileBatchQueue := profileBatchQueue s; profileBatchScheduled := profileBatchScheduled s;
     profileCacheGeneration := profileCacheGeneration s;
     requests := List.filter (fun e => negb (e.1 =? r)) (requests s); flushes := flushes s;
     callers := List.filter (fun c => negb (c.2 =? r)) (callers s); next := next s; next_call := next_call s;
     answers := map (fun c => (c.1, res)) (List.filter (fun c => c.2 =? r) (callers s)) ++ answers s; sent := sent s |}.

(** A queued promise settles: every request that waits for it does. *)
Definition waits_for (q : nat) (e : nat * request) : bool := bool_decide (r_source e.2 = Some q).

Definition settle_queued (q : nat) (res : option P) (now : Z) s : profiles :=
  fold_left (fun s e => finish_request e.1 e.2 res now s) (List.filter (waits_for q) (requests s)) s.

Definition settle_batch (batch : list (jstr * nat)) (res : jstr -> option P) (now : Z) s : profiles :=
  fold_left (fun s e => settle_queued e.2 (res e.1) now s) batch s.

(** *** Batches *)
Fixpoint batches {A} (fuel : nat) (l : list A) : list (list A) :=
  match fuel, l with
  | S fuel, _ :: _ => take 50 l :: batches fuel (drop 50 l)
  | _, _ => []
  end.

Definition batch_names (batch : list (jstr * nat)) : option jstr := encodeURIComponent (join (js ",") (map fst batch)).

(** The next batch of flush [f] that can be sent; names that cannot be encoded reject theirs. *)
Fixpoint send_batches (f : nat) (todo : list (list (jstr * nat))) (now : Z) s : profiles :=
  match todo with
  | [] => s
  | batch :: rest =>
    match batch_names batch with
    | Some names => send (BatchRequest names) (set_flushes (flushes s ++ [(f, todo)]) s)
    | None => send_batches f rest now (settle_batch batch (fun _ => None) now s)
    end
  end.

(** [flushUserProfileBatch] *)
Definition flushUserProfileBatch (now : Z) s : profiles :=
  if negb (profileBatchScheduled s) then s
  else
    let entries := profileBatchQueue s in
    let f := next s in
    send_batches f (batches (length entries) entries) now (fresh (set_queue [] false s)).

(** [new Map(profiles.map(...))]: the last profile of a name. *)
Definition find_profile (ps : list P) (name : jstr) : option P := List.find (fun p => bool_decide (profile_name p = name)) (rev ps).

(** The batch in flight is answered: with profiles, or not at all. *)
Definition batch_answered (f : nat) (answer : option (list P)) (now : Z) s : profiles :=
  match List.find (fun e => e.1 =? f) (flushes s) with
  | Some (_, batch :: rest) =>
    let s := set_flushes (List.filter (fun e => negb (e.1 =? f)) (flushes s)) s in
    send_batches f rest now
      (settle_batch batch (fun name => match answer with Some ps => find_profile ps name | None => None end) now s)
  | _ => s
  end.

(** A fetch of its own is answered. *)
Definition fetch_answered (r : nat) (res : option P) (now : Z) s : profiles :=
  match List.find (fun e => e.1 =? r) (requests s) with
  | Some (_, req) => match r_source req with None => finish_request r req res now s | Some _ => s end
  | None => s
  end.

Definition clearUserProfileCache s : profiles := set_requests [] (set_cache [] (new_generation s)).

Definition invalidateUserProfiles (usernames : list jstr) s : profiles :=
  let invalidated := List.filter (fun u => negb (bool_decide (u = []))) (map normalize usernames) in
  if bool_decide (invalidated = []) then s
  else
    let s := fold_left (fun s u => set_requests (without u (profileRequests s)) (set_cache (without u (profileCache s)) s)) invalidated s in
    send (Invalidated invalidated) (new_generation s).

Definition syncUserProfile (p : P) (oldUsername : jstr) (now : Z) s : profiles :=
  let username := normalize (profile_name p) in
  if bool_decide (username = []) then s
  else
    let s := new_generation s in
    let s := set_requests (without username (profileRequests s)) s in
    let previous := normalize oldUsername in
    let s := if negb (bool_decide (previous = [])) && negb (bool_decide (previous = username))
             then set_cache (without previous (profileCache s)) s else s in
    send (Changed username previous) (cacheUserProfile username p now s).

(** ** Events *)
Inductive profile_event :=
| Get (username : jstr) (refresh : bool) (now : Z)
| Flush (now : Z)
| BatchAnswered (f : nat) (answer : option (list P)) (now : Z)
| FetchAnswered (r : nat) (res : option P) (now : Z)
| ClearCache
| Invalidate (usernames : list jstr)
| Sync (p : P) (oldUsername : jstr) (now : Z).

Definition profile_step (ev : profile_event) s : profiles :=
  match ev with
  | Get username refresh now => getUserProfile username refresh now s
  | Flush now => flushUserProfileBatch now s
  | BatchAnswered f answer now => batch_answered f answer now s
  | FetchAnswered r res now => fetch_answered r res now s
  | ClearCache => clearUserProfileCache s
  | Invalidate usernames => invalidateUserProfiles usernames s
  | Sync p oldUsername now => syncUserProfile p oldUsername now s
  end.

Definition profile_run (evs : list profile_event) s : profiles := fold_left (fun s ev => profile_step ev s) evs s.

Definition no_profiles : profiles :=
  {| profileCache := []; profileRequests := []; profileBatchQueue := []; profileBatchScheduled := false;
     profileCacheGeneration := 0; requests := []; flushes := []; callers := []; next := 0; next_call := 0; answers := [];
     sent := [] |}.
End profiles.

(** ** Maps and the cache *)
Section cache.
Context {P : Type}.

Lemma elem_of_without {A} k (m : list (jstr * A)) e : e ∈ without k m <-> e ∈ m /\ e.1 <> k.
Proof. unfold without. by rewrite elem_of_Lfilter, negb_true_iff, bool_decide_eq_false. Qed.

Lemma without_keys {A} k (m : list (jstr * A)) : NoDup m.*1 -> NoDup (without k m).*1.
Proof. apply NoDup_map_Lfilter. Qed.

Lemma without_length {A} k (m : list (jstr * A)) : length (without k m) <= length m.
Proof. unfold without. induction m as [|e m IH]; cbn; [done|]. destruct (negb _); cbn; lia. Qed.

Lemma assoc_Some {A} k (m : list (jstr * A)) v : assoc k m = Some v -> (k, v) ∈ m.
Proof.
  unfold assoc. intros ([k' w] & Hf & ->)%fmap_Some. apply find_some in Hf as [Hin Hk%bool_decide_eq_true]. cbn in Hk. subst k'.
  by apply list_elem_of_In.
Qed.

Lemma assoc_None {A} k (m : list (jstr * A)) v : assoc k m = None -> (k, v) ∉ m.
Proof.
  unfold assoc. intros Hf%fmap_None Hin. apply list_elem_of_In in Hin.
  pose proof (find_none _ _ Hf _ Hin) as E. cbn in E. by apply bool_decide_eq_false in E.
Qed.

Record cache_ok (c : list (jstr * (P * Z))) : Prop := {
  cache_keys : NoDup c.*1;
  cache_size : length c <= PROFILE_CACHE_MAX_ENTRIES
}.

Lemma cache_without k c : cache_ok c -> cache_ok (without k c).
Proof. intros [H1 H2]. split; [by apply without_keys|]. pose proof (without_length k c). lia. Qed.

Lemma cache_set_ok u (p : P) now c : cache_ok c -> cache_ok (cache_set u p now c).
Proof.
  intros [H1 H2]. unfold cache_set. cbv zeta. set (c1 := List.filter _ (without u c)).
  assert (Hk : NoDup c1.*1) by by apply NoDup_map_Lfilter, without_keys.
  assert (Hu : u ∉ c1.*1).
  { intros (e & E & [[_ Hne]%elem_of_without _]%elem_of_Lfilter)%list_elem_of_fmap. done. }
  assert (Hl : length c1 <= length c).
  { etransitivity; [apply filter_length_le|apply without_length]. }
  set (c2 := if _ <=? length c1 then tail c1 else c1).
  assert (Hk2 : NoDup c2.*1 /\ (u ∉ c2.*1) /\ length c2 < PROFILE_CACHE_MAX_ENTRIES).
  { subst c2. destruct (Nat.leb_spec PROFILE_CACHE_MAX_ENTRIES (length c1)) as [Hle|Hlt]; [|done]. destruct c1 as [|e c1]; [unfold PROFILE_CACHE_MAX_ENTRIES in *; cbn in *; lia|].
    cbn [tail fmap list_fmap length] in *. apply NoDup_cons in Hk as [_ Hk]. apply not_elem_of_cons in Hu as [_ Hu].
    split_and!; [done|done|lia]. }
  destruct Hk2 as (K1 & K2 & K3). split.
  - rewrite fmap_app. apply NoDup_app. split_and!; [done| |apply NoDup_singleton].
    intros x Hx ->%list_elem_of_singleton. by apply K2.
  - rewrite length_app. cbn [length]. lia.
Qed.

Lemma elem_of_cache_set u (p : P) now c e :
  e ∈ cache_set u p now c -> e = (u, (p, now + PROFILE_CACHE_TTL_MS)%Z) \/ e ∈ c /\ e.1 <> u.
Proof.
  unfold cache_set. cbv zeta. intros [He| ->%list_elem_of_singleton]%elem_of_app; [|by left]. right.
  assert (H : e ∈ List.filter (fun e => negb (e.2.2 <=? now)%Z) (without u c)).
  { destruct (_ <=? _); [|done]. destruct (List.filter _ _) as [|x l]; [done|]. by apply list_elem_of_further. }
  apply elem_of_Lfilter in H as [H%elem_of_without _]. done.
Qed.
End cache.

(** ** What a settled request changes *)
Section settling.
Context {UC : UnicodeCase} {P : Type} (profile_name : P -> jstr).
Implicit Types s : @profiles P.

(** The promise of request [r] settles with [p] in [ev]. *)
Definition settled_with s (ev : @profile_event P) (r : nat) (req : request) (p : P) : Prop :=
  match ev with
  | FetchAnswered r' res _ => r' = r /\ res = Some p /\ r_source req = None
  | BatchAnswered f (Some ps) _ => exists name batch rest q, (f, batch :: rest) ∈ flushes s /\ (name, q) ∈ batch /\
      r_source req = Some q /\ find_profile profile_name ps name = Some p
  | _ => False
  end.

(** From [s0] on, only requests settle, with the answers [ans]. *)
Record settles (ans : nat -> request -> P -> Prop) (s0 s : @profiles P) : Prop := {
  se_generation : profileCacheGeneration s = profileCacheGeneration s0;
  se_requests : forall e, e ∈ requests s -> e ∈ requests s0;
  se_cache : forall e, e ∈ profileCache s -> e ∈ profileCache s0 \/
    exists r req, (r, req) ∈ requests s0 /\ r_generation req = profileCacheGeneration s0 /\ r_name req = e.1 /\ ans r req e.2.1;
  se_ok : cache_ok (profileCache s0) -> cache_ok (profileCache s)
}.

Lemma settles_refl ans s : settles ans s s.
Proof. constructor; try done. intros. by left. Qed.

Lemma finish_settles ans s0 s r req res now :
  (r, req) ∈ requests s0 -> (forall p, res = Some p -> ans r req p) -> settles ans s0 s ->
  settles ans s0 (finish_request r req res now s).
Proof.
  intros Hin Hans [H1 H2 H3 H4].
  assert (Hs : settles ans s0 (match res with
    | Some p => if r_generation req =? profileCacheGeneration s then cacheUserProfile (r_name req) p now s else s
    | None => s end)).
  { destruct res as [p|]; [|done]. destruct (r_generation req =? profileCacheGeneration s) eqn:E; [|done]. apply Nat.eqb_eq in E.
    constructor; cbn; try done.
    - intros e [->|[He _]]%elem_of_cache_set; [|by apply H3]. right. exists r, req. split_and!; [done|congruence|done|by apply Hans].
    - intros Hc. by apply cache_set_ok, H4. }
  destruct Hs as [K1 K2 K3 K4]. constructor; cbn; try done. intros e [He _]%elem_of_Lfilter. by apply K2.
Qed.

Lemma settle_queued_settles ans s0 s q res now :
  (forall r req p, (r, req) ∈ requests s0 -> r_source req = Some q -> res = Some p -> ans r req p) ->
  settles ans s0 s -> settles ans s0 (settle_queued q res now s).
Proof.
  intros Hans Hs. unfold settle_queued. apply fold_left_invariant; [done|].
  intros s1 [r req] [Hin Hw%bool_decide_eq_true]%elem_of_Lfilter H1. assert (Hin0 := se_requests _ _ _ Hs _ Hin).
  apply finish_settles; [done| |done]. intros p. by apply Hans.
Qed.

Lemma settle_batch_settles ans s0 s batch res now :
  (forall n q r req p, (n, q) ∈ batch -> (r, req) ∈ requests s0 -> r_source req = Some q -> res n = Some p -> ans r req p) ->
  settles ans s0 s -> settles ans s0 (settle_batch batch res now s).
Proof.
  intros Hans Hs. unfold settle_batch. apply fold_left_invariant; [done|]. intros s1 [n q] Hin. apply settle_queued_settles.
  intros r req p Hr Hq. by apply (Hans n q).
Qed.

Lemma send_batches_settles ans s0 f todo now s : settles ans s0 s -> settles ans s0 (send_batches f todo now s).
Proof.
  revert s. induction todo as [|b todo IH]; intros s Hs; [done|]. cbn [send_batches]. destruct (batch_names b).
  - destruct Hs as [H1 H2 H3 H4]. by constructor.
  - by apply IH, settle_batch_settles.
Qed.

(** *** Identity changes *)

(** An event that makes a cached profile of [u] obsolete. *)
Definition obsoletes (u : jstr) (ev : @profile_event P) : Prop :=
  match ev with
  | ClearCache => True
  | Invalidate usernames => u ∈ map normalize usernames
  | Sync p old _ => normalize (profile_name p) <> [] /\ (u = normalize (profile_name p) \/ u = normalize old)
  | _ => False
  end.

(** Where a cache entry comes from. *)
Inductive cached_by s : jstr -> P -> @profile_event P -> Prop :=
| by_request u p ev r req : (r, req) ∈ requests s -> r_generation req = profileCacheGeneration s -> r_name req = u ->
    settled_with s ev r req p ->
    profileCacheGeneration (profile_step profile_name ev s) = profileCacheGeneration s -> cached_by s u p ev
| by_sync p old now : normalize (profile_name p) <> [] -> cached_by s (normalize (profile_name p)) p (Sync p old now).

Lemma start_request_spec name refresh s :
  let '(r, s') := start_request name refresh s in
  profileCache s' = profileCache s /\ profileCacheGeneration s' = profileCacheGeneration s /\ flushes s' = flushes s /\ r = next s /\
  exists src, (forall q, src = Some q -> (name, q) ∈ profileBatchQueue s') /\ requests s' = requests s ++ [(r, {| r_name := name; r_generation := profileCacheGeneration s; r_source := src |})].
Proof.
  unfold start_request. destruct refresh.
  - destruct (encodeURIComponent name); cbn; (split_and!; try done; exists None; split; [done|reflexivity]).
  - unfold queueUserProfile. destruct (assoc name _) as [q|] eqn:E; cbn; (split_and!; try done; eexists; split; [|reflexivity]); intros q' [= <-].
    + by apply assoc_Some in E.
    + apply elem_of_app. right. apply list_elem_of_here.
Qed.

Lemma getUserProfile_spec username refresh now s :
  let s' := getUserProfile username refresh now s in
  profileCacheGeneration s' = profileCacheGeneration s /\ (forall e, e ∈ profileCache s' -> e ∈ profileCache s) /\
  (cache_ok (profileCache s) -> cache_ok (profileCache s')) /\
  (forall e, e ∈ requests s' -> e ∈ requests s \/
     e.1 = next s /\ r_name e.2 = normalize username /\ r_generation e.2 = profileCacheGeneration s /\
     forall q, r_source e.2 = Some q -> (normalize username, q) ∈ profileBatchQueue s') /\
  flushes s' = flushes s.
Proof.
  unfold getUserProfile. cbv zeta. destruct (bool_decide _); [split_and!; try done; by left|].
  destruct (if refresh then None else _); [split_and!; try done; by left|].
  set (s1 := match assoc _ (profileCache _) with Some _ => _ | None => _ end).
  assert (H1 : profileCacheGeneration s1 = profileCacheGeneration s /\ requests s1 = requests s /\ next s1 = next s /\
    flushes s1 = flushes s /\ (forall e, e ∈ profileCache s1 -> e ∈ profileCache s) /\ (cache_ok (profileCache s) -> cache_ok (profileCache s1))).
  { subst s1. destruct (assoc _ _); [|done]. split_and!; try done; [by intros e [? _]%elem_of_without|apply cache_without]. }
  destruct H1 as (G1 & R1 & N1 & F1 & C1 & K1). clearbody s1. destruct (if refresh then None else _) as [r|].
  - split_and!; try done. intros e He. left. cbn in He. by rewrite R1 in He.
  - pose proof (start_request_spec (normalize username) refresh s1) as H. destruct (start_request _ _ _) as [r s2].
    destruct H as (C2 & G2 & F2 & -> & src & Hq & R2). cbn [wait_call profileCacheGeneration profileCache requests flushes profileBatchQueue].
    rewrite C2, G2, R2, R1, G1, F2, F1, N1. split_and!; try done.
    intros e [?| ->%list_elem_of_singleton]%elem_of_app; [by left|by right].
Qed.

Lemma invalidated_spec us s :
  let s' := fold_left (fun s u => set_requests (without u (profileRequests s)) (set_cache (without u (profileCache s)) s)) us s in
  profileCacheGeneration s' = profileCacheGeneration s /\ requests s' = requests s /\
  (forall e, e ∈ profileCache s' -> e ∈ profileCache s /\ (e.1 ∉ us)) /\ (cache_ok (profileCache s) -> cache_ok (profileCache s')).
Proof.
  revert s. induction us as [|u us IH]; intros s; cbn [fold_left]; [split_and!; try done; intros e ?; split; [done|by intros ?%not_elem_of_nil]|].
  destruct (IH (set_requests (without u (profileRequests s)) (set_cache (without u (profileCache s)) s))) as (G & R & C & K).
  cbn zeta. rewrite G, R. split_and!; try done.
  - intros e [[He Hne]%elem_of_without Hn]%C. split; [done|]. by apply not_elem_of_cons.
  - intros Hc. by apply K, cache_without.
Qed.

(** What one event does to the generation, the requests and the cache. *)
Lemma profile_step_spec ev s :
  let s' := profile_step profile_name ev s in
  profileCacheGeneration s <= profileCacheGeneration s' /\
  (cache_ok (profileCache s) -> cache_ok (profileCache s')) /\
  (forall e, e ∈ requests s' -> e ∈ requests s \/
     exists u refresh now, ev = Get u refresh now /\ e.1 = next s /\ r_name e.2 = normalize u /\
       r_generation e.2 = profileCacheGeneration s) /\
  (forall e, e ∈ profileCache s' -> e.1 <> [] ->
     (e ∈ profileCache s /\ ~ obsoletes e.1 ev) \/ cached_by s e.1 e.2.1 ev) /\
  (forall u, u <> [] -> obsoletes u ev -> profileCacheGeneration s < profileCacheGeneration s').
Proof.
  assert (Hs : forall s' : @profiles P, s' = profile_step profile_name ev s -> (forall u, ~ obsoletes u ev) -> settles (settled_with s ev) s s' ->
    profileCacheGeneration s <= profileCacheGeneration s' /\ (cache_ok (profileCache s) -> cache_ok (profileCache s')) /\
    (forall e, e ∈ requests s' -> e ∈ requests s \/
       exists u refresh now, ev = Get u refresh now /\ e.1 = next s /\ r_name e.2 = normalize u /\
         r_generation e.2 = profileCacheGeneration s) /\
    (forall e, e ∈ profileCache s' -> e.1 <> [] -> (e ∈ profileCache s /\ ~ obsoletes e.1 ev) \/ cached_by s e.1 e.2.1 ev) /\
    (forall u, u <> [] -> obsoletes u ev -> profileCacheGeneration s < profileCacheGeneration s')).
  { intros s' -> Hno [H1 H2 H3 H4]. split_and!; [by rewrite H1|done| | |].
    - intros e He. left. by apply H2.
    - intros e He _. destruct (H3 e He) as [?|(r & req & Hr & Hg & Hn & Ha)]; [left; split; [done|apply Hno]|]. right.
      by eapply by_request.
    - intros u _ Ho. by apply Hno in Ho. }
  cbv zeta. destruct ev as [u rf now|now|f a now|r a now| |us|p old now].
  - destruct (getUserProfile_spec u rf now s) as (G & C & K & R & _). cbn [profile_step]. rewrite G. split_and!; try done.
    + intros e [?|(? & ? & ? & _)]%R; [by left|right]. by exists u, rf, now.
    + intros e He _. left. split; [by apply C|]. by intros ?.
  - apply Hs; [done|by intros u ?|]. cbn [profile_step]. unfold flushUserProfileBatch. destruct (negb _); [apply settles_refl|].
    apply send_batches_settles. destruct (settles_refl (settled_with s (Flush now)) s). by constructor.
  - apply Hs; [done|by intros u ?|]. cbn [profile_step]. unfold batch_answered.
    destruct (List.find _ _) as [[f' [|b rest]]|] eqn:E; try apply settles_refl.
    apply find_some in E as [Hin%list_elem_of_In E%Nat.eqb_eq]. cbn in E. subst f'.
    apply send_batches_settles, settle_batch_settles; [|destruct (settles_refl (settled_with s (BatchAnswered f a now)) s); by constructor].
    intros n q r req p Hb _ Hq Hp. destruct a as [ps|]; [|done]. by exists n, b, rest, q.
  - apply Hs; [done|by intros u ?|]. cbn [profile_step]. unfold fetch_answered.
    destruct (List.find _ _) as [[r' req]|] eqn:E; [|apply settles_refl]. destruct (r_source req) eqn:Eq; [apply settles_refl|].
    apply find_some in E as [Hin E%Nat.eqb_eq]. cbn in E. subst r'. apply finish_settles; [by apply list_elem_of_In| |apply settles_refl].
    intros p ->. by split_and!.
  - cbn. split_and!; try done; [lia|by constructor; [constructor|cbn; lia]|by left|by intros e ?%not_elem_of_nil|lia].
  - cbn [profile_step]. unfold invalidateUserProfiles. cbv zeta. set (inv := List.filter _ (map normalize us)).
    assert (Hinv : forall u, u <> [] -> obsoletes u (Invalidate us) -> u ∈ inv).
    { intros u Hne Hu. apply elem_of_Lfilter. split; [done|]. apply negb_true_iff, bool_decide_eq_false. done. }
    destruct (bool_decide (inv = [])) eqn:E; [apply bool_decide_eq_true in E|].
    + split_and!; try done; [by left| |].
      * intros e He Hne. left. split; [done|]. intros Hu%Hinv; [|done]. rewrite E in Hu. by apply not_elem_of_nil in Hu.
      * intros u Hne Hu%Hinv; [|done]. rewrite E in Hu. by apply not_elem_of_nil in Hu.
    + destruct (invalidated_spec inv s) as (G & R & C & K). set (s1 := fold_left _ inv s) in *. cbn. rewrite G, R. split_and!; try done; [lia|by left| |lia].
      intros e [He Hn]%C Hne. left. split; [done|]. by intros ?%Hinv.
  - cbn [profile_step]. unfold syncUserProfile. cbv zeta. destruct (bool_decide (normalize (profile_name p) = [])) eqn:E.
    + apply bool_decide_eq_true in E. split_and!; try done; [by left| |by intros u _ [? _]]. intros e He _. left. split; [done|].
      intros [? _]. done.
    + apply bool_decide_eq_false in E.
      set (s1 := set_requests _ (new_generation s)). set (s2 := if _ && _ then _ else s1).
      assert (H2 : profileCacheGeneration s2 = S (profileCacheGeneration s) /\ requests s2 = requests s /\
        (cache_ok (profileCache s) -> cache_ok (profileCache s2)) /\
        (forall e, e ∈ profileCache s2 -> e.1 <> [] -> e ∈ profileCache s /\ (e.1 = normalize old -> e.1 = normalize (profile_name p)))).
      { subst s2. destruct (bool_decide (normalize old = [])) eqn:E1, (bool_decide (normalize old = normalize (profile_name p))) eqn:E2;
          cbn [negb andb]; (split_and!; [done|done| |]); try done.
        - intros e He Hne. split; [done|]. intros ->. by apply bool_decide_eq_true in E2.
        - intros e He Hne. split; [done|]. apply bool_decide_eq_true in E1. intros Ee. congruence.
        - intros e He Hne. split; [done|]. intros ->. by apply bool_decide_eq_true in E2.
        - apply cache_without.
        - intros e [He Hn]%elem_of_without Hne. split; [done|]. done. }
      destruct H2 as (G & R & K & C). clearbody s2. cbn. rewrite G, R. split_and!.
      * lia.
      * intros Hc. by apply cache_set_ok, K.
      * by left.
      * intros e [->|[He Hn]]%elem_of_cache_set Hne; [right; by apply by_sync|]. left. destruct (C e He Hne) as [? Hold]. split; [done|].
        intros [_ [?|?]]; [done|]. by apply Hn, Hold.
      * intros u _ _. lia.
Qed.
End settling.

(** ** Properties *)
Section runs.
Context {UC : UnicodeCase} {P : Type} (profile_name : P -> jstr).
Local Abbreviation run evs := (profile_run profile_name evs (no_profiles (P := P))).

Lemma profile_run_snoc evs ev : run (evs ++ [ev]) = profile_step profile_name ev (run evs).
Proof. unfold profile_run. by rewrite (run_app (profile_step profile_name)). Qed.
End runs.

(** *** Calls *)
Section answers.
Context {UC : UnicodeCase} {P : Type} (profile_name : P -> jstr).
Local Abbreviation run evs := (profile_run profile_name evs (no_profiles (P := P))).
Implicit Types s : @profiles P.

(** The promises that are queued or in a batch. *)
Definition pend s : list (jstr * nat) := profileBatchQueue s ++ flat_map (fun f => concat f.2) (flushes s).

(** The profile of a name, as the server or an update spells it. *)
Definition own (name : jstr) (p : P) : Prop := profile_name p = name \/ normalize (profile_name p) = name.

(** Call [c] asked for [name]. *)
Definition asked (evs : list (@profile_event P)) (c : nat) (name : jstr) : Prop :=
  exists pre post username refresh now, evs = pre ++ Get username refresh now :: post /\ next_call (run pre) = c /\
    name = normalize username.

(** The calls and requests of a run; [Own name p]: [p] may be given to those who ask for [name]. *)
Section calls.
Variable Own : jstr -> P -> Prop.
Hypothesis own_Own : forall name p, own name p -> Own name p.

(** [A] relates calls to names; [o] are the calls being made, [ex] the promises being settled. *)
Record calls_inv (A : nat -> jstr -> Prop) (o : list nat) (ex : list (jstr * nat)) s : Prop := {
  ci_calls : (answers s).*1 ++ (callers s).*1 ++ o ≡ₚ seq 0 (next_call s);
  ci_callers : forall c r, (c, r) ∈ callers s -> exists req, (r, req) ∈ requests s /\ A c (r_name req);
  ci_answers : forall c p, (c, Some p) ∈ answers s -> exists name, A c name /\ Own name p;
  ci_cache : forall u p e, (u, (p, e)) ∈ profileCache s -> Own u p;
  ci_ids : NoDup (requests s).*1;
  ci_next : forall r, r ∈ (requests s).*1 -> r < next s;
  ci_source : forall r req q, (r, req) ∈ requests s -> r_source req = Some q -> (r_name req, q) ∈ pend s ++ ex;
  ci_pend : NoDup (pend s ++ ex).*2;
  ci_pend_next : forall q, q ∈ (pend s ++ ex).*2 -> q < next s;
  ci_flushes : NoDup (flushes s).*1;
  ci_flush_next : forall f, f ∈ (flushes s).*1 -> f < next s;
  ci_batches : forall f todo, (f, todo) ∈ flushes s -> todo <> [] /\ Forall (fun b => 0 < length b <= 50) todo;
  ci_scheduled : profileBatchScheduled s = negb (bool_decide (profileBatchQueue s = []));
  ci_keys : NoDup (profileRequests s).*1;
  ci_shared : forall name r, (name, r) ∈ profileRequests s -> exists req, (r, req) ∈ requests s /\ r_name req = name
}.

Lemma keys_unique {A B} (l : list (A * B)) k v w : NoDup l.*1 -> (k, v) ∈ l -> (k, w) ∈ l -> v = w.
Proof.
  intros Hn. induction l as [|[k' x] l IH]; [by intros ?%not_elem_of_nil|]. cbn in Hn. apply NoDup_cons in Hn as [Hk Hn].
  assert (Hl : forall y, (k', y) ∉ l) by (intros y Hy; apply Hk; apply list_elem_of_fmap; by exists (k', y)).
  rewrite !elem_of_cons. intros [[= -> ->]|Hv] [[= ->]|Hw]; try done; [subst; by apply Hl in Hw|subst; by apply Hl in Hv|by apply IH].
Qed.

Lemma values_unique {A B} (l : list (A * B)) k k' v : NoDup l.*2 -> (k, v) ∈ l -> (k', v) ∈ l -> k = k'.
Proof.
  intros Hn. induction l as [|[j x] l IH]; [by intros ?%not_elem_of_nil|]. cbn in Hn. apply NoDup_cons in Hn as [Hk Hn].
  assert (Hl : forall y, (y, x) ∉ l) by (intros y Hy; apply Hk; apply list_elem_of_fmap; by exists (y, x)).
  rewrite !elem_of_cons. intros [[= -> ->]|Hv] [[= ->]|Hw]; try done; [subst; by apply Hl in Hw|subst; by apply Hl in Hv|by apply IH].
Qed.

Lemma partition_perm {A} (p : A -> bool) (l : list A) : List.filter p l ++ List.filter (fun x => negb (p x)) l ≡ₚ l.
Proof.
  induction l as [|x l IH]; [done|]. cbn [List.filter]. destruct (p x); cbn [negb app]; [by rewrite IH|].
  by rewrite <- Permutation_middle, IH.
Qed.

(** *** Settling *)
Lemma cache_inv A o ex u p now s : Own u p -> calls_inv A o ex s -> calls_inv A o ex (cacheUserProfile u p now s).
Proof.
  intros Ho []. constructor; try done. cbn. intros v q e [[= -> -> _]|[Hin _]]%elem_of_cache_set; [done|by eapply ci_cache0].
Qed.

Lemma answered_perm (cs : list (nat * nat)) (an : list (nat * option P)) r res :
  (map (fun c => (c.1, res)) (List.filter (fun c => c.2 =? r) cs) ++ an).*1 ++ (List.filter (fun c => negb (c.2 =? r)) cs).*1
  ≡ₚ an.*1 ++ cs.*1.
Proof.
  rewrite fmap_app. assert (E : (map (fun c => (c.1, res)) (List.filter (fun c => c.2 =? r) cs)).*1 = (List.filter (fun c => c.2 =? r) cs).*1).
  { induction (List.filter _ cs) as [|c l IH]; [done|]. cbn. by f_equal. }
  rewrite E, (Permutation_app_comm _ an.*1), <- app_assoc. apply Permutation_app_head. rewrite <- fmap_app.
  by rewrite (partition_perm (fun c : nat * nat => c.2 =? r) cs).
Qed.

Lemma finish_inv A o ex r req res now s :
  (r, req) ∈ requests s -> (forall p, res = Some p -> Own (r_name req) p) -> calls_inv A o ex s ->
  calls_inv A o ex (finish_request r req res now s).
Proof.
  intros Hr Hown Hs. unfold finish_request.
  set (s1 := match res with Some p => _ | None => s end).
  assert (H1 : calls_inv A o ex s1 /\ requests s1 = requests s).
  { subst s1. destruct res as [p|]; [|done]. destruct (_ =? _); [|done]. split; [by apply cache_inv; [apply Hown|]|done]. }
  clear Hs. destruct H1 as [[C1 C2 C3 C4 C5 C6 C7 C8 C9 C10 C11 C12 C13 C14 C15] E]. rewrite <- E in Hr. clear E. clearbody s1.
  assert (Hkeep : forall r' req', (r', req') ∈ requests s1 -> r' <> r ->
    (r', req') ∈ List.filter (fun e => negb (e.1 =? r)) (requests s1)).
  { intros r' req' Hin Hne. apply elem_of_Lfilter. split; [done|]. cbn. by apply negb_true_iff, Nat.eqb_neq. }
  constructor; cbn; try done.
  - by rewrite app_assoc, answered_perm, <- app_assoc.
  - intros c r' [Hin Hne%negb_true_iff%Nat.eqb_neq]%elem_of_Lfilter. cbn in Hne. destruct (C2 c r' Hin) as (req' & Hreq & Ha).
    exists req'. split; [by apply Hkeep|done].
  - intros c p [Hin|Hin]%elem_of_app; [|by eapply C3]. apply list_elem_of_fmap in Hin as ([c' r'] & [= -> Er] & [Hin Hr']%elem_of_Lfilter).
    cbn in Hr'. apply Nat.eqb_eq in Hr'. subst r'. destruct (C2 c' r Hin) as (req' & Hreq & Ha). exists (r_name req').
    split; [done|]. assert (req' = req) as -> by by eapply keys_unique. by apply Hown.
  - by apply NoDup_map_Lfilter.
  - intros r' (e & -> & [Hin _]%elem_of_Lfilter)%list_elem_of_fmap. apply C6. apply list_elem_of_fmap. by exists e.
  - intros r' req' q [Hin _]%elem_of_Lfilter. by apply C7 with r'.
  - destruct (assoc (r_name req) (profileRequests s1)) as [r'|]; [|done]. destruct (r' =? r); [by apply without_keys|done].
  - intros name r' Hin.
    assert (Hold : (name, r') ∈ profileRequests s1 /\ (r' = r -> False)).
    { destruct (assoc (r_name req) (profileRequests s1)) as [r1|] eqn:Ea.
      - destruct (r1 =? r) eqn:E1.
        + apply Nat.eqb_eq in E1. subst r1. apply elem_of_without in Hin as [Hin Hne]. split; [done|]. intros ->.
          destruct (C15 name r Hin) as (req' & Hreq & <-). apply Hne. cbn. f_equal. by eapply keys_unique.
        + apply Nat.eqb_neq in E1. split; [done|]. intros ->. destruct (C15 name r Hin) as (req' & Hreq & <-).
          assert (req' = req) as -> by by eapply keys_unique. apply assoc_Some in Ea. apply E1. by eapply keys_unique.
      - split; [done|]. intros ->. destruct (C15 name r Hin) as (req' & Hreq & <-).
        assert (req' = req) as -> by by eapply keys_unique. by apply (assoc_None _ _ r) in Ea. }
    destruct Hold as [Hold Hne]. destruct (C15 name r' Hold) as (req' & Hreq & Hn). exists req'. split; [|done]. apply Hkeep; [done|].
    intros ->. by apply Hne.
Qed.

(** All requests that wait for a promise settle with it. *)
Lemma finish_all A o ex res now L : forall s,
  calls_inv A o ex s -> NoDup L.*1 -> (forall e, e ∈ L -> e ∈ requests s) ->
  (forall r req p, (r, req) ∈ L -> res = Some p -> Own (r_name req) p) ->
  let s' := fold_left (fun s e => finish_request e.1 e.2 res now s) L s in
  calls_inv A o ex s' /\ (forall e, e ∈ requests s' -> e ∈ requests s /\ e.1 ∉ L.*1) /\ pend s' = pend s /\
  flushes s' = flushes s /\ next s' = next s /\ next_call s' = next_call s.
Proof.
  induction L as [|[r req] L IH]; intros s Hs Hn Hin Hown; cbn [fold_left fst snd].
  { split_and!; try done. intros e He. split; [done|]. by intros ?%not_elem_of_nil. }
  cbn in Hn. apply NoDup_cons in Hn as [Hr Hn].
  assert (Hr0 : (r, req) ∈ requests s) by (apply Hin, list_elem_of_here).
  destruct (IH (finish_request r req res now s)) as (I1 & I2 & I3 & I4 & I5 & I6).
  - apply finish_inv; [done| |done]. intros p Hp. by apply (Hown r req p); [apply list_elem_of_here|].
  - done.
  - intros e He. cbn. apply elem_of_Lfilter. split.
    + destruct res as [p|]; [destruct (_ =? _)|]; apply Hin; by apply list_elem_of_further.
    + apply negb_true_iff, Nat.eqb_neq. intros E. apply Hr. rewrite <- E. apply list_elem_of_fmap. by exists e.
  - intros r' req' p He. apply (Hown r' req' p). by apply list_elem_of_further.
  - cbv zeta. rewrite I3, I4, I5, I6. cbn. unfold pend, finish_request. cbn.
    assert (E : requests (match res with Some p => if r_generation req =? profileCacheGeneration s then cacheUserProfile (r_name req) p now s else s
                          | None => s end) = requests s) by (by destruct res; [destruct (_ =? _)|]).
    split_and!; [done| |by destruct res; [destruct (_ =? _)|]..]. intros e [He Hne]%I2. cbn in He. rewrite E in He.
    apply elem_of_Lfilter in He as [He Hr']. split; [done|]. apply not_elem_of_cons. split; [|done].
    apply negb_true_iff, Nat.eqb_neq in Hr'. done.
Qed.

Lemma settle_queued_inv A o ex n q res now s :
  calls_inv A o ((n, q) :: ex) s -> (forall p, res = Some p -> Own n p) ->
  let s' := settle_queued q res now s in
  calls_inv A o ex s' /\ pend s' = pend s /\ flushes s' = flushes s /\ next s' = next s /\ next_call s' = next_call s.
Proof.
  intros Hs Hown. unfold settle_queued. cbv zeta. set (L := List.filter (waits_for q) (requests s)).
  assert (HL : forall r req, (r, req) ∈ L -> (r, req) ∈ requests s /\ r_name req = n).
  { intros r req [Hin Hw%bool_decide_eq_true]%elem_of_Lfilter. split; [done|]. cbn in Hw.
    pose proof (ci_source _ _ _ _ Hs r req q Hin Hw) as Hq. eapply values_unique; [apply (ci_pend _ _ _ _ Hs)|exact Hq|].
    apply elem_of_app. right. apply list_elem_of_here. }
  destruct (finish_all A o ((n, q) :: ex) res now L s Hs) as (I1 & I2 & I3 & I4 & I5 & I6).
  - by apply NoDup_map_Lfilter, Hs.
  - intros [r req] He. by apply HL.
  - intros r req p He Hp. destruct (HL r req He) as [_ ->]. by apply Hown.
  - split_and!; try done. destruct I1 as [C1 C2 C3 C4 C5 C6 C7 C8 C9 C10 C11 C12 C13 C14 C15].
    assert (Hsub : forall x, x ∈ (pend s ++ ex).*2 -> x ∈ (pend s ++ (n, q) :: ex).*2).
    { intros x. rewrite !fmap_app, !elem_of_app. intros [?|?]; [by left|right; by apply list_elem_of_further]. }
    constructor; try done.
    + intros r req q' Hin Hq'. pose proof (C7 r req q' Hin Hq') as Hp. rewrite elem_of_app, elem_of_cons in *.
      destruct Hp as [?|[[= En ->]|?]]; [by left| |by right]. exfalso. destruct (I2 _ Hin) as [Hold Hnot]. apply Hnot.
      apply list_elem_of_fmap. exists (r, req). split; [done|]. apply elem_of_Lfilter. split; [done|]. by apply bool_decide_eq_true.
    + rewrite I3 in *. rewrite fmap_app in *. cbn in C8. apply NoDup_app in C8 as (N1 & N2 & [N3 N4]%NoDup_cons).
      apply NoDup_app. split_and!; [done| |done]. intros x Hx Hx'. apply (N2 x Hx). by apply list_elem_of_further.
    + rewrite I3 in *. intros x Hx. by apply C9, Hsub.
Qed.

Lemma settle_batch_inv A o batch res now : forall ex s,
  calls_inv A o (batch ++ ex) s -> (forall n q p, (n, q) ∈ batch -> res n = Some p -> Own n p) ->
  let s' := settle_batch batch res now s in
  calls_inv A o ex s' /\ pend s' = pend s /\ flushes s' = flushes s /\ next s' = next s /\ next_call s' = next_call s.
Proof.
  induction batch as [|[n q] batch IH]; intros ex s Hs Hown; [by split_and!|].
  destruct (settle_queued_inv A o (batch ++ ex) n q (res n) now s Hs) as (I1 & I2 & I3 & I4 & I5).
  { intros p. apply (Hown n q p), list_elem_of_here. }
  destruct (IH ex (settle_queued q (res n) now s) I1) as (J1 & J2 & J3 & J4 & J5).
  { intros n' q' p Hin. apply (Hown n' q' p). by apply list_elem_of_further. }
  cbn [settle_batch fold_left fst snd]. unfold settle_batch in *. cbn [fold_left fst snd].
  by rewrite J2, J3, J4, J5, I2, I3, I4, I5.
Qed.

(** *** Batches *)
Definition fits {B} (b : list B) : Prop := 0 < length b <= 50.

Lemma batches_spec {B} fuel (l : list B) : length l <= fuel -> concat (batches fuel l) = l /\ Forall fits (batches fuel l).
Proof.
  revert l. induction fuel as [|fuel IH]; intros [|x l] Hl; cbn [batches]; [split; [done|constructor]|cbn in Hl; lia|split; [done|constructor]|].
  destruct (IH (drop 50 (x :: l))) as [E F]; [rewrite length_drop; cbn [length] in *; lia|]. cbn [concat]. rewrite E, take_drop.
  split; [done|]. constructor; [|done]. unfold fits. rewrite length_take. cbn [length]. lia.
Qed.

Lemma pend_flushes fl s : pend (set_flushes fl s) = profileBatchQueue s ++ flat_map (fun f => concat f.2) fl.
Proof. done. Qed.

Lemma send_batches_inv A o f now : forall todo s,
  calls_inv A o (concat todo) s -> f ∉ (flushes s).*1 -> f < next s -> Forall fits todo ->
  calls_inv A o [] (send_batches f todo now s) /\ next_call (send_batches f todo now s) = next_call s.
Proof.
  induction todo as [|b todo IH]; intros s Hs Hf Hn Hb; [done|]. cbn [send_batches]. destruct (batch_names b) as [e|].
  - split; [|done]. assert (E : pend (send (BatchRequest e) (set_flushes (flushes s ++ [(f, b :: todo)]) s)) = pend s ++ concat (b :: todo)).
    { unfold pend. cbn. rewrite flat_map_app. cbn. by rewrite app_nil_r, <- app_assoc. }
    destruct Hs as [C1 C2 C3 C4 C5 C6 C7 C8 C9 C10 C11 C12 C13 C14 C15].
    constructor; try done; cbn [flushes send set_flushes].
    + intros r req q. rewrite E, app_nil_r. apply C7.
    + by rewrite E, app_nil_r.
    + rewrite E, app_nil_r. apply C9.
    + rewrite fmap_app. apply NoDup_app. split_and!; [done| |apply NoDup_singleton]. by intros x Hx ->%list_elem_of_singleton.
    + intros g. rewrite fmap_app, elem_of_app. intros [?| ->%list_elem_of_singleton]; [by apply C11|done].
    + intros g td. rewrite elem_of_app. intros [?|[= -> ->]%list_elem_of_singleton]; [by apply (C12 g)|]. by split.
  - destruct (settle_batch_inv A o b (fun _ => None) now (concat todo) s Hs) as (I1 & I2 & I3 & I4 & I5); [done|].
    apply Forall_cons in Hb as [_ Hb]. destruct (IH _ I1) as [J1 J2]; [by rewrite I3|by rewrite I4|done|].
    split; [done|]. by rewrite J2, I5.
Qed.

Lemma ex_perm A o ex ex' s s' :
  calls_inv A o ex s -> pend s ++ ex ≡ₚ pend s' ++ ex' -> answers s' = answers s -> callers s' = callers s -> next_call s' = next_call s ->
  requests s' = requests s -> profileCache s' = profileCache s -> next s <= next s' -> profileRequests s' = profileRequests s ->
  NoDup (flushes s').*1 -> (forall e, e ∈ flushes s' -> e ∈ flushes s) ->
  profileBatchScheduled s' = negb (bool_decide (profileBatchQueue s' = [])) -> calls_inv A o ex' s'.
Proof.
  intros [C1 C2 C3 C4 C5 C6 C7 C8 C9 C10 C11 C12 C13 C14 C15] Hp E1 E2 E3 E4 E5 E6 E7 Hf1 Hf2 Hsch.
  constructor; rewrite ?E1, ?E2, ?E3, ?E4, ?E5, ?E7; try done.
  - intros r Hr. specialize (C6 r Hr). lia.
  - intros r req q Hin Hq. rewrite <- Hp. by apply (C7 r req).
  - by rewrite <- Hp.
  - intros q. rewrite <- Hp. intros Hq. specialize (C9 q Hq). lia.
  - intros f (e & -> & He)%list_elem_of_fmap. assert (H : e.1 ∈ (flushes s).*1) by (apply list_elem_of_fmap; exists e; split; [done|by apply Hf2]).
    specialize (C11 _ H). lia.
  - intros f todo Hin. by apply (C12 f), Hf2.
Qed.

Lemma flush_inv A o now s :
  calls_inv A o [] s -> calls_inv A o [] (flushUserProfileBatch now s) /\ next_call (flushUserProfileBatch now s) = next_call s.
Proof.
  intros Hs. unfold flushUserProfileBatch. destruct (negb _); [done|]. cbv zeta.
  destruct (batches_spec (length (profileBatchQueue s)) (profileBatchQueue s) (Nat.le_refl _)) as [E F].
  apply (send_batches_inv A o (next s) now (batches (length (profileBatchQueue s)) (profileBatchQueue s)) (fresh (set_queue [] false s))).
  - rewrite E. eapply ex_perm; [exact Hs|..]; try done.
    + unfold pend. cbn. rewrite app_nil_r. apply Permutation_app_comm.
    + cbn. lia.
    + apply (ci_flushes _ _ _ _ Hs).
  - cbn. intros Hin%(ci_flush_next _ _ _ _ Hs). lia.
  - cbn. lia.
  - done.
Qed.

Lemma flush_split f todo (fl : list (nat * list (list (jstr * nat)))) :
  NoDup fl.*1 -> (f, todo) ∈ fl ->
  flat_map (fun g => concat g.2) fl ≡ₚ flat_map (fun g => concat g.2) (List.filter (fun e => negb (e.1 =? f)) fl) ++ concat todo.
Proof.
  induction fl as [|[g td] fl IH]; intros Hn Hin; [by apply not_elem_of_nil in Hin|]. cbn in Hn. apply NoDup_cons in Hn as [Hg Hn].
  cbn [flat_map List.filter fst snd]. apply elem_of_cons in Hin as [[= <- <-]|Hin].
  - rewrite Nat.eqb_refl. cbn [negb]. assert (E : List.filter (fun e => negb (e.1 =? f)) fl = fl).
    { clear IH Hn. induction fl as [|[h u] fl IH]; [done|]. cbn in Hg. apply not_elem_of_cons in Hg as [Hh Hg]. cbn [List.filter fst].
      rewrite (proj2 (Nat.eqb_neq h f)) by done. cbn [negb]. by rewrite IH. }
    rewrite E. apply Permutation_app_comm.
  - assert (g <> f) by (intros ->; apply Hg; apply list_elem_of_fmap; by exists (f, todo)).
    rewrite (proj2 (Nat.eqb_neq g f)) by done. cbn [negb flat_map fst snd]. by rewrite <- app_assoc, <- IH.
Qed.

Lemma find_profile_name ps name p : find_profile profile_name ps name = Some p -> profile_name p = name.
Proof. intros [_ E%bool_decide_eq_true]%find_some. done. Qed.

Lemma batch_answered_inv A o f ans now s :
  calls_inv A o [] s -> calls_inv A o [] (batch_answered profile_name f ans now s) /\
  next_call (batch_answered profile_name f ans now s) = next_call s.
Proof.
  intros Hs. unfold batch_answered. destruct (List.find _ _) as [[f' [|b rest]]|] eqn:Hf; try done.
  apply find_some in Hf as [Hin E%Nat.eqb_eq]. cbn in E. subst f'. apply list_elem_of_In in Hin.
  destruct (ci_batches _ _ _ _ Hs f (b :: rest) Hin) as [_ [_ Hb]%Forall_cons]. cbv zeta.
  set (fl := List.filter _ (flushes s)). set (res := fun name => _).
  assert (H1 : calls_inv A o (b ++ concat rest) (set_flushes fl s)).
  { eapply ex_perm; [exact Hs|..]; try done.
    - rewrite pend_flushes, app_nil_r. unfold pend. rewrite <- app_assoc. apply Permutation_app_head.
      by rewrite (flush_split f (b :: rest) _ (ci_flushes _ _ _ _ Hs) Hin).
    - by apply NoDup_map_Lfilter, Hs.
    - intros e [He _]%elem_of_Lfilter. done.
    - apply Hs. }
  destruct (settle_batch_inv A o b res now (concat rest) _ H1) as (I1 & I2 & I3 & I4 & I5).
  { intros n q p _ Hp. subst res. cbn in Hp. destruct ans as [ps|]; [|done]. apply own_Own. left. by eapply find_profile_name. }
  destruct (send_batches_inv A o f now rest _ I1) as [J1 J2].
  - rewrite I3. cbn. intros (e & E & [_ He]%elem_of_Lfilter)%list_elem_of_fmap. apply negb_true_iff, Nat.eqb_neq in He. congruence.
  - rewrite I4. apply (ci_flush_next _ _ _ _ Hs), list_elem_of_fmap. by exists (f, b :: rest).
  - done.
  - split; [done|]. by rewrite J2, I5.
Qed.

Lemma fetch_answered_inv A o r res now s :
  calls_inv A o [] s -> (forall req p, (r, req) ∈ requests s -> res = Some p -> Own (r_name req) p) ->
  calls_inv A o [] (fetch_answered r res now s) /\ next_call (fetch_answered r res now s) = next_call s.
Proof.
  intros Hs Hown. unfold fetch_answered. destruct (List.find _ _) as [[r' req]|] eqn:E; [|done].
  apply find_some in E as [Hin%list_elem_of_In E%Nat.eqb_eq]. cbn in E. subst r'. destruct (r_source req); [done|]. split.
  - apply finish_inv; [done| |done]. intros p. by apply Hown.
  - unfold finish_request. cbn. by destruct res; [destruct (_ =? _)|].
Qed.

(** *** Identity changes *)
Lemma cache_change_inv A o ex c m s :
  calls_inv A o ex s -> (forall e, e ∈ c -> e ∈ profileCache s) -> NoDup m.*1 -> (forall e, e ∈ m -> e ∈ profileRequests s) ->
  calls_inv A o ex (set_requests m (set_cache c s)).
Proof.
  intros [] Hc Hm1 Hm2. constructor; try done; cbn.
  - intros u p e Hin. by eapply ci_cache0, Hc.
  - intros name r Hin. by apply ci_shared0, Hm2.
Qed.

Lemma generation_inv A o ex s : calls_inv A o ex s -> calls_inv A o ex (new_generation s).
Proof. intros []. by constructor. Qed.

Lemma send_inv A o ex a s : calls_inv A o ex s -> calls_inv A o ex (send a s).
Proof. intros []. by constructor. Qed.

Lemma set_cache_inv A o ex c s : calls_inv A o ex s -> (forall e, e ∈ c -> e ∈ profileCache s) -> calls_inv A o ex (set_cache c s).
Proof. intros [] Hc. constructor; try done; cbn. intros u p e Hin. by eapply ci_cache0, Hc. Qed.

Lemma set_requests_inv A o ex name s :
  calls_inv A o ex s -> calls_inv A o ex (set_requests (without name (profileRequests s)) s).
Proof.
  intros []. constructor; try done; cbn; [by apply without_keys|]. intros n r [Hin _]%elem_of_without. by apply ci_shared0.
Qed.

Lemma identity_inv A o ev s :
  (match ev with ClearCache | Invalidate _ | Sync _ _ _ => True | _ => False end) ->
  calls_inv A o [] s -> calls_inv A o [] (profile_step profile_name ev s) /\ next_call (profile_step profile_name ev s) = next_call s.
Proof.
  intros Hev Hs. destruct ev as [| | | | |us|p old now]; try done; cbn [profile_step].
  - split; [|done]. apply (cache_change_inv A o [] [] [] (new_generation s)); [by apply generation_inv|..].
    + by intros ? ?%not_elem_of_nil.
    + constructor.
    + by intros ? ?%not_elem_of_nil.
  - unfold invalidateUserProfiles. cbv zeta. destruct (bool_decide _); [done|]. set (inv := List.filter _ _).
    set (s1 := fold_left _ inv s).
    assert (H1 : calls_inv A o [] s1 /\ next_call s1 = next_call s).
    { subst s1. apply (fold_left_invariant _ (fun s' => calls_inv A o [] s' /\ next_call s' = next_call s)); [done|]. intros s' u _ [Hs' E].
      split; [|done]. apply (set_requests_inv A o [] u (set_cache (without u (profileCache s')) s')).
      apply set_cache_inv; [done|]. by intros e [? _]%elem_of_without. }
    split; [|apply H1]. apply send_inv, generation_inv, H1.
  - unfold syncUserProfile. cbv zeta. destruct (bool_decide _); [done|].
    set (s1 := set_requests _ (new_generation s)).
    assert (H1 : calls_inv A o [] s1) by (apply (set_requests_inv A o [] _ (new_generation s)); by apply generation_inv).
    set (s2 := if _ && _ then _ else s1).
    assert (H2 : calls_inv A o [] s2 /\ next_call s2 = next_call s).
    { subst s2. destruct (_ && _); [|done]. split; [|done]. apply set_cache_inv; [done|]. by intros e [? _]%elem_of_without. }
    split; [|apply H2]. apply send_inv, cache_inv; [by apply own_Own; right|apply H2].
Qed.

(** *** Lookups *)
Lemma inv_mono (A A' : nat -> jstr -> Prop) o ex s :
  (forall c n, A c n -> A' c n) -> calls_inv A o ex s -> calls_inv A' o ex s.
Proof.
  intros HA []. constructor; try done.
  - intros c r Hin. destruct (ci_callers0 c r Hin) as (req & ? & ?). exists req. split; [done|by apply HA].
  - intros c p Hin. destruct (ci_answers0 c p Hin) as (n & ? & ?). exists n. split; [by apply HA|done].
Qed.

Lemma next_call_inv A s : calls_inv A [] [] s -> calls_inv A [next_call s] [] (next_call_of s).
Proof.
  intros []. constructor; try done. cbn [next_call_of answers callers next_call]. rewrite seq_S, app_assoc.
  apply Permutation_app_tail. by rewrite <- ci_calls0, app_nil_r.
Qed.

Lemma answer_inv A c r s :
  calls_inv A [c] [] s -> (forall p, r = Some p -> exists n, A c n /\ Own n p) -> calls_inv A [] [] (answer_call c r s).
Proof.
  intros [] Hr. constructor; try done; cbn.
  - rewrite <- ci_calls0, app_nil_r, (app_assoc _ _ [c]). by rewrite (Permutation_app_comm (_ ++ _) [c]).
  - intros c' p [[= -> E]|Hin]%elem_of_cons; [by apply Hr|by apply ci_answers0].
Qed.

Lemma wait_inv A c r req s :
  calls_inv A [c] [] s -> (r, req) ∈ requests s -> A c (r_name req) -> calls_inv A [] [] (wait_call c r s).
Proof.
  intros [] Hr HA. constructor; try done; cbn.
  - rewrite fmap_app, app_nil_r. done.
  - intros c' r' [Hin|[= -> ->]%list_elem_of_singleton]%elem_of_app; [by apply ci_callers0|by exists req].
Qed.

Lemma assoc_set_keys (k : jstr) (v : nat) m : NoDup m.*1 -> NoDup (map_set k v m).*1.
Proof.
  intros Hn. unfold map_set. destruct (assoc k m) as [w|] eqn:E.
  - assert (Ek : (map (fun e => if bool_decide (e.1 = k) then (k, v) else e) m).*1 = m.*1); [|by rewrite Ek].
    clear. induction m as [|[j x] m IH]; [done|]. cbn. f_equal; [|done]. destruct (bool_decide (j = k)) eqn:Ej; [|done].
    apply bool_decide_eq_true in Ej. done.
  - rewrite fmap_app. apply NoDup_app. split_and!; [done| |apply NoDup_singleton]. intros x (e & -> & He)%list_elem_of_fmap Hx.
    apply list_elem_of_singleton in Hx. destruct e as [j w]. cbn in Hx. subst j. by apply (assoc_None _ _ w) in E.
Qed.

Lemma elem_of_map_set (k : jstr) (v : nat) m e : e ∈ map_set k v m -> e = (k, v) \/ e ∈ m.
Proof.
  unfold map_set. destruct (assoc k m).
  - intros (x & -> & Hx)%list_elem_of_fmap. destruct (bool_decide _); [by left|by right].
  - intros [?| ->%list_elem_of_singleton]%elem_of_app; [by right|by left].
Qed.

(** A fresh request whose source is pending. *)
Lemma add_request_inv A o r name src s s' :
  calls_inv A o [] s -> r = next s -> S r <= next s' ->
  requests s' = requests s -> answers s' = answers s -> callers s' = callers s -> next_call s' = next_call s ->
  profileCache s' = profileCache s -> profileRequests s' = profileRequests s -> flushes s' = flushes s ->
  profileBatchScheduled s' = negb (bool_decide (profileBatchQueue s' = [])) ->
  (forall e, e ∈ pend s -> e ∈ pend s') -> NoDup (pend s').*2 -> (forall q, q ∈ (pend s').*2 -> q < next s') ->
  (forall q, src = Some q -> (name, q) ∈ pend s') ->
  calls_inv A o [] (set_requests (map_set name r (profileRequests s'))
    (add_request r {| r_name := name; r_generation := profileCacheGeneration s; r_source := src |} s')).
Proof.
  intros [C1 C2 C3 C4 C5 C6 C7 C8 C9 C10 C11 C12 C13 C14 C15] -> Hn E1 E2 E3 E4 E5 E6 E7 Hsch Hp Hp1 Hp2 Hsrc.
  assert (Hnew : next s ∉ (requests s).*1) by (intros Hin%C6; lia).
  constructor; cbn [set_requests add_request answers callers next_call requests profileCache next flushes profileRequests
    profileBatchScheduled profileBatchQueue]; rewrite ?E1, ?E2, ?E3, ?E4, ?E5, ?E6, ?E7; try done.
  - intros c r Hin. destruct (C2 c r Hin) as (req & Hreq & Ha). exists req. split; [|done]. apply elem_of_app. by left.
  - rewrite fmap_app. apply NoDup_app. split_and!; [done| |apply NoDup_singleton]. by intros x Hx ->%list_elem_of_singleton.
  - intros r. rewrite fmap_app, elem_of_app. intros [Hr%C6| ->%list_elem_of_singleton]; cbn; lia.
  - intros r req q. change (pend (set_requests _ (add_request _ _ s'))) with (pend s').
    rewrite app_nil_r, elem_of_app. intros [Hin|[= -> ->]%list_elem_of_singleton] Hq; [|by apply Hsrc].
    apply Hp. pose proof (C7 r req q Hin Hq) as H. by rewrite app_nil_r in H.
  - change (pend (set_requests _ (add_request _ _ s'))) with (pend s'). by rewrite app_nil_r.
  - change (pend (set_requests _ (add_request _ _ s'))) with (pend s'). by rewrite app_nil_r.
  - intros f Hf. specialize (C11 f Hf). lia.
  - by apply assoc_set_keys.
  - intros n r [[= -> ->]|Hin]%elem_of_map_set.
    + exists {| r_name := name; r_generation := profileCacheGeneration s; r_source := src |}. split; [|done].
      apply elem_of_app. right. apply list_elem_of_here.
    + destruct (C15 n r Hin) as (req & Hreq & En). exists req. split; [|done]. apply elem_of_app. by left.
Qed.

Lemma start_request_inv A o name refresh s :
  calls_inv A o [] s ->
  let '(r, s') := start_request name refresh s in
  calls_inv A o [] s' /\ next_call s' = next_call s /\ exists req, (r, req) ∈ requests s' /\ r_name req = name.
Proof.
  intros Hs. pose proof Hs as [C1 C2 C3 C4 C5 C6 C7 C8 C9 C10 C11 C12 C13 C14 C15]. rewrite app_nil_r in C8.
  assert (C9' : forall q, q ∈ (pend s).*2 -> q < next s) by (intros q Hq; apply C9; by rewrite app_nil_r).
  unfold start_request, queueUserProfile. cbn [profileBatchQueue fresh profileCacheGeneration profileRequests].
  destruct refresh; [|destruct (assoc name (profileBatchQueue s)) as [q|] eqn:Eq].
  - set (s1 := match encodeURIComponent name with Some e => _ | None => _ end).
    assert (H1 : s1 = fresh s \/ exists e, s1 = send (ProfileFetch e) (fresh s)) by (subst s1; destruct (encodeURIComponent name); eauto).
    assert (Hr : calls_inv A o [] (set_requests (map_set name (next s) (profileRequests s1))
      (add_request (next s) {| r_name := name; r_generation := profileCacheGeneration s; r_source := None |} s1)) /\ next_call s1 = next_call s).
    { clearbody s1. destruct H1 as [->|[e ->]]; (split; [|done]); apply (add_request_inv A o (next s) name None s); try done; cbn;
        try lia; intros q Hq; specialize (C9' q Hq); lia. }
    destruct Hr as [Hr En]. split_and!; [done|done|]. eexists. split; [apply elem_of_app; right; apply list_elem_of_here|done].
  - split_and!; [|done|eexists; split; [apply elem_of_app; right; apply list_elem_of_here|done]].
    apply (add_request_inv A o (next s) name (Some q) s); try done; cbn; try lia.
    + intros q' Hq'. specialize (C9' q' Hq'). lia.
    + intros q' [= <-]. apply elem_of_app. left. by apply assoc_Some.
  - cbn [next fresh]. split_and!; [|done|eexists; split; [apply elem_of_app; right; apply list_elem_of_here|done]].
    set (s1 := fresh _).
    assert (Ep : pend s1 ≡ₚ pend s ++ [(name, S (next s))]).
    { subst s1. unfold pend. cbn. rewrite <- !app_assoc. apply Permutation_app_head, Permutation_app_comm. }
    apply (add_request_inv A o (next s) name (Some (S (next s))) s s1); try done; subst s1; cbn; try lia.
    + symmetry. apply negb_true_iff, bool_decide_eq_false. by destruct (profileBatchQueue s).
    + intros e He. rewrite Ep, elem_of_app. by left.
    + rewrite Ep, fmap_app. apply NoDup_app. split_and!; [done| |apply NoDup_singleton].
      intros x Hx%C9' Hx'%list_elem_of_singleton. cbn in Hx'. lia.
    + intros q. rewrite Ep, fmap_app, elem_of_app. intros [Hq%C9'|Hq%list_elem_of_singleton]; cbn in *; lia.
    + intros q [= <-]. rewrite Ep, elem_of_app. right. apply list_elem_of_here.
Qed.

Lemma getUserProfile_inv A username refresh now s :
  calls_inv A [] [] s -> A (next_call s) (normalize username) ->
  calls_inv A [] [] (getUserProfile username refresh now s) /\ next_call (getUserProfile username refresh now s) = S (next_call s).
Proof.
  intros Hs HA. pose proof (next_call_inv A s Hs) as H0. unfold getUserProfile. cbv zeta. set (s0 := next_call_of s) in *.
  assert (E0 : next_call s0 = S (next_call s)) by done.
  destruct (bool_decide _); [split; [|done]; by apply answer_inv|].
  destruct (if refresh then None else _) as [p|] eqn:Ec.
  - split; [|done]. apply answer_inv; [done|]. intros p' [= ->]. exists (normalize username). split; [done|].
    destruct refresh; [done|]. apply bind_Some in Ec as ([p1 e] & Ha & E). destruct (now <? e)%Z; [|done]. injection E as ->.
    eapply (ci_cache _ _ _ _ H0). by apply assoc_Some.
  - set (s1 := match assoc _ (profileCache s0) with Some _ => _ | None => s0 end).
    assert (H1 : calls_inv A [next_call s] [] s1 /\ next_call s1 = S (next_call s)).
    { subst s1. destruct (assoc _ _); [|done]. split; [|done]. apply set_cache_inv; [done|]. by intros e [? _]%elem_of_without. }
    destruct H1 as [H1 E1]. clearbody s1. clear Ec. destruct (if refresh then None else _) as [r|] eqn:Er.
    + split; [|done]. destruct refresh; [done|]. apply assoc_Some in Er.
      destruct (ci_shared _ _ _ _ H1 _ r Er) as (req & Hreq & En). apply (wait_inv A _ r req); [done|done|]. by rewrite En.
    + pose proof (start_request_inv A [next_call s] (normalize username) refresh s1 H1) as H2.
      destruct (start_request _ _ _) as [r s2]. destruct H2 as (H2 & E2 & req & Hreq & En). split; [|cbn; by rewrite E2].
      apply (wait_inv A _ r req); [done|done|]. by rewrite En.
Qed.

End calls.

(** *** The run *)

(** The server answers a fetch with the profile it was asked for. *)
Definition honest (evs : list (@profile_event P)) : Prop :=
  forall pre r p now post req, evs = pre ++ FetchAnswered r (Some p) now :: post -> (r, req) ∈ requests (run pre) -> own (r_name req) p.

Lemma asked_snoc evs ev c name : asked evs c name -> asked (evs ++ [ev]) c name.
Proof.
  intros (pre & post & u & rf & now & -> & Hc & Hn). exists pre, (post ++ [ev]), u, rf, now. split_and!; [by rewrite <- app_assoc|done|done].
Qed.

Lemma calls_run Own evs :
  (forall name p, own name p -> Own name p) ->
  (forall pre r p now post req, evs = pre ++ FetchAnswered r (Some p) now :: post -> (r, req) ∈ requests (run pre) ->
     Own (r_name req) p) ->
  calls_inv Own (asked evs) [] [] (run evs).
Proof.
  intros Hown. induction evs as [|ev evs IH] using rev_ind; intros Hh.
  { constructor; try done; try (by constructor); cbn; try (by intros ? ? ?%not_elem_of_nil); try (by intros ? ?%not_elem_of_nil).
    - by intros ??? ?%not_elem_of_nil.
    - by intros ??? ?%not_elem_of_nil. }
  assert (Hh' : forall pre r p now post req, evs = pre ++ FetchAnswered r (Some p) now :: post ->
    (r, req) ∈ requests (run pre) -> Own (r_name req) p).
  { intros pre r p now post req -> Hreq. apply (Hh pre r p now (post ++ [ev]) req); [by rewrite <- app_assoc|done]. }
  pose proof (inv_mono Own _ (asked (evs ++ [ev])) _ _ _ (fun c n => asked_snoc evs ev c n) (IH Hh')) as Hs.
  rewrite (profile_run_snoc profile_name). destruct ev as [u rf now|now|f a now|r a now| |us|p old now].
  - apply getUserProfile_inv; [done|]. exists evs, [], u, rf, now. done.
  - by apply flush_inv.
  - by apply batch_answered_inv.
  - apply fetch_answered_inv; [done|]. intros req p Hreq ->. by apply (Hh evs r p now [] req).
  - by apply identity_inv.
  - by apply identity_inv.
  - by apply identity_inv.
Qed.

(** every lookup is answered exactly once or still waits, and a profile it is answered with is that of the name asked
    for, however requests are shared, queued, batched, refreshed and made obsolete; a batch asks for at most 50 names; and once no
    request of its own is running and nothing is queued or in a batch, no lookup waits.  The server is assumed to
    answer a direct fetch with the profile asked for. *)
Theorem profiles_answered evs :
  honest evs ->
  let s := run evs in
  (answers s).*1 ++ (callers s).*1 ≡ₚ seq 0 (next_call s) /\
  (forall c p, (c, Some p) ∈ answers s -> exists name, asked evs c name /\ own name p) /\
  (forall f todo, (f, todo) ∈ flushes s -> todo <> [] /\ Forall fits todo) /\
  (profileBatchScheduled s = false -> flushes s = [] -> (forall r req, (r, req) ∈ requests s -> r_source req <> None) -> callers s = []).
Proof.
  intros Hh. cbv zeta. pose proof (calls_run own evs (fun _ _ H => H) Hh) as [C1 C2 C3 C4 C5 C6 C7 C8 C9 C10 C11 C12 C13 C14 C15].
  split_and!; [by rewrite app_nil_r in C1|done|done|]. intros Hq Hf Hr.
  destruct (callers (run evs)) as [|[c r] cs] eqn:E; [done|]. exfalso.
  destruct (C2 c r) as (req & Hreq & _); [apply list_elem_of_here|].
  destruct (r_source req) as [q|] eqn:Es; [|by apply (Hr r req)]. pose proof (C7 r req q Hreq Es) as Hp.
  unfold pend in Hp. rewrite Hf in Hp. rewrite Hq in C13. symmetry in C13. apply negb_false_iff, bool_decide_eq_true in C13.
  rewrite C13 in Hp. by apply not_elem_of_nil in Hp.
Qed.
End answers.

(** *** Where cached profiles come from *)
Section freshness.
Context {UC : UnicodeCase} {P : Type} (profile_name : P -> jstr).
Local Abbreviation run evs := (profile_run profile_name evs (no_profiles (P := P))).
Implicit Types s : @profiles P.

(** A lookup of [u] made request [r], and nothing has changed the identity of [u] since. *)
Definition began (evs : list (@profile_event P)) (u : jstr) (r : nat) (req : request) : Prop :=
  exists pre username refresh now post, evs = pre ++ Get username refresh now :: post /\ normalize username = u /\
    r_name req = u /\ r = next (run pre) /\ (r, req) ∈ requests (run (pre ++ [Get username refresh now])) /\
    Forall (fun ev => ~ obsoletes profile_name u ev) post.

(** The server's answer [ev] to request [r] gives [p]: the answer to the request's own fetch, or to the batch that asks
    for its name, and that batch was sent after the request was made (numbers are given in order). *)
Definition answered_with s (ev : @profile_event P) (r : nat) (req : request) (p : P) : Prop :=
  match ev with
  | FetchAnswered r' res _ => r' = r /\ res = Some p /\ r_source req = None
  | BatchAnswered f (Some ps) _ => r < f /\ exists batch rest q, (f, batch :: rest) ∈ flushes s /\ (r_name req, q) ∈ batch /\
      r_source req = Some q /\ find_profile profile_name ps (r_name req) = Some p
  | _ => False
  end.

(** [p] answered a request made by a lookup of [u], and nothing has changed the identity of [u] since that lookup. *)
Definition looked_up (evs : list (@profile_event P)) (u : jstr) (p : P) : Prop :=
  exists pre ev post r req, evs = pre ++ ev :: post /\ began pre u r req /\ (r, req) ∈ requests (run pre) /\
    answered_with (run pre) ev r req p /\ Forall (fun ev => ~ obsoletes profile_name u ev) post.

(** [p] was published as the profile of [u], and nothing has changed the identity of [u] since. *)
Definition published (evs : list (@profile_event P)) (u : jstr) (p : P) : Prop :=
  exists pre old now post, evs = pre ++ Sync p old now :: post /\ normalize (profile_name p) = u /\
    Forall (fun ev => ~ obsoletes profile_name u ev) post.

Lemma began_snoc evs ev u r req : began evs u r req -> ~ obsoletes profile_name u ev -> began (evs ++ [ev]) u r req.
Proof.
  intros (pre & un & rf & now & post & -> & Hu & Hn & Hr & Hin & Hp) Ho. exists pre, un, rf, now, (post ++ [ev]).
  split_and!; try done; [by rewrite <- app_assoc|]. apply Forall_app. split; [done|by constructor].
Qed.

Lemma looked_up_snoc evs ev u p : looked_up evs u p -> ~ obsoletes profile_name u ev -> looked_up (evs ++ [ev]) u p.
Proof.
  intros (pre & ev' & post & r & req & -> & Hb & Hin & Ha & Hp) Ho. exists pre, ev', (post ++ [ev]), r, req.
  split_and!; try done; [by rewrite <- app_assoc|]. apply Forall_app. split; [done|by constructor].
Qed.

Lemma published_snoc evs ev u p : published evs u p -> ~ obsoletes profile_name u ev -> published (evs ++ [ev]) u p.
Proof.
  intros (pre & old & now & post & -> & Hu & Hp) Ho. exists pre, old, now, (post ++ [ev]).
  split_and!; try done; [by rewrite <- app_assoc|]. apply Forall_app. split; [done|by constructor].
Qed.

(** A batch was made after the requests that wait for it. *)
Definition batch_order s : Prop :=
  forall r req q f todo n, (r, req) ∈ requests s -> r_source req = Some q -> (f, todo) ∈ flushes s -> (n, q) ∈ concat todo -> r < f.

Local Abbreviation any_name := (fun (_ : jstr) (_ : P) => True).
Local Abbreviation sound evs := (calls_inv any_name (asked profile_name evs) [] [] (run evs)).

Lemma calls_sound evs : sound evs.
Proof. by apply calls_run. Qed.

Lemma settle_batch_flushes batch res now s : flushes (settle_batch batch res now s) = flushes s.
Proof.
  unfold settle_batch. apply (fold_left_invariant _ (fun s' => flushes s' = flushes s)); [done|]. intros s1 e _ <-.
  unfold settle_queued. apply (fold_left_invariant _ (fun s' => flushes s' = flushes s1)); [done|]. intros s2 e' _ <-.
  unfold finish_request. cbn. by destruct (res e.1); [destruct (_ =? _)|].
Qed.

Lemma send_batches_flushes f now todo : forall s g td, (g, td) ∈ flushes (send_batches f todo now s) ->
  (g, td) ∈ flushes s \/ g = f /\ forall x, x ∈ concat td -> x ∈ concat todo.
Proof.
  induction todo as [|b todo IH]; intros s g td Hin; [by left|]. cbn [send_batches] in Hin. destruct (batch_names b).
  - cbn in Hin. apply elem_of_app in Hin as [?|[= -> ->]%list_elem_of_singleton]; [by left|by right].
  - apply IH in Hin as [Hin|[-> Hsub]]; [left; by rewrite settle_batch_flushes in Hin|right]. split; [done|].
    intros x Hx%Hsub. cbn. apply elem_of_app. by right.
Qed.

(** The batches that an event leaves: those there were, without those sent, or one made now of queued promises. *)
Lemma flushes_step ev s g td : (g, td) ∈ flushes (profile_step profile_name ev s) ->
  (exists td', (g, td') ∈ flushes s /\ forall x, x ∈ concat td -> x ∈ concat td') \/ g = next s /\ exists now, ev = Flush now.
Proof.
  assert (Hkept : forall s', flushes s' = flushes s -> (g, td) ∈ flushes s' ->
    exists td', (g, td') ∈ flushes s /\ forall x, x ∈ concat td -> x ∈ concat td') by (intros s' ->; eauto).
  destruct ev as [u rf now|now|f a now|r res now| |us|p old now]; cbn [profile_step]; intros Hin.
  - left. apply (Hkept _ (proj2 (proj2 (proj2 (proj2 (getUserProfile_spec u rf now s))))) Hin).
  - unfold flushUserProfileBatch in Hin. destruct (negb _); [left; by apply (Hkept s)|].
    apply send_batches_flushes in Hin as [Hin|[-> _]]; [left; by apply (Hkept _ eq_refl Hin)|right; eauto].
  - left. unfold batch_answered in Hin. destruct (List.find _ _) as [[f' [|b rest]]|] eqn:E; try by apply (Hkept s).
    apply find_some in E as [Hf%list_elem_of_In E%Nat.eqb_eq]. cbn in E. subst f'. cbv zeta in Hin.
    apply send_batches_flushes in Hin as [Hin|[-> Hsub]].
    + rewrite settle_batch_flushes in Hin. cbn in Hin. apply elem_of_Lfilter in Hin as [Hin _]. by apply (Hkept s).
    + exists (b :: rest). split; [done|]. intros x Hx%Hsub. cbn. apply elem_of_app. by right.
  - left. unfold fetch_answered in Hin. destruct (List.find _ _) as [[r' req]|]; [|by apply (Hkept s)].
    destruct (r_source req); [by apply (Hkept s)|]. refine (Hkept _ _ Hin). unfold finish_request. cbn.
    by destruct res; [destruct (_ =? _)|].
  - left. by apply (Hkept s).
  - left. unfold invalidateUserProfiles in Hin. cbv zeta in Hin. destruct (bool_decide _); [by apply (Hkept s)|].
    refine (Hkept _ _ Hin). cbn. by apply (fold_left_invariant _ (fun s' => flushes s' = flushes s)).
  - left. unfold syncUserProfile in Hin. cbv zeta in Hin. destruct (bool_decide _); [by apply (Hkept s)|].
    refine (Hkept _ _ Hin). cbn. by destruct (_ && _).
Qed.

Lemma order_run evs : batch_order (run evs).
Proof.
  induction evs as [|ev evs IH] using rev_ind; [by intros ?????? ?%not_elem_of_nil|].
  pose proof (calls_sound evs) as Hs. pose proof (calls_sound (evs ++ [ev])) as Hs'.
  rewrite profile_run_snoc in *. destruct (profile_step_spec profile_name ev (run evs)) as (_ & _ & R & _).
  intros r req q f todo n Hr Hq Hf Hn. destruct (flushes_step _ _ _ _ Hf) as [(td' & Hf' & Hsub)|[-> [now ->]]].
  - destruct (R _ Hr) as [Hold|(u & rf & now & -> & _)]; [by eapply IH; [..|apply Hsub]|].
    destruct (getUserProfile_spec u rf now (run evs)) as (_ & _ & _ & R' & F). cbn [profile_step] in *.
    destruct (R' _ Hr) as [Hold|(_ & _ & _ & Hnew)]; [by eapply IH; [..|apply Hsub]|]. exfalso. specialize (Hnew q Hq).
    pose proof (ci_pend _ _ _ _ _ Hs') as Hnd. rewrite app_nil_r in Hnd. unfold pend in Hnd. rewrite fmap_app in Hnd.
    apply NoDup_app in Hnd as (_ & Hnd & _). apply (Hnd q).
    + apply list_elem_of_fmap. by exists (normalize u, q).
    + apply list_elem_of_fmap. exists (n, q). split; [done|]. apply list_elem_of_In, in_flat_map. exists (f, todo).
      split; by apply list_elem_of_In.
  - destruct (R _ Hr) as [Hold|(? & ? & ? & ? & _)]; [|done]. apply (ci_next _ _ _ _ _ Hs), list_elem_of_fmap. by exists (r, req).
Qed.

Lemma settled_answered evs ev r req p :
  (r, req) ∈ requests (run evs) -> settled_with profile_name (run evs) ev r req p -> answered_with (run evs) ev r req p.
Proof.
  intros Hr. destruct ev as [| |f [ps|] now| | | |]; try done. intros (name & batch & rest & q & Hf & Hb & Hq & Hp).
  pose proof (calls_sound evs) as Hs. assert (Hc : (name, q) ∈ concat (batch :: rest)) by (cbn; apply elem_of_app; by left).
  assert (En : name = r_name req).
  { eapply values_unique; [apply (ci_pend _ _ _ _ _ Hs)| |by apply (ci_source _ _ _ _ _ Hs r req q)]. rewrite app_nil_r. unfold pend.
    apply elem_of_app. right. apply list_elem_of_In, in_flat_map. exists (f, batch :: rest). split; by apply list_elem_of_In. }
  subst name. split; [by eapply (order_run evs)|]. by exists batch, rest, q.
Qed.

Record fresh_ok (evs : list (@profile_event P)) : Prop := {
  fo_requests : forall r req, (r, req) ∈ requests (run evs) ->
    r_generation req <= profileCacheGeneration (run evs) /\
    (r_generation req = profileCacheGeneration (run evs) -> r_name req <> [] -> began evs (r_name req) r req);
  fo_cache : forall e, e ∈ profileCache (run evs) -> e.1 <> [] -> looked_up evs e.1 e.2.1 \/ published evs e.1 e.2.1;
  fo_size : cache_ok (profileCache (run evs))
}.

Lemma fresh_run evs : fresh_ok evs.
Proof.
  induction evs as [|ev evs [IR IC IS]] using rev_ind.
  { constructor; [by intros ?? ?%not_elem_of_nil|by intros ? ?%not_elem_of_nil|by constructor; [constructor|cbn; lia]]. }
  destruct (profile_step_spec profile_name ev (run evs)) as (G & K & R & C & O).
  constructor; rewrite profile_run_snoc; [| |by apply K].
  - intros r req Hr. destruct (R _ Hr) as [Hin|(u & rf & now & -> & Hid & Hn & Hg)].
    + destruct (IR r req Hin) as [Hle Hf]. split; [lia|]. intros Hg Hne. apply began_snoc; [apply Hf; [lia|done]|].
      intros Ho%O; [lia|done].
    + cbn in Hid, Hn, Hg. split; [lia|]. intros _ _. exists evs, u, rf, now, []. rewrite profile_run_snoc.
      split_and!; try done.
  - intros e He Hne. destruct (C e He Hne) as [[Hold Ho]|Hby].
    { destruct (IC e Hold Hne); [left; by apply looked_up_snoc|right; by apply published_snoc]. }
    inversion Hby as [u p' ev' r req Hr Hg Hn Hans Hsame|p old now Hp]; subst.
    + left. destruct (IR r req Hr) as [_ Hf]. rewrite <- Hn in *. exists evs, ev, [], r, req.
      split_and!; [done|by apply Hf|done|by apply settled_answered|constructor].
    + right. exists evs, old, now, []. split_and!; [done|done|constructor].
Qed.

(** C24: the profile cached for a name (not empty) is the one that answered a lookup of that name, the answer coming to
    the request that this lookup made and, for a batch, to one that was sent after the lookup began; or it is one that was
    published for its name.  Nothing has changed the identity since: after a sign-out, an invalidation or an update of the
    user no answer to an earlier lookup comes back into the cache, even when a newer lookup of the same name is still
    waiting.  The cache holds at most 256 profiles, one for each name. *)
Theorem cached_profiles_fresh evs u p expires :
  (u, (p, expires)) ∈ profileCache (run evs) -> u <> [] ->
  (looked_up evs u p \/ published evs u p) /\
  NoDup (profileCache (run evs)).*1 /\ length (profileCache (run evs)) <= PROFILE_CACHE_MAX_ENTRIES.
Proof. intros Hin Hne. destruct (fresh_run evs) as [_ C [S1 S2]]. split_and!; [by apply (C _ Hin)|done|done]. Qed.
End freshness.

(** A lookup that is answered in a batch, and one whose answer comes after a sign-out. *)
Section example.
#[local] Existing Instance latin_case.

Definition lookup_ann : list (@profile_event jstr) := [Get (js " Ann ") false 0; Get (js "ann") false 0; Flush 0].

Example lookups :
  let s := profile_run id (lookup_ann ++ [BatchAnswered 2 (Some [js "ann"]) 5]) no_profiles in
  answers s = [(0, Some (js "ann")); (1, Some (js "ann"))] /\ profileCache s = [(js "ann", (js "ann", 300005%Z))] /\
  sent s = [BatchRequest (js "ann")] /\
  (let s := profile_run id (lookup_ann ++ [ClearCache; BatchAnswered 2 (Some [js "ann"]) 5]) no_profiles in
   answers s = [(0, Some (js "ann")); (1, Some (js "ann"))] /\ profileCache s = []).
Proof. vm_compute. done. Qed.

(** A newer lookup is waiting when the answer to the one before the sign-out comes: that answer is not cached. *)
Example overtaken_lookup :
  let evs := lookup_ann ++ [ClearCache; Get (js "ann") false 3; Flush 3; BatchAnswered 2 (Some [js "ann"]) 5] in
  profileCache (profile_run id evs no_profiles) = [] /\
  profileCache (profile_run id (evs ++ [BatchAnswered 5 (Some [js "ann"]) 6]) no_profiles) = [(js "ann", (js "ann", 300006%Z))].
Proof. vm_compute. done. Qed.

Lemma cached_profiles_fresh_witness :
  let evs := lookup_ann ++ [BatchAnswered 2 (Some [js "ann"]) 5] in
  (looked_up id evs (js "ann") (js "ann") \/ published id evs (js "ann") (js "ann")) /\
  length (profileCache (profile_run id evs no_profiles)) <= PROFILE_CACHE_MAX_ENTRIES.
Proof.
  destruct (cached_profiles_fresh id (lookup_ann ++ [BatchAnswered 2 (Some [js "ann"]) 5]) (js "ann") (js "ann") 300005%Z) as (H1 & _ & H2).
  - refine (proj1 (bool_decide_eq_true _) _). vm_compute. reflexivity.
  - refine (proj1 (bool_decide_eq_true _) _). vm_compute. reflexivity.
  - split; [exact H1|exact H2].
Defined.

Lemma lookup_ann_honest : honest id lookup_ann.
Proof.
  intros pre r p now post req E. exfalso. assert (Hin : FetchAnswered r (Some p) now ∈ lookup_ann)
    by (rewrite E; apply elem_of_app; right; apply list_elem_of_here).
  unfold lookup_ann in Hin. repeat (apply elem_of_cons in Hin as [Hin|Hin]; [done|]). by apply not_elem_of_nil in Hin.
Qed.

Lemma profiles_answered_witness :
  let s := profile_run id lookup_ann no_profiles in
  (answers s).*1 ++ (callers s).*1 ≡ₚ seq 0 (next_call s) /\
  (forall f todo, (f, todo) ∈ flushes s -> todo <> [] /\ Forall fits todo).
Proof. destruct (profiles_answered id lookup_ann lookup_ann_honest) as (H1 & _ & H2 & _). split; [exact H1|exact H2]. Defined.
End example.
