(* ===== verification/ProfileRoutes.v ===== *)
(** * Routes of user profiles

    The presentation part of [internal/service/frontend/renop-html/js/user-profiles.js]: the text of an avatar, the
    routes [/user/<name>/<section>], and the navigation that remembers where to return to.  The browser's [URL] is
    the parameter of [LoginRoute]; only origins and pathnames matter. *)
From S2P Require Export Prelude JsString JsUri UserProfiles.

(** ** Routes *)
Definition PROFILE_SECTIONS : list jstr := map js ["edit"; "maven"; "cargo"; "docker"; "npm"]%string.

Record profile_route := { route_username : jstr; route_section : jstr }.

#[export] Instance profile_route_eq_dec : EqDecision profile_route.
Proof. solve_decision. Defined.

(** [/^\/user\/([^/]+)(?:\/(edit|maven|cargo|docker|npm))?\/?$/]: the name and the section. *)
Definition match_profile (path : jstr) : option (jstr * jstr) :=
  if starts_with (js "/user/") path then
    match split 47 (slice_from 6 path) with
    | [] :: _ => None
    | [name] | [name; []] => Some (name, [])
    | [name; section] | [name; section; []] => if bool_decide (section ∈ PROFILE_SECTIONS) then Some (name, section) else None
    | _ => None
    end
  else None.

Section routes.
Context {UC : UnicodeCase}.

Definition profileRouteFromPath (path : jstr) : option profile_route :=
  match match_profile path with
  | None => None
  | Some (name, section) =>
    match decodeURIComponent name with
    | None => None
    | Some name =>
      let username := normalize name in
      if bool_decide (username = []) then None else Some {| route_username := username; route_section := section |}
    end
  end.

(** *** Navigation *)

(** A history entry: its pathname and what [navigateToUserProfile] keeps in its state. *)
Record entry_state := { renopProfileReturnPath : jstr; renopProfileCanGoBack : bool }.
Record page := { pathname : jstr; state : option entry_state }.
Record browser := { current : page; back : list page }.

Definition profile_path (normalized normalizedSection : jstr) : option jstr :=
  e ← encodeURIComponent normalized;
  Some (js "/user/" ++ e ++ (if bool_decide (normalizedSection = []) then [] else js "/" ++ normalizedSection)).

Definition drop_slash (s : jstr) : jstr := if ends_with (js "/") s then slice_drop_last 1 s else s.

(** [None]: the name cannot be encoded, which throws. *)
Definition navigateToUserProfile (username section : jstr) (replace : bool) (b : browser) : option browser :=
  let normalized := normalize username in
  if bool_decide (normalized = []) then Some b
  else
    let normalizedSection := if bool_decide (section ∈ PROFILE_SECTIONS) then section else [] in
    path ← profile_path normalized normalizedSection;
    if negb replace && bool_decide (drop_slash (pathname (current b)) = path) then Some b
    else
      let returnPath :=
        str_or (default [] (renopProfileReturnPath <$> state (current b)))
          (match profileRouteFromPath (pathname (current b)) with Some _ => js "/" | None => pathname (current b) end) in
      let st := {| renopProfileReturnPath := returnPath;
                   renopProfileCanGoBack :=
                     if replace then default false (renopProfileCanGoBack <$> state (current b)) else true |} in
      let p := {| pathname := path; state := Some st |} in
      Some (if replace then {| current := p; back := back b |} else {| current := p; back := current b :: back b |}).

Definition navigateToUsernameProfile (username : jstr) (replace : bool) (b : browser) : option browser :=
  navigateToUserProfile username [] replace b.
End routes.

(** ** Names and avatars *)
Section names.
Context {UC : UnicodeCase}.
(** [toUpperCase], [t('profile.unnamedUser')], and the code points of a string. *)
Context (to_upper : jstr -> jstr) (unnamedUser : jstr) (code_points : jstr -> list jstr).

Definition displayName (nickname : option jstr) : jstr := str_or (trim (default [] nickname)) unnamedUser.

(** [length] is already a number; [None] for NaN. *)
Definition profileAvatarText (nickname : option jstr) (length : option Z) : jstr :=
  let boundedLength := Z.max 1 (Z.min 2 (match length with None | Some 0%Z => 2 | Some n => n end)) in
  str_or (to_upper (concat (take (Z.to_nat boundedLength) (code_points (displayName nickname))))) (js "?").
End names.

(** ** Properties *)
Section properties.
Context {UC : UnicodeCase}.

Lemma slash_safe e : Forall (fun c => uri_safe c = true) e -> 47%N ∉ e.
Proof. intros He Hin. rewrite Forall_forall in He. by specialize (He 47%N Hin). Qed.

Lemma split_one c s : c ∉ s -> split c s = [s].
Proof. intros Hc. apply split_on_notin. intros x Hx. apply N.eqb_neq. congruence. Qed.

Lemma section_plain section : section ∈ PROFILE_SECTIONS -> (47%N ∉ section) /\ section <> [].
Proof.
  unfold PROFILE_SECTIONS. cbn [map]. intros H.
  repeat (apply elem_of_cons in H as [->|H]; [split; [refine (proj1 (bool_decide_eq_true _) _); vm_compute; reflexivity|done]|]).
  by apply not_elem_of_nil in H.
Qed.

(** The route of a profile's path, with or without a slash at its end, is that profile. *)
Definition slash_or_not (t : jstr) : Prop := t = [] \/ t = js "/".

Lemma split_end c s : c ∉ s -> split c (s ++ [c]) = [s; []].
Proof. intros Hc. by rewrite split_app_sep. Qed.

Lemma match_profile_path e section t :
  e <> [] -> Forall (fun c => uri_safe c = true) e -> (section = [] \/ section ∈ PROFILE_SECTIONS) -> slash_or_not t ->
  match_profile (js "/user/" ++ (e ++ (if bool_decide (section = []) then [] else js "/" ++ section)) ++ t) = Some (e, section).
Proof.
  intros Hne He Hs Ht. unfold match_profile. rewrite starts_with_app. unfold slice_from.
  rewrite (drop_app_length' (js "/user/")) by reflexivity. pose proof (slash_safe e He) as H47. destruct (bool_decide (section = [])) eqn:E.
  - apply bool_decide_eq_true in E. subst section. rewrite app_nil_r. destruct Ht as [->| ->].
    + rewrite app_nil_r, split_one by done. by destruct e.
    + change (js "/") with [47%N]. rewrite split_end by done. by destruct e.
  - apply bool_decide_eq_false in E. destruct Hs as [|Hs]; [done|]. destruct (section_plain _ Hs) as [Hp _].
    change (js "/" ++ section) with (47%N :: section). rewrite <- app_assoc. cbn [app]. rewrite split_app_sep by done.
    assert (Hd : bool_decide (section ∈ PROFILE_SECTIONS) = true) by by apply bool_decide_eq_true.
    destruct Ht as [->| ->].
    + rewrite app_nil_r, split_one, Hd by done. destruct e as [|x e]; [done|]. by destruct section.
    + change (js "/") with [47%N]. rewrite split_end, Hd by done. destruct e as [|x e]; [done|]. by destruct section.
Qed.

Lemma profile_path_inv u section path :
  profile_path u section = Some path ->
  exists e, encodeURIComponent u = Some e /\ path = js "/user/" ++ e ++ (if bool_decide (section = []) then [] else js "/" ++ section).
Proof. unfold profile_path. intros (e & He & Hpath)%bind_Some. exists e. split; [done|congruence]. Qed.

Lemma route_of_path u section path t :
  profile_path u section = Some path -> u <> [] -> normalize u = u -> is_utf16 u -> (section = [] \/ section ∈ PROFILE_SECTIONS) ->
  slash_or_not t -> profileRouteFromPath (path ++ t) = Some {| route_username := u; route_section := section |}.
Proof.
  intros (e & He & ->)%profile_path_inv Hne Hn Hu Hs Ht. unfold profileRouteFromPath.
  assert (Hdec : decodeURIComponent e = Some u) by by apply decode_encode.
  assert (e <> []) by (intros ->; by injection Hdec as <-).
  rewrite <- app_assoc, match_profile_path, Hdec; [|done|by eapply encode_safe|done|done]. cbv zeta. rewrite Hn. by rewrite bool_decide_eq_false_2.
Qed.

(** Such a path has no slash at its end. *)
Lemma drop_slash_path u section path :
  profile_path u section = Some path -> u <> [] -> is_utf16 u -> (section = [] \/ section ∈ PROFILE_SECTIONS) -> drop_slash path = path.
Proof.
  intros (e & He & ->)%profile_path_inv Hne Hu Hs. unfold drop_slash. destruct (ends_with (js "/") _) eqn:E; [|done]. exfalso.
  apply ends_with_spec in E as [k E]. apply (f_equal last) in E.
  change (last (k ++ js "/")) with (last (k ++ [47%N])) in E. rewrite last_snoc in E.
  pose proof (slash_safe e (encode_safe u e Hu He)) as H47.
  assert (He' : e <> []) by (intros ->; apply Hne; apply (decode_encode u [] Hu) in He; by injection He as <-).
  destruct (bool_decide (section = [])) eqn:Es.
  - rewrite app_nil_r, last_app in E. destruct (last e) eqn:El; [|by apply last_None in El]. apply last_Some_elem_of in El. congruence.
  - apply bool_decide_eq_false in Es. destruct Hs as [|Hs]; [done|]. destruct (section_plain _ Hs) as [Hp Hnn].
    rewrite !last_app in E. destruct (last section) eqn:El; [|by apply last_None in El]. apply last_Some_elem_of in El. congruence.
Qed.

(** A visit to a profile: a name as the application passes it, a section, and whether it replaces the entry. *)
Definition visit (b : option browser) (v : jstr * jstr * bool) : option browser :=
  b ≫= navigateToUserProfile v.1.1 v.1.2 v.2.

(** Names that are encodable and keep their normal form. *)
Definition visitable (v : jstr * jstr * bool) : Prop :=
  let u := normalize v.1.1 in u <> [] /\ normalize u = u /\ is_utf16 u /\ well_formed u.

Lemma navigate_spec username section replace b :
  visitable (username, section, replace) ->
  let sec := if bool_decide (section ∈ PROFILE_SECTIONS) then section else [] in
  exists b' path, navigateToUserProfile username section replace b = Some b' /\
    profile_path (normalize username) sec = Some path /\ drop_slash path = path /\
    (forall t, slash_or_not t ->
       profileRouteFromPath (path ++ t) = Some {| route_username := normalize username; route_section := sec |}) /\
    (b' = b /\ drop_slash (pathname (current b)) = path \/
     pathname (current b') = path /\
     renopProfileReturnPath <$> state (current b') =
       Some (str_or (default [] (renopProfileReturnPath <$> state (current b)))
          (match profileRouteFromPath (pathname (current b)) with Some _ => js "/" | None => pathname (current b) end)) /\
     back b' = (if replace then back b else current b :: back b)).
Proof.
  intros (Hne & Hn & Hu & [e He]). cbv zeta. cbn [fst snd] in *. unfold navigateToUserProfile. cbv zeta. rewrite bool_decide_eq_false_2 by done.
  set (sec := if bool_decide (section ∈ PROFILE_SECTIONS) then section else []).
  assert (Hsec : sec = [] \/ sec ∈ PROFILE_SECTIONS).
  { subst sec. destruct (bool_decide (section ∈ PROFILE_SECTIONS)) eqn:E; [right; by apply bool_decide_eq_true in E|by left]. }
  clearbody sec. assert (exists path, profile_path (normalize username) sec = Some path) as [path Hp]
    by (unfold profile_path; rewrite He; by eexists).
  pose proof (fun t => route_of_path _ _ _ t Hp Hne Hn Hu Hsec) as Hr. pose proof (drop_slash_path _ _ _ Hp Hne Hu Hsec) as Hd.
  rewrite Hp. cbn [mbind option_bind].
  destruct (negb replace && bool_decide (drop_slash (pathname (current b)) = path)) eqn:E.
  - apply andb_true_iff in E as [_ E%bool_decide_eq_true]. exists b, path. split_and!; try done. by left.
  - eexists _, path. split_and!; [done|done|done|done|]. right. by destruct replace.
Qed.

Lemma drop_slash_inv s : exists t, slash_or_not t /\ s = drop_slash s ++ t.
Proof.
  unfold drop_slash. destruct (ends_with (js "/") s) eqn:E; [|exists []; split; [by left|by rewrite app_nil_r]].
  apply ends_with_spec in E as [k ->]. exists (js "/"). split; [by right|].
  change (slice_drop_last 1) with (slice_drop_last (length (js "/"))). by rewrite slice_drop_last_app.
Qed.

(** The route shown after a visit. *)
Definition route_visited (v : jstr * jstr * bool) : profile_route :=
  {| route_username := normalize v.1.1; route_section := if bool_decide (v.1.2 ∈ PROFILE_SECTIONS) then v.1.2 else [] |}.

(** visiting profiles shows each one asked for: the path written is read back as the name and the section, and the
    page to return to stays the page the first visit left, through any number of profiles. *)
Theorem profile_visits p0 bk vs v :
  state p0 = None -> pathname p0 <> [] -> profileRouteFromPath (pathname p0) = None -> Forall visitable (vs ++ [v]) ->
  exists b, fold_left visit (vs ++ [v]) (Some {| current := p0; back := bk |}) = Some b /\
    profileRouteFromPath (pathname (current b)) = Some (route_visited v) /\
    renopProfileReturnPath <$> state (current b) = Some (pathname p0) /\
    exists seen, back b = seen ++ bk /\ length seen <= length (List.filter (fun v => negb v.2) (vs ++ [v])).
Proof.
  intros Hst Hp0 Hr0. set (b0 := {| current := p0; back := bk |}).
  revert v. induction vs as [|v0 vs IH] using rev_ind; intros v Hv.
  - cbn [app fold_left] in *. apply Forall_cons in Hv as [Hv _]. destruct v as [[u sec] rep].
    destruct (navigate_spec u sec rep b0 Hv) as (b & path & Hn & _ & _ & Hr & Hb). exists b. unfold visit. cbn [mbind option_bind fst snd].
    rewrite Hn. split; [done|]. destruct Hb as [[-> Hd]|(Hpath & Hret & Hback)].
    + exfalso. destruct (drop_slash_inv (pathname p0)) as (t & Ht & E). cbn in Hd. rewrite Hd in E. rewrite E, Hr in Hr0; done.
    + rewrite Hpath, Hret. cbn [current b0]. rewrite Hr0, Hst. cbn. specialize (Hr [] (or_introl eq_refl)). rewrite app_nil_r in Hr.
      split_and!; [done|by destruct (pathname p0)|]. rewrite Hback. destruct rep; [by exists []|by exists [p0]].
  - rewrite Forall_app in Hv. destruct Hv as [Hvs Hv]. apply Forall_cons in Hv as [Hv _].
    destruct (IH v0 Hvs) as (b & Hf & Hr1 & Hret1 & seen & Hseen & Hlen). rewrite fold_left_app, Hf. cbn [fold_left].
    destruct v as [[u sec] rep]. destruct (navigate_spec u sec rep b Hv) as (b' & path & Hn & _ & Hds & Hr & Hb). exists b'.
    unfold visit. cbn [mbind option_bind fst snd]. rewrite Hn. split; [done|]. rewrite List.filter_app, length_app.
    destruct Hb as [[-> Hd]|(Hpath & Hret & Hback)].
    + destruct (drop_slash_inv (pathname (current b))) as (t & Ht & E). rewrite Hd in E. rewrite E, Hr by done.
      split_and!; [done|done|]. exists seen. split; [done|]. lia.
    + rewrite Hpath, Hret, Hret1. cbn [default]. specialize (Hr [] (or_introl eq_refl)). rewrite app_nil_r in Hr.
      split_and!; [done|cbn; by destruct (pathname p0)|]. rewrite Hback. destruct rep.
      * exists seen. split; [done|]. lia.
      * exists (current b :: seen). rewrite Hseen. split; [done|]. cbn. lia.
Qed.
End properties.

Section example.
#[local] Existing Instance latin_case.

Definition start_page : page := {| pathname := js "/releases/"; state := None |}.

Lemma profile_visits_witness :
  exists b, fold_left visit ([(js "Ann", js "maven", false)] ++ [(js "b b", js "none", false)]) (Some {| current := start_page; back := [] |}) = Some b /\
    profileRouteFromPath (pathname (current b)) = Some {| route_username := js "b b"; route_section := [] |} /\
    renopProfileReturnPath <$> state (current b) = Some (js "/releases/").
Proof.
  destruct (profile_visits start_page [] [(js "Ann", js "maven", false)] (js "b b", js "none", false)) as (b & H1 & H2 & H3 & _).
  - reflexivity.
  - done.
  - vm_compute. reflexivity.
  - assert (Hv : forall u s r, normalize u <> [] -> normalize (normalize u) = normalize u ->
      forallb (fun c => c <? 65536)%N (normalize u) = true -> bool_decide (is_Some (encodeURIComponent (normalize u))) = true -> visitable (u, s, r)).
    { intros u s r ? ? ?%is_utf16_forallb ?%bool_decide_eq_true. done. }
    constructor; [|constructor; [|constructor]]; apply Hv; vm_compute; done.
  - exists b. split; [exact H1|]. split; [exact H2|exact H3].
Defined.
End example.
