(* ===== verification/RepositoryFormats.v ===== *)
(** * Repository formats

    [internal/service/frontend/renop-html/js/repository-formats.js] and the engines of [repository-engines/*.js]: the
    catalog of formats, the draft of a new repository, the names it may have; and [browser/engines.js], which says
    which formats have a page of their own. *)
From S2P Require Import Prelude JsString BrowserUtils.

(** ** Engines *)
(** Absent flags have the value the code gives their absence: [offered], [supportsMirrors] and
    [supportsUploadHelpers] are compared with [!== false]. *)
Record engine := {
  id : jstr;
  aliases : list jstr;
  protocol : jstr;
  layout : option jstr;
  icon : jstr;
  offered : bool;
  labelKey : jstr;
  descriptionKey : jstr;
  supportsMirrors : bool;
  supportsBrowserUpload : bool;
  managedNative : bool;
  supportsRedeployment : bool;
  supportsGpg : bool;
  supportsArtifactTemplate : bool;
  supportsUploadHelpers : bool;
  snippetTabs : list jstr
}.

Definition mavenEngine : engine := {|
  id := js "maven"; aliases := []; protocol := js "maven"; layout := Some (js "modern");
  icon := js "repositoryMaven"; offered := true; labelKey := js "repos.formatMaven";
  descriptionKey := js "repos.formatMavenDesc"; supportsMirrors := true;
  supportsBrowserUpload := false; managedNative := false;
  supportsRedeployment := true; supportsGpg := true;
  supportsArtifactTemplate := false; supportsUploadHelpers := true;
  snippetTabs := [js "maven"; js "gradle-kotlin"; js "gradle-groovy"; js "sbt"] |}.

Definition maven_classicEngine : engine := {|
  id := js "maven-classic"; aliases := []; protocol := js "maven"; layout := Some (js "classic");
  icon := js "repositoryMaven"; offered := false; labelKey := js "repos.formatMaven";
  descriptionKey := js "repos.formatMavenDesc"; supportsMirrors := true;
  supportsBrowserUpload := false; managedNative := false;
  supportsRedeployment := true; supportsGpg := true;
  supportsArtifactTemplate := false; supportsUploadHelpers := true;
  snippetTabs := [js "maven"; js "gradle-kotlin"; js "gradle-groovy"; js "sbt"] |}.

Definition filesEngine : engine := {|
  id := js "files"; aliases := []; protocol := js "files"; layout := None;
  icon := js "repositoryFiles"; offered := true; labelKey := js "repos.formatFiles";
  descriptionKey := js "repos.formatFilesDesc"; supportsMirrors := true;
  supportsBrowserUpload := true; managedNative := false;
  supportsRedeployment := false; supportsGpg := false;
  supportsArtifactTemplate := false; supportsUploadHelpers := false;
  snippetTabs := [] |}.

Definition cargoEngine : engine := {|
  id := js "cargo"; aliases := []; protocol := js "cargo"; layout := None;
  icon := js "repositoryCargo"; offered := true; labelKey := js "repos.formatCargo";
  descriptionKey := js "repos.formatCargoDesc"; supportsMirrors := true;
  supportsBrowserUpload := false; managedNative := false;
  supportsRedeployment := false; supportsGpg := false;
  supportsArtifactTemplate := true; supportsUploadHelpers := true;
  snippetTabs := [js "cargo-registry"; js "cargo-source"; js "cargo-login"; js "cargo-publish"] |}.

Definition dockerEngine : engine := {|
  id := js "docker"; aliases := []; protocol := js "docker"; layout := None;
  icon := js "repositoryDocker"; offered := true; labelKey := js "repos.formatDocker";
  descriptionKey := js "repos.formatDockerDesc"; supportsMirrors := true;
  supportsBrowserUpload := false; managedNative := false;
  supportsRedeployment := true; supportsGpg := false;
  supportsArtifactTemplate := false; supportsUploadHelpers := true;
  snippetTabs := [js "docker-pull"; js "docker-tag"; js "docker-push"; js "docker-login"] |}.

Definition npmEngine : engine := {|
  id := js "npm"; aliases := []; protocol := js "npm"; layout := None;
  icon := js "repositoryNpm"; offered := true; labelKey := js "repos.formatNpm";
  descriptionKey := js "repos.formatNpmDesc"; supportsMirrors := true;
  supportsBrowserUpload := false; managedNative := false;
  supportsRedeployment := false; supportsGpg := false;
  supportsArtifactTemplate := false; supportsUploadHelpers := true;
  snippetTabs := [js "npm-config"; js "npm-install"; js "npm-publish"] |}.

Definition condaEngine : engine := {|
  id := js "conda"; aliases := []; protocol := js "conda"; layout := None;
  icon := js "repositoryConda"; offered := true; labelKey := js "repos.formatConda";
  descriptionKey := js "repos.formatCondaDesc"; supportsMirrors := true;
  supportsBrowserUpload := false; managedNative := true;
  supportsRedeployment := true; supportsGpg := false;
  supportsArtifactTemplate := false; supportsUploadHelpers := false;
  snippetTabs := [js "native-client"] |}.

Definition conanEngine : engine := {|
  id := js "conan"; aliases := []; protocol := js "conan"; layout := None;
  icon := js "repositoryConan"; offered := true; labelKey := js "repos.formatConan";
  descriptionKey := js "repos.formatConanDesc"; supportsMirrors := true;
  supportsBrowserUpload := false; managedNative := true;
  supportsRedeployment := true; supportsGpg := false;
  supportsArtifactTemplate := false; supportsUploadHelpers := false;
  snippetTabs := [js "native-client"] |}.

Definition conda_nativeEngine : engine := {|
  id := js "conda-native"; aliases := []; protocol := js "conda"; layout := None;
  icon := js "repositoryCondaNative"; offered := true; labelKey := js "repos.formatCondaNative";
  descriptionKey := js "repos.formatCondaNativeDesc"; supportsMirrors := true;
  supportsBrowserUpload := false; managedNative := true;
  supportsRedeployment := true; supportsGpg := false;
  supportsArtifactTemplate := false; supportsUploadHelpers := false;
  snippetTabs := [js "native-client"] |}.

Definition apkEngine : engine := {|
  id := js "apk"; aliases := []; protocol := js "apk"; layout := None;
  icon := js "repositoryApk"; offered := true; labelKey := js "repos.formatApk";
  descriptionKey := js "repos.formatApkDesc"; supportsMirrors := true;
  supportsBrowserUpload := false; managedNative := true;
  supportsRedeployment := true; supportsGpg := false;
  supportsArtifactTemplate := false; supportsUploadHelpers := false;
  snippetTabs := [js "native-client"] |}.

Definition aptEngine : engine := {|
  id := js "apt"; aliases := []; protocol := js "apt"; layout := None;
  icon := js "repositoryApt"; offered := true; labelKey := js "repos.formatApt";
  descriptionKey := js "repos.formatAptDesc"; supportsMirrors := true;
  supportsBrowserUpload := false; managedNative := true;
  supportsRedeployment := true; supportsGpg := false;
  supportsArtifactTemplate := false; supportsUploadHelpers := false;
  snippetTabs := [js "native-client"] |}.

Definition rpmEngine : engine := {|
  id := js "rpm"; aliases := [js "yum"]; protocol := js "rpm"; layout := None;
  icon := js "repositoryRpm"; offered := true; labelKey := js "repos.formatRpm";
  descriptionKey := js "repos.formatRpmDesc"; supportsMirrors := true;
  supportsBrowserUpload := false; managedNative := true;
  supportsRedeployment := true; supportsGpg := false;
  supportsArtifactTemplate := false; supportsUploadHelpers := false;
  snippetTabs := [js "native-client"] |}.

Definition githubEngine : engine := {|
  id := js "github"; aliases := []; protocol := js "github"; layout := None;
  icon := js "repositoryGithub"; offered := true; labelKey := js "repos.formatGithub";
  descriptionKey := js "repos.formatGithubDesc"; supportsMirrors := false;
  supportsBrowserUpload := false; managedNative := false;
  supportsRedeployment := false; supportsGpg := false;
  supportsArtifactTemplate := false; supportsUploadHelpers := false;
  snippetTabs := [js "releases"; js "actions"] |}.

Definition gitlabEngine : engine := {|
  id := js "gitlab"; aliases := []; protocol := js "gitlab"; layout := None;
  icon := js "repositoryGitlab"; offered := true; labelKey := js "repos.formatGitlab";
  descriptionKey := js "repos.formatGitlabDesc"; supportsMirrors := false;
  supportsBrowserUpload := false; managedNative := false;
  supportsRedeployment := false; supportsGpg := false;
  supportsArtifactTemplate := false; supportsUploadHelpers := false;
  snippetTabs := [js "releases"; js "actions"] |}.

(** ** The catalog *)
Definition engines : list engine :=
  [mavenEngine; maven_classicEngine; filesEngine; cargoEngine; dockerEngine; npmEngine; conanEngine; condaEngine;
   conda_nativeEngine; apkEngine; aptEngine; rpmEngine; githubEngine; gitlabEngine].

Definition FORMAT_CATALOG : list (jstr * engine) := flat_map (fun e => map (fun i => (i, e)) (id e :: aliases e)) engines.

Definition catalog_entry (k : jstr) : option engine := snd <$> List.find (fun e => bool_decide (e.1 = k)) FORMAT_CATALOG.

(** The catalog is an ordinary object: these keys find what it inherits, whose properties are all [undefined]. *)
Definition inherited_keys : list jstr := [js "constructor"; js "__proto__"].

Definition id_of (e : option engine) : jstr := match e with Some e => id e | None => js "undefined" end.

Section lookup.
Context `{UnicodeCase}.

(** [None]: an inherited property. *)
Definition getRepositoryFormat (format : option jstr) : option engine :=
  let normalized := to_lower (trim (opt_str_or format (js "maven"))) in
  match catalog_entry normalized with
  | Some e => Some e
  | None => if bool_decide (normalized ∈ inherited_keys) then None else Some mavenEngine
  end.
End lookup.

(** Engines are frozen objects, told apart by their ids. *)
Definition listRepositoryFormats : list engine :=
  List.filter offered
    (fold_left (fun acc e => if existsb (fun x => (id x =? id e)%js) acc then acc else acc ++ [e]) (map snd FORMAT_CATALOG) []).

(** ** New repositories *)
Record git_repo := {
  mode : jstr;
  max_version_size_bytes : Z;
  max_daily_traffic_bytes : Z;
  retain_latest_workflow_runs : bool;
  retain_latest_releases : bool;
  quota_request_cooldown_hours : Z;
  owner : jstr;
  registered_repos : list jstr
}.

Record repository_draft := {
  draft_name : jstr;
  draft_format : jstr;
  visibility : jstr;
  mirrors : option (list jstr);            (* always empty *)
  allow_redeployment : option bool;
  require_gpg_signature : option bool;
  draft_git_repo : option git_repo
}.

Definition default_git_repo : git_repo :=
  {| mode := js "lax"; max_version_size_bytes := 300 * 1024 * 1024; max_daily_traffic_bytes := 25 * 1024 * 1024 * 1024;
     retain_latest_workflow_runs := true; retain_latest_releases := true; quota_request_cooldown_hours := 72;
     owner := []; registered_repos := [] |}.

Definition createRepositoryDraft `{UnicodeCase} (name : jstr) (format : option jstr) : repository_draft :=
  match getRepositoryFormat format with
  | Some descriptor =>
    {| draft_name := name; draft_format := id descriptor; visibility := js "PUBLIC";
       mirrors := if supportsMirrors descriptor then Some [] else None;
       allow_redeployment :=
         if (id descriptor =? js "maven")%js then Some false
         else if (id descriptor =? js "files")%js then Some true else None;
       require_gpg_signature := if (id descriptor =? js "maven")%js then Some false else None;
       draft_git_repo :=
         if (id descriptor =? js "maven")%js || (id descriptor =? js "files")%js then None
         else if (protocol descriptor =? js "github")%js || (protocol descriptor =? js "gitlab")%js
         then Some default_git_repo else None |}
  | None =>
    {| draft_name := name; draft_format := js "undefined"; visibility := js "PUBLIC"; mirrors := Some [];
       allow_redeployment := None; require_gpg_signature := None; draft_git_repo := None |}
  end.

Definition RESERVED_REPOSITORY_NAMES : list jstr :=
  map js ["api"; "assets"; "css"; "js"; "svg"; "javadoc"; "javadocs"; "cargodoc"; "cargodocs"; "cratedoc"; "cratedocs"; "v2";
          "dashboard"; "users"; "repositories"; "settings"; "account"; "user"; "domain"; "team"]%string.

(** [/^[a-z]+(?:-[a-z]+)*$/]: words of lower-case letters with a dash between them. *)
Definition slug_pattern (value : jstr) : bool := forallb (fun w => nonempty w && forallb is_lower w) (split 45 value).

Definition isValidRepositorySlug (name : jstr) : bool :=
  (length name <=? 64) && slug_pattern name && negb (bool_decide (name ∈ RESERVED_REPOSITORY_NAMES)).

(** ** Pages of the formats *)
(** [engines.js]: the view of each format; formats of one view share it. *)
Inductive view := MavenView | CargoView | DockerView | NpmView | NativeView | GitRepoView.

#[global] Instance view_eq_dec : EqDecision view.
Proof. solve_decision. Defined.

Definition views : list (jstr * view) :=
  [(js "maven", MavenView); (js "cargo", CargoView); (js "docker", DockerView); (js "npm", NpmView);
   (js "github", GitRepoView); (js "gitlab", GitRepoView); (js "conan", NativeView); (js "conda", NativeView);
   (js "conda-native", NativeView); (js "apk", NativeView); (js "apt", NativeView); (js "rpm", NativeView); (js "yum", NativeView)].

Definition view_of (format : jstr) : option view := snd <$> List.find (fun e => bool_decide (e.1 = format)) views.

Definition getRepositoryBrowserEngine (format : jstr) (path : option jstr) : option view :=
  match view_of format, path with
  | Some NativeView, Some path =>
    match path_parts path with
    | _ :: p1 :: _ => if (p1 =? js "~")%js then Some NativeView else None
    | _ => Some NativeView
    end
  | v, _ => v
  end.

(** The views that [hideOtherRepositoryEngines(format)] hides, each once. *)
Definition hideOtherRepositoryEngines (format : jstr) : list view :=
  List.filter (fun v => negb (bool_decide (Some v = view_of format)))
    [MavenView; CargoView; DockerView; NpmView; GitRepoView; NativeView].
