(* ===== verification/FileList.v ===== *)
(** * The list of a directory

    [internal/service/frontend/renop-html/js/browser.js]: the rows of the file list, the update of the list in place
    ([renderFileListReconciled], [insertAtVisibleIndex]) against replacing it, and the removal of a deleted file
    ([removeFileItemAnimated], [showEmptyIfNoFiles]).  A row is an element with a node number; a leaving row stays a
    child until its animation or its timer ends. *)
From S2P Require Import Prelude JsString BrowserUtils.

(** ** Rows *)
Record item := {
  i_node : nat;
  i_name : jstr;                (* [dataset.fileName] *)
  i_type : jstr;
  i_length : option Z;          (* the length behind the size it shows *)
  i_path : jstr;
  i_index : nat;
  i_signed : bool;
  i_removing : bool;            (* class [is-removing] *)
  i_added : bool                (* class [file-item--added] *)
}.

Definition staying (i : item) : bool := negb (i_removing i).
Definition visible_items (cs : list item) : list item := List.filter staying cs.

Definition with_removing (i : item) : item :=
  {| i_node := i_node i; i_name := i_name i; i_type := i_type i; i_length := i_length i; i_path := i_path i;
     i_index := i_index i; i_signed := i_signed i; i_removing := true; i_added := i_added i |}.

(** [createFileItemElement]; [None]: [encodePathSegment] throws. *)
Definition createFileItemElement (added : bool) (f : file) (index : nat) (path : jstr) (node : nat) : option item :=
  _ ← encodePathSegment (file_name f);
  Some {| i_node := node; i_name := file_name f; i_type := file_type f;
          i_length := if (file_type f =? js "FILE")%js then content_length f else None; i_path := path;
          i_index := index; i_signed := file_signed f; i_removing := false; i_added := added |}.

(** ** Children *)
Definition remove_item (node : nat) (cs : list item) : list item := List.filter (fun c => negb (i_node c =? node)) cs.

Fixpoint insert_before (x : item) (node : nat) (cs : list item) : list item :=
  match cs with
  | [] => [x]
  | c :: cs => if i_node c =? node then x :: c :: cs else c :: insert_before x node cs
  end.

(** [insertBefore] and [appendChild] move a node that is already a child. *)
Definition insertAtVisibleIndex (cs : list item) (x : item) (visibleIndex : nat) : list item :=
  let others := remove_item (i_node x) cs in
  match visible_items others !! visibleIndex with
  | Some ref => insert_before x (i_node ref) others
  | None =>
    match List.find i_removing others with
    | Some firstRemoving => insert_before x (i_node firstRemoving) others
    | None => others ++ [x]
    end
  end.

(** [existingMap]: a later child of a name replaces an earlier one. *)
Definition existingMap (cs : list item) : gmap jstr item :=
  fold_left (fun m c => if nonempty (i_name c) then <[i_name c := c]> m else m) cs ∅.

(** The rows of the map whose file is gone start to leave. *)
Definition mark_removed (m : gmap jstr item) (newNames : list jstr) (cs : list item) : list item :=
  map (fun c => if bool_decide (i_node <$> m !! i_name c = Some (i_node c)) && negb (bool_decide (i_name c ∈ newNames))
                then with_removing c else c) cs.

Definition refresh (f : file) (index : nat) (i : item) : item :=
  {| i_node := i_node i; i_name := i_name i; i_type := i_type i; i_length := i_length i; i_path := i_path i;
     i_index := index; i_signed := file_signed f; i_removing := i_removing i; i_added := i_added i |}.

(** The body of [filesToDisplay.forEach]; [fresh] numbers the next element. *)
Definition place_item (m : gmap jstr item) (path : jstr) (index : nat) (f : file) (v : list item * nat)
    : option (list item * nat) :=
  let '(cs, fresh) := v in
  match (if nonempty (file_name f) then m !! file_name f else None) with
  | Some existingLi =>
    if i_removing existingLi then
      li ← createFileItemElement true f index path fresh;
      Some (insertAtVisibleIndex cs li index, S fresh)
    else Some (insertAtVisibleIndex cs (refresh f index existingLi) index, fresh)
  | None =>
    li ← createFileItemElement true f index path fresh;
    Some (insertAtVisibleIndex cs li index, S fresh)
  end.

Fixpoint place_items (m : gmap jstr item) (path : jstr) (index : nat) (fs : list file) (v : list item * nat)
    : option (list item * nat) :=
  match fs with
  | [] => Some v
  | f :: fs => v ← place_item m path index f v; place_items m path (S index) fs v
  end.

Definition renderFileListReconciled (filesToDisplay : list file) (path : jstr) (v : list item * nat)
    : option (list item * nat) :=
  let '(cs, fresh) := v in
  let m := existingMap cs in
  let newNames := map file_name filesToDisplay in
  place_items m path 0 filesToDisplay (mark_removed m newNames cs, fresh).

(** The other branch of [loadDirectory]: [innerHTML = ''] and one row per file. *)
Fixpoint append_items (path : jstr) (index : nat) (fs : list file) (v : list item * nat) : option (list item * nat) :=
  match fs with
  | [] => Some v
  | f :: fs =>
    li ← createFileItemElement false f index path v.2;
    append_items path (S index) fs (v.1 ++ [li], S v.2)
  end.

Definition replace_list (filesToDisplay : list file) (path : jstr) (fresh : nat) : option (list item * nat) :=
  append_items path 0 filesToDisplay ([], fresh).

(** [removeFileItemAnimated]: the row leaves at once and is removed by a later event. *)
Definition start_removing (node : nat) (cs : list item) : list item :=
  map (fun c => if i_node c =? node then with_removing c else c) cs.

(** The end of an arrival's animation. *)
Definition settle_added (node : nat) (cs : list item) : list item :=
  map (fun c => if i_node c =? node
                then {| i_node := i_node c; i_name := i_name c; i_type := i_type c; i_length := i_length c;
                        i_path := i_path c; i_index := i_index c; i_signed := i_signed c;
                        i_removing := i_removing c; i_added := false |}
                else c) cs.

(** ** What a list shows *)
Definition shown (i : item) : jstr * nat * bool := (i_name i, i_index i, i_signed i).
Definition wanted (k : nat) (fs : list file) : list (jstr * nat * bool) :=
  imap (fun j f => (file_name f, k + j, file_signed f)) fs.

(** Leaving rows are after every other row. *)
Definition leaving_last (cs : list item) : Prop :=
  exists rows leaving, cs = rows ++ leaving /\ Forall (fun c => staying c = true) rows /\
                       Forall (fun c => staying c = false) leaving.

Definition rows_ok (cs : list item) (fresh : nat) : Prop :=
  NoDup (map i_node cs) /\ forall c, c ∈ cs -> i_node c < fresh.

(** [existingMap] sees every row that stays. *)
Definition rows_found (cs : list item) : Prop := forall c, c ∈ cs -> staying c = true -> existingMap cs !! i_name c = Some c.

(** What a row says besides: a row that stayed is the same element with the type, the size and the path it had; any
    other row is made for the file of its name. *)
Definition row_data (cs : list item) (files : list file) (path : jstr) (c : item) : Prop :=
  match List.filter staying (option_list (existingMap cs !! i_name c)) with
  | c0 :: _ => i_node c = i_node c0 /\ i_type c = i_type c0 /\ i_length c = i_length c0 /\ i_path c = i_path c0
  | [] => exists f, f ∈ files /\ file_name f = i_name c /\ i_type c = file_type f /\ i_path c = path /\
      i_length c = if (file_type f =? js "FILE")%js then content_length f else None
  end.

(** ** Lemmas on children *)
Lemma insert_before_perm x n cs : insert_before x n cs ≡ₚ x :: cs.
Proof.
  induction cs as [|c cs IH]; cbn [insert_before]; [done|]. destruct (_ =? _); [done|]. rewrite IH. apply Permutation_swap.
Qed.

Lemma insert_before_at x n pre r post :
  (forall c, c ∈ pre -> i_node c <> n) -> i_node r = n -> insert_before x n (pre ++ r :: post) = pre ++ x :: r :: post.
Proof.
  intros Hpre Hr. induction pre as [|c pre IH]; cbn [app insert_before].
  - by rewrite (proj2 (Nat.eqb_eq _ _) Hr).
  - rewrite (proj2 (Nat.eqb_neq _ _) (Hpre c (list_elem_of_here _ _))). f_equal. apply IH.
    intros d Hd. apply Hpre. by apply list_elem_of_further.
Qed.

Lemma insertAtVisibleIndex_perm cs x k : insertAtVisibleIndex cs x k ≡ₚ x :: remove_item (i_node x) cs.
Proof.
  unfold insertAtVisibleIndex. cbv zeta. destruct (_ !! k); [apply insert_before_perm|].
  destruct (List.find _ _); [apply insert_before_perm|]. symmetry. apply Permutation_cons_append.
Qed.

Lemma insertAtVisibleIndex_visible cs x k : staying x = true ->
  visible_items (insertAtVisibleIndex cs x k) ≡ₚ x :: remove_item (i_node x) (visible_items cs).
Proof.
  intros Hx. unfold visible_items. rewrite (filter_perm _ _ _ (insertAtVisibleIndex_perm cs x k)). cbn [List.filter].
  rewrite Hx. apply perm_skip. unfold remove_item. induction cs as [|c cs IH]; [done|]. cbn [List.filter].
  destruct (negb _) eqn:E1, (staying c) eqn:E2; cbn [List.filter]; rewrite ?E1, ?E2, ?IH; done.
Qed.

Lemma visible_shape rows leaving : Forall (fun c => staying c = true) rows -> Forall (fun c => staying c = false) leaving ->
  visible_items (rows ++ leaving) = rows.
Proof. intros Hr Hl. unfold visible_items. rewrite List.filter_app, filter_all, filter_none by done. apply app_nil_r. Qed.

Lemma remove_item_app n cs ds : remove_item n (cs ++ ds) = remove_item n cs ++ remove_item n ds.
Proof. apply List.filter_app. Qed.

Lemma node_apart c cs r ds : NoDup (map i_node (cs ++ r :: ds)) -> c ∈ cs -> i_node c <> i_node r.
Proof.
  rewrite map_app. cbn [map]. intros (_ & Hn & _)%NoDup_app Hc Heq. apply (Hn (i_node c)).
  - apply list_elem_of_fmap. by exists c.
  - rewrite Heq. apply list_elem_of_here.
Qed.

Lemma find_leaving R L : Forall (fun c => staying c = true) R -> Forall (fun c => staying c = false) L ->
  List.find i_removing (R ++ L) = head L.
Proof.
  induction 1 as [|c R Hc HR IH]; intros HL; cbn [app List.find].
  - destruct HL as [|r L Hr HL]; [done|]. unfold staying in Hr. cbn. by destruct (i_removing r).
  - unfold staying in Hc. destruct (i_removing c); [done|]. by apply IH.
Qed.

(** Where a row goes when the leaving rows are last. *)
Lemma insert_among R L x k :
  NoDup (map i_node (R ++ L)) -> Forall (fun c => staying c = true) R -> Forall (fun c => staying c = false) L ->
  match R !! k with
  | Some ref => insert_before x (i_node ref) (R ++ L)
  | None =>
    match List.find i_removing (R ++ L) with
    | Some firstRemoving => insert_before x (i_node firstRemoving) (R ++ L)
    | None => (R ++ L) ++ [x]
    end
  end = (take k R ++ x :: drop k R) ++ L.
Proof.
  intros Hnd HR HL. destruct (R !! k) as [ref|] eqn:Ek.
  - pose proof (drop_S _ _ _ Ek) as Ed. pose proof (take_drop k R) as Er. rewrite Ed in Er |- *.
    rewrite <- Er in Hnd |- * at 1. rewrite <- !(assoc_L (++)) in *. cbn [app] in *.
    apply insert_before_at; [|done]. intros c Hc. by eapply node_apart.
  - apply lookup_ge_None in Ek. rewrite (take_ge R k), (drop_ge R k), find_leaving by done.
    destruct L as [|r L]; cbn [head].
    + by rewrite !app_nil_r.
    + rewrite <- (assoc_L (++)). cbn [app]. apply insert_before_at; [|done]. intros c Hc. by eapply node_apart.
Qed.

Lemma insertAtVisibleIndex_last cs x k :
  NoDup (map i_node cs) -> staying x = true -> leaving_last cs ->
  leaving_last (insertAtVisibleIndex cs x k) /\
  visible_items (insertAtVisibleIndex cs x k)
    = take k (remove_item (i_node x) (visible_items cs)) ++ x :: drop k (remove_item (i_node x) (visible_items cs)).
Proof.
  intros Hnd Hx (rows & leaving & -> & Hr & Hl). rewrite (visible_shape _ _ Hr Hl).
  pose proof (NoDup_map_Lfilter i_node (fun c => negb (i_node c =? i_node x)) _ Hnd) as Hnd'.
  unfold insertAtVisibleIndex. cbv zeta. fold (remove_item (i_node x) (rows ++ leaving)) in Hnd'.
  rewrite remove_item_app in *.
  pose proof (Forall_Lfilter _ _ _ Hr : Forall _ (remove_item (i_node x) rows)) as Hr'.
  pose proof (Forall_Lfilter _ _ _ Hl : Forall _ (remove_item (i_node x) leaving)) as Hl'.
  rewrite (visible_shape _ _ Hr' Hl'), insert_among by done.
  assert (Hall : Forall (fun c => staying c = true)
                   (take k (remove_item (i_node x) rows) ++ x :: drop k (remove_item (i_node x) rows))).
  { rewrite Forall_app, Forall_cons. split_and!; [by apply Forall_take|done|by apply Forall_drop]. }
  split; [by eexists _, _|by apply visible_shape].
Qed.

(** ** Node numbers *)
Lemma rows_ok_insert cs fresh x k fresh' :
  rows_ok cs fresh -> i_node x < fresh' -> fresh <= fresh' -> rows_ok (insertAtVisibleIndex cs x k) fresh'.
Proof.
  intros [Hnd Hlt] Hx Hle. pose proof (insertAtVisibleIndex_perm cs x k) as Hp. split.
  - rewrite Hp. cbn [map]. constructor; [|by apply NoDup_map_Lfilter].
    intros (c & Ec & [_ Hc]%elem_of_Lfilter)%list_elem_of_fmap.
    by rewrite <- Ec, Nat.eqb_refl in Hc.
  - intros c. rewrite Hp, elem_of_cons. intros [->|[Hc _]%elem_of_Lfilter]; [done|]. specialize (Hlt c Hc). lia.
Qed.

Lemma createFileItemElement_inv a f i path n li : createFileItemElement a f i path n = Some li ->
  i_node li = n /\ staying li = true /\ shown li = (file_name f, i, file_signed f).
Proof. unfold createFileItemElement. intros (e & _ & [= <-])%bind_Some. done. Qed.

Lemma place_item_rows_ok m path k f v v' :
  (forall n c, m !! n = Some c -> i_node c < v.2) -> rows_ok v.1 v.2 -> place_item m path k f v = Some v' ->
  rows_ok v'.1 v'.2 /\ v.2 <= v'.2.
Proof.
  intros Hm Hok. destruct v as [cs fresh]. unfold place_item. cbn [fst snd] in *.
  assert (Hnew : (li ← createFileItemElement true f k path fresh; Some (insertAtVisibleIndex cs li k, S fresh)) = Some v' ->
                 rows_ok v'.1 v'.2 /\ fresh <= v'.2).
  { intros (li & (Hn & _)%createFileItemElement_inv & [= <-])%bind_Some. cbn [fst snd].
    split; [|lia]. apply (rows_ok_insert cs fresh); [done|lia|lia]. }
  destruct (if nonempty _ then _ else _) as [e|] eqn:Ee; [|done]. destruct (i_removing e); [done|].
  intros [= <-]. cbn [fst snd]. split; [|done]. apply (rows_ok_insert cs fresh); [done| |done].
  destruct (nonempty (file_name f)); [|done]. cbn. by eapply Hm.
Qed.

Lemma place_items_rows_ok m path fs k v v' :
  (forall n c, m !! n = Some c -> i_node c < v.2) -> rows_ok v.1 v.2 -> place_items m path k fs v = Some v' -> rows_ok v'.1 v'.2.
Proof.
  revert k v. induction fs as [|f fs IH]; intros k v Hm Hok; cbn [place_items]; [by intros [= <-]|].
  intros (w & Hw & Hv)%bind_Some. destruct (place_item_rows_ok _ _ _ _ _ _ Hm Hok Hw) as [Hok' Hle].
  eapply (IH (S k) w); [|done..]. intros n c Hc. specialize (Hm n c Hc). lia.
Qed.

Lemma append_items_rows_ok path fs k v v' : rows_ok v.1 v.2 -> append_items path k fs v = Some v' -> rows_ok v'.1 v'.2.
Proof.
  revert k v. induction fs as [|f fs IH]; intros k v Hok; cbn [append_items]; [by intros [= <-]|].
  intros (li & (Hn & _)%createFileItemElement_inv & Hv)%bind_Some. eapply (IH (S k)); [|exact Hv]. cbn [fst snd].
  destruct Hok as [Hnd Hlt]. split.
  - rewrite map_app. apply NoDup_app. split_and!; [done| |apply NoDup_singleton].
    intros n (c & -> & Hc)%list_elem_of_fmap. cbn [map]. rewrite list_elem_of_singleton, Hn. specialize (Hlt c Hc). lia.
  - intros c. rewrite elem_of_app, list_elem_of_singleton. intros [Hc| ->]; [specialize (Hlt c Hc)|]; lia.
Qed.

(** ** Updating the list in place *)
Lemma existingMap_snoc cs c : existingMap (cs ++ [c]) =
  if nonempty (i_name c) then <[i_name c := c]> (existingMap cs) else existingMap cs.
Proof. unfold existingMap. apply fold_left_app. Qed.

Lemma existingMap_in cs n c : existingMap cs !! n = Some c -> c ∈ cs /\ i_name c = n /\ nonempty n = true.
Proof.
  revert n c. induction cs as [|d cs IH] using rev_ind; intros n c; [done|]. rewrite existingMap_snoc, elem_of_app, list_elem_of_singleton.
  destruct (nonempty (i_name d)) eqn:E; [|intros (? & ? & ?)%IH; auto].
  destruct (decide (i_name d = n)) as [<-|Hne].
  - rewrite lookup_insert_eq. intros [= ->]. auto.
  - rewrite lookup_insert_ne by done. intros (? & ? & ?)%IH; auto.
Qed.

Lemma existingMap_below cs fresh n c : rows_ok cs fresh -> existingMap cs !! n = Some c -> i_node c < fresh.
Proof. intros [_ Hlt] (Hc & _)%existingMap_in. by apply Hlt. Qed.

Section placing.
Context (m : gmap jstr item) (targets : list jstr) (V0 cs0 : list item) (path : jstr).
Hypothesis Hcs0 : NoDup (map i_node cs0).
Hypothesis HV0 : V0 = visible_items cs0.
Hypothesis Hm : forall n c, n ∈ targets -> m !! n = Some c -> staying c = true -> c ∈ V0 /\ i_name c = n /\ nonempty n = true.
Hypothesis Hfound : forall c, c ∈ V0 -> m !! i_name c = Some c.

(** The rows that the remaining files will find. *)
Definition others (names : list jstr) : list item := List.filter (fun c => negb (bool_decide (i_name c ∈ names))) V0.

Definition placed (done : list file) (v : list item * nat) : Prop :=
  rows_ok v.1 v.2 /\
  exists P, map shown P = wanted 0 done /\ visible_items v.1 ≡ₚ P ++ others (map file_name done) /\
            (leaving_last cs0 -> leaving_last v.1 /\ visible_items v.1 = P ++ others (map file_name done)).

Lemma others_next c names : c ∈ others names -> remove_item (i_node c) (others names) = others (names ++ [i_name c]).
Proof.
  unfold others. intros [Hc Hn]%elem_of_Lfilter. assert (Hin : forall d, d ∈ V0 -> i_node d = i_node c <-> i_name d = i_name c).
  { intros d Hd. split; intros E; [|apply Hfound in Hd, Hc; congruence].
    f_equal. assert (HndV : NoDup (map i_node V0)) by (rewrite HV0; by apply NoDup_map_Lfilter).
    apply list_elem_of_lookup in Hd as [i Hi], Hc as [j Hj].
    assert (i = j) as <-; [|congruence].
    apply (NoDup_lookup _ _ _ (i_node c) HndV); rewrite list_lookup_fmap, ?Hi, ?Hj; cbn; congruence. }
  unfold remove_item. revert Hin. generalize V0. clear. intros l. induction l as [|d l IH]; intros Hin; [done|].
  cbn [List.filter]. assert (E := Hin d (list_elem_of_here _ _)).
  assert (IH' := IH (fun e He => Hin e (list_elem_of_further _ _ _ He))). clear IH Hin.
  case_bool_decide as H1; case_bool_decide as H2; cbn [negb List.filter]; try done.
  - exfalso. apply H2, elem_of_app. by left.
  - rewrite elem_of_app, list_elem_of_singleton in H2. destruct H2 as [|H2]; [done|].
    by rewrite (proj2 (Nat.eqb_eq _ _) (proj2 E H2)).
  - destruct (i_node d =? i_node c) eqn:En; cbn [negb]; [|by f_equal].
    exfalso. apply H2, elem_of_app. right. apply list_elem_of_singleton, E. by apply Nat.eqb_eq.
Qed.

Lemma others_skip n names : (forall c, c ∈ V0 -> i_name c <> n) -> others (names ++ [n]) = others names.
Proof.
  unfold others. generalize V0. intros l. induction l as [|d l IH]; intros Hne; [done|]. cbn [List.filter].
  rewrite IH by (intros c Hc; apply Hne; by apply list_elem_of_further).
  assert (Hd := Hne d (list_elem_of_here _ _)).
  do 2 case_bool_decide; set_solver.
Qed.

Lemma remove_absent n cs : (forall c, c ∈ cs -> i_node c <> n) -> remove_item n cs = cs.
Proof.
  intros H. apply filter_all, Forall_forall. intros c Hc. by rewrite (proj2 (Nat.eqb_neq _ _) (H c Hc)).
Qed.

Lemma wanted_snoc fs f : wanted 0 (fs ++ [f]) = wanted 0 fs ++ [(file_name f, length fs, file_signed f)].
Proof. unfold wanted. rewrite imap_app. cbn. by rewrite Nat.add_0_r. Qed.

Lemma placed_insert done f v x fresh' :
  placed done v -> staying x = true -> shown x = (file_name f, length done, file_signed f) ->
  i_node x < fresh' -> v.2 <= fresh' ->
  (forall P, NoDup (map i_node (P ++ others (map file_name done))) ->
     (forall c, c ∈ P ++ others (map file_name done) -> i_node c < v.2) ->
     remove_item (i_node x) (P ++ others (map file_name done)) = P ++ others (map file_name (done ++ [f]))) ->
  placed (done ++ [f]) (insertAtVisibleIndex v.1 x (length done), fresh').
Proof.
  intros ([Hnd Hlt] & P & HP & Hv & Ho) Hx Hs Hn Hle Hrem. split; [by eapply rows_ok_insert|]. cbn [fst].
  assert (Hr : remove_item (i_node x) (P ++ others (map file_name done)) = P ++ others (map file_name (done ++ [f]))).
  { apply Hrem.
    - rewrite <- Hv. by apply NoDup_map_Lfilter.
    - intros c. rewrite <- Hv. intros [Hc _]%elem_of_Lfilter. by apply Hlt. }
  assert (HlP : length P = length done).
  { apply (f_equal length) in HP. rewrite length_map in HP. unfold wanted in HP. by rewrite length_imap in HP. }
  exists (P ++ [x]). split_and!.
  - rewrite map_app, HP, wanted_snoc. cbn [map]. by rewrite Hs.
  - rewrite insertAtVisibleIndex_visible by done.
    unfold remove_item. rewrite (filter_perm _ _ _ Hv). fold (remove_item (i_node x) (P ++ others (map file_name done))).
    rewrite Hr, <- (assoc_L (++)). apply Permutation_middle.
  - intros Hl. destruct (Ho Hl) as [Hl' Hv']. destruct (insertAtVisibleIndex_last v.1 x (length done) Hnd Hx Hl') as [H1 H2].
    split; [done|]. rewrite H2, Hv', Hr, <- HlP, take_app_length, drop_app_length, <- (assoc_L (++)). done.
Qed.

Lemma remove_found c P D : c ∈ others D -> NoDup (map i_node (P ++ others D)) ->
  remove_item (i_node c) (P ++ others D) = P ++ others (D ++ [i_name c]).
Proof.
  intros Hc Hnd. rewrite remove_item_app, (others_next c D Hc). f_equal. apply remove_absent.
  intros d Hd Heq. rewrite map_app in Hnd. apply NoDup_app in Hnd as (_ & Hn & _).
  apply (Hn (i_node d)); [|rewrite Heq]; apply list_elem_of_fmap; eauto.
Qed.

Lemma placed_step done f v v' :
  placed done v -> file_name f ∈ targets -> file_name f ∉ map file_name done -> place_item m path (length done) f v = Some v' ->
  placed (done ++ [f]) v'.
Proof.
  intros HI Hin Hf. destruct v as [cs fresh]. unfold place_item.
  assert (Hnew : (forall c, c ∈ V0 -> i_name c <> file_name f) ->
    (li ← createFileItemElement true f (length done) path fresh;
     Some (insertAtVisibleIndex cs li (length done), S fresh)) = Some v' -> placed (done ++ [f]) v').
  { intros Hno (li & (Hn & Hst & Hsh)%createFileItemElement_inv & [= <-])%bind_Some.
    apply (placed_insert done f (cs, fresh) li (S fresh)); try done; cbn [fst snd]; try lia.
    intros P _ Hlt. rewrite Hn, map_app. cbn [map]. rewrite others_skip by done. apply remove_absent.
    intros c Hc. specialize (Hlt c Hc). lia. }
  destruct (if nonempty _ then _ else _) as [e|] eqn:Ee.
  - destruct (nonempty (file_name f)); [|done]. destruct (i_removing e) eqn:Er.
    + apply Hnew. intros c Hc Hcn. pose proof (Hfound c Hc) as Hmc. rewrite Hcn in Hmc. simplify_eq.
      rewrite HV0 in Hc. apply elem_of_Lfilter in Hc as [_ Hc]. unfold staying in Hc. by rewrite Er in Hc.
    + assert (Hst : staying e = true) by (unfold staying; by rewrite Er).
      destruct (Hm _ _ Hin Ee Hst) as (HeV & Hen & _). intros [= <-].
      assert (Heo : e ∈ others (map file_name done)).
      { apply elem_of_Lfilter. rewrite Hen, bool_decide_eq_false_2 by done. done. }
      apply (placed_insert done f (cs, fresh) (refresh f (length done) e) fresh); try done.
      * unfold shown. cbn. by rewrite Hen.
      * destruct HI as ([_ Hlt] & P & _ & Hv & _). cbn [fst snd] in *. apply (Hlt e).
        assert (He : e ∈ visible_items cs) by (rewrite Hv, elem_of_app; by right).
        by apply elem_of_Lfilter in He as [? _].
      * intros P Hnd _. rewrite map_app. cbn [map]. rewrite <- Hen. unfold refresh. cbn [i_node]. by apply remove_found.
  - apply Hnew. intros c Hc Hcn. pose proof (Hfound c Hc) as Hmc.
    pose proof (elem_of_Lfilter staying c cs0) as [Hsc _]. rewrite HV0 in Hc. destruct (Hsc Hc) as [_ Hst].
    rewrite Hcn in Hmc. destruct (Hm _ _ Hin Hmc Hst) as (_ & _ & Hne).
    by rewrite Hne, Hmc in Ee.
Qed.

Lemma place_item_total k f v : is_Some (encodePathSegment (file_name f)) -> is_Some (place_item m path k f v).
Proof.
  intros [e He]. destruct v as [cs fresh]. unfold place_item, createFileItemElement. rewrite He. cbn.
  repeat case_match; eauto.
Qed.

Lemma place_items_placed fs done v v' :
  placed done v -> NoDup (map file_name (done ++ fs)) -> map file_name fs ⊆ targets ->
  place_items m path (length done) fs v = Some v' -> placed (done ++ fs) v'.
Proof.
  revert done v. induction fs as [|f fs IH]; intros done v HI Hnd Hsub; cbn [place_items].
  - intros [= <-]. by rewrite app_nil_r.
  - intros (w & Hw & Hv)%bind_Some. rewrite (cons_middle f done fs), app_assoc in Hnd |- *.
    apply (IH (done ++ [f]) w); [|done| |by rewrite length_app, Nat.add_1_r].
    + apply (placed_step done f v w HI); [apply Hsub, list_elem_of_here| |done]. rewrite !map_app in Hnd.
      apply NoDup_app in Hnd as [Hnd _]. apply NoDup_app in Hnd as (_ & Hn & _). intros H. by apply (Hn _ H), list_elem_of_singleton.
    + intros n Hn. apply Hsub. by apply list_elem_of_further.
Qed.

Lemma place_items_total k fs v : Forall (fun f => is_Some (encodePathSegment (file_name f))) fs -> is_Some (place_items m path k fs v).
Proof.
  revert k v. induction fs as [|f fs IH]; intros k v; cbn [place_items]; [by eexists|]. intros [Hf Hfs]%Forall_cons.
  destruct (place_item_total k f v Hf) as [w ->]. by apply IH.
Qed.
End placing.

(** Where the rows come from. *)
Lemma place_items_from m path fs k v v' c : place_items m path k fs v = Some v' -> c ∈ v'.1 ->
  c ∈ v.1 \/
  (exists f i e, m !! file_name f = Some e /\ staying e = true /\ c = refresh f i e) \/
  (exists f i n, f ∈ fs /\ (forall e, m !! file_name f = Some e -> staying e = false \/ nonempty (file_name f) = false) /\
     createFileItemElement true f i path n = Some c).
Proof.
  revert k v. induction fs as [|f fs IH]; intros k v; cbn [place_items]; [intros [= <-]; by left|].
  intros ([cs1 fresh1] & Hw & Hv)%bind_Some Hc. destruct (IH _ _ Hv Hc) as [Hin|[?|(f' & i & n & Hf & ?)]]; [|right; by left|].
  2:{ right. right. exists f', i, n. split; [by apply list_elem_of_further|done]. }
  cbn [fst] in Hin. destruct v as [cs fresh]. unfold place_item in Hw.
  assert (Hadd : forall x j, c ∈ insertAtVisibleIndex cs x j -> c = x \/ c ∈ cs).
  { intros x j. rewrite insertAtVisibleIndex_perm, elem_of_cons. intros [?|[? _]%elem_of_Lfilter]; auto. }
  assert (Hnew : (forall e, m !! file_name f = Some e -> staying e = false \/ nonempty (file_name f) = false) ->
    (li ← createFileItemElement true f k path fresh; Some (insertAtVisibleIndex cs li k, S fresh)) = Some (cs1, fresh1) ->
    c ∈ cs \/ exists f' i n, f' ∈ f :: fs /\
      (forall e, m !! file_name f' = Some e -> staying e = false \/ nonempty (file_name f') = false) /\
      createFileItemElement true f' i path n = Some c).
  { intros Hno (li & Hli & [= <- _])%bind_Some. apply Hadd in Hin as [->|?]; [right|by left].
    exists f, k, fresh. split; [apply list_elem_of_here|done]. }
  destruct (nonempty (file_name f)) eqn:En.
  - destruct (m !! file_name f) as [e|] eqn:Em.
    + destruct (i_removing e) eqn:Er.
      * destruct Hnew as [?|?]; [|done|by left|right; by right]. intros e' [= <-]. left. unfold staying. by rewrite Er.
      * injection Hw as <- _. apply Hadd in Hin as [->|?]; [right; left|by left]. exists f, k, e. unfold staying. by rewrite Er.
    + destruct Hnew as [?|?]; [done|done|by left|right; by right].
  - destruct Hnew as [?|?]; [by right|done|by left|right; by right].
Qed.

Lemma append_items_shown path fs k v v' : append_items path k fs v = Some v' ->
  exists l, v'.1 = v.1 ++ l /\ map shown l = wanted k fs /\ visible_items l = l.
Proof.
  revert k v. induction fs as [|f fs IH]; intros k v; cbn [append_items].
  - intros [= <-]. exists []. by rewrite app_nil_r.
  - intros (li & (_ & Hst & Hsh)%createFileItemElement_inv & Hv)%bind_Some. apply IH in Hv as (l & E & Hl & Hvis).
    exists (li :: l). split_and!.
    + cbn [fst] in E. by rewrite <- (assoc_L (++)) in E.
    + cbn [map]. rewrite Hsh, Hl. unfold wanted. cbn [imap]. f_equal; [by rewrite Nat.add_0_r|].
      apply imap_ext. intros j g _. cbn. by rewrite Nat.add_succ_r.
    + unfold visible_items in *. cbn [List.filter]. by rewrite Hst, Hvis.
Qed.

Lemma append_items_total path fs k v : Forall (fun f => is_Some (encodePathSegment (file_name f))) fs ->
  is_Some (append_items path k fs v).
Proof.
  revert k v. induction fs as [|f fs IH]; intros k v; cbn [append_items]; [by eexists|]. intros [[e He] Hfs]%Forall_cons.
  unfold createFileItemElement. rewrite He. cbn. by apply IH.
Qed.

Lemma replaced_list_shows files path n v : replace_list files path n = Some v -> map shown (visible_items v.1) = wanted 0 files.
Proof. intros (l & E & Hl & Hv)%append_items_shown. cbn [fst app] in E. by rewrite E, Hv. Qed.

(** The rows that stay after marking: those with a file. *)
Lemma visible_marked m names cs : (forall c, c ∈ cs -> staying c = true -> m !! i_name c = Some c) ->
  visible_items (mark_removed m names cs) = List.filter (fun c => bool_decide (i_name c ∈ names)) (visible_items cs).
Proof.
  intros H. unfold visible_items, mark_removed. induction cs as [|c cs IH]; [done|]. cbn [map List.filter].
  rewrite IH by (intros d Hd; apply H; by apply list_elem_of_further). clear IH.
  specialize (H c (list_elem_of_here _ _)). destruct (staying c) eqn:Es.
  - rewrite (H eq_refl). rewrite bool_decide_eq_true_2 by done. cbn [List.filter andb].
    case_bool_decide; cbn [negb]; [by rewrite Es|done].
  - destruct (_ && _); cbn; by rewrite ?Es.
Qed.

Lemma marked_nodes m names cs : map i_node (mark_removed m names cs) = map i_node cs.
Proof. unfold mark_removed. rewrite map_map. apply map_ext. intros c. by destruct (_ && _). Qed.

Lemma rows_ok_marked m names cs fresh : rows_ok cs fresh -> rows_ok (mark_removed m names cs) fresh.
Proof.
  intros [Hnd Hlt]. split; [by rewrite marked_nodes|]. intros c Hc.
  apply (list_elem_of_fmap_2 i_node) in Hc. change (i_node <$> ?l) with (map i_node l) in Hc. rewrite marked_nodes in Hc.
  apply list_elem_of_fmap in Hc as (d & -> & Hd). by apply Hlt.
Qed.

(** The rows after an update that succeeds. *)
Lemma reconciled_rows files path cs fresh v' :
  rows_ok cs fresh -> rows_found cs -> NoDup (map file_name files) ->
  renderFileListReconciled files path (cs, fresh) = Some v' ->
  map shown (visible_items v'.1) ≡ₚ wanted 0 files /\
  (leaving_last (mark_removed (existingMap cs) (map file_name files) cs) -> map shown (visible_items v'.1) = wanted 0 files).
Proof.
  intros Hok Hf Hnd Hr. set (names := map file_name files). set (cs0 := mark_removed (existingMap cs) names cs).
  pose proof (visible_marked _ names cs Hf : visible_items cs0 = _) as Hv0.
  assert (Hok0 : rows_ok cs0 fresh) by by apply rows_ok_marked.
  assert (Hstart : placed (visible_items cs0) cs0 [] (cs0, fresh)).
  { assert (E : others (visible_items cs0) [] = visible_items cs0) by (apply filter_all, Forall_forall; done).
    split; [done|]. exists []. cbn [map app fst]. rewrite E. split_and!; [done..|]. by intros H; split. }
  destruct (place_items_placed (existingMap cs) names (visible_items cs0) cs0 path (proj1 Hok0) eq_refl) with
    (fs := files) (done := @nil file) (v := (cs0, fresh)) (v' := v') as (Hok' & P & HP & Hv & Ho); [| |done..|].
  - intros n c Hn (Hc & Hcn & Hne)%existingMap_in Hs. split_and!; [|done..]. rewrite Hv0.
    apply elem_of_Lfilter. split; [by apply elem_of_Lfilter|]. rewrite Hcn. by apply bool_decide_eq_true_2.
  - intros c. rewrite Hv0. intros [[Hc Hs]%elem_of_Lfilter _]%elem_of_Lfilter. by apply Hf.
  - cbn [app] in *.
    assert (E : others (visible_items cs0) (map file_name files) = []).
    { apply filter_none, Forall_forall. intros c. rewrite Hv0, elem_of_Lfilter. intros [_ Hc]. unfold names in Hc.
      by rewrite Hc. }
    rewrite E, app_nil_r in *. rewrite <- HP. split; [by rewrite Hv|]. intros Hlast. by destruct (Ho Hlast) as [_ ->].
Qed.

Lemma reconciled_rows_ok files path v v' : rows_ok v.1 v.2 -> renderFileListReconciled files path v = Some v' -> rows_ok v'.1 v'.2.
Proof.
  destruct v as [cs fresh]. intros Hok. apply place_items_rows_ok; [|by apply rows_ok_marked].
  intros n c. by apply existingMap_below.
Qed.

Lemma reconciled_data files path cs fresh v' : rows_found cs -> renderFileListReconciled files path (cs, fresh) = Some v' ->
  Forall (row_data cs files path) (visible_items v'.1).
Proof.
  intros Hf Hr. apply Forall_forall. intros c [Hc Hs]%elem_of_Lfilter. unfold row_data.
  destruct (place_items_from _ _ _ _ _ _ c Hr Hc) as [Hin|[(f & i & e & Hm & He & ->)|(f & i & n & Hin & Hno & Hli)]].
  - cbn [fst] in Hin. unfold mark_removed in Hin. apply list_elem_of_fmap in Hin as (d & Hd & Hin).
    assert (c = d) as -> by (destruct (_ && _); [by rewrite Hd in Hs|done]).
    rewrite (Hf d Hin Hs). cbn. by rewrite Hs.
  - destruct (existingMap_in _ _ _ Hm) as (_ & En & _). cbn [refresh i_name]. rewrite En, Hm. cbn. by rewrite He.
  - unfold createFileItemElement in Hli. apply bind_Some in Hli as (enc & _ & [= <-]). cbn [i_name i_type i_length i_path i_node].
    destruct (existingMap cs !! file_name f) as [e|] eqn:Em; cbn.
    + assert (staying e = false) as ->; [|by exists f]. destruct (existingMap_in _ _ _ Em) as (_ & _ & Hne).
      destruct (Hno e eq_refl) as [|]; [done|congruence].
    + by exists f.
Qed.

Lemma replaced_rows_ok files path n v' : replace_list files path n = Some v' -> rows_ok v'.1 v'.2.
Proof. apply append_items_rows_ok. split; [apply NoDup_nil_2|]. by intros c Hc%not_elem_of_nil. Qed.

(** C26: what the update in place shows, compared with rebuilding the list.  The children have distinct elements, the
    new files distinct names that can be encoded, and of every row that stays no later child has the same name
    ([rows_found]; when a file comes back while its old row still leaves, a later update doubles it,
    [reconciled_list_doubled]).  Then the update succeeds, and its rows that stay have, up to their order, the names, positions
    and signature marks of the rows that rebuilding would give, none lost and none doubled; in the same order when no
    leaving row precedes one that stays.  The type, the size and the path are not updated: a row of a name that was shown is the
    same element with those it had ([reconciled_list_stale_size]), a row of any other name has those of the file. *)
Theorem reconciled_list_shows files path cs fresh :
  rows_ok cs fresh -> rows_found cs -> NoDup (map file_name files) ->
  Forall (fun f => is_Some (encodePathSegment (file_name f))) files ->
  exists cs' fresh' l fresh'',
    renderFileListReconciled files path (cs, fresh) = Some (cs', fresh') /\
    replace_list files path fresh = Some (l, fresh'') /\ rows_ok cs' fresh' /\
    map shown (visible_items cs') ≡ₚ map shown (visible_items l) /\
    (leaving_last (mark_removed (existingMap cs) (map file_name files) cs) ->
     map shown (visible_items cs') = map shown (visible_items l)) /\
    Forall (row_data cs files path) (visible_items cs').
Proof.
  intros Hok Hf Hnd Henc.
  assert (is_Some (renderFileListReconciled files path (cs, fresh))) as [[cs' fresh'] Hr] by by apply place_items_total.
  assert (is_Some (replace_list files path fresh)) as [[l fresh''] Hl] by by apply append_items_total.
  exists cs', fresh', l, fresh''. destruct (reconciled_rows _ _ _ _ _ Hok Hf Hnd Hr) as [Hp Ho].
  rewrite (replaced_list_shows _ _ _ _ Hl : map shown (visible_items l) = _).
  split_and!; [done|done|by apply (reconciled_rows_ok files path (cs, fresh) (cs', fresh'))|done|done|].
  exact (reconciled_data _ _ _ _ _ Hf Hr).
Qed.

(** *** Rows that leave and settle *)
Lemma existingMap_filter p cs n c : existingMap cs !! n = Some c -> p c = true -> existingMap (List.filter p cs) !! n = Some c.
Proof.
  induction cs as [|d cs IH] using rev_ind; [done|]. rewrite existingMap_snoc, List.filter_app. cbn [List.filter].
  destruct (nonempty (i_name d)) eqn:Ed.
  - destruct (decide (i_name d = n)) as [<-|Hne].
    + rewrite lookup_insert_eq. intros [= ->] Hp. by rewrite Hp, existingMap_snoc, Ed, lookup_insert_eq.
    + rewrite lookup_insert_ne by done. intros Hc Hp. destruct (p d).
      * rewrite existingMap_snoc, Ed, lookup_insert_ne by done. by apply IH.
      * rewrite app_nil_r. by apply IH.
  - intros Hc Hp. destruct (p d); [rewrite existingMap_snoc, Ed|rewrite app_nil_r]; by apply IH.
Qed.

Lemma rows_found_filter p cs : (forall c, staying c = true -> p c = true) -> rows_found cs -> rows_found (List.filter p cs).
Proof. intros Hp Hf c [Hc _]%elem_of_Lfilter Hs. apply existingMap_filter; [by apply Hf|by apply Hp]. Qed.

Lemma existingMap_map g cs : (forall c, i_name (g c) = i_name c) -> existingMap (map g cs) = g <$> existingMap cs.
Proof.
  intros Hg. induction cs as [|d cs IH] using rev_ind; [unfold existingMap; cbn; by rewrite fmap_empty|].
  rewrite map_app. cbn [map]. rewrite !existingMap_snoc, Hg, IH. destruct (nonempty _); [|done]. by rewrite fmap_insert.
Qed.

Lemma rows_found_map g cs : (forall c, i_name (g c) = i_name c /\ staying (g c) = staying c) -> rows_found cs -> rows_found (map g cs).
Proof.
  intros Hg Hf c (d & -> & Hd)%list_elem_of_fmap. destruct (Hg d) as [Hn Hs]. rewrite Hs, Hn. intros Hst.
  rewrite existingMap_map by (intros; apply Hg). by rewrite lookup_fmap, (Hf d Hd Hst).
Qed.

Lemma visible_filter p cs : (forall c, staying c = true -> p c = true) -> visible_items (List.filter p cs) = visible_items cs.
Proof.
  intros Hp. unfold visible_items. induction cs as [|c cs IH]; [done|]. cbn [List.filter].
  destruct (staying c) eqn:Es; [rewrite (Hp c Es); cbn [List.filter]; by rewrite Es, IH|].
  destruct (p c); cbn [List.filter]; by rewrite ?Es.
Qed.

Lemma visible_map g cs : (forall c, staying (g c) = staying c) -> visible_items (map g cs) = map g (visible_items cs).
Proof.
  intros Hg. unfold visible_items. induction cs as [|c cs IH]; [done|]. cbn [map List.filter]. rewrite Hg.
  destruct (staying c); cbn [map]; by rewrite IH.
Qed.

(** ** Concrete lists *)
Definition sample_row (node index : nat) (name : jstr) (removing : bool) : item :=
  {| i_node := node; i_name := name; i_type := js "FILE"; i_length := Some 10%Z; i_path := js "/releases/"; i_index := index;
     i_signed := false; i_removing := removing; i_added := false |}.

Definition sample_listing (names : list jstr) : list file :=
  map (fun n => {| file_name := n; file_type := js "FILE"; file_signed := false; content_length := Some 20%Z |}) names.

Lemma reconciled_list_shows_witness :
  let cs := [sample_row 0 0 (js "a.jar") false; sample_row 1 1 (js "b.jar") false; sample_row 2 2 (js "b.jar.md5") true] in
  let files := sample_listing [js "a.jar"; js "aa.jar"; js "b.jar"] in
  exists cs' fresh' l fresh'',
    renderFileListReconciled files (js "/releases/") (cs, 3) = Some (cs', fresh') /\
    replace_list files (js "/releases/") 3 = Some (l, fresh'') /\ rows_ok cs' fresh' /\
    map shown (visible_items cs') ≡ₚ map shown (visible_items l) /\
    (leaving_last (mark_removed (existingMap cs) (map file_name files) cs) ->
     map shown (visible_items cs') = map shown (visible_items l)) /\
    Forall (row_data cs files (js "/releases/")) (visible_items cs').
Proof.
  intros cs files. apply (reconciled_list_shows files (js "/releases/") cs 3).
  - split; [refine (proj1 (bool_decide_eq_true _) _); vm_compute; reflexivity|].
    intros c Hc. assert (H : Forall (fun c => i_node c < 3) cs) by (repeat constructor).
    rewrite Forall_forall in H. by apply H.
  - intros c Hc Hs. assert (H : Forall (fun c => staying c = true -> existingMap cs !! i_name c = Some c) cs).
    { unfold cs at 2. rewrite !Forall_cons. split_and!; [by intros _; vm_compute|by intros _; vm_compute|by intros [=]|by apply Forall_nil]. }
    rewrite Forall_forall in H. by apply H.
  - refine (proj1 (bool_decide_eq_true _) _). vm_compute. reflexivity.
  - unfold files, sample_listing. cbn [map]. rewrite !Forall_cons. split_and!; [by eexists; vm_compute..|by apply Forall_nil].
Defined.

Definition names_after (files : list file) (cs : list item) (fresh : nat) : option (list jstr) :=
  (fun v => map i_name (visible_items v.1)) <$> renderFileListReconciled files (js "/releases/") (cs, fresh).

(** When a leaving row precedes the others, the last row is moved before it: hiding the checksum files of a
    directory shows its last file first. *)
Example reconciled_list_reordered :
  names_after (sample_listing [js "a.jar"; js "b.jar"])
    [sample_row 0 0 (js "a.jar") false; sample_row 1 1 (js "a.jar.md5") false; sample_row 2 2 (js "b.jar") false] 3
  = Some [js "b.jar"; js "a.jar"].
Proof. vm_compute. reflexivity. Qed.

(** A file that comes back while its old row is leaving is shown twice by the next update. *)
Example reconciled_list_doubled :
  (v ← renderFileListReconciled (sample_listing [js "a.jar"; js "b.jar"]) (js "/releases/")
         ([sample_row 0 0 (js "a.jar") false; sample_row 1 1 (js "b.jar") true], 2);
   names_after (sample_listing [js "a.jar"; js "b.jar"]) v.1 v.2)
  = Some [js "a.jar"; js "b.jar"; js "b.jar"].
Proof. vm_compute. reflexivity. Qed.

(** A row that stays keeps the size it showed first. *)
Example reconciled_list_stale_size :
  (fun v => map i_length (visible_items v.1)) <$>
    renderFileListReconciled (sample_listing [js "a.jar"]) (js "/releases/") ([sample_row 0 0 (js "a.jar") false], 1)
  = Some [Some 10%Z].
Proof. vm_compute. reflexivity. Qed.
