(* ===== verification/Breadcrumb.v ===== *)
(** * Breadcrumbs

    [renderBreadcrumb] of [internal/service/frontend/renop-html/js/browser.js]: the trail of links to the directories
    above a path, updated in place, and the button that leads one directory up. *)
From S2P Require Import Prelude JsString JsUri BrowserUtils.

(** ** The trail *)
(** A child of [breadcrumb-links]: [text] is its text content, [i18nKey] its [data-i18n] attribute. *)
Inductive crumb :=
| Sep
| Link (href text : jstr) (isCurrent : bool) (i18nKey : option jstr).

#[global] Instance crumb_eq_dec : EqDecision crumb.
Proof. solve_decision. Defined.

Section trail.
Context (format : jstr) (t : jstr -> jstr).

Definition packagesRoute (i : nat) (decoded : jstr) : bool :=
  ((format =? js "cargo")%js || (format =? js "npm")%js) && (i =? 1) && (decoded =? js "packages")%js.

Definition packages_key : jstr := if (format =? js "npm")%js then js "npm.packages" else js "cargo.packagesTitle".

(** The loop over [parts] from index [i]. *)
Fixpoint segments (i : nat) (currentPath : jstr) (parts : list jstr) : list crumb :=
  match parts with
  | [] => []
  | part :: rest =>
    let currentPath := currentPath ++ js "/" ++ part in
    let decoded := decodePathSegment part in
    let isLast := bool_decide (rest = []) in
    let link := if packagesRoute i decoded then Link currentPath (t packages_key) isLast (Some packages_key)
                else Link currentPath decoded isLast None in
    Sep :: link :: segments (S i) currentPath rest
  end.

Definition desired (path : jstr) : list crumb :=
  let parts := breadcrumbPathParts path format in
  Link (js "/") (t (js "browser.root")) (bool_decide (parts = [])) (Some (js "browser.root")) :: segments 0 [] parts.

(** The matching prefix is updated in place, the rest is removed and created anew. *)
Fixpoint reconcile (existing wanted : list crumb) : list crumb :=
  match existing, wanted with
  | Sep :: existing', Sep :: wanted' => Sep :: reconcile existing' wanted'
  | Link href text _ _ :: existing', Link href' text' isCurrent' i18nKey' :: wanted' =>
    if (href =? href')%js
    then Link href (match i18nKey' with Some _ => text' | None => text end) isCurrent' i18nKey' :: reconcile existing' wanted'
    else wanted
  | _, _ => wanted
  end.
End trail.

(** ** The button up *)
Record up_button := {
  up_hidden : bool;           (* [hidden] and [style.display = 'none'] *)
  is_visible : bool;
  is_hiding : bool;
  up_href : jstr;
  hide_timers : nat;          (* [setTimeout(hideNow, 220)] *)
  hide_listeners : nat;       (* [animationend] listeners *)
  show_frames : nat           (* [requestAnimationFrame] *)
}.

Definition at_root (path : jstr) : bool := negb (nonempty path) || (path =? js "/")%js.

Definition hideNow (b : up_button) : up_button :=
  {| up_hidden := true; is_visible := false; is_hiding := false; up_href := up_href b; hide_timers := hide_timers b;
     hide_listeners := hide_listeners b; show_frames := show_frames b |}.

Definition parent_href (path format : jstr) : jstr :=
  let pathParts := breadcrumbPathParts path format in
  if length pathParts <=? 1 then js "/" else js "/" ++ join (js "/") (take (length pathParts - 1) pathParts).

Definition render_up (path format : jstr) (b : up_button) : up_button :=
  if at_root path then
    if is_visible b && negb (is_hiding b) then
      {| up_hidden := up_hidden b; is_visible := false; is_hiding := true; up_href := up_href b;
         hide_timers := S (hide_timers b); hide_listeners := S (hide_listeners b); show_frames := show_frames b |}
    else if negb (is_hiding b) then hideNow b else b
  else
    {| up_hidden := false; is_visible := is_visible b; is_hiding := false; up_href := parent_href path format;
       hide_timers := hide_timers b; hide_listeners := hide_listeners b;
       show_frames := if is_visible b then show_frames b else S (show_frames b) |}.

(** A timer of 220 ms, the end of the animation, the next frame. *)
Inductive up_event := HideTimer | HideAnimationEnd | ShowFrame.

Definition up_step (ev : up_event) (b : up_button) : up_button :=
  match ev with
  | HideTimer =>
    match hide_timers b with
    | O => b
    | S n => hideNow {| up_hidden := up_hidden b; is_visible := is_visible b; is_hiding := is_hiding b; up_href := up_href b;
                        hide_timers := n; hide_listeners := hide_listeners b; show_frames := show_frames b |}
    end
  | HideAnimationEnd =>
    match hide_listeners b with
    | O => b
    | S _ => hideNow {| up_hidden := up_hidden b; is_visible := is_visible b; is_hiding := is_hiding b; up_href := up_href b;
                        hide_timers := hide_timers b; hide_listeners := 0; show_frames := show_frames b |}
    end
  | ShowFrame =>
    match show_frames b with
    | O => b
    | S n => {| up_hidden := up_hidden b; is_visible := true; is_hiding := is_hiding b; up_href := up_href b;
                hide_timers := hide_timers b; hide_listeners := hide_listeners b; show_frames := n |}
    end
  end.

(** ** Rendering *)
Record breadcrumb := { links : list crumb; upDirBtn : up_button }.

Definition renderBreadcrumb (format : jstr) (t : jstr -> jstr) (path : jstr) (b : breadcrumb) : breadcrumb :=
  {| links := reconcile (links b) (desired format t path); upDirBtn := render_up path format (upDirBtn b) |}.

(** ** Lemmas *)
Definition shape (c : crumb) : option (jstr * bool * option jstr) :=
  match c with Sep => None | Link href _ isCurrent i18nKey => Some (href, isCurrent, i18nKey) end.

Definition hrefs (cs : list crumb) : list jstr := omap (fun c => (fun s => s.1.1) <$> shape c) cs.

Lemma reconcile_shape existing wanted : map shape (reconcile existing wanted) = map shape wanted.
Proof.
  revert wanted. induction existing as [|[|href text cur key] existing IH]; intros [|[|href' text' cur' key'] wanted]; try done.
  - cbn. by rewrite IH.
  - cbn [reconcile]. case_bool_decide as E; [|done]. subst. cbn. by rewrite IH.
Qed.

Lemma hrefs_shape cs ds : map shape cs = map shape ds -> hrefs cs = hrefs ds.
Proof.
  revert ds. induction cs as [|c cs IH]; intros [|d ds] H; try done. cbn in H. injection H as H1 H2.
  unfold hrefs in *. cbn. by rewrite H1, (IH _ H2).
Qed.

Lemma reconcile_segments format t t' i cp ps ps' :
  reconcile (segments format t' i cp ps) (segments format t i cp ps') = segments format t i cp ps'.
Proof.
  revert i cp ps'. induction ps as [|p ps IH]; intros i cp [|p' ps']; try done. cbn [segments reconcile].
  destruct (decide (p = p')) as [<-|Hne].
  - destruct (packagesRoute _ _ _); cbn [reconcile]; rewrite bool_decide_eq_true_2 by done; by rewrite IH.
  - assert (cp ++ js "/" ++ p <> cp ++ js "/" ++ p').
    { intros E. apply Hne. apply (inj (app cp)) in E. by injection E. }
    f_equal. destruct (packagesRoute _ _ (_ p)), (packagesRoute _ _ (_ p')); cbn [reconcile];
      by rewrite bool_decide_eq_false_2.
Qed.

Lemma segments_hrefs format t i cp ps :
  hrefs (segments format t i cp ps) = imap (fun j _ => cp ++ js "/" ++ join (js "/") (take (S j) ps)) ps.
Proof.
  revert i cp. induction ps as [|p ps IH]; intros i cp; [done|].
  assert (E : hrefs (segments format t i cp (p :: ps))
              = (cp ++ js "/" ++ p) :: hrefs (segments format t (S i) (cp ++ js "/" ++ p) ps)).
  { unfold hrefs. cbn [segments]. by destruct (packagesRoute _ _ _). }
  rewrite E, IH. cbn [imap take join]. f_equal. apply imap_ext. intros j q Hq. cbn.
  destruct ps as [|q' ps]; [done|]. by rewrite <- !(assoc_L (++)).
Qed.

Lemma desired_hrefs format t path :
  hrefs (desired format t path)
    = js "/" :: imap (fun j _ => js "/" ++ join (js "/") (take (S j) (breadcrumbPathParts path format)))
                  (breadcrumbPathParts path format).
Proof.
  transitivity (js "/" :: hrefs (segments format t 0 [] (breadcrumbPathParts path format))); [done|].
  by rewrite segments_hrefs.
Qed.

Lemma parent_link path format t : breadcrumbPathParts path format <> [] ->
  hrefs (desired format t path) !! (length (breadcrumbPathParts path format) - 1) = Some (parent_href path format).
Proof.
  rewrite desired_hrefs. unfold parent_href. cbv zeta. generalize (breadcrumbPathParts path format). intros parts Hne.
  destruct (length parts) as [|[|n]] eqn:El; [by apply nil_length_inv in El|done|].
  cbn [Nat.leb]. replace (S (S n) - 1) with (S n) by lia. rewrite lookup_cons_ne_0 by done. cbn [Nat.pred].
  assert (is_Some (parts !! n)) as [p Hp] by (apply lookup_lt_is_Some; lia).
  by rewrite list_lookup_imap, Hp.
Qed.

(** The trail after a rendering: whatever was shown before, the links are the root and the directories above the
    path, the last one current, with the right translation keys; if the same format was shown before, in any
    language, the texts are right too.  Outside the root the button up is not hidden and leads where the link before
    the last one does. *)
Theorem breadcrumb_shows_path format t path b :
  let b' := renderBreadcrumb format t path b in
  let parts := breadcrumbPathParts path format in
  map shape (links b') = map shape (desired format t path) /\
  hrefs (links b') = js "/" :: imap (fun j _ => js "/" ++ join (js "/") (take (S j) parts)) parts /\
  (forall t' path', links b = desired format t' path' -> links b' = desired format t path) /\
  (at_root path = false ->
   up_hidden (upDirBtn b') = false /\
   (parts <> [] -> hrefs (links b') !! (length parts - 1) = Some (up_href (upDirBtn b')))).
Proof.
  cbv zeta. unfold renderBreadcrumb. cbn [links upDirBtn].
  pose proof (reconcile_shape (links b) (desired format t path)) as Hs. pose proof (hrefs_shape _ _ Hs) as Hh.
  split_and!; [done|by rewrite Hh, desired_hrefs| |].
  - intros t' path' ->. unfold desired. cbn [reconcile]. rewrite bool_decide_eq_true_2 by done. by rewrite reconcile_segments.
  - intros Hr. unfold render_up. rewrite Hr. split; [done|]. intros Hp. rewrite Hh. by apply parent_link.
Qed.

(** ** Concrete trails *)
Definition plain_text (s : jstr) : jstr := s.
Definition npm_title (key : jstr) : jstr := if (key =? js "npm.packages")%js then js "Packages" else js "Root".

(** The trail of a directory named packages keeps the title of an npm page when the npm repository was shown
    before: the format is only known when the directory has loaded. *)
Example breadcrumb_keeps_title :
  let empty := {| links := []; upDirBtn := {| up_hidden := true; is_visible := false; is_hiding := false; up_href := [];
                                              hide_timers := 0; hide_listeners := 0; show_frames := 0 |} |} in
  links (renderBreadcrumb (js "files") npm_title (js "/files/packages/a")
           (renderBreadcrumb (js "npm") npm_title (js "/files/packages/a") empty))
  = [Link (js "/") (js "Root") false (Some (js "browser.root")); Sep; Link (js "/files") (js "files") false None; Sep;
     Link (js "/files/packages") (js "Packages") false None; Sep; Link (js "/files/packages/a") (js "a") true None].
Proof. vm_compute. reflexivity. Qed.

(** The timer of a visit to the root hides the button of the directory entered after it. *)
Example up_button_hidden_late :
  let shown := {| up_hidden := false; is_visible := true; is_hiding := false; up_href := js "/"; hide_timers := 0;
                  hide_listeners := 0; show_frames := 0 |} in
  up_hidden (up_step HideTimer (render_up (js "/releases") (js "maven") (render_up (js "/") (js "maven") shown))) = true.
Proof. reflexivity. Qed.
