(* ===== verification/AppRoutes.v ===== *)
(** * Routes of the management site

    [internal/service/frontend/renop-html/js/main.js]: which page an address stands for, [switchTab] with its
    redirections, and the events that lead to it.  The parsers of [browser/maven.js], [super-teams.js] and
    [tickets.js] are here; those of accounts, profiles and policies are [LoginRoute], [ProfileRoutes] and
    [LegalConsent].  Fragments of addresses are not modelled. *)
From S2P Require Import Prelude JsString JsUri BrowserUtils LegalConsent Permissions ProfileRoutes LoginRoute RepositoryFormats.

(** ** Addresses *)
(** [replace(/\/+$/, '')] *)
Fixpoint drop_slashes (l : jstr) : jstr :=
  match l with c :: l' => if (c =? 47)%N then drop_slashes l' else l | [] => [] end.

Definition strip_slashes (s : jstr) : jstr := reverse (drop_slashes (reverse s)).

Definition normalized_path (pathname : jstr) : jstr := str_or (strip_slashes (str_or pathname (js "/"))) (js "/").

(** [/^[a-z0-9](?:[a-z0-9_-]*[a-z0-9])$/] of a prefix of 2 to 64 units. *)
Definition prefix_end (c : N) : bool := is_lower c || is_digit c.
Definition prefix_char (c : N) : bool := prefix_end c || (c =? 95)%N || (c =? 45)%N.

Definition validPrefix (prefix : jstr) : bool :=
  (2 <=? length prefix) && (length prefix <=? 64) && forallb prefix_char prefix &&
  match prefix with c :: _ => prefix_end c | [] => false end && match last prefix with Some c => prefix_end c | None => false end.

Section paths.
Context {UC : UnicodeCase} {UA : UrlApi}.

(** What follows [root/] in a normalised address: one non-empty segment. *)
Definition route_segment (root normalized : jstr) : option jstr :=
  if starts_with (root ++ js "/") normalized then
    let segment := slice_from (length root + 1) normalized in
    if negb (nonempty segment) || includes (js "/") segment then None else Some segment
  else None.

Definition mavenDomainRouteFromPath (pathname : jstr) : option jstr :=
  let normalized := normalized_path pathname in
  if (normalized =? js "/account/maven-domains")%js then Some []
  else
    segment ← route_segment (js "/account/maven-domains") normalized;
    decoded ← decodeURIComponent segment;
    let domain := to_lower (trim decoded) in
    if nonempty domain then Some domain else None.

Definition publicMavenDomainRouteFromPath (pathname : jstr) : option jstr :=
  segment ← route_segment (js "/domain") (normalized_path pathname);
  decoded ← decodeURIComponent segment;
  let domain := to_lower (trim decoded) in
  if nonempty domain then Some domain else None.

Definition superTeamRouteFromPath (pathname : jstr) : option jstr :=
  let normalized := normalized_path pathname in
  if (normalized =? js "/account/teams")%js then Some []
  else
    segment ← route_segment (js "/account/teams") normalized;
    decoded ← decodeURIComponent segment;
    let prefix := to_lower (trim decoded) in
    if validPrefix prefix then Some prefix else None.

Definition publicSuperTeamRouteFromPath (pathname : jstr) : option jstr :=
  segment ← route_segment (js "/team") (normalized_path pathname);
  decoded ← decodeURIComponent segment;
  let prefix := to_lower (trim decoded) in
  if validPrefix prefix then Some prefix else None.

(** The id and the root of a ticket route; the first root that matches decides. *)
Fixpoint ticket_route (roots : list jstr) (normalized : jstr) : option (jstr * jstr) :=
  match roots with
  | [] => None
  | root :: roots =>
    if (normalized =? root)%js then Some ([], root)
    else if starts_with (root ++ js "/") normalized then
      segment ← route_segment root normalized;
      decoded ← decodeURIComponent segment;
      let id := trim decoded in
      if nonempty id then Some (id, root) else None
    else ticket_route roots normalized
  end.

Definition parseTicketRoute (pathname : jstr) : option (jstr * jstr) :=
  ticket_route [js "/account/tickets"; js "/account/reviews"] (normalized_path pathname).

Definition ticketRouteFromPath (pathname : jstr) : bool := bool_decide (is_Some (parseTicketRoute pathname)).

Definition accountTabFromPath (pathname : jstr) : jstr :=
  if bool_decide (is_Some (mavenDomainRouteFromPath pathname)) then js "maven-domains"
  else if bool_decide (is_Some (superTeamRouteFromPath pathname)) then js "super-teams"
  else if ticketRouteFromPath pathname then js "tickets" else [].

Definition isAccountTab (tabId : jstr) : bool := bool_decide (tabId ∈ map js ["maven-domains"; "super-teams"; "tickets"]%string).

Definition managerTabFromPath (pathname : jstr) : jstr :=
  let normalized := normalized_path pathname in
  if (normalized =? js "/dashboard")%js then js "dashboard"
  else if (normalized =? js "/storage")%js then js "storage"
  else if (normalized =? js "/database")%js then js "database"
  else if (normalized =? js "/users")%js then js "users"
  else if (normalized =? js "/repositories")%js then js "repositories"
  else if (normalized =? js "/settings")%js || starts_with (js "/settings/") normalized then js "settings"
  else [].

Definition managerRouteForTab (tabId : jstr) : jstr :=
  if isManagerTab tabId then js "/" ++ tabId else [].

(** ** The shell *)
(** What a page change starts: [Opened] is the loader of the page ([Directory] that of the file browser). *)
Inductive shell_action :=
| AppNavigation
| UpdateLegalPage (shown : bool)
| FocusUsername
| ResetLoginForm
| UpdateRecovery (shown entering : bool)
| UpdateMfa (shown entering : bool)
| UpdateRegistration (shown entering : bool)
| UpdatePasswordRecovery (shown entering : bool)
| ResetConsent (kind : jstr)
| RefreshAvailability (registration : bool)
| Opened (tabId : jstr)
| Directory (path : jstr).

#[global] Instance shell_action_eq_dec : EqDecision shell_action.
Proof. solve_decision. Defined.

Record shell := {
  history : browser_history;
  renopTab : option jstr;        (* in the state of the current entry *)
  cachedIsLoggedIn : bool;
  cachedIsManager : bool;
  active : jstr;                 (* the page whose content is shown *)
  selectedTab : option jstr;     (* in [localStorage] *)
  refreshing : bool;             (* of the dashboard *)
  done_actions : list shell_action   (* newest first *)
}.

Definition path_of (s : shell) : jstr := pathname (current (history s)).

Definition set_history (h : browser_history) (state : option jstr) (s : shell) : shell :=
  {| history := h; renopTab := state; cachedIsLoggedIn := cachedIsLoggedIn s; cachedIsManager := cachedIsManager s;
     active := active s; selectedTab := selectedTab s; refreshing := refreshing s; done_actions := done_actions s |}.

Definition log (a : shell_action) (s : shell) : shell :=
  {| history := history s; renopTab := renopTab s; cachedIsLoggedIn := cachedIsLoggedIn s; cachedIsManager := cachedIsManager s;
     active := active s; selectedTab := selectedTab s; refreshing := refreshing s; done_actions := a :: done_actions s |}.

(** The first half of [switchTab]: where the request ends. *)
Inductive destination := ToLogin | ToHome | Page (tabId : jstr).

#[global] Instance destination_eq_dec : EqDecision destination.
Proof. solve_decision. Defined.

(** The page asked for, after account pages and policies. *)
Definition asked (tabId p : jstr) : jstr :=
  if nonempty (legalPageFromPath p) then js "legal" else str_or (accountPageFromPath p) tabId.

Definition resolveTab (tabId path : jstr) (signed_in manager : bool) : destination :=
  let tabId := asked tabId path in
  let routedAccountTab := accountTabFromPath path in
  let routedManagerTab := managerTabFromPath path in
  let profile := profileRouteFromPath path in
  if negb signed_in && (isAccountTab tabId || nonempty routedAccountTab) then ToLogin
  else if negb signed_in && bool_decide (route_section <$> profile = Some (js "edit")) then ToLogin
  else if negb signed_in && (isManagerTab tabId || nonempty routedManagerTab) then ToLogin
  else if isManagerTab tabId && negb manager && nonempty routedManagerTab then ToHome
  else
    let tabId := if isManagerTab tabId && negb manager then js "overview" else tabId in
    let tabId := if (tabId =? js "overview")%js && bool_decide (is_Some profile) then js "profile" else tabId in
    let tabId := if (tabId =? js "overview")%js && bool_decide (is_Some (publicMavenDomainRouteFromPath path))
                 then js "maven-domain" else tabId in
    let tabId := if (tabId =? js "overview")%js && bool_decide (is_Some (publicSuperTeamRouteFromPath path))
                 then js "super-team" else tabId in
    let tabId := if (tabId =? js "overview")%js then str_or routedAccountTab tabId else tabId in
    let tabId := if (tabId =? js "overview")%js then str_or routedManagerTab tabId else tabId in
    Page tabId.

(** Pages with a loader besides the file browser. *)
Definition loaders : list jstr :=
  map js ["storage"; "database"; "settings"; "repositories"; "users"; "profile"; "maven-domains"; "maven-domain"; "super-teams";
          "super-team"; "tickets"]%string.

(** Pages that are not remembered. *)
Definition unremembered : list jstr := map js ["legal"; "profile"; "maven-domain"; "super-team"]%string.

Definition page_actions (tabId accountPage : jstr) (path old : jstr) : list shell_action :=
  let on k := (tabId =? js k)%js in
  let entering k := on k && negb (old =? js k)%js in
  (if on "login"%string then [] else [ResetLoginForm]) ++ [UpdateLegalPage (on "legal"%string)] ++
  (if entering "login"%string then [FocusUsername] else []) ++
  [UpdateRecovery (on "recovery"%string) (entering "recovery"%string); UpdateMfa (on "login"%string) (entering "login"%string);
   UpdateRegistration (on "registration"%string) (entering "registration"%string)] ++
  (if on "login"%string then [] else [ResetConsent (js "login")]) ++
  (if on "registration"%string then [] else [ResetConsent (js "registration")]) ++
  [UpdatePasswordRecovery (on "password-recovery"%string) (entering "password-recovery"%string)] ++
  (if nonempty accountPage then [RefreshAvailability (negb (on "registration"%string))] else []) ++
  (if bool_decide (tabId ∈ loaders) then [Opened tabId] else []) ++
  (if on "overview"%string then [Directory path] else []).

(** The second half of [switchTab]. *)
Definition show (tabId : jstr) (s : shell) : shell :=
  let accountPage := accountPageFromPath (path_of s) in
  let remembered := negb (nonempty accountPage) && negb (bool_decide (tabId ∈ unremembered)) && negb (isAccountTab tabId) in
  {| history := history s;
     renopTab := if remembered && (path_of s =? js "/")%js then Some tabId else renopTab s;
     cachedIsLoggedIn := cachedIsLoggedIn s; cachedIsManager := cachedIsManager s; active := tabId;
     selectedTab := if remembered then Some tabId else selectedTab s;
     refreshing := (tabId =? js "dashboard")%js;
     done_actions := rev (page_actions tabId accountPage (path_of s) (active s)) ++ done_actions s |}.

(** The page that [popstate] asks for. *)
Definition popstate_tab (s : shell) : jstr :=
  let path := path_of s in
  if bool_decide (is_Some (profileRouteFromPath path)) then js "profile"
  else if bool_decide (is_Some (publicMavenDomainRouteFromPath path)) then js "maven-domain"
  else if bool_decide (is_Some (publicSuperTeamRouteFromPath path)) then js "super-team"
  else if nonempty (accountTabFromPath path) then accountTabFromPath path
  else if nonempty (managerTabFromPath path) then managerTabFromPath path
  else
    let previousTab := if (path =? js "/")%js then default [] (renopTab s) else [] in
    if (previousTab =? js "overview")%js || isManagerTab previousTab then previousTab else js "overview".

Definition at_home (s : shell) : bool := (path_of s =? js "/")%js && negb (nonempty (search (current (history s)))).

Definition home : place := {| pathname := js "/"; search := [] |}.

(** The address of [navigateHome]. *)
Definition go_home (replace : bool) (s : shell) : shell :=
  if at_home s then s
  else set_history (if replace then replaceState home (history s) else pushState home (history s)) None s.

(** [switchTab]: [navigateToLogin] and [navigateHome] lead back to it, the first through [popstate]; [fuel] bounds the
    redirections. *)
Fixpoint switchTab (fuel : nat) (tabId : jstr) (s : shell) : option shell :=
  match fuel with
  | O => None
  | S fuel =>
    let s := log AppNavigation s in
    match resolveTab tabId (path_of s) (cachedIsLoggedIn s) (cachedIsManager s) with
    | Page tabId => Some (show tabId s)
    | ToHome => switchTab fuel (js "overview") (go_home true s)
    | ToLogin =>
      if isLoginPath (path_of s) then Some s
      else
        let s := set_history (navigateToLogin (path_of s) true false (history s)) None s in
        switchTab fuel (popstate_tab s) s
    end
  end.

(** ** Events *)
Inductive shell_event :=
| SwitchRequested (tabId : jstr)                       (* [requestSwitchTab] *)
| TabClicked (tabId : jstr)
| MenuChosen (tabId : jstr)                            (* an item of the account menu with a page *)
| HomeClicked
| WentTo (h : browser_history) (state : option jstr)   (* the browser's back and forward *)
| LanguageChanged
| RouteDenied (status : nat)                           (* [protectedRouteDeniedEvent] *)
| SessionPublished (signed_in manager : bool)          (* the end of [updateAuthUI] *)
| LoginLeft                                            (* [leaveLoginPage], after a sign-in *)
| Started (stay : bool).                               (* [initializeApplication], after the session is known; [stay]: the
                                                          address asks for [reauth] or [mfa] *)

Definition set_session (signed_in manager : bool) (s : shell) : shell :=
  {| history := history s; renopTab := renopTab s; cachedIsLoggedIn := signed_in; cachedIsManager := manager;
     active := active s; selectedTab := selectedTab s; refreshing := refreshing s; done_actions := done_actions s |}.

Definition set_selected (tabId : jstr) (s : shell) : shell :=
  {| history := history s; renopTab := renopTab s; cachedIsLoggedIn := cachedIsLoggedIn s; cachedIsManager := cachedIsManager s;
     active := active s; selectedTab := Some tabId; refreshing := refreshing s; done_actions := done_actions s |}.

Definition redirections : nat := 2.

(** The address for a page chosen by hand. *)
Definition route_for (targetTab : jstr) (s : shell) : shell :=
  let path := path_of s in
  let managerPath := managerRouteForTab targetTab in
  if nonempty managerPath then
    if negb (path =? managerPath)%js || nonempty (search (current (history s)))
    then set_history (pushState {| pathname := managerPath; search := [] |} (history s)) None s else s
  else if nonempty (accountPageFromPath path) || nonempty (legalPageFromPath path)
          || bool_decide (is_Some (profileRouteFromPath path)) || nonempty (accountTabFromPath path)
          || nonempty (managerTabFromPath path)
  then set_history (pushState home (history s)) None s else s.

(** [currentTab] of the language listener. *)
Definition language_tab (s : shell) : jstr :=
  let path := path_of s in
  if nonempty (legalPageFromPath path) then js "legal"
  else if bool_decide (is_Some (profileRouteFromPath path)) then js "profile"
  else if bool_decide (is_Some (publicMavenDomainRouteFromPath path)) then js "maven-domain"
  else if bool_decide (is_Some (publicSuperTeamRouteFromPath path)) then js "super-team"
  else str_or (accountTabFromPath path)
         (str_or (managerTabFromPath path)
            (if (path =? js "/")%js then opt_str_or (selectedTab s) (js "overview") else js "overview")).

(** [savedTab] of [initializeApplication]. *)
Definition saved_tab (s : shell) : jstr * shell :=
  let path := path_of s in
  let profileRoute := bool_decide (is_Some (profileRouteFromPath path)) in
  let accountTab := accountTabFromPath path in
  let managerTab := managerTabFromPath path in
  let savedTab :=
    if profileRoute then js "profile"
    else str_or accountTab
           (str_or managerTab (if (path =? js "/")%js then opt_str_or (selectedTab s) (js "overview") else js "overview")) in
  let '(savedTab, s) :=
    if negb profileRoute && negb (nonempty accountTab) && negb (nonempty managerTab)
       && ((savedTab =? js "profile")%js || isAccountTab savedTab)
    then (js "overview", set_selected (js "overview") s) else (savedTab, s) in
  let savedTab :=
    if negb profileRoute && negb (nonempty accountTab) && negb (cachedIsLoggedIn s) && negb (nonempty managerTab)
       || nonempty accountTab && negb (cachedIsLoggedIn s) || isManagerTab savedTab && negb (cachedIsManager s)
    then js "overview" else savedTab in
  (savedTab, s).

Definition popstate (s : shell) : option shell := switchTab redirections (popstate_tab s) s.

Definition leave_login (s : shell) : option shell :=
  if isLoginPath (path_of s) then popstate (set_history (leaveLoginPage (history s)) None s) else Some s.

Definition shell_step (ev : shell_event) (s : shell) : option shell :=
  match ev with
  | SwitchRequested tabId => switchTab redirections tabId s
  | TabClicked tabId => if (active s =? tabId)%js then Some s else switchTab redirections tabId (route_for tabId s)
  | MenuChosen tabId =>
    if negb (nonempty tabId) then Some s
    else if (tabId =? js "overview")%js then switchTab redirections (js "overview") (go_home false s)
    else if negb (cachedIsManager s) then Some s
    else switchTab redirections tabId (route_for tabId s)
  | HomeClicked => switchTab redirections (js "overview") (go_home false s)
  | WentTo h state => popstate (set_history h state s)
  | LanguageChanged => switchTab redirections (language_tab s) s
  | RouteDenied status =>
    if (status =? 401) && nonempty (accountPageFromPath (path_of s)) then Some s
    else if status =? 401 then
      if isLoginPath (path_of s) then Some s
      else popstate (set_history (navigateToLogin (path_of s) true false (history s)) None s)
    else switchTab redirections (js "overview") (go_home true s)
  | SessionPublished signed_in manager =>
    let s := set_session signed_in manager s in
    if negb signed_in || isManagerTab (opt_str_or (selectedTab s) (js "overview")) && negb manager
    then switchTab redirections (js "overview") (set_selected (js "overview") s) else Some s
  | LoginLeft => leave_login s
  | Started stay =>
    s ← (if isLoginPath (path_of s) && cachedIsLoggedIn s && negb stay then leave_login s else Some s);
    let '(savedTab, s) := saved_tab s in
    switchTab redirections savedTab s
  end.

Fixpoint shell_run (evs : list shell_event) (s : shell) : option shell :=
  match evs with [] => Some s | ev :: evs => s ← shell_step ev s; shell_run evs s end.

(** ** Redirections end *)
Lemma home_path replace s : path_of (go_home replace s) = js "/".
Proof.
  unfold go_home. destruct (at_home s) eqn:E; [|by destruct replace]. unfold at_home in E.
  by apply andb_true_iff in E as [E%bool_decide_eq_true _].
Qed.

Lemma login_path s : isLoginPath (path_of s) = false ->
  path_of (set_history (navigateToLogin (path_of s) true false (history s)) None s) = js "/account/login".
Proof. unfold path_of. intros E. unfold navigateToLogin. by rewrite E. Qed.

Lemma resolve_login tabId signed_in manager : resolveTab tabId (js "/account/login") signed_in manager = Page (js "login").
Proof. destruct signed_in, manager; vm_compute; reflexivity. Qed.

Lemma resolve_home signed_in manager : resolveTab (js "overview") (js "/") signed_in manager = Page (js "overview").
Proof. destruct signed_in, manager; vm_compute; reflexivity. Qed.

(** What [switchTab] comes to. *)
Definition switched (tabId : jstr) (s : shell) : shell :=
  let s := log AppNavigation s in
  match resolveTab tabId (path_of s) (cachedIsLoggedIn s) (cachedIsManager s) with
  | Page tabId => show tabId s
  | ToHome => show (js "overview") (log AppNavigation (go_home true s))
  | ToLogin =>
    if isLoginPath (path_of s) then s
    else show (js "login") (log AppNavigation (set_history (navigateToLogin (path_of s) true false (history s)) None s))
  end.

Lemma switchTab_switched tabId s : switchTab redirections tabId s = Some (switched tabId s).
Proof.
  unfold redirections, switched. cbn [switchTab]. cbv zeta. set (s1 := log AppNavigation s).
  destruct (resolveTab tabId _ _ _); [| |done].
  - destruct (isLoginPath (path_of s1)) eqn:E; [done|]. set (s2 := set_history _ _ _).
    assert (E2 : path_of (log AppNavigation s2) = js "/account/login") by by apply login_path.
    by rewrite E2, resolve_login.
  - assert (E2 : path_of (log AppNavigation (go_home true s1)) = js "/") by apply home_path.
    by rewrite E2, resolve_home.
Qed.
End paths.

(** ** Guards *)
Section guards.
Context {UC : UnicodeCase} {UA : UrlApi} {CA : CaseAscii}.

Lemma account_page_plain_tab p : isManagerTab (accountPageFromPath p) = false /\ isAccountTab (accountPageFromPath p) = false /\
  accountPageFromPath p <> js "overview".
Proof. unfold accountPageFromPath. repeat case_bool_decide; split_and!; done. Qed.

Lemma manager_tab_ok p : nonempty (managerTabFromPath p) = true -> isManagerTab (managerTabFromPath p) = true.
Proof. unfold managerTabFromPath. cbv zeta. repeat (destruct (_ =? _)%js; [done|]). by destruct (_ || _). Qed.

Lemma str_or_nonempty (a b : jstr) : str_or a b = if nonempty a then a else b.
Proof. by destruct a. Qed.

Lemma asked_overview tabId p : asked tabId p = js "overview" -> tabId = js "overview" /\ accountPageFromPath p = [].
Proof.
  unfold asked. destruct (nonempty _); [done|]. rewrite str_or_nonempty. destruct (nonempty (accountPageFromPath p)) eqn:E.
  - intros H. by destruct (account_page_plain_tab p) as (_ & _ & []).
  - intros ->. split; [done|]. by destruct (accountPageFromPath p).
Qed.

Lemma asked_manager tabId p : isManagerTab (asked tabId p) = true -> accountPageFromPath p = [].
Proof.
  unfold asked. destruct (nonempty _); [done|]. destruct (account_page_plain_tab p) as (E & _ & _).
  destruct (accountPageFromPath p); [done|]. cbn [str_or]. by rewrite E.
Qed.

(** The overview of an address with a page of its own. *)
Definition routed (p : jstr) : jstr :=
  if bool_decide (is_Some (profileRouteFromPath p)) then js "profile"
  else if bool_decide (is_Some (publicMavenDomainRouteFromPath p)) then js "maven-domain"
  else if bool_decide (is_Some (publicSuperTeamRouteFromPath p)) then js "super-team"
  else str_or (accountTabFromPath p) (str_or (managerTabFromPath p) (js "overview")).

Lemma account_tab_not_overview p : accountTabFromPath p <> js "overview".
Proof. unfold accountTabFromPath. repeat (case_bool_decide; [done|]). by destruct (ticketRouteFromPath p). Qed.

Lemma overview_chain (ov pr md st T at_ mt : jstr) (b1 b2 b3 : bool) :
  pr <> ov -> md <> ov -> st <> ov -> at_ <> ov ->
  (let t := if (T =? ov)%js && b1 then pr else T in
   let t := if (t =? ov)%js && b2 then md else t in
   let t := if (t =? ov)%js && b3 then st else t in
   let t := if (t =? ov)%js then str_or at_ t else t in
   if (t =? ov)%js then str_or mt t else t)
  = if (T =? ov)%js then (if b1 then pr else if b2 then md else if b3 then st else str_or at_ (str_or mt ov)) else T.
Proof.
  intros H1 H2 H3 H4. cbv zeta. rewrite !str_or_nonempty.
  destruct (decide (T = ov)) as [->|HT].
  - rewrite (bool_decide_eq_true_2 (ov = ov)) by done. destruct b1, b2, b3; cbn [andb];
      repeat first [rewrite (bool_decide_eq_false_2 _ H1)|rewrite (bool_decide_eq_false_2 _ H2)|rewrite (bool_decide_eq_false_2 _ H3)
                   |rewrite (bool_decide_eq_true_2 (ov = ov)) by done|progress cbn [andb]]; try done.
    destruct (nonempty at_); [by rewrite (bool_decide_eq_false_2 _ H4)|]. by rewrite (bool_decide_eq_true_2 (ov = ov)).
  - repeat (rewrite (bool_decide_eq_false_2 _ HT); cbn [andb]). done.
Qed.

Lemma resolve_routed tabId p signed_in manager : resolveTab tabId p signed_in manager =
  if negb signed_in && (isAccountTab (asked tabId p) || nonempty (accountTabFromPath p)
                        || bool_decide (route_section <$> profileRouteFromPath p = Some (js "edit"))
                        || isManagerTab (asked tabId p) || nonempty (managerTabFromPath p))
  then ToLogin
  else if isManagerTab (asked tabId p) && negb manager && nonempty (managerTabFromPath p) then ToHome
  else
    let t := if isManagerTab (asked tabId p) && negb manager then js "overview" else asked tabId p in
    Page (if (t =? js "overview")%js then routed p else t).
Proof.
  unfold resolveTab. cbv zeta. unfold routed.
  rewrite (overview_chain (js "overview")) by first [by apply account_tab_not_overview|by vm_compute].
  generalize (asked tabId p). intros T.
  destruct signed_in; cbn [negb andb]; [done|].
  destruct (isAccountTab T); cbn [orb]; [done|]. destruct (nonempty (accountTabFromPath p)); cbn [orb]; [done|].
  destruct (bool_decide (_ <$> _ = _)); cbn [orb]; [done|]. by destruct (isManagerTab T || nonempty (managerTabFromPath p)).
Qed.

Lemma routed_manager p : isManagerTab (routed p) = true -> routed p = managerTabFromPath p /\ nonempty (managerTabFromPath p) = true.
Proof.
  unfold routed. repeat (case_bool_decide; [done|]). rewrite !str_or_nonempty. destruct (nonempty (accountTabFromPath p)) eqn:Ea.
  - unfold accountTabFromPath. repeat (case_bool_decide; [done|]). by destruct (ticketRouteFromPath p).
  - by destruct (nonempty (managerTabFromPath p)).
Qed.

Lemma routed_account p : isAccountTab (routed p) = true -> nonempty (accountTabFromPath p) = true.
Proof.
  unfold routed. repeat (case_bool_decide; [done|]). rewrite !str_or_nonempty. destruct (nonempty (accountTabFromPath p)) eqn:Ea; [done|].
  destruct (nonempty (managerTabFromPath p)) eqn:Em; [|done]. intros Ha. pose proof (manager_tab_ok p Em) as Hm.
  assert (Htabs : forallb (fun t => negb (isAccountTab t)) MANAGER_TAB_IDS = true) by (vm_compute; reflexivity).
  unfold isManagerTab in Hm. apply bool_decide_eq_true, list_elem_of_In in Hm. rewrite forallb_forall in Htabs.
  specialize (Htabs _ Hm). by rewrite Ha in Htabs.
Qed.

Lemma strip_prefix s : strip_slashes s `prefix_of` s.
Proof.
  unfold strip_slashes. rewrite <- (reverse_involutive s) at 2. generalize (reverse s). intros l.
  enough (Hk : exists k, l = k ++ drop_slashes l).
  { destruct Hk as [k Hk]. exists (reverse k). by rewrite <- reverse_app, <- Hk. }
  induction l as [|c l [k IH]]; [by exists []|]. cbn [drop_slashes]. destruct (c =? 47)%N.
  - exists (c :: k). cbn [app]. by f_equal.
  - by exists [].
Qed.

Lemma normalized_prefix k p : 2 <= length k -> starts_with k (normalized_path p) = true -> starts_with k p = true.
Proof.
  intros Hk Hs. assert (Hslash : starts_with k (js "/") <> true).
  { intros H. apply starts_with_length in H. cbn in H. lia. }
  unfold normalized_path in Hs. rewrite !str_or_nonempty in Hs. destruct (nonempty p) eqn:Ep.
  - destruct (nonempty (strip_slashes p)); [|done]. apply starts_with_spec in Hs as Hp.
    apply starts_with_spec. etransitivity; [exact Hp|apply strip_prefix].
  - exfalso. apply Hslash. by destruct (nonempty (strip_slashes _)) eqn:E.
Qed.

Definition account_pages : list jstr :=
  map js ["/account/login"; "/account/register"; "/account/recovery"; "/account/forgot-password"]%string.

Lemma drop_slash_shape (s : jstr) : s = LoginRoute.drop_slash s \/ s = LoginRoute.drop_slash s ++ js "/".
Proof.
  unfold LoginRoute.drop_slash. destruct (ends_with (js "/") s) eqn:E; [|by left]. right.
  apply ends_with_spec in E as [q ->]. change 1 with (length (js "/")). by rewrite slice_drop_last_app.
Qed.

(** An address that starts like no account page is none. *)
Lemma not_account_page k p :
  bool_decide (Forall (fun c => (c < 128)%N) k) = true -> bool_decide (map lower_unit k = k) = true ->
  forallb (fun a => negb (starts_with k a) && negb (starts_with k (a ++ js "/"))) account_pages = true ->
  starts_with k p = true -> accountPageFromPath p = [].
Proof.
  intros Ha%bool_decide_eq_true Hl%bool_decide_eq_true Hf Hs. pose proof (starts_lower k p Ha Hl Hs) as Hlow.
  rewrite forallb_forall in Hf.
  assert (Hne : forall a, a ∈ account_pages -> bool_decide (LoginRoute.drop_slash (to_lower p) = a) = false).
  { intros a Hin%list_elem_of_In%Hf. apply bool_decide_eq_false. intros E.
    apply andb_true_iff in Hin as [H1%negb_true_iff H2%negb_true_iff].
    destruct (drop_slash_shape (to_lower p)) as [Es|Es]; rewrite E in Es; rewrite Es in Hlow; congruence. }
  unfold accountPageFromPath. cbv zeta. rewrite !Hne; [done|..]; unfold account_pages; cbn [map]; rewrite !elem_of_cons; auto.
Qed.

(** Roots under which no address is an account page. *)
Definition plain_roots (roots : list jstr) : bool :=
  forallb (fun k => bool_decide (2 <= length k) && bool_decide (Forall (fun c => (c < 128)%N) k)
    && bool_decide (map lower_unit k = k)
    && forallb (fun a => negb (starts_with k a) && negb (starts_with k (a ++ js "/"))) account_pages) roots.

Lemma rooted_page roots k p : plain_roots roots = true -> k ∈ roots -> starts_with k (normalized_path p) = true ->
  accountPageFromPath p = [].
Proof.
  unfold plain_roots. rewrite forallb_forall. intros Hall Hin%list_elem_of_In%Hall Hs.
  apply andb_true_iff in Hin as [[[H1%bool_decide_eq_true H2]%andb_true_iff H3]%andb_true_iff H4].
  apply (not_account_page k p H2 H3 H4). by apply normalized_prefix.
Qed.

Lemma starts_self k n : n = k -> starts_with k n = true.
Proof. intros ->. apply starts_with_spec. exists []. by rewrite app_nil_r. Qed.

Lemma starts_with_weaken (k r n : jstr) : starts_with (k ++ r) n = true -> starts_with k n = true.
Proof. rewrite !starts_with_spec. intros [t ->]. exists (r ++ t). by rewrite (assoc_L (++)). Qed.

Definition manager_roots : list jstr :=
  map js ["/dashboard"; "/storage"; "/database"; "/users"; "/repositories"; "/settings"]%string.

Ltac root_in := unfold manager_roots; cbn [map]; rewrite !elem_of_cons; tauto.

Lemma manager_path_account p : nonempty (managerTabFromPath p) = true -> accountPageFromPath p = [].
Proof.
  unfold managerTabFromPath. cbv zeta.
  assert (Hk : forall k, k ∈ manager_roots -> starts_with k (normalized_path p) = true -> accountPageFromPath p = []).
  { intros k. apply rooted_page. vm_compute. reflexivity. }
  repeat (destruct (_ =? _)%js eqn:E;
          [intros _; apply bool_decide_eq_true, starts_self in E; refine (Hk _ _ E); root_in|clear E]).
  destruct (starts_with (js "/settings/") _) eqn:E; [|done]. intros _.
  apply (Hk (js "/settings")); [root_in|]. by apply (starts_with_weaken (js "/settings") (js "/")).
Qed.

(** A manager page needs a manager, unless the overview was asked for at the address of a manager page. *)
Lemma resolve_page tabId p signed_in manager t : resolveTab tabId p signed_in manager = Page t ->
  (isManagerTab t = true -> accountPageFromPath p = [] /\ signed_in = true /\
     (manager = true \/ tabId = js "overview" /\ nonempty (managerTabFromPath p) = true /\ t = managerTabFromPath p)) /\
  (isAccountTab t = true -> signed_in = true).
Proof.
  rewrite resolve_routed. pose proof (routed_manager p) as Hr.
  destruct (isManagerTab (asked tabId p) && negb manager && nonempty (managerTabFromPath p)) eqn:Eh; [by destruct (negb signed_in && _)|].
  set (t0 := if isManagerTab (asked tabId p) && negb manager then js "overview" else asked tabId p).
  assert (H0 : isManagerTab t0 = true -> manager = true /\ asked tabId p = t0).
  { unfold t0. destruct (isManagerTab (asked tabId p)) eqn:Ea, manager; cbn [andb negb]; try done. by rewrite Ea. }
  assert (H1 : isAccountTab t0 = true -> isAccountTab (asked tabId p) = true).
  { unfold t0. destruct (isManagerTab (asked tabId p) && negb manager); [|done]. by assert (isAccountTab (js "overview") = false) as -> by (vm_compute; reflexivity). }
  assert (H2 : t0 = js "overview" -> nonempty (managerTabFromPath p) = true -> manager = true \/ tabId = js "overview").
  { unfold t0. intros E Em. rewrite Em, andb_true_r in Eh. rewrite Eh in E. right. by apply asked_overview in E as [? _]. }
  clearbody t0. cbv zeta. destruct signed_in; cbn [negb andb].
  - intros [= <-]. split; [|done]. case_bool_decide as Eo.
    + intros Hm. destruct (Hr Hm) as [Ert Ene]. rewrite Ert. split; [by apply manager_path_account|]. split; [done|].
      destruct (H2 Eo Ene); auto.
    + intros Hm. destruct (H0 Hm) as [-> Ea]. rewrite <- Ea in Hm. apply asked_manager in Hm. auto.
  - destruct (_ || _) eqn:E; [done|]. intros [= <-].
    apply orb_false_iff in E as [[[[Ea Eat]%orb_false_iff _]%orb_false_iff Em]%orb_false_iff Emt].
    case_bool_decide as Eo.
    + split; [intros Hm; destruct (Hr Hm) as [_ Ene]; by rewrite Ene in Emt|].
      intros Ha. by rewrite (routed_account p Ha) in Eat.
    + split; [intros Hm; destruct (H0 Hm) as [_ E']; by rewrite E', Hm in Em|]. intros Ha. by rewrite (H1 Ha) in Ea.
Qed.

(** *** Account pages do not redirect to themselves *)
Lemma route_segment_prefix root n seg : route_segment root n = Some seg -> starts_with (root ++ js "/") n = true.
Proof. unfold route_segment. by destruct (starts_with _ _). Qed.

(** The roots of the account pages that are not sign-in pages. *)
Definition account_roots : list jstr :=
  map js ["/account/maven-domains"; "/account/teams"; "/account/tickets"; "/account/reviews"]%string.

Lemma account_tab_root p : nonempty (accountTabFromPath p) = true ->
  exists k, k ∈ account_roots /\ starts_with k (normalized_path p) = true.
Proof.
  unfold accountTabFromPath. case_bool_decide as H1; [|case_bool_decide as H2; [|case_match eqn:H3; [|done]]]; intros _.
  - exists (js "/account/maven-domains"). split; [unfold account_roots; cbn [map]; rewrite !elem_of_cons; tauto|].
    unfold mavenDomainRouteFromPath in H1. cbv zeta in H1. case_bool_decide as E; [by apply starts_self|].
    destruct H1 as [x (seg & Hs%route_segment_prefix & _)%bind_Some]. by eapply starts_with_weaken.
  - exists (js "/account/teams"). split; [unfold account_roots; cbn [map]; rewrite !elem_of_cons; tauto|].
    unfold superTeamRouteFromPath in H2. cbv zeta in H2. case_bool_decide as E; [by apply starts_self|].
    destruct H2 as [x (seg & Hs%route_segment_prefix & _)%bind_Some]. by eapply starts_with_weaken.
  - unfold ticketRouteFromPath, parseTicketRoute in H3. apply bool_decide_eq_true in H3. cbn [ticket_route] in H3.
    case_bool_decide as E; [exists (js "/account/tickets"); split; [|by apply starts_self]; unfold account_roots; cbn [map]; rewrite !elem_of_cons; tauto|].
    destruct (starts_with _ _) eqn:Es.
    { exists (js "/account/tickets"). split; [unfold account_roots; cbn [map]; rewrite !elem_of_cons; tauto|by eapply starts_with_weaken]. }
    exists (js "/account/reviews"). split; [unfold account_roots; cbn [map]; rewrite !elem_of_cons; tauto|].
    case_bool_decide as E2; [by apply starts_self|]. clear Es. destruct (starts_with _ _) eqn:Es; [by eapply starts_with_weaken|].
    by destruct H3.
Qed.

Lemma account_tab_page p : nonempty (accountTabFromPath p) = true -> accountPageFromPath p = [].
Proof.
  intros (k & Hin & Hs)%account_tab_root. apply (rooted_page account_roots k p); [vm_compute; reflexivity|done..].
Qed.

Lemma profile_page p : is_Some (profileRouteFromPath p) -> accountPageFromPath p = [].
Proof.
  intros [r Hr]. apply (not_account_page (js "/user/")); [vm_compute; reflexivity..|].
  unfold profileRouteFromPath, match_profile in Hr. by destruct (starts_with (js "/user/") p).
Qed.

Lemma login_stays tabId p signed_in manager : isLoginPath p = true -> resolveTab tabId p signed_in manager <> ToLogin.
Proof.
  unfold isLoginPath. intros Hl%bool_decide_eq_true. assert (Hne : accountPageFromPath p <> []) by by rewrite Hl.
  rewrite resolve_routed. destruct (account_page_plain_tab p) as (Hm & Ha & _).
  assert (nonempty (managerTabFromPath p) = false) as ->.
  { apply not_true_iff_false. intros H%manager_path_account. by rewrite H in Hne. }
  assert (nonempty (accountTabFromPath p) = false) as ->.
  { apply not_true_iff_false. intros H%account_tab_page. by rewrite H in Hne. }
  assert (profileRouteFromPath p = None) as ->.
  { apply eq_None_not_Some. intros H%profile_page. by rewrite H in Hne. }
  assert (isManagerTab (asked tabId p) = false /\ isAccountTab (asked tabId p) = false) as [-> ->].
  { unfold asked. destruct (nonempty (legalPageFromPath p)); [split; vm_compute; reflexivity|].
    rewrite str_or_nonempty. by destruct (accountPageFromPath p). }
  rewrite bool_decide_eq_false_2 by done. cbn [orb andb negb]. rewrite andb_false_r. done.
Qed.

(** *** Runs *)
Definition guarded (s : shell) : Prop :=
  (isManagerTab (active s) = true ->
     cachedIsLoggedIn s = true /\ cachedIsManager s = true /\ selectedTab s = Some (active s)) /\
  (isAccountTab (active s) = true -> cachedIsLoggedIn s = true).

(** The address of a manager page shows it to a signed-in user who is no manager. *)
Definition bypassed (s : shell) : Prop :=
  cachedIsLoggedIn s = true /\ cachedIsManager s = false /\ isManagerTab (active s) = true /\
  active s = managerTabFromPath (path_of s).

(** Events that ask for the overview without leaving the address. *)
Definition asks_overview (ev : shell_event) : Prop :=
  match ev with
  | SwitchRequested tabId => tabId = js "overview"
  | SessionPublished _ _ | Started _ => True
  | _ => False
  end.

Lemma remembered_manager t p : isManagerTab t = true -> accountPageFromPath p = [] ->
  negb (nonempty (accountPageFromPath p)) && negb (bool_decide (t ∈ unremembered)) && negb (isAccountTab t) = true.
Proof.
  intros Hm ->. assert (Htabs : forallb (fun t => negb (nonempty []) && negb (bool_decide (t ∈ unremembered)) && negb (isAccountTab t))
                                 MANAGER_TAB_IDS = true) by (vm_compute; reflexivity).
  rewrite forallb_forall in Htabs. apply Htabs, list_elem_of_In. by apply bool_decide_eq_true in Hm.
Qed.

Lemma show_plain t s : isManagerTab t = false -> isAccountTab t = false -> guarded (show t s).
Proof. intros Hm Ha. unfold guarded, show. cbn [active]. by rewrite Hm, Ha. Qed.

Lemma switched_guarded tabId s :
  guarded (switched tabId s) \/
  tabId = js "overview" /\ nonempty (managerTabFromPath (path_of s)) = true /\ bypassed (switched tabId s).
Proof.
  unfold switched. cbv zeta. set (s1 := log AppNavigation s). change (path_of s) with (path_of s1).
  destruct (resolveTab tabId (path_of s1) (cachedIsLoggedIn s1) (cachedIsManager s1)) as [| |t] eqn:Er.
  - destruct (isLoginPath (path_of s1)) eqn:El; [by apply login_stays in Er|].
    left. apply show_plain; vm_compute; reflexivity.
  - left. apply show_plain; vm_compute; reflexivity.
  - destruct (resolve_page _ _ _ _ _ Er) as [Hm Ha]. destruct (isManagerTab t) eqn:Et.
    2:{ left. unfold guarded, show. cbn [active cachedIsLoggedIn]. by rewrite Et. }
    destruct (Hm eq_refl) as (Hp & Hs & [Hman|(-> & Hne & Ht)]).
    + left. unfold guarded, show. cbv zeta. cbn [active cachedIsLoggedIn cachedIsManager selectedTab].
      by rewrite (remembered_manager t _ Et Hp).
    + destruct (cachedIsManager s1) eqn:Em.
      * left. unfold guarded, show. cbv zeta. cbn [active cachedIsLoggedIn cachedIsManager selectedTab].
        by rewrite (remembered_manager t _ Et Hp).
      * right. done.
Qed.

Lemma switched_elsewhere tabId s :
  tabId <> js "overview" \/ nonempty (managerTabFromPath (path_of s)) = false -> guarded (switched tabId s).
Proof. intros H. destruct (switched_guarded tabId s) as [?|(-> & Hn & _)]; [done|]. rewrite Hn in H. by destruct H. Qed.

Lemma home_not_manager replace s : nonempty (managerTabFromPath (path_of (go_home replace s))) = false.
Proof. rewrite home_path. vm_compute. reflexivity. Qed.

Lemma account_tab_known p : accountTabFromPath p <> js "overview".
Proof. apply account_tab_not_overview. Qed.

Lemma manager_tab_known p : nonempty (managerTabFromPath p) = true -> managerTabFromPath p <> js "overview".
Proof. intros H%manager_tab_ok E. rewrite E in H. by vm_compute in H. Qed.

Lemma popstate_guarded s : guarded (switched (popstate_tab s) s).
Proof.
  apply switched_elsewhere. destruct (nonempty (managerTabFromPath (path_of s))) eqn:E; [left|by right].
  unfold popstate_tab. cbv zeta. repeat (case_bool_decide; [done|]). rewrite E.
  destruct (nonempty (accountTabFromPath _)); [apply account_tab_known|by apply manager_tab_known].
Qed.

Lemma language_guarded s : guarded (switched (language_tab s) s).
Proof.
  apply switched_elsewhere. destruct (nonempty (managerTabFromPath (path_of s))) eqn:E; [left|by right].
  unfold language_tab. cbv zeta. destruct (nonempty (legalPageFromPath _)); [done|]. repeat (case_bool_decide; [done|]).
  rewrite !str_or_nonempty, E. destruct (nonempty (accountTabFromPath _)); [apply account_tab_known|by apply manager_tab_known].
Qed.

Lemma route_for_guarded tabId s : guarded (switched tabId (route_for tabId s)).
Proof.
  apply switched_elsewhere. destruct (decide (tabId = js "overview")) as [->|?]; [right|by left].
  unfold route_for. cbv zeta. assert (managerRouteForTab (js "overview") = []) as -> by (vm_compute; reflexivity). cbn [nonempty].
  destruct (_ || _) eqn:E; [vm_compute; reflexivity|]. by apply orb_false_iff in E as [_ E].
Qed.

Lemma session_selected s signed_in manager : guarded s ->
  negb signed_in || isManagerTab (opt_str_or (selectedTab s) (js "overview")) && negb manager = false ->
  guarded (set_session signed_in manager s).
Proof.
  intros [Hm _] [Hs%negb_false_iff Hsel]%orb_false_iff. subst signed_in. split; [|done].
  cbn [active set_session cachedIsLoggedIn cachedIsManager selectedTab]. intros Ha.
  destruct (Hm Ha) as (_ & _ & E). rewrite E in Hsel.
  destruct (active s) as [|c a]; [done|].
  change (opt_str_or (Some (c :: a)) (js "overview")) with (c :: a) in Hsel. rewrite Ha in Hsel. by destruct manager.
Qed.

Lemma leave_login_some s : guarded s -> exists s', leave_login s = Some s' /\ guarded s'.
Proof.
  intros Hg. unfold leave_login. destruct (isLoginPath _); [|by exists s]. unfold popstate. rewrite switchTab_switched.
  eexists. split; [done|]. apply popstate_guarded.
Qed.

Lemma shell_step_guarded ev s : guarded s ->
  exists s', shell_step ev s = Some s' /\ (guarded s' \/ asks_overview ev /\ bypassed s').
Proof.
  intros Hg. assert (Hsw : forall tabId t, guarded (switched tabId t) ->
    exists s', switchTab redirections tabId t = Some s' /\ (guarded s' \/ asks_overview ev /\ bypassed s')).
  { intros tabId t Ht. rewrite switchTab_switched. eexists. split; [done|by left]. }
  assert (Hstay : exists s', Some s = Some s' /\ (guarded s' \/ asks_overview ev /\ bypassed s')) by (eexists; split; [done|by left]).
  assert (Hask : forall tabId t, asks_overview ev \/ tabId <> js "overview" ->
    exists s', switchTab redirections tabId t = Some s' /\ (guarded s' \/ asks_overview ev /\ bypassed s')).
  { intros tabId t Ha. rewrite switchTab_switched. eexists. split; [done|].
    destruct (switched_guarded tabId t) as [?|(-> & _ & Hb)]; [by left|right]. destruct Ha; [done|done]. }
  destruct ev as [tabId|tabId|tabId| |h state| |status|signed_in manager| |stay]; cbn [shell_step].
  - apply Hask. cbn. destruct (decide (tabId = js "overview")); auto.
  - destruct (_ =? _)%js; [done|]. apply Hsw, route_for_guarded.
  - destruct (nonempty tabId); cbn [negb]; [|done].
    case_bool_decide; [apply Hsw, switched_elsewhere; right; apply home_not_manager|].
    destruct (cachedIsManager s); cbn [negb]; [|done]. apply Hsw, route_for_guarded.
  - apply Hsw, switched_elsewhere. right. apply home_not_manager.
  - apply Hsw, popstate_guarded.
  - apply Hsw, language_guarded.
  - destruct (_ && _); [done|]. destruct (status =? 401).
    + destruct (isLoginPath _); [done|]. apply Hsw, popstate_guarded.
    + apply Hsw, switched_elsewhere. right. apply home_not_manager.
  - cbv zeta. change (selectedTab (set_session signed_in manager s)) with (selectedTab s). destruct (_ || _) eqn:E.
    + apply Hask. by left.
    + eexists. split; [done|left]. by apply session_selected.
  - destruct (leave_login_some s Hg) as (s' & -> & Hg'). eexists. split; [done|by left].
  - assert (exists s1, (if isLoginPath (path_of s) && cachedIsLoggedIn s && negb stay then leave_login s else Some s) = Some s1)
      as [s1 ->].
    { destruct (_ && _ && _); [|by eexists]. destruct (leave_login_some s Hg) as (s1 & -> & _). by eexists. }
    cbn [mbind option_bind]. destruct (saved_tab s1) as [t s2]. apply Hask. by left.
Qed.

Lemma switchTab_some tabId s : exists s', switchTab redirections tabId s = Some s'.
Proof. rewrite switchTab_switched. by eexists. Qed.

Lemma shell_step_some ev s : exists s', shell_step ev s = Some s'.
Proof.
  pose proof switchTab_some as Hsw.
  assert (Hl : exists s', leave_login s = Some s') by (unfold leave_login, popstate; destruct (isLoginPath _); eauto).
  destruct ev; cbn [shell_step]; cbv zeta; unfold popstate; try done;
    repeat match goal with |- context [if ?b then _ else _] => destruct b end; eauto.
  all: try (destruct Hl as [s1 ->]; cbn [mbind option_bind]; destruct (saved_tab s1); eauto).
  cbn [mbind option_bind]. destruct (saved_tab s); eauto.
Qed.

Lemma shell_run_total evs s : exists s', shell_run evs s = Some s'.
Proof.
  revert s. induction evs as [|ev evs IH]; intros s; cbn [shell_run]; [by eexists|].
  destruct (shell_step_some ev s) as [s1 ->]. cbn [mbind option_bind]. apply IH.
Qed.

(** C12: pages are guarded: every event of the shell ends in a page after at most one redirection; the pages of managers
    are shown to signed-in managers and those of accounts to signed-in users, as long as no event asks for the overview
    at the address of a manager page: then, and only then, a signed-in user who is no manager is shown that page. *)
Theorem manager_pages_guarded evs s : guarded s ->
  exists s', shell_run evs s = Some s' /\
  (guarded s' \/
   exists e1 ev e2 s1, evs = e1 ++ ev :: e2 /\ shell_run (e1 ++ [ev]) s = Some s1 /\ asks_overview ev /\ bypassed s1).
Proof.
  revert s. induction evs as [|ev evs IH]; intros s Hg; cbn [shell_run]; [eexists; split; [done|by left]|].
  destruct (shell_step_guarded ev s Hg) as (s1 & E1 & Hs1). rewrite E1. cbn [mbind option_bind].
  destruct Hs1 as [Hg1|[Ha Hb]].
  - destruct (IH s1 Hg1) as (s' & -> & [Hg'|(e1 & ev' & e2 & s2 & -> & E2 & Ha & Hb)]); eexists; (split; [done|]); [by left|right].
    exists (ev :: e1), ev', e2, s2. cbn [app shell_run]. by rewrite E1.
  - destruct (shell_run_total evs s1) as [s' ->]. eexists. split; [done|right]. exists [], ev, evs, s1.
    cbn [app shell_run]. by rewrite E1.
Qed.
End guards.

(** ** Repositories and routes *)
Ltac slash_in := refine (proj1 (bool_decide_eq_true _) _); vm_compute; reflexivity.

Section slugs.
Context {UC : UnicodeCase} {UA : UrlApi}.

(** Names of repositories that another page's address hides. *)
Definition shadowed_names : list jstr :=
  map js ["storage"; "database"; "privacy-policy"; "terms-of-service"; "legal-notice"]%string.

Definition slug_char (c : N) : bool := is_lower c || (c =? 45)%N.

Lemma slug_chars name : slug_pattern name = true -> name <> [] /\ Forall (fun c => slug_char c = true) name.
Proof.
  unfold slug_pattern. intros H. split; [by intros ->|]. rewrite <- (join_split 45 name). rewrite forallb_forall in H.
  assert (Hall : Forall (fun w => Forall (fun c => slug_char c = true) w) (split 45 name)).
  { apply Forall_forall. intros w Hw%list_elem_of_In%H. apply andb_true_iff in Hw as [_ Hw]. rewrite forallb_forall in Hw.
    apply Forall_forall. intros c Hc%list_elem_of_In%Hw. unfold slug_char. by rewrite Hc. }
  clear H. induction Hall as [|w ws Hw Hws IH]; [done|]. cbn [join]. destruct ws as [|w' ws]; [done|].
  rewrite !Forall_app. split_and!; [done| |done]. by repeat constructor.
Qed.

Context (name : jstr).
Hypothesis Hne : name <> [].
Hypothesis Hchars : Forall (fun c => slug_char c = true) name.

Lemma slug_no_slash : 47%N ∉ name.
Proof. intros Hin. rewrite Forall_forall in Hchars. by specialize (Hchars _ Hin). Qed.

Lemma slug_lower : to_lower (js "/" ++ name) = js "/" ++ name.
Proof.
  assert (Hl : Forall (fun c => (c < 256)%N /\ lower_unit c = c) (js "/" ++ name)).
  { apply Forall_app. split; [by repeat constructor|]. eapply Forall_impl; [exact Hchars|]. intros c Hc.
    unfold slug_char, is_lower in Hc. unfold lower_unit, is_upper.
    match goal with |- _ /\ (if ?b then _ else _) = _ => destruct b eqn:E end; lia. }
  unfold to_lower. rewrite (proj2 (is_latin1_spec _)) by (eapply Forall_impl; [exact Hl|]; by intros c []).
  clear Hchars Hne. induction Hl as [|c l [_ Hc] Hl IH]; [done|]. cbn [map]. by rewrite Hc, IH.
Qed.

Lemma slug_not_within k : 47%N ∈ tail k -> js "/" ++ name <> k.
Proof. intros Hk E. apply slug_no_slash. by rewrite <- E in Hk. Qed.

Lemma slug_not_root k : 47%N ∈ tail k -> (js "/" ++ name =? k)%js = false.
Proof. intros Hk. apply bool_decide_eq_false. by apply slug_not_within. Qed.

Lemma slug_not_under k : 47%N ∈ tail k -> starts_with k (js "/" ++ name) = false.
Proof.
  intros Hk. apply not_true_iff_false. intros [r E]%starts_with_spec. destruct k as [|c k]; [by apply not_elem_of_nil in Hk|].
  injection E as _ E. apply slug_no_slash. rewrite E, elem_of_app. by left.
Qed.

Lemma slug_segment root : 1 <= length root -> route_segment root (js "/" ++ name) = None.
Proof.
  intros Hr. unfold route_segment. rewrite slug_not_under; [done|]. destruct root as [|c root]; [cbn in Hr; lia|].
  change (tail ((c :: root) ++ js "/")) with (root ++ js "/"). apply elem_of_app. right. by left.
Qed.

Lemma slug_no_trailing : ends_with (js "/") (js "/" ++ name) = false.
Proof.
  apply not_true_iff_false. intros [k E]%ends_with_spec. destruct (exists_last Hne) as (n & c & En).
  apply slug_no_slash. rewrite En in E |- *. rewrite (assoc_L (++)) in E. change (js "/") with [47%N] in E.
  apply app_inj_tail in E as [_ ->]. apply elem_of_app. right. by left.
Qed.

Lemma slug_account : accountPageFromPath (js "/" ++ name) = [].
Proof.
  unfold accountPageFromPath, LoginRoute.drop_slash. rewrite slug_lower, slug_no_trailing. cbv zeta.
  by rewrite !slug_not_root by slash_in.
Qed.

Lemma slug_legal : legalPageFromPath (js "/" ++ name) = if bool_decide (name ∈ LEGAL_DOCUMENTS) then name else [].
Proof.
  unfold legalPageFromPath. rewrite slug_lower. change (js "/" ++ name) with (47%N :: name). cbv zeta iota.
  assert (ends_with (js "/") name = false) as ->; [|done].
  apply not_true_iff_false. intros [k E]%ends_with_spec. apply slug_no_slash. rewrite E, elem_of_app. right. by left.
Qed.

Lemma slug_normalized : normalized_path (js "/" ++ name) = js "/" ++ name.
Proof.
  unfold normalized_path. change (str_or (js "/" ++ name) (js "/")) with (js "/" ++ name).
  enough (strip_slashes (js "/" ++ name) = js "/" ++ name) as -> by done.
  unfold strip_slashes. destruct (exists_last Hne) as (n & c & En). pose proof slug_no_slash as Hns. rewrite En in Hns |- *.
  rewrite (assoc_L (++)), reverse_snoc. cbn [drop_slashes].
  assert ((c =? 47)%N = false) as ->.
  { apply N.eqb_neq. intros ->. apply Hns. apply elem_of_app. right. by left. }
  by rewrite reverse_cons, reverse_involutive.
Qed.

Lemma slug_account_tab : accountTabFromPath (js "/" ++ name) = [].
Proof.
  unfold accountTabFromPath, mavenDomainRouteFromPath, superTeamRouteFromPath, ticketRouteFromPath, parseTicketRoute.
  cbv zeta. rewrite slug_normalized. cbn [ticket_route].
  rewrite !slug_not_root by slash_in. rewrite !slug_not_under by slash_in. by rewrite !slug_segment by (cbn; lia).
Qed.

Lemma slug_profile : profileRouteFromPath (js "/" ++ name) = None.
Proof. unfold profileRouteFromPath, match_profile. by rewrite slug_not_under by slash_in. Qed.

Lemma slug_public : publicMavenDomainRouteFromPath (js "/" ++ name) = None /\ publicSuperTeamRouteFromPath (js "/" ++ name) = None.
Proof.
  unfold publicMavenDomainRouteFromPath, publicSuperTeamRouteFromPath. rewrite slug_normalized.
  by rewrite !slug_segment by (cbn; lia).
Qed.

Lemma slug_manager : name ∉ RESERVED_REPOSITORY_NAMES ->
  managerTabFromPath (js "/" ++ name)
    = if bool_decide (name = js "storage") || bool_decide (name = js "database") then name else [].
Proof.
  intros Hres. unfold managerTabFromPath. cbv zeta. rewrite slug_normalized.
  rewrite slug_not_under by slash_in.
  assert (Heq : forall k, head k = Some 47%N -> (js "/" ++ name =? k)%js = (name =? tail k)%js).
  { intros [|c k] Hc; [done|]. injection Hc as ->. apply bool_decide_ext. cbn [tail]. change (js "/" ++ name) with (47%N :: name).
    split; [by intros [= ->]|by intros ->]. }
  assert (Hk : forall k, bool_decide (k ∈ RESERVED_REPOSITORY_NAMES) = true -> (name =? k)%js = false).
  { intros k Hk%bool_decide_eq_true. apply bool_decide_eq_false. by intros ->. }
  rewrite !Heq by reflexivity.
  rewrite (Hk (tail (js "/dashboard"))), (Hk (tail (js "/users"))), (Hk (tail (js "/repositories"))), (Hk (tail (js "/settings")))
    by (vm_compute; reflexivity).
  change (tail (js "/storage")) with (js "storage"). change (tail (js "/database")) with (js "database").
  case_bool_decide as E1; [by rewrite E1|]. case_bool_decide as E2; [by rewrite E2|]. done.
Qed.
End slugs.

(** a repository that the site lets one create has its page at [/<name>], for everyone and whatever the rights of
    the user, unless its name is one of five that other pages use: "storage", "database" and the names of the policies,
    which the list of reserved names does not have. *)
Theorem repository_pages_open {UC : UnicodeCase} {UA : UrlApi} name signed_in manager :
  isValidRepositorySlug name = true ->
  resolveTab (js "overview") (js "/" ++ name) signed_in manager = Page (js "overview") <-> name ∉ shadowed_names.
Proof.
  intros [[_ Hp]%andb_true_iff Hres%negb_true_iff%bool_decide_eq_false]%andb_true_iff. destruct (slug_chars name Hp) as [Hne Hc].
  assert (Hsh : name ∈ shadowed_names <-> name = js "storage" \/ name = js "database" \/ name ∈ LEGAL_DOCUMENTS).
  { unfold shadowed_names, LEGAL_DOCUMENTS. cbn [map]. rewrite !elem_of_cons. tauto. }
  rewrite Hsh. clear Hsh Hp.
  assert (Ht : isAccountTab (js "overview") = false /\ isManagerTab (js "overview") = false /\
               isAccountTab (js "legal") = false /\ isManagerTab (js "legal") = false) by (split_and!; vm_compute; reflexivity).
  destruct Ht as (Ho1 & Ho2 & Hl1 & Hl2).
  rewrite resolve_routed. unfold asked. rewrite (slug_legal name Hc), (slug_account name Hne Hc).
  unfold routed. rewrite (slug_account_tab name Hne Hc), (slug_profile name Hc), (slug_manager name Hne Hc Hres).
  destruct (slug_public name Hne Hc) as [-> ->]. cbn [nonempty str_or fmap option_fmap option_map].
  rewrite !(bool_decide_eq_false_2 (is_Some None)) by (by intros []).
  rewrite (bool_decide_eq_false_2 (None = Some (js "edit"))) by done.
  destruct (decide (name ∈ LEGAL_DOCUMENTS)) as [Hlg|Hlg].
  - rewrite (bool_decide_eq_true_2 (name ∈ LEGAL_DOCUMENTS)) by done.
    assert (nonempty name = true) as -> by by destruct name.
    rewrite Hl1, Hl2. cbn [orb andb].
    assert (Hsd : bool_decide (name = js "storage") || bool_decide (name = js "database") = false).
    { assert (H : forallb (fun k => negb (bool_decide (k = js "storage") || bool_decide (k = js "database"))) LEGAL_DOCUMENTS = true)
        by (vm_compute; reflexivity). rewrite forallb_forall in H. apply list_elem_of_In, H in Hlg. by apply negb_true_iff. }
    rewrite Hsd. cbn [nonempty orb]. rewrite andb_false_r. rewrite bool_decide_eq_false_2 by done. split; [done|tauto].
  - rewrite (bool_decide_eq_false_2 (name ∈ LEGAL_DOCUMENTS)) by done. cbn [nonempty]. rewrite Ho1, Ho2. cbn [orb andb].
    rewrite (bool_decide_eq_true_2 (js "overview" = js "overview")) by done.
    destruct (decide (name = js "storage" \/ name = js "database")) as [Hsd|Hsd].
    + assert (bool_decide (name = js "storage") || bool_decide (name = js "database") = true) as ->.
      { apply orb_true_iff. rewrite !bool_decide_eq_true. done. }
      assert (nonempty name = true) as -> by by destruct name. split; [|tauto].
      destruct signed_in; cbn [negb andb]; [|done]. destruct name; [done|]. cbn [str_or]. intros [= E].
      rewrite E in Hsd. destruct Hsd; done.
    + assert (bool_decide (name = js "storage") || bool_decide (name = js "database") = false) as ->.
      { apply orb_false_iff. rewrite !bool_decide_eq_false. tauto. }
      cbn [nonempty str_or]. rewrite andb_false_r. split; [tauto|done].
Qed.

(** ** Examples *)
Section example.
#[local] Existing Instances unit_case unit_case_ascii simple_url.

Definition shell_at (path : jstr) (signed_in manager : bool) : shell :=
  {| history := {| current := {| pathname := path; search := [] |}; back := [] |}; renopTab := None;
     cachedIsLoggedIn := signed_in; cachedIsManager := manager; active := []; selectedTab := None; refreshing := false;
     done_actions := [] |}.

Lemma manager_pages_guarded_witness :
  let s := shell_at (js "/storage") true true in
  let evs := [Started false; TabClicked (js "users"); LanguageChanged; HomeClicked; SessionPublished false false;
              WentTo {| current := {| pathname := js "/users"; search := [] |}; back := [] |} None] in
  (active <$> shell_run evs s) = Some (js "login") /\
  exists s', shell_run evs s = Some s' /\
  (guarded s' \/
   exists e1 ev e2 s1, evs = e1 ++ ev :: e2 /\ shell_run (e1 ++ [ev]) s = Some s1 /\ asks_overview ev /\ bypassed s1).
Proof.
  intros s evs. split; [vm_compute; reflexivity|]. apply (manager_pages_guarded evs s). split; [|done].
  intros H. vm_compute in H. discriminate H.
Defined.

Lemma repository_pages_open_witness :
  resolveTab (js "overview") (js "/" ++ js "maven-releases") false false = Page (js "overview") <->
  js "maven-releases" ∉ shadowed_names.
Proof. apply (repository_pages_open (js "maven-releases") false false). vm_compute. reflexivity. Defined.

(** Opening the address of a manager page shows it to a signed-in user who is no manager: the check turns the page into
    the overview, which the address turns back. *)
Example startup_bypass :
  active <$> shell_run [Started false] (shell_at (js "/dashboard") true false) = Some (js "dashboard").
Proof. vm_compute. reflexivity. Qed.

(** A name that the creation form accepts, whose page is the storage page. *)
Example storage_repository :
  isValidRepositorySlug (js "storage") = true /\
  resolveTab (js "overview") (js "/storage") true true = Page (js "storage").
Proof. split; vm_compute; reflexivity. Qed.
End example.
