(* ===== verification/DirectoryBrowser.v ===== *)
(** * The directory browser

    [internal/service/frontend/renop-html/js/browser.js]: loading a directory with the details of its repository,
    navigation, deletions, the panels of the list and the view of the repository's format.  Answers of the server, the
    end of an animation and the continuation of a load are events, in any order; rows and breadcrumbs are [FileList] and
    [Breadcrumb], engines [RepositoryFormats], the adjustments of a listing [BrowserUtils]. *)
From S2P Require Import Prelude JsString JsArray JsUri BrowserUtils RepositoryFormats FileList Breadcrumb.

Section browser.
Context {UC : UnicodeCase} {CO : Collation}.
(** The details of a repository, of which only the format is read here. *)
Context {D : Type} (details_format : D -> option jstr).

(** ** State *)
(** An answered directory request: a decoded listing, or anything else ([!response?.ok || !data]). *)
Inductive directory_answer := Listed (files : list file) | Refused.

(** Where a load is: its two requests ([None]: pending; [Some None]: failed), the text of a refusal, the engine's
    rendering, or the error it has caught. *)
Inductive load_phase :=
| Requests (directory : option (option directory_answer)) (details : option (option (option D)))
| AwaitErrorText
| AwaitEngine
| Caught (message : option jstr).       (* [None]: not a localized response error *)

Record load := {
  l_seq : nat;
  l_path : jstr;
  l_reuse : bool;                       (* [canReuseFormatDetails] *)
  l_same : bool;                        (* [isSameDirectory] *)
  l_exited : bool;                      (* [exitPromise] has resolved *)
  l_phase : load_phase
}.

Inductive browser_action :=
| FetchDirectory (path : jstr)
| FetchRepoDetails (repository : jstr)
| UpdateRepoStats (repository : jstr)
| HideRepoStats
| UpdateSnippets (path : jstr)
| UpdateUploadZone (path : jstr)
| UpdateRepositorySearch (repository format : jstr)
| HideEngines (views : list view)
| RenderEngine (v : view) (path : jstr) (d : D)
| LocalizeError
| AppNavigationSent
| DeleteRequest (path : jstr).

Record browser := {
  currentLoadSeq : nat;
  lastDirectoryPath : jstr;
  currentRepositoryFormat : jstr;
  currentRepoDetails : option D;
  currentRepositoryName : jstr;
  prefs : preferences;
  entries : list jstr;                  (* the history, newest first *)
  trail : breadcrumb;
  translate : jstr -> jstr;
  list_hidden : bool;                   (* [fileListContainer.hidden]: an engine's view is shown *)
  empty_shown : bool;
  error_shown : bool;
  rows_shown : bool;
  empty_key : jstr;
  error_text : jstr;
  rows : list item;
  fresh : nat;
  deletions : list (nat * jstr);        (* leaving rows and the directory whose file was deleted *)
  loads : list load;
  actions : list browser_action         (* newest first *)
}.

Implicit Types s : browser.

(** ** Updates of parts of the state *)
Definition act (a : browser_action) s : browser :=
  {| currentLoadSeq := currentLoadSeq s; lastDirectoryPath := lastDirectoryPath s;
     currentRepositoryFormat := currentRepositoryFormat s; currentRepoDetails := currentRepoDetails s;
     currentRepositoryName := currentRepositoryName s; prefs := prefs s; entries := entries s; trail := trail s;
     translate := translate s; list_hidden := list_hidden s; empty_shown := empty_shown s; error_shown := error_shown s;
     rows_shown := rows_shown s; empty_key := empty_key s; error_text := error_text s; rows := rows s; fresh := fresh s;
     deletions := deletions s; loads := loads s; actions := a :: actions s |}.

Definition set_loads ls s : browser :=
  {| currentLoadSeq := currentLoadSeq s; lastDirectoryPath := lastDirectoryPath s;
     currentRepositoryFormat := currentRepositoryFormat s; currentRepoDetails := currentRepoDetails s;
     currentRepositoryName := currentRepositoryName s; prefs := prefs s; entries := entries s; trail := trail s;
     translate := translate s; list_hidden := list_hidden s; empty_shown := empty_shown s; error_shown := error_shown s;
     rows_shown := rows_shown s; empty_key := empty_key s; error_text := error_text s; rows := rows s; fresh := fresh s;
     deletions := deletions s; loads := ls; actions := actions s |}.

Definition set_repository (format : jstr) (details : option D) (name : jstr) s : browser :=
  {| currentLoadSeq := currentLoadSeq s; lastDirectoryPath := lastDirectoryPath s;
     currentRepositoryFormat := format; currentRepoDetails := details; currentRepositoryName := name;
     prefs := prefs s; entries := entries s; trail := trail s;
     translate := translate s; list_hidden := list_hidden s; empty_shown := empty_shown s; error_shown := error_shown s;
     rows_shown := rows_shown s; empty_key := empty_key s; error_text := error_text s; rows := rows s; fresh := fresh s;
     deletions := deletions s; loads := loads s; actions := actions s |}.

Definition set_trail tr s : browser :=
  {| currentLoadSeq := currentLoadSeq s; lastDirectoryPath := lastDirectoryPath s;
     currentRepositoryFormat := currentRepositoryFormat s; currentRepoDetails := currentRepoDetails s;
     currentRepositoryName := currentRepositoryName s; prefs := prefs s; entries := entries s; trail := tr;
     translate := translate s; list_hidden := list_hidden s; empty_shown := empty_shown s; error_shown := error_shown s;
     rows_shown := rows_shown s; empty_key := empty_key s; error_text := error_text s; rows := rows s; fresh := fresh s;
     deletions := deletions s; loads := loads s; actions := actions s |}.

(** The panels: what is hidden, the key of the empty state, the text of the error. *)
Definition set_panels hidden empty error rows_sh key text s : browser :=
  {| currentLoadSeq := currentLoadSeq s; lastDirectoryPath := lastDirectoryPath s;
     currentRepositoryFormat := currentRepositoryFormat s; currentRepoDetails := currentRepoDetails s;
     currentRepositoryName := currentRepositoryName s; prefs := prefs s; entries := entries s; trail := trail s;
     translate := translate s; list_hidden := hidden; empty_shown := empty; error_shown := error;
     rows_shown := rows_sh; empty_key := key; error_text := text; rows := rows s; fresh := fresh s;
     deletions := deletions s; loads := loads s; actions := actions s |}.

Definition set_rows cs n ds s : browser :=
  {| currentLoadSeq := currentLoadSeq s; lastDirectoryPath := lastDirectoryPath s;
     currentRepositoryFormat := currentRepositoryFormat s; currentRepoDetails := currentRepoDetails s;
     currentRepositoryName := currentRepositoryName s; prefs := prefs s; entries := entries s; trail := trail s;
     translate := translate s; list_hidden := list_hidden s; empty_shown := empty_shown s; error_shown := error_shown s;
     rows_shown := rows_shown s; empty_key := empty_key s; error_text := error_text s; rows := cs; fresh := n;
     deletions := ds; loads := loads s; actions := actions s |}.

(** ** Panels *)
Definition isRepoRootPath (path : jstr) : bool :=
  let raw := default [] (head (split 35 (default [] (head (split 63 path))))) in
  match path_parts raw with
  | [name] => negb (name =? js "index.html")%js
              && negb (bool_decide (name ∈ map js ["css"; "js"; "svg"; "api"; "javadocs"; "assets"]%string))
  | _ => false
  end.

Definition updateEmptyStateMessage (path : jstr) s : browser :=
  set_panels (list_hidden s) (empty_shown s) (error_shown s) (rows_shown s)
    (if isRepoRootPath path then js "browser.repoEmptyState" else js "browser.emptyState") (error_text s) s.

Definition setStateVisibility (empty error : bool) s : browser :=
  set_panels (list_hidden s) empty error (negb (empty || error)) (empty_key s) (error_text s) s.

Definition setRepositoryContentMode (format : jstr) s : browser :=
  act (HideEngines (hideOtherRepositoryEngines format))
    (set_panels (bool_decide (is_Some (getRepositoryBrowserEngine format None)))
       (empty_shown s) (error_shown s) (rows_shown s) (empty_key s) (error_text s) s).

Definition set_error_text (text : jstr) s : browser :=
  set_panels (list_hidden s) (empty_shown s) (error_shown s) (rows_shown s) (empty_key s) text s.

Definition render_trail (path : jstr) s : browser :=
  set_trail (renderBreadcrumb (currentRepositoryFormat s) (translate s) path (trail s)) s.

Definition showEmptyIfNoFiles (path : jstr) s : browser :=
  if bool_decide (visible_items (rows s) = [])
  then setStateVisibility true false (updateEmptyStateMessage path (set_rows [] (fresh s) (deletions s) s))
  else s.

(** ** Loading a directory *)
Inductive direction := Fade | Forward | Backward.

Definition with_slash (path : jstr) : jstr := if ends_with (js "/") path then path else path ++ js "/".

Definition load_direction (last path : jstr) : direction :=
  if nonempty last && negb (last =? path)%js then
    if starts_with (with_slash last) (with_slash path) then Forward
    else if starts_with (with_slash path) (with_slash last) then Backward else Fade
  else Fade.

Definition repository_of (path : jstr) : jstr := default [] (head (path_parts path)).

(** [pathParts.length >= 1 && pathParts[0] !== 'index.html'] *)
Definition has_repository (path : jstr) : bool :=
  match path_parts path with p0 :: _ => negb (p0 =? js "index.html")%js | [] => false end.

Definition canReuseFormatDetails (path : jstr) s : bool :=
  bool_decide (is_Some (getRepositoryBrowserEngine (currentRepositoryFormat s) (Some path)))
  && nonempty (repository_of path) && (repository_of path =? currentRepositoryName s)%js
  && bool_decide (is_Some (currentRepoDetails s)).

(** The promise of the repository's details. *)
Definition start_details (path : jstr) (reuse : bool) s : option (option (option D)) * browser :=
  if has_repository path then
    if reuse then (Some (Some (currentRepoDetails s)), s)
    else (None, act (UpdateRepoStats (repository_of path)) (act (FetchRepoDetails (repository_of path)) s))
  else (Some (Some None), act HideRepoStats (set_repository (currentRepositoryFormat s) None [] s)).

(** [loadDirectory(path)] up to its first [await]. *)
Definition loadDirectory (path : jstr) s : browser :=
  let seq := S (currentLoadSeq s) in
  let reuse := canReuseFormatDetails path s in
  let isSameDirectory := (lastDirectoryPath s =? path)%js in
  let exited := isSameDirectory || reuse ||
                match load_direction (lastDirectoryPath s) path with Backward => true | _ => false end in
  let s := {| currentLoadSeq := seq; lastDirectoryPath := path;
              currentRepositoryFormat := currentRepositoryFormat s; currentRepoDetails := currentRepoDetails s;
              currentRepositoryName := currentRepositoryName s; prefs := prefs s; entries := entries s; trail := trail s;
              translate := translate s; list_hidden := list_hidden s; empty_shown := empty_shown s; error_shown := error_shown s;
              rows_shown := rows_shown s; empty_key := empty_key s; error_text := error_text s; rows := rows s; fresh := fresh s;
              deletions := deletions s; loads := loads s; actions := actions s |} in
  let s := render_trail path s in
  let '(details, s) := start_details path reuse s in
  let s := if reuse then s else act (FetchDirectory path) (act (UpdateUploadZone path) (act (UpdateSnippets path) s)) in
  set_loads (loads s ++ [{| l_seq := seq; l_path := path; l_reuse := reuse; l_same := isSameDirectory; l_exited := exited;
                            l_phase := Requests (if reuse then Some (Some Refused) else None) details |}]) s.

Definition find_load (n : nat) s : option load := List.find (fun l => l_seq l =? n) (loads s).

Definition set_load (l : load) s : browser := set_loads (map (fun k => if l_seq k =? l_seq l then l else k) (loads s)) s.

Definition end_load (n : nat) s : browser := set_loads (List.filter (fun k => negb (l_seq k =? n)) (loads s)) s.

Definition with_phase (p : load_phase) (l : load) : load :=
  {| l_seq := l_seq l; l_path := l_path l; l_reuse := l_reuse l; l_same := l_same l; l_exited := l_exited l; l_phase := p |}.

Definition with_exit (l : load) : load :=
  {| l_seq := l_seq l; l_path := l_path l; l_reuse := l_reuse l; l_same := l_same l; l_exited := true; l_phase := l_phase l |}.

(** The [catch] block, after [exitPromise]. *)
Definition load_failed (l : load) (message : option jstr) s : browser :=
  let s := end_load (l_seq l) s in
  if l_seq l =? currentLoadSeq s then
    let s := act (UpdateRepositorySearch [] (js "maven")) (setRepositoryContentMode [] s) in
    let s := set_rows [] (fresh s) (deletions s) s in
    setStateVisibility false true (set_error_text (default (translate s (js "browser.errorState")) message) s)
  else s.

(** From [setStateVisibility] to the end of the [try] block, for a listing. *)
Definition show_files (l : load) (files : list file) s : browser :=
  let filesToDisplay := applyAdjustments (displayHashFiles (prefs s)) (reversedFileOrder (prefs s)) files in
  let s1 := setStateVisibility false false s in
  match filesToDisplay with
  | [] =>
    end_load (l_seq l)
      (setStateVisibility true false (updateEmptyStateMessage (l_path l) (set_rows [] (fresh s1) (deletions s1) s1)))
  | _ =>
    match (if l_same l && negb (bool_decide (rows s1 = []))
           then renderFileListReconciled filesToDisplay (l_path l) (rows s1, fresh s1)
           else replace_list filesToDisplay (l_path l) (fresh s1)) with
    | Some (cs, n) => end_load (l_seq l) (set_rows cs n (deletions s1) s1)
    | None => load_failed l None s1                (* a name that cannot be encoded *)
    end
  end.

(** The repository of the answer becomes current; the view of its format, if the path has one. *)
Definition enter_repository (l : load) (details : option D) s : option view * browser :=
  let format := id_of (getRepositoryFormat (details ≫= details_format)) in
  let name := match details with Some _ => repository_of (l_path l) | None => [] end in
  let engineView := match details with
                    | Some _ => if nonempty (repository_of (l_path l)) then getRepositoryBrowserEngine format (Some (l_path l)) else None
                    | None => None
                    end in
  let s := set_repository format details name s in
  let s := setRepositoryContentMode (match engineView with Some _ => format | None => [] end) s in
  (engineView, render_trail (l_path l) (act (UpdateRepositorySearch name format) s)).

(** The [try] block from the check of the sequence number. *)
Definition load_answered (l : load) (directory : directory_answer) (details : option D) s : browser :=
  if negb (l_seq l =? currentLoadSeq s) then end_load (l_seq l) s
  else
    let '(engineView, s) := enter_repository l details s in
    match engineView, details with
    | Some v, Some d =>
      set_load (with_phase AwaitEngine l) (act (RenderEngine v (l_path l) d) (setStateVisibility false false s))
    | _, _ =>
      match l_reuse l, directory with
      | false, Listed files => show_files l files s
      | _, _ => set_load (with_phase AwaitErrorText l) (act LocalizeError s)
      end
    end.

(** The continuation of load [n], when what it waits for has settled. *)
Definition resume (n : nat) s : browser :=
  match find_load n s with
  | None => s
  | Some l =>
    if negb (l_exited l) then s
    else
      match l_phase l with
      | Requests (Some None) _ | Requests _ (Some None) => load_failed l None s
      | Requests (Some (Some directory)) (Some (Some details)) => load_answered l directory details s
      | Caught message => load_failed l message s
      | _ => s
      end
  end.

(** ** Answers *)
Definition update_load (n : nat) (g : load -> load) s : browser :=
  set_loads (map (fun k => if l_seq k =? n then g k else k) (loads s)) s.

(** A promise settles once. *)
Definition settle_once {A} (old : option A) (new : A) : option A := match old with Some _ => old | None => Some new end.

Definition directory_settled (r : option directory_answer) (l : load) : load :=
  match l_phase l with Requests d e => with_phase (Requests (settle_once d r) e) l | _ => l end.

Definition details_settled (r : option (option D)) (l : load) : load :=
  match l_phase l with Requests d e => with_phase (Requests d (settle_once e r)) l | _ => l end.

(** The localized text of a refusal; the engine's rendering fails. *)
Definition error_text_ready (text : jstr) (l : load) : load :=
  match l_phase l with AwaitErrorText => with_phase (Caught (Some text)) l | _ => l end.

Definition engine_failed (l : load) : load :=
  match l_phase l with AwaitEngine => with_phase (Caught None) l | _ => l end.

Definition engine_done (n : nat) s : browser :=
  match find_load n s with
  | Some l => match l_phase l with AwaitEngine => end_load n s | _ => s end
  | None => s
  end.

(** ** Navigation *)
Definition set_entries es s : browser :=
  {| currentLoadSeq := currentLoadSeq s; lastDirectoryPath := lastDirectoryPath s;
     currentRepositoryFormat := currentRepositoryFormat s; currentRepoDetails := currentRepoDetails s;
     currentRepositoryName := currentRepositoryName s; prefs := prefs s; entries := es; trail := trail s;
     translate := translate s; list_hidden := list_hidden s; empty_shown := empty_shown s; error_shown := error_shown s;
     rows_shown := rows_shown s; empty_key := empty_key s; error_text := error_text s; rows := rows s; fresh := fresh s;
     deletions := deletions s; loads := loads s; actions := actions s |}.

Definition navigateToPath (path : jstr) (replace : bool) s : browser :=
  if starts_with (js "/") path then
    let s := act AppNavigationSent s in
    loadDirectory path (set_entries (if replace then path :: tail (entries s) else path :: entries s) s)
  else s.

Definition location s : jstr := default (js "/") (head (entries s)).

Definition set_language (t : jstr -> jstr) s : browser :=
  {| currentLoadSeq := currentLoadSeq s; lastDirectoryPath := lastDirectoryPath s;
     currentRepositoryFormat := currentRepositoryFormat s; currentRepoDetails := currentRepoDetails s;
     currentRepositoryName := currentRepositoryName s; prefs := prefs s; entries := entries s; trail := trail s;
     translate := t; list_hidden := list_hidden s; empty_shown := empty_shown s; error_shown := error_shown s;
     rows_shown := rows_shown s; empty_key := empty_key s; error_text := error_text s; rows := rows s; fresh := fresh s;
     deletions := deletions s; loads := loads s; actions := actions s |}.

(** The error panel has the key [browser.errorState], so its text is always translated anew. *)
Definition handleBrowserLanguageChanged (t : jstr -> jstr) s : browser :=
  let path := str_or (lastDirectoryPath s) (location s) in
  let s := render_trail path (set_language t s) in
  let s := set_error_text (translate s (js "browser.errorState")) s in
  act (UpdateSnippets path) (if empty_shown s then updateEmptyStateMessage path s else s).

Definition handleRepositorySettingsChanged (repository : jstr) s : browser :=
  if (repository =? currentRepositoryName s)%js then set_repository (currentRepositoryFormat s) None [] s else s.

(** ** Deleting a file *)
(** The server has deleted the file of a row in the directory [path]; a row that is no child any more is not
    animated. *)
Definition file_deleted (node : nat) (path : jstr) s : browser :=
  if bool_decide (node ∈ map i_node (rows s))
  then set_rows (start_removing node (rows s)) (fresh s) (deletions s ++ [(node, path)]) s
  else showEmptyIfNoFiles path s.

(** The end of the row's animation, or its timer. *)
Definition deletion_ended (node : nat) s : browser :=
  match List.find (fun d => d.1 =? node) (deletions s) with
  | Some (_, path) =>
    showEmptyIfNoFiles path
      (set_rows (remove_item node (rows s)) (fresh s) (List.filter (fun d => negb (d.1 =? node)) (deletions s)) s)
  | None => s
  end.

(** ** Events *)
Inductive browser_event :=
| LoadRequested (path : jstr)                          (* [loadDirectory] from the shell *)
| Navigated (path : jstr) (replace : bool)
| AdjustmentsChanged (p : preferences)                 (* [initUtils]'s callback *)
| DirectoryAnswered (n : nat) (r : option directory_answer)
| DetailsAnswered (n : nat) (r : option (option D))
| ExitEnded (n : nat)
| Resumed (n : nat)
| ErrorTextReady (n : nat) (text : jstr)
| EngineRendered (n : nat)
| EngineFailed (n : nat)
| RowLeft (node : nat)                                 (* a leaving row's animation or timer *)
| RowSettled (node : nat)
| FileDeleted (node : nat) (path : jstr)
| DeletionEnded (node : nat)
| UpButton (ev : up_event)
| SettingsChanged (repository : jstr)
| LanguageSet (t : jstr -> jstr).

Definition set_prefs (p : preferences) s : browser :=
  {| currentLoadSeq := currentLoadSeq s; lastDirectoryPath := lastDirectoryPath s;
     currentRepositoryFormat := currentRepositoryFormat s; currentRepoDetails := currentRepoDetails s;
     currentRepositoryName := currentRepositoryName s; prefs := p; entries := entries s; trail := trail s;
     translate := translate s; list_hidden := list_hidden s; empty_shown := empty_shown s; error_shown := error_shown s;
     rows_shown := rows_shown s; empty_key := empty_key s; error_text := error_text s; rows := rows s; fresh := fresh s;
     deletions := deletions s; loads := loads s; actions := actions s |}.

(** Only leaving rows are removed by their animation. *)
Definition row_left (node : nat) (cs : list item) : list item :=
  List.filter (fun c => staying c || negb (i_node c =? node)) cs.

Definition browser_step (ev : browser_event) s : browser :=
  match ev with
  | LoadRequested path => loadDirectory path s
  | Navigated path replace => navigateToPath path replace s
  | AdjustmentsChanged p => loadDirectory (location s) (set_prefs p s)
  | DirectoryAnswered n r => update_load n (directory_settled r) s
  | DetailsAnswered n r => update_load n (details_settled r) s
  | ExitEnded n => update_load n with_exit s
  | Resumed n => resume n s
  | ErrorTextReady n text => update_load n (error_text_ready text) s
  | EngineRendered n => engine_done n s
  | EngineFailed n => update_load n engine_failed s
  | RowLeft node =>
    if bool_decide (node ∈ map fst (deletions s)) then s else set_rows (row_left node (rows s)) (fresh s) (deletions s) s
  | RowSettled node => set_rows (settle_added node (rows s)) (fresh s) (deletions s) s
  | FileDeleted node path => file_deleted node path s
  | DeletionEnded node => deletion_ended node s
  | UpButton ev => set_trail {| links := links (trail s); upDirBtn := up_step ev (upDirBtn (trail s)) |} s
  | SettingsChanged repository => handleRepositorySettingsChanged repository s
  | LanguageSet t => handleBrowserLanguageChanged t s
  end.

Definition browser_run (evs : list browser_event) s : browser := fold_left (fun s ev => browser_step ev s) evs s.

(** ** Invariant *)
Definition format_of (d : D) : jstr := id_of (getRepositoryFormat (details_format d)).

(** A load that reuses the details has them, with a view of their format; a load outside the repositories has none. *)
Definition reuse_ok (l : load) : Prop :=
  (l_reuse l = true -> nonempty (repository_of (l_path l)) = true /\
   exists d v, getRepositoryBrowserEngine (format_of d) (Some (l_path l)) = Some v /\
               match l_phase l with
               | Requests dir det => dir = Some (Some Refused) /\ det = Some (Some (Some d))
               | AwaitErrorText => False
               | _ => True
               end) /\
  (has_repository (l_path l) = false -> match l_phase l with Requests _ det => det = Some (Some None) | _ => True end).

Record browser_ok s : Prop := {
  ok_rows : rows_ok (rows s) (fresh s);
  ok_format : forall d, currentRepoDetails s = Some d -> currentRepositoryFormat s = format_of d;
  ok_name : currentRepositoryName s <> js "index.html";
  ok_seqs : NoDup (map l_seq (loads s));
  ok_loads : Forall (fun l => l_seq l <= currentLoadSeq s /\ reuse_ok l) (loads s)
}.

(** What the user sees of the list. *)
Definition panels s : bool * bool * bool * bool := (list_hidden s, empty_shown s, error_shown s, rows_shown s).

Lemma find_load_in n s l : find_load n s = Some l -> l ∈ loads s /\ l_seq l = n.
Proof.
  unfold find_load. intros [Hin E]%List.find_some. split; [by apply list_elem_of_In|]. by apply Nat.eqb_eq.
Qed.

Lemma find_load_set ls n s : find_load n (set_loads ls s) = List.find (fun l => l_seq l =? n) ls.
Proof. done. Qed.

Lemma find_filter n m (ls : list load) : n <> m ->
  List.find (fun l => l_seq l =? n) (List.filter (fun k => negb (l_seq k =? m)) ls) = List.find (fun l => l_seq l =? n) ls.
Proof.
  intros Hne. induction ls as [|l ls IH]; [done|]. cbn [List.filter]. destruct (l_seq l =? m) eqn:E; cbn [negb List.find].
  - apply Nat.eqb_eq in E. rewrite IH. by rewrite (proj2 (Nat.eqb_neq (l_seq l) n)) by lia.
  - by rewrite IH.
Qed.

Lemma find_filter_gone n (ls : list load) : List.find (fun l => l_seq l =? n) (List.filter (fun k => negb (l_seq k =? n)) ls) = None.
Proof.
  induction ls as [|l ls IH]; [done|]. cbn [List.filter]. destruct (l_seq l =? n) eqn:E; cbn [negb List.find]; [done|]. by rewrite E.
Qed.

Lemma find_map n m g (ls : list load) : (forall l, l_seq (g l) = l_seq l) ->
  List.find (fun l => l_seq l =? n) (map (fun k => if l_seq k =? m then g k else k) ls)
  = (fun l => if n =? m then g l else l) <$> List.find (fun l => l_seq l =? n) ls.
Proof.
  intros Hg. induction ls as [|l ls IH]; [done|]. cbn [map List.find]. destruct (l_seq l =? m) eqn:Em.
  - rewrite Hg. destruct (l_seq l =? n) eqn:En; [|done]. apply Nat.eqb_eq in Em, En. cbn. by rewrite (proj2 (Nat.eqb_eq n m)) by lia.
  - destruct (l_seq l =? n) eqn:En; [|done]. apply Nat.eqb_neq in Em. apply Nat.eqb_eq in En. cbn.
    by rewrite (proj2 (Nat.eqb_neq n m)) by lia.
Qed.

Lemma map_seqs m g (ls : list load) : (forall l, l_seq (g l) = l_seq l) ->
  map l_seq (map (fun k => if l_seq k =? m then g k else k) ls) = map l_seq ls.
Proof. intros Hg. rewrite map_map. apply map_ext. intros l. destruct (_ =? _); [apply Hg|done]. Qed.

Lemma ok_set_loads ls s : browser_ok s -> NoDup (map l_seq ls) ->
  Forall (fun l => l_seq l <= currentLoadSeq s /\ reuse_ok l) ls -> browser_ok (set_loads ls s).
Proof. intros [? ? ? ? ?] ? ?. by constructor. Qed.

Lemma update_load_ok n g s : (forall l, l_seq (g l) = l_seq l) -> (forall l, reuse_ok l -> reuse_ok (g l)) ->
  browser_ok s -> browser_ok (update_load n g s).
Proof.
  intros Hs Hr Hok. apply ok_set_loads; [done|by rewrite map_seqs; [apply ok_seqs|]|].
  pose proof (ok_loads s Hok) as Hl. rewrite !Forall_forall in *. intros l (k & -> & Hk)%list_elem_of_fmap.
  destruct (Hl k Hk). destruct (_ =? _); [|done]. rewrite Hs. auto.
Qed.

Lemma end_load_ok n s : browser_ok s -> browser_ok (end_load n s).
Proof.
  intros Hok. apply ok_set_loads; [done|by apply NoDup_map_Lfilter, ok_seqs|]. by apply Forall_Lfilter, ok_loads.
Qed.

(** What the answers keep of a load. *)
Definition keeps (g : load -> load) : Prop :=
  forall l, l_seq (g l) = l_seq l /\ l_path (g l) = l_path l /\ l_reuse (g l) = l_reuse l /\ l_same (g l) = l_same l /\
            (reuse_ok l -> reuse_ok (g l)).

Lemma settle_known {A} (a b : A) : settle_once (Some a) b = Some a.
Proof. done. Qed.

Lemma directory_settled_keeps r : keeps (directory_settled r).
Proof.
  intros l. unfold directory_settled, reuse_ok. destruct (l_phase l) as [d e| | |m] eqn:Ep; rewrite ?Ep; split_and!; try done.
  intros [H Hh]. split; [|done]. intros Hr. cbn in Hr. destruct (H Hr) as (Hn & d' & v & Hv & -> & ->). split; [done|].
  by exists d', v.
Qed.

Lemma details_settled_keeps r : keeps (details_settled r).
Proof.
  intros l. unfold details_settled, reuse_ok. destruct (l_phase l) as [d e| | |m] eqn:Ep; rewrite ?Ep; split_and!; try done.
  intros [H Hh]. split.
  - intros Hr. cbn in Hr. destruct (H Hr) as (Hn & d' & v & Hv & -> & ->). split; [done|]. by exists d', v.
  - cbn. intros Hp. by rewrite (Hh Hp).
Qed.

Lemma with_exit_keeps : keeps with_exit.
Proof. intros l. done. Qed.

Lemma error_text_keeps text : keeps (error_text_ready text).
Proof.
  intros l. unfold error_text_ready, reuse_ok. destruct (l_phase l) as [d e| | |m] eqn:Ep; rewrite ?Ep; split_and!; try done.
  intros [H _]. split; [|done]. intros Hr. cbn in Hr. by destruct (H Hr) as (Hn & d' & v & Hv & []).
Qed.

Lemma engine_failed_keeps : keeps engine_failed.
Proof.
  intros l. unfold engine_failed, reuse_ok. destruct (l_phase l) as [d e| | |m] eqn:Ep; rewrite ?Ep; split_and!; try done.
Qed.

Lemma keeps_update n g s : keeps g -> browser_ok s -> browser_ok (update_load n g s).
Proof. intros Hg. apply update_load_ok; intros l; by apply Hg. Qed.

Lemma find_update n m g s : keeps g ->
  find_load n (update_load m g s) = (fun l => if n =? m then g l else l) <$> find_load n s.
Proof. intros Hg. apply find_map. intros l. by apply Hg. Qed.

(** *** Steps keep the invariant *)
Lemma ok_set_rows cs n ds s : rows_ok cs n -> browser_ok s -> browser_ok (set_rows cs n ds s).
Proof. intros ? [? ? ? ? ?]. by constructor. Qed.

Lemma ok_set_panels a b c d e f s : browser_ok s -> browser_ok (set_panels a b c d e f s).
Proof. intros [? ? ? ? ?]. by constructor. Qed.

Lemma ok_act a s : browser_ok s -> browser_ok (act a s).
Proof. intros [? ? ? ? ?]. by constructor. Qed.

Lemma ok_set_trail tr s : browser_ok s -> browser_ok (set_trail tr s).
Proof. intros [? ? ? ? ?]. by constructor. Qed.

Lemma ok_set_repository f d n s : (forall d', d = Some d' -> f = format_of d') -> n <> js "index.html" ->
  browser_ok s -> browser_ok (set_repository f d n s).
Proof. intros ? ? [? ? ? ? ?]. by constructor. Qed.

Lemma rows_ok_nil n : rows_ok [] n.
Proof. split; [apply NoDup_nil_2|]. by intros c Hc%not_elem_of_nil. Qed.

Lemma rows_ok_sub p cs n : rows_ok cs n -> rows_ok (List.filter p cs) n.
Proof. intros [Hnd Hlt]. split; [by apply NoDup_map_Lfilter|]. intros c [Hc _]%elem_of_Lfilter. by apply Hlt. Qed.

Lemma rows_ok_map g cs n : (forall c, i_node (g c) = i_node c) -> rows_ok cs n -> rows_ok (map g cs) n.
Proof.
  intros Hg [Hnd Hlt]. split; [by rewrite map_map, (map_ext _ _ Hg)|]. intros c (d & -> & Hd)%list_elem_of_fmap.
  rewrite Hg. by apply Hlt.
Qed.

Hint Resolve ok_set_panels ok_act ok_set_trail end_load_ok rows_ok_nil : core.

Lemma showEmpty_ok path s : browser_ok s -> browser_ok (showEmptyIfNoFiles path s).
Proof.
  intros Hs. unfold showEmptyIfNoFiles. case_bool_decide; [|done]. unfold setStateVisibility, updateEmptyStateMessage.
  do 2 apply ok_set_panels. by apply ok_set_rows.
Qed.

Lemma load_failed_ok l m s : browser_ok s -> browser_ok (load_failed l m s).
Proof.
  intros Hs. unfold load_failed. destruct (_ =? _); [|auto]. cbv zeta. apply ok_set_panels, ok_set_panels, ok_set_rows; [done|].
  unfold setRepositoryContentMode. auto.
Qed.

Lemma show_files_ok l files s : browser_ok s -> browser_ok (show_files l files s).
Proof.
  intros Hs. unfold show_files. cbv zeta. set (s1 := setStateVisibility false false s). assert (H1 : browser_ok s1) by by apply ok_set_panels.
  destruct (applyAdjustments _ _ _) as [|f fs].
  - apply end_load_ok, ok_set_panels, ok_set_panels. by apply ok_set_rows.
  - destruct (if l_same l && _ then _ else _) as [[cs n]|] eqn:E; [|by apply load_failed_ok].
    apply end_load_ok, ok_set_rows; [|done]. change (rows_ok (cs, n).1 (cs, n).2).
    destruct (l_same l && _); [eapply reconciled_rows_ok; [|exact E]; apply H1|by eapply replaced_rows_ok].
Qed.

Lemma set_load_ok l s : l_seq l <= currentLoadSeq s -> reuse_ok l -> browser_ok s -> browser_ok (set_load l s).
Proof.
  intros Hl Hr Hs. apply ok_set_loads; [done| |].
  - rewrite map_map. erewrite map_ext; [apply (ok_seqs _ Hs)|]. intros k. cbn. destruct (l_seq k =? l_seq l) eqn:E; [|done].
    by apply Nat.eqb_eq in E.
  - pose proof (ok_loads _ Hs) as Hls. rewrite Forall_forall in *. intros k (j & -> & Hj)%list_elem_of_fmap.
    destruct (_ =? _); [done|by apply Hls].
Qed.

Lemma repository_of_named path : has_repository path = true -> repository_of path <> js "index.html".
Proof.
  unfold has_repository, repository_of. destruct (path_parts path) as [|p ps]; [done|]. cbn. by case_bool_decide.
Qed.

Lemma engine_any format path v : getRepositoryBrowserEngine format (Some path) = Some v ->
  bool_decide (is_Some (getRepositoryBrowserEngine format None)) = true.
Proof.
  unfold getRepositoryBrowserEngine. intros H. apply bool_decide_eq_true. destruct (view_of format) as [w|]; [|done]. destruct w; by eexists.
Qed.

(** What entering a repository changes. *)
Lemma enter_repository_spec l details dir s engineView s2 :
  reuse_ok l -> l_phase l = Requests dir (Some (Some details)) -> browser_ok s ->
  enter_repository l details s = (engineView, s2) ->
  browser_ok s2 /\ currentLoadSeq s2 = currentLoadSeq s /\ loads s2 = loads s /\ rows s2 = rows s /\ prefs s2 = prefs s /\
  list_hidden s2 = bool_decide (is_Some engineView) /\
  (forall v, engineView = Some v -> exists d, details = Some d /\ getRepositoryBrowserEngine (format_of d) (Some (l_path l)) = Some v) /\
  (l_reuse l = true -> is_Some engineView).
Proof.
  intros [Hr Hh] Hp Hs. unfold enter_repository. cbv zeta. intros [= <- <-].
  set (engineView := match details with Some _ => _ | None => None end).
  assert (Hv : forall v, engineView = Some v -> exists d, details = Some d /\ getRepositoryBrowserEngine (format_of d) (Some (l_path l)) = Some v).
  { intros v. unfold engineView. destruct details as [d|]; [|done]. destruct (nonempty _); [|done]. intros E. by exists d. }
  split_and!; try done.
  - apply ok_set_trail, ok_act, ok_act, ok_set_panels, ok_set_repository; [by intros d ->| |done].
    destruct details; [|done]. apply repository_of_named. destruct (has_repository (l_path l)) eqn:E; [done|].
    specialize (Hh eq_refl). by rewrite Hp in Hh.
  - clearbody engineView. transitivity (bool_decide (is_Some (getRepositoryBrowserEngine
      (match engineView with Some _ => id_of (getRepositoryFormat (details ≫= details_format)) | None => [] end) None))); [done|].
    destruct engineView as [v|]; [|done]. destruct (Hv v eq_refl) as (d & -> & E). apply (engine_any _ _ _ E).
  - intros Hre. destruct (Hr Hre) as (Hne & d & v & E & Hph). rewrite Hp in Hph. destruct Hph as [_ [= ->]].
    exists v. unfold engineView. by rewrite Hne.
Qed.

Lemma load_answered_ok l dir details s :
  l_seq l <= currentLoadSeq s -> reuse_ok l -> l_phase l = Requests (Some (Some dir)) (Some (Some details)) ->
  browser_ok s -> browser_ok (load_answered l dir details s).
Proof.
  intros Hl Hr Hp Hs. unfold load_answered. destruct (negb _); [auto|]. destruct (enter_repository l details s) as [ev s2] eqn:E.
  destruct (enter_repository_spec _ _ _ _ _ _ Hr Hp Hs E) as (H2 & Hcur & _ & _ & _ & _ & Hv & Hre). rewrite <- Hcur in Hl.
  assert (Herr : l_reuse l = false -> browser_ok (set_load (with_phase AwaitErrorText l) (act LocalizeError s2))).
  { intros Hno. apply set_load_ok; [done| |by apply ok_act]. split; cbn; [by rewrite Hno|done]. }
  destruct ev as [v|].
  - destruct (Hv v eq_refl) as (d & -> & _). apply set_load_ok; [done| |by apply ok_act, ok_set_panels].
    destruct Hr as [Hr _]. split; cbn; [|done]. intros Ht. destruct (Hr Ht) as (Hne & d' & v' & Hv' & _). split; [done|]. by exists d', v'.
  - destruct (l_reuse l); [by destruct (Hre eq_refl)|]. destruct details, dir; [by apply show_files_ok|by apply Herr|by apply show_files_ok|by apply Herr].
Qed.

Lemma resume_ok n s : browser_ok s -> browser_ok (resume n s).
Proof.
  intros Hs. unfold resume. destruct (find_load n s) as [l|] eqn:Hf; [|done]. apply find_load_in in Hf as [Hin _].
  pose proof (ok_loads _ Hs) as Hls. rewrite Forall_forall in Hls. destruct (Hls l Hin) as [Hle Hr].
  destruct (negb _); [done|]. destruct (l_phase l) as [[[dir|]|] [[det|]|]| | |m] eqn:Hp; try done; try by apply load_failed_ok.
  by apply load_answered_ok.
Qed.

(** The load that [loadDirectory] starts. *)
Definition started_load (path : jstr) s : load :=
  let reuse := canReuseFormatDetails path s in
  {| l_seq := S (currentLoadSeq s); l_path := path; l_reuse := reuse; l_same := (lastDirectoryPath s =? path)%js;
     l_exited := (lastDirectoryPath s =? path)%js || reuse ||
                 match load_direction (lastDirectoryPath s) path with Backward => true | _ => false end;
     l_phase := Requests (if reuse then Some (Some Refused) else None)
                  (if has_repository path then if reuse then Some (Some (currentRepoDetails s)) else None else Some (Some None)) |}.

Lemma loadDirectory_fields path s :
  let s' := loadDirectory path s in
  currentLoadSeq s' = S (currentLoadSeq s) /\ loads s' = loads s ++ [started_load path s] /\
  panels s' = panels s /\ rows s' = rows s /\ fresh s' = fresh s /\ deletions s' = deletions s /\
  (currentRepoDetails s' = currentRepoDetails s /\ currentRepositoryName s' = currentRepositoryName s \/
   currentRepoDetails s' = None /\ currentRepositoryName s' = []) /\
  currentRepositoryFormat s' = currentRepositoryFormat s /\ prefs s' = prefs s.
Proof.
  cbv zeta. unfold loadDirectory, started_load, start_details. cbv zeta.
  change (currentRepoDetails (render_trail _ _)) with (currentRepoDetails s).
  destruct (has_repository path), (canReuseFormatDetails path s); split_and!; try done; auto.
Qed.

Lemma started_reuse_ok path s : browser_ok s -> reuse_ok (started_load path s).
Proof.
  intros [_ Hf Hn _ _]. unfold reuse_ok, started_load. cbn [l_reuse l_path l_phase]. split.
  - unfold canReuseFormatDetails. intros Hr.
    apply andb_true_iff in Hr as [[[Hv%bool_decide_eq_true Hne]%andb_true_iff Heq%bool_decide_eq_true]%andb_true_iff Hd%bool_decide_eq_true].
    split; [done|]. destruct Hv as [v Hv], Hd as [d Hd]. exists d, v. rewrite <- (Hf d Hd). split; [done|].
    assert (Hrep : has_repository path = true).
    { unfold has_repository. unfold repository_of in Heq, Hne. destruct (path_parts path) as [|p ps]; [done|]. cbn in Heq.
      apply negb_true_iff, bool_decide_eq_false. congruence. }
    rewrite Hrep. assert (Hc : canReuseFormatDetails path s = true).
    { unfold canReuseFormatDetails. rewrite Hv, Hd, Hne, Heq. rewrite !bool_decide_eq_true_2; [done|by eexists|done|by eexists]. }
    unfold canReuseFormatDetails in Hc. rewrite Hc, Hd. done.
  - by intros ->.
Qed.

Lemma loadDirectory_ok path s : browser_ok s -> browser_ok (loadDirectory path s).
Proof.
  intros Hs. destruct (loadDirectory_fields path s) as (Hseq & Hl & _ & Hr & Hfr & _ & Hd & Hf & _).
  pose proof (started_reuse_ok path s Hs) as Hst. destruct Hs as [H1 H2 H3 H4 H5]. constructor.
  - by rewrite Hr, Hfr.
  - intros d. rewrite Hf. destruct Hd as [[-> _]|[-> _]]; [apply H2|done].
  - destruct Hd as [[_ ->]|[_ ->]]; done.
  - rewrite Hl, map_app. apply NoDup_app. split_and!; [done| |apply NoDup_singleton].
    intros n (l & -> & Hin)%list_elem_of_fmap. cbn [map]. rewrite list_elem_of_singleton. rewrite Forall_forall in H5.
    destruct (H5 l Hin). cbn. lia.
  - rewrite Hl, Hseq. apply Forall_app. split; [|apply Forall_cons; split; [|done]].
    + eapply Forall_impl; [exact H5|]. intros l [? ?]. split; [lia|done].
    + split; [cbn; lia|done].
Qed.

Lemma prefs_ok p s : browser_ok s -> browser_ok (set_prefs p s).
Proof. intros [? ? ? ? ?]. by constructor. Qed.

Lemma browser_step_ok ev s : browser_ok s -> browser_ok (browser_step ev s).
Proof.
  intros Hs. pose proof (ok_rows _ Hs) as Hro. destruct ev; cbn [browser_step].
  - by apply loadDirectory_ok.
  - unfold navigateToPath. destruct (starts_with _ _); [|done]. apply loadDirectory_ok.
    apply (ok_act AppNavigationSent) in Hs. destruct Hs. by constructor.
  - by apply loadDirectory_ok, prefs_ok.
  - apply keeps_update; [apply directory_settled_keeps|done].
  - apply keeps_update; [apply details_settled_keeps|done].
  - apply keeps_update; [apply with_exit_keeps|done].
  - by apply resume_ok.
  - apply keeps_update; [apply error_text_keeps|done].
  - unfold engine_done. destruct (find_load n s) as [l|]; [|done]. destruct (l_phase l); auto.
  - apply keeps_update; [apply engine_failed_keeps|done].
  - case_bool_decide; [done|]. by apply ok_set_rows; [apply rows_ok_sub|].
  - apply ok_set_rows; [apply rows_ok_map; [|done]|done]. intros c. by destruct (_ =? _).
  - unfold file_deleted. case_bool_decide; [|by apply showEmpty_ok]. apply ok_set_rows; [apply rows_ok_map; [|done]|done].
    intros c. by destruct (_ =? _).
  - unfold deletion_ended. destruct (List.find _ _) as [[k path]|]; [|done]. apply showEmpty_ok, ok_set_rows; [by apply rows_ok_sub|done].
  - by apply ok_set_trail.
  - unfold handleRepositorySettingsChanged. case_bool_decide; [|done]. by apply ok_set_repository.
  - unfold handleBrowserLanguageChanged. cbv zeta.
    assert (H1 : browser_ok (set_language t s)) by (destruct Hs; by constructor).
    apply ok_act. destruct (empty_shown _); repeat apply ok_set_panels; by apply ok_set_trail.
Qed.

(** ** The latest load *)
Definition keeps_load (ev : browser_event) : bool :=
  match ev with
  | LoadRequested _ | Navigated _ _ | AdjustmentsChanged _ | FileDeleted _ _ | DeletionEnded _ => false
  | _ => true
  end.

Definition engine_shown (path : jstr) s : Prop :=
  panels s = (true, false, false, true) /\
  exists v d, getRepositoryBrowserEngine (format_of d) (Some path) = Some v /\ RenderEngine v path d ∈ actions s.

Definition list_panels s : Prop := panels s = (false, false, false, true).

(** What a load that has ended shows; [evs] are the events since it was started, [cs] the rows at that time. *)
Inductive shows (n : nat) (path : jstr) (same : bool) (cs : list item) (evs : list browser_event) s : Prop :=
| ShowsEngine : engine_shown path s -> EngineRendered n ∈ evs -> shows n path same cs evs s
| ShowsFiles files :
    DirectoryAnswered n (Some (Listed files)) ∈ evs -> list_panels s ->
    (let listed := applyAdjustments (displayHashFiles (prefs s)) (reversedFileOrder (prefs s)) files in
     (same = false -> map shown (visible_items (rows s)) = wanted 0 listed) /\
     (NoDup (map file_name listed) -> rows_found cs -> map shown (visible_items (rows s)) ≡ₚ wanted 0 listed)) ->
    shows n path same cs evs s
| ShowsEmpty files :
    DirectoryAnswered n (Some (Listed files)) ∈ evs ->
    applyAdjustments (displayHashFiles (prefs s)) (reversedFileOrder (prefs s)) files = [] ->
    panels s = (false, true, false, false) -> visible_items (rows s) = [] -> shows n path same cs evs s
| ShowsError :
    panels s = (false, false, true, false) -> visible_items (rows s) = [] ->
    (DirectoryAnswered n None ∈ evs \/ DetailsAnswered n None ∈ evs \/
     DirectoryAnswered n (Some Refused) ∈ evs \/ EngineFailed n ∈ evs \/
     exists files f, DirectoryAnswered n (Some (Listed files)) ∈ evs /\ f ∈ files /\ encodePathSegment (file_name f) = None) ->
    shows n path same cs evs s.

Section latest.
Context (s1 : browser) (l0 : load).

Definition unchanged s : Prop :=
  panels s = panels s1 /\ map shown (visible_items (rows s)) = map shown (visible_items (rows s1)) /\
  (rows_found (rows s1) -> rows_found (rows s)).

Definition phase_ok (evs : list browser_event) s (l : load) : Prop :=
  match l_phase l with
  | Requests dir det =>
    unchanged s /\ (forall r, dir = Some r -> l_reuse l = false -> DirectoryAnswered (l_seq l0) r ∈ evs) /\
    (det = Some None -> DetailsAnswered (l_seq l0) None ∈ evs)
  | AwaitErrorText => DirectoryAnswered (l_seq l0) (Some Refused) ∈ evs
  | AwaitEngine => engine_shown (l_path l0) s
  | Caught _ => DirectoryAnswered (l_seq l0) (Some Refused) ∈ evs \/ EngineFailed (l_seq l0) ∈ evs
  end.

Definition latest (evs : list browser_event) s : Prop :=
  browser_ok s /\ currentLoadSeq s = l_seq l0 /\
  match find_load (l_seq l0) s with
  | Some l => l_path l = l_path l0 /\ l_reuse l = l_reuse l0 /\ l_same l = l_same l0 /\ phase_ok evs s l
  | None => shows (l_seq l0) (l_path l0) (l_same l0) (rows s1) evs s
  end.

(** Steps that touch neither the panels nor the visible rows nor the load. *)
Lemma latest_quiet evs ev s s' :
  browser_ok s' -> currentLoadSeq s' = currentLoadSeq s -> find_load (l_seq l0) s' = find_load (l_seq l0) s ->
  panels s' = panels s -> prefs s' = prefs s ->
  map shown (visible_items (rows s')) = map shown (visible_items (rows s)) ->
  (rows_found (rows s) -> rows_found (rows s')) -> (forall a, a ∈ actions s -> a ∈ actions s') ->
  latest evs s -> latest (evs ++ [ev]) s'.
Proof.
  intros Hok Hc Hf Hp Hpr Hr Hrf Ha (_ & Hcur & Hl). split; [done|]. split; [congruence|]. rewrite Hf.
  assert (Hin : forall x, x ∈ evs -> x ∈ evs ++ [ev]) by (intros x Hx; apply elem_of_app; by left).
  assert (He : forall p, engine_shown p s -> engine_shown p s').
  { intros p [E (v & d & Hv & Hd)]. split; [congruence|]. exists v, d. auto. }
  assert (Hemp : visible_items (rows s) = [] -> visible_items (rows s') = []).
  { intros E. rewrite E in Hr. by apply map_eq_nil in Hr. }
  destruct (find_load _ s) as [l|].
  - destruct Hl as (H1 & H2 & H3 & H4). split_and!; try done. unfold phase_ok in *. destruct (l_phase l).
    + destruct H4 as [(U1 & U2 & U3) [D1 D2]]. split_and!; [split_and!; [congruence|congruence|auto]|auto|auto].
    + auto.
    + auto.
    + destruct H4; auto.
  - destruct Hl as [E1 E2|files F1 F2 F3|files F1 F2 F3 F4|E1 E2 E3].
    + apply ShowsEngine; auto.
    + apply (ShowsFiles _ _ _ _ _ _ files); [auto|unfold list_panels in *; congruence|]. cbv zeta in *. by rewrite Hpr, Hr.
    + apply (ShowsEmpty _ _ _ _ _ _ files); [auto|by rewrite Hpr|congruence|auto].
    + apply ShowsError; [congruence|auto|]. destruct E3 as [?|[?|[?|[?|(files & f & ? & ? & ?)]]]]; auto 10.
      right; right; right; right. exists files, f. auto.
Qed.

Lemma latest_update evs ev g s : keeps g ->
  (forall l, find_load (l_seq l0) s = Some l -> phase_ok evs s l -> phase_ok (evs ++ [ev]) s (g l)) ->
  latest evs s -> latest (evs ++ [ev]) (update_load (l_seq l0) g s).
Proof.
  intros Hg Hp HI. destruct (find_load (l_seq l0) s) as [l|] eqn:Hf.
  - destruct HI as (Hok & Hcur & Hl). rewrite Hf in Hl. destruct Hl as (H1 & H2 & H3 & H4).
    split; [by apply keeps_update|]. split; [done|]. rewrite find_update, Hf, Nat.eqb_refl by done. cbn.
    destruct (Hg l) as (_ & G1 & G2 & G3 & _). rewrite G1, G2, G3. split_and!; [done..|]. by apply (Hp l).
  - apply (latest_quiet evs ev s); [by apply keeps_update, HI|done| |done..]. by rewrite find_update, Hf.
Qed.

Lemma latest_other evs ev m g s : keeps g -> m <> l_seq l0 -> latest evs s -> latest (evs ++ [ev]) (update_load m g s).
Proof.
  intros Hg Hm HI. apply (latest_quiet evs ev s); [by apply keeps_update, HI|done| |done..].
  rewrite find_update by done. rewrite (proj2 (Nat.eqb_neq (l_seq l0) m)) by done. by destruct (find_load _ s).
Qed.

Lemma phase_ok_mono evs ev s l : phase_ok evs s l -> phase_ok (evs ++ [ev]) s l.
Proof.
  assert (Hin : forall x, x ∈ evs -> x ∈ evs ++ [ev]) by (intros x Hx; apply elem_of_app; by left).
  unfold phase_ok. destruct (l_phase l); [intros (? & ? & ?); split_and!; auto|auto|auto|intros [?|?]; auto].
Qed.

(** The panels and rows of an ended load. *)
Lemma load_failed_shows evs l m s : l_seq l = l_seq l0 -> browser_ok s -> currentLoadSeq s = l_seq l0 ->
  (DirectoryAnswered (l_seq l0) None ∈ evs \/ DetailsAnswered (l_seq l0) None ∈ evs \/
   DirectoryAnswered (l_seq l0) (Some Refused) ∈ evs \/ EngineFailed (l_seq l0) ∈ evs \/
   exists files f, DirectoryAnswered (l_seq l0) (Some (Listed files)) ∈ evs /\ f ∈ files /\ encodePathSegment (file_name f) = None) ->
  latest evs (load_failed l m s).
Proof.
  intros Hl Hok Hcur Hwhy. split; [by apply load_failed_ok|]. unfold load_failed. rewrite Hl.
  change (currentLoadSeq (end_load (l_seq l0) s)) with (currentLoadSeq s). rewrite Hcur, Nat.eqb_refl. split; [done|].
  match goal with |- context [find_load _ ?x] => assert (find_load (l_seq l0) x = None) as -> by apply find_filter_gone end.
  by apply ShowsError.
Qed.

Lemma find_set_load n l k s : l_seq l = n -> find_load n s = Some k -> find_load n (set_load l s) = Some l.
Proof.
  intros Hl. unfold find_load, set_load. cbn [set_loads loads]. induction (loads s) as [|j ls IH]; [done|]. cbn [map List.find].
  rewrite Hl. destruct (l_seq j =? n) eqn:E; [intros _; by rewrite Hl, Nat.eqb_refl|]. rewrite E. rewrite Hl in IH. done.
Qed.

Lemma unencodable (fs : list file) : ~ Forall (fun f => is_Some (encodePathSegment (file_name f))) fs ->
  exists f, f ∈ fs /\ encodePathSegment (file_name f) = None.
Proof.
  intros H. apply not_Forall_Exists in H; [|intros f; apply _]. apply Exists_exists in H as (f & Hf & Hn).
  exists f. split; [done|]. by apply eq_None_not_Some.
Qed.

Lemma adjusted_in d r files f : f ∈ applyAdjustments d r files -> f ∈ files.
Proof. unfold applyAdjustments. rewrite (array_sort_perm _ _). by intros [Hf _]%elem_of_Lfilter. Qed.

Lemma show_files_shows evs l files s :
  l_seq l = l_seq l0 -> l_same l = l_same l0 -> browser_ok s -> currentLoadSeq s = l_seq l0 -> list_hidden s = false ->
  (rows_found (rows s1) -> rows_found (rows s)) -> DirectoryAnswered (l_seq l0) (Some (Listed files)) ∈ evs ->
  latest evs (show_files l files s).
Proof.
  intros Hl Hsame Hok Hcur Hh Hrf Hin. pose proof (show_files_ok l files s Hok) as Hok'. revert Hok'. unfold show_files. cbv zeta.
  set (listed := applyAdjustments _ _ _). set (s2 := setStateVisibility false false s).
  assert (H2 : browser_ok s2) by by apply ok_set_panels.
  destruct listed as [|f fs] eqn:El.
  - intros Hok'. split; [done|]. split; [done|]. rewrite Hl.
    match goal with |- context [find_load _ ?x] => assert (find_load (l_seq l0) x = None) as -> by apply find_filter_gone end.
    apply (ShowsEmpty _ _ _ _ _ _ files); [done|exact El| |done]. unfold panels. cbn. by rewrite Hh.
  - set (out := if l_same l && _ then _ else _). destruct out as [[cs n]|] eqn:Eo; intros Hok'.
    + split; [done|]. split; [done|]. rewrite Hl.
      match goal with |- context [find_load _ ?x] => assert (find_load (l_seq l0) x = None) as -> by apply find_filter_gone end.
      apply (ShowsFiles _ _ _ _ _ _ files); [done|unfold list_panels, panels; cbn; by rewrite Hh|]. cbv zeta.
      change (applyAdjustments _ _ _) with listed. rewrite El. cbn [rows end_load set_loads set_rows].
      unfold out in Eo. rewrite Hsame in Eo. split.
      * intros Hs. rewrite Hs in Eo. cbn [andb] in Eo. by apply replaced_list_shows in Eo.
      * intros Hnd Hfound. destruct (l_same l0 && _); [|apply replaced_list_shows in Eo; cbn [fst] in Eo; by rewrite Eo].
        by destruct (reconciled_rows _ _ _ _ _ (ok_rows _ H2) (Hrf Hfound) Hnd Eo).
    + apply load_failed_shows; [done|done|done|]. right; right; right; right.
      destruct (unencodable (f :: fs)) as (g & Hg & He).
      { intros Htot. unfold out in Eo. destruct (l_same l && _).
        - destruct (place_items_total (existingMap (rows s2)) (l_path l) 0 (f :: fs)
                      (mark_removed (existingMap (rows s2)) (map file_name (f :: fs)) (rows s2), fresh s2) Htot) as [w Hw].
          unfold renderFileListReconciled in Eo. congruence.
        - destruct (append_items_total (l_path l) (f :: fs) 0 ([], fresh s2) Htot) as [w Hw]. unfold replace_list in Eo. congruence. }
      exists files, g. split_and!; [done| |done]. rewrite <- El in Hg. by apply adjusted_in in Hg.
Qed.

Lemma load_answered_shows evs l dir details s :
  find_load (l_seq l0) s = Some l -> l_path l = l_path l0 -> l_reuse l = l_reuse l0 -> l_same l = l_same l0 ->
  l_phase l = Requests (Some (Some dir)) (Some (Some details)) -> reuse_ok l -> browser_ok s -> currentLoadSeq s = l_seq l0 ->
  (rows_found (rows s1) -> rows_found (rows s)) ->
  (l_reuse l = false -> DirectoryAnswered (l_seq l0) (Some dir) ∈ evs) ->
  latest evs (load_answered l dir details s).
Proof.
  intros Hf Hpath Hreuse Hsame Hph Hr Hok Hcur Hrf Hin. destruct (find_load_in _ _ _ Hf) as [Hls Hseq].
  assert (Hle : l_seq l <= currentLoadSeq s) by lia.
  pose proof (load_answered_ok l dir details s Hle Hr Hph Hok) as Hok'. revert Hok'.
  unfold load_answered. rewrite Hseq, Hcur, Nat.eqb_refl. cbn [negb]. destruct (enter_repository l details s) as [ev s2] eqn:E.
  destruct (enter_repository_spec _ _ _ _ _ _ Hr Hph Hok E) as (H2 & Hcur2 & Hl2 & Hr2 & _ & Hh2 & Hv & Hre).
  assert (Hf2 : find_load (l_seq l0) s2 = Some l) by (unfold find_load; by rewrite Hl2).
  assert (Herr : l_reuse l = false -> dir = Refused -> browser_ok (set_load (with_phase AwaitErrorText l) (act LocalizeError s2)) ->
                 latest evs (set_load (with_phase AwaitErrorText l) (act LocalizeError s2))).
  { intros Hno -> Hok'. split; [done|]. split; [change (currentLoadSeq s2 = l_seq l0); congruence|].
    rewrite (find_set_load _ (with_phase AwaitErrorText l) l (act LocalizeError s2) Hseq Hf2). split_and!; try done. cbn. by apply Hin. }
  assert (Hfiles : l_reuse l = false -> ev = None -> forall files, dir = Listed files -> latest evs (show_files l files s2)).
  { intros Hno -> files ->. apply show_files_shows; try done; [congruence|by rewrite Hr2|by apply Hin]. }
  destruct ev as [v|].
  - destruct (Hv v eq_refl) as (d & -> & Hd). intros Hok'. split; [done|]. split; [change (currentLoadSeq s2 = l_seq l0); congruence|].
    rewrite (find_set_load _ (with_phase AwaitEngine l) l _ Hseq) by exact Hf2. split_and!; try done. cbn. split.
    + unfold panels. cbn. by rewrite Hh2.
    + exists v, d. rewrite Hpath in Hd |- *. split; [done|]. apply list_elem_of_here.
  - destruct (l_reuse l); [by destruct (Hre eq_refl)|]. destruct details, dir; intros Hok'; eauto.
Qed.

Lemma resume_latest evs n s : latest evs s -> latest (evs ++ [Resumed n]) (resume n s).
Proof.
  intros HI. destruct (decide (n = l_seq l0)) as [->|Hn].
  - pose proof (resume_ok (l_seq l0) s (proj1 HI)) as Hok'. revert Hok'. destruct HI as (Hok & Hcur & Hl). unfold resume.
    destruct (find_load (l_seq l0) s) as [l|] eqn:Hf.
    2:{ intros _. apply (latest_quiet evs _ s); try done. split_and!; [done|done|by rewrite Hf]. }
    destruct (find_load_in _ _ _ Hf) as [Hls Hseq]. destruct Hl as (H1 & H2 & H3 & H4).
    pose proof (ok_loads _ Hok) as Hlo. rewrite Forall_forall in Hlo. destruct (Hlo l Hls) as [_ Hr].
    assert (Hquiet : latest (evs ++ [Resumed (l_seq l0)]) s).
    { apply (latest_quiet evs _ s); try done. split_and!; [done|done|by rewrite Hf]. }
    assert (Hin : forall x, x ∈ evs -> x ∈ evs ++ [Resumed (l_seq l0)]) by (intros x Hx; apply elem_of_app; by left).
    assert (Hdir : forall det, l_phase l = Requests (Some None) det -> l_reuse l = false).
    { intros det Hp. apply not_true_is_false. intros Hre. destruct (proj1 Hr Hre) as (_ & d & v & _ & Hph). rewrite Hp in Hph.
      by destruct Hph. }
    destruct (l_exited l); cbn [negb]; [|done]. unfold phase_ok in H4. intros _.
    destruct (l_phase l) as [[[dir|]|] [[det|]|]| | |m] eqn:Hp; try done.
    + apply load_answered_shows; try done; [by apply H4|]. intros Hno. apply Hin. destruct H4 as (_ & H4 & _). by apply H4.
    + apply load_failed_shows; try done. right. left. apply Hin. destruct H4 as (_ & _ & H4). by apply H4.
    + apply load_failed_shows; try done. left. apply Hin. destruct H4 as (_ & H4 & _). apply H4; [done|by eapply Hdir].
    + apply load_failed_shows; try done. left. apply Hin. destruct H4 as (_ & H4 & _). apply H4; [done|by eapply Hdir].
    + apply load_failed_shows; try done. left. apply Hin. destruct H4 as (_ & H4 & _). apply H4; [done|by eapply Hdir].
    + apply load_failed_shows; try done. right. left. apply Hin. destruct H4 as (_ & _ & H4). by apply H4.
    + apply load_failed_shows; try done. destruct H4; auto 10.
  - unfold resume. destruct (find_load n s) as [l|] eqn:Hf; [|by apply (latest_quiet evs _ s); try done; apply HI].
    destruct (find_load_in _ _ _ Hf) as [_ Hseq]. pose proof HI as (Hok & Hcur & _).
    assert (Hstale : (l_seq l =? currentLoadSeq s) = false) by (apply Nat.eqb_neq; lia).
    assert (Hend : latest (evs ++ [Resumed n]) (end_load n s)).
    { apply (latest_quiet evs _ s); try done; [by apply end_load_ok|]. by apply find_filter. }
    assert (Hfail : forall m, load_failed l m s = end_load n s).
    { intros m. unfold load_failed. rewrite Hseq in *. change (currentLoadSeq (end_load n s)) with (currentLoadSeq s). by rewrite Hstale. }
    assert (Hans : forall dir det, load_answered l dir det s = end_load n s).
    { intros dir det. unfold load_answered. by rewrite Hstale, Hseq. }
    assert (Hquiet : latest (evs ++ [Resumed n]) s) by (apply (latest_quiet evs _ s); done).
    destruct (negb _); [done|]. destruct (l_phase l) as [[[dir|]|] [[det|]|]| | |m]; rewrite ?Hfail, ?Hans; done.
Qed.

Lemma phase_step evs ev g s :
  (forall l, phase_ok evs s l -> l_seq l = l_seq l0 -> reuse_ok l -> phase_ok (evs ++ [ev]) s (g l)) ->
  keeps g -> latest evs s -> latest (evs ++ [ev]) (update_load (l_seq l0) g s).
Proof.
  intros Hp Hg HI. apply latest_update; [done| |done]. intros l Hf Hl. destruct (find_load_in _ _ _ Hf) as [Hin Hseq].
  apply Hp; [done..|]. destruct HI as (Hok & _). pose proof (ok_loads _ Hok) as Hls. rewrite Forall_forall in Hls. by apply Hls.
Qed.

Lemma newest_step evs ev s : keeps_load ev = true -> latest evs s -> latest (evs ++ [ev]) (browser_step ev s).
Proof.
  intros Hk HI. pose proof (browser_step_ok ev s (proj1 HI)) as Hok'.
  assert (Hlast : forall x, x = ev -> x ∈ evs ++ [ev]) by (intros x ->; apply elem_of_app; right; apply list_elem_of_here).
  assert (Hnum : forall m g, keeps g -> (m = l_seq l0 -> forall l, phase_ok evs s l -> l_seq l = l_seq l0 -> reuse_ok l -> phase_ok (evs ++ [ev]) s (g l)) ->
                 latest (evs ++ [ev]) (update_load m g s)).
  { intros m g Hg Hp. destruct (decide (m = l_seq l0)) as [->|Hm]; [apply phase_step; auto|by apply latest_other]. }
  destruct ev as [|?|?|m r|m r|m|m|m text|m|m|node|node|?|?|uev|repository|t]; try done; cbn [browser_step] in *.
  - apply Hnum; [apply directory_settled_keeps|]. intros -> l Hl _ Hr. apply (phase_ok_mono _ (DirectoryAnswered (l_seq l0) r)) in Hl. revert Hl.
    unfold phase_ok, directory_settled. destruct (l_phase l) as [d e| | |x] eqn:Ep; cbn [l_phase with_phase]; rewrite ?Ep; try done.
    intros (Hu & Hd & He). split_and!; [done| |done]. intros r' Hr' Hno. destruct d as [r0|]; [by apply Hd|].
    injection Hr' as ->. by apply Hlast.
  - apply Hnum; [apply details_settled_keeps|]. intros -> l Hl _ Hr. apply (phase_ok_mono _ (DetailsAnswered (l_seq l0) r)) in Hl. revert Hl.
    unfold phase_ok, details_settled. destruct (l_phase l) as [d e| | |x] eqn:Ep; cbn [l_phase with_phase]; rewrite ?Ep; try done.
    intros (Hu & Hd & He). split_and!; [done|done|]. intros He'. destruct e as [e0|]; [by apply He|].
    injection He' as ->. by apply Hlast.
  - apply Hnum; [apply with_exit_keeps|]. intros -> l Hl _ _. by apply (phase_ok_mono _ (ExitEnded (l_seq l0))) in Hl.
  - by apply resume_latest.
  - apply Hnum; [apply error_text_keeps|]. intros -> l Hl _ _. apply (phase_ok_mono _ (ErrorTextReady (l_seq l0) text)) in Hl. revert Hl.
    unfold phase_ok, error_text_ready. destruct (l_phase l) as [d e| | |x] eqn:Ep; cbn [l_phase with_phase]; rewrite ?Ep; auto.
  - unfold engine_done in *. destruct (find_load m s) as [l|] eqn:Hf; [|by apply (latest_quiet evs _ s)].
    destruct (l_phase l) as [d e| | |x] eqn:Ep; try by apply (latest_quiet evs _ s).
    destruct (decide (m = l_seq l0)) as [->|Hm].
    + destruct HI as (Hok & Hcur & Hl). rewrite Hf in Hl. destruct Hl as (_ & _ & _ & H4). unfold phase_ok in H4. rewrite Ep in H4.
      split; [done|]. split; [done|].
      assert (find_load (l_seq l0) (end_load (l_seq l0) s) = None) as -> by apply find_filter_gone.
      apply ShowsEngine; [done|by apply Hlast].
    + apply (latest_quiet evs _ s); try done. by apply find_filter.
  - apply Hnum; [apply engine_failed_keeps|]. intros -> l Hl _ _. apply (phase_ok_mono _ (EngineFailed (l_seq l0))) in Hl. revert Hl.
    unfold phase_ok, engine_failed. destruct (l_phase l) as [d e| | |x] eqn:Ep; cbn [l_phase with_phase]; rewrite ?Ep; try done.
    intros _. right. by apply Hlast.
  - case_bool_decide; [by apply (latest_quiet evs _ s)|].
    assert (Hsub : forall c, staying c = true -> staying c || negb (i_node c =? node) = true) by by intros c ->.
    apply (latest_quiet evs _ s); try done; cbn [rows set_rows]; unfold row_left.
    + by rewrite visible_filter.
    + by apply rows_found_filter.
  - apply (latest_quiet evs _ s); try done; cbn [rows set_rows]; unfold settle_added.
    + rewrite visible_map by (intros c; by destruct (_ =? _)). rewrite map_map. apply map_ext. intros c. by destruct (_ =? _).
    + apply rows_found_map. intros c. by destruct (_ =? _).
  - by apply (latest_quiet evs _ s).
  - unfold handleRepositorySettingsChanged in *. case_bool_decide; by apply (latest_quiet evs _ s).
  - unfold handleBrowserLanguageChanged in *. cbv zeta in *.
    destruct (empty_shown _) eqn:E; apply (latest_quiet evs _ s); try done; intros a Ha; by apply list_elem_of_further.
Qed.
End latest.

Lemma find_started path s : browser_ok s ->
  find_load (S (currentLoadSeq s)) (loadDirectory path s) = Some (started_load path s).
Proof.
  intros Hok. destruct (loadDirectory_fields path s) as (_ & Hl & _). unfold find_load. rewrite Hl.
  pose proof (ok_loads _ Hok) as Hls. clear Hl. induction Hls as [|l ls [Hle _] Hls IH]; cbn [app List.find].
  - cbn [l_seq started_load]. by rewrite Nat.eqb_refl.
  - by rewrite (proj2 (Nat.eqb_neq (l_seq l) (S (currentLoadSeq s)))) by lia.
Qed.

Lemma latest_started path s : browser_ok s -> latest (loadDirectory path s) (started_load path s) [] (loadDirectory path s).
Proof.
  intros Hok. destruct (loadDirectory_fields path s) as (Hseq & _). split; [by apply loadDirectory_ok|]. split; [done|].
  rewrite (find_started path s Hok : find_load (l_seq (started_load path s)) _ = _). split_and!; try done.
  unfold phase_ok. cbn [l_phase started_load l_reuse]. split_and!; [done| |].
  - intros r Hr Hno. by rewrite Hno in Hr.
  - destruct (has_repository path), (canReuseFormatDetails path s); done.
Qed.

(** *** Loads get ahead *)
(** A property of load [n], once true, stays true when no step takes it from the load. *)
Definition got (n : nat) (P : load -> Prop) s : Prop := forall l, find_load n s = Some l -> P l.

Definition lasting (P : load -> Prop) : Prop :=
  forall l, P l -> P (with_exit l) /\ (forall r, P (directory_settled r l)) /\ (forall r, P (details_settled r l)) /\
    (forall t, P (error_text_ready t l)) /\ P (engine_failed l) /\ P (with_phase AwaitEngine l) /\ P (with_phase AwaitErrorText l).

Definition past_requests (l : load) : Prop := match l_phase l with Requests _ _ => False | _ => True end.
Definition has_directory (l : load) : Prop := match l_phase l with Requests d _ => is_Some d | _ => True end.
Definition has_details (l : load) : Prop := match l_phase l with Requests _ e => is_Some e | _ => True end.

Lemma lasting_phases : lasting past_requests /\ lasting has_directory /\ lasting has_details /\ lasting (fun l => l_exited l = true).
Proof.
  unfold lasting, past_requests, has_directory, has_details, directory_settled, details_settled, error_text_ready, engine_failed.
  split_and!; intros l Hl; destruct (l_phase l) as [d e| | |m] eqn:E; cbn; rewrite ?E; split_and!; try done; intros r;
    destruct d, e; cbn; try done; by eexists.
Qed.

Lemma got_update n m P g s : (forall l, l_seq (g l) = l_seq l) -> (forall l, P l -> P (g l)) -> got n P s -> got n P (update_load m g s).
Proof.
  intros Hs Hg HP l. unfold find_load, update_load. cbn [set_loads loads]. rewrite find_map by done. unfold got, find_load in HP.
  destruct (List.find _ (loads s)) as [k|]; [|done]. cbn. intros [= <-]. destruct (n =? m); [apply Hg|]; by apply HP.
Qed.

Lemma got_end n m P s : got n P s -> got n P (end_load m s).
Proof.
  intros HP l Hl. destruct (decide (n = m)) as [->|Hne].
  - assert (find_load m (end_load m s) = None) as E by apply find_filter_gone. congruence.
  - apply HP. rewrite <- Hl. symmetry. by apply find_filter.
Qed.

Lemma got_loads n P s s' : loads s' = loads s -> got n P s -> got n P s'.
Proof. intros E HP l. unfold find_load. rewrite E. apply HP. Qed.

Lemma got_set_load n P k s : got n P s -> (n = l_seq k -> P k) -> got n P (set_load k s).
Proof.
  intros HP Hk l Hl. destruct (decide (n = l_seq k)) as [->|Hne].
  - destruct (find_load (l_seq k) s) as [j|] eqn:E; [|].
    + rewrite (find_set_load (l_seq k) k j s eq_refl E) in Hl. injection Hl as <-. by apply Hk.
    + apply List.find_some in Hl as [Hin Heq]. cbn [loads set_load set_loads] in Hin. apply in_map_iff in Hin as (j & Hj & Hin).
      destruct (l_seq j =? l_seq k) eqn:Ej; [|subst; unfold find_load in E; apply (List.find_none _ _ E) in Hin; congruence].
      apply (List.find_none _ _ E) in Hin. congruence.
  - apply HP. unfold find_load, set_load in *. cbn [set_loads loads] in Hl. revert Hl. induction (loads s) as [|j ls IH]; [done|].
    cbn [map List.find]. destruct (l_seq j =? l_seq k) eqn:Ej.
    + rewrite (proj2 (Nat.eqb_neq (l_seq k) n)) by lia. apply Nat.eqb_eq in Ej. by rewrite (proj2 (Nat.eqb_neq (l_seq j) n)) by lia.
    + destruct (l_seq j =? n); [done|apply IH].
Qed.
Lemma got_failed n P l m s : got n P s -> got n P (load_failed l m s).
Proof.
  intros HP. apply (got_loads n P (end_load (l_seq l) s)); [|by apply got_end].
  unfold load_failed. cbv zeta. by destruct (_ =? _).
Qed.

Lemma got_files n P l files s : got n P s -> got n P (show_files l files s).
Proof.
  intros HP. unfold show_files. cbv zeta. destruct (applyAdjustments _ _ _) as [|f fs].
  - apply (got_loads n P (end_load (l_seq l) s)); [done|by apply got_end].
  - destruct (if l_same l && _ then _ else _) as [[cs k]|].
    + apply (got_loads n P (end_load (l_seq l) s)); [done|by apply got_end].
    + apply got_failed. by apply (got_loads n P s).
Qed.

Lemma got_answered n P l dir details s : lasting P -> P l -> got n P s -> got n P (load_answered l dir details s).
Proof.
  intros HL Hl HP. destruct (HL l Hl) as (_ & _ & _ & _ & _ & Heng & Herr). unfold load_answered.
  destruct (negb _); [by apply got_end|]. destruct (enter_repository l details s) as [ev s2] eqn:E.
  assert (H2 : got n P s2). { apply (got_loads n P s); [|done]. unfold enter_repository in E. by injection E as _ <-. }
  assert (Ht : got n P (set_load (with_phase AwaitErrorText l) (act LocalizeError s2))) by (apply got_set_load; [by apply (got_loads n P s2)|done]).
  assert (Hv : forall v d, got n P (set_load (with_phase AwaitEngine l) (act (RenderEngine v (l_path l) d) (setStateVisibility false false s2)))).
  { intros v d. apply got_set_load; [by apply (got_loads n P s2)|done]. }
  assert (Hs : forall files, got n P (show_files l files s2)) by (intros; by apply got_files).
  destruct ev, details, (l_reuse l), dir; auto.
Qed.

Lemma got_resume n m P s : lasting P -> got n P s -> (n <> m -> forall l, find_load m s = Some l -> l_seq l <> currentLoadSeq s) ->
  got n P (resume m s).
Proof.
  intros HL HP Hm. unfold resume. destruct (find_load m s) as [l|] eqn:Hf; [|done]. destruct (negb _); [done|].
  destruct (l_phase l) as [[[dir|]|] [[det|]|]| | |x]; try done; try by apply got_failed.
  destruct (decide (n = m)) as [->|Hne]; [apply got_answered; auto|].
  unfold load_answered. rewrite (proj2 (Nat.eqb_neq (l_seq l) (currentLoadSeq s))) by by apply Hm. by apply got_end.
Qed.

Lemma got_step n P ev s : lasting P -> keeps_load ev = true -> currentLoadSeq s = n -> got n P s -> got n P (browser_step ev s).
Proof.
  intros HL Hk Hcur HP. destruct ev; try done; cbn [browser_step].
  - apply got_update; [intros l; apply directory_settled_keeps|intros l Hl; by apply HL|done].
  - apply got_update; [intros l; apply details_settled_keeps|intros l Hl; by apply HL|done].
  - apply got_update; [done|intros l Hl; by apply HL|done].
  - apply got_resume; [done..|]. intros Hne l [_ E]%find_load_in. congruence.
  - apply got_update; [intros l; apply error_text_keeps|intros l Hl; by apply HL|done].
  - unfold engine_done. destruct (find_load n0 s) as [l|]; [|done]. destruct (l_phase l); try done. by apply got_end.
  - apply got_update; [intros l; apply engine_failed_keeps|intros l Hl; by apply HL|done].
  - apply (got_loads n P s); [by case_bool_decide|done].
  - apply (got_loads n P s); [|done]. unfold handleRepositorySettingsChanged. by case_bool_decide.
  - apply (got_loads n P s); [|done]. unfold handleBrowserLanguageChanged. cbv zeta. by destruct (empty_shown _).
Qed.

Definition answered (n : nat) (evs : list browser_event) : Prop :=
  (exists r, DirectoryAnswered n r ∈ evs) /\ (exists r, DetailsAnswered n r ∈ evs) /\ ExitEnded n ∈ evs.

Lemma failed_gone l m s : find_load (l_seq l) (load_failed l m s) = None.
Proof.
  transitivity (find_load (l_seq l) (end_load (l_seq l) s)); [|apply find_filter_gone]. unfold load_failed, find_load. cbv zeta.
  by destruct (_ =? _).
Qed.

Lemma files_gone l files s : find_load (l_seq l) (show_files l files s) = None.
Proof.
  unfold show_files. cbv zeta. destruct (applyAdjustments _ _ _) as [|f fs]; [apply find_filter_gone|].
  destruct (if l_same l && _ then _ else _) as [[cs k]|]; [apply find_filter_gone|apply failed_gone].
Qed.

Lemma answered_past l dir details s : find_load (l_seq l) s = Some l -> got (l_seq l) past_requests (load_answered l dir details s).
Proof.
  intros Hf. assert (Hgone : forall s', find_load (l_seq l) s' = None -> got (l_seq l) past_requests s') by (intros s' E k Hk; congruence).
  assert (Hset : forall p s', (match p with Requests _ _ => False | _ => True end) -> find_load (l_seq l) s' = Some l ->
                 got (l_seq l) past_requests (set_load (with_phase p l) s')).
  { intros p s' Hp Hs' k. rewrite (find_set_load (l_seq l) (with_phase p l) l s' eq_refl Hs'). intros [= <-]. by destruct p. }
  unfold load_answered. destruct (negb _); [apply Hgone, find_filter_gone|]. destruct (enter_repository l details s) as [ev s2] eqn:E.
  assert (Hf2 : find_load (l_seq l) s2 = Some l). { unfold enter_repository in E. by injection E as _ <-. }
  destruct ev, details, (l_reuse l), dir; try (by apply Hset); apply Hgone, files_gone.
Qed.

(** The continuation of a load whose answers are in. *)
Lemma resume_past n s : got n has_directory s -> got n has_details s -> got n (fun l => l_exited l = true) s ->
  got n past_requests (resume n s).
Proof.
  intros Hd He Hx. unfold resume. destruct (find_load n s) as [l|] eqn:Hf; [|intros l Hl; congruence].
  specialize (Hd l Hf). specialize (He l Hf). rewrite (Hx l Hf). cbn [negb]. unfold has_directory, has_details in *.
  destruct (find_load_in _ _ _ Hf) as [_ <-].
  assert (Hfail : forall m, got (l_seq l) past_requests (load_failed l m s)).
  { intros m k Hk. by rewrite failed_gone in Hk. }
  assert (Hpast : past_requests l -> got (l_seq l) past_requests s) by (intros Hp k Hk; congruence).
  destruct (l_phase l) as [[[dir|]|] [[det|]|]| | |x] eqn:Ep; try done; try (by destruct Hd); try (by destruct He);
    try (by apply Hpast; unfold past_requests; rewrite Ep). by apply answered_past.
Qed.

Lemma latest_seq s1 l0 evs s : latest s1 l0 evs s -> currentLoadSeq s = l_seq l0.
Proof. by intros (_ & H & _). Qed.
Lemma newest_run path s evs : browser_ok s -> forallb keeps_load evs = true ->
  latest (loadDirectory path s) (started_load path s) evs (browser_run evs (loadDirectory path s)).
Proof.
  intros Hok Hev. unfold browser_run. induction evs as [|ev evs IH] using rev_ind; [by apply latest_started|].
  rewrite forallb_app in Hev. apply andb_true_iff in Hev as [Hev He]. cbn in He. rewrite andb_true_r in He.
  rewrite run_app. apply newest_step; [done|by apply IH].
Qed.

Lemma got_run path s P evs evs' : browser_ok s -> forallb keeps_load (evs ++ evs') = true -> lasting P ->
  got (S (currentLoadSeq s)) P (browser_run evs (loadDirectory path s)) ->
  got (S (currentLoadSeq s)) P (browser_run (evs ++ evs') (loadDirectory path s)).
Proof.
  intros Hok. induction evs' as [|ev evs' IH] using rev_ind; [by rewrite app_nil_r|]. intros Hev HL HP.
  rewrite (assoc_L (++)) in *. rewrite forallb_app in Hev. apply andb_true_iff in Hev as [Hev He]. cbn in He. rewrite andb_true_r in He.
  unfold browser_run in *. rewrite run_app. apply got_step; [done|done| |by apply IH].
  apply (latest_seq _ _ _ _ (newest_run path s (evs ++ evs') Hok Hev)).
Qed.

(** A load gets past its requests when it is resumed with its answers. *)
Lemma answered_run path s e1 e2 : browser_ok s -> let n := S (currentLoadSeq s) in
  forallb keeps_load (e1 ++ Resumed n :: e2) = true -> answered n e1 ->
  got n past_requests (browser_run (e1 ++ Resumed n :: e2) (loadDirectory path s)).
Proof.
  intros Hok n Hev ([r1 H1] & [r2 H2] & H3). destruct lasting_phases as (L1 & L2 & L3 & L4).
  assert (Hkeep : forall ev, ev ∈ e1 -> forall P, lasting P ->
            (forall s', got n P (browser_step ev s')) -> got n P (browser_run e1 (loadDirectory path s))).
  { intros ev (a & b & ->)%list_elem_of_split P HL Hstep. rewrite <- (assoc_L (++)) in Hev.
    change (a ++ ev :: b) with (a ++ [ev] ++ b). rewrite (assoc_L (++)). apply got_run; [done| |done|].
    - rewrite !forallb_app in Hev |- *. cbn [forallb app] in Hev |- *. rewrite ?forallb_app in Hev. cbn [forallb] in Hev.
      by destruct (forallb keeps_load a), (keeps_load ev), (forallb keeps_load b).
    - unfold browser_run. rewrite run_app. apply Hstep. }
  change (e1 ++ Resumed n :: e2) with (e1 ++ [Resumed n] ++ e2) in *. rewrite (assoc_L (++)) in *.
  apply got_run; [done..|]. unfold browser_run. rewrite run_app. cbn [fold_left browser_step].
  apply resume_past.
  - apply (Hkeep _ H1 has_directory L2). intros s'. cbn [browser_step]. intros l. rewrite find_update by apply directory_settled_keeps.
    rewrite Nat.eqb_refl. destruct (find_load n s') as [k|]; [|done]. intros [= <-]. unfold has_directory, directory_settled.
    destruct (l_phase k) as [[d|] e| | |x] eqn:E; cbn; rewrite ?E; done.
  - apply (Hkeep _ H2 has_details L3). intros s'. cbn [browser_step]. intros l. rewrite find_update by apply details_settled_keeps.
    rewrite Nat.eqb_refl. destruct (find_load n s') as [k|]; [|done]. intros [= <-]. unfold has_details, details_settled.
    destruct (l_phase k) as [d [e|]| | |x] eqn:E; cbn; rewrite ?E; done.
  - apply (Hkeep _ H3 _ L4). intros s'. cbn [browser_step]. intros l. rewrite find_update by apply with_exit_keeps.
    rewrite Nat.eqb_refl. destruct (find_load n s') as [k|]; [|done]. by intros [= <-].
Qed.

(** C11: a load starts, and until the end of the run no other one starts, no local adjustment changes and no file is
    deleted (the end of a deletion can hide an error panel, see [deletion_hides_error]).  Then, whatever order the
    answers to it and to the overlapping older loads come in, what is shown belongs to the latest one: until its
    answers are in, the list is what it was, and once they are in and it resumes, it is past its requests; a load that has ended shows the engine's view it rendered, its adjusted
    files - exactly, or up to their order when the list was updated in place -, the empty state when it has none, or
    the error when a request or the engine failed or was refused. *)
Theorem latest_load_shown path s evs :
  browser_ok s -> forallb keeps_load evs = true ->
  let n := S (currentLoadSeq s) in
  let s' := browser_run evs (loadDirectory path s) in
  match find_load n s' with
  | Some l =>
    match l_phase l with
    | Requests _ _ => unchanged s s'
    | AwaitEngine => engine_shown path s'
    | AwaitErrorText => DirectoryAnswered n (Some Refused) ∈ evs
    | Caught _ => DirectoryAnswered n (Some Refused) ∈ evs \/ EngineFailed n ∈ evs
    end
  | None => shows n path (lastDirectoryPath s =? path)%js (rows s) evs s'
  end /\
  (forall e1 e2 l, evs = e1 ++ Resumed n :: e2 -> answered n e1 -> find_load n s' = Some l -> past_requests l).
Proof.
  intros Hok Hev n s'. split.
  - pose proof (newest_run path s evs Hok Hev) as (_ & _ & HI). fold s' in HI. destruct (loadDirectory_fields path s) as (_ & _ & Hp & Hr & _).
    cbn [l_seq started_load] in HI. fold n in HI. destruct (find_load n s') as [l|].
    + destruct HI as (_ & _ & _ & HI). unfold phase_ok in HI. cbn [l_seq l_path started_load] in HI. fold n in HI.
      destruct (l_phase l); [|done..]. destruct HI as [HI _]. unfold unchanged in *. by rewrite Hp, Hr in HI.
    + by rewrite Hr in HI.
  - intros e1 e2 l Ee Ha. unfold s'. rewrite Ee in Hev |- *. by apply answered_run.
Qed.
End browser.

(** ** A concrete browser *)
Section example.
#[local] Instance example_case : UnicodeCase := latin_case.
#[local] Existing Instance unit_collation.

(** Details are formats. *)
Definition known_format (d : jstr) : option jstr := Some d.

Definition start_browser : @browser jstr :=
  {| currentLoadSeq := 0; lastDirectoryPath := []; currentRepositoryFormat := js "maven"; currentRepoDetails := None;
     currentRepositoryName := []; prefs := {| reversedFileOrder := false; displayHashFiles := true |}; entries := [js "/"];
     trail := {| links := []; upDirBtn := {| up_hidden := true; is_visible := false; is_hiding := false; up_href := [];
                                             hide_timers := 0; hide_listeners := 0; show_frames := 0 |} |};
     translate := fun k => k; list_hidden := false; empty_shown := false; error_shown := false; rows_shown := true;
     empty_key := js "browser.emptyState"; error_text := []; rows := []; fresh := 0; deletions := []; loads := []; actions := [] |}.

Definition one_file : directory_answer := Listed (sample_listing [js "a.txt"]).

(** The first directory answers after the second. *)
Definition overlapping : list (@browser_event jstr) :=
  [DirectoryAnswered 2 (Some (Listed (sample_listing [js "c.txt"; js "b.txt"]))); DetailsAnswered 2 (Some (Some (js "files")));
   ExitEnded 2; Resumed 2; DirectoryAnswered 1 (Some one_file); DetailsAnswered 1 (Some (Some (js "files"))); ExitEnded 1; Resumed 1].

Lemma start_browser_ok : browser_ok known_format (browser_step known_format (LoadRequested (js "/files/a/")) start_browser).
Proof.
  apply browser_step_ok. constructor; [split; [apply NoDup_nil_2|by intros c Hc%not_elem_of_nil]|done|done|apply NoDup_nil_2|done].
Qed.

Lemma latest_load_shown_witness :
  let s := browser_step known_format (LoadRequested (js "/files/a/")) start_browser in
  let s' := browser_run known_format overlapping (loadDirectory (js "/files/b/") s) in
  map i_name (visible_items (rows s')) = [js "b.txt"; js "c.txt"] /\
  match find_load 2 s' with
  | Some l =>
    match l_phase l with
    | Requests _ _ => unchanged s s'
    | AwaitEngine => engine_shown known_format (js "/files/b/") s'
    | AwaitErrorText => DirectoryAnswered 2 (Some Refused) ∈ overlapping
    | Caught _ => DirectoryAnswered 2 (Some Refused) ∈ overlapping \/ EngineFailed 2 ∈ overlapping
    end
  | None => shows known_format 2 (js "/files/b/") (lastDirectoryPath s =? js "/files/b/")%js (rows s) overlapping s'
  end /\
  (forall e1 e2 l, overlapping = e1 ++ Resumed 2 :: e2 -> answered 2 e1 -> find_load 2 s' = Some l -> past_requests l).
Proof.
  intros s s'. split; [vm_compute; reflexivity|].
  apply (latest_load_shown known_format (js "/files/b/") s overlapping); [apply start_browser_ok|reflexivity].
Defined.

(** The end of a deletion shows its empty directory over the error of the one entered since. *)
Example deletion_hides_error :
  let s := browser_run known_format
    [LoadRequested (js "/files/"); DirectoryAnswered 1 (Some one_file); DetailsAnswered 1 (Some (Some (js "files"))); ExitEnded 1;
     Resumed 1; FileDeleted 0 (js "/files/"); LoadRequested (js "/other/"); DirectoryAnswered 2 None; ExitEnded 2; Resumed 2]
    start_browser in
  panels s = (false, false, true, false) /\
  panels (browser_step known_format (DeletionEnded 0) s) = (false, true, false, false).
Proof. split; vm_compute; reflexivity. Qed.
End example.
