(* ===== verification/Pages.v ===== *)
(** * Pages

    [packages/renop-ui/js/pagination.js]: bounded pages of a collection, with a previous/summary/next pager;
    [repository-list.js] and the list of [repositories.js]: the repositories shown on the management page, by name,
    filtered by engine, ten to a page.  Sizes are below 2^53, where the quotients of the code are exact. *)
From Stdlib Require Import Sorting.Sorted.
From S2P Require Import Prelude JsString JsArray JsNumber BrowserUtils RepositoryFormats.
Local Open Scope Z_scope.

(** ** A slice of a list *)
(** [items.slice(start, end)] for [0 <= start <= end]. *)
Definition slice_items {A} (items : list A) (start stop : Z) : list A :=
  take (Z.to_nat (stop - start)) (drop (Z.to_nat start) items).

(** [Math.max(1, Math.ceil(total / size))]. *)
Definition page_count (total size : Z) : Z := Z.max 1 (ceil_div total size).

(** ** Collections *)
(** [Math.trunc]. *)
Definition math_trunc (m e : Z) : Z := if 0 <=? e then m * 2 ^ e else Z.quot m (2 ^ (- e)).

(** [Math.max(0, Math.min(Math.trunc(n || 0), last))]. *)
Definition clamp_index (n : double) (last : Z) : Z :=
  match n with
  | NaN => Z.max 0 (Z.min 0 last)
  | Inf true => 0
  | Inf false => Z.max 0 last
  | Fin m e => Z.max 0 (Z.min (math_trunc m e) last)
  end.

Definition clampCollectionPage (page : double) (totalItems pageSize : Z) : Z :=
  let pages := Z.max 1 (ceil_div (Z.max 0 totalItems) (Z.max 1 pageSize)) in
  clamp_index page (pages - 1).

(** The pager: its number of the page, the page count, the total, and whether its buttons are disabled. *)
Record pager := {
  pager_page : Z;
  pager_pages : Z;
  pager_total : Z;
  previous_disabled : bool;
  next_disabled : bool
}.

Definition createCollectionPager (page totalItems pageSize : Z) : option pager :=
  let pages := page_count totalItems pageSize in
  if pages <=? 1 then None
  else Some {| pager_page := page + 1; pager_pages := pages; pager_total := totalItems;
               previous_disabled := (page =? 0); next_disabled := (pages - 1 <=? page) |}.

(** [Math.max(1, Math.min(100, Math.trunc(Number(pageSize) || 8)))]. *)
Definition boundedPageSize (pageSize : double) : Z :=
  match pageSize with
  | NaN => 8
  | Inf true => 1
  | Inf false => 100
  | Fin m e => if m =? 0 then 8 else Z.max 1 (Z.min 100 (math_trunc m e))
  end.

Section collection.
Context {T Node : Type} (size : Z) (renderItem : T -> Z -> option Node) (renderEmpty : option (option Node)).

Record collection_state := mk_collection {
  collection : list T;
  currentPage : Z;
  shown : list Node;              (* the children of [list] *)
  shown_pager : option pager;     (* the child of [pager] *)
  reported : list Z               (* the calls of [onPageChanged] *)
}.

(** [pageItems.map((item, index) => renderItem(item, start + index)).filter(Boolean)]. *)
Definition page_nodes (items : list T) (start : Z) : list Node :=
  omap (fun p => renderItem p.2 (start + Z.of_nat p.1)) (imap pair items).

Definition empty_nodes (nodes : list Node) : list Node :=
  match nodes, renderEmpty with
  | [], Some (Some empty) => [empty]
  | _, _ => nodes
  end.

Definition replacePage (s : collection_state) : collection_state :=
  let start := currentPage s * size in
  let pageItems := slice_items (collection s) start (start + size) in
  mk_collection (collection s) (currentPage s) (empty_nodes (page_nodes pageItems start))
    (createCollectionPager (currentPage s) (Z.of_nat (length (collection s))) size) (reported s).

(** [onPageChanged(currentPage)], then the page is replaced: at once or by the height animation, which calls its
    [mutate] at once on every path. *)
Definition select_page (page : Z) (s : collection_state) : collection_state :=
  replacePage (mk_collection (collection s) page (shown s) (shown_pager s) (reported s ++ [page])).

Definition createPaginatedCollection (items : list T) (initialPage : double) : collection_state :=
  select_page (clampCollectionPage initialPage (Z.of_nat (length items)) size) (mk_collection items 0 [] None []).

Definition setPage (page : double) (s : collection_state) : collection_state :=
  let nextPage := clampCollectionPage page (Z.of_nat (length (collection s))) size in
  if nextPage =? currentPage s then s else select_page nextPage s.

Definition setItems (nextItems : list T) (preservePage : bool) (s : collection_state) : collection_state :=
  let s := mk_collection nextItems (currentPage s) (shown s) (shown_pager s) (reported s) in
  select_page (clampCollectionPage (Fin (if preservePage then currentPage s else 0) 0) (Z.of_nat (length nextItems)) size) s.

(** The collection without the record of its reports, once [onPageChanged] has put the page's number elsewhere. *)
Definition told (s : collection_state) : collection_state :=
  mk_collection (collection s) (currentPage s) (shown s) (shown_pager s) [].

(** What happens: calls of the controller, and clicks on the shown pager's buttons (a disabled one does nothing);
    the shown pager was made for the current page. *)
Inductive page_event :=
| SetPage (page : double)
| SetItems (items : list T) (preservePage : bool)
| ClickPrevious
| ClickNext.

Definition page_step (ev : page_event) (s : collection_state) : collection_state :=
  match ev with
  | SetPage page => setPage page s
  | SetItems items preserve => setItems items preserve s
  | ClickPrevious =>
    match shown_pager s with
    | Some p => if previous_disabled p then s else setPage (Fin (pager_page p - 1 - 1) 0) s
    | None => s
    end
  | ClickNext =>
    match shown_pager s with
    | Some p => if next_disabled p then s else setPage (Fin (pager_page p - 1 + 1) 0) s
    | None => s
    end
  end.
End collection.

#[global] Arguments collection_state : clear implicits.
#[global] Arguments page_event : clear implicits.

(** ** The list of repositories *)
Section repositories.
Context `{UnicodeCase} `{Collation}.

(** [data.repositories]: the formats of the repositories, in the order of the object's keys. *)
Abbreviation repositories := (list (jstr * option jstr)).

Definition protocol_selected (selected : gset jstr) (format : option jstr) : bool :=
  match getRepositoryFormat format with
  | Some f => bool_decide (protocol f ∈ selected)
  | None => false
  end.

Definition sortedRepositoryNames (repos : repositories) (selected : gset jstr) : list jstr :=
  array_sort locale_compare
    (map fst (List.filter (fun r => bool_decide (selected = ∅) || protocol_selected selected r.2) repos)).

Record name_page := {
  names : list jstr;
  page : Z;
  pages : Z;
  total : Z;
  start : Z;
  stop : Z
}.

(** [requestedPage] and [pageSize]: [None] when they are not integers. *)
Definition paginateRepositoryNames (safeNames : list jstr) (requestedPage pageSize : option Z) : name_page :=
  let safePageSize := match pageSize with Some n => if 0 <? n then n else 10 | None => 10 end in
  let pages := page_count (Z.of_nat (length safeNames)) safePageSize in
  let requested := match requestedPage with Some n => if 0 <=? n then n else 0 | None => 0 end in
  let page := Z.min requested (pages - 1) in
  let offset := page * safePageSize in
  let pageNames := slice_items safeNames offset (offset + safePageSize) in
  {| names := pageNames; page := page; pages := pages; total := Z.of_nat (length safeNames);
     start := if 0 <? Z.of_nat (length pageNames) then offset + 1 else 0;
     stop := offset + Z.of_nat (length pageNames) |}.

(** The management page: its configuration, the selected engines, the page, and what is rendered. *)
Record list_state := mk_list {
  repos : repositories;
  selectedRepositoryEngines : gset jstr;
  repositoryPage : Z;
  rendered : name_page;
  notice : option jstr;                     (* the message of an empty list *)
  toolbar : bool
}.

Definition repositoryPageSize : Z := 10.

Definition renderRepositories (data : repositories) (selected : gset jstr) (requested : Z) : list_state :=
  let allKeys := sortedRepositoryNames data ∅ in
  let filteredKeys := sortedRepositoryNames data selected in
  let p := paginateRepositoryNames filteredKeys (Some requested) (Some repositoryPageSize) in
  mk_list data selected (page p) p
    (if bool_decide (allKeys = []) then Some (js "repos.noRepos")
     else if bool_decide (filteredKeys = []) then Some (js "repos.noFilteredRepos") else None)
    (0 <? Z.of_nat (length allKeys)).

(** The pager of the list: [None] for a single page. *)
Definition buildRepositoryPagination (p : name_page) : option pager :=
  if pages p <=? 1 then None
  else Some {| pager_page := page p + 1; pager_pages := pages p; pager_total := total p;
               previous_disabled := (page p =? 0); next_disabled := (pages p <=? page p + 1) |}.

(** [keys.indexOf(key)]. *)
Fixpoint index_of (key : jstr) (keys : list jstr) : Z :=
  match keys with
  | [] => -1
  | k :: keys' => if (k =? key)%js then 0 else let i := index_of key keys' in if i <? 0 then -1 else i + 1
  end.

Inductive list_event :=
| ListLoaded (data : repositories)          (* [initRepositories], a removal, a change of language *)
| ShowAll
| ToggleEngine (protocol : jstr)
| ListPrevious
| ListNext
| RepositoryAdded (data : repositories) (repoKey : jstr).

Definition animateAddRepoSection (data : repositories) (repoKey : jstr) : list_state :=
  let keys := sortedRepositoryNames data ∅ in
  renderRepositories data ∅ (Z.max 0 (index_of repoKey keys / repositoryPageSize)).

Definition list_step (ev : list_event) (s : list_state) : list_state :=
  match ev with
  | ListLoaded data => renderRepositories data (selectedRepositoryEngines s) (repositoryPage s)
  | ShowAll => if toolbar s then renderRepositories (repos s) ∅ 0 else s
  | ToggleEngine p =>
    if toolbar s && bool_decide (p ∈ map protocol listRepositoryFormats) then
      let selected := selectedRepositoryEngines s in
      renderRepositories (repos s) (if bool_decide (p ∈ selected) then selected ∖ {[p]} else {[p]} ∪ selected) 0
    else s
  | ListPrevious =>
    match buildRepositoryPagination (rendered s) with
    | Some p => if previous_disabled p then s
                else renderRepositories (repos s) (selectedRepositoryEngines s) (Z.max 0 (page (rendered s) - 1))
    | None => s
    end
  | ListNext =>
    match buildRepositoryPagination (rendered s) with
    | Some p => if next_disabled p then s
                else renderRepositories (repos s) (selectedRepositoryEngines s)
                       (Z.min (pages (rendered s) - 1) (page (rendered s) + 1))
    | None => s
    end
  | RepositoryAdded data key => animateAddRepoSection data key
  end.
End repositories.

(** ** Lemmas *)
Lemma slice_items_nat {A} (l : list A) (k n : nat) :
  slice_items l (Z.of_nat k * Z.of_nat n) (Z.of_nat k * Z.of_nat n + Z.of_nat n) = take n (drop (k * n) l).
Proof.
  unfold slice_items. replace (Z.of_nat k * Z.of_nat n + Z.of_nat n - Z.of_nat k * Z.of_nat n) with (Z.of_nat n) by lia.
  by rewrite <- Nat2Z.inj_mul, !Nat2Z.id.
Qed.

Lemma take_pages {A} (l : list A) (n m : nat) :
  concat (map (fun k => take n (drop (k * n) l)) (seq 0 m)) = take (m * n) l.
Proof.
  induction m as [|m IH]; [done|].
  rewrite seq_S, map_app, concat_app, IH. simpl. rewrite app_nil_r, take_take_drop. f_equal. lia.
Qed.

Lemma page_count_pos n size : 1 <= page_count n size.
Proof. unfold page_count. lia. Qed.

Lemma page_count_covers n size : 1 <= size -> n <= page_count n size * size.
Proof. intros Hs. unfold page_count. pose proof (ceil_div_spec n size ltac:(lia)). nia. Qed.

Lemma page_count_tight n size k : 1 <= size -> 0 <= k < page_count n size -> 0 < n -> k * size < n.
Proof. intros Hs Hk Hn. unfold page_count in Hk. pose proof (ceil_div_spec n size ltac:(lia)). nia. Qed.

Lemma page_count_one n size : 1 <= size -> page_count n size <= 1 <-> n <= size.
Proof. intros Hs. unfold page_count. pose proof (ceil_div_spec n size ltac:(lia)). nia. Qed.

(** The pages of a list, in order. *)
Definition all_pages {A} (l : list A) (size : Z) : list (list A) :=
  map (fun k => slice_items l (Z.of_nat k * size) (Z.of_nat k * size + size))
    (seq 0 (Z.to_nat (page_count (Z.of_nat (length l)) size))).

Lemma all_pages_concat {A} (l : list A) size : 1 <= size -> concat (all_pages l size) = l.
Proof.
  intros Hs. unfold all_pages. rewrite <- (Z2Nat.id size) by lia.
  erewrite map_ext; [|intros k; apply slice_items_nat]. rewrite take_pages. apply take_ge.
  pose proof (page_count_covers (Z.of_nat (length l)) size Hs). pose proof (page_count_pos (Z.of_nat (length l)) size).
  rewrite Z2Nat.id by lia. nia.
Qed.

Lemma slice_items_length {A} (l : list A) k size : 1 <= size -> 0 <= k < page_count (Z.of_nat (length l)) size ->
  let n := Z.of_nat (length l) in let m := Z.of_nat (length (slice_items l (k * size) (k * size + size))) in
  m <= size /\ (0 < n -> 1 <= m) /\ k * size + m <= n.
Proof.
  intros Hs Hk n m. subst m. unfold slice_items. rewrite length_take, length_drop.
  destruct (Z.eq_dec n 0) as [Hn|Hn].
  - assert (k = 0) by (unfold page_count in Hk; subst n; rewrite Hn, ceil_div_0 in Hk; lia). subst k. lia.
  - pose proof (page_count_tight n size k Hs Hk ltac:(lia)). lia.
Qed.

Lemma clamp_index_bounds n last : 0 <= last -> 0 <= clamp_index n last <= last.
Proof. intros Hl. destruct n as [|[]|]; simpl; lia. Qed.

Lemma clampCollectionPage_bounds p n size : 1 <= size -> 0 <= n -> 0 <= clampCollectionPage p n size < page_count n size.
Proof.
  intros Hs Hn. unfold clampCollectionPage. rewrite (Z.max_r 0 n), (Z.max_r 1 size) by lia. fold (page_count n size).
  pose proof (page_count_pos n size). pose proof (clamp_index_bounds p (page_count n size - 1)). lia.
Qed.

Lemma clampCollectionPage_in k n size : 1 <= size -> 0 <= n -> 0 <= k < page_count n size ->
  clampCollectionPage (Fin k 0) n size = k.
Proof.
  intros Hs Hn Hk. unfold clampCollectionPage. rewrite (Z.max_r 0 n), (Z.max_r 1 size) by lia. fold (page_count n size).
  unfold clamp_index, math_trunc. rewrite Z.leb_refl, Z.pow_0_r. lia.
Qed.

Lemma boundedPageSize_bounds p : 1 <= boundedPageSize p <= 100.
Proof. destruct p as [|[]|m e]; simpl; try lia. destruct (m =? 0); lia. Qed.

Section collections.
Context {T Node : Type} (size : Z) (renderItem : T -> Z -> option Node) (renderEmpty : option (option Node)).
Hypothesis Hsize : 1 <= size.

(** The number of pages of the collection. *)
Definition collection_pages (s : collection_state T Node) : Z := page_count (Z.of_nat (length (collection s))) size.

(** The nodes of a page of the collection. *)
Definition nodes_of_page (items : list T) (k : Z) : list Node :=
  empty_nodes renderEmpty (page_nodes renderItem (slice_items items (k * size) (k * size + size)) (k * size)).

Record page_shown (s : collection_state T Node) : Prop := {
  shown_in_range : 0 <= currentPage s < collection_pages s;
  shown_nodes : shown s = nodes_of_page (collection s) (currentPage s);
  shown_control : shown_pager s = createCollectionPager (currentPage s) (Z.of_nat (length (collection s))) size;
  shown_reported : last (reported s) = Some (currentPage s)
}.

Lemma select_page_shown k s : 0 <= k < collection_pages s -> page_shown (select_page size renderItem renderEmpty k s).
Proof.
  intros Hk. unfold select_page, replacePage.
  constructor; cbn [collection currentPage shown shown_pager reported]; [done..|apply last_snoc].
Qed.

Lemma setPage_shown p s : page_shown s -> page_shown (setPage size renderItem renderEmpty p s).
Proof.
  intros Hs. unfold setPage. case (_ =? _); [done|]. apply select_page_shown, clampCollectionPage_bounds; lia.
Qed.

Lemma page_step_shown ev s : page_shown s -> page_shown (page_step size renderItem renderEmpty ev s).
Proof.
  intros Hs. destruct ev as [p|items keep| |]; simpl.
  - by apply setPage_shown.
  - apply select_page_shown. apply clampCollectionPage_bounds; lia.
  - repeat case_match; auto using setPage_shown.
  - repeat case_match; auto using setPage_shown.
Qed.

Lemma created_page_shown items init : page_shown (createPaginatedCollection size renderItem renderEmpty items init).
Proof. apply select_page_shown. apply clampCollectionPage_bounds; lia. Qed.

Lemma next_page s : page_shown s -> currentPage s + 1 < collection_pages s ->
  currentPage (page_step size renderItem renderEmpty ClickNext s) = currentPage s + 1 /\
  collection (page_step size renderItem renderEmpty ClickNext s) = collection s.
Proof.
  intros [Hr _ Hc _] Hn. unfold page_step. rewrite Hc. unfold createCollectionPager, collection_pages in *.
  pose proof (page_count_pos (Z.of_nat (length (collection s))) size).
  destruct (Z.leb_spec (page_count (Z.of_nat (length (collection s))) size) 1); [lia|].
  cbn [next_disabled pager_page]. destruct (Z.leb_spec (page_count (Z.of_nat (length (collection s))) size - 1) (currentPage s)); [lia|].
  unfold setPage. replace (currentPage s + 1 - 1 + 1) with (currentPage s + 1) by lia.
  rewrite clampCollectionPage_in by lia. destruct (Z.eqb_spec (currentPage s + 1) (currentPage s)); [lia|done].
Qed.

(** Clicking through the pages from the first. *)
Definition click_next (n : nat) (s : collection_state T Node) : collection_state T Node :=
  Nat.iter n (page_step size renderItem renderEmpty ClickNext) s.

Lemma click_through n s : page_shown s -> currentPage s = 0 -> Z.of_nat n < collection_pages s ->
  let t := click_next n s in page_shown t /\ currentPage t = Z.of_nat n /\ collection t = collection s.
Proof.
  intros Hs H0. induction n as [|n IH]; intros Hn; [done|].
  destruct IH as (Ht & Hc & Hl); [lia|].
  change (click_next (S n) s) with (page_step size renderItem renderEmpty ClickNext (click_next n s)). cbv zeta.
  destruct (next_page _ Ht) as [Hc' Hl']; [unfold collection_pages in *; rewrite Hc, Hl; lia|].
  split; [by apply page_step_shown|]. rewrite Hc', Hl', Hc, Hl. split; [lia|done].
Qed.
End collections.

(** A page of a view that keeps the page's number itself, as its [onPageChanged] is told. *)
Section told_collections.
Context {T Node : Type} (size : Z) (renderItem : T -> Z -> option Node) (renderEmpty : option (option Node)).
Hypothesis Hsize : 1 <= size.

(** A collection of the items, as far as it is shown, whose reports have been told. *)
Definition told_shown (items : list T) (c : collection_state T Node) : Prop :=
  collection c = items /\ reported c = [] /\ 0 <= currentPage c < page_count (Z.of_nat (length items)) size /\
  shown c = nodes_of_page size renderItem renderEmpty items (currentPage c) /\
  shown_pager c = createCollectionPager (currentPage c) (Z.of_nat (length items)) size.

Lemma told_page_shown items c : collection c = items -> page_shown size renderItem renderEmpty c -> told_shown items (told c).
Proof. intros <- [H1 H2 H3 H4]. done. Qed.

Lemma told_created items init : told_shown items (told (createPaginatedCollection size renderItem renderEmpty items init)).
Proof. apply told_page_shown; [done|]. by apply created_page_shown. Qed.

Lemma told_shown_eq items c c' : told_shown items c -> told_shown items c' -> currentPage c = currentPage c' -> c = c'.
Proof. destruct c, c'. unfold told_shown. cbn. intros (-> & -> & _ & -> & ->) (-> & -> & _ & -> & ->) ->. done. Qed.

(** Creating it again at its page gives the same. *)
Lemma told_again items c : told_shown items c ->
  told (createPaginatedCollection size renderItem renderEmpty items (Fin (currentPage c) 0)) = c.
Proof.
  intros Hc. apply (told_shown_eq items); [apply told_created|done|]. destruct Hc as (_ & _ & Hr & _).
  cbn. apply clampCollectionPage_in; lia.
Qed.

Lemma told_turned items ev c : ev = ClickNext \/ ev = ClickPrevious -> told_shown items c ->
  told_shown items (told (page_step size renderItem renderEmpty ev c)).
Proof.
  intros He (Hc & Hr & Hp & Hs & Hg).
  assert (Hsel : forall k, 0 <= k < page_count (Z.of_nat (length items)) size ->
    told_shown items (told (select_page size renderItem renderEmpty k c))).
  { intros k Hk. apply told_page_shown; [done|]. apply select_page_shown. unfold collection_pages. by rewrite Hc. }
  assert (Hsame : told_shown items (told c)) by (unfold told_shown; cbn; done).
  destruct He as [-> | ->]; cbn [page_step]; (destruct (shown_pager c) as [p|]; [|done]); [destruct (next_disabled p)|destruct (previous_disabled p)];
    try done; unfold setPage; (case (_ =? _)%Z; [done|]); apply Hsel; rewrite Hc; apply clampCollectionPage_bounds; lia.
Qed.

(** What is shown is the empty mark or comes from an item. *)
Lemma told_node_from items c n : told_shown items c -> n ∈ shown c -> renderEmpty = Some (Some n) \/ exists x i, x ∈ items /\ renderItem x i = Some n.
Proof.
  intros (_ & _ & _ & -> & _). unfold nodes_of_page, empty_nodes. set (part := slice_items _ _ _).
  assert (Hpart : forall m, m ∈ page_nodes renderItem part (currentPage c * size) -> exists x i, x ∈ items /\ renderItem x i = Some m).
  { unfold page_nodes. intros m ([j x] & Hx & E)%list_elem_of_omap. cbn in E.
    apply list_elem_of_lookup_1 in Hx as [k Hk]. rewrite list_lookup_imap in Hk. destruct (part !! k) as [x'|] eqn:Hl; [|done].
    injection Hk as _ ->. apply list_elem_of_lookup_2 in Hl. unfold part, slice_items in Hl. eapply subseteq_take, subseteq_drop in Hl. eauto. }
  destruct (page_nodes renderItem part (currentPage c * size)) as [|m ms]; [|by right; apply Hpart].
  destruct renderEmpty as [[e|]|]; try by intros ?%not_elem_of_nil. intros ->%list_elem_of_singleton. by left.
Qed.
End told_collections.

Lemma index_of_spec key keys : key ∈ keys ->
  0 <= index_of key keys /\ keys !! Z.to_nat (index_of key keys) = Some key.
Proof.
  induction keys as [|k keys IH]; [by intros ?%elem_of_nil|]. intros Hin. simpl.
  destruct (bool_decide_reflect (k = key)) as [->|Hne]; [done|].
  apply elem_of_cons in Hin as [->|Hin]; [done|]. destruct (IH Hin) as [H0 Hl].
  destruct (Z.ltb_spec (index_of key keys) 0); [lia|]. split; [lia|].
  by replace (Z.to_nat (index_of key keys + 1)) with (S (Z.to_nat (index_of key keys))) by lia.
Qed.

(** The item at [i] is on page [i / size]. *)
Lemma item_on_page {A} (l : list A) (i size : Z) x : 1 <= size -> 0 <= i -> l !! Z.to_nat i = Some x ->
  i / size < page_count (Z.of_nat (length l)) size /\
  x ∈ slice_items l (i / size * size) (i / size * size + size).
Proof.
  intros Hs Hi Hl. pose proof (lookup_lt_Some _ _ _ Hl) as Hlt.
  pose proof (Z.div_mod i size ltac:(lia)) as Hdm. pose proof (Z.mod_pos_bound i size ltac:(lia)) as Hm.
  pose proof (Z.div_pos i size Hi ltac:(lia)) as Hd. split.
  - pose proof (page_count_covers (Z.of_nat (length l)) size Hs). nia.
  - apply list_elem_of_lookup. exists (Z.to_nat (i mod size)). unfold slice_items.
    rewrite lookup_take_lt by lia. rewrite lookup_drop, <- Hl. f_equal. nia.
Qed.

Section repository_lists.
Context `{UnicodeCase} `{CollationLaws}.

Abbreviation selected_names data sel :=
  (map fst (List.filter (fun r : jstr * option jstr => bool_decide (sel = ∅) || protocol_selected sel r.2) data)).

Lemma sortedRepositoryNames_perm data sel : sortedRepositoryNames data sel ≡ₚ selected_names data sel.
Proof. apply array_sort_perm. Qed.

Lemma locale_total a b : locale_compare a b <= 0 \/ locale_compare b a <= 0.
Proof. pose proof (locale_antisym a b). lia. Qed.

Lemma sortedRepositoryNames_sorted data sel :
  StronglySorted (cmp_le locale_compare) (sortedRepositoryNames data sel).
Proof.
  apply array_sort_sorted; unfold cmp_le; intros; [apply locale_total|].
  match goal with Hab : locale_compare ?a ?b <= 0 |- _ => by apply (locale_trans a b) end.
Qed.

(** What is rendered is a page of the selected names. *)
Record list_shown (s : list_state) : Prop := {
  list_rendered :
    rendered s = paginateRepositoryNames (sortedRepositoryNames (repos s) (selectedRepositoryEngines s))
                   (Some (repositoryPage s)) (Some repositoryPageSize);
  list_in_range : 0 <= repositoryPage s < page_count (Z.of_nat (length (sortedRepositoryNames (repos s) (selectedRepositoryEngines s)))) 10;
  list_notice : notice s = Some (js "repos.noRepos") <-> repos s = []
}.

Lemma paginate_clamped l k : 0 <= k ->
  0 <= page (paginateRepositoryNames l (Some k) (Some 10)) < page_count (Z.of_nat (length l)) 10 /\
  paginateRepositoryNames l (Some (page (paginateRepositoryNames l (Some k) (Some 10)))) (Some 10) =
  paginateRepositoryNames l (Some k) (Some 10).
Proof.
  intros Hk. pose proof (page_count_pos (Z.of_nat (length l)) 10). unfold paginateRepositoryNames. cbn [page].
  change (0 <? 10) with true. cbv iota. destruct (Z.leb_spec 0 k); [|lia].
  split; [lia|]. destruct (Z.leb_spec 0 (Z.min k (page_count (Z.of_nat (length l)) 10 - 1))); [|lia].
  by rewrite <- Z.min_assoc, Z.min_id.
Qed.

Lemma renderRepositories_shown data sel k : 0 <= k -> list_shown (renderRepositories data sel k).
Proof.
  intros Hk. destruct (paginate_clamped (sortedRepositoryNames data sel) k Hk) as [Hr He].
  constructor; cbn [rendered repos selectedRepositoryEngines repositoryPage renderRepositories notice];
    unfold repositoryPageSize; [done..|].
  assert (Hall : sortedRepositoryNames data ∅ = [] <-> data = []).
  { rewrite <- !length_zero_iff_nil. rewrite (Permutation_length (sortedRepositoryNames_perm data ∅)).
    rewrite length_map, filter_all; [done|]. by apply Forall_true. }
  case_bool_decide; [tauto|]. case_bool_decide; naive_solver.
Qed.

Lemma list_step_shown ev s : list_shown s -> list_shown (list_step ev s).
Proof.
  intros Hs. pose proof (list_in_range _ Hs).
  assert (Hp : page (rendered s) = repositoryPage s /\ 1 <= pages (rendered s)).
  { rewrite (list_rendered _ Hs).
    unfold paginateRepositoryNames, repositoryPageSize. cbn [page pages]. change (0 <? 10) with true. cbv iota.
    destruct (Z.leb_spec 0 (repositoryPage s)); lia. }
  destruct ev as [data| |q| | |data key]; unfold list_step.
  - apply renderRepositories_shown. lia.
  - destruct (toolbar s); [apply renderRepositories_shown; lia|assumption].
  - destruct (toolbar s && _); [apply renderRepositories_shown; lia|assumption].
  - destruct (buildRepositoryPagination _) as [p|]; [|assumption].
    destruct (previous_disabled p); [assumption|]. apply renderRepositories_shown. lia.
  - destruct (buildRepositoryPagination _) as [p|]; [|assumption].
    destruct (next_disabled p); [assumption|]. apply renderRepositories_shown. lia.
  - apply renderRepositories_shown. lia.
Qed.

Lemma rendered_bounds l k : 0 <= k < page_count (Z.of_nat (length l)) 10 ->
  let p := paginateRepositoryNames l (Some k) (Some 10) in
  names p = slice_items l (k * 10) (k * 10 + 10) /\ (length (names p) <= 10)%nat /\
  (l <> [] -> names p <> [] /\ start p = k * 10 + 1 /\ stop p = start p + Z.of_nat (length (names p)) - 1 /\ stop p <= total p) /\
  (l = [] -> start p = 0 /\ stop p = 0).
Proof.
  intros Hk p. subst p. unfold paginateRepositoryNames. cbn [names start stop total]. change (0 <? 10) with true. cbv iota.
  destruct (Z.leb_spec 0 k); [|lia]. rewrite !Z.min_l by lia.
  pose proof (slice_items_length l k 10 ltac:(lia) Hk) as (Hm & Hpos & Hend).
  split; [done|]. split; [lia|]. split.
  - intros Hl. destruct l as [|x l]; [done|].
    specialize (Hpos ltac:(simpl; lia)).
    destruct (Z.ltb_spec 0 (Z.of_nat (length (slice_items (x :: l) (k * 10) (k * 10 + 10))))); [|lia].
    split; [intros E; rewrite E in Hpos; simpl in Hpos; lia|lia].
  - intros ->. simpl in Hk. unfold page_count in Hk. rewrite ceil_div_0 in Hk. assert (k = 0) as -> by lia. done.
Qed.
End repository_lists.

(** ** Properties *)
Module Examples.
#[local] Existing Instance unit_collation.
#[local] Existing Instance latin_case.

Definition show (n : Z) (i : Z) : option (Z * Z) := if n =? 13 then None else Some (n, i).

(** The last page holds what is left; an item without a node is left out, and the numbers count it. *)
Definition third : collection_state Z (Z * Z) :=
  fold_left (fun s ev => page_step 5 show None ev s) [ClickNext; ClickNext; ClickNext]
    (createPaginatedCollection 5 show None (seqZ 0 14) (Fin 0 0)).

Lemma third_page : currentPage third = 2 /\ shown third = [(10, 10); (11, 11); (12, 12)] /\
  shown_pager third = Some {| pager_page := 3; pager_pages := 3; pager_total := 14;
                              previous_disabled := false; next_disabled := true |}.
Proof. vm_compute. done. Qed.

Definition demo_repositories : list (jstr * option jstr) :=
  [(js "files", Some (js "files")); (js "crates", Some (js "cargo")); (js "libs", Some (js "maven"));
   (js "classic", Some (js "maven-classic")); (js "wheels", Some (js "conda")); (js "native", Some (js "conda-native"))].

Definition demo_list : list_state := renderRepositories demo_repositories ∅ 0.

Lemma demo_names : names (rendered demo_list) = map js ["classic"; "crates"; "files"; "libs"; "native"; "wheels"]%string.
Proof. vm_compute. reflexivity. Qed.

Lemma filtered_names :
  names (rendered (list_step (ToggleEngine (js "maven")) demo_list)) = map js ["classic"; "libs"]%string.
Proof. vm_compute. reflexivity. Qed.

(** Two filter buttons, of Conda and of native Conda, select one protocol: pressed together, released together. *)
Lemma conda_twice :
  length (List.filter (fun f => (protocol f =? js "conda")%js) listRepositoryFormats) = 2%nat /\
  names (rendered (list_step (ToggleEngine (js "conda")) demo_list)) = map js ["native"; "wheels"]%string.
Proof. vm_compute. done. Qed.
End Examples.

(** C38: a paginated collection, after any selections of pages (whatever number is asked for), changes of its items and
    clicks on its buttons: the current page is one of its pages, and what is shown is that page's items, numbered from
    the page's first; no page has more items than the page size, and none is empty unless the collection is; the
    pager is there exactly when there are two pages, with a button disabled exactly where there is no further page;
    the pages laid end to end are the collection, and clicking "next" from the first page visits each in turn. *)
Theorem collection_pages_bounded {T Node} (asked : double) (renderItem : T -> Z -> option Node) renderEmpty items init evs :
  let size := boundedPageSize asked in
  let s := fold_left (fun s ev => page_step size renderItem renderEmpty ev s) evs
             (createPaginatedCollection size renderItem renderEmpty items init) in
  let n := Z.of_nat (length (collection s)) in
  let pageCount := page_count n size in
  let k := currentPage s in
  let pageItems := slice_items (collection s) (k * size) (k * size + size) in
  0 <= k < pageCount /\ shown s = empty_nodes renderEmpty (page_nodes renderItem pageItems (k * size)) /\
  (length pageItems <= 100)%nat /\ (collection s <> [] -> pageItems <> []) /\
  (shown_pager s = None <-> n <= size) /\
  (forall p, shown_pager s = Some p -> pager_page p = k + 1 /\ pager_pages p = pageCount /\ pager_total p = n /\
    (previous_disabled p = true <-> k = 0) /\ (next_disabled p = true <-> k = pageCount - 1)) /\
  concat (all_pages (collection s) size) = collection s /\
  (k = 0 -> forall j, 0 <= j < pageCount ->
    let t := click_next size renderItem renderEmpty (Z.to_nat j) s in
    shown t = nodes_of_page size renderItem renderEmpty (collection s) j).
Proof.
  intros size s n pageCount k pageItems. pose proof (boundedPageSize_bounds asked) as Hsize. fold size in Hsize.
  assert (Hs : page_shown size renderItem renderEmpty s).
  { apply (run_invariant (page_step size renderItem renderEmpty) (page_shown size renderItem renderEmpty)); [|apply created_page_shown; lia].
    intros ev t. apply page_step_shown. lia. }
  pose proof (page_count_pos n size) as Hpos. pose proof (page_count_one n size ltac:(lia)) as Hone.
  pose proof Hs as [Hr Hn Hc _].
  pose proof (slice_items_length (collection s) k size ltac:(lia) Hr) as (Hm & Hne & _). fold n in Hc, Hr, Hne. fold pageItems in Hm, Hne.
  split_and!; [apply Hr|apply Hr|exact Hn|lia| | | |apply all_pages_concat; lia|].
  - intros Hl Hp. rewrite Hp in Hne. simpl in Hne. destruct (collection s); [done|]. simpl in n. lia.
  - rewrite Hc. unfold createCollectionPager. fold pageCount. destruct (Z.leb_spec pageCount 1); [|split; [done|lia]].
    split; [intros _; by apply Hone|done].
  - intros p. rewrite Hc. unfold createCollectionPager. fold pageCount. destruct (Z.leb_spec pageCount 1); [done|].
    intros [= <-]. cbn [pager_page pager_pages pager_total previous_disabled next_disabled]. fold k.
    unfold collection_pages in Hr. fold n pageCount k in Hr. split_and!; [done..|apply Z.eqb_eq|].
    rewrite Z.leb_le. lia.
  - intros H0 j Hj t.
    destruct (click_through size renderItem renderEmpty ltac:(lia) (Z.to_nat j) s Hs H0) as (Ht & Hk & Hl).
    { unfold collection_pages. fold n pageCount. lia. }
    fold t in Ht, Hk, Hl. rewrite (shown_nodes _ _ _ _ Ht), Hk, Hl. by rewrite Z2Nat.id by lia.
Qed.

(** the list of repositories of the management page, after any filters, pages, reloads and additions: it shows a
    page of at most ten of the names of the selected engines, in the collation's order, with the numbers of its first
    and last; the pages laid end to end are those names, each once; and a repository just added is on the page shown. *)
Theorem repository_list_shows `{UnicodeCase} `{CollationLaws} data sel k evs :
  0 <= k ->
  let s := fold_left (fun s ev => list_step ev s) evs (renderRepositories data sel k) in
  let sorted := sortedRepositoryNames (repos s) (selectedRepositoryEngines s) in
  let p := rendered s in
  sorted ≡ₚ map fst (List.filter (fun r => bool_decide (selectedRepositoryEngines s = ∅) ||
                                           protocol_selected (selectedRepositoryEngines s) r.2) (repos s)) /\
  StronglySorted (cmp_le locale_compare) sorted /\
  concat (all_pages sorted 10) = sorted /\
  all_pages sorted 10 !! Z.to_nat (repositoryPage s) = Some (names p) /\ (length (names p) <= 10)%nat /\
  (sorted <> [] -> names p <> [] /\ start p = repositoryPage s * 10 + 1 /\
    stop p = start p + Z.of_nat (length (names p)) - 1 /\ stop p <= total p) /\
  (notice s = Some (js "repos.noRepos") <-> repos s = []) /\
  (forall data' key, key ∈ map fst data' -> key ∈ names (rendered (list_step (RepositoryAdded data' key) s))).
Proof.
  intros Hk s sorted p.
  assert (Hs : list_shown s).
  { apply (run_invariant list_step list_shown); [apply list_step_shown|by apply renderRepositories_shown]. }
  pose proof (rendered_bounds sorted (repositoryPage s) (list_in_range _ Hs)) as Hrb. cbv zeta in Hrb.
  assert (E : p = paginateRepositoryNames sorted (Some (repositoryPage s)) (Some 10)) by apply (list_rendered _ Hs).
  rewrite <- E in Hrb. destruct Hrb as (Hn & Hl & Hb & _). pose proof (list_in_range _ Hs) as Hr. fold sorted in Hr.
  split_and!; [apply sortedRepositoryNames_perm|apply sortedRepositoryNames_sorted|by apply all_pages_concat| |exact Hl|exact Hb|apply (list_notice _ Hs)|].
  - unfold all_pages. rewrite list_lookup_fmap, lookup_seq_lt by lia. simpl. fold p in Hn.
    rewrite Z2Nat.id by lia. by rewrite Hn.
  - intros data' key Hin. change (list_step (RepositoryAdded data' key) s) with (animateAddRepoSection data' key).
    unfold animateAddRepoSection. set (keys := sortedRepositoryNames data' ∅).
    assert (Hkey : key ∈ keys).
    { unfold keys. rewrite (sortedRepositoryNames_perm data' ∅), filter_all; [done|]. by apply Forall_true. }
    destruct (index_of_spec key keys Hkey) as [Hi0 Hi]. destruct (item_on_page keys _ 10 key ltac:(lia) Hi0 Hi) as [Hp Hon].
    unfold repositoryPageSize. rewrite Z.max_r by (apply Z.div_pos; lia).
    pose proof (Z.div_pos (index_of key keys) 10 Hi0 ltac:(lia)).
    pose proof (rendered_bounds keys (index_of key keys / 10) ltac:(lia)) as [Hnames _].
    change (key ∈ names (paginateRepositoryNames keys (Some (index_of key keys / 10)) (Some 10))). by rewrite Hnames.
Qed.

Lemma repository_list_shows_witness :
  let s := @renderRepositories latin_case unit_collation Examples.demo_repositories ∅ 3 in
  names (rendered s) <> [] /\ notice s <> Some (js "repos.noRepos").
Proof.
  destruct (@repository_list_shows latin_case unit_collation unit_collation_laws Examples.demo_repositories ∅ 3 [] ltac:(lia))
    as (_ & _ & _ & _ & _ & Hb & Hn & _).
  split; [apply Hb; vm_compute; done|]. rewrite Hn. vm_compute. done.
Defined.
