(* ===== verification/RepositorySettings.v ===== *)
(** * Repository settings

    [internal/service/frontend/renop-html/js/repositories.js]: the settings of the repositories as the management page
    keeps them, the controls that change them, and their requests to the server: saving with overlapping requests,
    creation, deletion, the publication-review policy.

    A repository's settings are a JavaScript object read from JSON, kept as an association list in the order of its
    keys, which [JSON.stringify] sees.  The objects have an identity: the sections of the page, the configuration and
    pending requests share them, and so do the mirrors, which a section holds on to after their removal. *)
From S2P Require Import Prelude JsString JsNumber JsJson BrowserUtils RepositoryFormats Pages.

(** ** Objects *)
Abbreviation fields := (list (jstr * json)).

(** [o.k = v] and [delete o.k]. *)
Fixpoint set_field (k : jstr) (v : json) (o : fields) : fields :=
  match o with
  | [] => [(k, v)]
  | (k', w) :: o' => if (k' =? k)%js then (k, v) :: o' else (k', w) :: set_field k v o'
  end.

Definition delete_field (k : jstr) (o : fields) : fields := List.filter (fun p => negb (p.1 =? k)%js) o.

(** [if (value) o.k = value; else delete o.k]. *)
Definition set_or_delete (k : jstr) (v : jstr) (o : fields) : fields :=
  if nonempty v then set_field k (JStr v) o else delete_field k o.

(** [o.k.l = v] for an object [o.k]. *)
Definition set_inner (k l : jstr) (v : json) (o : fields) : fields :=
  match field k o with
  | Some (JObj inner) => set_field k (JObj (set_field l v inner)) o
  | _ => o
  end.

(** A repository: its fields, and its mirrors, which the field [mirrors] stands for. *)
Record repo := mk_repo {
  settings : fields;
  mirror_list : list nat
}.

Definition with_settings (f : fields -> fields) (r : repo) : repo := mk_repo (f (settings r)) (mirror_list r).

Abbreviation mirror_heap := (gmap nat fields).

(** [JSON.parse(JSON.stringify(repo))]. *)
Definition snapshot (h : mirror_heap) (r : repo) : fields :=
  map (fun p => if (p.1 =? js "mirrors")%js
                then (p.1, match p.2 with JArr _ => JArr (map (fun i => JObj (default [] (h !! i))) (mirror_list r)) | v => v end)
                else p) (settings r).

Definition mirror_fields (v : json) : fields := match v with JObj o => o | _ => [] end.

Definition put_mirror (m : json) (p : mirror_heap * nat) : mirror_heap * nat := (<[p.2 := mirror_fields m]> p.1, S p.2).

(** An object read from JSON, whose mirrors get the identities from [next] on. *)
Definition read_repo (h : mirror_heap) (next : nat) (o : fields) : mirror_heap * nat * repo :=
  let mirrors := match field (js "mirrors") o with Some (JArr l) => l | _ => [] end in
  let '(h', next') := fold_left (fun p m => put_mirror m p) mirrors (h, next) in
  (h', next', mk_repo o (seq next (length mirrors))).

(** ** Numbers *)
(** [parseInt(s, 10)]. *)
Definition parseInt (s : jstr) : double :=
  let (negative, r) := take_sign (trim_start s) in
  match (span is_digit r).1 with
  | [] => NaN
  | digits => round_ratio negative (digits_value digits) 1
  end.

(** [Math.trunc(n)] of a finite [n] that is not negative. *)
Definition count_of (n : double) : option Z :=
  match n with
  | Fin m e => if (m <? 0)%Z then None else Some (math_trunc m e)
  | _ => None
  end.

Definition positive (n : double) : bool := double_lt (Fin 0 0) n.

(** [n > 0 ? Math.round(n * unit) : 0]; a product that overflows is [Infinity], which JSON writes as [null]. *)
Definition scaled_bytes (raw : jstr) (unit : Z) : json :=
  let n := Number raw in
  if positive n then match math_round (double_scale n unit) with Some z => JNum z | None => JNull end else JNum 0.

Definition safe_integer (z : Z) : bool := (Z.abs z <=? 2 ^ 53 - 1)%Z.

(** The [change] handler of the capacity field up to its rejection: the bytes, when the text is accepted. *)
Definition capacity_bytes (raw : jstr) : option Z :=
  let mib := Number raw in
  if negb (nonempty (trim raw)) then None
  else match mib with
       | Fin m e =>
         if (m <? 0)%Z then None
         else match math_round (double_scale mib 1048576) with
              | Some bytes => if negb (safe_integer bytes) || positive mib && (bytes =? 0)%Z then None else Some bytes
              | None => None
              end
       | _ => None
       end.

(** ** Controls *)
Inductive edit :=
| Visibility (value : jstr)
| Redeployment (checked : bool)
| GpgRequirement (checked : bool)
| MavenLayout (value : jstr)
| RepositoryProxy (value : jstr)
| S3Enabled (checked : bool)
| S3Text (id value : jstr)
| S3ForcePathStyle (checked : bool)
| S3RedirectDownloads (checked : bool)
| GitMode (value : jstr)
| GitMaxVersion (raw : jstr)
| GitDailyTraffic (raw : jstr)
| GitRetainWorkflows (checked : bool)
| GitRetainReleases (checked : bool)
| GitCooldown (raw : jstr)
| GitToken (value : jstr)
| AddMirror (unnamed date : jstr)
| RemoveMirror (m : nat)
| MirrorEdit (m : nat) (e : mirror_edit)
with mirror_edit :=
| MirrorName (value : jstr)
| MirrorUrl (value : jstr)
| MirrorArtifactUrl (value : jstr)
| MirrorProxy (value : jstr)
| MirrorAllow (rules : list jstr)
| MirrorDeny (rules : list jstr)
| MirrorAuth (method login password : jstr)
| MirrorLogin (value : jstr)
| MirrorPassword (value : jstr)
| MirrorPersist (checked : bool)
| MirrorNegativeCache (checked : bool)
| MirrorTtl (raw : jstr)
| MirrorTimeout (raw : jstr).

Definition set_rules (k : jstr) (rules : list jstr) (o : fields) : fields :=
  match rules with [] => delete_field k o | _ => set_field k (JArr (map JStr rules)) o end.

(** The controls of a mirror: its new fields, or [None] when the handler leaves without saving. *)
Definition edit_mirror (e : mirror_edit) (o : fields) : option fields :=
  match e with
  | MirrorName v => Some (set_field (js "name") (JStr v) o)
  | MirrorUrl v => Some (set_field (js "url") (JStr v) o)
  | MirrorArtifactUrl v => Some (set_or_delete (js "artifact_url") v o)
  | MirrorProxy v => Some (set_or_delete (js "proxy") v o)
  | MirrorAllow rules => Some (set_rules (js "allow_artifacts") rules o)
  | MirrorDeny rules => Some (set_rules (js "deny_artifacts") rules o)
  | MirrorAuth method login password =>
    Some (if (method =? js "none")%js then delete_field (js "authorization") o
          else set_field (js "authorization")
                 (JObj [(js "method", JStr (if (method =? js "token")%js then js "bearer" else method));
                        (js "login", JStr login); (js "password", JStr password)]) o)
  | MirrorLogin v =>
    if truthy (field (js "authorization") o) then Some (set_inner (js "authorization") (js "login") (JStr v) o) else None
  | MirrorPassword v =>
    if truthy (field (js "authorization") o) then Some (set_inner (js "authorization") (js "password") (JStr v) o) else None
  | MirrorPersist b => Some (set_field (js "persist") (JBool b) o)
  | MirrorNegativeCache b => Some (set_field (js "negative_cache") (JBool b) o)
  | MirrorTtl raw => n ← count_of (parseInt raw); Some (set_field (js "cache_ttl_secs") (JNum n) o)
  | MirrorTimeout raw => n ← count_of (parseInt raw); Some (set_field (js "timeout_secs") (JNum n) o)
  end.

Definition new_mirror (unnamed date : jstr) (count : nat) : fields :=
  [(js "name", JStr (unnamed ++ js " " ++ show_Z (Z.of_nat count + 1))); (js "url", JStr []);
   (js "persist", JBool true); (js "negative_cache", JBool true); (js "cache_ttl_secs", JNum 3600);
   (js "timeout_secs", JNum 30); (js "enabled_date", JStr date)].

(** [git_repo] with one of its fields set. *)
Definition set_git (k : string) (v : json) : fields -> fields := set_inner (js "git_repo") (js k) v.
Definition set_s3 (k : jstr) (v : json) : fields -> fields := set_inner (js "s3") k v.

Section controls.
Context `{UnicodeCase}.

Definition format_of (o : fields) : option engine :=
  getRepositoryFormat (match field (js "format") o with Some (JStr s) => Some s | _ => None end).

(** A flag of the format; an object that is no format has none of its properties. *)
Definition flag (f : option engine) (g : engine -> bool) (missing : bool) : bool :=
  match f with Some e => g e | None => missing end.

Definition protocol_is (f : option engine) (p : string) : bool :=
  match f with Some e => (protocol e =? js p)%js | None => false end.

(** The fields a section gives its repository as it is built. *)
Definition default_s3 : json :=
  JObj [(js "enabled", JBool false); (js "endpoint", JStr []); (js "bucket", JStr []); (js "region", JStr (js "auto"));
        (js "access_key_id", JStr []); (js "secret_access_key", JStr []); (js "key_prefix", JStr []);
        (js "force_path_style", JBool true); (js "redirect_downloads", JBool false)].

Definition default_git : json :=
  JObj [(js "mode", JStr (js "lax")); (js "max_version_size_bytes", JNum (300 * 1024 * 1024));
        (js "max_daily_traffic_bytes", JNum (25 * 1024 * 1024 * 1024)); (js "retain_latest_workflow_runs", JBool true);
        (js "retain_latest_releases", JBool true); (js "quota_request_cooldown_hours", JNum 72); (js "owner", JStr []);
        (js "registered_repos", JArr [])].

Definition git_format (f : option engine) : bool := protocol_is f "github" || protocol_is f "gitlab".

Definition section_defaults (o : fields) : fields :=
  let o1 := if truthy (field (js "s3") o) then o else set_field (js "s3") default_s3 o in
  if git_format (format_of o) && negb (truthy (field (js "git_repo") o1)) then set_field (js "git_repo") default_git o1 else o1.

Definition buildRepoSection : repo -> repo := with_settings section_defaults.

(** Whether the section of a repository has the control; the flags of a format do not depend on its layout, which is
    all that can change of it. *)
Definition has_control (o : fields) (e : edit) : bool :=
  let f := format_of o in
  match e with
  | Redeployment _ =>
    flag f supportsRedeployment false &&
    negb (truthy (field (js "_publication_review") o) && negb (json_is (field (js "_publication_review") o) "off"))
  | GpgRequirement _ => flag f supportsGpg false
  | MavenLayout _ => protocol_is f "maven"
  | RepositoryProxy _ => negb (flag f supportsMirrors true)
  | GitMode _ | GitMaxVersion _ | GitDailyTraffic _ | GitRetainWorkflows _ | GitRetainReleases _ | GitCooldown _ | GitToken _ =>
    git_format f
  | AddMirror _ _ | RemoveMirror _ => flag f supportsMirrors true
  | MirrorEdit _ (MirrorArtifactUrl _) => flag f supportsMirrors true && flag f supportsArtifactTemplate false
  | MirrorEdit _ _ => flag f supportsMirrors true
  | _ => true
  end.

Definition git_token_field (o : fields) : jstr := if protocol_is (format_of o) "github" then js "github_token" else js "gitlab_token".

Definition cooldown (raw : jstr) : Z := default 72%Z (count_of (parseInt raw)).

(** The handlers of the controls but for the save that follows: the mirrors and the repository after it, or [None] when
    the handler leaves without saving.  [next] is the identity of a new mirror. *)
Definition apply_edit (e : edit) (h : mirror_heap) (next : nat) (r : repo) : option (mirror_heap * repo) :=
  let put f := Some (h, with_settings f r) in
  match e with
  | Visibility v => put (set_field (js "visibility") (JStr v))
  | Redeployment b => put (set_field (js "allow_redeployment") (JBool b))
  | GpgRequirement b => put (set_field (js "require_gpg_signature") (JBool b))
  | MavenLayout v => put (set_field (js "format") (JStr (if (v =? js "classic")%js then js "maven-classic" else js "maven")))
  | RepositoryProxy v => put (set_or_delete (js "proxy") v)
  | S3Enabled b => put (set_s3 (js "enabled") (JBool b))
  | S3Text id v => put (set_s3 id (JStr v))
  | S3ForcePathStyle b => put (set_s3 (js "force_path_style") (JBool b))
  | S3RedirectDownloads b => put (set_s3 (js "redirect_downloads") (JBool b))
  | GitMode v => put (set_git "mode" (JStr v))
  | GitMaxVersion raw => put (set_git "max_version_size_bytes" (scaled_bytes raw 1048576))
  | GitDailyTraffic raw => put (set_git "max_daily_traffic_bytes" (scaled_bytes raw 1073741824))
  | GitRetainWorkflows b => put (set_git "retain_latest_workflow_runs" (JBool b))
  | GitRetainReleases b => put (set_git "retain_latest_releases" (JBool b))
  | GitCooldown raw => put (set_git "quota_request_cooldown_hours" (JNum (cooldown raw)))
  | GitToken v => put (set_or_delete (git_token_field (settings r)) (trim v))
  | AddMirror unnamed date =>
    let r1 := if truthy (field (js "mirrors") (settings r)) then r
              else mk_repo (set_field (js "mirrors") (JArr []) (settings r)) [] in
    Some (<[next := new_mirror unnamed date (length (mirror_list r1))]> h, mk_repo (settings r1) (mirror_list r1 ++ [next]))
  | RemoveMirror m => Some (h, mk_repo (settings r) (List.filter (fun i => negb (i =? m)) (mirror_list r)))
  | MirrorEdit m e => o ← edit_mirror e (default [] (h !! m)); Some (<[m := o]> h, r)
  end.
End controls.

(** ** The page *)
(** What the message [Repository] carries of a repository's settings: all but the two fields the page adds. *)
Definition sent_settings (o : fields) : fields :=
  delete_field (js "_publication_review") (delete_field (js "_download_statistics_enabled") o).

Inductive after_save :=
| Nothing
| CapacityOf (object : nat) (previous : json)   (* the field is restored when the save fails *)
| CreationOf (name : jstr).                     (* the draft is dropped when the save fails *)

Inductive request :=
| Put (key : jstr) (seq : nat) (payload : fields) (silent : bool) (after : after_save)
| PutRefused (key : jstr) (after : after_save)  (* the text of the refusal is being read *)
| Delete (key : jstr) (data : nat)
| DeleteRefused
| Review (key : jstr) (object : nat) (policy : jstr)
| ReviewRefused.

(** What the server made of a request, and whether its answer arrives. *)
Inductive answer := Accepted | Refused | Denied | Lost.

Inductive output :=
| Sent (i : nat) (r : request)
| Saved (key : jstr) (content : fields)         (* the alert that [content] is saved *)
| AlertKey (key : jstr)
| Created (name : jstr)
| SettingsChanged (key : jstr) (format : option json)
| RouteExit
| Rendered (data : nat)                         (* [renderRepositories(container, data)] *)
| RenderedWith (data : nat) (key : jstr).       (* [animateAddRepoSection(container, data, key)] *)

Record page_state := mk_page_state {
  mirrors_of : mirror_heap;
  objects : gmap nat repo;
  configs : gmap nat (list (jstr * nat));       (* the objects of repositories, each by name *)
  currentConfig : option nat;
  initialReposMap : gmap jstr fields;
  saveSeqByRepo : gmap jstr nat;
  requests : gmap nat request;
  next : nat;                                   (* identities from here on are new *)
  log : list output;
  accepted : gmap jstr fields;                  (* the settings the server listed or accepted last *)
  served : gset nat                             (* the requests it has carried out *)
}.

Definition no_page : page_state := mk_page_state ∅ ∅ ∅ None ∅ ∅ ∅ 0 [] ∅ ∅.

Definition emit (o : list output) (s : page_state) : page_state :=
  mk_page_state (mirrors_of s) (objects s) (configs s) (currentConfig s) (initialReposMap s) (saveSeqByRepo s) (requests s) (next s)
    (log s ++ o) (accepted s) (served s).

Definition set_objects (h : mirror_heap) (objs : gmap nat repo) (s : page_state) : page_state :=
  mk_page_state h objs (configs s) (currentConfig s) (initialReposMap s) (saveSeqByRepo s) (requests s) (next s) (log s) (accepted s) (served s).

Definition set_configs (c : gmap nat (list (jstr * nat))) (s : page_state) : page_state :=
  mk_page_state (mirrors_of s) (objects s) c (currentConfig s) (initialReposMap s) (saveSeqByRepo s) (requests s) (next s) (log s) (accepted s) (served s).

Definition set_saved (i : gmap jstr fields) (seqs : gmap jstr nat) (s : page_state) : page_state :=
  mk_page_state (mirrors_of s) (objects s) (configs s) (currentConfig s) i seqs (requests s) (next s) (log s) (accepted s) (served s).

Definition set_requests (r : gmap nat request) (s : page_state) : page_state :=
  mk_page_state (mirrors_of s) (objects s) (configs s) (currentConfig s) (initialReposMap s) (saveSeqByRepo s) r (next s) (log s) (accepted s) (served s).

Definition set_accepted (m : gmap jstr fields) (d : gset nat) (s : page_state) : page_state :=
  mk_page_state (mirrors_of s) (objects s) (configs s) (currentConfig s) (initialReposMap s) (saveSeqByRepo s) (requests s) (next s) (log s) m d.

Definition fresh (s : page_state) : page_state :=
  mk_page_state (mirrors_of s) (objects s) (configs s) (currentConfig s) (initialReposMap s) (saveSeqByRepo s) (requests s) (S (next s))
    (log s) (accepted s) (served s).

Definition send (r : request) (s : page_state) : page_state :=
  emit [Sent (next s) r] (fresh (set_requests (<[next s := r]> (requests s)) s)).

Definition finish (i : nat) (s : page_state) : page_state := set_requests (delete i (requests s)) s.

Definition alter_object (f : repo -> repo) (o : nat) (s : page_state) : page_state :=
  set_objects (mirrors_of s) (alter f o (objects s)) s.

(** [delete config[name]] for a configuration. *)
Definition drop_name (name : jstr) (names : list (jstr * nat)) : list (jstr * nat) :=
  List.filter (fun p => negb (p.1 =? name)%js) names.

(** What follows [await saveRepoSettings(...)], with its result. *)
Definition after_result (after : after_save) (ok : bool) (s : page_state) : page_state :=
  match after, ok with
  | Nothing, _ | CapacityOf _ _, true => s
  | CapacityOf o previous, false => alter_object (with_settings (set_field (js "capacity_limit_bytes") previous)) o s
  | CreationOf name, true =>
    emit (Created name :: match currentConfig s with Some c => [RenderedWith c name] | None => [] end) s
  | CreationOf name, false =>
    match currentConfig s with Some c => set_configs (alter (drop_name name) c (configs s)) s | None => s end
  end.

(** [saveRepoSettings(repoKey, repo, {silent, isCreate})] up to its request. *)
Definition saveRepoSettings (key : jstr) (o : nat) (silent isCreate : bool) (after : after_save) (s : page_state) : page_state :=
  let sq := S (default 0 (saveSeqByRepo s !! key)) in
  let s := set_saved (initialReposMap s) (<[key := sq]> (saveSeqByRepo s)) s in
  match objects s !! o with
  | None => s
  | Some r =>
    let payload := snapshot (mirrors_of s) r in
    if negb isCreate && bool_decide (initialReposMap s !! key = Some payload)
    then after_result after true (if silent then s else emit [Saved key payload] s)
    else send (Put key sq payload silent after) s
  end.

Section page.
Context `{UnicodeCase}.

(** A change of a control of the section of [key], whose object is [o]. *)
Definition change (key : jstr) (o : nat) (e : edit) (s : page_state) : page_state :=
  match objects s !! o with
  | Some r =>
    if has_control (settings r) e then
      match apply_edit e (mirrors_of s) (next s) r with
      | Some (h, r') => saveRepoSettings key o false false Nothing (fresh (set_objects h (<[o := r']> (objects s)) s))
      | None => s
      end
    else s
  | None => s
  end.

(** [repo.capacity_limit_bytes || 0]. *)
Definition previous_capacity (r : repo) : json := default (JNum 0) (js_or (field (js "capacity_limit_bytes") (settings r)) (Some (JNum 0))).

Definition change_capacity (key : jstr) (o : nat) (raw : jstr) (s : page_state) : page_state :=
  match objects s !! o, capacity_bytes raw with
  | Some r, Some bytes =>
    saveRepoSettings key o false false (CapacityOf o (previous_capacity r))
      (alter_object (with_settings (set_field (js "capacity_limit_bytes") (JNum bytes))) o s)
  | _, _ => s
  end.

(** The draft as an object, in the order of its keys. *)
Definition opt_field {A} (k : string) (f : A -> json) (v : option A) : fields :=
  match v with Some a => [(js k, f a)] | None => [] end.

Definition git_json (g : git_repo) : json :=
  JObj [(js "mode", JStr (mode g)); (js "max_version_size_bytes", JNum (max_version_size_bytes g));
        (js "max_daily_traffic_bytes", JNum (max_daily_traffic_bytes g));
        (js "retain_latest_workflow_runs", JBool (retain_latest_workflow_runs g));
        (js "retain_latest_releases", JBool (retain_latest_releases g));
        (js "quota_request_cooldown_hours", JNum (quota_request_cooldown_hours g)); (js "owner", JStr (owner g));
        (js "registered_repos", JArr (map JStr (registered_repos g)))].

Definition draft_fields (d : repository_draft) : fields :=
  [(js "name", JStr (draft_name d)); (js "format", JStr (draft_format d)); (js "visibility", JStr (visibility d))]
  ++ opt_field "mirrors" (fun l => JArr (map JStr l)) (mirrors d)
  ++ opt_field "allow_redeployment" JBool (allow_redeployment d)
  ++ opt_field "require_gpg_signature" JBool (require_gpg_signature d)
  ++ opt_field "git_repo" git_json (draft_git_repo d).

(** A configuration to add to: the current one, or a new empty one. *)
Definition ensure_config (s : page_state) : nat * page_state :=
  match currentConfig s with
  | Some c => (c, s)
  | None =>
    let c := next s in
    (c, fresh (mk_page_state (mirrors_of s) (objects s) (<[c := []]> (configs s)) (Some c) (initialReposMap s) (saveSeqByRepo s)
                 (requests s) (next s) (log s) (accepted s) (served s)))
  end.

Definition submitRepositoryCreation (raw selectedFormat : jstr) (s : page_state) : page_state :=
  let repoName := trim raw in
  if negb (isValidRepositorySlug repoName) then emit [AlertKey (js "repos.invalidRepoName")] s
  else
    let '(c, s) := ensure_config s in
    let names := default [] (configs s !! c) in
    if existsb (fun p => (to_lower p.1 =? to_lower repoName)%js) names then emit [AlertKey (js "repos.repoExists")] s
    else
      let o := next s in
      let '(h, n, r) := read_repo (mirrors_of s) (S o) (draft_fields (createRepositoryDraft repoName (Some selectedFormat))) in
      let s := set_configs (<[c := names ++ [(repoName, o)]]> (configs s)) (set_objects h (<[o := r]> (objects s)) (fresh s)) in
      saveRepoSettings repoName o true true (CreationOf repoName) s.

(** [initRepositories] once its answers are in: the settings, and what the two other answers say of each repository. *)
Definition loaded_fields (statistics : gmap jstr bool) (reviews : gmap jstr jstr) (name : jstr) (o : fields) : fields :=
  set_field (js "_publication_review") (JStr (default (js "off") (reviews !! name)))
    (set_field (js "_download_statistics_enabled")
       (JBool (match statistics !! name with
               | Some b => b
               | None => negb (protocol_is (format_of o) "files")
               end)) o).

Definition load_one (p : jstr * fields) (s : page_state * list (jstr * nat)) : page_state * list (jstr * nat) :=
  let '(s, names) := s in
  let o := next s in
  let '(h, n, r) := read_repo (mirrors_of s) (S o) p.2 in
  (mk_page_state h (<[o := r]> (objects s)) (configs s) (currentConfig s) (initialReposMap s) (saveSeqByRepo s) (requests s)
     n (log s) (accepted s) (served s), names ++ [(p.1, o)]).

Definition load_repositories (repos : list (jstr * fields)) (statistics : gmap jstr bool) (reviews : gmap jstr jstr)
    (s : page_state) : page_state :=
  let data := map (fun p => (p.1, loaded_fields statistics reviews p.1 p.2)) repos in
  let '(s, names) := fold_left (fun s p => load_one p s) data (s, []) in
  let c := next s in
  emit [Rendered c]
    (fresh (mk_page_state (mirrors_of s) (objects s) (<[c := names]> (configs s)) (Some c) (list_to_map data) (saveSeqByRepo s)
              (requests s) (next s) (log s) (sent_settings <$> list_to_map data) (served s))).

(** [handlePublicationReviewChange] after its request was accepted. *)
Definition review_saved (policy : jstr) : repo -> repo :=
  with_settings (fun o =>
    let o := set_field (js "_publication_review") (JStr policy) o in
    if (policy =? js "off")%js then o else set_field (js "allow_redeployment") (JBool false) o).

(** The answer to a request: what the server did, then the handler that awaited it. *)
Definition put_answered (i : nat) (key : jstr) (sq : nat) (payload : fields) (silent : bool) (after : after_save) (a : answer)
    (s : page_state) : page_state :=
  let current := bool_decide (saveSeqByRepo s !! key = Some sq) in
  match a with
  | Lost => after_result after false (if current then emit [AlertKey (js "repos.saveFailed")] (finish i s) else finish i s)
  | Accepted =>
    if current then
      after_result after true
        (emit (SettingsChanged key (field (js "format") payload) :: (if silent then [] else [Saved key payload]))
           (set_saved (<[key := payload]> (initialReposMap s)) (saveSeqByRepo s) (finish i s)))
    else after_result after true (finish i s)
  | Refused | Denied =>
    if current then set_requests (<[i := PutRefused key after]> (requests s)) s
    else after_result after true (finish i s)
  end.

(** The settings that the server accepted last, once it has carried out a request.  What it stores of them is its own
    affair and not modelled ([internal/service/settings/maven.go] keeps tokens and registered repositories that are left
    out, normalises the S3 prefix and the format, and overrides what a format rules out); a review policy that is switched
    on takes redeployment out of them ([review.go]). *)
Definition accept (r : request) (m : gmap jstr fields) : gmap jstr fields :=
  match r with
  | Put key _ payload _ _ => <[key := sent_settings payload]> m
  | Delete key _ => delete key m
  | Review key _ policy =>
    if (policy =? js "off")%js then m else alter (set_field (js "allow_redeployment") (JBool false)) key m
  | _ => m
  end.

Inductive page_event :=
| Load (repos : list (jstr * fields)) (statistics : gmap jstr bool) (reviews : gmap jstr jstr)
| SectionBuilt (o : nat)                          (* [buildRepoSection] for an object *)
| Change (key : jstr) (o : nat) (e : edit)
| ChangeCapacity (key : jstr) (o : nat) (raw : jstr)
| Create (name format : jstr)
| ConfirmDelete (key : jstr) (data : nat)
| ChooseReview (key : jstr) (o : nat) (policy : jstr)
| StatisticsSaved (o : nat) (enabled : bool)      (* the control of the download statistics, whose request was accepted *)
| LanguageChanged
| Handled (i : nat)                               (* the server carries out a request *)
| Answered (i : nat) (a : answer)                 (* the page gets the answer to a request, or none *)
| TextRead (i : nat).                             (* the text of a refusal is there *)

Definition answered (i : nat) (a : answer) (s : page_state) : page_state :=
  match requests s !! i with
  | Some (Put key sq payload silent after) => put_answered i key sq payload silent after a s
  | Some (Delete key data) =>
    match a with
    | Accepted =>
      emit [AlertKey (js "repos.deletedSuccess"); Rendered data]
        (set_configs (alter (drop_name key) data (configs s))
           (set_saved (delete key (initialReposMap s)) (delete key (saveSeqByRepo s)) (finish i s)))
    | Denied => emit [RouteExit] (finish i s)
    | Refused => set_requests (<[i := DeleteRefused]> (requests s)) s
    | Lost => emit [AlertKey (js "repos.failedDelete")] (finish i s)
    end
  | Some (Review key o policy) =>
    match a with
    | Accepted => emit [AlertKey (js "repos.publicationReviewSaved")] (alter_object (review_saved policy) o (finish i s))
    | Refused | Denied => set_requests (<[i := ReviewRefused]> (requests s)) s
    | Lost => emit [AlertKey (js "repos.publicationReviewUpdateFailed")] (finish i s)
    end
  | _ => s
  end.

Definition text_read (i : nat) (s : page_state) : page_state :=
  match requests s !! i with
  | Some (PutRefused key after) => after_result after false (emit [AlertKey (js "repos.saveFailed")] (finish i s))
  | Some DeleteRefused => emit [AlertKey (js "repos.failedDelete")] (finish i s)
  | Some ReviewRefused => emit [AlertKey (js "repos.publicationReviewUpdateFailed")] (finish i s)
  | _ => s
  end.

Definition page_step (ev : page_event) (s : page_state) : page_state :=
  match ev with
  | Load repos statistics reviews => load_repositories repos statistics reviews s
  | SectionBuilt o => alter_object buildRepoSection o s
  | Change key o e => change key o e s
  | ChangeCapacity key o raw => change_capacity key o raw s
  | Create name format => submitRepositoryCreation name format s
  | ConfirmDelete key data => send (Delete key data) s
  | ChooseReview key o policy => send (Review key o policy) s
  | StatisticsSaved o enabled => alter_object (with_settings (set_field (js "_download_statistics_enabled") (JBool enabled))) o s
  | LanguageChanged => match currentConfig s with Some c => emit [Rendered c] s | None => s end
  | Handled i => 
    match requests s !! i with
    | Some r => if bool_decide (i ∈ served s) then s else set_accepted (accept r (accepted s)) ({[i]} ∪ served s) s
    | None => s
    end
  | Answered i a => answered i a s
  | TextRead i => text_read i s
  end.
End page.

(** ** Orderly use
    The saves and deletions of a repository do not overlap, the answers tell what the server did, and no review policy
    is switched on. *)
Definition request_key (r : request) : option jstr :=
  match r with
  | Put key _ _ _ _ | Delete key _ => Some key
  | _ => None
  end.

Definition busy (key : jstr) (s : page_state) : bool :=
  existsb (fun p => bool_decide (request_key p.2 = Some key)) (map_to_list (requests s)).

Definition orderly (ev : page_event) (s : page_state) : bool :=
  match ev with
  | Load _ _ _ => bool_decide (requests s = ∅)
  | Change key _ _ | ChangeCapacity key _ _ | ConfirmDelete key _ => negb (busy key s)
  | Create name _ => negb (busy (trim name) s)
  | ChooseReview _ _ policy => bool_decide (policy = js "off")
  | Answered i Accepted => bool_decide (i ∈ served s)
  | Answered i _ => negb (bool_decide (i ∈ served s))
  | _ => true
  end.

Section orderly.
Context `{UnicodeCase}.

Fixpoint orderly_run (evs : list page_event) (s : page_state) : bool :=
  match evs with
  | [] => true
  | ev :: evs => orderly ev s && orderly_run evs (page_step ev s)
  end.
End orderly.

(** ** Lemmas: what the page knows of what the server accepted *)
Lemma busy_spec key s : busy key s = true <-> exists i r, requests s !! i = Some r /\ request_key r = Some key.
Proof.
  unfold busy. rewrite existsb_exists. split.
  - intros ([i r] & Hin%list_elem_of_In%elem_of_map_to_list & Hk%bool_decide_eq_true). by exists i, r.
  - intros (i & r & Hi & Hk). exists (i, r). split; [by apply list_elem_of_In, elem_of_map_to_list|].
    by apply bool_decide_eq_true.
Qed.

Lemma not_busy key s : busy key s = false -> forall i r, requests s !! i = Some r -> request_key r <> Some key.
Proof. intros Hb i r Hi Hk. assert (busy key s = true) by (apply busy_spec; eauto). congruence. Qed.

(** What the page has recorded of [key], as the server would have accepted it. *)
Definition recorded (key : jstr) (s : page_state) : option fields := sent_settings <$> initialReposMap s !! key.

(** A request in flight: a save is the latest one of its repository, and the server has accepted its settings once it was
    carried out, what the page has recorded until then. *)
Definition request_known (i : nat) (r : request) (s : page_state) : Prop :=
  match r with
  | Put key sq payload _ _ =>
    saveSeqByRepo s !! key = Some sq /\
    (if bool_decide (i ∈ served s) then accepted s !! key = Some (sent_settings payload) else accepted s !! key = recorded key s)
  | Delete key _ => if bool_decide (i ∈ served s) then accepted s !! key = None else accepted s !! key = recorded key s
  | Review _ _ policy => policy = js "off"
  | _ => True
  end.

Record known (s : page_state) : Prop := {
  known_requests : forall i r, requests s !! i = Some r -> request_known i r s;
  known_alone : forall i j r q key, requests s !! i = Some r -> requests s !! j = Some q ->
    request_key r = Some key -> request_key q = Some key -> i = j;
  known_quiet : forall key, busy key s = false -> accepted s !! key = recorded key s;
  known_old : forall i r, requests s !! i = Some r -> i < next s;
  known_served : forall i, i ∈ served s -> i < next s
}.

(** Steps that leave the requests, the saved and the accepted settings alone. *)
Definition same_requests (s t : page_state) : Prop :=
  requests t = requests s /\ initialReposMap t = initialReposMap s /\ saveSeqByRepo t = saveSeqByRepo s /\
  accepted t = accepted s /\ served t = served s /\ next s <= next t.

#[export] Instance same_requests_preorder : PreOrder same_requests.
Proof. split; [by intros s|]. unfold same_requests. intros s t u ? ?. intuition (try congruence; lia). Qed.

Lemma known_frame s t : same_requests s t -> known s -> known t.
Proof.
  intros (Hr & Hi & Hq & Hs & Hd & Hn) [K1 K2 K3 K4 K5].
  assert (Hb : forall key, busy key t = busy key s) by (intros key; unfold busy; by rewrite Hr).
  split.
  - intros i r. rewrite Hr. intros Hl. pose proof (K1 i r Hl) as Hk.
    destruct r; simpl in *; unfold recorded in *; by rewrite ?Hi, ?Hq, ?Hs, ?Hd.
  - intros i j r q key. rewrite Hr. apply K2.
  - intros key. rewrite Hb. unfold recorded. rewrite Hs, Hi. apply K3.
  - intros i r. rewrite Hr. intros Hl%K4. lia.
  - intros i. rewrite Hd. intros Hl%K5. lia.
Qed.

Lemma after_result_same after ok s : same_requests s (after_result after ok s).
Proof. destruct after, ok; simpl; try done; by destruct (currentConfig s). Qed.

Lemma alter_object_same f o s : same_requests s (alter_object f o s).
Proof. done. Qed.

Lemma emit_same o s : same_requests s (emit o s).
Proof. done. Qed.

Lemma fresh_same s : same_requests s (fresh s).
Proof. unfold same_requests. simpl. repeat split; lia. Qed.

Lemma busy_finish i key r s : requests s !! i = Some r -> request_key r <> Some key ->
  busy key (finish i s) = busy key s.
Proof.
  intros Hi Hk. destruct (busy key s) eqn:E; [|apply not_true_is_false].
  - apply busy_spec in E as (j & q & Hj & Hq). apply busy_spec. exists j, q.
    cbn [finish set_requests requests]. rewrite lookup_delete_ne; [done|]. intros ->. congruence.
  - intros (j & q & Hj & Hq)%busy_spec. cbn [finish set_requests requests] in Hj.
    apply lookup_delete_Some in Hj as [_ Hj]. by apply (not_busy key s E j q).
Qed.

(** A step that touches one repository: the others keep their requests and what is known of them. *)
Definition kept (touched : option jstr) (i : nat) (r : request) (s t : page_state) : Prop :=
  requests s !! i = Some r /\ (i ∈ served t <-> i ∈ served s) /\ request_key r <> None /\ request_key r <> touched.

Definition made (touched : option jstr) (i : nat) (r : request) (t : page_state) : Prop :=
  request_known i r t /\ i < next t /\
  forall key, request_key r = Some key ->
    touched = Some key /\ forall j q, requests t !! j = Some q -> request_key q = Some key -> j = i.

Lemma kept_known touched i r s t :
  (forall key, Some key <> touched -> initialReposMap t !! key = initialReposMap s !! key /\
    saveSeqByRepo t !! key = saveSeqByRepo s !! key /\ accepted t !! key = accepted s !! key) ->
  kept touched i r s t -> request_known i r s -> request_known i r t.
Proof.
  intros Ho (_ & Hd & Hk & Hk'). destruct r as [key sq p si a| |key d| |key o pol| ]; simpl in *; try done.
  - destruct (Ho key Hk') as (Hi & Hq & Hs). unfold recorded. rewrite Hi, Hq, Hs.
    by rewrite (bool_decide_ext _ _ Hd).
  - destruct (Ho key Hk') as (Hi & Hq & Hs). unfold recorded. rewrite Hi, Hs. by rewrite (bool_decide_ext _ _ Hd).
Qed.

Lemma known_at touched s t : known s -> next s <= next t -> (forall i, i ∈ served t -> i < next t) ->
  (forall key, Some key <> touched -> initialReposMap t !! key = initialReposMap s !! key /\
    saveSeqByRepo t !! key = saveSeqByRepo s !! key /\ accepted t !! key = accepted s !! key) ->
  (forall i r, requests t !! i = Some r -> kept touched i r s t \/ made touched i r t) ->
  (forall i r, requests s !! i = Some r -> request_key r <> None -> request_key r <> touched -> requests t !! i = Some r) ->
  (forall key, touched = Some key -> busy key t = false -> accepted t !! key = recorded key t) ->
  known t.
Proof.
  intros [K1 K2 K3 K4 K5] Hn Hd Ho Hreq Hkeep Hq. split; [| | | |exact Hd].
  - intros i r Hi. destruct (Hreq i r Hi) as [Hk|[Hm _]]; [|done].
    apply (kept_known touched i r s t Ho Hk), K1, Hk.
  - intros i j r q key Hi Hj Hr Hq'. destruct (Hreq i r Hi) as [Hk|(_ & _ & Hm)].
    + destruct (Hreq j q Hj) as [Hk'|(_ & _ & Hm)].
      * apply (K2 i j r q key); [apply Hk|apply Hk'|done|done].
      * destruct (Hm key Hq') as [Ht _]. destruct Hk as (_ & _ & _ & Hne). congruence.
    + destruct (Hm key Hr) as [_ Hu]. symmetry. by apply (Hu j q).
  - intros key Hb. destruct (decide (touched = Some key)) as [Ht|Ht]; [by apply Hq|].
    destruct (Ho key) as (Hi & _ & Hs); [congruence|]. unfold recorded. rewrite Hs, Hi. apply K3.
    apply not_true_is_false. intros (i & r & Hi' & Hr)%busy_spec. apply (not_busy key t Hb i r); [|done].
    apply Hkeep; congruence.
  - intros i r Hi. destruct (Hreq i r Hi) as [Hk|(_ & Hl & _)]; [|done]. pose proof (K4 i r (proj1 Hk)). lia.
Qed.

(** ** Lemmas: the steps *)
(** A request sent for a repository that has none. *)
Lemma known_send r s : known s -> (forall key, request_key r = Some key -> busy key s = false) ->
  request_known (next s) r s -> known (send r s).
Proof.
  intros K Hb Hr. assert (Hnew : requests s !! next s = None).
  { destruct (requests s !! next s) as [q|] eqn:E; [|done]. apply (known_old _ K) in E. lia. }
  apply (known_at (request_key r) s); cbn [send emit fresh set_requests next served requests initialReposMap saveSeqByRepo accepted]; [done|lia| |done| | |].
  - intros i Hi%(known_served _ K). lia.
  - intros i q [[<- <-]|[Hne Hi]]%lookup_insert_Some.
    + right. split; [exact Hr|]. split; [simpl; lia|]. intros key Hk. split; [done|].
      intros j q Hj Hqk. cbn [send emit fresh set_requests requests] in Hj.
      apply lookup_insert_Some in Hj as [[<- <-]|[Hj Hq]]; [done|]. by destruct (not_busy key s (Hb key Hk) j q Hq).
    + pose proof (known_old _ K i q Hi) as Hlt.
      destruct (decide (request_key q = None)) as [Hq|Hq].
      * right. pose proof (known_requests _ K i q Hi) as Hkn. split; [by destruct q|]. split; [simpl; lia|]. congruence.
      * left. repeat split; try done. intros Heq. destruct (request_key q) as [key|] eqn:E; [|done].
        by destruct (not_busy key s (Hb key (eq_sym Heq)) i q Hi).
  - intros i q Hi Hq Hqr. rewrite lookup_insert_ne; [done|]. intros <-. congruence.
  - intros key Hk Hbt. exfalso. apply (not_busy key _ Hbt (next s) r); [apply lookup_insert_eq|done].
Qed.

(** A request that is over, or whose refusal is being read, with what the page records of its repository. *)
Lemma known_done i r (rest : option request) s t : known s -> requests s !! i = Some r ->
  requests t = (match rest with Some q => <[i := q]> (requests s) | None => delete i (requests s) end) ->
  (forall q, rest = Some q -> request_key q = None /\ request_known i q t) ->
  (forall key, Some key <> request_key r -> initialReposMap t !! key = initialReposMap s !! key /\
    saveSeqByRepo t !! key = saveSeqByRepo s !! key) ->
  accepted t = accepted s -> served t = served s -> next s <= next t ->
  (forall key, request_key r = Some key -> accepted s !! key = recorded key t) ->
  known t.
Proof.
  intros K Hi Hreq Hrest Ho Hs Hd Hn Hq.
  apply (known_at (request_key r) s); [done|done| | | | |].
  - rewrite Hd. intros j Hj%(known_served _ K). lia.
  - intros key Hne. rewrite Hs. destruct (Ho key Hne). done.
  - assert (Hold : forall j q, j <> i -> requests s !! j = Some q -> kept (request_key r) j q s t \/ made (request_key r) j q t).
    { intros j q Hne Hj. pose proof (known_old _ K j q Hj) as Hlt. pose proof (known_requests _ K j q Hj) as Hkn.
      destruct (decide (request_key q = None)) as [E|E].
      - right. split; [by destruct q|]. split; [lia|congruence].
      - left. split; [done|]. rewrite Hd. repeat split; try done. intros Heq.
        destruct (request_key q) as [key|] eqn:E'; [|done]. by apply Hne, (known_alone _ K j i q r key). }
    intros j q. rewrite Hreq. destruct rest as [w|].
    + intros [[<- <-]|[Hne Hj]]%lookup_insert_Some; [|by apply Hold].
      destruct (Hrest w eq_refl) as [Hk Hw]. right. split; [done|].
      pose proof (known_old _ K i r Hi). split; [lia|congruence].
    + intros [Hne Hj]%lookup_delete_Some. by apply Hold.
  - intros j q Hj Hk Hne. rewrite Hreq.
    assert (j <> i) by (intros ->; congruence). destruct rest; [by rewrite lookup_insert_ne|by rewrite lookup_delete_ne].
  - intros key Hk _. rewrite Hs. by apply Hq.
Qed.

Lemma known_handled i r s : known s -> requests s !! i = Some r -> i ∉ served s ->
  known (set_accepted (accept r (accepted s)) ({[i]} ∪ served s) s).
Proof.
  intros K Hi Hns. pose proof (known_requests _ K i r Hi) as Hr. pose proof (known_old _ K i r Hi) as Hlt.
  assert (Haccept : forall key, Some key <> request_key r -> accept r (accepted s) !! key = accepted s !! key).
  { intros key Hne. destruct r; simpl in *; try done.
    - by rewrite lookup_insert_ne by congruence.
    - by rewrite lookup_delete_ne by congruence.
    - subst policy. done. }
  apply (known_at (request_key r) s); cbn [set_accepted next served requests initialReposMap saveSeqByRepo accepted]; [done|lia| | | | |].
  - intros j [->%elem_of_singleton|Hj%(known_served _ K)]%elem_of_union; lia.
  - intros key Hne. split_and!; [done..|by apply Haccept].
  - intros j q Hj. pose proof (known_requests _ K j q Hj) as Hkn. pose proof (known_old _ K j q Hj) as Hlt'.
    destruct (decide (request_key q = request_key r)) as [E|E].
    + right. destruct (request_key q) as [key|] eqn:Eq.
      * assert (j = i) as -> by by apply (known_alone _ K j i q r key). assert (q = r) as -> by congruence.
        split; [|split; [simpl; lia|]].
        -- destruct r; simpl in *; try done.
           ++ rewrite bool_decide_eq_true_2 by set_solver. split; [apply Hr|apply lookup_insert_eq].
           ++ rewrite bool_decide_eq_true_2 by set_solver. apply lookup_delete_eq.
        -- intros key' Hk. split; [congruence|]. intros j q' Hj' Hq'. apply (known_alone _ K j i q' r key'); [exact Hj'|exact Hi|exact Hq'|congruence].
      * split; [by destruct q|]. split; [simpl; lia|congruence].
    + destruct (decide (request_key q = None)) as [Eq|Eq].
      * right. split; [by destruct q|]. split; [simpl; lia|congruence].
      * left. split; [done|]. split; [|done]. cbn [set_accepted served]. split; [|set_solver].
        intros [->%elem_of_singleton|]%elem_of_union; [|done]. congruence.
  - done.
  - intros key Hk Hb. by destruct (not_busy key s Hb i r Hi).
Qed.

Lemma busy_same key s t : same_requests s t -> busy key t = busy key s.
Proof. intros (Hr & _). unfold busy. by rewrite Hr. Qed.

Lemma new_request_unserved s : known s -> next s ∉ served s.
Proof. intros K Hin%(known_served _ K). lia. Qed.

Lemma known_seq key n s : known s -> busy key s = false ->
  known (set_saved (initialReposMap s) (<[key := n]> (saveSeqByRepo s)) s).
Proof.
  intros K Hb. split; cbn [set_saved requests served next]; [|apply (known_alone _ K)|apply (known_quiet _ K)|apply (known_old _ K)|apply (known_served _ K)].
  intros i r Hi. pose proof (known_requests _ K i r Hi) as Hk. pose proof (not_busy key s Hb i r Hi) as Hne.
  destruct r as [k sq p si a| |k d| | | ]; simpl in *; try done.
  rewrite lookup_insert_ne; [done|congruence].
Qed.

Lemma saveRepoSettings_known key o silent isCreate after s : known s -> busy key s = false ->
  known (saveRepoSettings key o silent isCreate after s).
Proof.
  intros K Hb. unfold saveRepoSettings. cbv zeta.
  set (s1 := set_saved _ _ s). assert (K1 : known s1) by by apply known_seq.
  destruct (objects s1 !! o) as [r|]; [|done].
  destruct (negb isCreate && _).
  - eapply known_frame; [apply after_result_same|]. destruct silent; [exact K1|by apply (known_frame s1)].
  - apply known_send; [done| |].
    + by intros k [= <-].
    + cbn [request_known]. split; [apply lookup_insert_eq|].
      rewrite bool_decide_eq_false_2 by by apply new_request_unserved. by apply (known_quiet _ K1).
Qed.

Lemma read_repo_next h n o : n <= (read_repo h n o).1.2.
Proof.
  unfold read_repo. set (l := match field _ _ with Some (JArr l) => l | _ => [] end). clearbody l.
  assert (Hf : forall l p, p.2 <= (fold_left (fun p m => put_mirror m p) l p).2).
  { intros l'. induction l' as [|m l' IH]; intros p; simpl; [lia|]. etrans; [|apply IH]. simpl. lia. }
  specialize (Hf l (h, n)). destruct (fold_left _ _ _) as [h' n'] eqn:E. simpl in *. lia.
Qed.

Section steps.
Context `{UnicodeCase}.

Lemma change_same_or_save key o e s :
  change key o e s = s \/ exists t, same_requests s t /\ change key o e s = saveRepoSettings key o false false Nothing t.
Proof.
  unfold change. destruct (objects s !! o) as [r|]; [|by left]. destruct (has_control _ _); [|by left].
  destruct (apply_edit _ _ _ _) as [[h r']|]; [|by left]. right. eexists. split; [|reflexivity].
  unfold same_requests. simpl. repeat split; lia.
Qed.

Lemma ensure_config_same s : same_requests s (ensure_config s).2.
Proof. unfold ensure_config. destruct (currentConfig s); [done|]. unfold same_requests. simpl. repeat split; lia. Qed.

Lemma submit_same_or_save raw f s :
  same_requests s (submitRepositoryCreation raw f s) \/
  exists o t, same_requests s t /\
    submitRepositoryCreation raw f s = saveRepoSettings (trim raw) o true true (CreationOf (trim raw)) t.
Proof.
  unfold submitRepositoryCreation. cbv zeta. destruct (negb _); [by left|].
  pose proof (ensure_config_same s) as Hc. destruct (ensure_config s) as [c s1]. simpl in Hc.
  destruct (existsb _ _); [left; by etrans; [exact Hc|]|].
  pose proof (read_repo_next (mirrors_of s1) (S (next s1)) (draft_fields (createRepositoryDraft (trim raw) (Some f)))) as Hn.
  destruct (read_repo _ _ _) as [[h n] r]. right. exists (next s1). eexists. split; [|reflexivity].
  etrans; [exact Hc|]. unfold same_requests. simpl. repeat split; lia.
Qed.

Lemma loaded_same l s names :
  let t := (fold_left (fun s p => load_one p s) l (s, names)).1 in same_requests s t.
Proof.
  revert s names. induction l as [|p l IH]; intros s names; [done|]. cbn [fold_left].
  assert (Hp : same_requests s (load_one p (s, names)).1).
  { unfold load_one. pose proof (read_repo_next (mirrors_of s) (S (next s)) p.2) as Hn.
    destruct (read_repo _ _ _) as [[h n] r]. simpl in *. unfold same_requests. simpl. repeat split; lia. }
  destruct (load_one p (s, names)) as [s1 names1]. etrans; [exact Hp|apply IH].
Qed.

Lemma known_load repos st rv s : known s -> requests s = ∅ -> known (load_repositories repos st rv s).
Proof.
  intros K He. unfold load_repositories. cbv zeta. set (data := map _ repos).
  pose proof (loaded_same data s []) as Hl. destruct (fold_left _ _ _) as [t names]. destruct Hl as (Hr & _ & _ & _ & Hd & Hn).
  cbn [fst] in *. split; cbn [emit fresh requests served next]; rewrite ?Hr, ?He, ?Hd.
  - intros i r. by rewrite lookup_empty.
  - intros i j r q key. by rewrite lookup_empty.
  - intros key _. unfold recorded. simpl. apply lookup_fmap.
  - intros i r. by rewrite lookup_empty.
  - intros i Hi%(known_served _ K). lia.
Qed.

Lemma put_answered_known i key sq payload silent after a s :
  known s -> requests s !! i = Some (Put key sq payload silent after) ->
  (a = Accepted <-> i ∈ served s) -> known (put_answered i key sq payload silent after a s).
Proof.
  intros K Hi Ha. pose proof (known_requests _ K i _ Hi) as [Hq Hs].
  unfold put_answered. rewrite (bool_decide_eq_true_2 _ Hq).
  assert (Hun : a <> Accepted -> accepted s !! key = recorded key s).
  { intros Hne. rewrite bool_decide_eq_false_2 in Hs; [done|]. tauto. }
  destruct a.
  - eapply known_frame; [apply after_result_same|].
    apply (known_done i _ None s _ K Hi); cbn [emit set_saved finish set_requests requests initialReposMap saveSeqByRepo accepted served next];
      try done.
    + intros k Hk. split; [|done]. rewrite lookup_insert_ne; [done|]. simpl in Hk. congruence.
    + intros k [= <-]. unfold recorded. cbn [emit set_saved initialReposMap]. rewrite lookup_insert_eq.
      rewrite bool_decide_eq_true_2 in Hs by tauto. done.
  - apply (known_done i _ (Some (PutRefused key after)) s _ K Hi); try done.
    + by intros q [= <-].
    + intros k [= <-]. by apply Hun.
  - apply (known_done i _ (Some (PutRefused key after)) s _ K Hi); try done.
    + by intros q [= <-].
    + intros k [= <-]. by apply Hun.
  - eapply known_frame; [apply after_result_same|].
    apply (known_done i _ None s _ K Hi); try done. intros k [= <-]. by apply Hun.
Qed.

Lemma answered_known i a s : known s -> (a = Accepted <-> i ∈ served s) -> known (answered i a s).
Proof.
  intros K Ha. unfold answered. destruct (requests s !! i) as [r|] eqn:Hi; [|done].
  pose proof (known_requests _ K i r Hi) as Hr.
  destruct r as [key sq p si after|key after|key d| |key o pol|]; try done.
  - by apply put_answered_known.
  - simpl in Hr.
    assert (Hun : a <> Accepted -> accepted s !! key = recorded key s).
    { intros Hne. rewrite bool_decide_eq_false_2 in Hr; [done|]. tauto. }
    destruct a.
    + apply (known_done i _ None s _ K Hi); cbn [emit set_configs set_saved finish set_requests requests initialReposMap saveSeqByRepo accepted served next]; try done.
      * intros k Hk. simpl in Hk. rewrite !lookup_delete_ne by congruence. done.
      * intros k [= <-]. unfold recorded. cbn [emit set_configs set_saved initialReposMap]. rewrite lookup_delete_eq.
        rewrite bool_decide_eq_true_2 in Hr by tauto. done.
    + apply (known_done i _ (Some DeleteRefused) s _ K Hi); try done; [by intros q [= <-]|intros k [= <-]; by apply Hun].
    + apply (known_done i _ None s _ K Hi); try done. intros k [= <-]. by apply Hun.
    + apply (known_done i _ None s _ K Hi); try done. intros k [= <-]. by apply Hun.
  - destruct a.
    1,4: by apply (known_done i _ None s _ K Hi).
    all: apply (known_done i _ (Some ReviewRefused) s _ K Hi); try done; by intros q [= <-].
Qed.

Lemma text_read_known i s : known s -> known (text_read i s).
Proof.
  intros K. unfold text_read. destruct (requests s !! i) as [r|] eqn:Hi; [|done].
  destruct r; try done.
  - eapply known_frame; [apply after_result_same|]. by apply (known_done i _ None s _ K Hi).
  - by apply (known_done i _ None s _ K Hi).
  - by apply (known_done i _ None s _ K Hi).
Qed.

Lemma page_step_known ev s : known s -> orderly ev s = true -> known (page_step ev s).
Proof.
  intros K Ho. destruct ev as [repos st rv|o|key o e|key o raw|name f|key d|key o pol|o b| |i|i a|i]; simpl in Ho |- *.
  - apply known_load; [done|]. by apply bool_decide_eq_true in Ho.
  - by apply (known_frame s).
  - apply negb_true_iff in Ho. destruct (change_same_or_save key o e s) as [->|(t & Ht & ->)]; [done|].
    apply saveRepoSettings_known; [by apply (known_frame s)|]. by rewrite (busy_same key s t Ht).
  - apply negb_true_iff in Ho. unfold change_capacity. destruct (objects s !! o) as [r|]; [|done].
    destruct (capacity_bytes raw) as [bytes|]; [|done]. apply saveRepoSettings_known; [by apply (known_frame s)|done].
  - apply negb_true_iff in Ho. destruct (submit_same_or_save name f s) as [Hs|(o & t & Ht & ->)]; [by apply (known_frame s)|].
    apply saveRepoSettings_known; [by apply (known_frame s)|]. by rewrite (busy_same _ s t Ht).
  - apply negb_true_iff in Ho. apply known_send; [done|by intros k [= <-]|].
    simpl. rewrite bool_decide_eq_false_2 by by apply new_request_unserved. by apply (known_quiet _ K).
  - apply bool_decide_eq_true in Ho. by apply known_send.
  - by apply (known_frame s).
  - destruct (currentConfig s); [by apply (known_frame s)|done].
  - destruct (requests s !! i) as [r|] eqn:Hi; [|done]. case_bool_decide; [done|]. by apply known_handled.
  - apply answered_known; [done|]. destruct a; case_bool_decide; naive_solver.
  - by apply text_read_known.
Qed.
End steps.

(** ** Lemmas: what the page announces *)
(** What a step logs announces a save only of what the server accepted last. *)
Definition truthful (s t : page_state) : Prop :=
  exists out, log t = log s ++ out /\
    forall key content, Saved key content ∈ out -> accepted t !! key = Some (sent_settings content).

(** A step that announces no save. *)
Definition discreet (s t : page_state) : Prop :=
  exists out, log t = log s ++ out /\ forall key content, Saved key content ∉ out.

Lemma discreet_refl s t : log t = log s -> discreet s t.
Proof. intros E. exists []. rewrite app_nil_r. split; [done|]. intros. apply not_elem_of_nil. Qed.

Lemma discreet_trans s t u : discreet s t -> discreet t u -> discreet s u.
Proof.
  intros (o1 & E1 & H1) (o2 & E2 & H2). exists (o1 ++ o2). rewrite E2, E1, (assoc_L (++)). split; [done|].
  intros k c [Hin|Hin]%elem_of_app; [by eapply H1|by eapply H2].
Qed.

Lemma discreet_truthful s t : discreet s t -> truthful s t.
Proof. intros (o & E & Hn). exists o. split; [done|]. intros k c Hin. by destruct (Hn k c). Qed.

Lemma truthful_after s t u : discreet s t -> truthful t u -> truthful s u.
Proof.
  intros (o1 & E1 & H1) (o2 & E2 & H2). exists (o1 ++ o2). rewrite E2, E1, (assoc_L (++)). split; [done|].
  intros k c [Hin|Hin]%elem_of_app; [by destruct (H1 k c)|by apply H2].
Qed.

Lemma truthful_before s t u : truthful s t -> discreet t u -> accepted u = accepted t -> truthful s u.
Proof.
  intros (o1 & E1 & H1) (o2 & E2 & H2) Hs. exists (o1 ++ o2). rewrite E2, E1, (assoc_L (++)), Hs. split; [done|].
  intros k c [Hin|Hin]%elem_of_app; [by apply H1|by destruct (H2 k c)].
Qed.

Lemma emit_discreet o s : (forall key content, Saved key content ∉ o) -> discreet s (emit o s).
Proof. intros Hn. by exists o. Qed.

Lemma emit_one_discreet o s : (forall key content, o <> Saved key content) -> discreet s (emit [o] s).
Proof. intros Hn. apply emit_discreet. intros k c Hin%list_elem_of_singleton. by apply (Hn k c). Qed.

Lemma send_discreet r s : discreet s (send r s).
Proof. exists [Sent (next s) r]. split; [done|]. by intros k c ?%list_elem_of_singleton. Qed.

Lemma after_result_discreet after ok s : discreet s (after_result after ok s).
Proof.
  destruct after as [|o p|name], ok; simpl; try by apply discreet_refl.
  - apply emit_discreet. intros k c. destruct (currentConfig s); rewrite !elem_of_cons, elem_of_nil; [by intros [?|[?|?]]|by intros [?|?]].
  - destruct (currentConfig s); by apply discreet_refl.
Qed.

Lemma after_result_accepted after ok s : accepted (after_result after ok s) = accepted s.
Proof. destruct after, ok; simpl; try done. by destruct (currentConfig s). Qed.

Lemma saveRepoSettings_truthful key o silent isCreate after s : known s -> busy key s = false ->
  truthful s (saveRepoSettings key o silent isCreate after s).
Proof.
  intros K Hb. unfold saveRepoSettings. cbv zeta. set (s1 := set_saved _ _ s).
  assert (Hs1 : discreet s s1) by by apply discreet_refl.
  destruct (objects s1 !! o) as [r|]; [|by apply discreet_truthful].
  destruct (negb isCreate && _) eqn:E.
  - apply andb_true_iff in E as [_ Hi%bool_decide_eq_true]. apply (truthful_after s s1); [done|].
    apply (truthful_before s1 (if silent then s1 else emit [Saved key (snapshot (mirrors_of s1) r)] s1));
      [|apply after_result_discreet|apply after_result_accepted].
    destruct silent; [by apply discreet_truthful, discreet_refl|].
    exists [Saved key (snapshot (mirrors_of s1) r)]. split; [done|]. intros k c [= -> ->]%list_elem_of_singleton.
    cbn [emit accepted]. change (accepted s1) with (accepted s). rewrite (known_quiet _ K key Hb). unfold recorded.
    change (initialReposMap s) with (initialReposMap s1). by rewrite Hi.
  - apply discreet_truthful. eapply discreet_trans; [exact Hs1|]. apply send_discreet.
Qed.

Section announcements.
Context `{UnicodeCase}.

Lemma same_save_discreet s t u : same_requests s t -> log t = log s -> truthful t u -> truthful s u.
Proof. intros _ E. apply truthful_after. by apply discreet_refl. Qed.

Lemma loaded_log l s names : log (fold_left (fun s p => load_one p s) l (s, names)).1 = log s.
Proof.
  revert s names. induction l as [|p l IH]; intros s names; [done|]. cbn [fold_left].
  assert (Hp : log (load_one p (s, names)).1 = log s) by (unfold load_one; by destruct (read_repo _ _ _) as [[h n] r]).
  destruct (load_one p (s, names)) as [s1 names1]. by rewrite IH.
Qed.

Lemma submit_truthful raw f s : known s -> busy (trim raw) s = false -> truthful s (submitRepositoryCreation raw f s).
Proof.
  intros K Hb. unfold submitRepositoryCreation. cbv zeta.
  destruct (negb _); [by apply discreet_truthful, emit_one_discreet|].
  pose proof (ensure_config_same s) as Hc. assert (Hl : log (ensure_config s).2 = log s) by (unfold ensure_config; by destruct (currentConfig s)).
  destruct (ensure_config s) as [c s1]. simpl in Hc, Hl. apply (same_save_discreet s s1); [done|done|].
  destruct (existsb _ _); [by apply discreet_truthful, emit_one_discreet|].
  pose proof (read_repo_next (mirrors_of s1) (S (next s1)) (draft_fields (createRepositoryDraft (trim raw) (Some f)))) as Hn.
  destruct (read_repo _ _ _) as [[h n] r].
  set (t := set_configs _ _). assert (Ht : same_requests s1 t) by (unfold same_requests; simpl; repeat split; lia).
  apply (same_save_discreet s1 t); [done|done|]. apply saveRepoSettings_truthful.
  - by apply (known_frame s1), (known_frame s).
  - rewrite (busy_same _ s1 t Ht). by rewrite (busy_same _ s s1 Hc).
Qed.

Lemma answered_truthful i a s : known s -> (a = Accepted <-> i ∈ served s) -> truthful s (answered i a s).
Proof.
  intros K Ha. unfold answered. destruct (requests s !! i) as [r|] eqn:Hi; [|by apply discreet_truthful, discreet_refl].
  pose proof (known_requests _ K i r Hi) as Hr.
  destruct r as [key sq p si after|key after|key d| |key o pol|]; try (by apply discreet_truthful, discreet_refl).
  - destruct Hr as [Hq Hs]. unfold put_answered. rewrite (bool_decide_eq_true_2 _ Hq).
    destruct a; try (by apply discreet_truthful, discreet_refl).
    + eapply truthful_before; [|apply after_result_discreet|apply after_result_accepted].
      eexists. split; [reflexivity|]. intros k c Hin. apply elem_of_cons in Hin as [Hin|Hin]; [done|].
      destruct si; [by apply elem_of_nil in Hin|]. apply list_elem_of_singleton in Hin as [= -> ->].
      rewrite bool_decide_eq_true_2 in Hs by tauto. done.
    + apply discreet_truthful. eapply discreet_trans; [|apply after_result_discreet].
      eapply (discreet_trans _ (finish i s)); [by apply discreet_refl|]. by apply emit_one_discreet.
  - apply discreet_truthful. destruct a; try (by apply discreet_refl).
    + exists [AlertKey (js "repos.deletedSuccess"); Rendered d]. split; [done|]. intros k c. rewrite !elem_of_cons, elem_of_nil.
      by intros [?|[?|?]].
    + by apply (discreet_trans _ (finish i s)); [apply discreet_refl|apply emit_one_discreet].
    + by apply (discreet_trans _ (finish i s)); [apply discreet_refl|apply emit_one_discreet].
  - apply discreet_truthful. destruct a; try (by apply discreet_refl).
    + exists [AlertKey (js "repos.publicationReviewSaved")]. split; [done|]. intros k c. by intros ?%list_elem_of_singleton.
    + by apply (discreet_trans _ (finish i s)); [apply discreet_refl|apply emit_one_discreet].
Qed.

Lemma page_step_truthful ev s : known s -> orderly ev s = true -> truthful s (page_step ev s).
Proof.
  intros K Ho. destruct ev as [repos st rv|o|key o e|key o raw|name f|key d|key o pol|o b| |i|i a|i]; simpl in Ho |- *.
  - apply discreet_truthful. unfold load_repositories. cbv zeta. set (data := map _ repos).
    pose proof (loaded_log data s []) as Hl. destruct (fold_left _ _ _) as [t names]. simpl in Hl.
    exists [Rendered (next t)]. split; [simpl; by rewrite Hl|]. by intros k c ?%list_elem_of_singleton.
  - by apply discreet_truthful, discreet_refl.
  - apply negb_true_iff in Ho. unfold change. destruct (objects s !! o) as [r|]; [|by apply discreet_truthful, discreet_refl].
    destruct (has_control _ _); [|by apply discreet_truthful, discreet_refl].
    destruct (apply_edit _ _ _ _) as [[h r']|]; [|by apply discreet_truthful, discreet_refl].
    set (t := fresh _). assert (Ht : same_requests s t) by (unfold same_requests; simpl; repeat split; lia).
    apply (same_save_discreet s t); [done|done|].
    apply saveRepoSettings_truthful; [by apply (known_frame s)|]. by rewrite (busy_same key s t Ht).
  - apply negb_true_iff in Ho. unfold change_capacity. destruct (objects s !! o) as [r|]; [|by apply discreet_truthful, discreet_refl].
    destruct (capacity_bytes raw) as [bytes|]; [|by apply discreet_truthful, discreet_refl].
    set (t := alter_object _ _ _). apply (same_save_discreet s t); [done|done|].
    apply saveRepoSettings_truthful; [by apply (known_frame s)|done].
  - apply negb_true_iff in Ho. by apply submit_truthful.
  - apply discreet_truthful, send_discreet.
  - apply discreet_truthful, send_discreet.
  - by apply discreet_truthful, discreet_refl.
  - apply discreet_truthful. destruct (currentConfig s); [by apply emit_one_discreet|by apply discreet_refl].
  - apply discreet_truthful. destruct (requests s !! i); [|by apply discreet_refl]. case_bool_decide; by apply discreet_refl.
  - apply answered_truthful; [done|]. destruct a; case_bool_decide; naive_solver.
  - apply discreet_truthful. unfold text_read. destruct (requests s !! i) as [[]|]; try by apply discreet_refl.
    + eapply discreet_trans; [|apply after_result_discreet]. apply (discreet_trans _ (finish i s)); [by apply discreet_refl|by apply emit_one_discreet].
    + apply (discreet_trans _ (finish i s)); [by apply discreet_refl|by apply emit_one_discreet].
    + apply (discreet_trans _ (finish i s)); [by apply discreet_refl|by apply emit_one_discreet].
Qed.
End announcements.

(** ** Lemmas: edits *)
Lemma field_set_ne k k' v o : k' <> k -> field k' (set_field k v o) = field k' o.
Proof.
  intros Hne. induction o as [|[k0 w] o IH]; simpl; [by rewrite bool_decide_eq_false_2 by congruence|].
  destruct (bool_decide_reflect (k0 = k)) as [->|]; simpl; [|by rewrite IH].
  by rewrite bool_decide_eq_false_2 by congruence.
Qed.

Lemma field_delete_ne k k' o : k' <> k -> field k' (delete_field k o) = field k' o.
Proof.
  intros Hne. unfold delete_field. induction o as [|[k0 w] o IH]; simpl; [done|].
  destruct (bool_decide_reflect (k0 = k)) as [->|]; simpl; rewrite IH; [|done].
  rewrite (bool_decide_eq_false_2 (k = k')) by congruence. by destruct (field k' o).
Qed.

Lemma field_set_or_delete_ne k k' v o : k' <> k -> field k' (set_or_delete k v o) = field k' o.
Proof. intros Hne. unfold set_or_delete. destruct (nonempty v); [by apply field_set_ne|by apply field_delete_ne]. Qed.

Lemma field_set_inner_ne k k' l v o : k' <> k -> field k' (set_inner k l v o) = field k' o.
Proof. intros Hne. unfold set_inner. destruct (field k o) as [[]|]; try done. by apply field_set_ne. Qed.

(** With distinct keys a field that is set is the one read, and it keeps its place. *)
Lemma field_absent k o : k ∉ map fst o -> field k o = None.
Proof.
  induction o as [|[k0 w] o IH]; simpl; [done|]. rewrite not_elem_of_cons. intros [Hne Hk]. rewrite (IH Hk).
  by rewrite bool_decide_eq_false_2 by congruence.
Qed.

Lemma field_set_eq k v o : NoDup (map fst o) -> field k (set_field k v o) = Some v.
Proof.
  induction o as [|[k0 w] o IH]; simpl; intros Hd; [by rewrite bool_decide_eq_true_2|].
  apply NoDup_cons in Hd as [Hk Hd]. destruct (bool_decide_reflect (k0 = k)) as [->|]; simpl.
  - by rewrite (field_absent k o Hk), bool_decide_eq_true_2.
  - by rewrite (IH Hd).
Qed.

Lemma field_snapshot h r k : k <> js "mirrors" -> field k (snapshot h r) = field k (settings r).
Proof.
  intros Hne. unfold snapshot. induction (settings r) as [|[k0 w] o IH]; [done|]. cbn [map].
  destruct (bool_decide_reflect (fst (k0, w) = js "mirrors")) as [Hk|Hk]; cbn [field fst snd] in *; rewrite IH; [|done].
  rewrite (bool_decide_eq_false_2 (k0 = k)) by congruence. done.
Qed.

(** The field an edit may change, and the mirror. *)
Definition edited_field `{UnicodeCase} (o : fields) (e : edit) : jstr :=
  match e with
  | Visibility _ => js "visibility"
  | Redeployment _ => js "allow_redeployment"
  | GpgRequirement _ => js "require_gpg_signature"
  | MavenLayout _ => js "format"
  | RepositoryProxy _ => js "proxy"
  | S3Enabled _ | S3Text _ _ | S3ForcePathStyle _ | S3RedirectDownloads _ => js "s3"
  | GitMode _ | GitMaxVersion _ | GitDailyTraffic _ | GitRetainWorkflows _ | GitRetainReleases _ | GitCooldown _ => js "git_repo"
  | GitToken _ => git_token_field o
  | AddMirror _ _ | RemoveMirror _ | MirrorEdit _ _ => js "mirrors"
  end.

Definition edited_mirror (next : nat) (e : edit) : option nat :=
  match e with
  | AddMirror _ _ => Some next
  | MirrorEdit m _ => Some m
  | _ => None
  end.

Lemma apply_edit_field `{UnicodeCase} e h n r h' r' : apply_edit e h n r = Some (h', r') ->
  forall k, k <> edited_field (settings r) e -> field k (settings r') = field k (settings r).
Proof.
  intros E k Hne. destruct e; cbn [apply_edit edited_field] in *; try (injection E as <- <-; cbn [with_settings settings mirror_list]);
    try (by apply field_set_ne); try (by apply field_set_or_delete_ne); try (by apply field_set_inner_ne); try done.
  - destruct (truthy _); [done|]. cbn [settings]. by apply field_set_ne.
  - destruct (edit_mirror _ _) as [o|]; [|done]. by injection E as <- <-.
Qed.

Lemma apply_edit_mirrors `{UnicodeCase} e h n r h' r' : apply_edit e h n r = Some (h', r') ->
  (forall m, Some m <> edited_mirror n e -> h' !! m = h !! m) /\
  match e with
  | AddMirror _ _ => exists l, mirror_list r' = l ++ [n] /\ (truthy (field (js "mirrors") (settings r)) = true -> l = mirror_list r)
  | RemoveMirror m => mirror_list r' = List.filter (fun i => negb (i =? m)) (mirror_list r)
  | _ => mirror_list r' = mirror_list r
  end.
Proof.
  intros E. destruct e; cbn [apply_edit edited_mirror] in *; try (injection E as <- <-; done).
  - injection E as <- <-. split; [intros m Hm; apply lookup_insert_ne; congruence|].
    cbn [mirror_list]. eexists. split; [reflexivity|]. by intros ->.
  - destruct (edit_mirror _ _) as [o|]; [|done]. injection E as <- <-. split; [|done].
    intros m' Hm. apply lookup_insert_ne. congruence.
Qed.

Lemma math_round_nonneg x z : (match x with Fin m _ => (0 <= m)%Z | _ => True end) -> math_round x = Some z -> (0 <= z)%Z.
Proof.
  destruct x as [| |m e]; [done..|]. simpl. intros Hm [= <-]. destruct (Z.leb_spec 0 e).
  - apply Z.mul_nonneg_nonneg; [done|]. by apply Z.pow_nonneg.
  - assert (0 < 2 ^ (- e))%Z by (apply Z.pow_pos_nonneg; lia). apply Z.div_pos; lia.
Qed.

Lemma round_half_even_nonneg a b : (0 <= a)%Z -> (0 < b)%Z -> (0 <= round_half_even a b)%Z.
Proof.
  intros Ha Hb. unfold round_half_even. pose proof (Z.div_pos a b Ha Hb). destruct (_ ?= _)%Z; [|lia|lia].
  destruct (Z.even _); lia.
Qed.

Lemma round_ratio_nonneg a b : (0 <= a)%Z -> (0 < b)%Z ->
  match round_ratio false a b with Fin m _ => (0 <= m)%Z | Inf n => n = false | NaN => False end.
Proof.
  intros Ha Hb. unfold round_ratio. destruct (Z.eqb_spec a 0); [done|]. cbv zeta.
  set (q := if (0 <=? ulp_exponent a b)%Z then _ else _).
  assert (Hq : (0 <= q)%Z).
  { unfold q. destruct (Z.leb_spec 0 (ulp_exponent a b)); apply round_half_even_nonneg; try lia.
    all: pose proof (Z.pow_nonneg 2 (- ulp_exponent a b)); pose proof (Z.pow_pos_nonneg 2 (ulp_exponent a b)); nia. }
  by destruct (_ && _).
Qed.

Lemma double_scale_nonneg m e k : (0 <= m)%Z -> (0 <= k)%Z ->
  match double_scale (Fin m e) k with Fin m' _ => (0 <= m')%Z | Inf n => n = false | NaN => False end.
Proof.
  intros Hm Hk. unfold double_scale. destruct (Z.leb_spec 0 e); apply round_ratio_nonneg.
  all: pose proof (Z.pow_nonneg 2 e); pose proof (Z.pow_pos_nonneg 2 (- e)); nia.
Qed.

Lemma positive_Fin m e : positive (Fin m e) = true <-> (0 < m)%Z.
Proof.
  unfold positive, double_lt. cbv zeta. rewrite Z.mul_0_l.
  assert (0 < 2 ^ (e - Z.min 0 e))%Z by (apply Z.pow_pos_nonneg; lia). rewrite Z.ltb_lt. nia.
Qed.

Lemma scaled_bytes_nonneg raw unit z : (0 <= unit)%Z -> scaled_bytes raw unit = JNum z -> (0 <= z)%Z.
Proof.
  intros Hu. unfold scaled_bytes. destruct (positive (Number raw)) eqn:Hp; [|by intros [= <-]].
  destruct (math_round _) as [z'|] eqn:Hz; [|done]. intros [= <-]. apply (math_round_nonneg _ _ ) in Hz; [done|].
  destruct (Number raw) as [|[]|m e]; try done. apply positive_Fin in Hp.
  pose proof (double_scale_nonneg m e unit ltac:(lia) Hu). by destruct (double_scale _ _).
Qed.

Lemma capacity_bytes_bounds raw bytes : capacity_bytes raw = Some bytes ->
  (0 <= bytes < 2 ^ 53)%Z /\ (positive (Number raw) = true <-> bytes <> 0%Z).
Proof.
  unfold capacity_bytes. cbv zeta. destruct (negb _); [done|]. destruct (Number raw) as [| |m e]; [done..|].
  destruct (Z.ltb_spec m 0); [done|]. destruct (math_round _) as [b|] eqn:Hb; [|done].
  destruct (safe_integer b) eqn:Hs; simpl; [|done].
  destruct (positive (Fin m e) && _) eqn:Hz; [done|]. intros [= <-].
  assert (0 <= b)%Z.
  { apply (math_round_nonneg _ _) in Hb; [done|]. pose proof (double_scale_nonneg m e 1048576 ltac:(lia) ltac:(lia)). by destruct (double_scale _ _). }
  unfold safe_integer in Hs. apply Z.leb_le in Hs. split; [lia|].
  destruct (positive (Fin m e)) eqn:Hp; simpl in Hz.
  - apply Z.eqb_neq in Hz. done.
  - split; [done|]. intros Hb0. exfalso. apply Hb0. assert (m = 0)%Z as ->.
    { destruct (Z.eq_dec m 0%Z); [done|]. assert (positive (Fin m e) = true) by (apply positive_Fin; lia). congruence. }
    unfold double_scale in Hb. rewrite !Z.mul_0_l in Hb. destruct (0 <=? e)%Z; by injection Hb as <-.
Qed.

Lemma count_of_nonneg n z : count_of n = Some z -> (0 <= z)%Z.
Proof.
  destruct n as [| |m e]; [done..|]. simpl. destruct (Z.ltb_spec m 0); [done|]. intros [= <-].
  unfold math_trunc. destruct (Z.leb_spec 0 e).
  - apply Z.mul_nonneg_nonneg; [done|]. by apply Z.pow_nonneg.
  - apply Z.quot_pos; [done|]. apply Z.pow_pos_nonneg; lia.
Qed.

(** ** Properties *)
Module Examples.
#[local] Existing Instance latin_case.
Local Open Scope Z_scope.

Abbreviation run := (fold_left (fun s ev => page_step ev s)).

Definition data_fields (format : string) : fields :=
  [(js "name", JStr (js "data")); (js "format", JStr (js format)); (js "visibility", JStr (js "PUBLIC"));
   (js "mirrors", JArr [JObj [(js "name", JStr (js "Central"))]]); (js "allow_redeployment", JBool true);
   (js "capacity_limit_bytes", JNum 0); (js "s3", default_s3)].

Definition loaded (format : string) : page_state := page_step (Load [(js "data", data_fields format)] ∅ ∅) no_page.

Definition stored (k : string) (s : page_state) : option json := o ← accepted s !! js "data"; field (js k) o.
Definition shown (k : string) (s : page_state) : option json := r ← objects s !! 0%nat; field (js k) (settings r).

(** Choosing a visibility and taking it back while the first save is under way: the second save finds the settings as
    they were loaded, announces them saved and sends nothing, and the server ends with the first choice. *)
Definition taken_back : page_state :=
  run [Change (js "data") 0 (Visibility (js "PRIVATE")); Change (js "data") 0 (Visibility (js "PUBLIC"));
       Handled 4; Answered 4 Accepted] (loaded "files").

Lemma revert_lost :
  shown "visibility" taken_back = Some (JStr (js "PUBLIC")) /\ stored "visibility" taken_back = Some (JStr (js "PRIVATE")) /\
  requests taken_back = ∅ /\
  existsb (fun o => match o with Saved _ c => bool_decide (field (js "visibility") c = Some (JStr (js "PUBLIC"))) | _ => false end)
    (log taken_back) = true.
Proof. vm_compute. done. Qed.

(** Switching review on and off again switches redeployment off at the server; switching it on again is then found
    unchanged, announced as saved, and not sent. *)
Definition reviewed : page_state :=
  run [ChooseReview (js "data") 0 (js "every_version"); Handled 3; Answered 3 Accepted;
       ChooseReview (js "data") 0 (js "off"); Handled 4; Answered 4 Accepted;
       Change (js "data") 0 (Redeployment true)] (loaded "maven").

Lemma review_skips_save :
  shown "allow_redeployment" reviewed = Some (JBool true) /\ stored "allow_redeployment" reviewed = Some (JBool false) /\
  requests reviewed = ∅ /\
  match last (log reviewed) with Some (Saved k _) => k = js "data" | _ => False end.
Proof. vm_compute. done. Qed.

(** A save of the capacity whose connection fails after a later save took the capacity along: the page goes back to the
    old capacity, which its next save will send. *)
Definition rolled_back : page_state :=
  run [ChangeCapacity (js "data") 0 (js "1"); Change (js "data") 0 (Visibility (js "HIDDEN"));
       Answered 3 Lost; Handled 5; Answered 5 Accepted] (loaded "maven").

Lemma capacity_rollback :
  shown "capacity_limit_bytes" rolled_back = Some (JNum 0) /\ stored "capacity_limit_bytes" rolled_back = Some (JNum 1048576).
Proof. vm_compute. done. Qed.

(** A creation, in order: the name is free, and the draft stays only if the server accepts it. *)
Definition creation : list page_event :=
  [Create (js " crates ") (js "cargo"); Create (js "Crates") (js "npm"); Create (js "DATA") (js "npm")].

Lemma creation_checked :
  log (run creation (loaded "maven")) = log (page_step (Create (js " crates ") (js "cargo")) (loaded "maven")) ++
    [AlertKey (js "repos.invalidRepoName"); AlertKey (js "repos.invalidRepoName")].
Proof. vm_compute. reflexivity. Qed.

(** Used in order, with a mirror added and removed, and a time-out changed. *)
Definition orderly_events : list page_event :=
  [Load [(js "data", data_fields "maven")] ∅ ∅; SectionBuilt 0; Change (js "data") 0 (AddMirror (js "Mirror") (js "2026-01-01"));
   Handled 4; Answered 4 Accepted; Change (js "data") 0 (MirrorEdit 3 (MirrorTimeout (js "45")));
   Handled 6; Answered 6 Accepted; Change (js "data") 0 (RemoveMirror 1); Answered 8 Refused; TextRead 8].
End Examples.

Section runs.
Context `{UnicodeCase}.

Lemma known_no_page : known no_page.
Proof.
  split; cbn [no_page requests served next].
  - intros i r. by rewrite lookup_empty.
  - intros i j r q key. by rewrite lookup_empty.
  - intros key _. unfold recorded. simpl. by rewrite !lookup_empty.
  - intros i r. by rewrite lookup_empty.
  - intros i. by intros ?%elem_of_empty.
Qed.

Lemma orderly_run_known evs s : known s -> orderly_run evs s = true -> known (fold_left (fun s ev => page_step ev s) evs s).
Proof.
  revert s. induction evs as [|ev evs IH]; intros s K; simpl; [done|]. intros [Ho Hr]%andb_true_iff.
  apply IH; [by apply page_step_known|done].
Qed.

(** A change is sent, or announced as saved, with the settings as they are after it. *)
Lemma change_sent key o e r h r' s : objects s !! o = Some r -> has_control (settings r) e = true ->
  apply_edit e (mirrors_of s) (next s) r = Some (h, r') ->
  let t := page_step (Change key o e) s in
  log t = log s ++ [Saved key (snapshot h r')] \/
  exists i sq, requests t !! i = Some (Put key sq (snapshot h r') false Nothing) /\
               log t = log s ++ [Sent i (Put key sq (snapshot h r') false Nothing)].
Proof.
  intros Ho Hc He t. subst t. cbn [page_step]. unfold change. rewrite Ho, Hc, He. unfold saveRepoSettings. cbv zeta.
  cbn [fresh set_objects set_saved objects mirrors_of]. rewrite lookup_insert_eq. destruct (negb false && _); [by left|].
  right. eexists _, _. cbn [send emit fresh set_requests requests next set_saved set_objects log].
  split; [apply lookup_insert_eq|reflexivity].
Qed.
End runs.

(** C19: the saving of repository settings, when the saves and deletions of a repository do not overlap, the page is loaded
    while no request is under way, answers arrive (success once the server has carried the request out, a refusal or a
    failure only if it never does), and no review policy is switched on.  Then what the page takes for the saved settings of
    a repository without a save or deletion under way is what the server listed or accepted last, a save under way is the
    latest one and the only request of its repository, a change is sent (or announced as saved) with the settings as they
    are after it, and settings are announced as saved only if they are exactly what the server listed or accepted last for
    that repository.  What the server stores of settings it accepts is not claimed.  Overlapping saves, a lost answer and a
    review policy switched on break this ([Examples]). *)
Theorem saved_settings_accepted `{UnicodeCase} evs :
  orderly_run evs no_page = true ->
  let s := fold_left (fun s ev => page_step ev s) evs no_page in
  (forall key, busy key s = false -> accepted s !! key = sent_settings <$> initialReposMap s !! key) /\
  (forall i key sq payload silent after, requests s !! i = Some (Put key sq payload silent after) ->
    saveSeqByRepo s !! key = Some sq /\
    forall j r, requests s !! j = Some r -> request_key r = Some key -> j = i) /\
  (forall key o e r h r', objects s !! o = Some r -> has_control (settings r) e = true ->
    apply_edit e (mirrors_of s) (next s) r = Some (h, r') ->
    let t := page_step (Change key o e) s in
    log t = log s ++ [Saved key (snapshot h r')] \/
    exists i sq, requests t !! i = Some (Put key sq (snapshot h r') false Nothing) /\
                 log t = log s ++ [Sent i (Put key sq (snapshot h r') false Nothing)]) /\
  (forall ev, orderly ev s = true ->
    exists out, log (page_step ev s) = log s ++ out /\
      forall key content, Saved key content ∈ out -> accepted (page_step ev s) !! key = Some (sent_settings content)).
Proof.
  intros Ho s. assert (K : known s) by (by apply orderly_run_known; [apply known_no_page|]).
  split_and!; [apply (known_quiet _ K)| |intros key o e r h r'; apply change_sent|intros ev; by apply page_step_truthful].
  intros i key sq payload silent after Hi. destruct (known_requests _ K i _ Hi) as [Hq _]. split; [done|].
  intros j r Hj Hr. by apply (known_alone _ K j i r _ key Hj Hi).
Qed.

Lemma saved_settings_accepted_witness :
  let s := fold_left (fun s ev => @page_step latin_case ev s) Examples.orderly_events no_page in
  @orderly_run latin_case Examples.orderly_events no_page = true /\
  accepted s !! js "data" = sent_settings <$> initialReposMap s !! js "data" /\ initialReposMap s !! js "data" <> None.
Proof.
  split; [vm_compute; reflexivity|]. split; [|vm_compute; done].
  apply (@saved_settings_accepted latin_case Examples.orderly_events); vm_compute; reflexivity.
Defined.

(** a control of a repository's section changes what it is for and nothing else: every other setting is sent as it
    was, every other mirror keeps its settings and its place, a removed mirror is gone and a new one comes last; a control
    that is left without a valid number changes nothing; and the numbers sent are in range: sizes and times are not
    negative, and a capacity is below 2^53 bytes and zero (no limit) only for zero. *)
Theorem repository_edits_local `{UnicodeCase} e h n r h' r' :
  apply_edit e h n r = Some (h', r') ->
  (forall k, k <> edited_field (settings r) e -> k <> js "mirrors" -> field k (snapshot h' r') = field k (snapshot h r)) /\
  (forall m, Some m <> edited_mirror n e -> h' !! m = h !! m) /\
  match e with
  | AddMirror unnamed date =>
    h' !! n = Some (new_mirror unnamed date (length (mirror_list r') - 1)) /\
    exists l, mirror_list r' = l ++ [n] /\ (truthy (field (js "mirrors") (settings r)) = true -> l = mirror_list r)
  | RemoveMirror m => mirror_list r' = List.filter (fun i => negb (i =? m)) (mirror_list r)
  | MirrorEdit m (MirrorTtl raw) =>
    mirror_list r' = mirror_list r /\ exists z, (0 <= z)%Z /\ h' !! m = Some (set_field (js "cache_ttl_secs") (JNum z) (default [] (h !! m)))
  | MirrorEdit m (MirrorTimeout raw) =>
    mirror_list r' = mirror_list r /\ exists z, (0 <= z)%Z /\ h' !! m = Some (set_field (js "timeout_secs") (JNum z) (default [] (h !! m)))
  | GitMaxVersion raw | GitDailyTraffic raw =>
    mirror_list r' = mirror_list r /\ forall unit z, (0 <= unit)%Z -> scaled_bytes raw unit = JNum z -> (0 <= z)%Z
  | GitCooldown raw => mirror_list r' = mirror_list r /\ (0 <= cooldown raw)%Z
  | _ => mirror_list r' = mirror_list r
  end /\
  (forall raw bytes, capacity_bytes raw = Some bytes ->
    (0 <= bytes < 2 ^ 53)%Z /\ (bytes = 0%Z <-> positive (Number raw) = false)).
Proof.
  intros E. destruct (apply_edit_mirrors e h n r h' r' E) as [Hm Hl]. split_and!; [|exact Hm| |].
  - intros k Hk Hne. rewrite !field_snapshot by done. by apply (apply_edit_field e h n r h' r').
  - destruct e as [| | | | | | | | | |raw|raw| | |raw| |u d|m|m []]; try exact Hl.
    + split; [exact Hl|]. intros unit z. apply scaled_bytes_nonneg.
    + split; [exact Hl|]. intros unit z. apply scaled_bytes_nonneg.
    + split; [exact Hl|]. unfold cooldown. destruct (count_of _) as [z|] eqn:Ez; [by apply count_of_nonneg in Ez|done].
    + split; [|exact Hl]. cbn [apply_edit] in E. injection E as <- <-. cbn [mirror_list]. rewrite lookup_insert_eq.
      rewrite length_app. cbn [length]. do 2 f_equal. lia.
    + split; [exact Hl|]. cbn [apply_edit edit_mirror] in E. destruct (count_of _) as [z|] eqn:Ez; [|done].
      injection E as <- <-. exists z. split; [by apply count_of_nonneg in Ez|apply lookup_insert_eq].
    + split; [exact Hl|]. cbn [apply_edit edit_mirror] in E. destruct (count_of _) as [z|] eqn:Ez; [|done].
      injection E as <- <-. exists z. split; [by apply count_of_nonneg in Ez|apply lookup_insert_eq].
  - intros raw bytes Hb. destruct (capacity_bytes_bounds raw bytes Hb) as [H1 H2]. split; [done|].
    destruct (positive (Number raw)).
    + split; [intros Hz; by apply H2 in Hz|done].
    + split; [done|]. intros _. destruct (decide (bytes = 0%Z)) as [|Hne]; [done|]. by apply H2 in Hne.
Qed.

Lemma repository_edits_local_witness :
  exists h' r',
    @apply_edit latin_case (AddMirror (js "Mirror") (js "2026-01-01")) ∅ 5 (mk_repo (Examples.data_fields "maven") [1%nat]) = Some (h', r') /\
    field (js "visibility") (snapshot h' r') = Some (JStr (js "PUBLIC")) /\ mirror_list r' = [1; 5]%nat.
Proof.
  eexists _, _. split; [reflexivity|].
  destruct (@repository_edits_local latin_case (AddMirror (js "Mirror") (js "2026-01-01")) ∅ 5
              (mk_repo (Examples.data_fields "maven") [1%nat]) _ _ eq_refl) as (Hf & _ & (_ & l & Hl & Hk) & _).
  split; [rewrite Hf; [reflexivity|vm_compute; congruence..]|]. rewrite Hl, Hk; reflexivity.
Defined.
