(* ===== verification/TagList.v ===== *)
(** * Tag lists

    [makeTagListInput] of [internal/service/frontend/renop-html/js/cfg-ui.js]: the editor of the rules a mirror allows or
    denies.  Tags are typed or pasted and split at commas, semicolons, tabs and line ends; each has a button that
    removes it after an animation of 140 ms, at the position it had when it was drawn. *)
From S2P Require Import Prelude JsString BrowserUtils.

(** The characters of [/[,;\n\r\t]+/]. *)
Definition is_separator (c : N) : bool := existsb (N.eqb c) [44; 59; 10; 13; 9]%N.

Fixpoint split_tags (cur : jstr) (s : jstr) : list jstr :=
  match s with
  | [] => [cur]
  | c :: s' => if is_separator c then cur :: split_tags [] s' else split_tags (cur ++ [c]) s'
  end.

(** [rawText.split(...).map(s => s.trim()).filter(Boolean)]: the empty pieces between separators go as well. *)
Definition tag_parts (rawText : jstr) : list jstr := List.filter nonempty (map trim (split_tags [] rawText)).

(** The editor: its list, the text field, the error, the drawn tags with their positions, the removals whose
    animation runs, the pending look at a pasted text, and the calls of [onChange]. *)
Record tag_list := mk_tags {
  tags : list jstr;
  input : jstr;
  error : bool;
  chips : list (jstr * nat);
  leaving : list nat;
  pasted : nat;
  changes : list (list jstr)
}.

Definition drawn (l : list jstr) : list (jstr * nat) := imap (fun i t => (t, i)) l.

Definition renderChips (s : tag_list) : tag_list :=
  mk_tags (tags s) (input s) (error s) (drawn (tags s)) (leaving s) (pasted s) (changes s).

Definition makeTagListInput (items : list jstr) : tag_list := renderChips (mk_tags items [] false [] [] 0 []).

Definition set_error (b : bool) (s : tag_list) : tag_list :=
  mk_tags (tags s) (input s) b (chips s) (leaving s) (pasted s) (changes s).

(** The list changes: it is drawn and reported. *)
Definition changed (l : list jstr) (s : tag_list) : tag_list :=
  mk_tags l (input s) (error s) (drawn l) (leaving s) (pasted s) (changes s ++ [l]).

Definition set_input (v : jstr) (s : tag_list) : tag_list :=
  mk_tags (tags s) v (error s) (chips s) (leaving s) (pasted s) (changes s).

(** The loop over the parts: the list, how many were added, whether one was there. *)
Definition add_part (p : list jstr * nat * bool) (part : jstr) : list jstr * nat * bool :=
  let '(l, added, dup) := p in
  if bool_decide (part ∈ l) then (l, added, true) else (l ++ [part], S added, dup).

Definition addItemsFromRaw (rawText : jstr) (s : tag_list) : tag_list :=
  let s := set_error false s in
  if negb (nonempty rawText) then s
  else
    let '(l, added, dup) := fold_left add_part (tag_parts rawText) (tags s, 0, false) in
    if added =? 0 then (if dup then set_error true s else s)
    else changed l (set_input [] s).

Inductive tag_event :=
| Typed (value : jstr)                (* the text of the field changes *)
| AddKey                              (* Enter, comma or semicolon *)
| Backspace
| OtherKey
| Pasted
| PasteSeen                           (* 10 ms later *)
| AddClick
| ClearClick
| RemoveClick (i : nat)               (* on the button of the i-th drawn tag *)
| RemoveDone.                         (* the end of the oldest running animation *)

Definition tag_step (ev : tag_event) (s : tag_list) : tag_list :=
  match ev with
  | Typed value => set_input value s
  | AddKey | AddClick => addItemsFromRaw (input s) s
  | Backspace =>
    if negb (nonempty (input s)) && negb (length (tags s) =? 0)
    then changed (take (length (tags s) - 1) (tags s)) (set_error false s)
    else set_error false s
  | OtherKey => set_error false s
  | Pasted => mk_tags (tags s) (input s) (error s) (chips s) (leaving s) (S (pasted s)) (changes s)
  | PasteSeen =>
    match pasted s with
    | 0 => s
    | S n =>
      let s := mk_tags (tags s) (input s) (error s) (chips s) (leaving s) n (changes s) in
      if existsb (fun c => existsb (N.eqb c) [44; 59; 10]%N) (input s) then addItemsFromRaw (input s) s else s
    end
  | ClearClick => if length (tags s) =? 0 then s else changed [] (set_error false s)
  | RemoveClick i =>
    match chips s !! i with
    | Some (_, idx) => mk_tags (tags s) (input s) (error s) (chips s) (leaving s ++ [idx]) (pasted s) (changes s)
    | None => s
    end
  | RemoveDone =>
    match leaving s with
    | [] => s
    | idx :: rest =>
      changed (delete idx (tags s)) (set_error false (mk_tags (tags s) (input s) (error s) (chips s) rest (pasted s) (changes s)))
    end
  end.

(** ** Lemmas *)
(** A tag as the editor makes them: trimmed, not empty, without separators. *)
Definition proper_tag (t : jstr) : Prop := t <> [] /\ trim t = t /\ Forall (fun c => is_separator c = false) t.

Lemma split_tags_separators cur s : Forall (fun c => is_separator c = false) cur ->
  Forall (Forall (fun c => is_separator c = false)) (split_tags cur s).
Proof.
  revert cur. induction s as [|c s IH]; intros cur Hc; simpl; [by constructor|].
  destruct (is_separator c) eqn:E; [constructor; [done|by apply IH]|].
  apply IH. apply Forall_app. split; [done|]. by constructor.
Qed.

Lemma trim_start_suffix s : exists p, s = p ++ trim_start s.
Proof.
  induction s as [|a s [p IH]]; simpl; [by exists []|]. destruct (is_space a); [|by exists []].
  exists (a :: p). simpl. by rewrite <- IH.
Qed.

Lemma trim_start_head s : match trim_start s with a :: _ => is_space a = false | [] => True end.
Proof. induction s as [|a s IH]; simpl; [done|]. by destruct (is_space a) eqn:E. Qed.

Lemma trim_infix s : exists p q, s = p ++ trim s ++ q.
Proof.
  destruct (trim_start_suffix s) as [p Hp]. destruct (trim_start_suffix (reverse (trim_start s))) as [q Hq].
  exists p, (reverse q). unfold trim. rewrite <- reverse_app, <- Hq, reverse_involutive. exact Hp.
Qed.

Lemma trim_trim s : trim (trim s) = trim s.
Proof.
  apply trim_trimmed. unfold trimmed, trim. rewrite reverse_involutive. split; [|apply trim_start_head].
  pose proof (trim_start_head s) as Hh. destruct (trim_start_suffix (reverse (trim_start s))) as [q Hq].
  apply (f_equal reverse) in Hq. rewrite reverse_involutive, reverse_app in Hq.
  destruct (reverse (trim_start (reverse (trim_start s)))) as [|a l]; [done|]. rewrite Hq in Hh. exact Hh.
Qed.

Lemma tag_parts_proper raw : Forall proper_tag (tag_parts raw).
Proof.
  unfold tag_parts. apply Forall_forall. intros t [Ht Hn]%elem_of_Lfilter.
  apply list_elem_of_In, in_map_iff in Ht as (u & <- & Hu%list_elem_of_In).
  split_and!; [by intros E; rewrite E in Hn|apply trim_trim|].
  pose proof (split_tags_separators [] raw ltac:(done)) as Hs. rewrite Forall_forall in Hs. specialize (Hs u Hu).
  destruct (trim_infix u) as (p & q & E). rewrite E in Hs. apply Forall_app in Hs as [_ Hs]. by apply Forall_app in Hs as [Hs _].
Qed.

(** The loop over the parts appends the new ones, each once. *)
Lemma add_parts_spec parts l n d :
  let '(l', n', d') := fold_left add_part parts (l, n, d) in
  exists new, l' = l ++ new /\ n' = n + length new /\ (NoDup l -> NoDup l') /\
    (forall t, t ∈ l' <-> t ∈ l \/ t ∈ parts) /\ (forall t, t ∈ new -> t ∈ parts /\ t ∉ l) /\
    (new = [] -> d' = d || negb (length parts =? 0)).
Proof.
  revert l n d. induction parts as [|x parts IH]; intros l n d; simpl.
  - exists []. rewrite app_nil_r. split_and!; [done|simpl; lia|done| |by intros t ?%elem_of_nil|by rewrite orb_false_r].
    intros t. rewrite elem_of_nil. tauto.
  - destruct (bool_decide_reflect (x ∈ l)) as [Hx|Hx].
    + specialize (IH l n true). destruct (fold_left _ _ _) as [[l' n'] d']. destruct IH as (new & -> & -> & Hd & Hin & Hnew & Hdup).
      exists new. split_and!; [done|done|done| | |].
      * intros t. rewrite Hin, elem_of_cons. naive_solver.
      * intros t Ht. rewrite elem_of_cons. naive_solver.
      * intros Hn. rewrite (Hdup Hn). by rewrite orb_true_r.
    + specialize (IH (l ++ [x]) (S n) d). destruct (fold_left _ _ _) as [[l' n'] d']. destruct IH as (new & -> & -> & Hd & Hin & Hnew & Hdup).
      exists (x :: new). rewrite <- (assoc_L (++)). split_and!; [done|simpl; lia| | | |done].
      * intros Hl. rewrite (assoc_L (++)). apply Hd. apply NoDup_app. split; [done|].
        split; [by intros y Hy ->%list_elem_of_singleton|apply NoDup_singleton].
      * intros t. rewrite (assoc_L (++)), Hin, elem_of_app, list_elem_of_singleton, elem_of_cons. tauto.
      * intros t [->|Ht]%elem_of_cons; rewrite elem_of_cons; [tauto|].
        destruct (Hnew t Ht) as [Hp Hn]. rewrite elem_of_app in Hn. tauto.
Qed.

(** What holds of the editor: its tags are drawn and reported. *)
Record tags_ok (items : list jstr) (s : tag_list) : Prop := {
  ok_drawn : chips s = drawn (tags s);
  ok_reported : match last (changes s) with Some l => l = tags s | None => tags s = items end;
  ok_distinct : NoDup items -> NoDup (tags s);
  ok_proper : Forall proper_tag items -> Forall proper_tag (tags s)
}.

Lemma changed_ok items l s : (NoDup items -> NoDup l) -> (Forall proper_tag items -> Forall proper_tag l) ->
  tags_ok items (changed l s).
Proof. intros Hd Hp. split; [done| |done|done]. cbn [changed changes tags]. by rewrite last_snoc. Qed.

Lemma addItemsFromRaw_ok items raw s : tags_ok items s -> tags_ok items (addItemsFromRaw raw s).
Proof.
  intros Hs. unfold addItemsFromRaw. cbv zeta. destruct (nonempty raw); simpl; [|by destruct Hs].
  pose proof (add_parts_spec (tag_parts raw) (tags s) 0 false) as Hp.
  destruct (fold_left _ _ _) as [[l n] d]. destruct Hp as (new & -> & _ & Hd & _ & Hnew & _).
  destruct (n =? 0); [by destruct d, Hs|].
  apply changed_ok; [intros Hi; by apply Hd, Hs|]. intros Hi. apply Forall_app. split; [by apply Hs|].
  apply Forall_forall. intros t Ht. destruct (Hnew t Ht) as [Hin _]. pose proof (tag_parts_proper raw) as Hq.
  rewrite Forall_forall in Hq. by apply Hq.
Qed.

Lemma NoDup_delete_at {A} (l : list A) i : NoDup l -> NoDup (delete i l).
Proof. intros Hl. rewrite delete_take_drop. apply (sublist_NoDup _ l); [done|]. rewrite <- delete_take_drop. apply sublist_delete. Qed.

Lemma tag_step_ok items ev s : tags_ok items s -> tags_ok items (tag_step ev s).
Proof.
  intros Hs. destruct ev as [v| | | | | | | |i|]; simpl; try (by destruct Hs).
  - by apply addItemsFromRaw_ok.
  - destruct (negb _ && _); [|by destruct Hs]. apply changed_ok; intros Hi.
    + apply (sublist_NoDup _ (tags s)); [by apply Hs|apply sublist_take].
    + by apply Forall_take, Hs.
  - destruct (pasted s); [done|]. case_match; [|by destruct Hs]. apply addItemsFromRaw_ok. by destruct Hs.
  - by apply addItemsFromRaw_ok.
  - destruct (length (tags s) =? 0); [done|]. apply changed_ok; [intros _; apply NoDup_nil_2|done].
  - destruct (chips s !! i) as [[t idx]|]; by destruct Hs.
  - destruct (leaving s); [done|]. apply changed_ok; intros Hi.
    + apply NoDup_delete_at. by apply Hs.
    + by apply Forall_delete, Hs.
Qed.

(** ** Properties *)
Module Examples.

(** A double click on a tag's button removes the tag and the one after it; so do clicks on two buttons in a row. *)
Definition rules : tag_list := makeTagListInput (map js ["com.acme"; "com.safe"; "org.safe"]%string).

Lemma tag_double_click :
  tags (fold_left (fun s ev => tag_step ev s) [RemoveClick 0; RemoveClick 0; RemoveDone; RemoveDone] rules) = [js "org.safe"] /\
  tags (fold_left (fun s ev => tag_step ev s) [RemoveClick 0; RemoveClick 1; RemoveDone; RemoveDone] rules) = [js "com.safe"].
Proof. vm_compute. done. Qed.

Lemma pasted_rules :
  tags (fold_left (fun s ev => tag_step ev s) [Typed (js " com.acme ,com.new;; com.new"); Pasted; PasteSeen] rules) =
    map js ["com.acme"; "com.safe"; "org.safe"; "com.new"]%string /\
  error (fold_left (fun s ev => tag_step ev s) [Typed (js "com.safe"); AddKey] rules) = true.
Proof. vm_compute. done. Qed.
End Examples.

(** the editor of a list of rules, after any keys, pastes, clicks and ends of animations: the rules drawn are the
    list, every change was reported as it is, rules stay distinct, trimmed, not empty and free of separators; adding a
    text appends its new rules in order and nothing else; and a removal whose animation is the only one running removes
    the rule that was clicked. *)
Theorem tag_list_edits items evs :
  let s := fold_left (fun s ev => tag_step ev s) evs (makeTagListInput items) in
  chips s = imap (fun i t => (t, i)) (tags s) /\
  match last (changes s) with Some l => l = tags s | None => tags s = items end /\
  (NoDup items -> NoDup (tags s)) /\ (Forall proper_tag items -> Forall proper_tag (tags s)) /\
  (forall raw, exists new, tags (addItemsFromRaw raw s) = tags s ++ new /\
    (forall t, t ∈ new <-> t ∈ tag_parts raw /\ t ∉ tags s) /\
    (error (addItemsFromRaw raw s) = true <-> new = [] /\ tag_parts raw <> [])) /\
  (forall i, leaving s = [] -> i < length (tags s) ->
    tags (tag_step RemoveDone (tag_step (RemoveClick i) s)) = delete i (tags s)).
Proof.
  intros s. assert (Hs : tags_ok items s).
  { apply (run_invariant tag_step (tags_ok items)); [intros ev t; apply tag_step_ok|by split]. }
  clearbody s. split_and!; [apply Hs|apply Hs|apply Hs|apply Hs| |].
  - intros raw. unfold addItemsFromRaw. cbv zeta. destruct raw as [|c raw]; [|set (r := c :: raw); change (negb (nonempty r)) with false; cbv iota].
    + exists []. rewrite app_nil_r. change (tag_parts []) with (@nil jstr). split_and!; [done| |by split; [|intros [_ ?]]].
      intros t. rewrite !elem_of_nil. tauto.
    + pose proof (add_parts_spec (tag_parts r) (tags s) 0 false) as Hp.
      change (tags (set_error false s)) with (tags s).
      destruct (fold_left _ _ _) as [[l n] d]. destruct Hp as (new & -> & -> & _ & Hin & Hnew & Hdup).
      exists new. split_and!.
      * destruct (0 + length new =? 0) eqn:E; [|done].
        apply Nat.eqb_eq, length_zero_iff_nil in E as ->. rewrite app_nil_r. by destruct d.
      * intros t. split; [apply Hnew|]. intros [Hp Hn]. specialize (Hin t). rewrite elem_of_app in Hin. tauto.
      * destruct new as [|x new]; simpl; [|by split; [|intros [? _]]].
        rewrite (Hdup eq_refl). simpl. destruct (tag_parts r); simpl; naive_solver.
  - intros i Hl Hi. cbn [tag_step]. rewrite (ok_drawn _ _ Hs). unfold drawn. rewrite list_lookup_imap.
    destruct (tags s !! i) as [t|] eqn:E; [|apply lookup_ge_None in E; lia]. cbn [fmap option_fmap option_map leaving].
    rewrite Hl. cbn [app]. done.
Qed.
