(* ===== verification/Messages.v ===== *)
(** * Message center

    [internal/service/frontend/renop-html/js/messages.js]: the messages of the signed-in user, loaded page by page, with
    an unread count; reading, deleting, clearing and answering them, each a request whose answer may find the list
    changed.  Message objects are shared between the list and pending operations, and cards are elements that an
    operation may hold on to after the list was drawn again, so both have identities. *)
From S2P Require Import Prelude JsString BrowserUtils.

Record message := mk_message {
  message_id : jstr;
  read : bool;                      (* [read_at] *)
  action_kind : option jstr;
  action_status : jstr
}.

Definition isPendingActionMessage (m : message) : bool :=
  match action_kind m with Some k => nonempty k && (action_status m =? js "pending")%js | None => false end.

(** The button that loads more. *)
Record more_button := mk_more {
  more_hidden : bool;
  more_disabled : bool;
  more_cursor : jstr
}.

Inductive request :=
| Fetch (reset : bool) (then_cleared : option nat)    (* a page; the count to announce when a clearing waits for it *)
| MarkRead (m : nat)
| MarkAll
| Clear
| Clearing (retained : list nat) (gone : list nat) (deleted : nat)   (* the animation of the cards [gone] *)
| Delete (m : nat)
| Deleting (m : nat) (remaining : list nat) (card : option nat)      (* the animation of the card *)
| Action (m : nat) (accept : bool)
| Unread.

Record center := mk_center {
  heap : gmap nat message;          (* message objects *)
  messages : list nat;
  nextCursor : jstr;
  unreadCount : nat;
  polling : bool;
  loading : bool;
  clearingMessages : bool;
  signed_in : bool;                 (* [cachedIsLoggedIn] *)
  opened : bool;                    (* the dialog *)
  cards : list (nat * jstr);        (* the cards of the list, by identity, with their message's id *)
  more : more_button;
  toolbar : bool * bool;            (* whether "mark all read" and "clear all" are disabled *)
  requests : gmap nat request;
  next : nat;
  log : list jstr;                  (* alerts and sign-outs *)
  actionHandlers : gset jstr        (* the kinds of actions with a handler *)
}.

Definition start (signed_in : bool) : center :=
  mk_center ∅ [] [] 0 false false false signed_in false [] (mk_more true true []) (true, true) ∅ 0 [] ∅.

(** ** Updates *)
Definition set_list (h : gmap nat message) (l : list nat) (cursor : jstr) (c : center) : center :=
  mk_center h l cursor (unreadCount c) (polling c) (loading c) (clearingMessages c) (signed_in c) (opened c) (cards c) (more c)
    (toolbar c) (requests c) (next c) (log c) (actionHandlers c).
Definition set_unread (n : nat) (c : center) : center :=
  mk_center (heap c) (messages c) (nextCursor c) n (polling c) (loading c) (clearingMessages c) (signed_in c) (opened c) (cards c)
    (more c) (toolbar c) (requests c) (next c) (log c) (actionHandlers c).
Definition set_flags (polling loading clearing signed_in opened : bool) (c : center) : center :=
  mk_center (heap c) (messages c) (nextCursor c) (unreadCount c) polling loading clearing signed_in opened (cards c) (more c)
    (toolbar c) (requests c) (next c) (log c) (actionHandlers c).
Definition set_loading (b : bool) (c : center) : center :=
  set_flags (polling c) b (clearingMessages c) (signed_in c) (opened c) c.
Definition set_clearing (b : bool) (c : center) : center :=
  set_flags (polling c) (loading c) b (signed_in c) (opened c) c.
Definition set_dom (cs : list (nat * jstr)) (m : more_button) (t : bool * bool) (n : nat) (c : center) : center :=
  mk_center (heap c) (messages c) (nextCursor c) (unreadCount c) (polling c) (loading c) (clearingMessages c) (signed_in c) (opened c)
    cs m t (requests c) n (log c) (actionHandlers c).
Definition set_requests (r : gmap nat request) (n : nat) (c : center) : center :=
  mk_center (heap c) (messages c) (nextCursor c) (unreadCount c) (polling c) (loading c) (clearingMessages c) (signed_in c) (opened c)
    (cards c) (more c) (toolbar c) r n (log c) (actionHandlers c).
Definition alert (k : string) (c : center) : center :=
  mk_center (heap c) (messages c) (nextCursor c) (unreadCount c) (polling c) (loading c) (clearingMessages c) (signed_in c) (opened c)
    (cards c) (more c) (toolbar c) (requests c) (next c) (log c ++ [js k]) (actionHandlers c).

Definition send (r : request) (c : center) : center := set_requests (<[next c := r]> (requests c)) (S (next c)) c.
Definition finish (i : nat) (c : center) : center := set_requests (delete i (requests c)) (next c) c.

(** ** Controls *)
Definition syncLoadMoreButton (c : center) : center :=
  let hasMore := negb (length (messages c) =? 0) && nonempty (nextCursor c) in
  set_dom (cards c) (mk_more (negb hasMore) (loading c || negb hasMore) (if hasMore then nextCursor c else [])) (toolbar c) (next c) c.

Definition updateMessageToolbarState (c : center) : center :=
  set_dom (cards c) (more c)
    (loading c || (unreadCount c =? 0),
     clearingMessages c || loading c || (length (messages c) =? 0) && negb (nonempty (nextCursor c))) (next c) c.

Definition setUnreadCount (n : nat) (c : center) : center := updateMessageToolbarState (set_unread n c).

(** The text of the badges. *)
Definition badge (n : nat) : jstr := if 99 <? n then js "99+" else show_Z (Z.of_nat n).

Definition id_of (h : gmap nat message) (m : nat) : jstr := match h !! m with Some msg => message_id msg | None => [] end.

Definition ids (c : center) : list jstr := map (id_of (heap c)) (messages c).

Fixpoint index_where (p : jstr -> bool) (l : list jstr) : option nat :=
  match l with
  | [] => None
  | x :: l' => if p x then Some 0 else S <$> index_where p l'
  end.

(** Cards built for messages, numbered from [n]. *)
Definition build_cards (n : nat) (l : list jstr) : list (nat * jstr) := zip (seq n (length l)) l.

Definition renderMessages (focusMessageID : jstr) (c : center) : center :=
  let c := syncLoadMoreButton c in
  let l := ids c in
  let startIndex := if nonempty focusMessageID then default 0 (index_where (fun x => (x =? focusMessageID)%js) l) else 0 in
  let appendOnly := nonempty focusMessageID && (0 <? startIndex) && (length (cards c) =? startIndex) in
  let cs := if appendOnly then cards c ++ build_cards (next c) (drop startIndex l) else build_cards (next c) l in
  updateMessageToolbarState (set_dom cs (more c) (toolbar c) (next c + length l) c).

Definition syncMessageListControls (c : center) : center := updateMessageToolbarState (syncLoadMoreButton c).

(** [setClearMessagesBusy] is part of the toolbar's looks; the end of a clearing. *)
Definition end_clearing (c : center) : center := updateMessageToolbarState (set_clearing false c).

(** ** Loading *)
(** [fetchMessages(reset, requestedCursor)] up to its request; [None] when it leaves at once. *)
Definition fetchMessages (reset : bool) (requestedCursor : jstr) (cleared : option nat) (c : center) : option center :=
  if loading c then None
  else if negb reset && negb (nonempty requestedCursor) then None
  else Some (send (Fetch reset cleared) (syncLoadMoreButton (set_loading true c))).

Definition fetch_messages (reset : bool) (cursor : jstr) (c : center) : center := default c (fetchMessages reset cursor None c).

(** New objects for a page. *)
Definition store_page (page : list message) (c : center) : list nat * center :=
  let l := seq (next c) (length page) in
  (l, set_requests (requests c) (next c + length page)
        (set_list (list_to_map (zip l page) ∪ heap c) (messages c) (nextCursor c) c)).

(** The loop of [appendUniqueMessagePage]: the list, and the first id added. *)
Definition append_one (h : gmap nat message) (p : list nat * list jstr * jstr) (m : nat) : list nat * list jstr * jstr :=
  let '(l, existing, first) := p in
  let id := id_of h m in
  if negb (nonempty id) || bool_decide (id ∈ existing) then p
  else (l ++ [m], existing ++ [id], if nonempty first then first else id).

Definition appendUniqueMessagePage (page : list nat) (c : center) : jstr * center :=
  let '(l, _, first) := fold_left (append_one (heap c)) page (messages c, ids c, []) in
  (first, set_list (heap c) l (nextCursor c) c).

(** The page replaces the list or is appended; with the id of the first message appended. *)
Definition with_page (reset : bool) (page : list message) (c : center) : jstr * center :=
  let '(l, c) := store_page page c in
  if reset then ([], set_list (heap c) l (nextCursor c) c) else appendUniqueMessagePage l c.

(** The end of [fetchMessages] on every path. *)
Definition end_fetch (c : center) : center := updateMessageToolbarState (syncLoadMoreButton (set_loading false c)).

Inductive answer :=
| Page (page : list message) (next_cursor : jstr) (unread : nat)
| Done (count : nat)
| Refused
| Expired                       (* 401 *)
| Failed.                       (* no answer, or one that cannot be read *)

Definition page_received (reset : bool) (page : list message) (cursor : jstr) (unread : nat) (c : center) : center :=
  let '(first, c) := with_page reset page c in
  let c := set_list (heap c) (messages c) (if length page =? 0 then [] else cursor) c in
  renderMessages first (setUnreadCount unread c).

(** What a clearing that waited for the page does next. *)
Definition after_fetch (cleared : option nat) (c : center) : center :=
  match cleared with Some _ => end_clearing (alert "messages.cleared" c) | None => c end.

Definition fetch_answered (reset : bool) (cleared : option nat) (a : answer) (c : center) : center :=
  after_fetch cleared
    (match a with
     | Page page cursor unread => end_fetch (page_received reset page cursor unread c)
     | Expired => end_fetch (alert "logout" c)
     | _ => end_fetch (alert "messages.loadFailed" c)
     end).

(** ** Operations on messages *)
Definition mark_read (m : nat) (c : center) : center :=
  set_list (alter (fun x => mk_message (message_id x) true (action_kind x) (action_status x)) m (heap c)) (messages c) (nextCursor c) c.

Definition is_read (m : nat) (c : center) : bool := match heap c !! m with Some x => read x | None => false end.

(** [Math.max(0, unreadCount - 1)]. *)
Definition one_less_unread (c : center) : center := setUnreadCount (unreadCount c - 1) c.

Definition markMessageRead_done (m : nat) (c : center) : center := renderMessages [] (one_less_unread (mark_read m c)).

Definition markAllRead_done (c : center) : center := renderMessages [] (setUnreadCount 0 (fold_left (fun c m => mark_read m c) (messages c) c)).

Definition find_card (id : jstr) (cs : list (nat * jstr)) : option nat := fst <$> List.find (fun p => (p.2 =? id)%js) cs.

Definition remove_cards (gone : list nat) (c : center) : center :=
  set_dom (List.filter (fun p => negb (bool_decide (p.1 ∈ gone))) (cards c)) (more c) (toolbar c) (next c) c.

(** [deleteMessage] once the server has deleted: the messages that will remain, and the card whose exit starts. *)
Definition start_deleting (i m : nat) (c : center) : center :=
  let remaining := List.filter (fun x => negb (id_of (heap c) x =? id_of (heap c) m)%js) (messages c) in
  set_requests (<[i := Deleting m remaining (find_card (id_of (heap c) m) (cards c))]> (requests c)) (next c) c.

(** Its end. *)
Definition deleteMessage_done (m : nat) (remaining : list nat) (card : option nat) (c : center) : center :=
  let c := if is_read m c then c else one_less_unread c in
  let c := set_list (heap c) remaining (nextCursor c) c in
  let c := match card with Some k => remove_cards [k] c | None => c end in
  let c := syncMessageListControls c in
  if (length (messages c) =? 0) && nonempty (nextCursor c) then fetch_messages true [] c else c.

(** [animateDismissibleMessagesOut] up to its animations, and from there to the end of [clearAllMessages]. *)
Definition start_clearing (i deleted : nat) (c : center) : center :=
  let pending m := match heap c !! m with Some x => isPendingActionMessage x | None => false end in
  let gone := omap (fun m => if pending m then None else find_card (id_of (heap c) m) (cards c)) (messages c) in
  set_requests (<[i := Clearing (List.filter pending (messages c)) gone deleted]> (requests c)) (next c) c.

Definition clearing_done (retained gone : list nat) (deleted : nat) (c : center) : center :=
  let c := remove_cards gone c in
  let c := syncMessageListControls (set_list (heap c) retained [] c) in
  match fetchMessages true [] (Some deleted) c with
  | Some c => c
  | None => end_clearing (alert "messages.cleared" c)
  end.

Definition action_done (m : nat) (accept : bool) (c : center) : center :=
  let c := set_list (alter (fun x => mk_message (message_id x) (read x) (action_kind x) (if accept then js "accepted" else js "rejected"))
                       m (heap c)) (messages c) (nextCursor c) c in
  renderMessages [] (if is_read m c then c else one_less_unread (mark_read m c)).

(** ** Events *)
Inductive center_event :=
| AuthChanged (logged_in : bool)
| LanguageChanged
| HandlerRegistered (kind : jstr)
| Open
| Close
| LoadMore
| CardClick (id : jstr)
| DeleteClick (id : jstr)
| ActionClick (id : jstr) (accept : bool)
| MarkAllClick
| ClearClick
| ClearConfirmed (confirmed : bool)
| Poll                                     (* the interval, and the refresh that starts it *)
| Answered (i : nat) (a : answer)
| Animated (i : nat).                      (* the end of the exit animations of a deletion or a clearing *)

(** [messages.find(candidate => candidate.id === id)]. *)
Definition find_message (id : jstr) (c : center) : option nat := List.find (fun m => (id_of (heap c) m =? id)%js) (messages c).

(** A click on a card whose button, or the rest of it, was hit. *)
Definition clicked (id : jstr) (f : nat -> center -> center) (c : center) : center :=
  if opened c && existsb (fun p => (p.2 =? id)%js) (cards c) then
    match find_message id c with Some m => f m c | None => c end
  else c.

Definition answered (i : nat) (a : answer) (c : center) : center :=
  match requests c !! i with
  | Some (Fetch reset cleared) => fetch_answered reset cleared a (finish i c)
  | Some (MarkRead m) => match a with Done _ => markMessageRead_done m (finish i c) | _ => finish i c end
  | Some MarkAll => match a with Done _ => markAllRead_done (finish i c) | _ => alert "messages.updateFailed" (finish i c) end
  | Some Clear =>
    match a with Done n => start_clearing i n c | _ => end_clearing (alert "messages.clearFailed" (finish i c)) end
  | Some (Delete m) => match a with Done _ => start_deleting i m c | _ => alert "messages.deleteFailed" (finish i c) end
  | Some (Action m accept) =>
    match a with Done _ => action_done m accept (finish i c) | Failed => alert "messages.actionFailed" (finish i c) | _ => finish i c end
  | Some Unread =>
    match a with Done n => setUnreadCount n (finish i c) | Expired => alert "logout" (finish i c) | _ => finish i c end
  | _ => c
  end.

Definition animated (i : nat) (c : center) : center :=
  match requests c !! i with
  | Some (Deleting m remaining card) => deleteMessage_done m remaining card (finish i c)
  | Some (Clearing retained gone n) => clearing_done retained gone n (finish i c)
  | _ => c
  end.

Definition refreshMessageUnreadCount (c : center) : center := if signed_in c then send Unread c else c.

Definition handleAuthChanged (logged_in : bool) (c : center) : center :=
  if logged_in then refreshMessageUnreadCount (set_flags true (loading c) (clearingMessages c) true (opened c) c)
  else
    let c := set_flags false (loading c) (clearingMessages c) false (opened c) c in
    let c := setUnreadCount 0 (set_list (heap c) [] [] c) in
    set_flags (polling c) (loading c) (clearingMessages c) (signed_in c) false c.

Definition registerMessageActionHandler (kind : jstr) (c : center) : center :=
  if nonempty kind then
    renderMessages []
      (mk_center (heap c) (messages c) (nextCursor c) (unreadCount c) (polling c) (loading c) (clearingMessages c) (signed_in c)
         (opened c) (cards c) (more c) (toolbar c) (requests c) (next c) (log c) ({[kind]} ∪ actionHandlers c))
  else c.

Definition executeMessageAction (accept : bool) (m : nat) (c : center) : center :=
  match heap c !! m with
  | Some (mk_message _ _ (Some kind) _) => if bool_decide (kind ∈ actionHandlers c) then send (Action m accept) c else c
  | _ => c
  end.

Definition center_step (ev : center_event) (c : center) : center :=
  match ev with
  | AuthChanged logged_in => handleAuthChanged logged_in c
  | LanguageChanged => renderMessages [] c
  | HandlerRegistered kind => registerMessageActionHandler kind c
  | Open =>
    if signed_in c
    then fetch_messages true [] (set_flags (polling c) (loading c) (clearingMessages c) (signed_in c) true c) else c
  | Close => set_flags (polling c) (loading c) (clearingMessages c) (signed_in c) false c
  | LoadMore =>
    if opened c && negb (more_disabled (more c)) && negb (more_hidden (more c)) && nonempty (more_cursor (more c))
    then fetch_messages false (more_cursor (more c)) c else c
  | CardClick id => clicked id (fun m c => if is_read m c then c else send (MarkRead m) c) c
  | DeleteClick id => clicked id (fun m c => send (Delete m) c) c
  | ActionClick id accept => clicked id (executeMessageAction accept) c
  | MarkAllClick => if opened c && negb (fst (toolbar c)) then send MarkAll c else c
  | ClearClick =>
    if opened c && negb (snd (toolbar c)) && negb (clearingMessages c) && negb (loading c)
    then updateMessageToolbarState (set_clearing true c) else c
  | ClearConfirmed confirmed =>
    if clearingMessages c && negb (existsb (fun p => match p.2 with Clear | Clearing _ _ _ | Fetch _ (Some _) => true | _ => false end) (map_to_list (requests c)))
    then (if confirmed then send Clear c else end_clearing c) else c
  | Poll => if polling c then refreshMessageUnreadCount c else c
  | Answered i a => answered i a c
  | Animated i => animated i c
  end.

(** ** Use in order
    While a removed card leaves, nothing else happens to the list; no page and no clearing is under way at a sign-out, and
    a clearing is confirmed by a user who is signed in; pages have messages with distinct ids. *)
Definition is_animation (r : request) : bool := match r with Deleting _ _ _ | Clearing _ _ _ => true | _ => false end.
Definition is_load (r : request) : bool := match r with Fetch _ _ | Clear | Clearing _ _ _ => true | _ => false end.

Definition under_way (f : request -> bool) (c : center) : bool := existsb (fun p => f p.2) (map_to_list (requests c)).

Definition orderly (ev : center_event) (c : center) : bool :=
  match ev with
  | Animated _ | Poll | Close => true
  | Answered i a =>
    match requests c !! i with
    | Some Unread => true
    | _ => negb (under_way is_animation c) && match a with Page page _ _ => bool_decide (NoDup (map message_id page)) | _ => true end
    end
  | AuthChanged false => negb (under_way is_animation c) && negb (under_way is_load c)
  | ClearConfirmed b => (negb b || signed_in c) && negb (under_way is_animation c)
  | _ => negb (under_way is_animation c)
  end.

Fixpoint orderly_run (evs : list center_event) (c : center) : bool :=
  match evs with
  | [] => true
  | ev :: evs => orderly ev c && orderly_run evs (center_step ev c)
  end.

(** ** Lemmas: the list and its cards *)
Lemma under_way_spec f c : under_way f c = true <-> exists i r, requests c !! i = Some r /\ f r = true.
Proof.
  unfold under_way. rewrite existsb_exists. split.
  - intros ([i r] & Hin%list_elem_of_In%elem_of_map_to_list & Hf). by exists i, r.
  - intros (i & r & Hi & Hf). exists (i, r). split; [by apply list_elem_of_In, elem_of_map_to_list|done].
Qed.

Lemma not_under_way f c i r : under_way f c = false -> requests c !! i = Some r -> f r = false.
Proof. intros Hu Hi. destruct (f r) eqn:E; [|done]. assert (under_way f c = true) by (apply under_way_spec; eauto). congruence. Qed.

(** What holds of the messages, whatever is drawn. *)
Record base_ok (c : center) : Prop := {
  base_ids : NoDup (ids c);
  base_messages : forall m, m ∈ messages c -> m < next c;
  base_heap : forall m x, heap c !! m = Some x -> m < next c;
  base_requests : forall i r, requests c !! i = Some r -> i < next c;
  base_out : signed_in c = false ->
    messages c = [] /\ nextCursor c = [] /\ opened c = false /\ under_way is_load c = false
}.

(** What holds of the cards. *)
Record cards_ok (c : center) : Prop := {
  cards_shown : messages c <> [] -> map snd (cards c) = ids c;
  cards_distinct : NoDup (map fst (cards c));
  cards_old : forall k, k ∈ map fst (cards c) -> k < next c
}.

(** Steps that leave messages, cards and running animations alone, and send or end other requests. *)
Definition calm (c d : center) : Prop :=
  heap d = heap c /\ messages d = messages c /\ nextCursor d = nextCursor c /\ cards d = cards c /\
  signed_in d = signed_in c /\ (opened d = true -> opened c = true) /\ next c <= next d /\
  (forall i r, requests d !! i = Some r -> requests c !! i = Some r \/
     i < next d /\ is_animation r = false /\ (is_load r = true -> signed_in c = true)).

#[export] Instance calm_preorder : PreOrder calm.
Proof.
  split; [intros c; unfold calm; split_and!; auto|].
  intros c d e (H1 & H2 & H3 & H4 & H5 & H6 & H7 & H8) (G1 & G2 & G3 & G4 & G5 & G6 & G7 & G8).
  unfold calm. split_and!; try congruence; [by intros ?%G6%H6|lia|].
  intros i r [Hi|(Hl & Ha & Hs)]%G8; [|by rewrite H5 in Hs; right].
  destruct (H8 i r Hi) as [|(Hl & Ha & Hs)]; [by left|]. right. split; [lia|done].
Qed.

Ltac calm_tac := unfold calm; split_and!; cbn; try done; try lia; auto.

(** As [calm], but messages may change apart from their ids. *)
Definition mild (c d : center) : Prop :=
  (forall m, id_of (heap d) m = id_of (heap c) m) /\ (forall m x, heap d !! m = Some x -> is_Some (heap c !! m)) /\
  messages d = messages c /\ nextCursor d = nextCursor c /\ cards d = cards c /\
  signed_in d = signed_in c /\ (opened d = true -> opened c = true) /\ next c <= next d /\
  (forall i r, requests d !! i = Some r -> requests c !! i = Some r \/
     i < next d /\ is_animation r = false /\ (is_load r = true -> signed_in c = true)).

Lemma calm_mild c d : calm c d -> mild c d.
Proof.
  intros (Hh & H). unfold mild. rewrite Hh. split; [done|]. split; [by intros m x ->|]. apply H.
Qed.

Lemma mild_trans c d e : mild c d -> mild d e -> mild c e.
Proof.
  intros (H0 & H1 & H2 & H3 & H4 & H5 & H6 & H7 & H8) (G0 & G1 & G2 & G3 & G4 & G5 & G6 & G7 & G8).
  unfold mild. split_and!; [intros m; by rewrite G0, H0|intros m x [y Hy]%G1; by eapply H1|congruence..| |lia|].
  - by intros ?%G6%H6.
  - intros i r [Hi|(Hl & Ha & Hs)]%G8; [|by rewrite H5 in Hs; right].
    destruct (H8 i r Hi) as [|(Hl & Ha & Hs)]; [by left|]. right. split; [lia|done].
Qed.

Lemma mild_ids c d : mild c d -> ids d = ids c.
Proof. intros (Hh & _ & Hm & _). unfold ids. rewrite Hm. apply map_ext, Hh. Qed.

Lemma mild_base c d : mild c d -> base_ok c -> base_ok d.
Proof.
  intros Hc [B1 B2 B3 B4 B5]. pose proof (mild_ids c d Hc) as Hi. destruct Hc as (_ & Hh & Hm & Hn & Hcs & Hs & Ho & Hx & Hr).
  split; [by rewrite Hi| | | |].
  - intros m. rewrite Hm. intros ?%B2. lia.
  - intros m x [y ?%B3]%Hh. lia.
  - intros i r [Hi'%B4|[? _]]%Hr; lia.
  - rewrite Hs. intros E. destruct (B5 E) as (Hm' & Hn' & Hop & Hu).
    rewrite Hm, Hn. split_and!; [done..| |].
    + destruct (opened d); [by specialize (Ho eq_refl); congruence|done].
    + apply not_true_is_false. intros (i & r & Hi' & Hl)%under_way_spec. destruct (Hr i r Hi') as [Hi''|(_ & _ & Hsi)].
      * by rewrite (not_under_way is_load c i r Hu Hi'') in Hl.
      * specialize (Hsi Hl). congruence.
Qed.

Lemma mild_cards c d : mild c d -> cards_ok c -> cards_ok d.
Proof.
  intros Hc [C1 C2 C3]. pose proof (mild_ids c d Hc) as Hi. destruct Hc as (_ & Hh & Hm & Hn & Hcs & Hs & Ho & Hx & Hr).
  split; rewrite Hcs, ?Hm, ?Hi; [done|done|]. intros k ?%C3. lia.
Qed.

Lemma mild_quiet c d : mild c d -> under_way is_animation c = false -> under_way is_animation d = false.
Proof.
  intros (_ & _ & _ & _ & _ & _ & _ & _ & Hr) Hu. apply not_true_is_false. intros (i & r & Hi & Ha)%under_way_spec.
  destruct (Hr i r Hi) as [Hi'|(_ & Ha' & _)]; [|congruence]. by rewrite (not_under_way is_animation c i r Hu Hi') in Ha.
Qed.

Lemma sync_calm c : calm c (syncLoadMoreButton c).
Proof. calm_tac. Qed.
Lemma toolbar_calm c : calm c (updateMessageToolbarState c).
Proof. calm_tac. Qed.
Lemma unread_calm n c : calm c (setUnreadCount n c).
Proof. calm_tac. Qed.
Lemma loading_calm b c : calm c (set_loading b c).
Proof. calm_tac. Qed.
Lemma clearing_calm b c : calm c (set_clearing b c).
Proof. calm_tac. Qed.
Lemma alert_calm k c : calm c (alert k c).
Proof. calm_tac. Qed.
Lemma finish_calm i c : calm c (finish i c).
Proof. calm_tac. intros j r [_ Hj]%lookup_delete_Some. by left. Qed.
Lemma send_calm r c : is_animation r = false -> (is_load r = true -> signed_in c = true) -> calm c (send r c).
Proof.
  intros Ha Hl. calm_tac. intros i q [[<- <-]|[_ Hi]]%lookup_insert_Some; [right; split; [cbn; lia|done]|by left].
Qed.
Lemma end_clearing_calm c : calm c (end_clearing c).
Proof. etrans; [apply clearing_calm|apply toolbar_calm]. Qed.
Lemma end_fetch_calm c : calm c (end_fetch c).
Proof. etrans; [apply loading_calm|]. etrans; [apply sync_calm|apply toolbar_calm]. Qed.
Lemma fetchMessages_calm reset cursor cleared c d : signed_in c = true -> fetchMessages reset cursor cleared c = Some d -> calm c d.
Proof.
  intros Hs. unfold fetchMessages. destruct (loading c); [done|]. destruct (_ && _); [done|]. intros [= <-].
  etrans; [apply loading_calm|]. etrans; [apply sync_calm|]. by apply send_calm.
Qed.
Lemma fetch_messages_calm reset cursor c : signed_in c = true -> calm c (fetch_messages reset cursor c).
Proof.
  intros Hs. unfold fetch_messages. destruct (fetchMessages _ _ _ _) as [d|] eqn:E; [|done]. simpl. by eapply fetchMessages_calm.
Qed.

Lemma mark_read_mild m c : mild c (mark_read m c).
Proof.
  unfold mild. split_and!; cbn; try done; try lia; auto.
  - intros k. unfold id_of. rewrite lookup_alter. case_decide; [subst|done]. by destruct (heap c !! k).
  - intros k x. rewrite lookup_alter. case_decide; [subst|by intros ->]. by destruct (heap c !! k).
Qed.

(** ** Lemmas: drawing *)
Lemma build_cards_snd n l : map snd (build_cards n l) = l.
Proof. unfold build_cards. apply snd_zip. by rewrite length_seq. Qed.

Lemma build_cards_fst n l : map fst (build_cards n l) = seq n (length l).
Proof. unfold build_cards. apply fst_zip. by rewrite length_seq. Qed.

(** What is drawn: the cards of all messages, or those there and the cards of the messages from the focused one on. *)
Lemma render_spec f c : let d := renderMessages f c in
  calm (set_dom (cards d) (more c) (toolbar c) (next d) c) d /\ next c <= next d /\
  (cards d = build_cards (next c) (ids c) \/
   exists k, k = length (cards c) /\ 0 < k /\ nonempty f = true /\ index_where (fun x => (x =? f)%js) (ids c) = Some k /\
     cards d = cards c ++ build_cards (next c) (drop k (ids c))) /\ next d = next c + length (ids c).
Proof.
  cbv zeta. unfold renderMessages. change (ids (syncLoadMoreButton c)) with (ids c).
  change (cards (syncLoadMoreButton c)) with (cards c). change (next (syncLoadMoreButton c)) with (next c).
  split_and!; [calm_tac|cbn; lia| |done].
  cbn [updateMessageToolbarState set_dom cards].
  destruct (nonempty f) eqn:Hf; [|by left]. cbn [andb].
  destruct (index_where _ (ids c)) as [k|] eqn:Hk; cbn [default]; unfold id; [|by left].
  destruct (Nat.ltb_spec 0 k); [|by left]. destruct (Nat.eqb_spec (length (cards c)) k); [|by left].
  right. exists k. split_and!; [done|lia|done|done|]. done.
Qed.

Lemma set_dom_base cs m t n c : base_ok c -> next c <= n -> base_ok (set_dom cs m t n c).
Proof.
  intros [B1 B2 B3 B4 B5] Hn. split; cbn [set_dom messages next heap requests signed_in nextCursor opened].
  - exact B1.
  - intros k ?%B2. lia.
  - intros k x ?%B3. lia.
  - intros i r ?%B4. lia.
  - exact B5.
Qed.

Lemma redraw_ok c : base_ok c -> (forall k, k ∈ map fst (cards c) -> k < next c) -> NoDup (map fst (cards c)) ->
  forall f, (nonempty f = true -> forall k, k = length (cards c) -> index_where (fun x => (x =? f)%js) (ids c) = Some k -> 0 < k -> map snd (cards c) = take k (ids c)) ->
  base_ok (renderMessages f c) /\ cards_ok (renderMessages f c).
Proof.
  intros B Hold Hd f Hf. destruct (render_spec f c) as (Hc & Hn & Hcs & Hn'). cbv zeta in *.
  assert (Hids : ids (renderMessages f c) = ids c) by done.
  split.
  - apply (mild_base (set_dom (cards (renderMessages f c)) (more c) (toolbar c) (next (renderMessages f c)) c)); [by apply calm_mild|].
    by apply set_dom_base.
  - destruct Hcs as [Hcs|(k & Hk & Hpos & Hne & Hidx & Hcs)]; split; rewrite Hcs, ?Hids.
    + by rewrite build_cards_snd.
    + rewrite build_cards_fst. apply NoDup_seq.
    + rewrite build_cards_fst. intros j Hj%elem_of_seq. rewrite Hn'. lia.
    + rewrite map_app, build_cards_snd. intros _. rewrite (Hf Hne k Hk Hidx Hpos). apply take_drop.
    + rewrite map_app, build_cards_fst. apply NoDup_app. split_and!; [done| |apply NoDup_seq].
      intros j Hj%Hold Hj'%elem_of_seq. lia.
    + rewrite map_app, build_cards_fst. intros j [Hj%Hold|Hj%elem_of_seq]%elem_of_app; [lia|].
      rewrite Hn', length_drop in *. lia.
Qed.

Lemma redraw_all_ok c : base_ok c -> (forall k, k ∈ map fst (cards c) -> k < next c) -> NoDup (map fst (cards c)) ->
  base_ok (renderMessages [] c) /\ cards_ok (renderMessages [] c).
Proof.
  intros B Hold Hd. by apply redraw_ok.
Qed.

(** ** Lemmas: pages *)
Lemma id_of_old (h h' : gmap nat message) n m : (forall k x, h' !! k = Some x -> n <= k) -> m < n -> id_of (h' ∪ h) m = id_of h m.
Proof.
  intros Hn Hm. unfold id_of. destruct (h' !! m) as [x|] eqn:E; [apply Hn in E; lia|].
  by rewrite lookup_union_r.
Qed.

Lemma stored_bounds n (page : list message) k x : (list_to_map (zip (seq n (length page)) page) : gmap nat message) !! k = Some x ->
  n <= k < n + length page.
Proof.
  intros Hk. apply elem_of_list_to_map_2 in Hk. apply elem_of_zip_l in Hk. by apply elem_of_seq in Hk.
Qed.

Lemma stored_ids n (page : list message) h :
  map (id_of ((list_to_map (zip (seq n (length page)) page) : gmap nat message) ∪ h)) (seq n (length page)) = map message_id page.
Proof.
  apply list_eq. intros j. rewrite !list_lookup_fmap. destruct (decide (j < length page)) as [Hj|Hj].
  - rewrite lookup_seq_lt by done. destruct (lookup_lt_is_Some_2 page j Hj) as [x Hx]. rewrite Hx. cbn [fmap option_fmap option_map].
    f_equal. unfold id_of. rewrite (lookup_union_Some_l _ _ (n + j) x); [done|].
    apply elem_of_list_to_map_1.
    + rewrite fst_zip by (by rewrite length_seq). apply NoDup_seq.
    + apply list_elem_of_lookup. exists j. rewrite lookup_zip_with, lookup_seq_lt by done. by rewrite Hx.
  - rewrite (lookup_ge_None_2 page j) by lia. by rewrite lookup_seq_ge by lia.
Qed.

Lemma append_spec h page l ex first : ex = map (id_of h) l -> NoDup ex ->
  let '(l', ex', first') := fold_left (append_one h) page (l, ex, first) in
  exists new, l' = l ++ new /\ ex' = map (id_of h) l' /\ NoDup ex' /\ (forall m, m ∈ new -> m ∈ page) /\
    (first' = if nonempty first then first else match new with [] => first | m :: _ => id_of h m end) /\
    (nonempty first = false -> match new with [] => True | m :: _ => nonempty (id_of h m) = true end) /\
    (forall m, m ∈ page -> nonempty (id_of h m) = true -> id_of h m ∈ ex').
Proof.
  revert l ex first. induction page as [|x page IH]; intros l ex first He Hd; cbn [fold_left].
  - exists []. rewrite app_nil_r. split_and!; [done|done|done|by intros m ?%elem_of_nil|by destruct (nonempty first)|done|by intros m ?%elem_of_nil].
  - unfold append_one at 2. destruct (negb (nonempty (id_of h x)) || bool_decide (id_of h x ∈ ex)) eqn:E.
    + specialize (IH l ex first He Hd). destruct (fold_left _ _ _) as [[l' ex'] first'].
      destruct IH as (new & -> & Hex & Hnd & Hin & Hf & Hne & Hall). exists new. split_and!; try done.
      * intros m Hm. right. by apply Hin.
      * intros m [->|Hm]%elem_of_cons Hid; [|by apply Hall]. rewrite Hid in E. cbn in E. apply bool_decide_eq_true in E.
        rewrite Hex, map_app. apply elem_of_app. left. by rewrite <- He.
    + apply orb_false_iff in E as [Hid Hni%bool_decide_eq_false]. apply negb_false_iff in Hid.
      assert (He' : ex ++ [id_of h x] = map (id_of h) (l ++ [x])) by by rewrite map_app, He.
      assert (Hd' : NoDup (ex ++ [id_of h x])).
      { apply NoDup_app. split_and!; [done| |apply NoDup_singleton]. by intros y Hy ->%list_elem_of_singleton. }
      specialize (IH (l ++ [x]) (ex ++ [id_of h x]) (if nonempty first then first else id_of h x) He' Hd').
      destruct (fold_left _ _ _) as [[l' ex'] first']. destruct IH as (new & -> & Hex & Hnd & Hin & Hf & Hne & Hall).
      exists (x :: new). rewrite <- (assoc_L (++)) in *. split_and!; try done.
      * intros m [->|Hm]%elem_of_cons; [left|right; by apply Hin].
      * rewrite Hf. destruct (nonempty first) eqn:Ef; [by rewrite Ef|]. by rewrite Hid.
      * intros m [->|Hm]%elem_of_cons Hidm; [|by apply Hall]. rewrite Hex, !map_app. apply elem_of_app. right. left.
Qed.

Lemma index_where_app f l k : f ∉ l -> index_where (fun x => (x =? f)%js) (l ++ f :: k) = Some (length l).
Proof.
  induction l as [|x l IH]; intros Hn; simpl; [by rewrite bool_decide_eq_true_2|].
  apply not_elem_of_cons in Hn as [Hx Hl]. rewrite bool_decide_eq_false_2 by congruence. by rewrite (IH Hl).
Qed.

Lemma store_base page c : base_ok c -> base_ok (store_page page c).2 /\ ids (store_page page c).2 = ids c.
Proof.
  intros [B1 B2 B3 B4 B5].
  assert (Hi : ids (store_page page c).2 = ids c).
  { unfold ids, store_page. cbn [snd set_requests set_list heap messages]. apply map_ext_in. intros m Hm%list_elem_of_In%B2.
    apply (id_of_old _ _ (next c)); [|done]. intros k x Hk. apply stored_bounds in Hk. lia. }
  split; [|done]. split; [by rewrite Hi|..]; unfold store_page; cbn [snd set_requests set_list heap messages next requests signed_in nextCursor opened].
  - intros m ?%B2. lia.
  - intros m x [Hx|[_ Hx]]%lookup_union_Some_raw; [apply stored_bounds in Hx; lia|apply B3 in Hx; lia].
  - intros i r ?%B4. lia.
  - exact B5.
Qed.

Lemma with_page_ok reset page c : base_ok c -> cards_ok c -> signed_in c = true -> NoDup (map message_id page) ->
  let '(first, d) := with_page reset page c in
  base_ok d /\ cards d = cards c /\ next c <= next d /\ requests d = requests c /\ signed_in d = signed_in c /\
  (forall n, nonempty first = true -> index_where (fun x => (x =? first)%js) (ids d) = Some n -> 0 < n ->
    map snd (cards c) = take n (ids d)) /\
  (reset = true -> ids d = map message_id page) /\
  (reset = false -> exists new, ids d = ids c ++ new /\ forall m, m ∈ page -> nonempty (message_id m) = true -> message_id m ∈ ids d).
Proof.
  intros B C Hs Hp. destruct (store_base page c B) as [B' Hi]. unfold with_page.
  pose proof (stored_ids (next c) page (heap c)) as Hids.
  destruct (store_page page c) as [l c'] eqn:E. injection E as <- <-. cbn [snd] in B', Hi. 
  set (c' := set_requests _ _ _) in *. destruct reset.
  - assert (Hd : ids (set_list (heap c') (seq (next c) (length page)) (nextCursor c') c') = map message_id page) by exact Hids.
    split_and!; try done; [|cbn; lia]. destruct B' as [B1 B2 B3 B4 B5]. split; [by rewrite Hd| |exact B3|exact B4|].
    + intros m Hm%elem_of_seq. cbn. lia.
    + cbn. congruence.
  - unfold appendUniqueMessagePage.
    pose proof (append_spec (heap c') (seq (next c) (length page)) (messages c') (ids c') [] eq_refl (base_ids _ B')) as Ha.
    destruct (fold_left _ _ _) as [[l' ex'] first]. destruct Ha as (new & -> & -> & Hnd & Hin & Hf & Hne & Hall).
    cbn [nonempty] in Hf. specialize (Hne eq_refl).
    set (d := set_list (heap c') (messages c' ++ new) (nextCursor c') c').
    assert (Hd : ids d = ids c ++ map (id_of (heap c')) new) by (rewrite <- Hi; unfold ids, d; cbn [set_list heap messages]; by rewrite map_app).
    split_and!; try done.
    + destruct B' as [B1 B2 B3 B4 B5]. split; [exact Hnd| |exact B3|exact B4|].
      * intros m [Hm%B2|Hm%Hin%elem_of_seq]%elem_of_app; cbn in *; lia.
      * cbn. congruence.
    + cbn. lia.
    + intros n Hfn Hix Hn. rewrite Hd in *. destruct new as [|m new]; [by subst first|]. subst first. cbn [map] in *.
      rewrite index_where_app in Hix.
      * injection Hix as <-. rewrite take_app_length. apply (cards_shown _ C). intros Hm.
        unfold ids in Hn. rewrite Hm in Hn. simpl in Hn. lia.
      * assert (Hnd' : NoDup (ids c ++ id_of (heap c') m :: map (id_of (heap c')) new)) by (rewrite <- Hd; exact Hnd).
        apply NoDup_app in Hnd' as (_ & Hdis & _). intros Hin'. by apply (Hdis _ Hin'); left.
    + intros _. exists (map (id_of (heap c')) new). split; [done|]. intros m Hm Hid.
      assert (Hmid : message_id m ∈ map message_id page) by (apply list_elem_of_fmap; eauto).
      rewrite <- Hids in Hmid. apply list_elem_of_fmap in Hmid as (k & Hk & Hkl). rewrite Hk in Hid |- *.
      by apply (Hall k Hkl).
Qed.

(** ** Lemmas: removing cards *)
Lemma find_card_spec id (cs : list (nat * jstr)) k : NoDup (map snd cs) -> find_card id cs = Some k <-> (k, id) ∈ cs.
Proof.
  unfold find_card. induction cs as [|[k0 id0] cs IH]; intros Hd; simpl; [by rewrite elem_of_nil|].
  apply NoDup_cons in Hd as [Hn Hd]. rewrite elem_of_cons. destruct (bool_decide_reflect (id0 = id)) as [->|Hne]; cbn [fmap option_fmap option_map].
  - split; [intros [= <-]; by left|]. intros [[= <-]|Hin]; [done|]. exfalso. apply Hn. apply list_elem_of_fmap. by exists (k, id).
  - rewrite (IH Hd). split; [by right|]. intros [[= <- <-]|]; done.
Qed.

Lemma removed_cards (idf : nat -> jstr) (P : nat -> bool) (ms gone : list nat) (cs : list (nat * jstr)) :
  map snd cs = map idf ms -> NoDup (map idf ms) -> NoDup (map fst cs) ->
  (forall k, k ∈ gone <-> exists m, m ∈ ms /\ P m = false /\ find_card (idf m) cs = Some k) ->
  map snd (List.filter (fun p => negb (bool_decide (p.1 ∈ gone))) cs) = map idf (List.filter P ms).
Proof.
  intros He Hd Hk Hg.
  assert (Hlen : length ms = length cs) by (apply (f_equal length) in He; by rewrite !length_map in He).
  assert (HF : Forall2 (fun m p => p.2 = idf m /\ bool_decide (p.1 ∈ gone) = negb (P m)) ms cs).
  { apply Forall2_same_length_lookup. split; [done|]. intros j m [k id] Hm Hp. cbn [fst snd].
    assert (id = idf m) as ->.
    { assert (Hj : map snd cs !! j = map idf ms !! j) by by rewrite He. rewrite !list_lookup_fmap, Hm, Hp in Hj. by injection Hj as ->. }
    split; [done|]. assert (Hin : (k, idf m) ∈ cs) by by apply list_elem_of_lookup_2 in Hp.
    assert (Hmin : m ∈ ms) by by apply list_elem_of_lookup_2 in Hm.
    apply (find_card_spec (idf m) cs k) in Hin as Hfind; [|by rewrite He].
    destruct (P m) eqn:HP; simpl.
    - apply bool_decide_eq_false. intros (m' & Hm' & HP' & Hf)%Hg.
      apply find_card_spec in Hf; [|by rewrite He].
      assert (E : idf m' = idf m).
      { apply list_elem_of_lookup in Hf as [a Ha]. apply list_elem_of_lookup in Hin as [b Hb].
        assert (a = b) as ->; [|by rewrite Ha in Hb; injection Hb].
        apply (NoDup_lookup _ _ _ k Hk); rewrite list_lookup_fmap; [by rewrite Ha|by rewrite Hb]. }
      apply list_elem_of_lookup in Hm' as [a Ha]. assert (a = j) as ->; [|congruence].
      apply (NoDup_lookup _ _ _ (idf m) Hd); rewrite list_lookup_fmap; [by rewrite Ha; simpl; rewrite E|by rewrite Hm].
    - apply bool_decide_eq_true. apply Hg. by exists m. }
  clear -HF. induction HF as [|m p ms cs [H1 H2] HF IH]; [done|]. simpl. rewrite H2. destruct (P m); simpl; [|done].
  by rewrite IH, H1.
Qed.

(** ** Lemmas: steps *)
Definition pending (c : center) (m : nat) : bool := match heap c !! m with Some x => isPendingActionMessage x | None => false end.

Record center_ok (c : center) : Prop := {
  c_base : base_ok c;
  c_cards : cards_ok c;
  c_deleting : forall i m remaining card, requests c !! i = Some (Deleting m remaining card) ->
    remaining = List.filter (fun x => negb (id_of (heap c) x =? id_of (heap c) m)%js) (messages c) /\
    card = find_card (id_of (heap c) m) (cards c);
  c_clearing : forall i retained gone n, requests c !! i = Some (Clearing retained gone n) ->
    retained = List.filter (pending c) (messages c) /\
    gone = omap (fun m => if pending c m then None else find_card (id_of (heap c) m) (cards c)) (messages c);
  c_one : forall i j r q, requests c !! i = Some r -> requests c !! j = Some q ->
    is_animation r = true -> is_animation q = true -> i = j
}.

Lemma center_quiet_ok c : base_ok c -> cards_ok c -> under_way is_animation c = false -> center_ok c.
Proof.
  intros B C Hu. split; [done|done| | |].
  - intros i m l k Hi. by pose proof (not_under_way _ _ _ _ Hu Hi).
  - intros i l k n Hi. by pose proof (not_under_way _ _ _ _ Hu Hi).
  - intros i j r q Hi _ Hr. pose proof (not_under_way _ _ _ _ Hu Hi). congruence.
Qed.

Lemma calm_ok c d : calm c d -> center_ok c -> center_ok d.
Proof.
  intros Hc [B C D1 D2 D3]. pose proof (calm_mild c d Hc) as Hm.
  split; [by apply (mild_base c)|by apply (mild_cards c)| | |]; destruct Hc as (Hh & Hms & _ & Hcs & _ & _ & _ & Hr).
  - intros i m l k Hi. rewrite Hh, Hms, Hcs. destruct (Hr i _ Hi) as [Hi'|(_ & ? & _)]; [by eapply D1|done].
  - intros i l k n Hi. unfold pending. rewrite Hh, Hms, Hcs. destruct (Hr i _ Hi) as [Hi'|(_ & ? & _)]; [by eapply D2|done].
  - intros i j r q Hi Hj Ha Hb. destruct (Hr i _ Hi) as [Hi'|(_ & ? & _)]; [|congruence].
    destruct (Hr j _ Hj) as [Hj'|(_ & ? & _)]; [|congruence]. by apply (D3 i j r q).
Qed.

Lemma mild_quiet_ok c d : mild c d -> base_ok c -> cards_ok c -> under_way is_animation c = false -> center_ok d.
Proof.
  intros Hm B C Hu. apply center_quiet_ok; [by apply (mild_base c)|by apply (mild_cards c)|by apply (mild_quiet c)].
Qed.

(** A state is drawn: nothing else about it but the cards matters. *)
Lemma drawn_ok f c : base_ok c -> cards_ok c -> under_way is_animation c = false ->
  (nonempty f = true -> forall k, k = length (cards c) -> index_where (fun x => (x =? f)%js) (ids c) = Some k -> 0 < k -> map snd (cards c) = take k (ids c)) ->
  center_ok (renderMessages f c).
Proof.
  intros B C Hu Hf. destruct (redraw_ok c B (cards_old _ C) (cards_distinct _ C) f Hf) as [B' C']. by apply center_quiet_ok.
Qed.

Lemma signed_in_loading c i r : base_ok c -> requests c !! i = Some r -> is_load r = true -> signed_in c = true.
Proof.
  intros B Hi Hl. destruct (signed_in c) eqn:E; [done|]. destruct (base_out _ B E) as (_ & _ & _ & Hu).
  pose proof (not_under_way _ _ _ _ Hu Hi). congruence.
Qed.

Lemma signed_in_opened c : base_ok c -> opened c = true -> signed_in c = true.
Proof.
  intros B Ho. destruct (signed_in c) eqn:E; [done|]. destruct (base_out _ B E) as (_ & _ & Hc & _). congruence.
Qed.

Lemma after_fetch_calm cleared c : calm c (after_fetch cleared c).
Proof. destruct cleared; [|done]. etrans; [apply alert_calm|apply end_clearing_calm]. Qed.

Lemma page_received_ok reset page cursor n c : base_ok c -> cards_ok c -> under_way is_animation c = false ->
  signed_in c = true -> NoDup (map message_id page) -> center_ok (page_received reset page cursor n c).
Proof.
  intros B C Hu Hs Hp. unfold page_received. pose proof (with_page_ok reset page c B C Hs Hp) as Hw.
  destruct (with_page reset page c) as [first d]. destruct Hw as (Bd & Hcs & Hn & Hr & Hsd & Hf & _).
  set (e := setUnreadCount n _).
  assert (Be : base_ok e).
  { destruct Bd as [B1 B2 B3 B4 B5]. split; [exact B1|exact B2|exact B3|exact B4|]. cbn. congruence. }
  assert (Hue : under_way is_animation e = false) by (unfold under_way; cbn; by rewrite Hr).
  destruct (redraw_ok e Be) with (f := first) as [B' C'].
  - change (cards e) with (cards d). change (next e) with (next d). rewrite Hcs. intros k ?%(cards_old _ C). lia.
  - change (cards e) with (cards d). rewrite Hcs. apply (cards_distinct _ C).
  - intros Hne k Hk Hi Hpos. change (cards e) with (cards d). rewrite Hcs. by apply Hf.
  - by apply center_quiet_ok.
Qed.

Lemma fetch_answered_ok i reset cleared a c : base_ok c -> cards_ok c -> under_way is_animation c = false ->
  requests c !! i = Some (Fetch reset cleared) -> (match a with Page page _ _ => NoDup (map message_id page) | _ => True end) ->
  center_ok (fetch_answered reset cleared a (finish i c)).
Proof.
  intros B C Hu Hi Hp. pose proof (signed_in_loading c i _ B Hi eq_refl) as Hs.
  pose proof (finish_calm i c) as Hf. assert (Hm : mild c (finish i c)) by by apply calm_mild.
  assert (K : center_ok (finish i c)) by by apply (mild_quiet_ok c).
  unfold fetch_answered. apply (calm_ok _ _ (after_fetch_calm cleared _)).
  destruct a as [page cursor n|n| | |]; try (apply (calm_ok (finish i c)); [etrans; [apply alert_calm|apply end_fetch_calm]|done]).
  apply (calm_ok _ _ (end_fetch_calm _)). apply page_received_ok; [apply K|apply K|by apply (mild_quiet c)|done|done].
Qed.

Lemma mark_all_mild l c : mild c (fold_left (fun c m => mark_read m c) l c).
Proof.
  revert c. induction l as [|m l IH]; intros c; [by apply calm_mild|]. eapply mild_trans; [apply mark_read_mild|apply IH].
Qed.

Lemma mild_drawn_ok c d : mild c d -> base_ok c -> cards_ok c -> under_way is_animation c = false ->
  center_ok (renderMessages [] d).
Proof.
  intros Hm B C Hu. apply drawn_ok; [by apply (mild_base c)|by apply (mild_cards c)|by apply (mild_quiet c)|done].
Qed.

Lemma status_mild m st c : mild c
  (set_list (alter (fun x => mk_message (message_id x) (read x) (action_kind x) st) m (heap c)) (messages c) (nextCursor c) c).
Proof.
  unfold mild. split_and!; cbn; try done; try lia; auto.
  - intros k. unfold id_of. rewrite lookup_alter. case_decide; [subst|done]. by destruct (heap c !! k).
  - intros k x. rewrite lookup_alter. case_decide; [subst|by intros ->]. by destruct (heap c !! k).
Qed.

(** A request of a state where one was put. *)
Ltac put_cases H := cbn [start_deleting start_clearing set_requests requests] in H;
  apply lookup_insert_Some in H as [[<- <-]|[_ H]].

Lemma start_deleting_ok i m c : base_ok c -> cards_ok c -> under_way is_animation c = false -> is_Some (requests c !! i) ->
  center_ok (start_deleting i m c).
Proof.
  intros B C Hu [r Hi]. destruct B as [B1 B2 B3 B4 B5]. pose proof (B4 i r Hi) as Hlt.
  assert (Hanim : forall j q, requests (start_deleting i m c) !! j = Some q -> is_animation q = true -> j = i).
  { intros j q Hj Ha. put_cases Hj; [done|]. by rewrite (not_under_way _ _ _ _ Hu Hj) in Ha. }
  split; [split; [exact B1|exact B2|exact B3| |]|split; apply C| | |].
  - intros j q Hj. put_cases Hj; [exact Hlt|by eapply B4].
  - intros E. destruct (B5 E) as (H1 & H2 & H3 & H4). split_and!; [done..|]. apply not_true_is_false.
    intros (j & q & Hj & Hl)%under_way_spec. put_cases Hj; [done|].
    by rewrite (not_under_way _ _ _ _ H4 Hj) in Hl.
  - intros j m' l k Hj. pose proof (Hanim j _ Hj eq_refl) as ->. cbn [start_deleting set_requests requests] in Hj.
    rewrite lookup_insert_eq in Hj. injection Hj as <- <- <-. done.
  - intros j l k n Hj. pose proof (Hanim j _ Hj eq_refl) as ->. cbn [start_deleting set_requests requests] in Hj.
    rewrite lookup_insert_eq in Hj. done.
  - intros j j' q q' Hj Hj' Ha Ha'. rewrite (Hanim j q Hj Ha). by rewrite (Hanim j' q' Hj' Ha').
Qed.

Lemma start_clearing_ok i n c : base_ok c -> cards_ok c -> under_way is_animation c = false -> requests c !! i = Some Clear ->
  center_ok (start_clearing i n c).
Proof.
  intros B C Hu Hi. pose proof (signed_in_loading c i _ B Hi eq_refl) as Hs. destruct B as [B1 B2 B3 B4 B5]. pose proof (B4 i _ Hi) as Hlt.
  assert (Hanim : forall j q, requests (start_clearing i n c) !! j = Some q -> is_animation q = true -> j = i).
  { intros j q Hj Ha. put_cases Hj; [done|]. by rewrite (not_under_way _ _ _ _ Hu Hj) in Ha. }
  split; [split; [exact B1|exact B2|exact B3| |]|split; apply C| | |].
  - intros j q Hj. put_cases Hj; [exact Hlt|by eapply B4].
  - cbn. congruence.
  - intros j m' l k Hj. pose proof (Hanim j _ Hj eq_refl) as ->. cbn [start_clearing set_requests requests] in Hj.
    rewrite lookup_insert_eq in Hj. done.
  - intros j l k n' Hj. pose proof (Hanim j _ Hj eq_refl) as ->. cbn [start_clearing set_requests requests] in Hj.
    rewrite lookup_insert_eq in Hj. injection Hj as <- <- <-. done.
  - intros j j' q q' Hj Hj' Ha Ha'. rewrite (Hanim j q Hj Ha). by rewrite (Hanim j' q' Hj' Ha').
Qed.

Lemma center_answered_ok i a c : base_ok c -> cards_ok c -> under_way is_animation c = false ->
  (match a with Page page _ _ => NoDup (map message_id page) | _ => True end) -> center_ok (answered i a c).
Proof.
  intros B C Hu Hp. assert (K : center_ok c) by by apply center_quiet_ok.
  unfold answered. destruct (requests c !! i) as [r|] eqn:Hi; [|done].
  pose proof (finish_calm i c) as Hf. assert (Hm : mild c (finish i c)) by by apply calm_mild.
  assert (Hfin : center_ok (finish i c)) by by apply (calm_ok c).
  assert (Hal : forall k, center_ok (alert k (finish i c))) by (intros k; by apply (calm_ok (finish i c)); [apply alert_calm|]).
  destruct r as [reset cleared|m| | |l g n|m|m l k|m ac|]; try done.
  - by apply fetch_answered_ok.
  - destruct a; try done. apply (mild_drawn_ok c); [|done..].
    eapply mild_trans; [exact Hm|]. eapply mild_trans; [apply mark_read_mild|apply calm_mild, unread_calm].
  - destruct a; try done. apply (mild_drawn_ok c); [|done..].
    eapply mild_trans; [exact Hm|]. eapply mild_trans; [apply mark_all_mild|apply calm_mild, unread_calm].
  - destruct a; try (apply (calm_ok (alert "messages.clearFailed" (finish i c))); [apply end_clearing_calm|done]).
    by apply start_clearing_ok.
  - destruct a; try done. apply start_deleting_ok; [done..|by eexists].
  - destruct a; try done. unfold action_done. apply (mild_drawn_ok c); [|done..].
    eapply mild_trans; [exact Hm|]. eapply mild_trans; [apply (status_mild m (if ac then js "accepted" else js "rejected"))|].
    destruct (is_read _ _); [by apply calm_mild|]. eapply mild_trans; [apply mark_read_mild|apply calm_mild, unread_calm].
  - destruct a; try done. apply (calm_ok (finish i c)); [apply unread_calm|done].
Qed.

Lemma ids_filter c (P : nat -> bool) (Q : jstr -> bool) : (forall m, m ∈ messages c -> P m = Q (id_of (heap c) m)) ->
  map (id_of (heap c)) (List.filter P (messages c)) = List.filter Q (ids c).
Proof.
  unfold ids. generalize (messages c). intros l Hl. induction l as [|m l IH]; [done|]. simpl.
  rewrite (Hl m) by left. destruct (Q (id_of (heap c) m)); simpl; rewrite IH; try done; intros k Hk; apply Hl; by right.
Qed.

Lemma keep_some_ok c (P : nat -> bool) gone cursor : base_ok c -> cards_ok c -> (cursor <> [] -> signed_in c = true) ->
  (messages c <> [] -> forall k, k ∈ gone <-> exists m, m ∈ messages c /\ P m = false /\ find_card (id_of (heap c) m) (cards c) = Some k) ->
  let d := remove_cards gone (set_list (heap c) (List.filter P (messages c)) cursor c) in
  base_ok d /\ cards_ok d.
Proof.
  intros [B1 B2 B3 B4 B5] [C1 C2 C3] Hcur Hg d.
  assert (Hsub : forall m, m ∈ messages d -> m ∈ messages c) by (intros m Hm; by apply elem_of_Lfilter in Hm as [Hm _]).
  assert (Hids : ids d = map (id_of (heap c)) (List.filter P (messages c))) by done.
  split.
  - split; [rewrite Hids; by apply NoDup_map_Lfilter|intros m Hm%Hsub; by apply B2|exact B3|exact B4|].
    intros E. change (signed_in c = false) in E. destruct (B5 E) as (H1 & H2 & H3 & H4). cbn [d remove_cards set_dom set_list messages nextCursor opened].
    rewrite H1. split_and!; try done. destruct cursor; [done|]. rewrite Hcur in E by done. discriminate.
  - split; cbn [d remove_cards set_dom set_list cards messages next].
    + intros Hne. change (ids d) with (ids d). rewrite Hids. assert (Hm : messages c <> []) by (intros E; rewrite E in Hne; done).
      apply removed_cards; [by apply C1|exact B1|done|by apply Hg].
    + by apply NoDup_map_Lfilter.
    + intros k Hk. apply list_elem_of_fmap in Hk as (p & -> & [Hp _]%elem_of_Lfilter). apply C3, list_elem_of_fmap. by exists p.
Qed.

(** Removing before and after the change of the list, and the sign of a card that is not there. *)
Lemma remove_set_list gone h l cursor c :
  set_list h l cursor (remove_cards gone c) = remove_cards gone (set_list h l cursor c).
Proof. done. Qed.

Lemma keep_all {A} (l : list (nat * A)) : List.filter (fun p => negb (bool_decide (p.1 ∈ @nil nat))) l = l.
Proof.
  induction l as [|p l IH]; [done|]. cbn [List.filter]. rewrite bool_decide_eq_false_2 by apply not_elem_of_nil.
  cbn [negb]. by rewrite IH.
Qed.

Lemma remove_none c : remove_cards [] c = c.
Proof. unfold remove_cards. rewrite keep_all. by destruct c. Qed.

Lemma deleted_card_spec c m (card : option nat) : base_ok c -> cards_ok c ->
  card = find_card (id_of (heap c) m) (cards c) -> messages c <> [] ->
  forall k, k ∈ (match card with Some k => [k] | None => [] end) <->
    exists m', m' ∈ messages c /\ negb (id_of (heap c) m' =? id_of (heap c) m)%js = false /\
               find_card (id_of (heap c) m') (cards c) = Some k.
Proof.
  intros B C -> Hne k. assert (Hnd : NoDup (map snd (cards c))) by (rewrite (cards_shown _ C Hne); apply B).
  split.
  - destruct (find_card _ _) as [k'|] eqn:Hf; [|by intros ?%elem_of_nil]. intros ->%list_elem_of_singleton.
    apply find_card_spec in Hf as Hin; [|done].
    assert (Hid : id_of (heap c) m ∈ ids c) by (rewrite <- (cards_shown _ C Hne); apply list_elem_of_fmap; by exists (k', id_of (heap c) m)).
    apply list_elem_of_fmap in Hid as (m' & E & Hm'). exists m'. rewrite <- E. split_and!; [done| |done].
    by rewrite bool_decide_eq_true_2.
  - intros (m' & Hm' & E & Hf). apply negb_false_iff, bool_decide_eq_true in E. rewrite E in Hf. rewrite Hf. by left.
Qed.

(** The end of a deletion leaves the other messages. *)
Lemma deleteMessage_done_ok i m remaining card c : center_ok c -> requests c !! i = Some (Deleting m remaining card) ->
  center_ok (deleteMessage_done m remaining card (finish i c)) /\
  ids (deleteMessage_done m remaining card (finish i c)) = List.filter (fun x => negb (x =? id_of (heap c) m)%js) (ids c).
Proof.
  intros [B C D1 D2 D3] Hi. destruct (D1 i _ _ _ Hi) as [Hrem Hcard].
  assert (Hq : under_way is_animation (finish i c) = false).
  { apply not_true_is_false. intros (j & r & Hj & Ha)%under_way_spec. cbn [finish set_requests requests] in Hj.
    apply lookup_delete_Some in Hj as [Hne Hj]. apply Hne. by apply (D3 i j _ r Hi Hj). }
  unfold deleteMessage_done. cbv zeta.
  set (c1 := if is_read m (finish i c) then finish i c else one_less_unread (finish i c)).
  assert (Hc1 : calm c c1).
  { etrans; [apply (finish_calm i)|]. unfold c1. destruct (is_read _ _); [done|apply unread_calm]. }
  assert (Hq1 : under_way is_animation c1 = false) by (unfold c1; by destruct (is_read m (finish i c))).
  assert (Hm1 : mild c c1) by by apply calm_mild. destruct Hc1 as (Hh & Hms & Hn & Hcs & Hs & _).
  assert (B1 : base_ok c1) by by apply (mild_base c). assert (C1 : cards_ok c1) by by apply (mild_cards c).
  set (P := fun x => negb (id_of (heap c1) x =? id_of (heap c1) m)%js).
  assert (Hrem1 : remaining = List.filter P (messages c1)) by (unfold P; rewrite Hh, Hms; exact Hrem).
  set (gone := match card with Some k => [k] | None => [] end).
  set (d := remove_cards gone (set_list (heap c1) remaining (nextCursor c1) c1)).
  assert (Hd : match card with Some k => remove_cards [k] (set_list (heap c1) remaining (nextCursor c1) c1)
               | None => set_list (heap c1) remaining (nextCursor c1) c1 end = d).
  { unfold d, gone. destruct card; [done|]. by rewrite remove_none. }
  rewrite Hd. assert (Hok : base_ok d /\ cards_ok d).
  { unfold d. rewrite Hrem1. apply keep_some_ok; [done|done| |].
    - intros Hne. destruct (signed_in c1) eqn:E; [done|]. destruct (base_out _ B1 E) as (_ & ? & _). done.
    - intros Hne. apply deleted_card_spec; [done|done| |done]. by rewrite Hh, Hcs. }
  destruct Hok as [Bd Cd]. assert (Hqd : under_way is_animation d = false) by exact Hq1.
  assert (Hsd : calm d (syncMessageListControls d)) by (etrans; [apply sync_calm|apply toolbar_calm]).
  assert (Hids : ids d = List.filter (fun x => negb (x =? id_of (heap c) m)%js) (ids c)).
  { change (ids d) with (map (id_of (heap c1)) remaining). rewrite Hrem1, <- (mild_ids c c1 Hm1). unfold P. rewrite Hh.
    rewrite <- Hh. by apply (ids_filter c1 _ (fun x => negb (x =? id_of (heap c1) m)%js)). }
  assert (Hres : forall e, calm d e -> center_ok e /\ ids e = List.filter (fun x => negb (x =? id_of (heap c) m)%js) (ids c)).
  { intros e He. split; [apply (calm_ok d); [done|by apply center_quiet_ok]|]. by rewrite (mild_ids d e (calm_mild _ _ He)). }
  destruct (_ && _) eqn:E; apply Hres; [|done]. etrans; [exact Hsd|]. apply fetch_messages_calm.
  apply andb_true_iff in E as [_ Hne]. change (signed_in c1 = true). destruct (signed_in c1) eqn:Es; [done|].
  destruct (base_out _ B1 Es) as (_ & H2 & _). change (nonempty (nextCursor c1) = true) in Hne. by rewrite H2 in Hne.
Qed.

Lemma clearing_done_ok i retained gone n c : center_ok c -> requests c !! i = Some (Clearing retained gone n) ->
  center_ok (clearing_done retained gone n (finish i c)) /\
  ids (clearing_done retained gone n (finish i c)) = map (id_of (heap c)) (List.filter (pending c) (messages c)).
Proof.
  intros [B C D1 D2 D3] Hi. destruct (D2 i _ _ _ Hi) as [Hret Hgone].
  pose proof (signed_in_loading c i _ B Hi eq_refl) as Hs.
  assert (Hq : under_way is_animation (finish i c) = false).
  { apply not_true_is_false. intros (j & r & Hj & Ha)%under_way_spec. cbn [finish set_requests requests] in Hj.
    apply lookup_delete_Some in Hj as [Hne Hj]. apply Hne. by apply (D3 i j _ r Hi Hj). }
  pose proof (finish_calm i c) as Hf. assert (Hm1 : mild c (finish i c)) by by apply calm_mild.
  set (c1 := finish i c) in *. assert (B1 : base_ok c1) by by apply (mild_base c). assert (C1 : cards_ok c1) by by apply (mild_cards c).
  set (d := remove_cards gone (set_list (heap c1) retained [] c1)).
  assert (Hok : base_ok d /\ cards_ok d).
  { unfold d. rewrite Hret. change (pending c) with (pending c1). change (messages c) with (messages c1).
    apply keep_some_ok; [done|done|done|]. intros Hne k. rewrite Hgone. rewrite list_elem_of_omap.
    split; intros (m & Hm & H1).
    - destruct (pending c m) eqn:E; [done|]. by exists m.
    - destruct H1 as [E Hk]. exists m. split; [done|]. change (pending c m) with (pending c1 m). by rewrite E. }
  destruct Hok as [Bd Cd]. assert (Hqd : under_way is_animation d = false) by exact Hq.
  assert (Hsd : calm d (syncMessageListControls d)) by (etrans; [apply sync_calm|apply toolbar_calm]).
  assert (Hids : ids d = map (id_of (heap c)) (List.filter (pending c) (messages c))) by (unfold ids; cbn; by rewrite Hret).
  assert (Hres : forall e, calm d e -> center_ok e /\ ids e = map (id_of (heap c)) (List.filter (pending c) (messages c))).
  { intros e He. split; [apply (calm_ok d); [done|by apply center_quiet_ok]|]. by rewrite (mild_ids d e (calm_mild _ _ He)). }
  unfold clearing_done. cbv zeta.
  change (set_list (heap (remove_cards gone c1)) retained [] (remove_cards gone c1)) with d.
  destruct (fetchMessages _ _ _ _) as [e|] eqn:E; apply Hres.
  - etrans; [exact Hsd|]. by eapply fetchMessages_calm.
  - etrans; [exact Hsd|]. etrans; [apply alert_calm|apply end_clearing_calm].
Qed.

Lemma animated_ok i c : center_ok c -> center_ok (animated i c).
Proof.
  intros K. unfold animated. destruct (requests c !! i) as [[]|] eqn:Hi; try done.
  - by apply clearing_done_ok.
  - by apply deleteMessage_done_ok.
Qed.

Lemma flags_ok p l cl op c : base_ok c -> cards_ok c -> under_way is_animation c = false ->
  center_ok (set_flags p l cl true op c).
Proof.
  intros [B1 B2 B3 B4 B5] [C1 C2 C3] Hu. apply center_quiet_ok; [|by split|done]. split; [exact B1|exact B2|exact B3|exact B4|done].
Qed.

Lemma refresh_calm c : calm c (refreshMessageUnreadCount c).
Proof. unfold refreshMessageUnreadCount. destruct (signed_in c); [by apply send_calm|done]. Qed.

Lemma signed_out_ok c : base_ok c -> cards_ok c -> under_way is_animation c = false -> under_way is_load c = false ->
  center_ok (handleAuthChanged false c).
Proof.
  intros [B1 B2 B3 B4 B5] [C1 C2 C3] Hu Hl. apply center_quiet_ok; [|split|done].
  - split; [apply NoDup_nil_2|by intros m ?%elem_of_nil|exact B3|exact B4|]. intros _. split_and!; done.
  - done.
  - exact C2.
  - exact C3.
Qed.

Lemma clicked_calm id f c : (forall m, calm c (f m c)) -> calm c (clicked id f c).
Proof. intros Hf. unfold clicked. destruct (_ && _); [|done]. destruct (find_message id c); [apply Hf|done]. Qed.

Lemma center_step_ok ev c : center_ok c -> orderly ev c = true -> center_ok (center_step ev c).
Proof.
  intros K Ho. destruct K as [B C D1 D2 D3] eqn:EK. clear EK. pose proof (Build_center_ok c B C D1 D2 D3) as K'.
  assert (Hcalm : forall d, calm c d -> center_ok d) by (intros d Hd; by apply (calm_ok c)).
  destruct ev as [[] | |kind| | | |id|id|id ac| | |b| |i a|i]; simpl in Ho |- *.
  - apply negb_true_iff in Ho. eapply (calm_ok _ _ (refresh_calm _)). by apply flags_ok.
  - apply andb_true_iff in Ho as [Ho%negb_true_iff Hl%negb_true_iff]. by apply signed_out_ok.
  - apply negb_true_iff in Ho. by apply drawn_ok.
  - apply negb_true_iff in Ho. unfold registerMessageActionHandler. destruct (nonempty kind); [|done].
    apply drawn_ok; [..|done|done]; [destruct B; by split|destruct C; by split].
  - apply negb_true_iff in Ho. destruct (signed_in c) eqn:Hs; [|done].
    eapply calm_ok; [apply fetch_messages_calm|by apply flags_ok]. done.
  - apply Hcalm. calm_tac.
  - destruct (opened c) eqn:Hop; [|done]. destruct (_ && _); [|done]. apply Hcalm, fetch_messages_calm. by apply signed_in_opened.
  - apply Hcalm, clicked_calm. intros m. destruct (is_read m c); [done|by apply send_calm].
  - apply Hcalm, clicked_calm. intros m. by apply send_calm.
  - apply Hcalm, clicked_calm. intros m. unfold executeMessageAction. destruct (heap c !! m) as [[? ? [k|] ?]|]; [|done..].
    case_bool_decide; [by apply send_calm|done].
  - destruct (_ && _); [|done]. by apply Hcalm, send_calm.
  - destruct (_ && _); [|done]. apply Hcalm. etrans; [apply clearing_calm|apply toolbar_calm].
  - destruct (clearingMessages c && _); [|done]. destruct b; [|apply Hcalm, end_clearing_calm].
    apply Hcalm, send_calm; [done|]. intros _. by apply andb_true_iff in Ho as [Ho _].
  - destruct (polling c); [apply Hcalm, refresh_calm|done].
  - destruct (requests c !! i) as [r|] eqn:Hi.
    + destruct r; try (apply andb_true_iff in Ho as [Ho%negb_true_iff Hp]; apply center_answered_ok; [done..|];
        destruct a; [by apply bool_decide_eq_true in Hp|done..]).
      unfold answered. rewrite Hi. pose proof (finish_calm i c) as Hf.
      destruct a; apply Hcalm; first [exact Hf|etrans; [exact Hf|apply unread_calm]|etrans; [exact Hf|apply alert_calm]].
    + unfold answered. by rewrite Hi.
  - by apply animated_ok.
Qed.

Lemma orderly_run_ok evs c : center_ok c -> orderly_run evs c = true ->
  center_ok (fold_left (fun c ev => center_step ev c) evs c).
Proof.
  revert c. induction evs as [|ev evs IH]; intros c K; simpl; [done|]. intros [Ho Hr]%andb_true_iff.
  apply IH; [by apply center_step_ok|done].
Qed.

Lemma center_start_ok b : center_ok (start b).
Proof.
  apply center_quiet_ok; [|split|done].
  - split; cbn; [apply NoDup_nil_2|by intros m ?%elem_of_nil| | |].
    + intros m x. by rewrite lookup_empty.
    + intros i r. by rewrite lookup_empty.
    + done.
  - done.
  - apply NoDup_nil_2.
  - by intros k ?%elem_of_nil.
Qed.

(** ** Lemmas: one page after the other *)
Lemma append_all h page l first :
  NoDup (map (id_of h) l ++ map (id_of h) page) -> Forall (fun m => nonempty (id_of h m) = true) page ->
  (fold_left (append_one h) page (l, map (id_of h) l, first)).1.1 = l ++ page.
Proof.
  revert l first. induction page as [|m page IH]; intros l first Hd Hf; cbn [fold_left]; [by rewrite app_nil_r|].
  apply Forall_cons in Hf as [Hm Hf]. cbn [map] in Hd.
  assert (Hn : id_of h m ∉ map (id_of h) l) by (apply NoDup_app in Hd as (_ & Hd & _); intros Hin; by apply (Hd _ Hin); left).
  unfold append_one at 2. rewrite Hm, bool_decide_eq_false_2 by done. cbn [negb orb].
  replace (map (id_of h) l ++ [id_of h m]) with (map (id_of h) (l ++ [m])) by by rewrite map_app.
  rewrite IH; [by rewrite <- (assoc_L (++))| |done]. by rewrite map_app, <- (assoc_L (++)).
Qed.

Lemma with_page_append page c : base_ok c -> NoDup (ids c ++ map message_id page) ->
  Forall (fun m => nonempty (message_id m) = true) page ->
  ids (with_page false page c).2 = ids c ++ map message_id page.
Proof.
  intros B Hd Hf. destruct (store_base page c B) as [_ Hi]. unfold with_page.
  pose proof (stored_ids (next c) page (heap c)) as Hids.
  destruct (store_page page c) as [l c'] eqn:E. injection E as <- <-. cbn [snd] in Hi.
  set (c' := set_requests _ _ _) in *. unfold appendUniqueMessagePage.
  pose proof (append_all (heap c') (seq (next c) (length page)) (messages c') []) as Ha.
  change (map (id_of (heap c')) (messages c')) with (ids c') in Ha.
  change (map (id_of (heap c')) (seq (next c) (length page)) = map message_id page) in Hids. rewrite Hids in Ha.
  rewrite <- Hi in Hd |- *. specialize (Ha Hd).
  destruct (fold_left _ _ _) as [[l' ex'] first]. cbn [fst snd] in *. rewrite Ha.
  - unfold ids at 1. cbn [set_list heap messages]. by rewrite map_app, Hids.
  - assert (Hs : Forall (fun s => nonempty s = true) (id_of (heap c') <$> seq (next c) (length page))); [|by apply Forall_fmap in Hs].
    change (id_of (heap c') <$> seq (next c) (length page)) with (map (id_of (heap c')) (seq (next c) (length page))).
    rewrite Hids. change (map message_id page) with (message_id <$> page). by apply Forall_fmap.
Qed.

(** The center with a list loaded so far, its dialog open and nothing under way. *)
Record idle (c : center) : Prop := {
  idle_ok : center_ok c;
  idle_signed : signed_in c = true;
  idle_open : opened c = true;
  idle_loading : loading c = false;
  idle_more : more c = let hasMore := negb (length (messages c) =? 0) && nonempty (nextCursor c) in
    mk_more (negb hasMore) (negb hasMore) (if hasMore then nextCursor c else []);
  idle_requests : requests c = ∅
}.


(** A page that arrives for the only request, a fetch. *)
Lemma page_arrives reset page cursor n c : center_ok c -> signed_in c = true -> opened c = true -> loading c = false ->
  requests c = ∅ -> NoDup (map message_id page) -> (reset = false -> nonempty cursor = true) -> forall next_cursor,
  let d := center_step (Answered (next c) (Page page next_cursor n)) (fetch_messages reset cursor c) in
  idle d /\ nextCursor d = (if length page =? 0 then [] else next_cursor) /\ unreadCount d = n /\
  (reset = true -> ids d = map message_id page) /\
  (reset = false -> NoDup (ids c ++ map message_id page) -> Forall (fun m => nonempty (message_id m) = true) page ->
    ids d = ids c ++ map message_id page).
Proof.
  intros K Hs Ho Hl Hr Hp Hc next_cursor.
  assert (E : fetch_messages reset cursor c = send (Fetch reset None) (syncLoadMoreButton (set_loading true c))).
  { unfold fetch_messages, fetchMessages. rewrite Hl. destruct reset; [done|]. by rewrite (Hc eq_refl). }
  rewrite E. set (e := send _ _).
  assert (Hce : calm c e).
  { unfold e. etrans; [apply loading_calm|]. etrans; [apply sync_calm|]. by apply send_calm. }
  assert (Ke : center_ok e) by by apply (calm_ok c).
  assert (Hi : requests e !! next c = Some (Fetch reset None)) by apply lookup_insert_eq.
  cbn [center_step]. unfold answered. rewrite Hi. unfold fetch_answered, after_fetch.
  set (f := finish (next c) e). assert (Hrf : requests f = ∅).
  { change (delete (next c) (<[next c := Fetch reset None]> (requests c)) = ∅). rewrite Hr, delete_insert_eq. apply delete_empty. }
  assert (Hcf : calm c f) by (etrans; [exact Hce|apply finish_calm]).
  assert (Kf : center_ok f) by by apply (calm_ok c).
  pose proof (with_page_ok reset page f (c_base _ Kf) (c_cards _ Kf) Hs Hp) as Hw.
  pose proof (with_page_append page f (c_base _ Kf)) as Happ.
  assert (Hid : ids f = ids c) by by apply mild_ids, calm_mild. rewrite Hid in Happ.
  assert (Kd : center_ok (end_fetch (page_received reset page next_cursor n f))).
  { eapply calm_ok; [apply end_fetch_calm|]. apply page_received_ok; [apply Kf|apply Kf| |done|done].
    unfold under_way. by rewrite Hrf. }
  unfold page_received in *. destruct (with_page reset page f) as [first g] eqn:Eg. destruct Hw as (_ & _ & _ & Hrg & Hsg & _ & Hres & _).
  assert (Hog : opened g = true).
  { unfold with_page, store_page, appendUniqueMessagePage in Eg. destruct reset; [by injection Eg as _ <-|].
    destruct (fold_left _ _ _) as [[? ?] ?]. by injection Eg as _ <-. }
  split_and!; [split| | | |].
  - exact Kd.
  - change (signed_in g = true). by rewrite Hsg.
  - exact Hog.
  - done.
  - done.
  - change (requests g = ∅). by rewrite Hrg.
  - done.
  - done.
  - intros ->. by apply Hres.
  - intros -> Hd Hf. change (ids g = ids c ++ map message_id page). change g with (snd (first, g)). rewrite <- Eg. by apply Happ.
Qed.

(** Loading everything: the dialog is opened, and "load more" is pressed while pages come. *)
Definition open_with (page : list message) (cursor : jstr) (n : nat) (c : center) : center :=
  center_step (Answered (next c) (Page page cursor n)) (center_step Open c).

Definition more_with (c : center) (p : list message * jstr * nat) : center :=
  center_step (Answered (next c) (Page p.1.1 p.1.2 p.2)) (center_step LoadMore c).

Lemma more_enabled c : idle c -> messages c <> [] -> nonempty (nextCursor c) = true ->
  center_step LoadMore c = fetch_messages false (nextCursor c) c.
Proof.
  intros [_ _ Ho _ Hm _] Hne Hc. cbn [center_step]. rewrite Ho, Hm. cbv zeta. rewrite Hc.
  destruct (messages c); [done|]. cbn [length Nat.eqb negb andb more_disabled more_hidden more_cursor]. by rewrite Hc.
Qed.

(** The pages that follow a loaded one: all but the last name the next. *)
Fixpoint chained (pages : list (list message * jstr * nat)) (cursor : jstr) : Prop :=
  match pages with
  | [] => cursor = []
  | (page, cursor', _) :: pages => nonempty cursor = true /\ page <> [] /\ chained pages cursor'
  end.

Definition page_ids (pages : list (list message * jstr * nat)) : list jstr := concat (map (fun p => map message_id p.1.1) pages).

Lemma load_next page cursor n pages c : idle c -> messages c <> [] -> chained ((page, cursor, n) :: pages) (nextCursor c) ->
  NoDup (ids c ++ map message_id page) -> Forall (fun m => nonempty (message_id m) = true) page ->
  let e := more_with c (page, cursor, n) in
  idle e /\ messages e <> [] /\ chained pages (nextCursor e) /\ ids e = ids c ++ map message_id page.
Proof.
  intros Hi Hne (Hc & Hpne & Hch) Hd Hfp e. unfold e, more_with. cbn [fst snd]. rewrite (more_enabled c Hi Hne Hc).
  assert (Hdp : NoDup (map message_id page)) by by apply NoDup_app in Hd as (_ & _ & Hd).
  destruct (page_arrives false page (nextCursor c) n c (idle_ok _ Hi) (idle_signed _ Hi) (idle_open _ Hi) (idle_loading _ Hi)
              (idle_requests _ Hi) Hdp (fun _ => Hc) cursor) as (Hi' & Hcur & _ & _ & Hids).
  specialize (Hids eq_refl Hd Hfp). split_and!; [done| | |done].
  - intros E. apply (f_equal length) in Hids. unfold ids in Hids. rewrite E, length_app, !length_map in Hids. cbn in Hids.
    destruct page; [done|]. cbn in Hids. lia.
  - rewrite Hcur. by destruct page.
Qed.

Lemma page_ids_app l k : page_ids (l ++ k) = page_ids l ++ page_ids k.
Proof. unfold page_ids. by rewrite map_app, concat_app. Qed.

Lemma load_rest pages k c : idle c -> messages c <> [] -> chained (pages ++ k) (nextCursor c) ->
  NoDup (ids c ++ page_ids (pages ++ k)) -> Forall (fun p => Forall (fun m => nonempty (message_id m) = true) p.1.1) pages ->
  let d := fold_left more_with pages c in
  idle d /\ chained k (nextCursor d) /\ ids d = ids c ++ page_ids pages.
Proof.
  revert c. induction pages as [|[[page cursor] n] pages IH]; intros c Hi Hne Hch Hd Hf; cbn [fold_left app].
  - split_and!; [done|done|]. unfold page_ids. cbn. by rewrite app_nil_r.
  - apply Forall_cons in Hf as [Hfp Hf]. unfold page_ids in Hd |- *. cbn [app map concat fst] in *. rewrite (assoc_L (++)) in Hd.
    destruct (load_next page cursor n (pages ++ k) c Hi Hne Hch ltac:(by apply NoDup_app in Hd as [Hd _]) Hfp) as (Hi' & Hne' & Hch' & Hids).
    destruct (IH (more_with c (page, cursor, n)) Hi' Hne' Hch') as (H1 & H2 & H3); [by rewrite Hids|done|].
    split_and!; [done|done|]. by rewrite H3, Hids, <- (assoc_L (++)).
Qed.

(** ** Properties *)
Module Examples.

Definition notice (id : string) (unread pending : bool) : message :=
  mk_message (js id) (negb unread) (if pending then Some (js "invite") else None) (if pending then js "pending" else []).

Definition inbox : list message := [notice "a" true false; notice "b" true false; notice "c" false true].

Definition opened_inbox : center := open_with inbox (js "next") 2 (start true).

Abbreviation run := (fold_left (fun c ev => center_step ev c)).

(** Two deletions whose animations overlap: the first message is back in the list, without a card. *)
Lemma deletions_overlap :
  let c := run [DeleteClick (js "a"); DeleteClick (js "b"); Answered 7 (Done 1); Answered 8 (Done 1); Animated 7; Animated 8] opened_inbox in
  ids c = map js ["a"; "c"]%string /\ map snd (cards c) = [js "c"].
Proof. vm_compute. done. Qed.

(** A redraw during the animation: the card of the deleted message stays. *)
Lemma redrawn_while_leaving :
  let c := run [DeleteClick (js "a"); Answered 7 (Done 1); LanguageChanged; Animated 7] opened_inbox in
  ids c = map js ["b"; "c"]%string /\ map snd (cards c) = map js ["a"; "b"; "c"]%string.
Proof. vm_compute. done. Qed.

(** A page that arrives during the animation of a deletion is lost. *)
Lemma page_lost :
  let c := run [LoadMore; DeleteClick (js "a"); Answered 8 (Done 1); Answered 7 (Page [notice "d" false false] [] 2); Animated 8] opened_inbox in
  ids c = map js ["b"; "c"]%string /\ nextCursor c = [].
Proof. vm_compute. done. Qed.

(** The messages of a user who signed out: a page on its way fills the list of the next user, and the cards of a loaded
    list are shown to the next user who opens the dialog, until the first page comes. *)
Lemma page_of_former_user :
  let c := run [Open; AuthChanged false; AuthChanged true; Answered 0 (Page inbox [] 2)] (start true) in
  ids c = map js ["a"; "b"; "c"]%string /\ unreadCount c = 2.
Proof. vm_compute. done. Qed.

Lemma cards_of_former_user :
  let c := run [AuthChanged false; AuthChanged true; Open] opened_inbox in
  opened c = true /\ ids c = [] /\ map snd (cards c) = map js ["a"; "b"; "c"]%string.
Proof. vm_compute. done. Qed.

(** Two clicks on an unread message count it twice. *)
Lemma counted_twice :
  unreadCount (run [CardClick (js "a"); CardClick (js "a"); Answered 7 (Done 1); Answered 8 (Done 1)] opened_inbox) = 0.
Proof. vm_compute. done. Qed.

Definition in_order : list center_event :=
  [Open; Answered 0 (Page inbox (js "next") 2); CardClick (js "b"); Answered 7 (Done 1); DeleteClick (js "a");
   Answered 11 (Done 1)].

Definition second_page : list message := [notice "d" true false; notice "e" false false].
End Examples.

(** C20: the message center, in any use where nothing happens to the list while a removed card leaves it and no page or
    clearing is under way at a sign-out, a clearing is confirmed by a user who is signed in, and the messages of a page are
    distinct: messages are distinct; while there are any, the cards drawn are the messages, in
    their order; for a user who is signed out no message and no cursor is kept, the center is closed and no load of the list
    is under way; a deletion takes away the message that was deleted and no other, and a clearing keeps the messages with a
    pending action and no other.  Overlaps break each of these, and a sign-out empties the messages but leaves the cards
    that were drawn ([Examples]). *)
Theorem message_list_kept evs signed :
  orderly_run evs (start signed) = true ->
  let c := fold_left (fun c ev => center_step ev c) evs (start signed) in
  NoDup (ids c) /\ (messages c <> [] -> map snd (cards c) = ids c) /\
  (signed_in c = false -> messages c = [] /\ nextCursor c = [] /\ opened c = false /\ under_way is_load c = false) /\
  (forall i m remaining card, requests c !! i = Some (Deleting m remaining card) ->
    ids (center_step (Animated i) c) = List.filter (fun x => negb (x =? id_of (heap c) m)%js) (ids c)) /\
  (forall i retained gone n, requests c !! i = Some (Clearing retained gone n) ->
    ids (center_step (Animated i) c) = map (id_of (heap c)) (List.filter (pending c) (messages c))).
Proof.
  intros Ho c. assert (K : center_ok c) by (apply orderly_run_ok; [apply center_start_ok|done]). clearbody c.
  split_and!; [apply K|apply K|apply (base_out _ (c_base _ K))| |].
  - intros i m remaining card Hi. cbn [center_step]. unfold animated. rewrite Hi. by apply deleteMessage_done_ok.
  - intros i retained gone n Hi. cbn [center_step]. unfold animated. rewrite Hi. by apply clearing_done_ok.
Qed.

Lemma message_list_kept_witness :
  orderly_run Examples.in_order (start true) = true /\
  let c := fold_left (fun c ev => center_step ev c) Examples.in_order (start true) in
  ids (center_step (Animated 11) c) = map js ["b"; "c"]%string.
Proof.
  split; [vm_compute; reflexivity|]. cbv zeta.
  destruct (message_list_kept Examples.in_order true) as (_ & _ & _ & Hd & _); [vm_compute; reflexivity|].
  rewrite (Hd 11 1 [2; 3] (Some 8)); vm_compute; reflexivity.
Defined.

(** C36: a user who opens the message center and presses "load more" until the button is gone gets all messages of the
    server's pages, in order and each once; the button is there, enabled and names the next page, until the last page. *)
Theorem message_paging_complete page cursor n pages :
  page <> [] -> chained pages cursor ->
  NoDup (map message_id page ++ page_ids pages) ->
  Forall (fun p => Forall (fun m => nonempty (message_id m) = true) p.1.1) pages ->
  let c := open_with page cursor n (start true) in
  let d := fold_left more_with pages c in
  ids d = map message_id page ++ page_ids pages /\ loading d = false /\ more_hidden (more d) = true /\
  (forall i p, pages !! i = Some p ->
    let e := fold_left more_with (take i pages) c in
    more e = mk_more false false (nextCursor e) /\ nonempty (nextCursor e) = true).
Proof.
  intros Hne Hch Hd Hf c. assert (Hdp : NoDup (map message_id page)) by by apply NoDup_app in Hd as [Hd _].
  destruct (page_arrives true page [] n (set_flags false false false true true (start true))) with (next_cursor := cursor)
    as (Hi & Hcur & _ & Hids & _); try done.
  { apply flags_ok; [apply center_start_ok..|done]. }
  specialize (Hids eq_refl).
  change (center_step _ _) with c in Hi, Hcur, Hids.
  assert (Hcur' : nextCursor c = cursor) by (rewrite Hcur; destruct page; done).
  assert (Hm : messages c <> []).
  { intros E. apply (f_equal length) in Hids. unfold ids in Hids. rewrite E, length_map in Hids. by destruct page. }
  rewrite <- Hcur' in Hch. rewrite <- Hids in Hd |- *. clear Hcur Hcur' Hids. clearbody c. cbv zeta.
  split_and!.
  1-3: rewrite <- (app_nil_r pages) in Hch, Hd; destruct (load_rest pages [] c Hi Hm Hch Hd Hf) as (Hdi & Hdc & Hdids).
  - exact Hdids.
  - apply Hdi.
  - rewrite (idle_more _ Hdi). cbv zeta. cbn in Hdc. rewrite Hdc. by rewrite andb_false_r.
  - intros i p Hp. rewrite <- (take_drop i pages) in Hch, Hd, Hf. apply Forall_app in Hf as [Hf _].
    destruct (load_rest (take i pages) (drop i pages) c Hi Hm Hch Hd Hf) as (Hdi & Hdc & Hdids).
    rewrite (drop_S _ _ _ Hp) in Hdc. destruct p as [[pg cu] k]. destruct Hdc as [Hc _]. split; [|done].
    rewrite (idle_more _ Hdi). cbv zeta. rewrite Hc.
    assert (Hm' : messages (fold_left more_with (take i pages) c) <> []).
    { intros E. apply (f_equal length) in Hdids. unfold ids in Hdids. rewrite E, length_app, length_map in Hdids.
      destruct (messages c); [done|]. cbn in Hdids. lia. }
    by destruct (messages (fold_left more_with (take i pages) c)).
Qed.

Lemma message_paging_complete_witness :
  ids (fold_left more_with [(Examples.second_page, [], 3)] (open_with Examples.inbox (js "next") 2 (start true))) =
    map js ["a"; "b"; "c"; "d"; "e"]%string /\
  more_hidden (more (fold_left more_with [(Examples.second_page, [], 3)] (open_with Examples.inbox (js "next") 2 (start true)))) = true.
Proof.
  destruct (message_paging_complete Examples.inbox (js "next") 2 [(Examples.second_page, [], 3)]) as (Hids & _ & Hm & _).
  - done.
  - by split_and!.
  - refine (proj1 (bool_decide_eq_true _) _); vm_compute; reflexivity.
  - repeat constructor.
  - exact (conj (eq_trans Hids eq_refl) Hm).
Defined.
