(* ===== verification/Markdown.v ===== *)
(** * User-controlled Markdown

    [internal/service/frontend/renop-html/js/markdown.js]: the elements, attributes and addresses that a README may put
    on a page.  The Markdown parser and the URL parser are parameters; the parsed fragment is a forest whose elements
    have identities, since the code collects its elements before it changes the fragment. *)
From S2P Require Import Prelude JsString BrowserUtils.
Local Open Scope N_scope.

(** ** Addresses *)
(** What [new URL(raw)] tells of an absolute address; [None]: it throws. *)
Record parsed_url := {
  protocol : jstr;
  hostname : jstr;
  username : jstr;
  password : jstr;
  url_href : jstr
}.
Class UrlParser := { new_URL : jstr -> option parsed_url }.

Section markdown.
Context `{UrlParser}.

Definition accepted (u : parsed_url) : bool :=
  ((protocol u =? js "http:")%js || (protocol u =? js "https:")%js) && nonempty (hostname u) &&
  negb (nonempty (username u)) && negb (nonempty (password u)).

Definition safeMarkdownURL (value : jstr) : jstr :=
  let raw := trim value in
  if negb (nonempty raw) then []
  else match new_URL raw with
       | Some parsed => if accepted parsed then url_href parsed else []
       | None => []
       end.

(** ** Raw HTML in Markdown *)
(** The five replacements of [escapeMarkdownHTML], each over the result of the one before. *)
Definition escapeMarkdownHTML (value : jstr) : jstr :=
  replace_char 39 (js "&#39;") (replace_char 34 (js "&quot;") (replace_char 62 (js "&gt;")
    (replace_char 60 (js "&lt;") (replace_char 38 (js "&amp;") value)))).

(** ** Fragments *)
#[local] Unset Elimination Schemes.
Inductive node :=
| TextNode (s : jstr)
| CommentNode (s : jstr)
| Element (id : nat) (tagName : jstr) (attributes : list (jstr * jstr)) (children : list node).
#[local] Set Elimination Schemes.

Fixpoint node_ind (P : node -> Prop) (Ht : forall s, P (TextNode s)) (Hc : forall s, P (CommentNode s))
    (He : forall i tag attrs ch, Forall P ch -> P (Element i tag attrs ch)) (n : node) : P n :=
  match n with
  | TextNode s => Ht s
  | CommentNode s => Hc s
  | Element i tag attrs ch =>
    He i tag attrs ch
      ((fix go (ns : list node) : Forall P ns :=
          match ns with [] => Forall_nil_2 P | n :: ns => Forall_cons_2 P n ns (node_ind P Ht Hc He n) (go ns) end) ch)
  end.

Fixpoint textContent (n : node) : jstr :=
  match n with
  | TextNode s => s
  | CommentNode _ => []
  | Element _ _ _ ch => concat (map textContent ch)
  end.

(** [querySelectorAll('*')]: the elements in document order. *)
Fixpoint elements (n : node) : list nat :=
  match n with Element i _ _ ch => i :: concat (map elements ch) | _ => [] end.

Definition all_elements (ns : list node) : list nat := concat (map elements ns).

(** A change of one element, wherever it is; nothing happens to an element that has left the fragment. *)
Fixpoint change (id : nat) (f : node -> node) (n : node) : node :=
  match n with
  | Element i tag attrs ch => if (i =? id)%nat then f n else Element i tag attrs (map (change id f) ch)
  | _ => n
  end.

(** ** The allowlist *)
Definition allowedMarkdownElements : list jstr :=
  map js ["A"; "B"; "BLOCKQUOTE"; "BR"; "CODE"; "DEL"; "EM"; "H1"; "H2"; "H3"; "H4"; "H5"; "H6";
          "HR"; "IMG"; "LI"; "OL"; "P"; "PRE"; "STRONG"; "TABLE"; "TBODY"; "TD"; "TH"; "THEAD"; "TR"; "UL"]%string.

Definition getAttribute (k : string) (attrs : list (jstr * jstr)) : jstr :=
  match List.find (fun p => (p.1 =? js k)%js) attrs with Some p => p.2 | None => [] end.

(** [/^language-[a-z0-9_-]{1,40}$/i] *)
Definition language_char (c : N) : bool := is_alnum c || (c =? 95) || (c =? 45).
Definition language_class (s : jstr) : bool :=
  (map lower_ascii (take 9 s) =? js "language-")%js && forallb language_char (drop 9 s) &&
  (1 <=? length (drop 9 s))%nat && (length (drop 9 s) <=? 40)%nat.

Definition attribute (k : string) (v : jstr) : jstr * jstr := (js k, v).
Definition if_set (k : string) (v : jstr) : list (jstr * jstr) := if nonempty v then [attribute k v] else [].

(** The body of the loop of [sanitizeMarkdownFragment]. *)
Definition sanitize_element (n : node) : node :=
  match n with
  | Element i tag attrs ch =>
    if negb (bool_decide (tag ∈ allowedMarkdownElements)) then TextNode (textContent n)
    else
      let href := if (tag =? js "A")%js then safeMarkdownURL (getAttribute "href" attrs) else [] in
      let source := if (tag =? js "IMG")%js then safeMarkdownURL (getAttribute "src" attrs) else [] in
      let title := take 512 (getAttribute "title" attrs) in
      let alternative := take 512 (getAttribute "alt" attrs) in
      let className := getAttribute "class" attrs in
      let codeClass := if (tag =? js "CODE")%js && language_class className then className else [] in
      if (tag =? js "IMG")%js && negb (nonempty source) then TextNode alternative
      else
        Element i tag
          ((if (tag =? js "A")%js && nonempty href
            then [attribute "href" href; attribute "target" (js "_blank"); attribute "rel" (js "noopener noreferrer nofollow")] ++
                 if_set "title" title
            else []) ++
           (if (tag =? js "IMG")%js
            then [attribute "src" source; attribute "alt" alternative; attribute "loading" (js "lazy");
                  attribute "referrerpolicy" (js "no-referrer")] ++ if_set "title" title
            else []) ++
           if_set "class" codeClass) ch
  | _ => n
  end.

Definition sanitizeMarkdownFragment (fragment : list node) : list node :=
  fold_left (fun ns i => map (change i sanitize_element) ns) (all_elements fragment) fragment.

(** [setSafeMarkdown]: the children the target gets, [parse] being the Markdown parser followed by the HTML parser. *)
Definition setSafeMarkdown (parse : jstr -> list node) (source : jstr) : list node := sanitizeMarkdownFragment (parse source).

(** ** Reference: one pass over the tree *)
Fixpoint sanitized (n : node) : node :=
  match sanitize_element n with
  | Element i tag attrs _ => match n with Element _ _ _ ch => Element i tag attrs (map sanitized ch) | _ => n end
  | m => m
  end.

(** ** What an element on the page may be *)
Definition safe_address (v : jstr) : Prop := exists raw u, new_URL raw = Some u /\ accepted u = true /\ v = url_href u.

Definition attribute_ok (tag : jstr) (kv : jstr * jstr) : Prop :=
  (kv.1 = js "href" /\ tag = js "A" /\ safe_address kv.2) \/
  (kv.1 = js "src" /\ tag = js "IMG" /\ safe_address kv.2) \/
  (kv = attribute "target" (js "_blank") /\ tag = js "A") \/
  (kv = attribute "rel" (js "noopener noreferrer nofollow") /\ tag = js "A") \/
  (kv.1 = js "title" /\ (length kv.2 <= 512)%nat /\ (tag = js "A" \/ tag = js "IMG")) \/
  (kv.1 = js "alt" /\ tag = js "IMG" /\ (length kv.2 <= 512)%nat) \/
  (kv = attribute "loading" (js "lazy") /\ tag = js "IMG") \/
  (kv = attribute "referrerpolicy" (js "no-referrer") /\ tag = js "IMG") \/
  (kv.1 = js "class" /\ tag = js "CODE" /\ language_class kv.2 = true).

Fixpoint inert (n : node) : Prop :=
  match n with
  | Element _ tag attrs ch =>
    tag ∈ allowedMarkdownElements /\ Forall (attribute_ok tag) attrs /\
    (forall v, (js "href", v) ∈ attrs -> (js "rel", js "noopener noreferrer nofollow") ∈ attrs) /\
    (tag = js "IMG" -> exists v, (js "src", v) ∈ attrs) /\
    (fix all (ns : list node) : Prop := match ns with [] => True | n :: ns => inert n /\ all ns end) ch
  | _ => True
  end.

(** ** Lemmas *)
Lemma inert_children ch : (fix all (ns : list node) : Prop := match ns with [] => True | n :: ns => inert n /\ all ns end) ch <-> Forall inert ch.
Proof. induction ch as [|n ch IH]; [done|]. by rewrite Forall_cons, IH. Qed.

Lemma safeMarkdownURL_safe v : nonempty (safeMarkdownURL v) = true -> safe_address (safeMarkdownURL v).
Proof.
  unfold safeMarkdownURL. cbv zeta. destruct (negb _); [done|]. destruct (new_URL (trim v)) as [u|] eqn:Hu; [|done].
  destruct (accepted u) eqn:Ha; [|done]. intros _. by exists (trim v), u.
Qed.

(** The loop body keeps an element, with its children, or leaves a text. *)
Lemma sanitize_element_shape i tag attrs ch :
  (exists attrs', sanitize_element (Element i tag attrs ch) = Element i tag attrs' ch) \/
  (exists s, sanitize_element (Element i tag attrs ch) = TextNode s).
Proof. cbn [sanitize_element]. cbv zeta. destruct (negb (bool_decide _)); [eauto|]. destruct (_ && _); eauto. Qed.

Lemma change_absent id f n : id ∉ elements n -> change id f n = n.
Proof.
  induction n as [s|s|i tag attrs ch IH] using node_ind; [done..|]. cbn [elements change]. intros Hn.
  rewrite not_elem_of_cons in Hn. destruct Hn as [Hi Hn]. destruct (Nat.eqb_spec i id) as [->|_]; [done|]. f_equal.
  rewrite <- (map_id ch) at 2. induction IH as [|n ch Hn' IH IHch]; [done|]. cbn [map concat] in *.
  rewrite not_elem_of_app in Hn. destruct Hn as [H1 H2]. by rewrite Hn', IHch.
Qed.

Lemma changes_absent f ids n : (forall i, i ∈ ids -> i ∉ elements n) -> fold_left (fun n i => change i f n) ids n = n.
Proof.
  induction ids as [|i ids IH]; intros Hn; cbn [fold_left]; [done|]. rewrite change_absent by (apply Hn; set_solver).
  apply IH. set_solver.
Qed.

(** Changes of a forest are changes of each of its trees. *)
Lemma changes_forest f ids ns :
  fold_left (fun ns i => map (change i f) ns) ids ns = map (fun n => fold_left (fun n i => change i f n) ids n) ns.
Proof.
  revert ns. induction ids as [|i ids IH]; intros ns; cbn [fold_left]; [symmetry; apply map_id|]. by rewrite IH, map_map.
Qed.

Lemma changes_element f ids i tag attrs ch : i ∉ ids ->
  fold_left (fun n i => change i f n) ids (Element i tag attrs ch) =
  Element i tag attrs (map (fun n => fold_left (fun n i => change i f n) ids n) ch).
Proof.
  revert ch. induction ids as [|j ids IH]; intros ch Hi; cbn [fold_left]; [by rewrite map_id|].
  rewrite not_elem_of_cons in Hi. destruct Hi as [Hj Hi]. cbn [change]. destruct (Nat.eqb_spec i j); [done|].
  rewrite IH by done. f_equal. by rewrite map_map.
Qed.

(** Processing the identities of a forest changes each tree by its own. *)
Lemma changes_own f ns : NoDup (all_elements ns) ->
  (forall n i, n ∈ ns -> i ∈ elements (fold_left (fun n i => change i f n) (elements n) n) -> i ∈ elements n) ->
  map (fun n => fold_left (fun n i => change i f n) (all_elements ns) n) ns =
  map (fun n => fold_left (fun n i => change i f n) (elements n) n) ns.
Proof.
  intros Hd Hk. apply map_ext_in. intros n Hin%list_elem_of_In. apply list_elem_of_split in Hin as (l & k & ->).
  unfold all_elements in *. rewrite map_app, concat_app in *. cbn [map concat] in *. rewrite !fold_left_app.
  apply NoDup_app in Hd as (Hl & Hlk & Hd). apply NoDup_app in Hd as (Hn & Hnk & Hkd).
  rewrite (changes_absent f (concat (map elements l)) n).
  2:{ intros i Hi Hi'. apply (Hlk i Hi). set_solver. }
  apply changes_absent. intros i Hi Hi'. apply (Hnk i); [|done]. apply (Hk n); [set_solver|done].
Qed.

Lemma sanitized_element i tag attrs ch :
  sanitized (Element i tag attrs ch) =
  match sanitize_element (Element i tag attrs ch) with
  | Element j tag' attrs' _ => Element j tag' attrs' (map sanitized ch)
  | m => m
  end.
Proof. done. Qed.

Lemma sanitized_elements n i : i ∈ elements (sanitized n) -> i ∈ elements n.
Proof.
  induction n as [s|s|j tag attrs ch IH] using node_ind; [done..|]. rewrite sanitized_element.
  destruct (sanitize_element_shape j tag attrs ch) as [[attrs' ->]|[s ->]]; cbn [elements]; [|by intros ?%not_elem_of_nil].
  rewrite !elem_of_cons. intros [?|Hi]; [by left|right]. induction IH as [|n ch Hn IH IHch]; [done|].
  cbn [map concat] in *. set_solver.
Qed.

(** Processing a tree's own identities. *)
Lemma process_tree n : NoDup (elements n) -> fold_left (fun n i => change i sanitize_element n) (elements n) n = sanitized n.
Proof.
  induction n as [s|s|i tag attrs ch IH] using node_ind; [done..|]. cbn [elements]. intros [Hi Hd]%NoDup_cons.
  cbn [fold_left]. cbn [change]. rewrite Nat.eqb_refl, sanitized_element.
  destruct (sanitize_element_shape i tag attrs ch) as [[attrs' ->]|[s ->]].
  - rewrite changes_element by done. f_equal.
    assert (E : map (fun n => fold_left (fun n i => change i sanitize_element n) (elements n) n) ch = map sanitized ch).
    { clear Hi. induction IH as [|n ch Hn IH IHch]; [done|]. cbn [map concat] in *.
      apply NoDup_app in Hd as (H1 & _ & H2). by rewrite Hn, IHch. }
    rewrite <- E. apply (changes_own sanitize_element ch); [done|]. intros n j Hn.
    rewrite Forall_forall in IH. rewrite (IH n Hn); [apply sanitized_elements|].
    apply list_elem_of_split in Hn as (l & k & ->). rewrite map_app, concat_app in Hd. cbn [map concat] in Hd.
    apply NoDup_app in Hd as (_ & _ & Hd). by apply NoDup_app in Hd as [Hd _].
  - by apply changes_absent; intros j _ ?%not_elem_of_nil.
Qed.

Lemma sanitize_one_pass fragment : NoDup (all_elements fragment) -> sanitizeMarkdownFragment fragment = map sanitized fragment.
Proof.
  intros Hd. unfold sanitizeMarkdownFragment. rewrite changes_forest.
  assert (Hn : forall n, n ∈ fragment -> NoDup (elements n)).
  { intros n (l & k & ->)%list_elem_of_split. unfold all_elements in Hd. rewrite map_app, concat_app in Hd. cbn [map concat] in Hd.
    apply NoDup_app in Hd as (_ & _ & Hd). by apply NoDup_app in Hd as [Hd _]. }
  rewrite changes_own; [|done|].
  - apply map_ext_in. intros n Hin%list_elem_of_In. by apply process_tree, Hn.
  - intros n i Hin. rewrite process_tree by by apply Hn. apply sanitized_elements.
Qed.

Lemma if_set_ok k v P : (nonempty v = true -> P (attribute k v)) -> Forall P (if_set k v).
Proof. unfold if_set. destruct (nonempty v); intros HP; [|constructor]. constructor; [by apply HP|constructor]. Qed.

Lemma take_512 (s : jstr) : (length (take 512 s) <= 512)%nat.
Proof. rewrite length_take. lia. Qed.

(** One element after the loop body. *)
Lemma sanitize_element_ok i tag attrs ch j tag' attrs' ch' :
  sanitize_element (Element i tag attrs ch) = Element j tag' attrs' ch' ->
  tag' ∈ allowedMarkdownElements /\ Forall (attribute_ok tag') attrs' /\
  (forall v, (js "href", v) ∈ attrs' -> (js "rel", js "noopener noreferrer nofollow") ∈ attrs') /\
  (tag' = js "IMG" -> exists v, (js "src", v) ∈ attrs').
Proof.
  cbn [sanitize_element]. cbv zeta. case_bool_decide as Hin; cbn [negb]; [|done].
  set (cc := if (tag =? js "CODE")%js && _ then _ else _).
  assert (Hcc : Forall (attribute_ok tag) (if_set "class" cc)).
  { apply if_set_ok. subst cc. destruct (bool_decide_reflect (tag = js "CODE")) as [->|_]; cbn [andb]; [|done].
    destruct (language_class _) eqn:E; [|done]. intros _. do 8 right. by split. }
  destruct (bool_decide_reflect (tag = js "A")) as [->|Ha]; cbn [andb].
  - change ((js "A" =? js "IMG")%js) with false. cbn [andb]. destruct (nonempty (safeMarkdownURL _)) eqn:E; intros [= <- <- <- <-].
    + split_and!; [done| | |done].
      * cbn [app]. repeat (constructor; [|]); [left; split_and!; [done..|by apply safeMarkdownURL_safe]|by right; right; left|by do 3 right; left|].
        apply Forall_app. split; [|done]. apply if_set_ok. intros _. do 4 right. left.
        split_and!; [done|apply take_512|by left].
      * intros v _. do 2 right. left.
    + split_and!; [done|done| |done]. intros v Hv. exfalso. revert Hv. unfold if_set.
      destruct (nonempty cc); [intros [[=]|?%not_elem_of_nil]%elem_of_cons; done|by intros ?%not_elem_of_nil].
  - destruct (bool_decide_reflect (tag = js "IMG")) as [->|Hi]; cbn [andb].
    + destruct (nonempty (safeMarkdownURL _)) eqn:E; cbn [negb]; intros [= <- <- <- <-]. split_and!; [done| | |].
      * cbn [app]. constructor; [right; left; split_and!; [done..|by apply safeMarkdownURL_safe]|].
        constructor; [do 5 right; left; split_and!; [done..|apply take_512]|].
        constructor; [by do 6 right; left|]. constructor; [by do 7 right; left|]. apply Forall_app. split; [|done].
        apply if_set_ok. intros _. do 4 right. left. split_and!; [done|apply take_512|by right].
      * intros v Hv. exfalso. revert Hv. unfold if_set. destruct (nonempty (take _ _)), (nonempty cc); set_solver.
      * intros _. eexists. left.
    + intros [= <- <- <- <-]. split_and!; [done|done| |done]. intros v Hv. exfalso. revert Hv. unfold if_set.
      destruct (nonempty cc); set_solver.
Qed.

Lemma sanitized_inert n : inert (sanitized n).
Proof.
  induction n as [s|s|i tag attrs ch IH] using node_ind; [done..|]. rewrite sanitized_element.
  destruct (sanitize_element (Element i tag attrs ch)) as [s|s|j tag' attrs' ch'] eqn:E; [done..|].
  destruct (sanitize_element_ok _ _ _ _ _ _ _ _ E) as (H1 & H2 & H3 & H4). cbn [inert]. split_and!; [done..|].
  apply inert_children. clear -IH. induction IH as [|n ch Hn _ IHch]; cbn [map]; by constructor.
Qed.

(** ** Sanitizing twice *)
Lemma sanitized_sublist n : elements (sanitized n) `sublist_of` elements n.
Proof.
  induction n as [s|s|i tag attrs ch IH] using node_ind; [done..|]. rewrite sanitized_element.
  destruct (sanitize_element_shape i tag attrs ch) as [[attrs' ->]|[s ->]]; cbn [elements]; [|apply sublist_nil_l].
  apply sublist_skip. induction IH as [|n ch Hn _ IHch]; cbn [map concat]; [done|]. by apply sublist_app.
Qed.

Lemma sanitized_forest_sublist ns : all_elements (map sanitized ns) `sublist_of` all_elements ns.
Proof.
  unfold all_elements. induction ns as [|n ns IH]; cbn [map concat]; [done|]. apply sublist_app; [apply sanitized_sublist|done].
Qed.

(** The address of a parsed URL parses to that URL, and has no space around it. *)
Class UrlSerializes := {
  reparse raw u : new_URL raw = Some u -> new_URL (url_href u) = Some u;
  href_trimmed raw u : new_URL raw = Some u -> trim (url_href u) = url_href u
}.

Lemma safeMarkdownURL_again `{UrlSerializes} v : safeMarkdownURL (safeMarkdownURL v) = safeMarkdownURL v.
Proof.
  unfold safeMarkdownURL at 2 3. cbv zeta. destruct (negb (nonempty (trim v))); [done|].
  destruct (new_URL (trim v)) as [u|] eqn:Hu; [|done]. destruct (accepted u) eqn:Ha; [|done].
  unfold safeMarkdownURL. cbv zeta. rewrite (href_trimmed _ _ Hu), (reparse _ _ Hu), Ha. by destruct (url_href u).
Qed.

Lemma take_again (s : jstr) : take 512 (take 512 s) = take 512 s.
Proof. by rewrite take_take. Qed.

(** Attributes with known names. *)
Ltac read_attributes :=
  unfold getAttribute, if_set, attribute; cbn [app List.find fst snd andb negb];
  repeat (match goal with |- context [bool_decide (js ?a = js ?b)] =>
            let r := eval vm_compute in (bool_decide (js a = js b)) in change (bool_decide (js a = js b)) with r end;
          cbn [app List.find fst snd andb negb]).

Lemma take_empty (s : jstr) : nonempty (take 512 s) = false -> take 512 s = [].
Proof. by destruct (take 512 s). Qed.

(** The attributes the loop body writes are read back as written. *)
Lemma sanitize_element_again `{UrlSerializes} i tag attrs ch j tag' attrs' ch' ks :
  sanitize_element (Element i tag attrs ch) = Element j tag' attrs' ch' ->
  sanitize_element (Element j tag' attrs' ks) = Element j tag' attrs' ks.
Proof.
  unfold sanitize_element at 1. cbv zeta. case_bool_decide as Hin; cbn [negb]; [|done].
  set (href := safeMarkdownURL (getAttribute "href" attrs)). set (source := safeMarkdownURL (getAttribute "src" attrs)).
  set (title := take 512 (getAttribute "title" attrs)). set (alt := take 512 (getAttribute "alt" attrs)).
  set (class := getAttribute "class" attrs).
  assert (Hh : safeMarkdownURL href = href) by apply safeMarkdownURL_again.
  assert (Hs : safeMarkdownURL source = source) by apply safeMarkdownURL_again.
  assert (Ht : take 512 title = title) by apply take_again. assert (Hl : take 512 alt = alt) by apply take_again.
  assert (Hn : safeMarkdownURL [] = []) by done. assert (Hc0 : language_class [] = false) by done. clearbody href source title alt class.
  destruct (bool_decide_reflect (tag = js "A")) as [->|Ha].
  - read_attributes. destruct (nonempty href) eqn:E; intros [= <- <- <- <-]; unfold sanitize_element; cbv zeta;
      rewrite bool_decide_eq_true_2 by done; destruct (nonempty title) eqn:Et; read_attributes; rewrite ?Hh, ?Ht, ?Hn, ?E, ?Et; done.
  - destruct (bool_decide_reflect (tag = js "IMG")) as [->|Hi].
    + read_attributes. destruct (nonempty source) eqn:E; cbn [negb]; intros [= <- <- <- <-]; unfold sanitize_element; cbv zeta.
      rewrite bool_decide_eq_true_2 by done. destruct (nonempty title) eqn:Et; read_attributes; rewrite ?Hs, ?Ht, ?Hl, ?E, ?Et; done.
    + cbn [andb]. destruct (bool_decide_reflect (tag = js "CODE")) as [->|Hc]; cbn [andb].
      * destruct (language_class class) eqn:E; intros [= <- <- <- <-]; unfold sanitize_element; cbv zeta;
          rewrite bool_decide_eq_true_2 by done; destruct (nonempty class) eqn:Ec; read_attributes; rewrite ?E, ?Ec, ?Hc0; read_attributes; rewrite ?E, ?Ec; done.
      * intros [= <- <- <- <-]. unfold sanitize_element. cbv zeta. rewrite bool_decide_eq_true_2 by done.
        rewrite !bool_decide_eq_false_2 by done. done.
Qed.

Lemma sanitized_again `{UrlSerializes} n : sanitized (sanitized n) = sanitized n.
Proof.
  induction n as [s|s|i tag attrs ch IH] using node_ind; [done..|]. rewrite sanitized_element.
  destruct (sanitize_element (Element i tag attrs ch)) as [s|s|j tag' attrs' ch'] eqn:E; [done..|].
  rewrite sanitized_element, (sanitize_element_again _ _ _ _ _ _ _ _ _ E). f_equal. rewrite map_map.
  apply map_ext_in. intros n Hn%list_elem_of_In. by apply (proj1 (Forall_forall _ _) IH).
Qed.
End markdown.

(** ** Properties *)
Module Examples.
(** A URL parser that knows one site. *)
#[local] Instance one_site : UrlParser := {|
  new_URL raw :=
    if (raw =? js "https://example.org/")%js
    then Some {| protocol := js "https:"; hostname := js "example.org"; username := []; password := []; url_href := raw |}
    else if (raw =? js "javascript:alert(1)")%js
    then Some {| protocol := js "javascript:"; hostname := []; username := []; password := []; url_href := raw |}
    else None
|}.

#[local] Instance one_site_serializes : UrlSerializes.
Proof.
  split; intros raw u; unfold new_URL, one_site; (case_bool_decide as H1; [intros [= <-]; subst raw; reflexivity|]);
    (case_bool_decide as H2; [intros [= <-]; subst raw; reflexivity|done]).
Qed.

(** A README with a script, a handler, a link and a list. *)
Definition readme : list node :=
  [Element 0 (js "P") [(js "onclick", js "steal()")]
     [TextNode (js "see "); Element 1 (js "A") [(js "href", js " https://example.org/ "); (js "onmouseover", js "x()")] [TextNode (js "docs")];
      Element 2 (js "A") [(js "href", js "javascript:alert(1)")] [TextNode (js "here")]];
   Element 3 (js "SCRIPT") [] [TextNode (js "alert(2)")];
   Element 4 (js "svg") [] [Element 5 (js "a") [(js "href", js "javascript:alert(1)")] [TextNode (js "z")]];
   Element 6 (js "IMG") [(js "src", js "data:x"); (js "alt", js "logo")] [];
   Element 7 (js "PRE") [] [Element 8 (js "CODE") [(js "class", js "language-Rust"); (js "style", js "x")] [TextNode (js "fn")]]].

Lemma readme_shown :
  sanitizeMarkdownFragment readme =
  [Element 0 (js "P") []
     [TextNode (js "see ");
      Element 1 (js "A") [(js "href", js "https://example.org/"); (js "target", js "_blank"); (js "rel", js "noopener noreferrer nofollow")]
        [TextNode (js "docs")];
      Element 2 (js "A") [] [TextNode (js "here")]];
   TextNode (js "alert(2)"); TextNode (js "z"); TextNode (js "logo");
   Element 7 (js "PRE") [] [Element 8 (js "CODE") [(js "class", js "language-Rust")] [TextNode (js "fn")]]].
Proof. vm_compute. reflexivity. Qed.
End Examples.

Section properties.
Context `{UrlParser}.

(** C10: whatever the Markdown and HTML parsers make of a README, every element that reaches the page has an allowed
    tag and allowed attributes only: a link or an image leads to an http(s) address with a host and no credentials, every
    link has its [rel], an image has a source, a class names a language, and there is no handler, style or id. *)
Theorem markdown_is_inert parse source :
  NoDup (all_elements (parse source)) -> Forall inert (setSafeMarkdown parse source).
Proof.
  intros Hd. unfold setSafeMarkdown. rewrite sanitize_one_pass by done. apply Forall_fmap, Forall_true. intros n.
  apply sanitized_inert.
Qed.

(** C27: the loop over the collected elements, which replaces and changes them in place, gives the fragment that one pass
    over the tree defines ([sanitized]), and sanitizing what was sanitized changes nothing. *)
Theorem sanitize_once {HS : UrlSerializes} fragment :
  NoDup (all_elements fragment) ->
  sanitizeMarkdownFragment fragment = map sanitized fragment /\
  sanitizeMarkdownFragment (sanitizeMarkdownFragment fragment) = sanitizeMarkdownFragment fragment.
Proof.
  intros Hd. rewrite (sanitize_one_pass fragment Hd). split; [done|].
  rewrite sanitize_one_pass by (by eapply sublist_NoDup; [exact Hd|apply sanitized_forest_sublist]).
  rewrite map_map. apply map_ext. intros n. apply sanitized_again.
Qed.
End properties.

Lemma markdown_is_inert_witness :
  NoDup (all_elements Examples.readme) /\ Forall (@inert Examples.one_site) (@setSafeMarkdown Examples.one_site (fun _ => Examples.readme) []).
Proof.
  assert (Hd : NoDup (all_elements Examples.readme)) by (refine (proj1 (bool_decide_eq_true _) _); vm_compute; reflexivity).
  split; [exact Hd|]. exact (@markdown_is_inert Examples.one_site (fun _ => Examples.readme) [] Hd).
Defined.

Lemma sanitize_once_witness :
  NoDup (all_elements Examples.readme) /\
  @sanitizeMarkdownFragment Examples.one_site (@sanitizeMarkdownFragment Examples.one_site Examples.readme) =
  @sanitizeMarkdownFragment Examples.one_site Examples.readme.
Proof.
  assert (Hd : NoDup (all_elements Examples.readme)) by (refine (proj1 (bool_decide_eq_true _) _); vm_compute; reflexivity).
  split; [exact Hd|]. exact (proj2 (@sanitize_once Examples.one_site Examples.one_site_serializes Examples.readme Hd)).
Defined.
