(* ===== verification/PackageParts.v ===== *)
(** * Parts of package pages

    [resource-locks.js]: locks of packages and versions; [ticket-report.js]: the report
    button; [browser/package-detail-tabs.js]: the subpages of a package; [browser/repository-view.js]: the facts shown. *)
From S2P Require Import Prelude JsString BrowserUtils.

(** ** Locks *)
Record lock := mk_lock {
  lock_mode : jstr;
  lock_source : jstr;
  lock_reason : jstr;
  reason_text : jstr;
  inherited : bool
}.

#[export] Instance lock_eq_dec : EqDecision lock.
Proof. solve_decision. Defined.

(** The arguments are the lists of locks of the resources, empty for a resource without. *)
Definition resourceWriteLocked (resources : list (list lock)) : bool := existsb (fun locks => 0 <? length locks) resources.

Definition resourceReadLocked (resources : list (list lock)) : bool :=
  existsb (existsb (fun l => (lock_mode l =? js "read")%js)) resources.

(** A text on the page: a translation key, with what it names, or a text of the server. *)
Inductive text :=
| Key (k : jstr)
| Lit (s : jstr).

#[export] Instance text_eq_dec : EqDecision text.
Proof. solve_decision. Defined.

(** [String(a || t(k))]. *)
Definition lit_or (s : jstr) (k : string) : text := if nonempty s then Lit s else Key (js k).

Definition resourceLockReason (l : lock) : text :=
  if (lock_reason l =? js "custom")%js then lit_or (reason_text l) "resourceLock.reason.custom"
  else Key (js "resourceLock.reason." ++ lock_reason l).

(** The badge's key; [None]: no badge. *)
Definition createResourceLockBadge (resources : list (list lock)) (version_locked : bool) : option string :=
  if negb (resourceWriteLocked resources) && negb version_locked then None
  else Some (if resourceReadLocked resources then "resourceLock.read"
             else if resourceWriteLocked resources then "resourceLock.write" else "resourceLock.versionsLocked")%string.

(** One notice: the mode, the reason, and whether the system set the lock or it is inherited. *)
Definition createResourceLockNotices (locks : list lock) : list (jstr * text * bool * bool) :=
  map (fun l => (js "resourceLock." ++ lock_mode l, resourceLockReason l, (lock_source l =? js "system")%js, inherited l)) locks.

(** The lock a manager edits: the first one set by hand on the resource itself. *)
Definition with_inherited (l : lock) : lock := mk_lock (lock_mode l) (lock_source l) (lock_reason l) (reason_text l) true.

Definition manual_lock (inheritedLocks locks : list lock) : option lock :=
  List.find (fun l => (lock_source l =? js "manual")%js && negb (inherited l)) (map with_inherited inheritedLocks ++ locks).

(** ** The report button *)
Definition createTicketReportButton (unavailable signed_in : bool) : bool := negb (unavailable || negb signed_in).   (* shown *)

(** ** Subpages *)
Section tabs.
Context {Node : Type}.

Record tab := { tab_id : jstr; content : list Node }.

Record tabs_state := mk_tabs { available : list tab; current : jstr; panel : list Node }.

Definition available_tabs (tabs : list (jstr * list (option Node))) : list tab :=
  List.filter (fun t => 0 <? length (content t)) (map (fun t => {| tab_id := t.1; content := omap id t.2 |}) tabs).

Definition find_tab (id : jstr) (ts : list tab) : option tab := List.find (fun t => (tab_id t =? id)%js) ts.

(** [select(next)]: [current] is also what [onChange] is told. *)
Definition select (next : jstr) (s : tabs_state) : tabs_state :=
  match (match find_tab next (available s) with Some t => Some t | None => head (available s) end) with
  | Some t => mk_tabs (available s) (tab_id t) (content t)
  | None => s
  end.

(** [None]: no tab has content. *)
Definition createPackageDetailTabs (tabs : list (jstr * list (option Node))) (active : jstr) : option tabs_state :=
  match available_tabs tabs with
  | [] => None
  | (first :: _) as ts =>
    let current := if existsb (fun t => (tab_id t =? active)%js) ts then active else tab_id first in
    Some (select current (mk_tabs ts current []))
  end.

Inductive tab_event :=
| ClickTab (id : jstr)
| ArrowRight
| ArrowLeft
| Home
| End.

Fixpoint tab_index (id : jstr) (ts : list tab) : option nat :=
  match ts with
  | [] => None
  | t :: ts => if (tab_id t =? id)%js then Some 0 else S <$> tab_index id ts
  end.

(** A key selects the tab at a place; [-1], for no current tab, is [None] here. *)
Definition select_at (i : nat) (s : tabs_state) : tabs_state :=
  match available s !! i with Some t => select (tab_id t) s | None => s end.

Definition tab_step (ev : tab_event) (s : tabs_state) : tabs_state :=
  let n := length (available s) in
  let index := tab_index (current s) (available s) in
  match ev with
  | ClickTab id => if existsb (fun t => (tab_id t =? id)%js) (available s) then select id s else s
  | ArrowRight => select_at (match index with Some i => (i + 1) mod n | None => 0 end) s
  | ArrowLeft => match index with Some i => select_at ((i + n - 1) mod n) s | None => s end
  | Home => select_at 0 s
  | End => select_at (n - 1) s
  end.

(** What always holds of the subpages: the current one is there, and its content is mounted. *)
Definition tabs_ok (s : tabs_state) : Prop := exists t, find_tab (current s) (available s) = Some t /\ panel s = content t.

Lemma find_tab_id id ts t : find_tab id ts = Some t -> tab_id t = id.
Proof. intros [_ H%bool_decide_eq_true]%List.find_some. done. Qed.

Lemma find_tab_exists id ts : existsb (fun t => (tab_id t =? id)%js) ts = true -> is_Some (find_tab id ts).
Proof.
  intros (t & Hin & Ht)%existsb_exists. destruct (find_tab id ts) eqn:E; [eauto|].
  by rewrite (List.find_none _ _ E t Hin) in Ht.
Qed.

Lemma find_tab_head t ts : find_tab (tab_id t) (t :: ts) = Some t.
Proof. unfold find_tab. cbn [List.find]. by rewrite bool_decide_eq_true_2. Qed.

Lemma select_ok next s : available s <> [] -> tabs_ok (select next s).
Proof.
  intros Hne. unfold select, tabs_ok. destruct (find_tab next (available s)) as [t|] eqn:E.
  - exists t. cbn [current available panel]. split; [|done]. by rewrite (find_tab_id _ _ _ E).
  - destruct (available s) as [|t ts] eqn:Ea; [done|]. exists t. cbn [head current available panel]. split; [apply find_tab_head|done].
Qed.

Lemma tabs_ok_nonempty s : tabs_ok s -> available s <> [].
Proof. intros (t & Ht & _) E. by rewrite E in Ht. Qed.

Lemma tab_step_available ev s : available (tab_step ev s) = available s.
Proof.
  assert (Hs : forall id, available (select id s) = available s).
  { intros id. unfold select. by destruct (match find_tab id _ with Some t => Some t | None => _ end). }
  assert (Ha : forall i, available (select_at i s) = available s).
  { intros i. unfold select_at. by destruct (_ !! i). }
  destruct ev; cbn [tab_step]; cbv zeta; [by destruct (existsb _ _)|apply Ha|by destruct (tab_index _ _)|apply Ha..].
Qed.

Lemma tab_step_ok ev s : tabs_ok s -> tabs_ok (tab_step ev s).
Proof.
  intros Hs. pose proof (tabs_ok_nonempty s Hs) as Hne.
  assert (Ha : forall i, tabs_ok (select_at i s)).
  { intros i. unfold select_at. destruct (_ !! i); [by apply select_ok|done]. }
  destruct ev; cbn [tab_step]; cbv zeta; [destruct (existsb _ _); [by apply select_ok|done]|apply Ha|by destruct (tab_index _ _)|apply Ha..].
Qed.

Lemma createPackageDetailTabs_ok tabs active s : createPackageDetailTabs tabs active = Some s ->
  tabs_ok s /\ available s = available_tabs tabs.
Proof.
  unfold createPackageDetailTabs. destruct (available_tabs tabs) as [|t ts] eqn:E; [done|]. cbv zeta. intros [= <-].
  split; [by apply select_ok; cbn [available]|]. unfold select. cbn [available head]. by destruct (find_tab _ (t :: ts)).
Qed.

(** Building the subpages again with the current one gives the same subpages. *)
Lemma tabs_settled tabs s : tabs_ok s -> available s = available_tabs tabs -> createPackageDetailTabs tabs (current s) = Some s.
Proof.
  intros (t & Ht & Hp) Ha. unfold createPackageDetailTabs. rewrite <- Ha. destruct (available s) as [|t0 ts] eqn:E; [done|].
  cbv zeta. rewrite <- E in *. destruct (List.find_some _ _ Ht) as [Hin Hid].
  assert (Hex : existsb (fun x => (tab_id x =? current s)%js) (available s) = true) by (apply existsb_exists; by exists t).
  rewrite Hex. unfold select. cbn [available]. rewrite Ht, (find_tab_id _ _ _ Ht), <- Hp. by destruct s.
Qed.
End tabs.
Arguments tab : clear implicits.
Arguments tabs_state : clear implicits.

Lemma elem_of_concat_map {A B} (f : A -> list B) l b : b ∈ List.concat (map f l) <-> exists a, a ∈ l /\ b ∈ f a.
Proof.
  rewrite list_elem_of_In, in_concat. split.
  - intros (x & (a & <- & Ha)%in_map_iff & Hb). exists a. by rewrite !list_elem_of_In.
  - intros (a & Ha%list_elem_of_In & Hb%list_elem_of_In). exists (f a). split; [by apply in_map|done].
Qed.

