(* ===== verification/CargoPage.v ===== *)
(** * The page of a Cargo package

    [internal/service/frontend/renop-html/js/browser/cargo.js]: what the page of a crate shows to whom, and its updates in
    place: another version, command format, inspection tab, page of versions or subpage changes parts of the page
    without drawing it again.  [renderCargoPackagePage] is the full drawing; [cargo_step] the updates.

    An address is the list of its segments, each of which the code passes through [encodePathSegment]; a size or a date
    is the number whose text is shown. *)
From S2P Require Import Prelude JsString BrowserUtils Markdown PackageParts.

(** ** What the server says of a package *)
Record dependency := {
  dep_name : jstr;
  dep_package : jstr;                   (* [""] when it is not renamed *)
  dep_kind : jstr;
  dep_req : jstr;                       (* [dep.req || dep.requirement] *)
  dep_optional : bool;
  dep_target : jstr;
  dep_default_features : bool;          (* [default_features !== false] *)
  dep_features : list jstr
}.

Record version := {
  version_id : jstr;
  pending_review : bool;                (* [review_status === 'pending'] *)
  yanked : bool;
  admin_yanked : bool;
  version_mirrored : bool;
  has_docs : bool;
  version_locks : list lock;
  size : N;
  created_at : N;
  publisher : jstr;
  license : jstr;
  rust_version : jstr;
  checksum : jstr;
  deps : list dependency;
  features : list (jstr * list jstr);   (* in the order of [Object.keys] *)
  version_links : jstr * jstr * jstr;   (* homepage, documentation, repository *)
  version_description : jstr
}.

Record package := {
  name : jstr;
  permission_level : nat;
  archived : bool;
  admin_archived : bool;
  mirrored : bool;
  deprecated : bool;
  locks : list lock;
  super_team_prefix : jstr;
  updated_at : N;
  package_links : jstr * jstr * jstr;
  description : jstr;
  readme : jstr
}.

Record member := { login : jstr; user_id : jstr; level : nat; added_at : N }.

Record details := {
  pkg : package;
  versions : list version;
  members : list member;
  administrator : bool;
  moderator : bool
}.

(** What is read outside the details: the repository, the sign-in and the user's name. *)
Record viewer := { repository : jstr; signed_in : bool; username : jstr }.

(** ** The choices of the page *)
Inductive command_format := CargoAdd | CargoToml | CargoInstall.

Record choices := mk_choices {
  activeSelectedVersion : jstr;
  activeVersionListPage : nat;
  features_tab : bool;                  (* [activePackageTab === 'features'] *)
  activeCargoDetailView : jstr;
  activeCommandFormat : command_format
}.

Definition set_selected (v : jstr) (u : choices) : choices :=
  mk_choices v (activeVersionListPage u) (features_tab u) (activeCargoDetailView u) (activeCommandFormat u).
Definition set_page (n : nat) (u : choices) : choices :=
  mk_choices (activeSelectedVersion u) n (features_tab u) (activeCargoDetailView u) (activeCommandFormat u).
Definition set_tab (b : bool) (u : choices) : choices :=
  mk_choices (activeSelectedVersion u) (activeVersionListPage u) b (activeCargoDetailView u) (activeCommandFormat u).
Definition set_detail (v : jstr) (u : choices) : choices :=
  mk_choices (activeSelectedVersion u) (activeVersionListPage u) (features_tab u) v (activeCommandFormat u).
Definition set_format (f : command_format) (u : choices) : choices :=
  mk_choices (activeSelectedVersion u) (activeVersionListPage u) (features_tab u) (activeCargoDetailView u) f.

(** [getSelectedVersion]: the version, and what it leaves in [activeSelectedVersion]. *)
Definition getSelectedVersion (d : details) (selected : jstr) : option version * jstr :=
  match versions d with
  | [] => (None, selected)
  | _ =>
    let found := if nonempty selected then List.find (fun v => (version_id v =? selected)%js) (versions d) else None in
    let defaultVer :=
      match List.find (fun v => negb (pending_review v) && negb (yanked v)) (versions d) with
      | Some v => Some v
      | None => List.find (fun v => negb (pending_review v)) (versions d)
      end in
    match found with
    | Some v => if negb (pending_review v) then (Some v, selected) else (defaultVer, from_option version_id [] defaultVer)
    | None => (defaultVer, from_option version_id [] defaultVer)
    end
  end.

(** ** Commands *)
Definition quoted (s : jstr) : jstr := [34%N] ++ s ++ [34%N].

Definition computeSnippet (d : details) (repo : jstr) (f : command_format) (cur : option version) : jstr :=
  let packageName := name (pkg d) in
  let version := match cur with Some v => str_or (version_id v) (js "1.0.0") | None => js "1.0.0" end in
  let isLatest := match versions d with v :: _ => (version_id v =? version)%js | [] => false end in
  match f with
  | CargoToml => js "[dependencies]" ++ [10%N] ++ packageName ++ js " = { version = " ++ quoted version ++ js ", registry = " ++
                 quoted repo ++ js " }"
  | CargoInstall => if isLatest then js "cargo install " ++ packageName ++ js " --registry " ++ repo
                    else js "cargo install " ++ packageName ++ js " --version " ++ version ++ js " --registry " ++ repo
  | CargoAdd => if isLatest then js "cargo add " ++ packageName ++ js " --registry " ++ repo
                else js "cargo add " ++ packageName ++ js "@" ++ version ++ js " --registry " ++ repo
  end.

(** ** Facts *)
Inductive fact_value :=
| Plain (t : text)
| SizeText (n : N)
| DateText (n : N)                      (* unknown when 0 *)
| UserIdentity (u : jstr)
| TeamLink (prefix : jstr)
| Checksum (s : jstr).

Definition cargoPermissionLabel (level : nat) : text := Key (js "cargo.permissionL" ++ show_Z (Z.of_nat level)).

Definition version_facts (d : details) (cur : option version) : list (string * fact_value) :=
  let field (f : version -> jstr) := match cur with Some v => f v | None => [] end in
  let published := match cur with Some v => if (created_at v =? 0)%N then updated_at (pkg d) else created_at v | None => updated_at (pkg d) end in
  [("cargo.license", Plain (lit_or (field license) "cargo.unspecified"));
   ("cargo.msrv", Plain (lit_or (field rust_version) "cargo.unspecified"));
   ("cargo.crateSize", match cur with Some v => if (0 <? size v)%N then SizeText (size v) else Plain (Key (js "common.unknown"))
                       | None => Plain (Key (js "common.unknown")) end);
   ("cargo.published", DateText published);
   ("cargo.publisher", if nonempty (field publisher) then UserIdentity (field publisher) else Plain (Key (js "common.unknown")));
   ("cargo.readOnlyAccess",
      Plain (if administrator d then Key (js "cargo.administratorAccess")
             else if (0 <? permission_level (pkg d))%nat then cargoPermissionLabel (permission_level (pkg d))
             else Key (js "cargo.readOnlyAccess")))]%string ++
  (if nonempty (super_team_prefix (pkg d)) then [("superTeam.projectOwner"%string, TeamLink (super_team_prefix (pkg d)))] else []) ++
  (if nonempty (field checksum) then [("cargo.checksum"%string, Checksum (field checksum))] else []).

(** ** Dependencies and features *)
Inductive badge :=
| Requirement (s : jstr)
| OptionalBadge
| TargetBadge (s : jstr)
| NoDefaultFeatures
| FeaturesBadge (s : jstr).

Record dependency_row := { row_name : jstr; row_package : jstr; row_renamed : option jstr; row_badges : list badge }.

Definition dependency_badges (dep : dependency) : list badge :=
  (if nonempty (dep_req dep) then [Requirement (dep_req dep)] else []) ++
  (if dep_optional dep then [OptionalBadge] else []) ++
  (if nonempty (dep_target dep) then [TargetBadge (dep_target dep)] else []) ++
  (if dep_default_features dep then [] else [NoDefaultFeatures]) ++
  (if 0 <? length (dep_features dep) then [FeaturesBadge (join (js ", ") (dep_features dep))] else []).

Definition build_dependency (dep : dependency) : dependency_row := {|
  row_name := dep_name dep;
  row_package := str_or (dep_package dep) (dep_name dep);
  row_renamed := if nonempty (dep_package dep) && negb (dep_package dep =? dep_name dep)%js then Some (dep_package dep) else None;
  row_badges := dependency_badges dep
|}.

Definition groups : list jstr := map js ["normal"; "dev"; "build"]%string.

Definition group_deps (kind : jstr) (l : list dependency) : list dependency :=
  List.filter (fun x => (str_or (dep_kind x) (js "normal") =? kind)%js) l.

Inductive inspected :=
| NoFeatures
| FeatureList (l : list (jstr * list jstr))
| NoDependencies
| DependencyList (l : list (jstr * list dependency_row)).

Record inspection := { deps_count : nat; features_count : nat; on_features : bool; inspected_content : inspected }.

Definition updateInspection (featuresTab : bool) (cur : option version) : inspection :=
  let ds := match cur with Some v => deps v | None => [] end in
  let fs := match cur with Some v => features v | None => [] end in
  {| deps_count := length ds; features_count := length fs; on_features := featuresTab;
     inspected_content :=
       if featuresTab then match fs with [] => NoFeatures | _ => FeatureList fs end
       else match ds with
            | [] => NoDependencies
            | _ => DependencyList
                     (List.filter (fun g => 0 <? length g.2) (map (fun k => (k, map build_dependency (group_deps k ds))) groups))
            end |}.

(** ** Versions *)
Definition CARGO_VERSION_PAGE_SIZE : nat := 5.

Inductive version_button :=
| UploadDocs
| DeleteDocs
| Yank (disabled : bool)
| Unyank (disabled : bool)
| DeleteVersion
| LockVersion.

Record version_row := {
  row_version : jstr;
  row_pending : bool;
  row_selected : bool;
  row_badges_shown : list string;
  row_publisher : jstr;
  row_report : bool;
  row_docs : option (list jstr);
  row_buttons : list version_button;
  row_notices : list (jstr * text * bool * bool)
}.

Definition version_buttons (d : details) (v : version) : list version_button :=
  let canManageVersions := negb (deprecated (pkg d)) && (administrator d || (2 <=? permission_level (pkg d))) in
  (if canManageVersions && negb (pending_review v) && negb (resourceWriteLocked [locks (pkg d); version_locks v]) then
     let restoreLocked := yanked v && (admin_yanked v && negb (administrator d) || archived (pkg d)) in
     [if has_docs v then DeleteDocs else UploadDocs; (if yanked v then Unyank else Yank) restoreLocked; DeleteVersion]
   else []) ++
  (if moderator d && negb (pending_review v) then [LockVersion] else []).

Definition docs_address (w : viewer) (d : details) (v : version) : list jstr :=
  [js "cargodoc"; repository w; name (pkg d); version_id v; []].

Definition docs_link (w : viewer) (d : details) (v : version) : option (list jstr) :=
  if has_docs v && negb (resourceReadLocked [locks (pkg d); version_locks v]) then Some (docs_address w d v) else None.

Definition version_row_of (w : viewer) (d : details) (cur : option version) (v : version) : version_row := {|
  row_version := version_id v;
  row_pending := pending_review v;
  row_selected := match cur with Some c => (version_id v =? version_id c)%js | None => false end;
  row_badges_shown := (if yanked v then ["cargo.yanked"%string] else []) ++
                      (if version_mirrored v then ["common.fromMirror"%string] else []) ++
                      (if pending_review v then ["cargo.reviewPending"%string] else []);
  row_publisher := publisher v;
  row_report := createTicketReportButton
    (pending_review v || mirrored (pkg d) || version_mirrored v || (4 <=? permission_level (pkg d)) ||
     resourceReadLocked [locks (pkg d); version_locks v]) (signed_in w);
  row_docs := docs_link w d v;
  row_buttons := version_buttons d v;
  row_notices := createResourceLockNotices (version_locks v)
|}.

(** The page's number and how many there are; [None]: no pager. *)
Record version_pager := { page_number : nat; page_total : nat; prev_disabled : bool; next_disabled : bool }.

Record version_section := { version_count : nat; rows : list version_row; pagination : option version_pager }.

Definition totalPages (d : details) : nat := (length (versions d) + (CARGO_VERSION_PAGE_SIZE - 1)) / CARGO_VERSION_PAGE_SIZE.

(** The two clamps at the start of [renderVersionPage], with [|| 1]. *)
Definition clamp_page (d : details) (page : nat) : nat :=
  let total := Nat.max 1 (totalPages d) in
  let page := if total <? page then total else page in
  if page <? 1 then 1 else page.

Definition page_versions (d : details) (page : nat) : list version :=
  take CARGO_VERSION_PAGE_SIZE (drop ((page - 1) * CARGO_VERSION_PAGE_SIZE) (versions d)).

(** [renderVersionPage], for a page that is already clamped. *)
Definition renderVersionPage (w : viewer) (d : details) (page : nat) (cur : option version) : version_section := {|
  version_count := length (versions d);
  rows := map (version_row_of w d cur) (page_versions d page);
  pagination :=
    let total := Nat.max 1 (totalPages d) in
    if 1 <? total then Some {| page_number := page; page_total := total; prev_disabled := page <=? 1; next_disabled := total <=? page |}
    else None
|}.

(** [updateVersionSelection]: only the selection of the rows shown changes. *)
Definition select_row (cur : option version) (r : version_row) : version_row := {|
  row_version := row_version r; row_pending := row_pending r;
  row_selected := match cur with Some c => (row_version r =? version_id c)%js | None => false end;
  row_badges_shown := row_badges_shown r; row_publisher := row_publisher r; row_report := row_report r;
  row_docs := row_docs r; row_buttons := row_buttons r; row_notices := row_notices r
|}.

Definition updateVersionSelection (cur : option version) (s : version_section) : version_section :=
  {| version_count := version_count s; rows := map (select_row cur) (rows s); pagination := pagination s |}.

(** ** The team *)
Inductive member_control :=
| NoControl
| LevelBadge (l : nat)
| LevelSelect (levels : list nat) (current : nat) (self : bool)     (* with the button to remove, or to leave *)
| LeaveButton.

Record member_row := { member_login : jstr; shows_date : bool; control : member_control }.

Section team.
Context {UC : UnicodeCase}.

Definition currentUsername (w : viewer) : jstr := to_lower (trim (username w)).

Definition can_manage_team (d : details) : bool :=
  negb (deprecated (pkg d)) && negb (resourceWriteLocked [locks (pkg d)]) && (administrator d || (3 <=? permission_level (pkg d))).

Definition member_levels (d : details) : list nat :=
  if administrator d || (permission_level (pkg d) =? 4) then [1; 2; 3; 4] else [1; 2; 3].

Definition member_row_of (w : viewer) (d : details) (m : member) : member_row :=
  let isSelf := (to_lower (login m) =? currentUsername w)%js in
  {| member_login := login m;
     shows_date := can_manage_team d;
     control :=
       if can_manage_team d then
         if level m =? 4 then LevelBadge (level m) else LevelSelect (member_levels d) (level m) isSelf
       else if isSelf && (level m <? 4) && negb (resourceWriteLocked [locks (pkg d)]) then LeaveButton
       else NoControl |}.

(** The rows, and whether the invitation form follows. *)
Definition buildCargoTeamSection (w : viewer) (d : details) : list member_row * bool :=
  (map (member_row_of w d) (members d), can_manage_team d).
End team.

(** ** The header *)
Inductive package_button :=
| LockPackage
| DeprecatePackage
| TransferPackage
| ArchivePackage (restore disabled : bool)
| DeletePackage.

(** What the updater of the header changes. *)
Record version_header := {
  version_badge : option jstr;
  archived_badge : bool;
  yanked_badge : bool;
  download : option (list jstr * jstr * option N);      (* address, file name, size *)
  docs_button : option (list jstr);
  upload_docs : option bool                              (* [None]: no button; otherwise whether it is hidden *)
}.

(** What it does not. *)
Record package_header := {
  title : jstr;
  deprecated_badge : bool;
  mirrored_badge : bool;
  header_links : jstr * jstr * jstr;                     (* empty where there is no link *)
  header_description : text;
  report_button : bool;
  header_buttons : list package_button
}.

Section header.
Context `{UrlParser}.

Definition canModifyPackage (d : details) : bool :=
  negb (deprecated (pkg d)) && negb (resourceWriteLocked [locks (pkg d)]) && (administrator d || (1 <=? permission_level (pkg d))).

Definition updateDownloadBtn (w : viewer) (d : details) (cur : option version) : option (list jstr * jstr * option N) :=
  match cur with
  | Some v =>
    if negb (nonempty (version_id v)) || resourceReadLocked [locks (pkg d); version_locks v] then None
    else Some ([repository w; js "api"; js "v1"; js "crates"; name (pkg d); version_id v; js "download"],
               name (pkg d) ++ js "-" ++ version_id v ++ js ".crate", if (0 <? size v)%N then Some (size v) else None)
  | None => None
  end.

Definition updateDocsButtons (w : viewer) (d : details) (cur : option version) : option (list jstr) * option bool :=
  let link := match cur with Some v => docs_link w d v | None => None end in
  (link,
   if canModifyPackage d then
     Some (match link with
           | Some _ => true
           | None => negb (canModifyPackage d) || resourceWriteLocked [match cur with Some v => version_locks v | None => [] end]
           end)
   else None).

Definition version_header_of (w : viewer) (d : details) (cur : option version) : version_header := {|
  version_badge := match cur with Some v => if nonempty (version_id v) then Some (js "v" ++ version_id v) else None | None => None end;
  archived_badge := archived (pkg d);
  yanked_badge := match cur with Some v => yanked v | None => false end;
  download := updateDownloadBtn w d cur;
  docs_button := fst (updateDocsButtons w d cur);
  upload_docs := snd (updateDocsButtons w d cur)
|}.

Definition link_of (f : jstr * jstr * jstr -> jstr) (d : details) (cur : option version) : jstr :=
  safeMarkdownURL (str_or (f (package_links (pkg d))) (match cur with Some v => f (version_links v) | None => [] end)).

Definition package_buttons (d : details) : list package_button :=
  let p := pkg d in
  let canManagePackage := administrator d || (3 <=? permission_level p) in
  let canOwnPackage := administrator d || (4 <=? permission_level p) in
  let anyLockedVersion := existsb (fun v => resourceWriteLocked [version_locks v]) (versions d) in
  let canRewritePackage := negb (resourceWriteLocked [locks p]) && negb anyLockedVersion in
  (if moderator d then [LockPackage] else []) ++
  (if canManagePackage && canRewritePackage && negb (mirrored p) && negb (deprecated p) then [DeprecatePackage] else []) ++
  (if canOwnPackage && negb (resourceWriteLocked [locks p]) && negb (mirrored p) && negb (deprecated p) then [TransferPackage] else []) ++
  (if canManagePackage && canRewritePackage && negb (deprecated p)
   then [ArchivePackage (archived p) (archived p && admin_archived p && negb (administrator d)); DeletePackage] else []).

Definition package_header_of (w : viewer) (d : details) (cur : option version) : package_header := {|
  title := name (pkg d);
  deprecated_badge := deprecated (pkg d);
  mirrored_badge := mirrored (pkg d);
  header_links := (link_of (fun l => l.1.1) d cur, link_of (fun l => l.1.2) d cur, link_of (fun l => l.2) d cur);
  header_description :=
    lit_or (str_or (description (pkg d)) (match cur with Some v => version_description v | None => [] end)) "cargo.noDescription";
  report_button := createTicketReportButton
    (mirrored (pkg d) || (4 <=? permission_level (pkg d)) || resourceReadLocked [locks (pkg d)]) (signed_in w);
  header_buttons := package_buttons d
|}.
End header.

(** ** The page *)
Inductive section_kind := CommandsSection | FactsSection | ReadmeSection | InspectionSection | VersionsSection | TeamSection.

Record cargo_page := mk_page {
  fixed_header : package_header;
  header : version_header;
  deprecation_notice : bool;
  lock_notices : list (jstr * text * bool * bool);
  commands : jstr * command_format;
  facts : list (string * fact_value);
  inspection_section : inspection;
  version_list : version_section;
  team : option (list member_row * bool);
  readme_shown : jstr;
  subpages : option (tabs_state section_kind)
}.

Section page.
Context {UC : UnicodeCase} `{UrlParser}.
Variables (w : viewer) (d : details).

Definition can_view_team : bool := administrator d || (0 <? permission_level (pkg d)).

Definition cargo_tabs (active : jstr) : option (tabs_state section_kind) :=
  createPackageDetailTabs
    [(js "overview", [Some CommandsSection; Some FactsSection; if nonempty (readme (pkg d)) then Some ReadmeSection else None]);
     (js "versions", [Some InspectionSection; Some VersionsSection]);
     (js "team", [if can_view_team then Some TeamSection else None])] active.

Definition current_tab (t : option (tabs_state section_kind)) (u : choices) : choices :=
  match t with Some t => set_detail (current t) u | None => u end.

(** The version in use, and the choices after reading it. *)
Definition selection (u : choices) : option version * choices :=
  let '(cur, sel) := getSelectedVersion d (activeSelectedVersion u) in (cur, set_selected sel u).

Definition clamped (u : choices) : choices :=
  match versions d with [] => u | _ => set_page (clamp_page d (activeVersionListPage u)) u end.

(** The page for choices that are settled, with the version in use. *)
Definition page_at (u : choices) (cur : option version) : cargo_page := {|
  fixed_header := package_header_of w d cur;
  header := version_header_of w d cur;
  deprecation_notice := deprecated (pkg d);
  lock_notices := createResourceLockNotices (locks (pkg d));
  commands := (computeSnippet d (repository w) (activeCommandFormat u) cur, activeCommandFormat u);
  facts := version_facts d cur;
  inspection_section := updateInspection (features_tab u) cur;
  version_list := renderVersionPage w d (activeVersionListPage u) cur;
  team := if can_view_team then Some (buildCargoTeamSection w d) else None;
  readme_shown := readme (pkg d);
  subpages := cargo_tabs (activeCargoDetailView u)
|}.

Definition renderCargoPackagePage (u : choices) : choices * cargo_page :=
  let '(cur, u) := selection u in
  let u := clamped u in
  (current_tab (cargo_tabs (activeCargoDetailView u)) u, page_at u cur).

(** ** Updates in place *)
Inductive cargo_event :=
| ClickVersion (i : nat)
| ChooseCommand (f : command_format)
| ChooseInspection (features : bool)
| PrevPage
| NextPage
| Subpage (ev : tab_event).

Definition set_commands (c : jstr * command_format) (p : cargo_page) : cargo_page :=
  mk_page (fixed_header p) (header p) (deprecation_notice p) (lock_notices p) c (facts p) (inspection_section p) (version_list p)
    (team p) (readme_shown p) (subpages p).
Definition set_inspection (i : inspection) (p : cargo_page) : cargo_page :=
  mk_page (fixed_header p) (header p) (deprecation_notice p) (lock_notices p) (commands p) (facts p) i (version_list p)
    (team p) (readme_shown p) (subpages p).
Definition set_version_list (s : version_section) (p : cargo_page) : cargo_page :=
  mk_page (fixed_header p) (header p) (deprecation_notice p) (lock_notices p) (commands p) (facts p) (inspection_section p) s
    (team p) (readme_shown p) (subpages p).
Definition set_subpages (t : option (tabs_state section_kind)) (p : cargo_page) : cargo_page :=
  mk_page (fixed_header p) (header p) (deprecation_notice p) (lock_notices p) (commands p) (facts p) (inspection_section p)
    (version_list p) (team p) (readme_shown p) t.

(** A click on a row: the selection of the rows, then the updaters of the header, the commands, the facts and the
    inspection, each of which reads the selected version. *)
Definition choose_version (v : jstr) (s : choices * cargo_page) : choices * cargo_page :=
  let '(cur, u) := selection (set_selected v (fst s)) in
  let p := snd s in
  (u,
   {| fixed_header := fixed_header p;
      header := version_header_of w d cur;
      deprecation_notice := deprecation_notice p;
      lock_notices := lock_notices p;
      commands := (computeSnippet d (repository w) (activeCommandFormat u) cur, activeCommandFormat u);
      facts := version_facts d cur;
      inspection_section := updateInspection (features_tab u) cur;
      version_list := updateVersionSelection cur (version_list p);
      team := team p; readme_shown := readme_shown p; subpages := subpages p |}).

Definition go_to_page (n : nat) (s : choices * cargo_page) : choices * cargo_page :=
  let '(cur, u) := selection (clamped (set_page n (fst s))) in
  (u, set_version_list (renderVersionPage w d (activeVersionListPage u) cur) (snd s)).

Definition cargo_step (ev : cargo_event) (s : choices * cargo_page) : choices * cargo_page :=
  let '(u, p) := s in
  match ev with
  | ClickVersion i =>
    match rows (version_list p) !! i with
    | Some r =>
      if row_pending r then s
      else if (activeSelectedVersion u =? row_version r)%js then s
      else choose_version (row_version r) s
    | None => s
    end
  | ChooseCommand f =>
    if match activeCommandFormat u, f with CargoAdd, CargoAdd | CargoToml, CargoToml | CargoInstall, CargoInstall => true | _, _ => false end
    then s
    else let '(cur, u) := selection (set_format f u) in (u, set_commands (computeSnippet d (repository w) f cur, f) p)
  | ChooseInspection features =>
    if Bool.eqb (features_tab u) features then s
    else let '(cur, u) := selection (set_tab features u) in (u, set_inspection (updateInspection features cur) p)
  | PrevPage =>
    match pagination (version_list p) with
    | Some _ => if 1 <? activeVersionListPage u then go_to_page (activeVersionListPage u - 1) s else s
    | None => s
    end
  | NextPage =>
    match pagination (version_list p) with
    | Some g => if activeVersionListPage u <? page_total g then go_to_page (activeVersionListPage u + 1) s else s
    | None => s
    end
  | Subpage ev =>
    match subpages p with
    | Some t => let t := tab_step ev t in (set_detail (current t) u, set_subpages (Some t) p)
    | None => s
    end
  end.

Definition cargo_run (evs : list cargo_event) (s : choices * cargo_page) : choices * cargo_page :=
  fold_left (fun s ev => cargo_step ev s) evs s.

(** ** Lemmas: selection *)
Lemma default_version_found v : 
  match List.find (fun v => negb (pending_review v) && negb (yanked v)) (versions d) with
  | Some v => Some v
  | None => List.find (fun v => negb (pending_review v)) (versions d)
  end = Some v -> v ∈ versions d /\ pending_review v = false.
Proof.
  destruct (List.find (fun v => negb (pending_review v) && negb (yanked v)) _) as [x|] eqn:E.
  - intros [= <-]. apply List.find_some in E as [Hin%list_elem_of_In [Hp _]%andb_prop]. split; [done|by apply negb_true_iff].
  - intros Hx. apply List.find_some in Hx as [Hin%list_elem_of_In Hp]. split; [done|by apply negb_true_iff].
Qed.

(** Reading the selected version a second time gives the same version and changes nothing, when no two versions share a
    name. *)
Lemma getSelectedVersion_again sel cur sel' : NoDup (map version_id (versions d)) ->
  Forall (fun v => nonempty (version_id v) = true) (versions d) ->
  getSelectedVersion d sel = (cur, sel') -> getSelectedVersion d sel' = (cur, sel').
Proof.
  intros Hd Hne. unfold getSelectedVersion. destruct (versions d) as [|v0 vs0] eqn:Ev; [by intros [= <- <-]|]. rewrite <- Ev in *.
  set (dv := match List.find (fun v => negb (pending_review v) && negb (yanked v)) _ with Some v => Some v | None => _ end).
  assert (Hfind : forall v, v ∈ versions d -> List.find (fun x => (version_id x =? version_id v)%js) (versions d) = Some v).
  { intros v Hin. destruct (List.find (fun x => (version_id x =? version_id v)%js) (versions d)) as [x|] eqn:E.
    - apply List.find_some in E as [Hx%list_elem_of_In Hid%bool_decide_eq_true]. f_equal.
      apply list_elem_of_lookup in Hin as [i Hi]. apply list_elem_of_lookup in Hx as [j Hj].
      assert (i = j) as -> by (eapply (NoDup_lookup _ i j (version_id v) Hd); rewrite list_lookup_fmap, ?Hi, ?Hj; cbn; congruence).
      congruence.
    - apply list_elem_of_In in Hin. pose proof (List.find_none _ _ E _ Hin) as Hv. cbv beta in Hv. by rewrite bool_decide_eq_true_2 in Hv. }
  assert (Hdef : dv = cur -> from_option version_id [] dv = sel' ->
    (match (if nonempty sel' then List.find (fun v => (version_id v =? sel')%js) (versions d) else None) with
     | Some v => if negb (pending_review v) then (Some v, sel') else (dv, from_option version_id [] dv)
     | None => (dv, from_option version_id [] dv) end) = (cur, sel')).
  { intros Hc Hs. subst sel'. destruct dv as [v|] eqn:Edv; cbn [from_option].
    - destruct (default_version_found v Edv) as [Hin Hp]. rewrite Forall_forall in Hne. rewrite (Hne v Hin), (Hfind v Hin), Hp. by subst.
    - by subst. }
  destruct (if nonempty sel then _ else None) as [v|] eqn:Ef; [destruct (pending_review v) eqn:Ep; cbn [negb]|];
    intros [= Hc Hs].
  - by apply Hdef.
  - subst. rewrite Ef, Ep. done.
  - by apply Hdef.
Qed.

(** ** Lemmas: settled choices *)
Definition distinct_versions : Prop :=
  NoDup (map version_id (versions d)) /\ Forall (fun v => nonempty (version_id v) = true) (versions d).

(** Drawing the page leaves these choices alone. *)
Record settled (u : choices) : Prop := {
  settled_version : snd (selection u) = u;
  settled_page : clamped u = u;
  settled_tab : current_tab (cargo_tabs (activeCargoDetailView u)) u = u
}.

Definition with_fixed (h : package_header) (p : cargo_page) : cargo_page :=
  mk_page h (header p) (deprecation_notice p) (lock_notices p) (commands p) (facts p) (inspection_section p) (version_list p)
    (team p) (readme_shown p) (subpages p).

(** The page is the one that would be drawn now, but for the fixed part [h] of its header. *)
Definition coherent (h : package_header) (s : choices * cargo_page) : Prop :=
  settled (fst s) /\ snd s = with_fixed h (page_at (fst s) (fst (selection (fst s)))).

Lemma settled_render u : settled u -> renderCargoPackagePage u = (u, page_at u (fst (selection u))).
Proof.
  intros [H1 H2 H3]. unfold renderCargoPackagePage. destruct (selection u) as [cur v]. cbn [snd fst] in *. subst v.
  by rewrite H2, H3.
Qed.

Lemma clamp_page_range m : 1 <= clamp_page d m <= Nat.max 1 (totalPages d).
Proof. unfold clamp_page. cbv zeta. repeat case_match; lia. Qed.

Lemma clamp_page_id n : 1 <= n <= Nat.max 1 (totalPages d) -> clamp_page d n = n.
Proof. unfold clamp_page. cbv zeta. intros Hn. repeat case_match; lia. Qed.

Lemma clamped_again u : clamped (clamped u) = clamped u.
Proof.
  unfold clamped. destruct (versions d) eqn:Ev; [done|]. cbn [set_page activeVersionListPage].
  unfold set_page. cbn [activeSelectedVersion features_tab activeCargoDetailView activeCommandFormat activeVersionListPage]. f_equal.
  apply clamp_page_id, clamp_page_range.
Qed.

Lemma clamped_fields u : activeSelectedVersion (clamped u) = activeSelectedVersion u /\
  activeCargoDetailView (clamped u) = activeCargoDetailView u /\ features_tab (clamped u) = features_tab u /\
  activeCommandFormat (clamped u) = activeCommandFormat u.
Proof. unfold clamped. by destruct (versions d). Qed.

Lemma tabs_again a t : cargo_tabs a = Some t -> cargo_tabs (current t) = Some t.
Proof. intros Ht. apply createPackageDetailTabs_ok in Ht as [Hok Ha]. by apply tabs_settled. Qed.

Lemma cargo_tabs_some a : exists t, cargo_tabs a = Some t.
Proof. unfold cargo_tabs, createPackageDetailTabs. eexists. reflexivity. Qed.

Lemma selection_again u : distinct_versions -> snd (selection (snd (selection u))) = snd (selection u) /\
  fst (selection (snd (selection u))) = fst (selection u).
Proof.
  intros [Hd Hne]. unfold selection. destruct (getSelectedVersion d (activeSelectedVersion u)) as [cur sel] eqn:E. cbn [snd fst].
  cbn [set_selected activeSelectedVersion]. by rewrite (getSelectedVersion_again _ _ _ Hd Hne E).
Qed.

(** The version in use depends on the selected one only. *)
Lemma selection_same u v : activeSelectedVersion u = activeSelectedVersion v -> fst (selection u) = fst (selection v).
Proof. intros E. unfold selection. rewrite E. by destruct (getSelectedVersion _ _). Qed.

Lemma settled_selected u v : activeSelectedVersion u = activeSelectedVersion v -> snd (selection u) = u -> snd (selection v) = v.
Proof.
  intros E. unfold selection. rewrite <- E. destruct (getSelectedVersion _ _) as [cur sel]. cbn [snd].
  destruct u, v. unfold set_selected. cbn in *. intros [= ->]. by subst.
Qed.

Lemma render_settled u0 : distinct_versions -> settled (fst (renderCargoPackagePage u0)) /\
  snd (renderCargoPackagePage u0) = page_at (fst (renderCargoPackagePage u0)) (fst (selection (fst (renderCargoPackagePage u0)))).
Proof.
  intros Hd. unfold renderCargoPackagePage. destruct (selection_again u0 Hd) as [Hs Hc].
  destruct (selection u0) as [cur u] eqn:Eu. cbn [snd fst] in Hs, Hc |- *.
  destruct (clamped_fields u) as (F1 & F2 & F3 & F4). destruct (cargo_tabs_some (activeCargoDetailView (clamped u))) as [t Ht].
  rewrite Ht. cbn [current_tab].
  assert (Hsel : activeSelectedVersion u = activeSelectedVersion (set_detail (current t) (clamped u))) by (cbn; congruence).
  split; [split|].
  - by apply (settled_selected u).
  - pose proof (clamped_again u) as Hca. unfold clamped in *. destruct (versions d); [done|].
    unfold set_page, set_detail in *. cbn in *. injection Hca. intros ->. done.
  - cbn [set_detail activeCargoDetailView]. rewrite (tabs_again _ _ Ht). done.
  - rewrite <- (selection_same u), Hc by done. unfold page_at. cbn [set_detail activeCommandFormat features_tab activeVersionListPage
      activeCargoDetailView]. by rewrite Ht, (tabs_again _ _ Ht).
Qed.

(** ** Lemmas: one update *)
Lemma select_rows cur n old : updateVersionSelection cur (renderVersionPage w d n old) = renderVersionPage w d n cur.
Proof. unfold updateVersionSelection, renderVersionPage. cbn [version_count rows pagination]. f_equal. rewrite map_map. by apply map_ext. Qed.

Lemma set_settled u v : settled u -> activeSelectedVersion u = activeSelectedVersion v ->
  activeVersionListPage u = activeVersionListPage v -> activeCargoDetailView u = activeCargoDetailView v -> settled v.
Proof.
  intros [H1 H2 H3] Hs Hp Ht. split; [by apply (settled_selected u)| |].
  - unfold clamped in *. destruct (versions d); [done|]. unfold set_page in *. destruct u, v. cbn in *. injection H2. intros. subst. by f_equal.
  - rewrite <- Ht. destruct (cargo_tabs_some (activeCargoDetailView u)) as [t E]. rewrite E in *. cbn [current_tab] in *.
    unfold set_detail in *. destruct u, v. cbn in *. injection H3. intros. subst. by f_equal.
Qed.

(** A choice that leaves version, page and subpage. *)
Lemma cargo_choice_ok h u v p : settled u -> activeSelectedVersion u = activeSelectedVersion v ->
  activeVersionListPage u = activeVersionListPage v -> activeCargoDetailView u = activeCargoDetailView v ->
  p = with_fixed h (page_at v (fst (selection u))) -> coherent h (snd (selection v), p).
Proof.
  intros Hu Hs Hp Ht ->. pose proof (set_settled u v Hu Hs Hp Ht) as Hv. unfold coherent. cbn [fst snd].
  rewrite (settled_version v Hv). split; [done|]. by rewrite (selection_same u v Hs).
Qed.

Lemma choose_version_ok h v s : distinct_versions -> coherent h s -> coherent h (choose_version v s).
Proof.
  intros Hd [Hu Hp]. destruct s as [u p]. cbn [fst snd] in *. subst p. unfold choose_version. cbn [fst snd].
  destruct (selection_again (set_selected v u) Hd) as [Hs Hc]. destruct (selection (set_selected v u)) as [cur x] eqn:E.
  cbn [fst snd] in Hs, Hc.
  assert (Hx : x = set_selected (activeSelectedVersion x) u).
  { unfold selection in E. destruct (getSelectedVersion _ _) as [c sel]. injection E as _ <-. done. }
  assert (Hset : settled x).
  { destruct Hu as [_ H2 H3]. split; [done| |]; rewrite Hx; clear -H2 H3; destruct u as [a n ft dv f]; cbn [activeCargoDetailView] in H3.
    - unfold clamped in *. destruct (versions d); [done|]. unfold set_page in *. cbn in *. by injection H2 as ->.
    - unfold set_selected at 1. cbn [activeCargoDetailView]. destruct (cargo_tabs_some dv) as [t Et]. rewrite Et. cbn [current_tab].
      rewrite Et in H3. cbn [current_tab] in H3. apply (f_equal activeCargoDetailView) in H3. unfold set_detail in *. cbn in *. by subst. }
  split; [done|]. cbn [fst snd]. rewrite Hc. unfold page_at, with_fixed.
  cbn [header deprecation_notice lock_notices commands facts inspection_section version_list team readme_shown subpages].
  rewrite select_rows. rewrite Hx. by destruct u.
Qed.

Lemma go_to_page_ok h n s : coherent h s -> coherent h (go_to_page n s).
Proof.
  intros [Hu Hp]. destruct s as [u p]. cbn [fst snd] in *. subst p. unfold go_to_page. cbn [fst snd].
  set (v := clamped (set_page n u)). destruct (clamped_fields (set_page n u)) as (F1 & F2 & F3 & F4). fold v in F1, F2, F3, F4.
  cbn [set_page activeSelectedVersion activeCargoDetailView features_tab activeCommandFormat] in F1, F2, F3, F4.
  assert (Hv : settled v).
  { split.
    - by apply (settled_selected u); [symmetry|apply settled_version].
    - apply clamped_again.
    - rewrite F2. pose proof (settled_tab u Hu) as H3. destruct (cargo_tabs_some (activeCargoDetailView u)) as [t Et]. rewrite Et in *.
      cbn [current_tab] in *. assert (Hct : current t = activeCargoDetailView v) by (rewrite F2; by apply (f_equal activeCargoDetailView) in H3).
      rewrite Hct. by destruct v. }
  pose proof (settled_version v Hv) as Hsv. pose proof (selection_same u v (eq_sym F1)) as Hc.
  destruct (selection v) as [cur x] eqn:E. cbn [fst snd] in *. subst x. split; [done|]. cbn [fst snd]. rewrite E. cbn [fst].
  unfold set_version_list, page_at, with_fixed.
  cbn [fixed_header header deprecation_notice lock_notices commands facts inspection_section version_list team readme_shown subpages].
  by rewrite F2, F3, F4, Hc.
Qed.

Lemma cargo_step_ok h ev s : distinct_versions -> coherent h s -> coherent h (cargo_step ev s).
Proof.
  intros Hd Hs. pose proof Hs as [Hu Hp]. destruct s as [u p]. cbn [fst snd] in *. destruct ev as [i|f|b| | |ev]; cbn [cargo_step].
  - destruct (_ !! i) as [r|]; [|done]. destruct (row_pending r); [done|]. case_bool_decide; [done|]. by apply choose_version_ok.
  - destruct (match activeCommandFormat u, f with CargoAdd, CargoAdd | CargoToml, CargoToml | CargoInstall, CargoInstall => true | _, _ => false end);
      [done|]. pose proof (selection_same u (set_format f u) eq_refl) as Hc.
    destruct (selection (set_format f u)) as [cur v] eqn:E. cbn [fst] in Hc.
    replace v with (snd (selection (set_format f u))) by by rewrite E.
    apply (cargo_choice_ok h u); [done..|]. subst p. rewrite <- Hc. done.
  - destruct (Bool.eqb _ _); [done|]. pose proof (selection_same u (set_tab b u) eq_refl) as Hc.
    destruct (selection (set_tab b u)) as [cur v] eqn:E. cbn [fst] in Hc.
    replace v with (snd (selection (set_tab b u))) by by rewrite E.
    apply (cargo_choice_ok h u); [done..|]. subst p. rewrite <- Hc. done.
  - destruct (pagination _); [|done]. destruct (1 <? _); [|done]. by apply go_to_page_ok.
  - destruct (pagination _); [|done]. destruct (_ <? _); [|done]. by apply go_to_page_ok.
  - subst p. cbn [with_fixed subpages page_at]. destruct (cargo_tabs_some (activeCargoDetailView u)) as [t Et]. rewrite Et. cbn [current_tab].
    apply createPackageDetailTabs_ok in Et as [Hok Ha].
    pose proof (tabs_settled _ _ (tab_step_ok ev t Hok) (eq_trans (tab_step_available ev t) Ha)) as Ht.
    set (v := set_detail (current (tab_step ev t)) u).
    assert (Hv : settled v).
    { split; [by apply (settled_selected u); [|apply settled_version]| |].
      - pose proof (settled_page u Hu) as H2. unfold clamped in *. destruct (versions d); [done|]. subst v. destruct u.
        unfold set_page, set_detail in *. cbn in *. by injection H2 as ->.
      - subst v. cbn [set_detail activeCargoDetailView]. unfold cargo_tabs. rewrite Ht. done. }
    split; [done|]. cbn [fst snd]. rewrite <- (selection_same u v eq_refl). unfold set_subpages, with_fixed, page_at.
    cbn [fixed_header header deprecation_notice lock_notices commands facts inspection_section version_list team readme_shown subpages].
    subst v. cbn [set_detail activeCargoDetailView activeCommandFormat features_tab activeVersionListPage]. unfold cargo_tabs. by rewrite Ht.
Qed.

Lemma cargo_run_ok h evs s : distinct_versions -> coherent h s -> coherent h (cargo_run evs s).
Proof.
  intros Hd. unfold cargo_run. revert s. induction evs as [|ev evs IH]; intros s Hs; [done|]. apply IH. by apply cargo_step_ok.
Qed.

(** The package has its own links and description, which the links of a version cannot replace. *)
Definition own_header : bool :=
  nonempty (package_links (pkg d)).1.1 && nonempty (package_links (pkg d)).1.2 && nonempty (package_links (pkg d)).2 &&
  nonempty (description (pkg d)).

Lemma own_header_fixed cur cur' : own_header = true -> package_header_of w d cur = package_header_of w d cur'.
Proof.
  assert (Hs : forall a b c, nonempty a = true -> str_or a b = str_or a c) by by intros [|].
  intros [[[H1 H2]%andb_prop H3]%andb_prop H4]%andb_prop. unfold package_header_of, link_of.
  f_equal; [f_equal; [f_equal|]|]; f_equal; by apply Hs.
Qed.

(** ** The buttons of a page *)
Inductive page_button :=
| OfPackage (b : package_button)
| UploadPackageDocs
| OfVersion (v : jstr) (b : version_button)
| ChangeLevel (member : jstr)
| Leave
| Invite.

Definition member_buttons (r : member_row) : list page_button :=
  match control r with LevelSelect _ _ _ => [ChangeLevel (member_login r)] | LeaveButton => [Leave] | _ => [] end.

Definition page_buttons (p : cargo_page) : list page_button :=
  map OfPackage (header_buttons (fixed_header p)) ++
  (match upload_docs (header p) with Some false => [UploadPackageDocs] | _ => [] end) ++
  concat (map (fun r => map (OfVersion (row_version r)) (row_buttons r)) (rows (version_list p))) ++
  (match team p with Some t => concat (map member_buttons (fst t)) ++ (if snd t then [Invite] else []) | None => [] end).

Definition lock_button (b : page_button) : Prop :=
  match b with OfPackage LockPackage | OfVersion _ LockVersion => True | _ => False end.

Lemma row_of_version r n cur : r ∈ rows (renderVersionPage w d n cur) -> exists v, v ∈ versions d /\ r = version_row_of w d cur v.
Proof.
  cbn [renderVersionPage rows]. intros (v & -> & Hv)%list_elem_of_fmap. exists v. split; [|done].
  unfold page_versions in Hv. apply list_elem_of_lookup in Hv as [i Hi].
  apply lookup_take_Some in Hi as [Hi _]. rewrite lookup_drop in Hi. by eapply list_elem_of_lookup_2.
Qed.

Definition team_button (b : page_button) : Prop := match b with ChangeLevel _ | Leave | Invite => True | _ => False end.

Lemma member_team_button r b : b ∈ member_buttons r -> team_button b.
Proof. unfold member_buttons. destruct (control r); intros Hb; [set_solver..|]; apply list_elem_of_singleton in Hb; by subst. Qed.

(** What the buttons of a coherent page can be. *)
Lemma buttons_from h s b : coherent h s -> (exists cur, h = package_header_of w d cur) -> b ∈ page_buttons (snd s) ->
  (exists x, b = OfPackage x /\ x ∈ package_buttons d) \/ (b = UploadPackageDocs /\ canModifyPackage d = true) \/
  (exists v x, v ∈ versions d /\ b = OfVersion (version_id v) x /\ x ∈ version_buttons d v) \/
  (can_view_team = true /\ team_button b /\ (can_manage_team d = true \/ b = Leave /\ resourceWriteLocked [locks (pkg d)] = false)).
Proof.
  intros [_ ->] [cur0 ->]. unfold page_buttons, with_fixed. cbn [fixed_header header version_list team page_at].
  rewrite !elem_of_app. intros [Hb|[Hb|[Hb|Hb]]].
  - apply list_elem_of_fmap in Hb as (x & -> & Hx). left. by exists x.
  - right. left. revert Hb. cbn [version_header_of upload_docs updateDocsButtons snd]. destruct (canModifyPackage d); [|by intros ?%not_elem_of_nil].
    intros Hb. split; [|done]. destruct (match match fst _ with Some v => docs_link w d v | None => None end with Some _ => _ | None => _ end); [by apply not_elem_of_nil in Hb|].
    by apply list_elem_of_singleton in Hb.
  - right. right. left. apply elem_of_concat_map in Hb as (r & Hr & Hb).
    apply row_of_version in Hr as (v & Hv & ->). apply list_elem_of_fmap in Hb as (x & -> & Hx). by exists v, x.
  - right. right. right. destruct can_view_team; [|by apply not_elem_of_nil in Hb]. split; [done|].
    cbn [buildCargoTeamSection fst snd] in Hb. split.
    { apply elem_of_app in Hb as [Hb|Hb].
      - apply elem_of_concat_map in Hb as (r & _ & Hb). by eapply member_team_button.
      - destruct (can_manage_team d); [|by apply not_elem_of_nil in Hb]. apply list_elem_of_singleton in Hb. by subst. }
    destruct (can_manage_team d) eqn:Em; [by left|right]. rewrite app_nil_r in Hb.
    apply elem_of_concat_map in Hb as (r & Hr & Hb).
    apply list_elem_of_fmap in Hr as (m & -> & Hm). revert Hb. unfold member_buttons, member_row_of. cbv zeta. rewrite Em.
    cbn [control member_login]. destruct (resourceWriteLocked _) eqn:El; cbn [negb]; rewrite ?andb_false_r, ?andb_true_r.
    + by intros ?%not_elem_of_nil.
    + destruct (_ && _); [by intros ?%list_elem_of_singleton|by intros ?%not_elem_of_nil].
Qed.
End page.

(** ** Properties *)
Module Examples.
#[local] Existing Instance latin_case.
#[local] Instance https_url : UrlParser := {|
  new_URL raw := Some {| protocol := js "https:"; hostname := js "h"; Markdown.username := []; password := []; url_href := raw |}
|}.

Definition release (id : string) (gone pending : bool) : version := {|
  version_id := js id; pending_review := pending; yanked := gone; admin_yanked := gone; version_mirrored := false; has_docs := false;
  version_locks := []; size := 2048; created_at := 5; publisher := js "ann"; license := js "MIT"; rust_version := [];
  checksum := []; deps := []; features := []; version_links := (js "https://h/" ++ js id, [], []); version_description := js id
|}.

Definition crate (lvl : nat) (admin : bool) (ls : list lock) : details := {|
  pkg := {| name := js "demo"; permission_level := lvl; archived := false; admin_archived := false; mirrored := false;
            deprecated := false; locks := ls; super_team_prefix := []; updated_at := 5; package_links := ([], [], []);
            description := []; readme := [] |};
  versions := [release "1.1.0" false true; release "1.0.0" false false; release "0.9.0" true false; release "0.8.0" false false;
               release "0.7.0" false false; release "0.6.0" false false];
  members := [{| login := js "ann"; user_id := js "u1"; level := 4; added_at := 1 |};
              {| login := js "bob"; user_id := js "u2"; level := 2; added_at := 2 |}];
  administrator := admin; moderator := false |}.

Definition bob : viewer := {| repository := js "crates"; signed_in := true; username := js "Bob" |}.
Definition fresh_choices : choices := mk_choices [] 1 false (js "overview") CargoAdd.

Definition visit : list cargo_event :=
  [Subpage (ClickTab (js "versions")); NextPage; ClickVersion 0; ChooseCommand CargoInstall; PrevPage; ChooseInspection true; ClickVersion 0].

(** The version under review is not chosen; the command names the chosen one. *)
Lemma visit_shows :
  let '(u, p) := cargo_run bob (crate 2 false []) visit (renderCargoPackagePage bob (crate 2 false []) fresh_choices) in
  activeSelectedVersion u = js "0.6.0" /\ map row_selected (rows (version_list p)) = repeat false 5 /\
  fst (commands p) = js "cargo install demo --version 0.6.0 --registry crates".
Proof. vm_compute. done. Qed.

(** The header keeps the link and the description of the version that was drawn first. *)
Lemma header_left_behind :
  let d := crate 0 false [] in
  let s := cargo_run bob d [ClickVersion 3] (renderCargoPackagePage bob d fresh_choices) in
  header_description (fixed_header (snd s)) = Lit (js "1.0.0") /\
  header_description (fixed_header (snd (renderCargoPackagePage bob d (fst s)))) = Lit (js "0.8.0") /\
  (header_links (fixed_header (snd s))).1.1 = js "https://h/1.0.0".
Proof. vm_compute. done. Qed.
End Examples.

Section properties.
Context {UC : UnicodeCase} `{UrlParser}.
Variables (w : viewer) (d : details).
Hypothesis Hversions : distinct_versions d.

(** C25: after any clicks on versions, pages, command formats, tabs and subpages, each of which changes parts of the page in
    place, the page is the one a full drawing would give for the choices made, and that drawing would change no choice:
    all of it when the package has its own links and description, and otherwise all but these, which stay those of the
    version first shown ([Examples.header_left_behind]). *)
Theorem cargo_page_coherent evs u0 :
  let s := cargo_run w d evs (renderCargoPackagePage w d u0) in
  let first := fixed_header (snd (renderCargoPackagePage w d u0)) in
  fst (renderCargoPackagePage w d (fst s)) = fst s /\
  snd s = with_fixed first (snd (renderCargoPackagePage w d (fst s))) /\
  (own_header d = true -> renderCargoPackagePage w d (fst s) = s).
Proof.
  cbv zeta. set (s := cargo_run _ _ _ _). set (first := fixed_header _).
  assert (Hs : coherent w d first s).
  { apply cargo_run_ok; [done|]. destruct (render_settled w d u0 Hversions) as [H1 H2]. split; [done|]. subst first.
    rewrite H2. reflexivity. }
  assert (Hf : exists cur, first = package_header_of w d cur).
  { subst first. unfold renderCargoPackagePage. destruct (selection d u0) as [cur u]. by exists cur. }
  destruct Hs as [Hset Hp]. rewrite (settled_render w d _ Hset). cbn [fst snd]. split_and!; [done|done|].
  intros Hown. destruct s as [u p]. cbn [fst snd] in *. f_equal. rewrite Hp. destruct Hf as [cur ->].
  unfold with_fixed, page_at. cbn. f_equal. by apply own_header_fixed.
Qed.

(** C18: whatever was clicked: a visitor without a level, who neither administers nor moderates, sees no button that
    changes anything; on a package that is locked or deprecated there are only a moderator's lock buttons and, when it
    is deprecated but not locked, the one to leave the team; a version that is locked, or under review, has no button but
    the former's lock; and only an administrator can restore what an administrator yanked. *)
Theorem cargo_page_permissions evs u0 b :
  let p := snd (cargo_run w d evs (renderCargoPackagePage w d u0)) in
  b ∈ page_buttons p ->
  (administrator d = false -> moderator d = false -> permission_level (pkg d) <> 0) /\
  (locks (pkg d) <> [] \/ deprecated (pkg d) = true -> lock_button b \/ b = Leave /\ locks (pkg d) = []) /\
  (forall v x, b = OfVersion v x -> exists r, r ∈ versions d /\ version_id r = v /\
     (pending_review r = false) /\ (version_locks r <> [] -> x = LockVersion) /\
     (x = Unyank false -> admin_yanked r = true -> administrator d = true)).
Proof.
  cbv zeta. set (s := cargo_run _ _ _ _). intros Hb.
  set (first := fixed_header (snd (renderCargoPackagePage w d u0))).
  assert (Hs : coherent w d first s).
  { apply cargo_run_ok; [done|]. destruct (render_settled w d u0 Hversions) as [H1 H2]. split; [done|]. subst first.
    rewrite H2. reflexivity. }
  assert (Hf : exists cur, first = package_header_of w d cur).
  { subst first. unfold renderCargoPackagePage. destruct (selection d u0) as [cur u]. by exists cur. }
  pose proof (buttons_from w d first s b Hs Hf Hb) as Hfrom. clear Hs Hf Hb first s.
  split_and!.
  - intros Ha Hm Hl. destruct Hfrom as [(x & -> & Hx)|[[-> Hx]|[(v & x & _ & -> & Hx)|(Hx & _)]]].
    + unfold package_buttons in Hx. rewrite Ha, Hm, Hl in Hx. cbn in Hx. by apply not_elem_of_nil in Hx.
    + unfold canModifyPackage in Hx. rewrite Ha, Hl, andb_false_r in Hx. done.
    + unfold version_buttons in Hx. rewrite Ha, Hm, Hl in Hx. cbn in Hx. rewrite andb_false_r in Hx. by apply not_elem_of_nil in Hx.
    + unfold can_view_team in Hx. by rewrite Ha, Hl in Hx.
  - intros Hfrozen.
    assert (Hk : negb (deprecated (pkg d)) && negb (resourceWriteLocked [locks (pkg d)]) = false).
    { cbn [resourceWriteLocked existsb]. rewrite orb_false_r. destruct Hfrozen as [Hl| ->]; [|done].
      destruct (locks (pkg d)); [done|]. by rewrite andb_false_r. }
    assert (Hl : resourceWriteLocked [locks (pkg d)] = false -> locks (pkg d) = []) by by destruct (locks (pkg d)).
    destruct Hfrom as [(x & -> & Hx)|[[-> Hx]|[(v & x & Hv & -> & Hx)|(Hx & _ & Ht)]]].
    + left. revert Hx. unfold package_buttons. cbv zeta. destruct (deprecated (pkg d)), (resourceWriteLocked [locks (pkg d)]); try done;
        cbn [negb andb]; rewrite ?andb_false_r; cbn [app]; rewrite ?app_nil_r; destruct (moderator d); set_solver.
    + unfold canModifyPackage in Hx. by rewrite Hk in Hx.
    + left. revert Hx. unfold version_buttons. cbv zeta.
      assert (Hd' : deprecated (pkg d) = true \/ resourceWriteLocked [locks (pkg d); version_locks v] = true).
      { apply andb_false_iff in Hk as [Hk|Hk]; apply negb_false_iff in Hk; [by left|right]. cbn [resourceWriteLocked existsb] in *.
        by rewrite orb_false_r in Hk; rewrite Hk. }
      destruct Hd' as [->| ->]; cbn [negb andb]; rewrite ?andb_false_r; cbn [app]; destruct (moderator d && _); set_solver.
    + right. destruct Ht as [Ht|[-> Ht]]; [|by split; [|apply Hl]]. unfold can_manage_team in Ht. by rewrite Hk in Ht.
  - intros v x ->. destruct Hfrom as [(y & [=] & _)|[[[=] _]|[(r & y & Hr & [= -> ->] & Hx)|(_ & [] & _)]]].
    exists r. split_and!; [done|done| | |].
    + revert Hx. unfold version_buttons. cbv zeta. destruct (pending_review r); [|done]. cbn [negb]. rewrite !andb_false_r. set_solver.
    + intros Hl. revert Hx. unfold version_buttons. cbv zeta.
      assert (E : resourceWriteLocked [locks (pkg d); version_locks r] = true).
      { cbn [resourceWriteLocked existsb]. destruct (version_locks r); [done|]. by rewrite orb_true_r. }
      rewrite E. cbn [negb]. rewrite andb_false_r. cbn [app]. destruct (_ && _); set_solver.
    + intros -> Ha. revert Hx. unfold version_buttons. cbv zeta. rewrite Ha. destruct (yanked r) eqn:Ey.
      * destruct (administrator d); [done|]. cbn [negb andb orb]. destruct (_ && negb _), (moderator d && _), (has_docs r); set_solver.
      * destruct (_ && negb (resourceWriteLocked _)), (moderator d && _), (has_docs r); set_solver.
Qed.
End properties.

Lemma crate_versions lvl admin ls : distinct_versions (Examples.crate lvl admin ls).
Proof. split; [refine (proj1 (bool_decide_eq_true _) _); vm_compute; reflexivity|]. cbn. by repeat constructor. Qed.

Lemma cargo_page_coherent_witness :
  distinct_versions (Examples.crate 2 false []) /\
  fst (@renderCargoPackagePage latin_case Examples.https_url Examples.bob (Examples.crate 2 false [])
         (fst (cargo_run Examples.bob (Examples.crate 2 false []) Examples.visit
                 (@renderCargoPackagePage latin_case Examples.https_url Examples.bob (Examples.crate 2 false []) Examples.fresh_choices)))) =
  fst (cargo_run Examples.bob (Examples.crate 2 false []) Examples.visit
         (@renderCargoPackagePage latin_case Examples.https_url Examples.bob (Examples.crate 2 false []) Examples.fresh_choices)).
Proof.
  split; [apply crate_versions|].
  exact (proj1 (@cargo_page_coherent latin_case Examples.https_url Examples.bob (Examples.crate 2 false [])
                  (crate_versions 2 false []) Examples.visit Examples.fresh_choices)).
Defined.

Lemma cargo_page_permissions_witness :
  OfVersion (js "1.0.0") (Yank false) ∈
    page_buttons (snd (cargo_run Examples.bob (Examples.crate 2 false []) []
      (@renderCargoPackagePage latin_case Examples.https_url Examples.bob (Examples.crate 2 false []) Examples.fresh_choices))) /\
  permission_level (pkg (Examples.crate 2 false [])) <> 0.
Proof.
  assert (Hb : OfVersion (js "1.0.0") (Yank false) ∈
    page_buttons (snd (cargo_run Examples.bob (Examples.crate 2 false []) []
      (@renderCargoPackagePage latin_case Examples.https_url Examples.bob (Examples.crate 2 false []) Examples.fresh_choices)))).
  { eapply (list_elem_of_lookup_2 _ 2). vm_compute. reflexivity. }
  split; [exact Hb|].
  exact (proj1 (@cargo_page_permissions latin_case Examples.https_url Examples.bob (Examples.crate 2 false [])
                  (crate_versions 2 false []) [] Examples.fresh_choices _ Hb) eq_refl eq_refl).
Defined.
