(* ===== verification/CargoCatalog.v ===== *)
(** * The catalog of a Cargo repository

    [internal/service/frontend/renop-html/js/browser/cargo.js]: the crates of a registry, loaded in pages of fifty and
    merged by normalized name with the packages the signed-in user manages.  A record of the server is the map of its
    fields, so that the spread of two records is the union of their maps. *)
From S2P Require Import Prelude JsString JsArray JsJson BrowserUtils.

Abbreviation crate := (gmap jstr json).

Section catalog.
Context {UC : UnicodeCase} `{Collation}.

Definition CARGO_CATALOG_PAGE_SIZE : nat := 50.

(** [String(value || '')] of a field that is a string when it is there. *)
Definition text_field (k : string) (r : crate) : jstr := match r !! js k with Some (JStr s) => s | _ => [] end.

Definition normalizeCargoPackageName (value : jstr) : jstr := replace_char 95 [45%N] (to_lower (trim value)).

Definition crate_key (r : crate) : jstr := normalizeCargoPackageName (text_field "name" r).

Definition is_archived (r : crate) : bool := bool_decide (r !! js "archived" = Some (JBool true)).

Record catalog := mk_catalog {
  activePackageList : list crate;
  activePublicPackageNames : gset jstr;
  activePublicPackageTotal : nat;
  activeCatalogPage : nat
}.

Definition empty_catalog : catalog := mk_catalog [] ∅ 0 1.

(** [packagesByName], in insertion order; [{...(old || {}), ...record}]. *)
Fixpoint set_entry (k : jstr) (r : crate) (m : list (jstr * crate)) : list (jstr * crate) :=
  match m with
  | [] => [(k, r)]
  | (k', old) :: m => if (k' =? k)%js then (k', r ∪ old) :: m else (k', old) :: set_entry k r m
  end.

(** The first loop sets the records as they are. *)
Fixpoint put_entry (k : jstr) (r : crate) (m : list (jstr * crate)) : list (jstr * crate) :=
  match m with
  | [] => [(k, r)]
  | (k', old) :: m => if (k' =? k)%js then (k', r) :: m else (k', old) :: put_entry k r m
  end.

Definition keyed (f : jstr -> crate -> list (jstr * crate) -> list (jstr * crate)) (m : list (jstr * crate)) (r : crate) : list (jstr * crate) :=
  if nonempty (crate_key r) then f (crate_key r) r m else m.

Definition public_name (names : gset jstr) (r : crate) : gset jstr :=
  if nonempty (crate_key r) then {[crate_key r]} ∪ names else names.

Definition managed_name (names : gset jstr) (r : crate) : gset jstr :=
  if nonempty (crate_key r) && negb (is_archived r) then {[crate_key r]} ∪ names else names.

Definition by_name (a b : crate) : Z := locale_compare (crate_key a) (crate_key b).

Definition mergeCargoPackageRecords (publicPackages managedPackages : list crate) (reset : bool) (c : catalog) : catalog :=
  let records := if reset then [] else activePackageList c in
  let packagesByName := fold_left (keyed put_entry) records [] in
  let packagesByName := fold_left (keyed set_entry) publicPackages packagesByName in
  let packagesByName := fold_left (keyed set_entry) managedPackages packagesByName in
  mk_catalog (array_sort by_name (map snd packagesByName))
    (fold_left managed_name managedPackages (fold_left public_name publicPackages (activePublicPackageNames c)))
    (activePublicPackageTotal c) (activeCatalogPage c).

(** The end of [loadCargoCatalog]. *)
Definition catalog_loaded (crates : list crate) (total : nat) (managed : list crate) (c : catalog) : catalog :=
  mergeCargoPackageRecords crates managed true (mk_catalog (activePackageList c) ∅ total 1).

(** [loadMoreCargoPackages] once its page has come. *)
Definition more_loaded (nextPage : nat) (crates : list crate) (total : nat) (c : catalog) : catalog :=
  mergeCargoPackageRecords crates [] false
    (mk_catalog (activePackageList c) (activePublicPackageNames c) (max (activePublicPackageTotal c) total) nextPage).

Definition can_load_more (c : catalog) : bool := size (activePublicPackageNames c) <? activePublicPackageTotal c.

Definition cargoCatalogCount (c : catalog) : nat :=
  activePublicPackageTotal c +
  length (List.filter (fun r => nonempty (crate_key r) && is_archived r && negb (bool_decide (crate_key r ∈ activePublicPackageNames c)))
            (activePackageList c)).

(** ** A row of the list *)
Inductive crate_badge := Archived | FromMirror | Level (n : Z) | MaxVersion (v : jstr).

Record crate_row := { crate_name : jstr; crate_description : option jstr; crate_badges : list crate_badge }.   (* [None]: no description *)

Definition buildCargoPackageRow (r : crate) : crate_row := {|
  crate_name := text_field "name" r;
  crate_description := if nonempty (text_field "description" r) then Some (text_field "description" r) else None;
  crate_badges :=
    (if truthy (r !! js "archived") then [Archived] else []) ++
    (if truthy (r !! js "mirrored") then [FromMirror] else []) ++
    (match r !! js "permission_level" with Some (JNum z) => if (0 <? z)%Z then [Level z] else [] | _ => [] end) ++
    (if nonempty (text_field "max_version" r) then [MaxVersion (text_field "max_version" r)] else [])
|}.

(** The section of the overview: its count, its rows, and whether the button that loads more is there. *)
Definition buildCargoCatalogSection (c : catalog) : nat * list crate_row * bool :=
  (cargoCatalogCount c, map buildCargoPackageRow (activePackageList c),
   negb (length (activePackageList c) =? 0) && can_load_more c).

(** ** Pages of a registry *)
Definition registry_page (public : list crate) (page : nat) : list crate :=
  take CARGO_CATALOG_PAGE_SIZE (drop (CARGO_CATALOG_PAGE_SIZE * (page - 1)) public).

Definition first_load (public managed : list crate) (c : catalog) : catalog :=
  catalog_loaded (registry_page public 1) (length public) managed c.

(** A press of the button, where there is one. *)
Definition press (public : list crate) (c : catalog) : catalog :=
  if can_load_more c then more_loaded (S (activeCatalogPage c)) (registry_page public (S (activeCatalogPage c))) (length public) c else c.

(** What the server holds: records with names, each once; the packages that a user manages and that are not archived are
    public. *)
Record registry_ok (public managed : list crate) : Prop := {
  public_distinct : NoDup (map crate_key public);
  public_named : Forall (fun r => nonempty (crate_key r) = true) public;
  managed_distinct : NoDup (map crate_key managed);
  managed_named : Forall (fun r => nonempty (crate_key r) = true) managed;
  managed_public : forall r, r ∈ managed -> is_archived r = false -> crate_key r ∈ map crate_key public;
  archived_private : forall r, r ∈ managed -> is_archived r = true -> crate_key r ∉ map crate_key public
}.

(** ** Lemmas *)
Definition keys_of (m : list (jstr * crate)) : list jstr := map fst m.

(** Every entry is at its record's own key. *)
Definition own_keys (m : list (jstr * crate)) : Prop := Forall (fun e => crate_key e.2 = e.1) m.

Lemma crate_key_union r old : nonempty (crate_key r) = true -> crate_key (r ∪ old) = crate_key r.
Proof.
  unfold crate_key, text_field. rewrite lookup_union. destruct (r !! js "name") as [v|]; [|done].
  intros _. by rewrite union_Some_l.
Qed.

Lemma set_entry_keys k r m j : j ∈ keys_of (set_entry k r m) <-> j = k \/ j ∈ keys_of m.
Proof.
  unfold keys_of. induction m as [|[k' old] m IH]; cbn [set_entry map fst]; [set_solver|].
  case_bool_decide; cbn [map fst]; rewrite !elem_of_cons; [set_solver|]. rewrite IH. set_solver.
Qed.

Lemma put_entry_keys k r m j : j ∈ keys_of (put_entry k r m) <-> j = k \/ j ∈ keys_of m.
Proof.
  unfold keys_of. induction m as [|[k' old] m IH]; cbn [put_entry map fst]; [set_solver|].
  case_bool_decide; cbn [map fst]; rewrite !elem_of_cons; [set_solver|]. rewrite IH. set_solver.
Qed.

Lemma set_entry_ok k r m : nonempty k = true -> crate_key r = k -> NoDup (keys_of m) -> own_keys m ->
  NoDup (keys_of (set_entry k r m)) /\ own_keys (set_entry k r m).
Proof.
  intros Hk Hr. induction m as [|[k' old] m IH]; intros Hd Ho; cbn [set_entry].
  - split; [apply NoDup_singleton|by repeat constructor].
  - inversion_clear Ho as [|? ? Ho1 Ho2]. cbn [keys_of map fst] in Hd. apply NoDup_cons in Hd as [Hn Hd].
    case_bool_decide as E; cbn [keys_of map fst].
    + split; [by apply NoDup_cons|]. constructor; [|done]. cbn [fst snd] in *. rewrite E, crate_key_union; [done|by rewrite Hr].
    + destruct (IH Hd Ho2) as [H1 H2]. split; [|by constructor]. apply NoDup_cons. split; [|done].
      change (map fst (set_entry k r m)) with (keys_of (set_entry k r m)). rewrite set_entry_keys. intros [->|?]; done.
Qed.

Lemma put_entry_ok k r m : crate_key r = k -> NoDup (keys_of m) -> own_keys m ->
  NoDup (keys_of (put_entry k r m)) /\ own_keys (put_entry k r m).
Proof.
  intros Hr. induction m as [|[k' old] m IH]; intros Hd Ho; cbn [put_entry].
  - split; [apply NoDup_singleton|by repeat constructor].
  - inversion_clear Ho as [|? ? Ho1 Ho2]. cbn [keys_of map fst] in Hd. apply NoDup_cons in Hd as [Hn Hd].
    case_bool_decide as E; cbn [keys_of map fst].
    + split; [by apply NoDup_cons|]. constructor; [|done]. cbn [fst snd] in *. by subst.
    + destruct (IH Hd Ho2) as [H1 H2]. split; [|by constructor]. apply NoDup_cons. split; [|done].
      change (map fst (put_entry k r m)) with (keys_of (put_entry k r m)). rewrite put_entry_keys. intros [->|?]; done.
Qed.

(** A loop over records adds their keys. *)
Lemma keyed_loop f l m :
  (forall k r m, nonempty k = true -> crate_key r = k -> NoDup (keys_of m) -> own_keys m -> NoDup (keys_of (f k r m)) /\ own_keys (f k r m)) ->
  (forall k r m j, j ∈ keys_of (f k r m) <-> j = k \/ j ∈ keys_of m) ->
  NoDup (keys_of m) -> own_keys m ->
  let n := fold_left (keyed f) l m in
  NoDup (keys_of n) /\ own_keys n /\
  forall j, j ∈ keys_of n <-> (exists r, r ∈ l /\ nonempty (crate_key r) = true /\ crate_key r = j) \/ j ∈ keys_of m.
Proof.
  intros Hf Hk. revert m. induction l as [|r l IH]; intros m Hd Ho; cbn [fold_left].
  - split_and!; [done..|]. intros j. split; [by right|]. intros [(r & ?%not_elem_of_nil & _)|]; done.
  - assert (H1 : NoDup (keys_of (keyed f m r)) /\ own_keys (keyed f m r)).
    { unfold keyed. destruct (nonempty (crate_key r)) eqn:E; [by apply Hf|done]. }
    destruct (IH (keyed f m r) (proj1 H1) (proj2 H1)) as (H2 & H3 & H4). split_and!; [done..|]. intros j. rewrite H4.
    unfold keyed. setoid_rewrite elem_of_cons. destruct (nonempty (crate_key r)) eqn:E; [rewrite Hk|]; clear -E; naive_solver congruence.
Qed.

(** An entry outside the public names is archived, if the records that come are. *)
Definition settled_entry (P : jstr -> Prop) (k : jstr) (r : crate) : Prop := P k \/ is_archived r = true.

Lemma archived_union r old : is_archived r = true -> is_archived (r ∪ old) = true.
Proof.
  unfold is_archived. rewrite !bool_decide_eq_true, lookup_union. intros ->. apply union_Some_l.
Qed.

Lemma set_entry_settled P k r m : settled_entry P k r -> Forall (fun e => settled_entry P e.1 e.2) m ->
  Forall (fun e => settled_entry P e.1 e.2) (set_entry k r m).
Proof.
  intros Hr. induction 1 as [|[k' old] m He Hm IH]; cbn [set_entry]; [by apply Forall_singleton|].
  case_bool_decide as E; constructor; try done. cbn [fst snd] in *. subst. destruct Hr as [Hr|Hr]; [by left|right; by apply archived_union].
Qed.

Lemma put_entry_settled P k r m : settled_entry P k r -> Forall (fun e => settled_entry P e.1 e.2) m ->
  Forall (fun e => settled_entry P e.1 e.2) (put_entry k r m).
Proof.
  intros Hr. induction 1 as [|[k' old] m He Hm IH]; cbn [put_entry]; [by apply Forall_singleton|].
  case_bool_decide as E; constructor; try done. cbn [fst snd] in *. by subst.
Qed.

Lemma keyed_settled P f l m :
  (forall k r m, settled_entry P k r -> Forall (fun e => settled_entry P e.1 e.2) m -> Forall (fun e => settled_entry P e.1 e.2) (f k r m)) ->
  Forall (fun r => settled_entry P (crate_key r) r) l -> Forall (fun e => settled_entry P e.1 e.2) m ->
  Forall (fun e => settled_entry P e.1 e.2) (fold_left (keyed f) l m).
Proof.
  intros Hf Hl. revert m. induction Hl as [|r l Hr Hl IH]; intros m Hm; cbn [fold_left]; [done|]. apply IH. unfold keyed.
  destruct (nonempty (crate_key r)); [by apply Hf|done].
Qed.

(** ** Lemmas: merging *)
Record listed_ok (P : jstr -> Prop) (l : list crate) : Prop := {
  listed_distinct : NoDup (map crate_key l);
  listed_named : Forall (fun r => nonempty (crate_key r) = true) l;
  listed_settled : Forall (fun r => settled_entry P (crate_key r) r) l
}.

Lemma own_keys_map m : own_keys m -> map crate_key (map snd m) = keys_of m.
Proof. intros Ho. unfold keys_of. rewrite map_map. apply map_ext_in. intros e He%list_elem_of_In. by apply (proj1 (Forall_forall _ _) Ho). Qed.

(** The keys of a merge, its records being distinct and named. *)
Lemma merge_spec P pubs mans reset c : (reset = false -> listed_ok P (activePackageList c)) ->
  Forall (fun r => nonempty (crate_key r) = true) pubs -> Forall (fun r => settled_entry P (crate_key r) r) pubs ->
  Forall (fun r => nonempty (crate_key r) = true) mans -> Forall (fun r => settled_entry P (crate_key r) r) mans ->
  let c' := mergeCargoPackageRecords pubs mans reset c in
  listed_ok P (activePackageList c') /\
  forall j, j ∈ map crate_key (activePackageList c') <->
    j ∈ map crate_key pubs \/ j ∈ map crate_key mans \/ reset = false /\ j ∈ map crate_key (activePackageList c).
Proof.
  intros Hl Hp Hps Hm Hms. cbv zeta. unfold mergeCargoPackageRecords. cbn [activePackageList].
  set (records := if reset then [] else activePackageList c).
  assert (Hr : listed_ok P records) by (subst records; destruct reset; [split; constructor|by apply Hl]).
  set (m1 := fold_left (keyed put_entry) records []). set (m2 := fold_left (keyed set_entry) pubs m1).
  set (m3 := fold_left (keyed set_entry) mans m2).
  destruct (keyed_loop put_entry records []) as (A1 & A2 & A3);
    [by intros; apply put_entry_ok|intros; apply put_entry_keys|apply NoDup_nil_2|constructor|]. fold m1 in A1, A2, A3.
  destruct (keyed_loop set_entry pubs m1) as (B1 & B2 & B3); [by intros; apply set_entry_ok|intros; apply set_entry_keys|done|done|].
  fold m2 in B1, B2, B3.
  destruct (keyed_loop set_entry mans m2) as (C1 & C2 & C3); [by intros; apply set_entry_ok|intros; apply set_entry_keys|done|done|].
  fold m3 in C1, C2, C3.
  assert (S3 : Forall (fun e => settled_entry P e.1 e.2) m3).
  { apply keyed_settled; [apply set_entry_settled|done|]. apply keyed_settled; [apply set_entry_settled|done|].
    apply keyed_settled; [apply put_entry_settled|apply Hr|constructor]. }
  assert (Hperm : array_sort by_name (map snd m3) ≡ₚ map snd m3) by apply array_sort_perm.
  assert (Hkeys : map crate_key (array_sort by_name (map snd m3)) ≡ₚ keys_of m3) by by rewrite Hperm, own_keys_map.
  assert (Hin : forall l j, Forall (fun r => nonempty (crate_key r) = true) l ->
    (exists r, r ∈ l /\ nonempty (crate_key r) = true /\ crate_key r = j) <-> j ∈ map crate_key l).
  { intros l j Hf. rewrite list_elem_of_fmap. rewrite Forall_forall in Hf. split; [intros (r & H1 & _ & <-)|intros (r & -> & H1)]; exists r; auto. }
  assert (Hk3 : forall j, j ∈ keys_of m3 <-> j ∈ map crate_key pubs \/ j ∈ map crate_key mans \/ j ∈ map crate_key records).
  { intros j. rewrite C3, B3, A3, !Hin by (done || apply Hr). unfold keys_of. cbn [map]. rewrite elem_of_nil. tauto. }
  split; [split|].
  - by rewrite Hkeys.
  - apply Forall_forall. intros r Hr'. rewrite Hperm in Hr'. apply list_elem_of_fmap in Hr' as (e & -> & He).
    rewrite (proj1 (Forall_forall _ _) C2 e He). assert (He' : e.1 ∈ keys_of m3) by (apply list_elem_of_fmap; eauto).
    apply Hk3 in He' as [He'|[He'|He']]; apply list_elem_of_fmap in He' as (r & -> & Hr');
      [exact (proj1 (Forall_forall _ _) Hp r Hr')|exact (proj1 (Forall_forall _ _) Hm r Hr')|
       exact (proj1 (Forall_forall _ _) (listed_named _ _ Hr) r Hr')].
  - apply Forall_forall. intros r Hr'. rewrite Hperm in Hr'. apply list_elem_of_fmap in Hr' as (e & -> & He).
    rewrite (proj1 (Forall_forall _ _) C2 e He). by apply (proj1 (Forall_forall _ _) S3).
  - intros j. rewrite Hkeys, Hk3. subst records. destruct reset; cbn [map]; rewrite ?elem_of_nil; intuition congruence.
Qed.

Lemma public_names_spec l names j : j ∈ fold_left public_name l names <->
  j ∈ names \/ exists r, r ∈ l /\ nonempty (crate_key r) = true /\ crate_key r = j.
Proof.
  revert names. induction l as [|r l IH]; intros names; cbn [fold_left]; [set_solver|]. rewrite IH. unfold public_name.
  setoid_rewrite elem_of_cons. destruct (nonempty (crate_key r)) eqn:E; [rewrite elem_of_union, elem_of_singleton|]; clear IH; naive_solver congruence.
Qed.

Lemma managed_names_spec l names j : j ∈ fold_left managed_name l names <->
  j ∈ names \/ exists r, r ∈ l /\ nonempty (crate_key r) = true /\ is_archived r = false /\ crate_key r = j.
Proof.
  revert names. induction l as [|r l IH]; intros names; cbn [fold_left]; [set_solver|]. rewrite IH. unfold managed_name.
  setoid_rewrite elem_of_cons. destruct (nonempty (crate_key r)) eqn:E, (is_archived r) eqn:E2; cbn [andb negb];
    [|rewrite elem_of_union, elem_of_singleton| |]; clear IH; naive_solver congruence.
Qed.

(** ** The catalog after some pages *)
Section registry.
Variables (public managed : list crate).
Hypothesis Hreg : registry_ok public managed.

Definition is_public (j : jstr) : Prop := j ∈ map crate_key public.

Record catalog_ok (k : nat) (c : catalog) : Prop := {
  ok_list : listed_ok is_public (activePackageList c);
  ok_keys : forall j, j ∈ map crate_key (activePackageList c) <->
    j ∈ map crate_key (take (CARGO_CATALOG_PAGE_SIZE * k) public) \/ j ∈ map crate_key managed;
  ok_names : forall j, j ∈ activePublicPackageNames c <->
    j ∈ map crate_key (take (CARGO_CATALOG_PAGE_SIZE * k) public) \/ j ∈ map crate_key (List.filter (fun r => negb (is_archived r)) managed);
  ok_total : activePublicPackageTotal c = length public;
  ok_page : activeCatalogPage c = k
}.

Lemma page_records k r : r ∈ registry_page public k -> r ∈ public.
Proof.
  unfold registry_page. intros (i & Hi)%list_elem_of_lookup. apply lookup_take_Some in Hi as [Hi _]. rewrite lookup_drop in Hi.
  by eapply list_elem_of_lookup_2.
Qed.

Lemma page_named k : Forall (fun r => nonempty (crate_key r) = true) (registry_page public k).
Proof. apply Forall_forall. intros r Hr%page_records. exact (proj1 (Forall_forall _ _) (public_named _ _ Hreg) r Hr). Qed.

Lemma page_settled k : Forall (fun r => settled_entry is_public (crate_key r) r) (registry_page public k).
Proof. apply Forall_forall. intros r Hr%page_records. left. apply list_elem_of_fmap. eauto. Qed.

Lemma managed_settled : Forall (fun r => settled_entry is_public (crate_key r) r) managed.
Proof.
  apply Forall_forall. intros r Hr. destruct (is_archived r) eqn:E; [by right|left]. by apply (managed_public _ _ Hreg).
Qed.

Lemma named_keys l j : Forall (fun r => nonempty (crate_key r) = true) l ->
  (exists r, r ∈ l /\ nonempty (crate_key r) = true /\ crate_key r = j) <-> j ∈ map crate_key l.
Proof.
  intros Hf. rewrite list_elem_of_fmap. rewrite Forall_forall in Hf. split; [intros (r & H1 & _ & <-)|intros (r & -> & H1)]; exists r; auto.
Qed.

Lemma managed_keys j : (exists r, r ∈ managed /\ nonempty (crate_key r) = true /\ is_archived r = false /\ crate_key r = j) <->
  j ∈ map crate_key (List.filter (fun r => negb (is_archived r)) managed).
Proof.
  rewrite list_elem_of_fmap. pose proof (proj1 (Forall_forall _ _) (managed_named _ _ Hreg)) as Hn. split.
  - intros (r & H1 & H2 & H3 & <-). exists r. split; [done|]. apply elem_of_Lfilter. by rewrite H3.
  - intros (r & -> & [H1 H2]%elem_of_Lfilter). exists r. split_and!; [done|by apply Hn|by apply negb_true_iff|done].
Qed.

Lemma pages_taken k : take (CARGO_CATALOG_PAGE_SIZE * S k) public = take (CARGO_CATALOG_PAGE_SIZE * k) public ++ registry_page public (S k).
Proof.
  unfold registry_page. replace (S k - 1) with k by lia. rewrite take_take_drop. f_equal. unfold CARGO_CATALOG_PAGE_SIZE. lia.
Qed.

Lemma first_load_ok c : catalog_ok 1 (first_load public managed c).
Proof.
  unfold first_load, catalog_loaded.
  destruct (merge_spec is_public (registry_page public 1) managed true (mk_catalog (activePackageList c) ∅ (length public) 1)) as [M1 M2];
    [done|apply page_named|apply page_settled|apply Hreg|apply managed_settled|].
  assert (E : registry_page public 1 = take (CARGO_CATALOG_PAGE_SIZE * 1) public).
  { by rewrite (pages_taken 0), Nat.mul_0_r, take_0. }
  split; [done| | |done|done].
  - intros j. rewrite M2, <- E. intuition congruence.
  - intros j. cbn [mergeCargoPackageRecords activePublicPackageNames]. rewrite managed_names_spec, public_names_spec, managed_keys.
    rewrite named_keys by apply page_named. rewrite <- E. set_solver.
Qed.

Lemma press_ok k c : catalog_ok k c -> can_load_more c = true -> catalog_ok (S k) (press public c).
Proof.
  intros [K1 K2 K3 K4 K5] Hm. unfold press. rewrite Hm, K5. unfold more_loaded.
  destruct (merge_spec is_public (registry_page public (S k)) [] false
              (mk_catalog (activePackageList c) (activePublicPackageNames c) (max (activePublicPackageTotal c) (length public)) (S k))) as [M1 M2];
    [done|apply page_named|apply page_settled|constructor|constructor|].
  split; [done| | | |done].
  - intros j. rewrite M2. cbn [activePackageList map]. rewrite K2, pages_taken, map_app, elem_of_app, elem_of_nil. intuition congruence.
  - intros j. cbn [mergeCargoPackageRecords activePublicPackageNames fold_left]. rewrite public_names_spec, K3.
    rewrite named_keys by apply page_named. rewrite pages_taken, map_app, elem_of_app. intuition congruence.
  - cbn [mergeCargoPackageRecords activePublicPackageTotal]. rewrite K4. lia.
Qed.

(** Names are public ones. *)
Lemma names_public k c : catalog_ok k c -> activePublicPackageNames c ⊆ list_to_set (map crate_key public).
Proof.
  intros K j. rewrite (ok_names _ _ K), elem_of_list_to_set. intros [Hj|Hj].
  - apply list_elem_of_fmap in Hj as (r & -> & Hr). apply list_elem_of_fmap. exists r. split; [done|].
    apply list_elem_of_lookup in Hr as [i Hi]. apply lookup_take_Some in Hi as [Hi _]. by eapply list_elem_of_lookup_2.
  - apply list_elem_of_fmap in Hj as (r & -> & [Hr Ha]%elem_of_Lfilter). apply (managed_public _ _ Hreg); [done|by apply negb_true_iff].
Qed.

Lemma public_size : size (list_to_set (map crate_key public) : gset jstr) = length public.
Proof. rewrite size_list_to_set by apply Hreg. apply length_map. Qed.

Lemma complete_names k c : catalog_ok k c -> can_load_more c = false ->
  activePublicPackageNames c = list_to_set (map crate_key public).
Proof.
  intros K Hm. unfold can_load_more in Hm. rewrite (ok_total _ _ K) in Hm. apply Nat.ltb_ge in Hm.
  apply leibniz_equiv, set_subseteq_size_equiv; [by apply (names_public k)|by rewrite public_size].
Qed.

Lemma all_pages_complete k c : catalog_ok k c -> length public <= CARGO_CATALOG_PAGE_SIZE * k -> can_load_more c = false.
Proof.
  intros K Hk. unfold can_load_more. rewrite (ok_total _ _ K). apply Nat.ltb_ge. rewrite <- public_size.
  apply subseteq_size. intros j. rewrite elem_of_list_to_set, (ok_names _ _ K), take_ge by done. by left.
Qed.

Lemma presses_ok n c : catalog_ok 1 c -> exists k, k <= S n /\ catalog_ok k (Nat.iter n (press public) c) /\
  (can_load_more (Nat.iter n (press public) c) = true -> k = S n).
Proof.
  intros Hc. induction n as [|n (k & Hk & K & Hm)]; [exists 1; auto|]. cbn [Nat.iter nat_rect].
  change (nat_rect _ _ _ n) with (Nat.iter n (press public) c) in *. set (d := Nat.iter n (press public) c) in *.
  destruct (can_load_more d) eqn:E.
  - exists (S k). rewrite (Hm eq_refl) in *. split_and!; [lia|by apply press_ok|done].
  - exists k. assert (Hp : press public d = d) by (unfold press; by rewrite E). rewrite Hp, E. split_and!; [lia|done|done].
Qed.

(** ** A complete catalog *)
Lemma complete_keys k c : catalog_ok k c -> can_load_more c = false ->
  map crate_key (activePackageList c) ≡ₚ map crate_key (public ++ List.filter is_archived managed).
Proof.
  intros K Hm. apply NoDup_Permutation.
  - apply (ok_list _ _ K).
  - rewrite map_app. apply NoDup_app. split_and!; [apply Hreg| |].
    + intros j Hj (r & -> & [Hr Ha]%elem_of_Lfilter)%list_elem_of_fmap. by apply (archived_private _ _ Hreg r).
    + eapply sublist_NoDup; [apply (managed_distinct _ _ Hreg)|]. clear. induction managed as [|r l IH]; [done|]. cbn [List.filter].
      destruct (is_archived r); cbn [map]; [by apply sublist_skip|by apply sublist_cons].
  - intros j. pose proof (complete_names k c K Hm) as Hn. rewrite map_app, elem_of_app. split.
    + intros [Hj|Hj]%(ok_keys _ _ K).
      * left. apply list_elem_of_fmap in Hj as (r & -> & Hr). apply list_elem_of_fmap. exists r. split; [done|].
        apply list_elem_of_lookup in Hr as [i Hi]. apply lookup_take_Some in Hi as [Hi _]. by eapply list_elem_of_lookup_2.
      * apply list_elem_of_fmap in Hj as (r & -> & Hr). destruct (is_archived r) eqn:E.
        -- right. apply list_elem_of_fmap. exists r. split; [done|]. by apply elem_of_Lfilter.
        -- left. by apply (managed_public _ _ Hreg).
    + intros [Hj|Hj]; apply (ok_keys _ _ K).
      * assert (Hj' : j ∈ activePublicPackageNames c) by by rewrite Hn, elem_of_list_to_set.
        apply (ok_names _ _ K) in Hj' as [?|(r & -> & [Hr _]%elem_of_Lfilter)%list_elem_of_fmap]; [by left|right].
        apply list_elem_of_fmap. eauto.
      * right. apply list_elem_of_fmap in Hj as (r & -> & [Hr _]%elem_of_Lfilter). apply list_elem_of_fmap. eauto.
Qed.

Lemma complete_count k c : catalog_ok k c -> can_load_more c = false -> cargoCatalogCount c = length (activePackageList c).
Proof.
  intros K Hm. pose proof (complete_keys k c K Hm) as Hp. pose proof (complete_names k c K Hm) as Hn.
  set (private j := negb (bool_decide (j ∈ map crate_key public))).
  assert (Hf : length (List.filter private (map crate_key (activePackageList c))) = length (List.filter is_archived managed)).
  { rewrite (filter_perm private _ _ Hp), map_app, List.filter_app.
    rewrite filter_none, filter_all; [cbn [app]; by rewrite length_map| |].
    - apply Forall_forall. intros j (r & -> & [Hr Ha]%elem_of_Lfilter)%list_elem_of_fmap. subst private. cbv beta.
      rewrite bool_decide_eq_false_2; [done|]. by apply (archived_private _ _ Hreg).
    - apply Forall_forall. intros j Hj. subst private. cbv beta. by rewrite bool_decide_eq_true_2. }
  apply Permutation_length in Hp. rewrite !length_map, length_app in Hp. unfold cargoCatalogCount. rewrite (ok_total _ _ K), Hp. f_equal.
  rewrite <- Hf. clear Hf Hp. pose proof (listed_named _ _ (ok_list _ _ K)) as H1. pose proof (listed_settled _ _ (ok_list _ _ K)) as H2.
  rewrite Hn. induction (activePackageList c) as [|r l IH]; [done|]. inversion_clear H1 as [|? ? N1 N2]. inversion_clear H2 as [|? ? S1 S2].
  cbn [List.filter map]. rewrite N1. cbn [andb].
  assert (E : is_archived r && negb (bool_decide (crate_key r ∈@{gset jstr} list_to_set (map crate_key public))) = private (crate_key r)).
  { subst private. cbv beta. rewrite (bool_decide_ext _ (crate_key r ∈ map crate_key public)) by apply elem_of_list_to_set.
    case_bool_decide as Hj; [by rewrite andb_false_r|]. destruct S1 as [S1|S1]; [done|by rewrite S1]. }
  rewrite E. destruct (private (crate_key r)); cbn [length]; rewrite IH by done; done.
Qed.

End registry.

Lemma merge_sorted {HL : CollationLaws} pubs mans reset c :
  StronglySorted (cmp_le by_name) (activePackageList (mergeCargoPackageRecords pubs mans reset c)).
Proof.
  apply array_sort_sorted; unfold cmp_le, by_name.
  - intros a b _ _. pose proof (locale_antisym (crate_key a) (crate_key b)). lia.
  - intros a b x _ _ _. apply locale_trans.
Qed.

Lemma presses_sorted {HL : CollationLaws} public managed n c :
  StronglySorted (cmp_le by_name) (activePackageList (Nat.iter n (press public) (first_load public managed c))).
Proof.
  induction n as [|n IH]; [apply merge_sorted|]. cbn [Nat.iter nat_rect]. unfold press at 1.
  destruct (can_load_more _); [apply merge_sorted|exact IH].
Qed.
End catalog.

(** ** Properties *)
Module Examples.
#[local] Existing Instance latin_case.
#[local] Existing Instance unit_collation.

Definition a_crate (k : nat) : crate := {[js "name" := JStr (js "crate_" ++ show_Z (Z.of_nat k))]}.
Definition an_archived : crate := <[js "archived" := JBool true]> {[js "name" := JStr (js "Old-One")]}.
Definition my_crate : crate := <[js "permission_level" := JNum 3]> {[js "name" := JStr (js "Crate-7")]}.

Definition registry : list crate := map a_crate (seq 0 60).
Definition mine : list crate := [my_crate; an_archived].

Lemma shown_registry :
  let c := first_load registry mine empty_catalog in
  (cargoCatalogCount c, length (activePackageList c), can_load_more c) = (61, 51, true) /\
  let d := press registry c in
  (cargoCatalogCount d, length (activePackageList d), can_load_more d) = (61, 61, false).
Proof. vm_compute. done. Qed.
End Examples.

Section properties.
Context {UC : UnicodeCase} `{Collation} {HL : CollationLaws}.

(** C35: pressing the button that loads more goes on until every page of the registry has come and not longer; once the
    button is gone, the list has every public crate and every archived one that the user manages, each once, in the order
    of their names, and its count is its length.  Records of both sources are merged by normalized name. *)
Theorem cargo_catalog_complete public managed before n :
  registry_ok public managed ->
  let c := Nat.iter n (press public) (first_load public managed before) in
  (length public <= CARGO_CATALOG_PAGE_SIZE * S n -> can_load_more c = false) /\
  StronglySorted (cmp_le by_name) (activePackageList c) /\ NoDup (map crate_key (activePackageList c)) /\
  (can_load_more c = false ->
     map crate_key (activePackageList c) ≡ₚ map crate_key (public ++ List.filter is_archived managed) /\
     cargoCatalogCount c = length (activePackageList c)).
Proof.
  intros Hreg. cbv zeta. destruct (presses_ok public managed Hreg n _ (first_load_ok public managed Hreg before)) as (k & Hk & K & Hm).
  split_and!.
  - intros Hlen. destruct (can_load_more _) eqn:E; [|done]. rewrite (Hm eq_refl) in K.
    by rewrite (all_pages_complete public managed Hreg _ _ K Hlen) in E.
  - apply presses_sorted.
  - apply (ok_list _ _ _ _ K).
  - intros E. split; [by eapply complete_keys|by eapply complete_count].
Qed.
End properties.

Lemma cargo_catalog_complete_witness :
  @registry_ok latin_case Examples.registry Examples.mine /\
  @can_load_more (Nat.iter 1 (@press latin_case unit_collation Examples.registry)
                    (@first_load latin_case unit_collation Examples.registry Examples.mine empty_catalog)) = false.
Proof.
  assert (Hreg : @registry_ok latin_case Examples.registry Examples.mine).
  { split; [refine (proj1 (bool_decide_eq_true _) _); vm_compute; reflexivity..| |].
    - intros r Hr Ha. apply elem_of_cons in Hr as [->|[->|?%not_elem_of_nil]%elem_of_cons]; [|by vm_compute in Ha|done].
      refine (proj1 (bool_decide_eq_true _) _); vm_compute; reflexivity.
    - intros r Hr Ha. apply elem_of_cons in Hr as [->|[->|?%not_elem_of_nil]%elem_of_cons]; [by vm_compute in Ha| |done].
      refine (proj1 (bool_decide_eq_true _) _); vm_compute; reflexivity. }
  split; [exact Hreg|].
  refine (proj1 (@cargo_catalog_complete latin_case unit_collation unit_collation_laws Examples.registry Examples.mine empty_catalog 1 Hreg) _).
  vm_compute. repeat constructor.
Defined.
