(* ===== verification/CargoRepository.v ===== *)
(** * The pages of a Cargo repository

    [internal/service/frontend/renop-html/js/browser/cargo.js]: the routes of a registry, their loads, and the operations of
    a package page with their confirmations, requests and refreshes, any of which the user can leave before it ends.  The
    catalog is [CargoCatalog]'s and the page of a crate [CargoPage]'s.  Buttons stay disabled while their own operation
    runs; the events here also cover a second press.  A page is replaced when its animation begins ([morphElementHeight] calls
    its mutation at once), and the end of the animation is an event of its own, which takes the busy mark away: after
    [replaceRepositoryView] whatever is loading by then, after more of a list only with the sequence it began with. *)
From S2P Require Import Prelude JsString JsUri JsJson BrowserUtils PackageParts Markdown CargoPage CargoCatalog.

(** ** Routes *)
Inductive route := OverviewRoute | PackageRoute (n : jstr) | UnknownRoute.

(** The repository and the route of a path; [None]: no part. *)
Definition cargo_route (path : jstr) : option (jstr * route) :=
  match map decodePathSegment (path_parts path) with
  | [] => None
  | [repo] => Some (repo, OverviewRoute)
  | [repo; p] => Some (repo, if (p =? js "packages")%js then OverviewRoute else UnknownRoute)
  | [repo; p; n] => Some (repo, if (p =? js "packages")%js && nonempty n then PackageRoute n else UnknownRoute)
  | repo :: _ => Some (repo, UnknownRoute)
  end.

(** [cargoPagePath]; [None]: a lone surrogate. *)
Definition cargoPagePath (repo packageName : jstr) : option jstr :=
  r ← encodeURIComponent repo;
  n ← encodeURIComponent packageName;
  Some (if nonempty packageName then [47%N] ++ r ++ js "/packages/" ++ n else [47%N] ++ r ++ js "/packages").

(** The segments that [cargoAPIPath] encodes and joins. *)
Definition cargoAPIPath (repo : jstr) (segments : list jstr) : list jstr := [repo; js "api"; js "v1"] ++ segments.

(** ** Operations of a package page *)
Inductive verb := PUT | DELETE.

Inductive aftermath :=
| ThenRefresh
| ThenRefreshIfAdministrator
| ThenNavigate
| ThenSetLevel (generation : nat) (user : jstr) (l : nat).

(** An operation: the package its handler has read, or [None] when the package is read when the request is sent; the
    segments after the package's; whether a dialog comes first, and whether that dialog stays when the request fails. *)
Record plan := mk_plan {
  captured : option jstr;
  tail_segments : list jstr;
  plan_verb : verb;
  success : string;
  aftermath_of : aftermath;
  asks : bool;
  keeps_dialog : bool
}.

Definition find_member (user : jstr) (d : details) : option member := List.find (fun m => (login m =? user)%js) (members d).

(** [userID || username] *)
Definition member_segment (user : jstr) (d : details) : jstr :=
  match find_member user d with Some m => str_or (user_id m) user | None => user end.

Inductive press_button :=
| PressArchive
| PressDeletePackage
| PressDeprecate
| PressVersion (v : jstr) (b : version_button)
| PressUploadDocs
| PressRemoveMember (user : jstr)
| PressLevel (user : jstr) (l : nat)
| PressInvite (user : jstr) (l : nat).

Section cargo.
Context {UC : UnicodeCase} {CO : Collation} {UP : UrlParser}.

(** The button that a press needs on the page. *)
Definition needs (u : viewer) (d : details) (p : press_button) (b : page_button) : bool :=
  match p, b with
  | PressArchive, OfPackage (ArchivePackage _ disabled) => negb disabled
  | PressDeletePackage, OfPackage DeletePackage => true
  | PressDeprecate, OfPackage DeprecatePackage => true
  | PressVersion v b', OfVersion v' b =>
    (v =? v')%js && match b', b with
                    | UploadDocs, UploadDocs | DeleteDocs, DeleteDocs | DeleteVersion, DeleteVersion => true
                    | Yank _, Yank false | Unyank _, Unyank false => true
                    | _, _ => false
                    end
  | PressUploadDocs, UploadPackageDocs => true
  | PressRemoveMember user, ChangeLevel m => (user =? m)%js
  | PressRemoveMember user, Leave => (to_lower user =? currentUsername u)%js
  | PressLevel user _, ChangeLevel m => (user =? m)%js
  | PressInvite _ _, Invite => true
  | _, _ => false
  end.

(** [version || getSelectedVersion()?.version || versions[0]?.version || ''] *)
Definition docs_version (d : details) (v : jstr) (selected : jstr) : jstr :=
  str_or v (str_or (match fst (getSelectedVersion d selected) with Some x => version_id x | None => [] end)
              (match versions d with x :: _ => version_id x | [] => [] end)).

(** The operation of a press; [None]: the handler returns before it does anything. *)
Definition plan_of (u : viewer) (d : details) (generation : nat) (selected : jstr) (p : press_button) : option plan :=
  let n := Some (name (pkg d)) in
  match p with
  | PressArchive =>
    Some (mk_plan n [js "archive"] (if archived (pkg d) then DELETE else PUT)
            (if archived (pkg d) then "cargo.packageRestored" else "cargo.packageArchived") ThenRefresh false false)
  | PressDeletePackage => Some (mk_plan n [] DELETE "cargo.packageDeleted" ThenNavigate true false)
  | PressDeprecate => Some (mk_plan n [js "deprecate"] PUT "package.deprecatedSuccess" ThenRefresh true false)
  | PressVersion v (Yank _) => Some (mk_plan n [v; js "yank"] DELETE "cargo.versionYanked" ThenRefresh false false)
  | PressVersion v (Unyank _) => Some (mk_plan n [v; js "unyank"] PUT "cargo.versionRestored" ThenRefresh false false)
  | PressVersion v DeleteVersion => Some (mk_plan n [v] DELETE "cargo.versionDeleted" ThenRefresh true false)
  | PressVersion v DeleteDocs =>
    Some (mk_plan n [docs_version d v selected; js "docs"] DELETE "cargo.docsDeleted" ThenRefresh true false)
  | PressVersion v UploadDocs =>
    if nonempty (name (pkg d)) && nonempty (docs_version d v selected)
    then Some (mk_plan n [docs_version d v selected; js "docs"] PUT "cargo.docsUploaded" ThenRefresh true true) else None
  | PressVersion _ LockVersion => None
  | PressUploadDocs =>
    if nonempty (name (pkg d)) && nonempty (docs_version d [] selected)
    then Some (mk_plan n [docs_version d [] selected; js "docs"] PUT "cargo.docsUploaded" ThenRefresh true true) else None
  | PressRemoveMember user =>
    let isSelf := (to_lower user =? currentUsername u)%js in
    Some (mk_plan n [js "owners"; member_segment user d] DELETE (if isSelf then "team.left" else "cargo.memberRemoved")
            (if isSelf then ThenNavigate else ThenRefresh) true false)
  | PressLevel user l =>
    let previous := option_map level (find_member user d) in
    if (l <? 1)%nat || (4 <? l)%nat || bool_decide (previous = Some l) then None
    else
      let transfersOwnership := (l =? 4)%nat && (permission_level (pkg d) =? 4)%nat && negb (to_lower user =? currentUsername u)%js in
      Some (mk_plan None [js "owners"; member_segment user d] PUT "cargo.memberUpdated" (ThenSetLevel generation user l) transfersOwnership false)
  | PressInvite user l =>
    if nonempty (trim user) then Some (mk_plan None [js "owners"] PUT "cargo.inviteSent" ThenRefreshIfAdministrator false false) else None
  end%string.

(** ** State *)
Inductive screen :=
| Blank
| LoadingScreen
| ErrorScreen
| OverviewScreen (count : nat) (list : list crate_row) (more : bool)
| PackageScreen (p : cargo_page).

Inductive operation :=
| LoadCatalog (sequence : nat) (with_management : bool)
| LoadPackage (sequence : nat) (path : list jstr)
| LoadMorePackages (sequence nextPage : nat)
| Asking (p : plan)
| Requesting (p : plan) (path : list jstr)
| Refreshing (path : list jstr).

Inductive output :=
| Alert (k : string)
| Navigate (path : option jstr).

Record cargo := mk_cargo {
  cargoLoadSequence : nat;
  activeRepository : jstr;
  activeAdministrator : bool;
  activePackageDetails : option details;
  details_generation : nat;               (* which details object that is *)
  the_catalog : catalog;
  ui : choices;
  on_package : option bool;               (* [activeRouteKind]: a package, the overview, or an error *)
  can_navigate : bool;
  hidden : bool;
  busy : bool;
  shown : screen;
  animations : list (option nat);         (* that have not ended: of replaced pages, and of longer lists with their sequence *)
  operations : gmap nat operation;
  next : nat;
  outputs : list output;
  user_signed_in : bool;
  user_name : jstr
}.

Definition start (signed_in : bool) (user : jstr) : cargo :=
  mk_cargo 0 [] false None 0 empty_catalog (mk_choices [] 1 false (js "overview") CargoAdd) None false true false Blank [] ∅ 0 []
    signed_in user.

Definition set_cargo_view (kind : option bool) (hid bus : bool) (sc : screen) (s : cargo) : cargo :=
  mk_cargo (cargoLoadSequence s) (activeRepository s) (activeAdministrator s) (activePackageDetails s) (details_generation s)
    (the_catalog s) (ui s) kind (can_navigate s) hid bus sc (animations s) (operations s) (next s) (outputs s) (user_signed_in s) (user_name s).
Definition set_busy (b : bool) (s : cargo) : cargo := set_cargo_view (on_package s) (hidden s) b (shown s) s.
Definition set_ui (u : choices) (s : cargo) : cargo :=
  mk_cargo (cargoLoadSequence s) (activeRepository s) (activeAdministrator s) (activePackageDetails s) (details_generation s)
    (the_catalog s) u (on_package s) (can_navigate s) (hidden s) (busy s) (shown s) (animations s) (operations s) (next s) (outputs s)
    (user_signed_in s) (user_name s).
Definition set_details (d : option details) (admin : bool) (s : cargo) : cargo :=
  mk_cargo (cargoLoadSequence s) (activeRepository s) admin d (S (details_generation s)) (the_catalog s) (ui s) (on_package s)
    (can_navigate s) (hidden s) (busy s) (shown s) (animations s) (operations s) (next s) (outputs s) (user_signed_in s) (user_name s).
Definition set_catalog (c : catalog) (admin : bool) (s : cargo) : cargo :=
  mk_cargo (cargoLoadSequence s) (activeRepository s) admin (activePackageDetails s) (details_generation s) c (ui s) (on_package s)
    (can_navigate s) (hidden s) (busy s) (shown s) (animations s) (operations s) (next s) (outputs s) (user_signed_in s) (user_name s).
Definition set_operations (ops : gmap nat operation) (n : nat) (s : cargo) : cargo :=
  mk_cargo (cargoLoadSequence s) (activeRepository s) (activeAdministrator s) (activePackageDetails s) (details_generation s)
    (the_catalog s) (ui s) (on_package s) (can_navigate s) (hidden s) (busy s) (shown s) (animations s) ops n (outputs s) (user_signed_in s)
    (user_name s).
Definition output_of (o : output) (s : cargo) : cargo :=
  mk_cargo (cargoLoadSequence s) (activeRepository s) (activeAdministrator s) (activePackageDetails s) (details_generation s)
    (the_catalog s) (ui s) (on_package s) (can_navigate s) (hidden s) (busy s) (shown s) (animations s) (operations s) (next s)
    (outputs s ++ [o]) (user_signed_in s) (user_name s).
Definition set_route (sequence : nat) (repo : jstr) (navigate : bool) (s : cargo) : cargo :=
  mk_cargo sequence repo (activeAdministrator s) (activePackageDetails s) (details_generation s) (the_catalog s) (ui s)
    (on_package s) navigate (hidden s) (busy s) (shown s) (animations s) (operations s) (next s) (outputs s) (user_signed_in s) (user_name s).

Definition set_animations (l : list (option nat)) (s : cargo) : cargo :=
  mk_cargo (cargoLoadSequence s) (activeRepository s) (activeAdministrator s) (activePackageDetails s) (details_generation s)
    (the_catalog s) (ui s) (on_package s) (can_navigate s) (hidden s) (busy s) (shown s) l (operations s) (next s) (outputs s)
    (user_signed_in s) (user_name s).

(** An animation begins; [None]: by [replaceRepositoryView]. *)
Definition morph (a : option nat) (s : cargo) : cargo := set_animations (animations s ++ [a]) s.

Definition begin (op : operation) (s : cargo) : cargo := set_operations (<[next s := op]> (operations s)) (S (next s)) s.
Definition close (i : nat) (s : cargo) : cargo := set_operations (delete i (operations s)) (next s) s.

Definition the_viewer (s : cargo) : viewer := {| repository := activeRepository s; signed_in := user_signed_in s; username := user_name s |}.

(** ** Drawing *)
(** [renderCargoOverview] *)
Definition renderCargoOverview (s : cargo) : cargo :=
  let '(count, rows, more) := buildCargoCatalogSection (the_catalog s) in
  set_cargo_view (Some false) (hidden s) (busy s) (OverviewScreen count rows more) (set_details None (activeAdministrator s) s).

Definition render_package (s : cargo) : cargo :=
  match activePackageDetails s with
  | Some d =>
    let '(u, p) := renderCargoPackagePage (the_viewer s) d (ui s) in
    set_cargo_view (Some true) (hidden s) (busy s) (PackageScreen p) (set_ui u s)
  | None => s
  end.

Definition renderCargoError (s : cargo) : cargo := set_cargo_view None (hidden s) (busy s) ErrorScreen s.

Definition beginCargoRouteLoad (s : cargo) : cargo :=
  set_cargo_view (on_package s) (hidden s) true (match shown s with Blank => LoadingScreen | sc => sc end) s.

(** ** Loads *)
Definition loadCargoOverview (s : cargo) : cargo :=
  let s := set_details None (activeAdministrator s) s in
  let s := beginCargoRouteLoad (set_ui (set_page 1 (set_selected [] (ui s))) s) in
  begin (LoadCatalog (cargoLoadSequence s) (user_signed_in s)) s.

Definition loadCargoPackage (n : jstr) (s : cargo) : cargo :=
  let same := match activePackageDetails s with Some d => (name (pkg d) =? n)%js | None => false end in
  let u := if same then ui s else set_detail (js "overview") (ui s) in
  let s := beginCargoRouteLoad (set_ui (set_page 1 u) s) in
  begin (LoadPackage (cargoLoadSequence s) (cargoAPIPath (activeRepository s) [js "crates"; n])) s.

Definition hideCargoRepositoryView (s : cargo) : cargo :=
  let s := set_route (S (cargoLoadSequence s)) [] false (set_catalog empty_catalog false (set_details None false s)) in
  set_cargo_view (on_package s) true false Blank (set_ui (set_selected [] (set_page 1 (ui s))) s).

Definition renderCargoRepository (path : jstr) (is_cargo navigate : bool) (s : cargo) : cargo :=
  match (if is_cargo then cargo_route path else None) with
  | None => hideCargoRepositoryView s
  | Some (repo, r) =>
    let s := set_route (S (cargoLoadSequence s)) repo navigate s in
    let s := set_cargo_view (on_package s) false (busy s) (shown s) s in
    match r with
    | OverviewRoute => loadCargoOverview s
    | PackageRoute n => loadCargoPackage n s
    | UnknownRoute => renderCargoError s
    end
  end.

(** [refreshCargoPackagePage] up to its request. *)
Definition refreshCargoPackagePage (s : cargo) : cargo :=
  match activePackageDetails s with
  | Some d => begin (Refreshing (cargoAPIPath (activeRepository s) [js "crates"; name (pkg d)])) s
  | None => s
  end.

Definition set_member_level (user : jstr) (l : nat) (d : details) : details := {|
  pkg := pkg d; versions := versions d;
  members := map (fun m => if (login m =? user)%js then {| login := login m; user_id := user_id m; level := l; added_at := added_at m |} else m)
               (members d);
  administrator := administrator d; moderator := moderator d |}.

(** The same object, changed. *)
Definition alter_details (f : details -> details) (s : cargo) : cargo :=
  mk_cargo (cargoLoadSequence s) (activeRepository s) (activeAdministrator s) (option_map f (activePackageDetails s))
    (details_generation s) (the_catalog s) (ui s) (on_package s) (can_navigate s) (hidden s) (busy s) (shown s) (animations s) (operations s)
    (next s) (outputs s) (user_signed_in s) (user_name s).

Definition after_success (p : plan) (s : cargo) : cargo :=
  match aftermath_of p with
  | ThenRefresh => refreshCargoPackagePage s
  | ThenRefreshIfAdministrator => if activeAdministrator s then refreshCargoPackagePage s else s
  | ThenNavigate => if can_navigate s then output_of (Navigate (cargoPagePath (activeRepository s) [])) s else s
  | ThenSetLevel generation user l =>
    let s := if (generation =? details_generation s)%nat then alter_details (set_member_level user l) s else s in
    if (l =? 4)%nat then refreshCargoPackagePage s else s
  end.

(** The request of an operation, for the repository that is active when it is sent. *)
Definition send_plan (p : plan) (s : cargo) : cargo :=
  match (match captured p with Some n => Some n | None => option_map (fun d => name (pkg d)) (activePackageDetails s) end) with
  | Some n => begin (Requesting p (cargoAPIPath (activeRepository s) ([js "crates"; n] ++ tail_segments p))) s
  | None => output_of (Alert "cargo.operationFailed") s
  end.

Definition press_button_step (pb : press_button) (s : cargo) : cargo :=
  match activePackageDetails s, shown s with
  | Some d, PackageScreen pg =>
    if negb (hidden s) && existsb (needs (the_viewer s) d pb) (page_buttons pg) then
      match plan_of (the_viewer s) d (details_generation s) (activeSelectedVersion (ui s)) pb with
      | Some p => if asks p then begin (Asking p) s else send_plan p s
      | None => s
      end
    else s
  | _, _ => s
  end.

(** ** Answers *)
Inductive answer :=
| CatalogAnswer (crates : option (list crate * nat)) (management : option (list crate * bool))
| DetailsAnswer (d : option details)
| MoreAnswer (crates : option (list crate * nat))
| Accepted
| Rejected.

Definition catalog_answered (sequence : nat) (with_management : bool) (crates : option (list crate * nat))
    (management : option (list crate * bool)) (s : cargo) : cargo :=
  if negb (sequence =? cargoLoadSequence s)%nat then s
  else
    match crates with
    | Some (l, total) =>
      let management := if with_management then management else None in
      morph None
        (renderCargoOverview
           (set_catalog (catalog_loaded l total (from_option fst [] management) (the_catalog s)) (from_option snd false management) s))
    | None => set_busy false (renderCargoError s)
    end.

Definition details_answered (sequence : nat) (d : option details) (s : cargo) : cargo :=
  if negb (sequence =? cargoLoadSequence s)%nat then s
  else
    match d with
    | Some d => morph None (render_package (set_details (Some d) (administrator d) s))
    | None => set_busy false (renderCargoError s)
    end.

Definition more_answered (sequence nextPage : nat) (crates : option (list crate * nat)) (s : cargo) : cargo :=
  if negb (sequence =? cargoLoadSequence s)%nat then s
  else
    match crates with
    | Some (l, total) =>
      morph (Some sequence) (renderCargoOverview (set_catalog (more_loaded nextPage l total (the_catalog s)) (activeAdministrator s) s))
    | None => set_busy false (output_of (Alert "cargo.loadFailed") s)
    end.

(** No sequence guards a refresh. *)
Definition refresh_answered (d : option details) (s : cargo) : cargo :=
  match d with
  | Some d => render_package (set_details (Some d) (administrator d) s)
  | None => output_of (Alert "cargo.operationFailed") s
  end.

Definition answered (i : nat) (a : answer) (s : cargo) : cargo :=
  match operations s !! i, a with
  | Some (LoadCatalog sequence m), CatalogAnswer crates management => catalog_answered sequence m crates management (close i s)
  | Some (LoadPackage sequence _), DetailsAnswer d => details_answered sequence d (close i s)
  | Some (LoadMorePackages sequence nextPage), MoreAnswer crates => more_answered sequence nextPage crates (close i s)
  | Some (Refreshing _), DetailsAnswer d => refresh_answered d (close i s)
  | Some (Requesting p _), Accepted => after_success p (output_of (Alert (success p)) (close i s))
  | Some (Requesting p _), Rejected =>
    let s := output_of (Alert "cargo.operationFailed") (close i s) in if keeps_dialog p then begin (Asking p) s else s
  | _, _ => s
  end.

Definition loadMoreCargoPackages (s : cargo) : cargo :=
  if can_load_more (the_catalog s)
  then begin (LoadMorePackages (cargoLoadSequence s) (S (activeCatalogPage (the_catalog s)))) (set_busy true s) else s.

(** The end of an animation. *)
Definition clears (s : cargo) (a : option nat) : bool :=
  match a with None => true | Some sequence => (sequence =? cargoLoadSequence s)%nat end.

Definition morphed (i : nat) (s : cargo) : cargo :=
  match animations s !! i with
  | Some a => set_animations (delete i (animations s)) (if clears s a then set_busy false s else s)
  | None => s
  end.

(** ** Events *)
Inductive repository_event :=
| Visit (path : jstr) (is_cargo navigate : bool)
| Hide
| StateChanged (changedRepository : option jstr) (path : jstr)   (* [authChanged], [cargoMembershipChanged] *)
| Identity (is_signed_in : bool) (user : jstr)                   (* what [auth.js] and the storage hold *)
| LanguageChanged
| PressMore
| Press (p : press_button)
| OnPage (ev : CargoPage.cargo_event)
| Confirmed (i : nat) (yes : bool)
| Answered (i : nat) (a : answer)
| AnimationEnded (i : nat).

Definition handleCargoStateChanged (changedRepository : option jstr) (path : jstr) (s : cargo) : cargo :=
  let changed := default [] changedRepository in
  if negb (nonempty (activeRepository s)) || nonempty changed && negb (changed =? activeRepository s)%js then s
  else renderCargoRepository path true (can_navigate s) s.

Definition handleCargoLanguageChanged (s : cargo) : cargo :=
  if hidden s then s
  else match on_package s with
       | Some true => render_package s
       | Some false => renderCargoOverview s
       | None => s
       end.

Definition repository_step (ev : repository_event) (s : cargo) : cargo :=
  match ev with
  | Visit path is_cargo navigate => renderCargoRepository path is_cargo navigate s
  | Hide => hideCargoRepositoryView s
  | StateChanged changed path => handleCargoStateChanged changed path s
  | Identity b user =>
    mk_cargo (cargoLoadSequence s) (activeRepository s) (activeAdministrator s) (activePackageDetails s) (details_generation s)
      (the_catalog s) (ui s) (on_package s) (can_navigate s) (hidden s) (busy s) (shown s) (animations s) (operations s) (next s) (outputs s) b user
  | LanguageChanged => handleCargoLanguageChanged s
  | PressMore =>
    match shown s with OverviewScreen _ _ true => if hidden s then s else loadMoreCargoPackages s | _ => s end
  | Press p => press_button_step p s
  | OnPage ev =>
    match activePackageDetails s, shown s with
    | Some d, PackageScreen pg =>
      let '(u, pg) := CargoPage.cargo_step (the_viewer s) d ev (ui s, pg) in
      set_cargo_view (on_package s) (hidden s) (busy s) (PackageScreen pg) (set_ui u s)
    | _, _ => s
    end
  | Confirmed i yes =>
    match operations s !! i with
    | Some (Asking p) => let s := close i s in if yes then send_plan p s else s
    | _ => s
    end
  | Answered i a => answered i a s
  | AnimationEnded i => morphed i s
  end.

(** ** Use in order *)
Definition page_operation (o : operation) : bool := match o with Asking _ | Requesting _ _ | Refreshing _ => true | _ => false end.

Definition load_sequence (o : operation) : option nat :=
  match o with LoadCatalog q _ | LoadPackage q _ | LoadMorePackages q _ => Some q | _ => None end.

(** A load of the current sequence is under way. *)
Definition current_load (s : cargo) (o : operation) : bool := bool_decide (load_sequence o = Some (cargoLoadSequence s)).
Definition is_loading (s : cargo) : bool := existsb (fun p => current_load s p.2) (map_to_list (operations s)).

Definition operation_pending (s : cargo) : bool := existsb (fun p => page_operation p.2) (map_to_list (operations s)).

(** What the server holds at an address of its API. *)
Variable serves : list jstr -> package -> bool.

(** Details that answer a request are those of the package it asks for. *)
Definition answers_path (path : list jstr) (d : details) : bool :=
  bool_decide (path !! 4 = Some (name (pkg d))) && serves path (pkg d).

(** The user stays while an operation of the page is under way, and uses the page when no load is under way. *)
Definition orderly (ev : repository_event) (s : cargo) : bool :=
  match ev with
  | Visit _ _ _ | Hide | StateChanged _ _ => negb (operation_pending s)
  | LanguageChanged | PressMore | Press _ | OnPage _ => negb (is_loading s)
  | Answered i (DetailsAnswer (Some d)) =>
    match operations s !! i with
    | Some (LoadPackage _ path) | Some (Refreshing path) => answers_path path d
    | _ => true
    end
  | _ => true
  end.

(** The route the address bar shows; [None] while the view is hidden. *)
Definition track (ev : repository_event) (s : cargo) (r : option (jstr * route)) : option (jstr * route) :=
  match ev with
  | Visit path is_cargo _ => if is_cargo then cargo_route path else None
  | Hide => None
  | StateChanged changed path =>
    if negb (nonempty (activeRepository s)) || nonempty (default [] changed) && negb (default [] changed =? activeRepository s)%js then r
    else cargo_route path
  | _ => r
  end.

Definition tracked_step (ev : repository_event) (v : cargo * option (jstr * route)) : cargo * option (jstr * route) :=
  (repository_step ev (fst v), track ev (fst v) (snd v)).

Definition tracked (evs : list repository_event) (v : cargo * option (jstr * route)) : cargo * option (jstr * route) :=
  fold_left (fun v ev => tracked_step ev v) evs v.

Fixpoint orderly_run (evs : list repository_event) (s : cargo) : bool :=
  match evs with
  | [] => true
  | ev :: evs => orderly ev s && orderly_run evs (repository_step ev s)
  end.

(** No animation ends while a load is under way. *)
Definition unhurried (ev : repository_event) (s : cargo) : bool := match ev with AnimationEnded _ => negb (is_loading s) | _ => true end.

Fixpoint unhurried_run (evs : list repository_event) (s : cargo) : bool :=
  match evs with
  | [] => true
  | ev :: evs => unhurried ev s && unhurried_run evs (repository_step ev s)
  end.

(** Whether the animations of a run do that. *)
Variable calm : Prop.

Definition package_path (repo n : jstr) : list jstr := cargoAPIPath repo [js "crates"; n].

(** The screen is the route's. *)
Definition shows_route (s : cargo) (r : option (jstr * route)) : Prop :=
  match r with
  | None => shown s = Blank /\ hidden s = true
  | Some (repo, UnknownRoute) => shown s = ErrorScreen /\ on_package s = None
  | Some (repo, OverviewRoute) =>
    shown s = ErrorScreen /\ on_package s = None \/
    on_package s = Some false /\
    shown s = OverviewScreen (cargoCatalogCount (the_catalog s)) (map buildCargoPackageRow (activePackageList (the_catalog s)))
                (negb (length (activePackageList (the_catalog s)) =? 0) && can_load_more (the_catalog s))
  | Some (repo, PackageRoute n) =>
    shown s = ErrorScreen /\ on_package s = None \/
    on_package s = Some true /\ exists d p, activePackageDetails s = Some d /\ name (pkg d) = n /\ serves (package_path repo n) (pkg d) = true /\
      shown s = PackageScreen p /\ title (fixed_header p) = n
  end.

(** An operation of the page concerns the package of the route. *)
Definition concerns (repo n : jstr) (o : operation) : Prop :=
  match o with
  | Asking p => forall m, captured p = Some m -> m = n
  | Requesting p path => path = package_path repo n ++ tail_segments p /\ forall m, captured p = Some m -> m = n
  | Refreshing path => path = package_path repo n
  | _ => True
  end.

Definition loading (s : cargo) : Prop := exists i o, operations s !! i = Some o /\ current_load s o = true.

(** What the busy mark waits for. *)
Definition waited (s : cargo) (r : option (jstr * route)) : Prop :=
  loading s \/ (exists a, a ∈ animations s /\ clears s a = true) \/ exists repo, r = Some (repo, UnknownRoute).

Record cargo_ok (s : cargo) (r : option (jstr * route)) : Prop := {
  ok_next : forall i o, operations s !! i = Some o -> i < next s;
  ok_sequence : forall i o q, operations s !! i = Some o -> load_sequence o = Some q -> q <= cargoLoadSequence s;
  ok_current : forall i j o o', operations s !! i = Some o -> operations s !! j = Some o' ->
    load_sequence o = Some (cargoLoadSequence s) -> load_sequence o' = Some (cargoLoadSequence s) -> i = j;
  ok_busy : loading s -> operation_pending s = false;
  ok_path : forall i q path, operations s !! i = Some (LoadPackage q path) -> q = cargoLoadSequence s ->
    exists n, r = Some (activeRepository s, PackageRoute n) /\ path = package_path (activeRepository s) n;
  ok_overview : forall i o, operations s !! i = Some o -> load_sequence o = Some (cargoLoadSequence s) ->
    (exists q path, o = LoadPackage q path) \/ r = Some (activeRepository s, OverviewRoute);
  ok_route : match r with Some (repo, _) => activeRepository s = repo /\ hidden s = false | None => activeRepository s = [] /\ hidden s = true end;
  ok_page : forall i o, operations s !! i = Some o -> page_operation o = true ->
    exists n d, r = Some (activeRepository s, PackageRoute n) /\ activePackageDetails s = Some d /\ name (pkg d) = n /\
      concerns (activeRepository s) n o;
  ok_shown : ~ loading s -> shows_route s r;
  ok_more : forall i q page, operations s !! i = Some (LoadMorePackages q page) -> q = cargoLoadSequence s -> shows_route s r;
  ok_waits : busy s = true -> waited s r;
  ok_marked : calm -> loading s -> busy s = true
}.

(** ** Lemmas *)
Lemma cargo_loading_true s : is_loading s = true <-> loading s.
Proof.
  unfold is_loading. rewrite existsb_exists. split.
  - intros ([i o] & Hin%list_elem_of_In%elem_of_map_to_list & Hl). by exists i, o.
  - intros (i & o & Hi & Hl). exists (i, o). by rewrite <- list_elem_of_In, elem_of_map_to_list.
Qed.

Lemma cargo_loading_false s : is_loading s = false <-> ~ loading s.
Proof. rewrite <- cargo_loading_true. by destruct (is_loading s). Qed.

Lemma current_sequence s o : current_load s o = true <-> load_sequence o = Some (cargoLoadSequence s).
Proof. apply bool_decide_eq_true. Qed.

Lemma not_loading s i o : ~ loading s -> operations s !! i = Some o -> load_sequence o <> Some (cargoLoadSequence s).
Proof. intros Hl Hi Ho. apply Hl. exists i, o. by rewrite current_sequence. Qed.

Lemma cargo_loading_sub s s' : cargoLoadSequence s' = cargoLoadSequence s -> (forall i o, operations s' !! i = Some o -> operations s !! i = Some o) ->
  loading s' -> loading s.
Proof. intros Hq Ho (i & o & Hi%Ho & Hp). exists i, o. split; [done|]. unfold current_load in *. by rewrite Hq in Hp. Qed.

Lemma operation_pending_spec s : operation_pending s = true <-> exists i o, operations s !! i = Some o /\ page_operation o = true.
Proof.
  unfold operation_pending. rewrite existsb_exists. split.
  - intros ([i o] & Hin%list_elem_of_In%elem_of_map_to_list & Hf). by exists i, o.
  - intros (i & o & Hi & Hf). exists (i, o). split; [by apply list_elem_of_In, elem_of_map_to_list|done].
Qed.

Lemma none_pending s i o : operation_pending s = false -> operations s !! i = Some o -> page_operation o = false.
Proof. intros Hp Hi. destruct (page_operation o) eqn:E; [|done]. assert (operation_pending s = true) by (apply operation_pending_spec; eauto). congruence. Qed.

Lemma pending_false s : (forall i o, operations s !! i = Some o -> page_operation o = false) -> operation_pending s = false.
Proof.
  intros H. destruct (operation_pending s) eqn:E; [|done]. apply operation_pending_spec in E as (i & o & Hi & Ho). by rewrite (H i o Hi) in Ho.
Qed.

(** What [cargo_ok] reads. *)
Definition same_view (s s' : cargo) : Prop :=
  cargoLoadSequence s' = cargoLoadSequence s /\ activeRepository s' = activeRepository s /\
  option_map pkg (activePackageDetails s') = option_map pkg (activePackageDetails s) /\ the_catalog s' = the_catalog s /\
  on_package s' = on_package s /\ hidden s' = hidden s /\
  (shown s' = shown s \/ exists p p', shown s = PackageScreen p /\ shown s' = PackageScreen p' /\ title (fixed_header p') = title (fixed_header p)).

Lemma same_details s s' d : option_map pkg (activePackageDetails s') = option_map pkg (activePackageDetails s) ->
  activePackageDetails s = Some d -> exists d', activePackageDetails s' = Some d' /\ pkg d' = pkg d.
Proof. intros E Hd. rewrite Hd in E. destruct (activePackageDetails s') as [d'|]; [|done]. injection E as E. eauto. Qed.

Lemma shows_route_same s s' r : same_view s s' -> shows_route s r -> shows_route s' r.
Proof.
  intros (V1 & V2 & V3 & V4 & V5 & V6 & V8). destruct r as [[repo [|n|]]|]; unfold shows_route; rewrite ?V5, ?V4, ?V6.
  - assert (E : shown s = ErrorScreen \/ (exists c l m, shown s = OverviewScreen c l m) -> shown s' = shown s).
    { intros Hsc. destruct V8 as [|(p & p' & Hp & _)]; [done|]. destruct Hsc as [Hsc|(? & ? & ? & Hsc)]; congruence. }
    intros [[Hs Hk]|[Hk Hs]]; [left|right]; (rewrite E; [by split|]); eauto 6.
  - intros [[Hs Hk]|(Hk & d & p & Hd & Hn & Hv & Hs & Ht)]; [left; split; [|done]; destruct V8 as [->|(p & p' & Hp & _)]; congruence|right].
    destruct (same_details s s' d V3 Hd) as (d' & Hd' & E). split; [done|].
    destruct V8 as [V8|(q & q' & Hq & Hq' & Hqt)]; [exists d', p|exists d', q']; rewrite E; split_and!; congruence.
  - intros [Hs Hk]. split; [|done]. destruct V8 as [->|(p & p' & Hp & _)]; congruence.
  - intros [Hs Hk]. split; [|done]. destruct V8 as [->|(p & p' & Hp & _)]; congruence.
Qed.

Lemma waited_same s s' r : cargoLoadSequence s' = cargoLoadSequence s -> animations s' = animations s -> (loading s -> loading s') ->
  waited s r -> waited s' r.
Proof. intros Hq Ha Hl [H|[(a & H1 & H2)|H]]; [left; by apply Hl|right; left|by right; right]. exists a. unfold clears in *. by rewrite Ha, Hq. Qed.

Lemma frame_ok s s' r : same_view s s' -> busy s' = busy s -> animations s' = animations s -> next s <= next s' ->
  (forall i o, operations s' !! i = Some o -> operations s !! i = Some o) -> (loading s -> loading s') -> cargo_ok s r -> cargo_ok s' r.
Proof.
  intros V V7 Va Hn Ho Hl K. pose proof V as (V1 & V2 & V3 & V4 & V5 & V6 & V8). pose proof (cargo_loading_sub s s' V1 Ho) as Hl'.
  split; rewrite ?V1, ?V2, ?V6, ?V7.
  - intros i o Hi%Ho. pose proof (ok_next _ _ K i o Hi). lia.
  - intros i o q Hi%Ho. by apply (ok_sequence _ _ K i).
  - intros i j o o' Hi%Ho Hj%Ho. by apply (ok_current _ _ K i j o o').
  - intros Hb. apply pending_false. intros i o Hi%Ho. apply (none_pending s i); [|done]. by apply (ok_busy _ _ K), Hl'.
  - intros i q path Hi%Ho. by apply (ok_path _ _ K i).
  - intros i o Hi%Ho. by apply (ok_overview _ _ K i).
  - apply K.
  - intros i o Hi%Ho Hp. destruct (ok_page _ _ K i o Hi Hp) as (n & d & Hr & Hd & Hnm & Hc).
    destruct (same_details s s' d V3 Hd) as (d' & Hd' & E). exists n, d'. split_and!; try done. congruence.
  - intros Hb. apply (shows_route_same s); [done|]. apply K. tauto.
  - intros i q page Hi%Ho Hq. apply (shows_route_same s); [done|by apply (ok_more _ _ K i q page)].
  - intros Hb. by apply (waited_same s); [..|apply K].
  - intros Hc Hx. by apply (ok_marked _ _ K Hc), Hl'.
Qed.

Lemma same_refl s : same_view s s.
Proof. unfold same_view. split_and!; auto. Qed.

Ltac same_tac := unfold same_view; cbn; split_and!; auto.

(** An operation ends that is not the current load. *)
Lemma close_ok i o s r : cargo_ok s r -> operations s !! i = Some o -> load_sequence o <> Some (cargoLoadSequence s) -> cargo_ok (close i s) r.
Proof.
  intros K Hi Ho. revert K. apply frame_ok; [same_tac|done..| |].
  - intros j o'. cbn [close set_operations operations]. by intros [_ Hj]%lookup_delete_Some.
  - intros (j & o' & Hj & Hc). exists j, o'. split; [|done]. cbn [close set_operations operations]. rewrite lookup_delete_ne; [done|].
    intros ->. rewrite Hi in Hj. injection Hj as <-. by apply current_sequence in Hc.
Qed.

Lemma close_page_ok i o s r : cargo_ok s r -> operations s !! i = Some o -> page_operation o = true -> cargo_ok (close i s) r.
Proof. intros K Hi Ho. apply (close_ok i o); [done..|]. by destruct o. Qed.

Lemma output_ok o s r : cargo_ok s r -> cargo_ok (output_of o s) r.
Proof. by apply frame_ok; [same_tac|..]. Qed.

Lemma begin_page_ok o s r n d : cargo_ok s r -> ~ loading s -> page_operation o = true ->
  r = Some (activeRepository s, PackageRoute n) -> activePackageDetails s = Some d -> name (pkg d) = n ->
  concerns (activeRepository s) n o -> cargo_ok (begin o s) r.
Proof.
  intros K Hb Ho Hr Hd Hn Hc. assert (Hl : load_sequence o = None) by by destruct o.
  assert (Hx : ~ loading (begin o s)).
  { intros (i & o' & Hi & Hq%current_sequence). cbn in Hi, Hq. apply lookup_insert_Some in Hi as [[_ <-]|[_ Hi]]; [congruence|].
    by apply (not_loading s i o' Hb Hi). }
  split; cbn [begin set_operations operations next cargoLoadSequence busy activeRepository activePackageDetails hidden animations].
  - intros i o'. rewrite lookup_insert_Some. intros [[<- _]|[_ Hi]]; [lia|]. pose proof (ok_next _ _ K i o' Hi). lia.
  - intros i o' q. rewrite lookup_insert_Some. intros [[_ <-]|[_ Hi]]; [congruence|]. by apply (ok_sequence _ _ K i).
  - intros i j o1 o2. rewrite !lookup_insert_Some. intros [[_ <-]|[_ Hi]] [[_ <-]|[_ Hj]]; try congruence. by apply (ok_current _ _ K i j o1 o2).
  - by intros ?%Hx.
  - intros i q path. rewrite lookup_insert_Some. intros [[_ E]|[_ Hi]]; [by subst o|]. by apply (ok_path _ _ K i).
  - intros i o'. rewrite lookup_insert_Some. intros [[_ <-]|[_ Hi]]; [congruence|]. by apply (ok_overview _ _ K i).
  - apply K.
  - intros i o'. rewrite lookup_insert_Some. intros [[_ <-]|[_ Hi]] Hp; [by exists n, d|]. by apply (ok_page _ _ K i).
  - intros _. apply (shows_route_same s); [same_tac|by apply K].
  - intros i q page _ _. apply (shows_route_same s); [same_tac|by apply K].
  - intros Hbusy. by apply (waited_same s); [..|apply K].
  - by intros _ ?%Hx.
Qed.

(** ** Lemmas: routes *)
(** Operations that a new route leaves behind. *)
Record left_behind (q : nat) (s : cargo) : Prop := {
  left_next : forall i o, operations s !! i = Some o -> i < next s;
  left_sequence : forall i o q', operations s !! i = Some o -> load_sequence o = Some q' -> q' <= q;
  left_page : forall i o, operations s !! i = Some o -> page_operation o = false
}.

Lemma left_behind_ok s r : cargo_ok s r -> operation_pending s = false -> left_behind (cargoLoadSequence s) s.
Proof.
  intros K Hp. split; [apply K|apply K|]. intros i o Hi. by apply (none_pending s i).
Qed.

Definition route_ok (s : cargo) (r : option (jstr * route)) : Prop :=
  match r with Some (repo, _) => activeRepository s = repo /\ hidden s = false | None => activeRepository s = [] /\ hidden s = true end.

Lemma load_ok o s r q : left_behind q s -> cargoLoadSequence s = S q -> busy s = true -> load_sequence o = Some (S q) -> route_ok s r ->
  (forall q' path, o = LoadPackage q' path -> exists n, r = Some (activeRepository s, PackageRoute n) /\ path = package_path (activeRepository s) n) ->
  ((exists q path, o = LoadPackage q path) \/ r = Some (activeRepository s, OverviewRoute)) ->
  (forall q' page, o <> LoadMorePackages q' page) -> cargo_ok (begin o s) r.
Proof.
  intros [L1 L2 L3] Hq Hb Ho Hr Hp Hv Hm. assert (Hpo : page_operation o = false) by by destruct o.
  assert (Hl : loading (begin o s)).
  { exists (next s), o. split; [apply lookup_insert_eq|]. rewrite current_sequence. by rewrite Ho, <- Hq. }
  split; cbn [begin set_operations operations next cargoLoadSequence busy activeRepository activePackageDetails hidden]; rewrite ?Hq.
  - intros i o'. rewrite lookup_insert_Some. intros [[<- _]|[_ Hi]]; [lia|]. pose proof (L1 i o' Hi). lia.
  - intros i o' q'. rewrite lookup_insert_Some. intros [[_ <-]|[_ Hi]] E; [rewrite Ho in E; injection E as <-; lia|].
    pose proof (L2 i o' q' Hi E). lia.
  - intros i j o1 o2. rewrite !lookup_insert_Some. intros [[<- <-]|[_ Hi]] [[<- <-]|[_ Hj]] E1 E2; [done| | |].
    + pose proof (L2 j o2 _ Hj E2). lia.
    + pose proof (L2 i o1 _ Hi E1). lia.
    + pose proof (L2 i o1 _ Hi E1). lia.
  - intros _. apply pending_false. intros i o'. cbn [begin set_operations operations]. rewrite lookup_insert_Some.
    intros [[_ <-]|[_ Hi]]; [done|by apply (L3 i)].
  - intros i q' path. rewrite lookup_insert_Some. intros [[_ E]|[_ Hi]] Hq'; [by apply (Hp q')|].
    pose proof (L2 i _ q' Hi eq_refl). lia.
  - intros i o'. rewrite lookup_insert_Some. intros [[_ <-]|[_ Hi]] E; [done|]. pose proof (L2 i o' _ Hi E). lia.
  - done.
  - intros i o'. rewrite lookup_insert_Some. intros [[_ <-]|[_ Hi]] E; [congruence|]. by rewrite (L3 i o' Hi) in E.
  - intros Hn. by destruct Hn.
  - intros i q' page. rewrite lookup_insert_Some. intros [[_ E]|[_ Hi]] Hq'; [by apply Hm in E|].
    pose proof (L2 i _ q' Hi eq_refl). lia.
  - intros _. by left.
  - done.
Qed.

(** A route that loads nothing. *)
Lemma route_rest_ok s r q : left_behind q s -> cargoLoadSequence s = S q -> route_ok s r -> shows_route s r ->
  (busy s = true -> exists repo, r = Some (repo, UnknownRoute)) -> cargo_ok s r.
Proof.
  intros [L1 L2 L3] Hq Hr Hs Hb.
  assert (Hn : forall i o, operations s !! i = Some o -> load_sequence o <> Some (cargoLoadSequence s)).
  { intros i o Hi E. rewrite Hq in E. pose proof (L2 i o _ Hi E). lia. }
  split; try done.
  - intros i o q' Hi E. pose proof (L2 i o _ Hi E). lia.
  - intros i j o o' Hi _ E. by destruct (Hn i o Hi).
  - intros _. apply pending_false. intros i o Hi. by apply (L3 i).
  - intros i q' path Hi E. exfalso. apply (Hn i _ Hi). cbn. congruence.
  - intros i o Hi E. by apply (Hn i) in E.
  - intros i o Hi E. by rewrite (L3 i o Hi) in E.
  - intros H. right; right. by apply Hb.
  - intros _ (i & o & Hi & E%current_sequence). by destruct (Hn i o Hi).
Qed.

Lemma hide_ok s r : cargo_ok s r -> operation_pending s = false -> cargo_ok (hideCargoRepositoryView s) None.
Proof.
  intros K Hp. destruct (left_behind_ok s r K Hp) as [L1 L2 L3].
  apply (route_rest_ok _ _ (cargoLoadSequence s)); [by split|done..].
Qed.

Lemma visit_ok path is_cargo navigate s r : cargo_ok s r -> operation_pending s = false ->
  cargo_ok (renderCargoRepository path is_cargo navigate s) (if is_cargo then cargo_route path else None).
Proof.
  intros K Hp. unfold renderCargoRepository. destruct (if is_cargo then cargo_route path else None) as [[repo ro]|]; [|by apply (hide_ok s r)].
  destruct (left_behind_ok s r K Hp) as [L1 L2 L3]. cbv zeta. destruct ro as [|n|].
  - unfold loadCargoOverview. cbv zeta. apply (load_ok _ _ _ (cargoLoadSequence s)); [by split|done..| |by right|done]. by intros q' p [=].
  - unfold loadCargoPackage. cbv zeta. apply (load_ok _ _ _ (cargoLoadSequence s)); [by split|done..| |left; eauto|done].
    intros q' p [= _ <-]. by exists n.
  - apply (route_rest_ok _ _ (cargoLoadSequence s)); [by split|done..|]. intros _. by exists repo.
Qed.

(** ** Lemmas: answers of loads *)
(** A load of the current route has come: nothing else is under way, and the screen is the route's. *)
Lemma loaded_ok i o s s' r : cargo_ok s r -> operations s !! i = Some o -> load_sequence o = Some (cargoLoadSequence s) ->
  cargoLoadSequence s' = cargoLoadSequence s -> activeRepository s' = activeRepository s -> hidden s' = hidden s ->
  operations s' = delete i (operations s) -> next s' = next s ->
  (busy s' = true -> exists a, a ∈ animations s' /\ clears s' a = true) -> shows_route s' r -> cargo_ok s' r.
Proof.
  intros K Hi Ho V1 V2 V3 V4 V5 Ha Hs.
  assert (Hb : loading s) by (exists i, o; by rewrite current_sequence).
  assert (Hn : forall j o', operations s' !! j = Some o' -> operations s !! j = Some o' /\ load_sequence o' <> Some (cargoLoadSequence s)).
  { intros j o'. rewrite V4, lookup_delete_Some. intros [Hij Hj]. split; [done|]. intros E. apply Hij. by apply (ok_current _ _ K i j o o'). }
  pose proof (ok_busy _ _ K Hb) as Hp. split; rewrite ?V1, ?V2, ?V3, ?V5.
  - intros j o' [Hj _]%Hn. by apply (ok_next _ _ K j o').
  - intros j o' q [Hj _]%Hn. by apply (ok_sequence _ _ K j o').
  - intros j k o1 o2 [_ Hj]%Hn _ E. done.
  - intros _. apply pending_false. intros j o' [Hj _]%Hn. by apply (none_pending s j).
  - intros j q path [_ Hj]%Hn E. cbn in Hj. congruence.
  - intros j o' [_ Hj]%Hn E. done.
  - apply K.
  - intros j o' [Hj _]%Hn E. by rewrite (none_pending s j o' Hp Hj) in E.
  - done.
  - done.
  - intros Hbusy. right; left. by apply Ha.
  - intros _ (j & o' & Hj & E%current_sequence). apply Hn in Hj as [_ Hj]. congruence.
Qed.

Lemma stale_ok i o q s r : cargo_ok s r -> operations s !! i = Some o -> load_sequence o = Some q -> (q =? cargoLoadSequence s)%nat = false ->
  cargo_ok (close i s) r.
Proof. intros K Hi Ho Hq%Nat.eqb_neq. apply (close_ok i o); [done..|congruence]. Qed.

(** The animation that a drawing begins. *)
Lemma morph_clears a s : clears s a = true -> exists b, b ∈ animations (morph a s) /\ clears (morph a s) b = true.
Proof. intros H. exists a. split; [|done]. cbn. apply elem_of_app. right. by apply list_elem_of_singleton. Qed.

Lemma render_package_shows s d : activePackageDetails s = Some d ->
  exists p u, render_package s = set_cargo_view (Some true) (hidden s) (busy s) (PackageScreen p) (set_ui u s) /\ title (fixed_header p) = name (pkg d).
Proof.
  intros Hd. unfold render_package. rewrite Hd. unfold renderCargoPackagePage. destruct (selection d (ui s)) as [cur u].
  eexists _, _. split; [reflexivity|]. done.
Qed.

(** ** Lemmas: the page *)
Definition on_route (s : cargo) (r : option (jstr * route)) (n : jstr) (d : details) : Prop :=
  ~ loading s /\ r = Some (activeRepository s, PackageRoute n) /\ activePackageDetails s = Some d /\ name (pkg d) = n.

Lemma pending_route s r i o : cargo_ok s r -> operations s !! i = Some o -> page_operation o = true ->
  exists n d, on_route s r n d /\ concerns (activeRepository s) n o.
Proof.
  intros K Hi Ho. destruct (ok_page _ _ K i o Hi Ho) as (n & d & Hr & Hd & Hn & Hc). exists n, d. split; [|done]. split_and!; try done.
  intros E. pose proof (none_pending s i o (ok_busy _ _ K E) Hi). congruence.
Qed.

Lemma screen_route s r d p : cargo_ok s r -> ~ loading s -> activePackageDetails s = Some d -> shown s = PackageScreen p ->
  exists n, on_route s r n d.
Proof.
  intros K Hb Hd Hs. pose proof (ok_shown _ _ K Hb) as Hr. pose proof (ok_route _ _ K) as Ho.
  destruct r as [[repo [|n|]]|]; unfold shows_route in Hr; cbn in Ho.
  - destruct Hr as [[? _]|[_ ?]]; congruence.
  - destruct Hr as [[? _]|(_ & d' & p' & Hd' & Hn & _)]; [congruence|]. exists n. destruct Ho as [Ho _]. split_and!; congruence.
  - destruct Hr; congruence.
  - destruct Hr; congruence.
Qed.

Lemma begin_ok o s r n d : cargo_ok s r -> on_route s r n d -> page_operation o = true -> concerns (activeRepository s) n o ->
  cargo_ok (begin o s) r.
Proof. intros K (Hb & Hr & Hd & Hn). intros Ho Hc. by apply (begin_page_ok o s r n d). Qed.

Lemma close_route i s r n d : on_route s r n d -> on_route (close i s) r n d.
Proof.
  intros [Hl H]. split; [|done]. intros Hx. apply Hl. revert Hx. apply cargo_loading_sub; [done|].
  intros j o. cbn [close set_operations operations]. by intros [_ Hj]%lookup_delete_Some.
Qed.

Lemma output_route o s r n d : on_route s r n d -> on_route (output_of o s) r n d.
Proof. done. Qed.

Lemma refresh_ok s r n d : cargo_ok s r -> on_route s r n d -> cargo_ok (refreshCargoPackagePage s) r.
Proof.
  intros K Hp. pose proof Hp as (Hb & Hr & Hd & Hn). unfold refreshCargoPackagePage. rewrite Hd. apply (begin_ok _ _ _ n d); try done.
  cbn. by rewrite Hn.
Qed.

Lemma alter_ok user l s r : cargo_ok s r -> cargo_ok (alter_details (set_member_level user l) s) r.
Proof. apply frame_ok; [|done..]. unfold same_view. cbn. split_and!; auto. by destruct (activePackageDetails s). Qed.

Lemma alter_route user l s r n d : on_route s r n d -> on_route (alter_details (set_member_level user l) s) r n (set_member_level user l d).
Proof. intros (Hb & Hr & Hd & Hn). split_and!; try done. cbn. by rewrite Hd. Qed.

Lemma after_success_ok p s r n d : cargo_ok s r -> on_route s r n d -> cargo_ok (after_success p s) r.
Proof.
  intros K Hp. unfold after_success. destruct (aftermath_of p) as [| | |g user l].
  - by apply (refresh_ok _ _ n d).
  - destruct (activeAdministrator s); [by apply (refresh_ok _ _ n d)|done].
  - destruct (can_navigate s); [by apply output_ok|done].
  - cbv zeta. destruct (g =? details_generation s)%nat.
    + destruct (l =? 4)%nat; [|by apply alter_ok]. eapply refresh_ok; [by apply alter_ok|by apply alter_route].
    + destruct (l =? 4)%nat; [by apply (refresh_ok _ _ n d)|done].
Qed.

Lemma send_ok p s r n d : cargo_ok s r -> on_route s r n d -> (forall m, captured p = Some m -> m = n) -> cargo_ok (send_plan p s) r.
Proof.
  intros K Hp Hc. pose proof Hp as (Hb & Hr & Hd & Hn). unfold send_plan. rewrite Hd. cbn [option_map].
  assert (E : (match captured p with Some n => Some n | None => Some (name (pkg d)) end) = Some n).
  { destruct (captured p) as [m|]; [by rewrite (Hc m)|by rewrite Hn]. }
  rewrite E. by apply (begin_ok _ _ _ n d).
Qed.

Lemma plan_captured u d g v pb p m : plan_of u d g v pb = Some p -> captured p = Some m -> m = name (pkg d).
Proof.
  unfold plan_of. destruct pb as [| | |w b| |user|user l|user l]; cbv zeta; try (by intros [= <-] [= <-]).
  - destruct b; try done; try (by intros [= <-] [= <-]). case_match; by intros [= <-] [= <-].
  - case_match; by intros [= <-] [= <-].
  - case_match; by intros [= <-].
  - case_match; by intros [= <-].
Qed.

Lemma press_button_ok pb s r : cargo_ok s r -> ~ loading s -> cargo_ok (press_button_step pb s) r.
Proof.
  intros K Hb. unfold press_button_step. destruct (activePackageDetails s) as [d|] eqn:Hd; [|done].
  destruct (shown s) as [| | | |pg] eqn:Hs; try done. case_match; [|done].
  destruct (plan_of _ _ _ _ _) as [p|] eqn:Hp; [|done]. destruct (screen_route s r d pg K Hb Hd Hs) as [n Hr].
  assert (Hc : forall m, captured p = Some m -> m = n).
  { intros m Hm. rewrite (plan_captured _ _ _ _ _ _ _ Hp Hm). apply Hr. }
  destruct (asks p); [by apply (begin_ok _ _ _ n d)|by apply (send_ok _ _ _ n d)].
Qed.

Lemma confirmed_ok i yes s r : cargo_ok s r -> cargo_ok (repository_step (Confirmed i yes) s) r.
Proof.
  intros K. cbn. destruct (operations s !! i) as [o|] eqn:Hi; [|done]. destruct o as [| | |p| |]; try done.
  destruct (pending_route s r i _ K Hi eq_refl) as (n & d & Hr & Hc). destruct yes; [|by apply (close_page_ok i _ s r K Hi)].
  apply (send_ok _ _ _ n d); [by apply (close_page_ok i _ s r K Hi)|by apply close_route|done].
Qed.

(** Drawing again, or new details of the same package. *)
Lemma redrawn_ok s s' r : cargo_ok s r -> ~ loading s -> cargoLoadSequence s' = cargoLoadSequence s ->
  activeRepository s' = activeRepository s -> hidden s' = hidden s -> busy s' = busy s -> animations s' = animations s -> next s' = next s -> operations s' = operations s ->
  (forall n d, on_route s r n d -> exists d', activePackageDetails s' = Some d' /\ name (pkg d') = n) -> shows_route s' r -> cargo_ok s' r.
Proof.
  intros K Hb V1 V2 V3 V4 Va V5 V6 V7 Hs.
  assert (Hx : ~ loading s') by (intros Hx; apply Hb; revert Hx; apply cargo_loading_sub; [done|by rewrite V6]).
  split; rewrite ?V1, ?V2, ?V3, ?V4, ?V5, ?V6; try apply K; try done.
  - intros i o Hi Ho. destruct (pending_route s r i o K Hi Ho) as (n & d & Hr & Hc). destruct (V7 n d Hr) as (d' & Hd' & Hn).
    exists n, d'. split_and!; try done. apply Hr.
  - intros Hbusy. by apply (waited_same s); [..|apply K].
Qed.

Lemma render_package_route s repo n d : activePackageDetails s = Some d -> name (pkg d) = n -> serves (package_path repo n) (pkg d) = true ->
  shows_route (render_package s) (Some (repo, PackageRoute n)).
Proof.
  intros Hd Hn Hv. destruct (render_package_shows s d Hd) as (p & u & -> & Ht). right. split; [done|]. exists d, p. split_and!; try done. congruence.
Qed.

Lemma render_package_frame s : cargoLoadSequence (render_package s) = cargoLoadSequence s /\ activeRepository (render_package s) = activeRepository s /\
  hidden (render_package s) = hidden s /\ busy (render_package s) = busy s /\ next (render_package s) = next s /\
  operations (render_package s) = operations s /\ activePackageDetails (render_package s) = activePackageDetails s /\
  animations (render_package s) = animations s.
Proof. unfold render_package. destruct (activePackageDetails s) as [d|] eqn:Hd; [|done]. destruct (renderCargoPackagePage _ _ _). cbn. by split_and!. Qed.

Lemma render_overview_route s repo : shows_route (renderCargoOverview s) (Some (repo, OverviewRoute)).
Proof. right. by split. Qed.

Lemma visible_route s r : cargo_ok s r -> ~ loading s -> hidden s = false -> exists repo ro, r = Some (repo, ro) /\ activeRepository s = repo.
Proof.
  intros K Hb Hh. pose proof (ok_route _ _ K) as Ho. destruct r as [[repo ro]|]; [|destruct Ho; congruence]. exists repo, ro. by destruct Ho.
Qed.

Lemma language_ok s r : cargo_ok s r -> ~ loading s -> cargo_ok (handleCargoLanguageChanged s) r.
Proof.
  intros K Hb. unfold handleCargoLanguageChanged. destruct (hidden s) eqn:Hh; [done|]. pose proof (ok_shown _ _ K Hb) as Hs.
  destruct (visible_route s r K Hb Hh) as (repo & ro & -> & Hrepo). destruct (on_package s) as [[|]|] eqn:Hk; [| |done].
  - destruct ro as [|n|]; cbn in Hs; try (by destruct Hs as [[_ ?]|[? _]]; congruence); [|by destruct Hs; congruence].
    destruct Hs as [[_ ?]|(_ & d & p & Hd & Hn & Hv & _)]; [congruence|].
    destruct (render_package_frame s) as (V1 & V2 & V3 & V4 & V5 & V6 & V7 & V9).
    apply (redrawn_ok s); try done; [|by apply (render_package_route s repo n d)].
    intros m d' (_ & _ & Hd' & Hm). exists d'. split; congruence.
  - assert (ro = OverviewRoute) as ->. { destruct ro as [|n|]; cbn in Hs; [done|destruct Hs as [[_ ?]|[? _]]; congruence|destruct Hs; congruence]. }
    apply (redrawn_ok s); try done; [|by apply render_overview_route]. intros n d (_ & [=] & _).
Qed.

Lemma package_path_name repo n : package_path repo n !! 4 = Some n.
Proof. done. Qed.

Lemma refreshed_ok i path d s r : cargo_ok s r -> operations s !! i = Some (Refreshing path) ->
  match d with Some d => answers_path path d = true | None => True end -> cargo_ok (refresh_answered d (close i s)) r.
Proof.
  intros K Hi Ha. destruct (pending_route s r i _ K Hi eq_refl) as (n & d0 & Hr & Hc). pose proof (close_page_ok i _ s r K Hi eq_refl) as K'.
  destruct d as [d|]; cbn [refresh_answered]; [|by apply output_ok]. apply andb_true_iff in Ha as [Ha Hv]. apply bool_decide_eq_true in Ha.
  unfold concerns in Hc. subst path. rewrite package_path_name in Ha. injection Ha as Ha. pose proof (close_route i s r n d0 Hr) as (Hb & _).
  pose proof Hr as (_ & Er & _ & _).
  set (s1 := set_details (Some d) (administrator d) (close i s)). destruct (render_package_frame s1) as (V1 & V2 & V3 & V4 & V5 & V6 & V7 & V9).
  apply (redrawn_ok (close i s)); try done.
  - intros m d' (_ & E & _). exists d. split; [by rewrite V7|]. rewrite Er in E. injection E as <-. done.
  - rewrite Er. by apply (render_package_route s1 _ n d).
Qed.

Lemma catalog_answer_ok i q m c mg s r : cargo_ok s r -> operations s !! i = Some (LoadCatalog q m) ->
  cargo_ok (catalog_answered q m c mg (close i s)) r.
Proof.
  intros K Hi. unfold catalog_answered. destruct (q =? cargoLoadSequence (close i s))%nat eqn:E; cbn [negb]; [|by apply (stale_ok i _ q s r K Hi)].
  apply Nat.eqb_eq in E. cbn in E. subst q.
  destruct (ok_overview _ _ K i _ Hi eq_refl) as [(? & ? & [=])|Hr].
  destruct c as [[l total]|]; (apply (loaded_ok i _ s _ _ K Hi); try done).
  - intros _. by apply (morph_clears None).
  - rewrite Hr. apply (render_overview_route _ (activeRepository s)).
  - rewrite Hr. by left.
Qed.

Lemma more_ok i q np c s r : cargo_ok s r -> operations s !! i = Some (LoadMorePackages q np) ->
  cargo_ok (more_answered q np c (close i s)) r.
Proof.
  intros K Hi. unfold more_answered. destruct (q =? cargoLoadSequence (close i s))%nat eqn:E; cbn [negb]; [|by apply (stale_ok i _ q s r K Hi)].
  apply Nat.eqb_eq in E. cbn in E. subst q.
  destruct (ok_overview _ _ K i _ Hi eq_refl) as [(? & ? & [=])|Hr].
  destruct c as [[l total]|]; (apply (loaded_ok i _ s _ _ K Hi); try done).
  - intros _. apply (morph_clears (Some (cargoLoadSequence s))), Nat.eqb_refl.
  - rewrite Hr. apply (render_overview_route _ (activeRepository s)).
  - apply (shows_route_same s); [same_tac|]. exact (ok_more _ _ K i _ np Hi eq_refl).
Qed.

Lemma details_ok i q path d s r : cargo_ok s r -> operations s !! i = Some (LoadPackage q path) ->
  match d with Some d => answers_path path d = true | None => True end -> cargo_ok (details_answered q d (close i s)) r.
Proof.
  intros K Hi Ha. unfold details_answered. destruct (q =? cargoLoadSequence (close i s))%nat eqn:E; cbn [negb]; [|by apply (stale_ok i _ q s r K Hi)].
  apply Nat.eqb_eq in E. cbn in E. subst q. destruct (ok_path _ _ K i _ _ Hi eq_refl) as (n & Hr & ->).
  destruct d as [d|]; [|apply (loaded_ok i _ s _ _ K Hi); try done; rewrite Hr; by left].
  apply andb_true_iff in Ha as [Ha Hv]. apply bool_decide_eq_true in Ha. rewrite package_path_name in Ha. injection Ha as Ha.
  set (s1 := set_details (Some d) (administrator d) (close i s)). destruct (render_package_frame s1) as (V1 & V2 & V3 & V4 & V5 & V6 & V7 & V9).
  apply (loaded_ok i _ s _ _ K Hi); try done; [intros _; by apply (morph_clears None)|]. rewrite Hr.
  apply (shows_route_same (render_package s1)); [same_tac|]. right.
  destruct (render_package_shows s1 d eq_refl) as (p & u & -> & Ht). split; [done|]. exists d, p. split_and!; try done; congruence.
Qed.

Lemma load_more_ok s r c l : cargo_ok s r -> ~ loading s -> shown s = OverviewScreen c l true -> cargo_ok (loadMoreCargoPackages s) r.
Proof.
  intros K Hb Hs. unfold loadMoreCargoPackages. destruct (can_load_more _); [|done]. pose proof (ok_shown _ _ K Hb) as Hv.
  assert (exists repo, r = Some (repo, OverviewRoute)) as [repo Hr].
  { destruct r as [[repo [|n|]]|]; unfold shows_route in Hv; [by exists repo| | |].
    - destruct Hv as [[? _]|(_ & d & p & _ & _ & _ & ? & _)]; congruence.
    - destruct Hv; congruence.
    - destruct Hv; congruence. }
  assert (Hrepo : repo = activeRepository s). { pose proof (ok_route _ _ K) as Ho. rewrite Hr in Ho. by destruct Ho. }
  subst repo. assert (Hidle : forall i o, operations s !! i = Some o -> load_sequence o <> Some (cargoLoadSequence s)) by (intros i o; by apply not_loading).
  assert (Hl : loading (begin (LoadMorePackages (cargoLoadSequence s) (S (activeCatalogPage (the_catalog s)))) (set_busy true s))).
  { eexists (next s), _. split; [apply lookup_insert_eq|]. by rewrite current_sequence. }
  split; cbn [begin set_busy set_cargo_view set_operations operations next cargoLoadSequence busy activeRepository activePackageDetails hidden].
  - intros i o. rewrite lookup_insert_Some. intros [[<- _]|[_ Hi]]; [lia|]. pose proof (ok_next _ _ K i o Hi). lia.
  - intros i o q. rewrite lookup_insert_Some. intros [[_ <-]|[_ Hi]] E; [injection E as <-; lia|]. by apply (ok_sequence _ _ K i o).
  - intros i j o1 o2. rewrite !lookup_insert_Some.
    intros [[<- _]|[_ Hi]] [[<- _]|[_ Hj]] E1 E2; [done| | |]; [by destruct (Hidle j o2 Hj)|by destruct (Hidle i o1 Hi)..].
  - intros _. apply pending_false. intros i o. cbn [begin set_busy set_cargo_view set_operations operations next]. rewrite lookup_insert_Some.
    intros [[_ <-]|[_ Hi]]; [done|]. destruct (page_operation o) eqn:Ho; [|done].
    destruct (pending_route s r i o K Hi Ho) as (n & d & (_ & E & _) & _). congruence.
  - intros i q path. rewrite lookup_insert_Some. intros [[_ [=]]|[_ Hi]]. by apply (ok_path _ _ K i).
  - intros i o. rewrite lookup_insert_Some. intros [[_ <-]|[_ Hi]] E; [by right|]. by apply (ok_overview _ _ K i o).
  - apply K.
  - intros i o. rewrite lookup_insert_Some. intros [[_ <-]|[_ Hi]] Ho; [done|]. by apply (ok_page _ _ K i o).
  - intros Hn. by destruct Hn.
  - intros i q page _ _. apply (shows_route_same s); [same_tac|done].
  - intros _. by left.
  - done.
Qed.

(** The end of an animation. *)
Lemma morphed_ok i s r : cargo_ok s r -> (calm -> ~ loading s) -> cargo_ok (morphed i s) r.
Proof.
  intros K Hc. unfold morphed. destruct (animations s !! i) as [a|] eqn:Ha; [|done].
  assert (Hbase : forall l s0, (s0 = s \/ s0 = set_busy false s) -> (busy s0 = true -> waited (set_animations l s0) r) ->
    cargo_ok (set_animations l s0) r).
  { intros l s0 Hs0 Hw. assert (V : same_view s (set_animations l s0)) by (destruct Hs0 as [-> | ->]; same_tac).
    split; try (destruct Hs0 as [-> | ->]; first [exact (ok_next _ _ K)|exact (ok_sequence _ _ K)|exact (ok_current _ _ K)|exact (ok_busy _ _ K)|
      exact (ok_path _ _ K)|exact (ok_overview _ _ K)|exact (ok_route _ _ K)|exact (ok_page _ _ K)]); try done.
    - intros Hn. apply (shows_route_same s); [done|]. apply K. by destruct Hs0 as [-> | ->].
    - intros j q page Hj Hq. apply (shows_route_same s); [done|]. apply (ok_more _ _ K j q page); by destruct Hs0 as [-> | ->].
    - intros Hcalm Hl. destruct (Hc Hcalm). by destruct Hs0 as [-> | ->]. }
  destruct (clears s a) eqn:Hcl; (apply Hbase; [auto|]); [done|]. intros Hb.
  destruct (ok_waits _ _ K Hb) as [H|[(b & H1 & H2)|H]]; [by left|right; left|by right; right]. exists b. split; [|done]. cbn [set_animations animations].
  apply list_elem_of_lookup in H1 as [j Hj]. assert (j <> i) by (intros ->; congruence).
  apply list_elem_of_lookup. destruct (decide (j < i)).
  - exists j. by rewrite list_lookup_delete_lt.
  - exists (pred j). rewrite list_lookup_delete_ge by lia. by replace (S (pred j)) with j by lia.
Qed.

Lemma answer_ok i a s r : cargo_ok s r -> orderly (Answered i a) s = true -> cargo_ok (answered i a s) r.
Proof.
  intros K Ho. unfold answered. destruct (operations s !! i) as [o|] eqn:Hi; [|done].
  destruct o as [q m|q path|q np|p|p path|path], a as [c mg|d|c| |]; try done.
  - by apply catalog_answer_ok.
  - apply (details_ok i q path); [done..|]. destruct d; [|done]. cbn in Ho. by rewrite Hi in Ho.
  - by apply more_ok.
  - destruct (pending_route s r i _ K Hi eq_refl) as (n & d & Hr & Hc). apply (after_success_ok _ _ _ n d); [|by apply close_route].
    by apply output_ok, (close_page_ok i _ s r K Hi).
  - destruct (pending_route s r i _ K Hi eq_refl) as (n & d & Hr & Hc). cbv zeta. destruct (keeps_dialog p); [|by apply output_ok, (close_page_ok i _ s r K Hi)].
    apply (begin_ok _ _ _ n d); [by apply output_ok, (close_page_ok i _ s r K Hi)|by apply close_route|done|]. by destruct Hc.
  - apply (refreshed_ok i path); [done..|]. destruct d; [|done]. cbn in Ho. by rewrite Hi in Ho.
Qed.

Lemma title_kept w d ev u p : title (fixed_header (snd (CargoPage.cargo_step w d ev (u, p)))) = title (fixed_header p).
Proof.
  unfold CargoPage.cargo_step. destruct ev; unfold choose_version, go_to_page; cbn [fst snd]; repeat (case_match; try done).
Qed.

Lemma step_ok ev s r : cargo_ok s r -> orderly ev s = true -> (calm -> unhurried ev s = true) -> cargo_ok (repository_step ev s) (track ev s r).
Proof.
  intros K Ho Hcalm. destruct ev as [path ic nav| |changed path|b user| | |pb|ev|i yes|i a|i]; cbn [orderly] in Ho; try (apply negb_true_iff in Ho);
    try apply cargo_loading_false in Ho.
  - by apply (visit_ok _ _ _ s r).
  - by apply (hide_ok s r).
  - cbn. unfold handleCargoStateChanged. cbv zeta. case_match; [done|]. by apply (visit_ok path true (can_navigate s) s r).
  - revert K. apply frame_ok; [same_tac|done..].
  - by apply language_ok.
  - cbn. destruct (shown s) as [| | |c l more|] eqn:Hs; try done. destruct more; [|done]. destruct (hidden s); [done|]. by apply (load_more_ok s r c l).
  - by apply press_button_ok.
  - cbn [repository_step track]. destruct (activePackageDetails s) as [d|] eqn:Hd; [|done]. destruct (shown s) as [| | | |p] eqn:Hs; try done.
    pose proof (title_kept (the_viewer s) d ev (ui s) p) as Ht. destruct (CargoPage.cargo_step _ _ _ _) as [u p'].
    revert K. apply frame_ok; [|done..]. unfold same_view. split_and!; auto. right. by exists p, p'.
  - by apply confirmed_ok.
  - by apply answer_ok.
  - apply morphed_ok; [done|]. intros Hc. apply cargo_loading_false. specialize (Hcalm Hc). by apply negb_true_iff in Hcalm.
Qed.

Lemma start_cargo_ok b user : cargo_ok (start b user) None.
Proof. split; try done. intros _ (i & o & Hi & _). cbn in Hi. by rewrite lookup_empty in Hi. Qed.

Lemma tracked_ok evs s r : cargo_ok s r -> orderly_run evs s = true -> (calm -> unhurried_run evs s = true) ->
  cargo_ok (fst (tracked evs (s, r))) (snd (tracked evs (s, r))).
Proof.
  revert s r. induction evs as [|ev evs IH]; intros s r K Ho Hc; [done|]. cbn in Ho. apply andb_true_iff in Ho as [H1 H2].
  unfold tracked. cbn [fold_left]. apply IH; [apply step_ok; [done..|]|done|]; intros Hx; specialize (Hc Hx); cbn in Hc; by apply andb_true_iff in Hc as [? ?].
Qed.

End cargo.

(** ** Properties *)
Module Examples.
#[local] Existing Instance latin_case.
#[local] Existing Instance unit_collation.
#[local] Existing Instance CargoPage.Examples.https_url.

(** A package that its repository marks with its own name. *)
Definition held (repo n : string) (vs : list string) : details := {|
  pkg := {| name := js n; permission_level := 4; archived := false; admin_archived := false; mirrored := false; deprecated := false;
            locks := []; super_team_prefix := []; updated_at := 5; package_links := ([], [], []); description := js repo; readme := [] |};
  versions := map (fun v => CargoPage.Examples.release v false false) vs;
  members := [{| login := js "ann"; user_id := js "u1"; level := 4; added_at := 1 |}];
  administrator := false; moderator := false |}.

Definition registry_serves (path : list jstr) (p : package) : bool :=
  match path with repo :: _ => (description p =? repo)%js | [] => false end.

Definition demo : details := held "crates" "demo" ["2.0.0"; "1.0.0"].
Definition lib : details := held "other" "lib" ["1.0.0"].

Definition run (evs : list repository_event) : cargo := fst (tracked evs (start true (js "Ann"), None)).
Definition paths (s : cargo) : list (list jstr) :=
  omap (fun p => match p.2 with Requesting _ path | Refreshing path => Some path | _ => None end) (map_to_list (operations s)).
Definition page_title (s : cargo) : option jstr := match shown s with PackageScreen p => Some (title (fixed_header p)) | _ => None end.
Definition to_demo : repository_event := Visit (js "/crates/packages/demo") true true.
Definition to_lib : repository_event := Visit (js "/other/packages/lib") true true.
Definition lib_shown (i : nat) : list repository_event := [to_lib; Answered i (DetailsAnswer (Some lib))].

(** The catalog, then a package whose load another visit interrupts, an operation and its refresh, and the answer that
    comes late. *)
Definition tour : list repository_event :=
  [Visit (js "/crates") true true; Answered 0 (CatalogAnswer (Some ([], 0)) None); to_lib; to_demo;
   AnimationEnded 0; Answered 2 (DetailsAnswer (Some demo)); Press PressArchive; Answered 3 Accepted; Answered 1 (DetailsAnswer (Some lib));
   LanguageChanged; AnimationEnded 0; Answered 4 (DetailsAnswer (Some demo)); Press PressDeletePackage; Confirmed 5 true].

Lemma tour_orderly : orderly_run registry_serves tour (start true (js "Ann")) = true.
Proof. vm_compute. done. Qed.

Lemma tour_shows :
  let s := run tour in
  page_title s = Some (js "demo") /\ paths s = [[js "crates"; js "api"; js "v1"; js "crates"; js "demo"]] /\ is_loading s = false /\ busy s = false /\
  outputs s = [Alert "cargo.packageArchived"].
Proof. vm_compute. done. Qed.

(** A refresh that ends after the user has moved on shows the former package at the new address. *)
Lemma refresh_overtakes :
  let s := run ([to_demo; Answered 0 (DetailsAnswer (Some demo)); Press PressArchive; Answered 1 Accepted] ++ lib_shown 3 ++
                [Answered 2 (DetailsAnswer (Some demo))]) in
  page_title s = Some (js "demo") /\ activeRepository s = js "other".
Proof. vm_compute. done. Qed.

(** A button of the page that stays while the next one loads acts on a package of the new repository. *)
Lemma press_while_loading :
  paths (run [to_demo; Answered 0 (DetailsAnswer (Some demo)); to_lib; Press PressArchive]) =
  [[js "other"; js "api"; js "v1"; js "crates"; js "demo"; js "archive"]].
Proof. vm_compute. done. Qed.

(** A deletion confirmed after the user has moved on deletes the package of that name in the new repository. *)
Lemma confirmed_elsewhere :
  paths (run ([to_demo; Answered 0 (DetailsAnswer (Some demo)); Press PressDeletePackage] ++ lib_shown 2 ++ [Confirmed 1 true])) =
  [[js "other"; js "api"; js "v1"; js "crates"; js "demo"]].
Proof. vm_compute. done. Qed.

(** The version chosen on one crate stays chosen on the next that has one of that name. *)
Lemma version_carried :
  let s := run [to_demo; Answered 0 (DetailsAnswer (Some demo)); OnPage (ClickVersion 1);
                Visit (js "/crates/packages/next") true true; Answered 1 (DetailsAnswer (Some (held "crates" "next" ["3.0.0"; "1.0.0"])))] in
  activeSelectedVersion (ui s) = js "1.0.0".
Proof. vm_compute. done. Qed.

(** The animation of a page that was replaced takes the mark from the page that is loaded next. *)
Lemma cargo_animation_clears_mark :
  let s := run [to_demo; Answered 0 (DetailsAnswer (Some demo)); to_lib; AnimationEnded 0] in
  page_title s = Some (js "demo") /\ is_loading s = true /\ busy s = false.
Proof. vm_compute. done. Qed.

(** An unknown address leaves the load it interrupts marked as under way. *)
Lemma stays_busy :
  let s := run [to_demo; Visit (js "/crates/nowhere") true true; Answered 0 (DetailsAnswer (Some demo))] in
  busy s = true /\ operations s = ∅ /\ animations s = [].
Proof. vm_compute. done. Qed.
End Examples.

Section properties.
Context {UC : UnicodeCase} {CO : Collation} {UP : UrlParser}.
Variable serves : list jstr -> package -> bool.

(** C17: a visitor moves between the addresses of Cargo repositories, presses buttons, answers dialogs, requests and the
    animations of replaced pages end in any order, the language and the account change; the visitor stays while an operation
    of the page is under way, and uses a page, and changes the language, when no load of the address is under way.  The
    server answers a request for a package with that package.  Then, whenever no load of the address is under way, the view
    shows what the current address names: the packages of the catalog as last loaded, the page of that package as the server
    gave it for that repository and name, or an error, and nothing when no Cargo repository is open; only the newest load of
    an address still changes the screen.  Every operation under way is about the package of the address, with a request for
    that package in that repository.  The view is marked busy only while a load of the address is under way, or an animation
    whose end takes the mark away, except at an unknown address; and it is marked during the whole load if no animation ends
    in the meantime. *)
Theorem cargo_pages_follow_route b user evs s r : orderly_run serves evs (start b user) = true -> tracked evs (start b user, None) = (s, r) ->
  (is_loading s = false -> shows_route serves s r) /\
  (forall i o, operations s !! i = Some o -> page_operation o = true ->
     exists repo n d, r = Some (repo, PackageRoute n) /\ activePackageDetails s = Some d /\ name (pkg d) = n /\ concerns repo n o) /\
  (busy s = true ->
     is_loading s = true \/ (exists a, a ∈ animations s /\ clears s a = true) \/ exists repo, r = Some (repo, UnknownRoute)) /\
  (unhurried_run evs (start b user) = true -> is_loading s = true -> busy s = true).
Proof.
  intros Ho Hrun. set (calm := unhurried_run evs (start b user) = true).
  pose proof (tracked_ok serves calm evs _ _ (start_cargo_ok serves calm b user) Ho ltac:(done)) as K.
  rewrite Hrun in K. cbn [fst snd] in K. rewrite cargo_loading_false, cargo_loading_true. split_and!; try apply K.
  intros i o Hi Hp. destruct (pending_route serves calm _ _ i o K Hi Hp) as (n & d & (_ & Hr & Hd & Hn) & Hc). eauto 8.
Qed.
End properties.

Lemma cargo_pages_follow_route_witness :
  @orderly_run latin_case unit_collation CargoPage.Examples.https_url Examples.registry_serves Examples.tour (start true (js "Ann")) = true /\
  @shows_route latin_case Examples.registry_serves (Examples.run Examples.tour) (Some (js "crates", PackageRoute (js "demo"))).
Proof.
  split; [exact Examples.tour_orderly|].
  exact (proj1 (@cargo_pages_follow_route latin_case unit_collation CargoPage.Examples.https_url Examples.registry_serves true (js "Ann")
                  Examples.tour (Examples.run Examples.tour) (Some (js "crates", PackageRoute (js "demo"))) Examples.tour_orderly
                  ltac:(vm_compute; reflexivity)) ltac:(vm_compute; reflexivity)).
Defined.
