(* ===== verification/NpmPackage.v ===== *)
(** * The page of an npm package

    [internal/service/frontend/renop-html/js/browser/npm.js]: what the page shows of a package and to whom, its versions in
    pages, its team, and what the invitation form sends.  The list and the addresses are [NpmRepository]'s. *)
From Stdlib Require Import Sorting.Sorted.
From S2P Require Import Prelude JsString JsArray JsNumber JsUri BrowserUtils Markdown PackageParts Pages.
Local Open Scope nat_scope.

(** ** Data *)
Record npm_version := {
  version_id : jstr;
  pending_review : bool;                (* [review_status === 'pending'] *)
  version_mirrored : bool;
  version_deprecated : jstr;
  unpublished : bool;
  version_locks : list lock;
  version_publisher : jstr;
  version_size : N;
  version_created : N;
  integrity : jstr;
  shasum : jstr
}.

Record npm_package := {
  name : jstr;
  private : bool;
  archived : bool;
  mirrored : bool;
  deprecated : bool;
  permission_level : nat;
  locks : list lock;
  description : jstr;
  latest_version : jstr;
  package_repository : jstr;
  super_team_prefix : jstr;
  version_count : N;
  publisher : jstr;
  publish_enabled : bool;
  created_at : N;
  updated_at : N
}.

Record person := { person_name : jstr; person_email : jstr; person_url : jstr }.

Record project := {
  author : option person;
  contributors : list (option person);
  maintainers : list (option person);
  keywords : list jstr;
  homepage : jstr;
  source_repository : jstr;
  bugs : jstr;
  funding : list jstr;
  license : jstr;
  node_engine : jstr;
  package_manager : jstr;
  readme : jstr;
  readme_filename : jstr
}.

Record npm_member := { member_name : jstr; user_id : jstr; level : nat; added_at : N }.

Record npm_details := {
  pkg : npm_package;
  versions : list npm_version;
  dist_tags : list (jstr * jstr);       (* [Object.entries]: the tag and its version *)
  members : list npm_member;
  member_count : N;
  administrator : bool;
  moderator : bool;
  is_member : bool;
  published : project
}.

(** What is read outside the details. *)
Record npm_viewer := { repository : jstr; signed_in : bool; username : jstr; site_origin : jstr; site_host : jstr }.

(** ** Texts with addresses *)
(** A text is built from parts that are written as they are or by [encodeURIComponent]; [None]: a lone surrogate. *)
Inductive piece := Raw (s : jstr) | Enc (s : jstr).

Definition piece_text (p : piece) : option jstr := match p with Raw s => Some s | Enc s => encodeURIComponent s end.
Definition pieces_text (ps : list piece) : option jstr := @List.concat N <$> mapM piece_text ps.

Definition tarballURL (w : npm_viewer) (packageName version : jstr) : list piece :=
  let baseName := match last_index_of_char 47 packageName with Some i => slice_from (S i) packageName | None => packageName end in
  [Raw [47%N]; Enc (repository w)] ++ List.concat (map (fun part => [Raw [47%N]; Enc part]) (split 47 packageName)) ++
  [Raw (js "/-/"); Enc (baseName ++ js "-" ++ version ++ js ".tgz")].

(** The commands, each with its heading. *)
Definition registryCommands (w : npm_viewer) (packageName : jstr) : list (string * list piece) :=
  let registry := [Raw (site_origin w ++ [47%N]); Enc (repository w); Raw [47%N]] in
  let authPath := [Raw (site_host w ++ [47%N]); Enc (repository w); Raw [47%N]] in
  ("npm.configureRegistry"%string,
   [Raw (js "npm config set registry ")] ++ registry ++ [Raw ([10%N] ++ js "npm config set //")] ++ authPath ++
   [Raw (js ":_authToken <API_TOKEN>")]) ::
  (if nonempty packageName then
     [("npm.installPackage"%string, [Raw (js "npm install " ++ packageName ++ js " --registry ")] ++ registry);
      ("npm.publishPackage"%string, [Raw (js "npm publish --registry ")] ++ registry)]
   else []).

(** ** Facts *)
Inductive fact_value :=
| Text (t : text)
| Count (n : N)
| Identity (user : jstr)
| TeamLink (prefix : jstr)
| Persons (ps : list (jstr * jstr * jstr))      (* what is shown of each: its name, its link and its address *)
| Words (ws : list jstr)
| Level (l : nat)
| Time (n : N).

Record fact := { fact_label : string; fact_shown : fact_value; fact_code : bool; fact_wide : bool }.

(** [createRepositoryFactsSection] leaves out facts without a value. *)
Definition fact_of (f : string * option fact_value * bool * bool) : option fact :=
  let '(label, v, code, wide) := f in
  v ← v;
  if match v with Text (Lit []) => false | _ => true end
  then Some {| fact_label := label; fact_shown := v; fact_code := code; fact_wide := wide |} else None.

Definition createRepositoryFactsSection (facts : list (string * option fact_value * bool * bool)) : list fact := omap fact_of facts.

Definition permissionLabel (l : nat) : nat := Nat.max 0 (Nat.min 4 l).

(** [packageScope]: the scope, with its [@]. *)
Definition packageScope (packageName : jstr) : jstr :=
  if starts_with (js "@") packageName then hd [] (split 47 packageName) else [].

Section facts.
Context {UC : UnicodeCase} {UP : UrlParser}.

(** A link is shown when its address is safe; its label, and the address. *)
Definition npmProjectLink (label : text) (value : jstr) : option (text * jstr) :=
  let href := safeMarkdownURL value in if nonempty href then Some (label, href) else None.

Definition npmProjectPerson (p : option person) : option (jstr * jstr * jstr) :=
  p ← p;
  if negb (nonempty (person_name p)) && negb (nonempty (person_email p)) && negb (nonempty (person_url p)) then None
  else Some (str_or (person_name p) (person_url p), safeMarkdownURL (person_url p), person_email p).

Definition npmProjectPeople (people : list (option person)) : option fact_value :=
  match omap npmProjectPerson people with [] => None | ps => Some (Persons ps) end.

(** The facts and the links of the published project; [None]: there is nothing to show. *)
Definition projectMetadataSection (p : project) : option (list fact * list (text * jstr)) :=
  let links := omap id ([npmProjectLink (Key (js "npm.homepage")) (homepage p);
                         npmProjectLink (Key (js "npm.sourceRepository")) (source_repository p);
                         npmProjectLink (Key (js "npm.bugTracker")) (bugs p)] ++
                        map (npmProjectLink (Key (js "npm.fundingLink"))) (funding p)) in
  let words := match keywords p with [] => None | ws => Some (Words ws) end in
  let facts :=
    [("npm.author"%string, (fun x => Persons [x]) <$> npmProjectPerson (author p), false, true);
     ("npm.contributors"%string, npmProjectPeople (contributors p), false, true);
     ("npm.maintainers"%string, npmProjectPeople (maintainers p), false, true);
     ("npm.license"%string, Some (Text (Lit (license p))), false, false);
     ("npm.nodeEngine"%string, Some (Text (Lit (node_engine p))), true, false);
     ("npm.packageManager"%string, Some (Text (Lit (package_manager p))), true, false);
     ("npm.keywords"%string, words, false, true)] in
  match createRepositoryFactsSection facts, links with [], [] => None | fs, _ => Some (fs, links) end.

Definition package_facts (d : npm_details) : list fact :=
  let p := pkg d in
  let team := to_lower (trim (super_team_prefix p)) in
  createRepositoryFactsSection
    [("npm.packageName"%string, Some (Text (Lit (name p))), true, true);
     ("npm.repository"%string, Some (Text (Lit (package_repository p))), true, false);
     ("npm.scope"%string, Some (Text (lit_or (packageScope (name p)) "npm.unscoped")), nonempty (packageScope (name p)), false);
     ("superTeam.projectOwner"%string, if nonempty team then Some (TeamLink team) else None, false, false);
     ("npm.latestVersion"%string, Some (Text (lit_or (latest_version p) "npm.noVersions")), true, false);
     ("npm.versionCount"%string, Some (Count (version_count p)), false, false);
     ("npm.distTagCount"%string, Some (Count (N.of_nat (length (dist_tags d)))), false, false);
     ("npm.memberCountLabel"%string, Some (Count (member_count d)), false, false);
     ("npm.publisher"%string, Some (if nonempty (publisher p) then Identity (publisher p) else Text (Key (js "common.unknown"))), false, false);
     ("npm.visibility"%string, Some (Text (Key (js (if private p then "npm.private" else "npm.public")))), false, false);
     ("npm.origin"%string, Some (Text (Key (js (if mirrored p then "npm.mirrorOrigin" else "npm.localOrigin")))), false, false);
     ("npm.publishStatus"%string, Some (Text (Key (js (if publish_enabled p then "npm.publishEnabled" else "npm.publishDisabled")))), false, false);
     ("npm.created"%string, Some (Time (created_at p)), false, false);
     ("npm.updated"%string, Some (Time (updated_at p)), false, false);
     ("npm.permission"%string,
      Some (if administrator d then Text (Key (js "npm.administrator"))
            else if is_member d then Level (permissionLabel (permission_level p)) else Text (Key (js "npm.publicAccess"))), false, true)].
End facts.

(** ** Header *)
Inductive npm_button :=
| LockPackage
| DeprecatePackage
| EditDescription
| TransferPackage
| SetPrivate (b : bool)
| SetArchived (b : bool)
| DeletePackage.

Definition package_badges (p : npm_package) : list string :=
  (if private p then ["npm.private"%string] else []) ++ (if archived p then ["npm.archived"%string] else []) ++
  (if mirrored p then ["common.fromMirror"%string] else []).

Definition hero_buttons (d : npm_details) : list npm_button :=
  let p := pkg d in
  let canLifecycle := administrator d || (2 <=? permission_level p) in
  let canOwn := administrator d || (4 <=? permission_level p) in
  let canDeprecate := administrator d || (3 <=? permission_level p) in
  let canChange := negb (deprecated p) && negb (resourceWriteLocked [locks p]) in
  let canRewrite := canChange && negb (existsb (fun v => resourceWriteLocked [version_locks v]) (versions d)) in
  (if moderator d then [LockPackage] else []) ++
  (if canDeprecate && negb (mirrored p) && canRewrite then [DeprecatePackage] else []) ++
  (if canLifecycle && negb (mirrored p) && canChange then [EditDescription] else []) ++
  (if canOwn && negb (mirrored p) && canChange then
     [TransferPackage] ++ (if starts_with (js "@") (name p) then [SetPrivate (negb (private p))] else []) ++
     (if canRewrite then [SetArchived (negb (archived p))] else []) ++ (if canRewrite then [DeletePackage] else [])
   else []).

Record npm_hero := {
  hero_title : jstr;
  hero_badges : list string;
  hero_description : text;
  hero_report : bool;
  hero_shown : list npm_button
}.

Definition packageHero (w : npm_viewer) (d : npm_details) : npm_hero := {|
  hero_title := name (pkg d);
  hero_badges := package_badges (pkg d);
  hero_description := lit_or (description (pkg d)) "npm.noDescription";
  hero_report := createTicketReportButton
    (mirrored (pkg d) || (4 <=? permission_level (pkg d)) || resourceReadLocked [locks (pkg d)]) (signed_in w);
  hero_shown := hero_buttons d
|}.

(** ** Versions *)
(** The comparison of tags, by base letters. *)
Class TagOrder := { tag_compare : jstr -> jstr -> Z }.

(** ECMA-402 asks that it be a consistent comparison. *)
Class TagOrderLaws `{TagOrder} := {
  tag_antisym : forall a b, Z.sgn (tag_compare b a) = (- Z.sgn (tag_compare a b))%Z;
  tag_trans : forall a b c, (tag_compare a b <= 0 -> tag_compare b c <= 0 -> tag_compare a c <= 0)%Z;
}.

Section versions.
Context {TO : TagOrder}.

(** [tagsByVersion]: the tags of each version, in the order of the entries. *)
Definition add_tag (m : gmap jstr (list jstr)) (entry : jstr * jstr) : gmap jstr (list jstr) :=
  <[entry.2 := default [] (m !! entry.2) ++ [entry.1]]> m.

Definition tagsByVersion (d : npm_details) : gmap jstr (list jstr) := fold_left add_tag (dist_tags d) ∅.

Definition tag_names (d : npm_details) (v : npm_version) : list jstr :=
  array_sort tag_compare (default [] (tagsByVersion d !! version_id v)).

Inductive version_badge := Tag (t : jstr) | State (k : string).

Inductive npm_version_button := LockVersion | DeleteVersion.

Record version_item := {
  item_version : jstr;
  item_badges : list version_badge;
  item_publisher : text;
  item_size : option N;
  item_digests : list (string * jstr);
  item_report : bool;
  item_tarball : option (list piece);
  item_buttons : list npm_version_button;
  item_deprecation : jstr;
  item_notices : list (jstr * text * bool * bool)
}.

Definition version_states (d : npm_details) (v : npm_version) : list version_badge :=
  map Tag (tag_names d v) ++ (if version_mirrored v then [State "common.fromMirror"] else []) ++
  (if nonempty (version_deprecated v) then [State "npm.deprecated"] else []) ++
  (if unpublished v then [State "npm.unpublished"] else []) ++ (if pending_review v then [State "npm.reviewPending"] else []).

Definition can_delete (d : npm_details) : bool :=
  negb (deprecated (pkg d)) && negb (resourceWriteLocked [locks (pkg d)]) && (administrator d || (2 <=? permission_level (pkg d))).

Definition item_actions (d : npm_details) (v : npm_version) : list npm_version_button :=
  (if moderator d && negb (pending_review v) then [LockVersion] else []) ++
  (if negb (unpublished v) && negb (pending_review v) then
     if can_delete d && negb (version_mirrored v) && negb (resourceWriteLocked [version_locks v]) then [DeleteVersion] else []
   else []).

Definition copyableVersionMetadata (label : string) (value : jstr) : list (string * jstr) :=
  if nonempty value then [(label, value)] else [].

Definition npmVersionItem (w : npm_viewer) (d : npm_details) (v : npm_version) : version_item := {|
  item_version := version_id v;
  item_badges := version_states d v;
  item_publisher := lit_or (version_publisher v) "common.unknown";
  item_size := if (0 <? version_size v)%N then Some (version_size v) else None;
  item_digests := copyableVersionMetadata "npm.integrity" (integrity v) ++ copyableVersionMetadata "npm.shasum" (shasum v);
  item_report := createTicketReportButton
    (pending_review v || unpublished v || version_mirrored v || mirrored (pkg d) || (4 <=? permission_level (pkg d)) ||
     resourceReadLocked [locks (pkg d); version_locks v]) (signed_in w);
  item_tarball :=
    if negb (unpublished v) && negb (pending_review v) && negb (resourceReadLocked [locks (pkg d); version_locks v])
    then Some (tarballURL w (name (pkg d)) (version_id v)) else None;
  item_buttons := item_actions d v;
  item_deprecation := version_deprecated v;
  item_notices := createResourceLockNotices (version_locks v)
|}.

Definition versionPageSize : Z := 8.

Inductive version_node := VersionNode (i : version_item) | NoVersions.

Definition render_version (w : npm_viewer) (d : npm_details) (v : npm_version) (_ : Z) : option version_node :=
  Some (VersionNode (npmVersionItem w d v)).

Definition versionsSection (w : npm_viewer) (d : npm_details) (versionPage : Z) : collection_state npm_version version_node :=
  told (createPaginatedCollection versionPageSize (render_version w d) (Some (Some NoVersions)) (versions d) (Fin versionPage 0)).

Definition by_tag (a b : jstr * jstr) : Z := tag_compare (fst a) (fst b).

(** [None]: no tags. *)
Definition distTagsSection (d : npm_details) : option (list (jstr * jstr)) :=
  match array_sort by_tag (dist_tags d) with [] => None | tags => Some tags end.
End versions.

(** ** The team *)
Inductive member_control :=
| LevelBadge (l : nat)
| LevelSelect (levels : list nat) (current : nat).

(** One row: the level, a button to remove, the mark of an owner. *)
Record member_row := { row_member : jstr; row_control : member_control; row_remove : bool; row_owner : bool }.

Inductive team_section :=
| TeamNotice (k : string)
| Team (rows : list member_row) (invitations : bool).

Definition can_manage (d : npm_details) : bool := administrator d || (3 <=? permission_level (pkg d)).
Definition can_edit (d : npm_details) : bool := can_manage d && negb (resourceWriteLocked [locks (pkg d)]).
Definition can_own (d : npm_details) : bool := administrator d || (4 <=? permission_level (pkg d)).

Definition member_row_of (d : npm_details) (m : npm_member) : member_row :=
  let numericLevel := Nat.min 4 (level m) in {|
  row_member := member_name m;
  row_control :=
    if negb (can_edit d) || (numericLevel =? 4) && negb (can_own d) then LevelBadge (permissionLabel numericLevel)
    else LevelSelect ([0; 1; 2; 3] ++ (if can_own d then [4] else [])) numericLevel;
  row_remove := (numericLevel <? 4) && can_edit d;
  row_owner := negb ((numericLevel <? 4) && can_edit d) && (numericLevel =? 4)
|}.

Definition teamSection (d : npm_details) : team_section :=
  if mirrored (pkg d) then TeamNotice "npm.mirrorNoTeam"
  else if negb (can_manage d) then TeamNotice "npm.teamRestricted"
  else Team (map (member_row_of d) (members d)) (can_edit d).

(** The count beside the heading. *)
Definition team_count (d : npm_details) : N := if (member_count d =? 0)%N then N.of_nat (length (members d)) else member_count d.

(** What submitting the invitation does: the error, or the name that is invited.  [\s] is JavaScript's white space. *)
Definition invitation {UC : UnicodeCase} (w : npm_viewer) (input : jstr) : string + jstr :=
  let user := trim input in
  if negb (nonempty user) then inl "team.inviteUsernameRequired"%string
  else if negb ((length user <=? 255) && forallb (fun c => negb (is_space c || bool_decide (c = 0%N))) user) then inl "npm.invalidUsername"%string
  else
    let currentUsername := to_lower (username w) in
    if nonempty currentUsername && (to_lower user =? currentUsername)%js then inl "npm.cannotInviteSelf"%string else inr user.

(** ** The page *)
Record npm_choices := mk_choices { versionPage : Z; npmPackageView : jstr; inviteLevel : nat }.

Definition set_version_page (p : Z) (u : npm_choices) : npm_choices := mk_choices p (npmPackageView u) (inviteLevel u).
Definition set_package_view (v : jstr) (u : npm_choices) : npm_choices := mk_choices (versionPage u) v (inviteLevel u).
Definition set_invite_level (l : nat) (u : npm_choices) : npm_choices := mk_choices (versionPage u) (npmPackageView u) l.

Inductive section_kind := CommandsSection | ProjectSection | InformationSection | ReadmeSection | VersionsSection | TeamSection.

Record npm_page := mk_page {
  header : npm_hero;
  deprecation_notice : bool;
  lock_notices : list (jstr * text * bool * bool);
  commands : list (string * list piece);
  project_section : option (list fact * list (text * jstr));
  facts : list fact;
  tags : option (list (jstr * jstr));
  readme_shown : jstr;
  version_list : collection_state npm_version version_node;
  team : option (team_section * N);
  invite_level : nat;                   (* what the form's level shows *)
  subpages : option (tabs_state section_kind)
}.

Inductive npm_event :=
| TurnPage (forward : bool)
| Subpage (ev : tab_event)
| ChooseInviteLevel (l : nat).

Section page.
Context {UC : UnicodeCase} {UP : UrlParser} {TO : TagOrder}.
Variables (w : npm_viewer) (d : npm_details).

Definition canManageTeam : bool :=
  negb (mirrored (pkg d)) && negb (deprecated (pkg d)) && (administrator d || (3 <=? permission_level (pkg d))).

Definition npm_tabs (active : jstr) : option (tabs_state section_kind) :=
  createPackageDetailTabs
    [(js "overview", [Some CommandsSection; (fun _ => ProjectSection) <$> projectMetadataSection (published d); Some InformationSection]);
     (js "readme", [if nonempty (readme (published d)) then Some ReadmeSection else None]);
     (js "versions", [Some VersionsSection]);
     (js "team", [if canManageTeam then Some TeamSection else None])] active.

Definition page_at (u : npm_choices) : npm_page := {|
  header := packageHero w d;
  deprecation_notice := deprecated (pkg d);
  lock_notices := createResourceLockNotices (locks (pkg d));
  commands := registryCommands w (name (pkg d));
  project_section := projectMetadataSection (published d);
  facts := package_facts d;
  tags := distTagsSection d;
  readme_shown := readme (published d);
  version_list := versionsSection w d (versionPage u);
  team := if canManageTeam then Some (teamSection d, team_count d) else None;
  invite_level := inviteLevel u;
  subpages := npm_tabs (npmPackageView u)
|}.

(** [createPaginatedCollection] reports the page it starts at, and [createPackageDetailTabs] the tab. *)
Definition settled_choices (u : npm_choices) : npm_choices :=
  let u := set_version_page (currentPage (versionsSection w d (versionPage u))) u in
  match npm_tabs (npmPackageView u) with Some t => set_package_view (current t) u | None => u end.

Definition renderPackage (u : npm_choices) : npm_choices * npm_page := (settled_choices u, page_at u).

Definition set_version_list (c : collection_state npm_version version_node) (p : npm_page) : npm_page :=
  mk_page (header p) (deprecation_notice p) (lock_notices p) (commands p) (project_section p) (facts p) (tags p) (readme_shown p) c
    (team p) (invite_level p) (subpages p).
Definition set_subpages (t : option (tabs_state section_kind)) (p : npm_page) : npm_page :=
  mk_page (header p) (deprecation_notice p) (lock_notices p) (commands p) (project_section p) (facts p) (tags p) (readme_shown p)
    (version_list p) (team p) (invite_level p) t.
Definition set_shown_level (l : nat) (p : npm_page) : npm_page :=
  mk_page (header p) (deprecation_notice p) (lock_notices p) (commands p) (project_section p) (facts p) (tags p) (readme_shown p)
    (version_list p) (team p) l (subpages p).

Definition npm_step (ev : npm_event) (s : npm_choices * npm_page) : npm_choices * npm_page :=
  let '(u, p) := s in
  match ev with
  | TurnPage forward =>
    let c := told (page_step versionPageSize (render_version w d) (Some (Some NoVersions))
                     (if forward then ClickNext else ClickPrevious) (version_list p)) in
    (set_version_page (currentPage c) u, set_version_list c p)
  | Subpage ev =>
    match subpages p with
    | Some t => let t := tab_step ev t in (set_package_view (current t) u, set_subpages (Some t) p)
    | None => s
    end
  | ChooseInviteLevel l =>
    match team p with
    | Some (Team _ true, _) => if l <=? 4 then (set_invite_level l u, set_shown_level l p) else s
    | _ => s
    end
  end.

Definition npm_run (evs : list npm_event) (s : npm_choices * npm_page) : npm_choices * npm_page :=
  fold_left (fun s ev => npm_step ev s) evs s.
End page.

(** ** Lemmas *)
#[local] Arguments npm_tabs : simpl never.
#[local] Arguments versionsSection : simpl never.

Section page_lemmas.
Context {UC : UnicodeCase} {UP : UrlParser} {TO : TagOrder}.
Variables (w : npm_viewer) (d : npm_details).

Definition versions_shown : collection_state npm_version version_node -> Prop :=
  told_shown versionPageSize (render_version w d) (Some (Some NoVersions)) (versions d).

Lemma versionsSection_shown k : versions_shown (versionsSection w d k).
Proof. by apply told_created. Qed.

Lemma versionsSection_again c : versions_shown c -> versionsSection w d (currentPage c) = c.
Proof. by apply told_again. Qed.

(** The choices that a drawing keeps, and the page that belongs to them. *)
Record settled (u : npm_choices) : Prop := {
  settled_page : currentPage (versionsSection w d (versionPage u)) = versionPage u;
  settled_view : match npm_tabs d (npmPackageView u) with Some t => current t = npmPackageView u | None => True end
}.

Definition coherent (s : npm_choices * npm_page) : Prop := settled (fst s) /\ snd s = page_at w d (fst s).

Lemma settled_kept u : settled u -> settled_choices w d u = u.
Proof.
  intros [Hp Hv]. unfold settled_choices. rewrite Hp. destruct u as [k v l]. cbn in *. destruct (npm_tabs d v) as [t|]; [|done]. cbn. by rewrite Hv.
Qed.

Lemma npm_tabs_again v t : npm_tabs d v = Some t -> npm_tabs d (current t) = Some t.
Proof.
  intros Ht. unfold npm_tabs in *. destruct (createPackageDetailTabs_ok _ _ _ Ht) as [Hok Ha]. by apply tabs_settled.
Qed.

Lemma settled_choices_settled u : settled (settled_choices w d u).
Proof.
  unfold settled_choices. destruct u as [k v l]. cbn [set_version_page versionPage npmPackageView inviteLevel].
  pose proof (versionsSection_again _ (versionsSection_shown k)) as Hk.
  destruct (npm_tabs d v) as [t|] eqn:Ht; split; cbn [set_package_view set_version_page versionPage npmPackageView inviteLevel]; try (by rewrite Hk).
  - by rewrite (npm_tabs_again v t Ht).
  - by rewrite Ht.
Qed.

Lemma page_at_settled u : page_at w d (settled_choices w d u) = page_at w d u.
Proof.
  unfold page_at, settled_choices. destruct u as [k v l]. cbn [set_version_page versionPage npmPackageView inviteLevel].
  pose proof (versionsSection_again _ (versionsSection_shown k)) as Hk.
  destruct (npm_tabs d v) as [t|] eqn:Ht; cbn [set_package_view set_version_page versionPage npmPackageView inviteLevel]; rewrite Hk, ?Ht; [|done].
  by rewrite (npm_tabs_again v t Ht).
Qed.

Lemma render_coherent u : coherent (renderPackage w d u).
Proof. split; [apply settled_choices_settled|]. cbn. by rewrite page_at_settled. Qed.

Lemma coherent_again s : coherent s -> renderPackage w d (fst s) = s.
Proof. intros [Hs Hp]. unfold renderPackage. rewrite settled_kept by done. destruct s. cbn in *. by rewrite Hp. Qed.

Lemma npm_step_coherent ev s : coherent s -> coherent (npm_step w d ev s).
Proof.
  destruct s as [u p]. intros [[Hp Hv] Hs]. cbn [fst snd] in *. subst p. destruct ev as [forward|ev|l]; cbn [npm_step].
  - cbv zeta. set (c := told _). assert (Hc : versions_shown c).
    { apply told_turned; [done|destruct forward; auto|]. apply versionsSection_shown. }
    clearbody c. pose proof (versionsSection_again c Hc) as Ha. destruct u as [k v l]. split.
    + split; cbn; [by rewrite Ha|done].
    + unfold page_at, set_version_list. cbn [fst snd set_version_page versionPage npmPackageView inviteLevel]. by rewrite Ha.
  - destruct (npm_tabs d (npmPackageView u)) as [t|] eqn:Ht; cbn [page_at subpages]; rewrite Ht; [|by split; [split; cbn [fst]; rewrite ?Ht|]].
    unfold npm_tabs in Ht. destruct (createPackageDetailTabs_ok _ _ _ Ht) as [Hok Ha].
    assert (Hn : npm_tabs d (current (tab_step ev t)) = Some (tab_step ev t)).
    { unfold npm_tabs. apply tabs_settled; [by apply tab_step_ok|by rewrite tab_step_available]. }
    destruct u as [k v l]. split.
    + split; cbn [fst set_package_view versionPage npmPackageView]; [done|]. by rewrite Hn.
    + unfold page_at, set_subpages. cbn [fst snd set_package_view versionPage npmPackageView inviteLevel]. by rewrite Hn.
  - cbn [page_at team]. destruct (canManageTeam d); [|by split].
    destruct (teamSection d) as [k|rows []]; [by split| |by split]. destruct (l <=? 4); [|by split]. destruct u as [k v l']. by split; [split|].
Qed.

Lemma npm_run_coherent evs s : coherent s -> coherent (npm_run w d evs s).
Proof. unfold npm_run. revert s. induction evs as [|ev evs IH]; intros s Hs; [done|]. apply IH. by apply npm_step_coherent. Qed.
End page_lemmas.

(** What can be pressed on the page, links, commands and reports left out. *)
Inductive page_button :=
| OfPackage (b : npm_button)
| OfVersion (v : jstr) (b : npm_version_button)
| ChangeLevel (member : jstr)
| RemoveMember (member : jstr)
| Invite.

Definition item_page_buttons (n : version_node) : list page_button :=
  match n with VersionNode i => map (OfVersion (item_version i)) (item_buttons i) | NoVersions => [] end.

Definition member_buttons (r : member_row) : list page_button :=
  (match row_control r with LevelSelect _ _ => [ChangeLevel (row_member r)] | LevelBadge _ => [] end) ++
  (if row_remove r then [RemoveMember (row_member r)] else []).

Definition page_buttons (p : npm_page) : list page_button :=
  map OfPackage (hero_shown (header p)) ++ List.concat (map item_page_buttons (shown (version_list p))) ++
  match team p with Some (Team rows inv, _) => List.concat (map member_buttons rows) ++ (if inv then [Invite] else []) | _ => [] end.

Definition lock_button (b : page_button) : Prop :=
  match b with OfPackage LockPackage | OfVersion _ LockVersion => True | _ => False end.

Section button_lemmas.
Context {UC : UnicodeCase} {UP : UrlParser} {TO : TagOrder}.
Variables (w : npm_viewer) (d : npm_details).

Lemma item_from i k : VersionNode i ∈ shown (versionsSection w d k) -> exists v, v ∈ versions d /\ i = npmVersionItem w d v.
Proof.
  intros Hi. destruct (told_node_from _ _ _ _ _ _ (versionsSection_shown w d k) Hi) as [[=]|(v & j & Hv & [= <-])]. by exists v.
Qed.

Lemma npm_buttons_from u b : b ∈ page_buttons (page_at w d u) ->
  (exists x, b = OfPackage x /\ x ∈ hero_buttons d) \/
  (exists v x, v ∈ versions d /\ b = OfVersion (version_id v) x /\ x ∈ item_actions d v) \/
  canManageTeam d = true /\ can_edit d = true /\
    (b = Invite \/ exists m, m ∈ members d /\ (b = ChangeLevel (member_name m) /\ (level m < 4 \/ can_own d = true) \/
                                                b = RemoveMember (member_name m) /\ level m < 4)).
Proof.
  unfold page_buttons. rewrite !elem_of_app. intros [(x & -> & Hx)%list_elem_of_fmap|[(n & Hn & Hb)%elem_of_concat_map|Hb]].
  - left. by exists x.
  - right. left. destruct n as [i|]; [|by apply not_elem_of_nil in Hb]. cbn [page_at version_list] in Hn. apply item_from in Hn as (v & Hv & ->).
    apply list_elem_of_fmap in Hb as (x & -> & Hx). by exists v, x.
  - right. right. cbn [page_at team] in Hb. destruct (canManageTeam d) eqn:Hc; [|by apply not_elem_of_nil in Hb]. split; [done|].
    unfold teamSection in Hb. destruct (mirrored (pkg d)); [by apply not_elem_of_nil in Hb|].
    destruct (can_manage d); [|by apply not_elem_of_nil in Hb]. cbn [negb] in Hb. apply elem_of_app in Hb as [Hb|Hb].
    + apply elem_of_concat_map in Hb as (r & (m & -> & Hm)%list_elem_of_fmap & Hb). unfold member_row_of, member_buttons in Hb.
      cbn [row_control row_member row_remove] in Hb.
      destruct (can_edit d); [|by rewrite andb_false_r in Hb; apply not_elem_of_nil in Hb]. split; [done|]. right. exists m. split; [done|].
      destruct (Nat.lt_ge_cases (level m) 4) as [Hl|Hl].
      * rewrite (Nat.min_r 4 (level m)), (proj2 (Nat.eqb_neq (level m) 4)), (proj2 (Nat.ltb_lt (level m) 4)) in Hb by lia. cbn in Hb.
        rewrite !elem_of_cons, elem_of_nil in Hb. naive_solver.
      * rewrite (Nat.min_l 4 (level m)) in Hb by lia. cbn in Hb. destruct (can_own d); cbn in Hb; rewrite ?elem_of_cons, elem_of_nil in Hb; naive_solver.
    + destruct (can_edit d); [|by apply not_elem_of_nil in Hb]. apply list_elem_of_singleton in Hb. auto.
Qed.
End button_lemmas.

(** What a header's button needs. *)
Definition rewrites (x : npm_button) : bool :=
  match x with DeprecatePackage | DeletePackage | SetArchived _ => true | _ => false end.

Definition no_version_locked (d : npm_details) : bool := negb (existsb (fun v => resourceWriteLocked [version_locks v]) (versions d)).

Lemma unlocked ls : resourceWriteLocked [ls] = false -> ls = [].
Proof. by destruct ls. Qed.

Lemma level_needed (d : npm_details) k : administrator d || (k <=? permission_level (pkg d)) = true -> 2 <= k ->
  administrator d = true \/ 2 <= permission_level (pkg d).
Proof. intros [H|H%Nat.leb_le]%orb_true_iff Hk; [by left|right; lia]. Qed.

Lemma hero_button_needs d x : x ∈ hero_buttons d -> x = LockPackage /\ moderator d = true \/
  (administrator d = true \/ 2 <= permission_level (pkg d)) /\ locks (pkg d) = [] /\ deprecated (pkg d) = false /\ mirrored (pkg d) = false /\
  (rewrites x = true -> no_version_locked d = true).
Proof.
  unfold hero_buttons. cbv zeta. rewrite !elem_of_app. set (nv := negb (existsb _ _)).
  assert (Hgo : forall k, administrator d || (k <=? permission_level (pkg d)) = true -> 2 <= k -> negb (mirrored (pkg d)) = true ->
    negb (deprecated (pkg d)) && negb (resourceWriteLocked [locks (pkg d)]) = true -> (rewrites x = true -> nv = true) ->
    (administrator d = true \/ 2 <= permission_level (pkg d)) /\ locks (pkg d) = [] /\ deprecated (pkg d) = false /\ mirrored (pkg d) = false /\
    (rewrites x = true -> no_version_locked d = true)).
  { intros k Ha Hk Hm%negb_true_iff [Hd%negb_true_iff Hl%negb_true_iff]%andb_true_iff Hr. split_and!; try done; [by eapply level_needed|by apply unlocked]. }
  intros [H|[H|[H|H]]].
  - destruct (moderator d); [|by apply not_elem_of_nil in H]. apply list_elem_of_singleton in H. auto.
  - right. destruct (_ && _) eqn:E in H; [|by apply not_elem_of_nil in H]. apply list_elem_of_singleton in H. subst x.
    apply andb_true_iff in E as [[Ha Hm]%andb_true_iff [Hc Hr]%andb_true_iff]. by apply (Hgo 3 Ha ltac:(lia)).
  - right. destruct (_ && _) eqn:E in H; [|by apply not_elem_of_nil in H]. apply list_elem_of_singleton in H. subst x.
    apply andb_true_iff in E as [[Ha Hm]%andb_true_iff Hc]. by apply (Hgo 2 Ha ltac:(lia)).
  - right. destruct (_ && _) eqn:E in H; [|by apply not_elem_of_nil in H].
    apply andb_true_iff in E as [[Ha Hm]%andb_true_iff Hc]. apply (Hgo 4 Ha ltac:(lia) Hm Hc). intros Hx. rewrite Hc in H.
    destruct nv; [done|]. destruct (starts_with _ _) in H; cbn in H; rewrite ?elem_of_cons, elem_of_nil in H; naive_solver.
Qed.

Lemma item_action_needs d v x : x ∈ item_actions d v -> pending_review v = false /\
  (x = LockVersion /\ moderator d = true \/
   x = DeleteVersion /\ (administrator d = true \/ 2 <= permission_level (pkg d)) /\ locks (pkg d) = [] /\ deprecated (pkg d) = false /\
   unpublished v = false /\ version_mirrored v = false /\ version_locks v = []).
Proof.
  unfold item_actions, can_delete. rewrite elem_of_app. intros [H|H].
  - destruct (moderator d), (pending_review v); try by apply not_elem_of_nil in H. apply list_elem_of_singleton in H. auto.
  - destruct (unpublished v), (pending_review v); try by apply not_elem_of_nil in H. cbn [negb andb] in H.
    destruct (_ && _) eqn:E in H; [|by apply not_elem_of_nil in H]. apply list_elem_of_singleton in H.
    apply andb_true_iff in E as [[[[Hd Hl]%andb_true_iff Ha]%andb_true_iff Hm]%andb_true_iff Hv].
    apply negb_true_iff in Hd, Hl, Hm, Hv. split; [done|]. right. split_and!; try done; [by eapply level_needed|by apply unlocked..].
Qed.

Lemma some_version_locked d r : no_version_locked d = true -> r ∈ versions d -> version_locks r = [].
Proof.
  intros Hn Hr. apply unlocked. unfold no_version_locked in Hn. apply negb_true_iff in Hn.
  destruct (resourceWriteLocked _) eqn:E; [|done]. assert (H : existsb (fun v => resourceWriteLocked [version_locks v]) (versions d) = true);
    [|congruence]. apply existsb_exists. exists r. by rewrite <- list_elem_of_In.
Qed.

Lemma editable_needs d : canManageTeam d = true -> can_edit d = true ->
  (administrator d = true \/ 2 <= permission_level (pkg d)) /\ locks (pkg d) = [] /\ deprecated (pkg d) = false /\ mirrored (pkg d) = false.
Proof.
  intros [[Hm Hd]%andb_true_iff Ha]%andb_true_iff [_ Hl]%andb_true_iff. apply negb_true_iff in Hm, Hd, Hl.
  split_and!; try done; [apply (level_needed d 3 Ha); lia|by apply unlocked].
Qed.

(** ** Properties *)
Module Examples.
#[local] Existing Instance latin_case.
#[local] Instance https_url : UrlParser := {|
  new_URL raw := Some {| protocol := js "https:"; hostname := js "h"; Markdown.username := []; password := []; url_href := raw |}
|}.
#[local] Instance tag_units : TagOrder := {| tag_compare := @locale_compare unit_collation |}.

Definition release (id : string) (gone pending : bool) (ls : list lock) : npm_version := {|
  version_id := js id; pending_review := pending; version_mirrored := false; version_deprecated := []; unpublished := gone;
  version_locks := ls; version_publisher := js "ann"; version_size := 2048; version_created := 5; integrity := js "sha512-x"; shasum := []
|}.

Definition a_lock : lock := mk_lock (js "write") (js "manual") (js "custom") [] false.

Definition held (n : string) (lvl : nat) (vs : list npm_version) : npm_details := {|
  pkg := {| name := js n; private := false; archived := false; mirrored := false; deprecated := false; permission_level := lvl; locks := [];
            description := []; latest_version := js "1.0.0"; package_repository := js "npm"; super_team_prefix := []; version_count := 3;
            publisher := js "ann"; publish_enabled := true; created_at := 1; updated_at := 5 |};
  versions := vs;
  dist_tags := [(js "next", js "1.1.0"); (js "latest", js "1.0.0"); (js "beta", js "1.1.0")];
  members := [{| member_name := js "ann"; user_id := js "u1"; level := 4; added_at := 1 |};
              {| member_name := js "bob"; user_id := js "u2"; level := 2; added_at := 2 |}];
  member_count := 2; administrator := false; moderator := false; is_member := true;
  published := {| author := Some {| person_name := []; person_email := js "a@h"; person_url := [] |}; contributors := [None]; maintainers := [];
                  keywords := []; homepage := js "https://h/"; source_repository := []; bugs := []; funding := []; license := js "MIT";
                  node_engine := []; package_manager := []; readme := []; readme_filename := [] |} |}.

Definition demo : npm_details :=
  held "@ui/kit" 3 ([release "1.1.0" false true []; release "1.0.0" false false []; release "0.9.0" true false []] ++
                    map (fun k => release k false false []) ["0.8.0"; "0.7.0"; "0.6.0"; "0.5.0"; "0.4.0"; "0.3.0"]).

Definition ann : npm_viewer :=
  {| repository := js "npm"; signed_in := true; username := js "Bob"; site_origin := js "https://h"; site_host := js "h" |}.
Definition fresh_choices : npm_choices := mk_choices 0 (js "overview") 0.
Definition clicks : list npm_event := [Subpage (ClickTab (js "versions")); TurnPage true; TurnPage true; ChooseInviteLevel 2].

Definition shown_page : npm_choices * npm_page := npm_run ann demo clicks (renderPackage ann demo fresh_choices).

Lemma page_clicked :
  let '(u, p) := shown_page in
  (versionPage u, npmPackageView u, invite_level p) = (1%Z, js "versions", 2) /\ length (shown (version_list p)) = 1 /\
  page_buttons p = [OfPackage DeprecatePackage; OfPackage EditDescription; OfVersion (js "0.3.0") DeleteVersion;
                    ChangeLevel (js "bob"); RemoveMember (js "bob"); Invite].
Proof. vm_compute. done. Qed.

Lemma tarball_encoded :
  pieces_text (tarballURL ann (js "@ui/kit") (js "1.0.0")) = Some (js "/npm/%40ui/kit/-/kit-1.0.0.tgz").
Proof. vm_compute. done. Qed.

Lemma tags_sorted : tag_names demo (release "1.1.0" false true []) = [js "beta"; js "next"].
Proof. vm_compute. done. Qed.

Lemma invitations_checked :
  map (invitation ann) [js "  "; js "bob"; js "a b"; js " eve "] =
  [inl "team.inviteUsernameRequired"; inl "npm.cannotInviteSelf"; inl "npm.invalidUsername"; inr (js "eve")]%string.
Proof. vm_compute. done. Qed.
End Examples.

Section properties.
Context {UC : UnicodeCase} {UP : UrlParser} {TO : TagOrder}.
Variables (w : npm_viewer) (d : npm_details).

(** C21: whatever was clicked on an npm package's page: a visitor who neither administers nor moderates and has no level of
    at least two sees no button that changes anything; a locked or deprecated package shows only a moderator's lock
    buttons, a mirrored one these and the deletion of versions published here; a version under review has no button, and
    only one that is published here, not unpublished and not locked can be deleted; a package with a locked version is
    neither deprecated, archived nor deleted; and the level of an owner is changed only by an owner or an administrator,
    and no owner is removed. *)
Theorem npm_page_permissions evs u0 b :
  b ∈ page_buttons (snd (npm_run w d evs (renderPackage w d u0))) ->
  (administrator d = false -> moderator d = false -> 2 <= permission_level (pkg d)) /\
  (locks (pkg d) <> [] \/ deprecated (pkg d) = true -> lock_button b) /\
  (mirrored (pkg d) = true -> lock_button b \/ exists v, b = OfVersion v DeleteVersion) /\
  (forall v x, b = OfVersion v x -> exists r, r ∈ versions d /\ version_id r = v /\ pending_review r = false /\
     (x = DeleteVersion -> unpublished r = false /\ version_mirrored r = false /\ version_locks r = [])) /\
  ((exists r, r ∈ versions d /\ version_locks r <> []) ->
     b <> OfPackage DeprecatePackage /\ b <> OfPackage DeletePackage /\ forall a, b <> OfPackage (SetArchived a)) /\
  (forall m, b = ChangeLevel m \/ b = RemoveMember m -> exists x, x ∈ members d /\ member_name x = m /\
     (level x < 4 \/ b = ChangeLevel m /\ can_own d = true)).
Proof.
  intros Hb. pose proof (npm_run_coherent w d evs _ (render_coherent w d u0)) as [_ Hp]. rewrite Hp in Hb.
  apply npm_buttons_from in Hb. destruct Hb as [(x & -> & Hx)|[(v & x & Hv & -> & Hx)|(Hc & He & Hb)]].
  - assert (Hn : (forall v y, OfPackage x = OfVersion v y -> False) /\ (forall m, OfPackage x = ChangeLevel m \/ OfPackage x = RemoveMember m -> False))
      by (split; [congruence|intros m [?|?]; congruence]).
    apply hero_button_needs in Hx as [[-> Hm]|(Ha & Hl & Hd & Hm & Hr)].
    + split_and!; [congruence|done|by left|intros v y E; by destruct (proj1 Hn v y E)|done|intros m E; by destruct (proj2 Hn m E)].
    + split_and!; [intros; destruct Ha; [congruence|done]|intros [?|?]; congruence|congruence|intros v y E; by destruct (proj1 Hn v y E)| |
        intros m E; by destruct (proj2 Hn m E)].
      intros (r & Hin & Hlock). assert (rewrites x = false).
      { destruct (rewrites x); [|done]. exfalso. apply Hlock. by apply (some_version_locked d); [apply Hr|]. }
      by split_and!; [intros [= ->]|intros [= ->]|intros a [= ->]].
  - assert (Hn : forall m, OfVersion (version_id v) x = ChangeLevel m \/ OfVersion (version_id v) x = RemoveMember m -> False)
      by (intros m [?|?]; congruence).
    apply item_action_needs in Hx as (Hp' & [[-> Hm]|(-> & Ha & Hl & Hd & Hu & Hm & Hv')]).
    + split_and!; [congruence|done|by left| |done|intros m E; by destruct (Hn m E)]. intros v' y [= <- <-]. by exists v.
    + split_and!; [intros; destruct Ha; [congruence|done]|intros [?|?]; congruence|eauto| |done|intros m E; by destruct (Hn m E)].
      intros v' y [= <- <-]. by exists v.
  - destruct (editable_needs d Hc He) as (Ha & Hl & Hd & Hm).
    split_and!; [intros; destruct Ha; [congruence|done]|intros [?|?]; congruence|congruence| | |];
      destruct Hb as [->|(m & Hin & [[-> Hlv]|[-> Hlv]])]; try done; try (by intros m' [?|?]).
    + intros m' [[= <-]|?]; [|done]. exists m. naive_solver.
    + intros m' [?|[= <-]]; [done|]. exists m. naive_solver.
Qed.
End properties.

Lemma npm_page_permissions_witness :
  OfVersion (js "0.3.0") DeleteVersion ∈ page_buttons (snd Examples.shown_page) /\ 2 <= permission_level (pkg Examples.demo).
Proof.
  assert (Hb : OfVersion (js "0.3.0") DeleteVersion ∈ page_buttons (snd Examples.shown_page)).
  { pose proof Examples.page_clicked as H. destruct Examples.shown_page as [u p]. destruct H as (_ & _ & H). cbn [snd]. rewrite H. set_solver. }
  split; [exact Hb|].
  exact (proj1 (@npm_page_permissions latin_case Examples.https_url Examples.tag_units Examples.ann Examples.demo Examples.clicks
                  Examples.fresh_choices _ Hb) eq_refl eq_refl).
Defined.
