(* ===== verification/NpmRepository.v ===== *)
(** * The pages of an npm repository

    [internal/service/frontend/renop-html/js/browser/npm.js]: the addresses of a registry, the loads of its list and of its
    packages, and the operations of both with their dialogs, requests and refreshes, which end in any order.  The page of a
    package is [NpmPackage]'s, and who may create a package is [Permissions]'.  A page is replaced when its animation
    begins, and the end of the animation is an event of its own, which takes the busy mark away whatever is loading by then;
    a dialog whose change was saved closes with the page that replaces the former one. *)
From S2P Require Import Prelude JsString JsUri BrowserUtils Markdown PackageParts Permissions NpmPackage.

(** ** Addresses *)
Inductive npm_route := Overview | Package (n : jstr).

(** [replace(/^%40/i, '@')] *)
Definition restore_scope (n : jstr) : jstr := if starts_with (js "%40") n then js "@" ++ slice_from 3 n else n.

(** The repository and the page of a path, or of the repository given when the path has none; [None]: a malformed name. *)
Definition npm_route_of (path fallback : jstr) : option (jstr * npm_route) :=
  let parts := path_parts path in
  repo ← decodeURIComponent (str_or (hd [] parts) fallback);
  Some (repo,
        match parts with
        | _ :: p :: (_ :: _) as rest =>
          if (p =? js "packages")%js then Package (restore_scope (join [47%N] (map decodePathSegment (drop 2 parts)))) else Overview
        | _ => Overview
        end).

Definition overview_path (repo : jstr) : list piece := [Raw [47%N]; Enc repo].
Definition package_link (repo n : jstr) : list piece := [Raw [47%N]; Enc repo; Raw (js "/packages/"); Enc n].

(** [npmAPI]: the repository, the segments of the suffix, and the package and version asked for, if any. *)
Record target := mk_target { target_repository : jstr; suffix : list jstr; target_package : jstr; target_version : jstr }.

Definition npmAPI (repo : jstr) (sfx : list jstr) (packageName : jstr) : target := mk_target repo sfx packageName [].

(** ** Operations *)
Inductive verb := PUT | POST | DELETE.

Inductive aftermath := ThenRefresh | ThenNavigate | ThenOpen.

(** An operation: the package it has read before it asks, or [None] when the package is read when the request is sent. *)
Record plan := mk_plan {
  captured : option jstr;
  plan_suffix : list jstr;
  plan_version : jstr;
  plan_verb : verb;
  success : string;
  failure : string;
  refresh_announced : bool;             (* a refresh that fails is announced like the request *)
  aftermath_of : aftermath;
  asks : bool;                          (* a dialog comes first *)
  keeps_dialog : bool;                  (* which stays when the request fails *)
  refreshes_anyway : bool
}.

Inductive press_button :=
| PressDeprecate
| PressEdit
| PressPrivate (b : bool)
| PressArchive (b : bool)
| PressDelete
| PressDeleteVersion (v : jstr)
| PressLevel (user : jstr)
| PressRemove (user : jstr)
| PressInvite (input : jstr).

(** The button that a press needs on the page. *)
Definition needs (p : press_button) (b : page_button) : bool :=
  match p, b with
  | PressDeprecate, OfPackage DeprecatePackage => true
  | PressEdit, OfPackage EditDescription => true
  | PressPrivate b, OfPackage (SetPrivate b') => Bool.eqb b b'
  | PressArchive b, OfPackage (SetArchived b') => Bool.eqb b b'
  | PressDelete, OfPackage DeletePackage => true
  | PressDeleteVersion v, OfVersion v' DeleteVersion => (v =? v')%js
  | PressLevel m, ChangeLevel m' | PressRemove m, RemoveMember m' => (m =? m')%js
  | PressInvite _, Invite => true
  | _, _ => false
  end.

(** [member.user_id || member.username] of the member that the page lists. *)
Definition member_segment (user : jstr) (d : npm_details) : jstr :=
  match List.find (fun m => (member_name m =? user)%js) (members d) with Some m => str_or (user_id m) user | None => user end.

Section npm.
Context {UC : UnicodeCase} {UP : UrlParser} {TO : TagOrder}.
Variables (site_origin site_host : jstr).

(** The operation of a press on the page that [drawn] titles, with the details [d]; an error: what is announced instead. *)
Definition plan_of (w : npm_viewer) (d : npm_details) (drawn : jstr) (p : press_button) : string + plan :=
  match p with
  | PressDeprecate =>
    inr (mk_plan (Some drawn) [js "packages"; js "deprecate"] [] PUT "package.deprecatedSuccess" "package.deprecateFailed" false ThenRefresh true false false)
  | PressEdit => inr (mk_plan None [js "packages"] [] PUT "npm.descriptionUpdated" "npm.operationFailed" true ThenRefresh true true false)
  | PressPrivate _ => inr (mk_plan None [js "packages"] [] PUT "npm.visibilityUpdated" "npm.operationFailed" true ThenRefresh false false false)
  | PressArchive b =>
    inr (mk_plan None [js "packages"] [] PUT (if b then "npm.packageArchived" else "npm.packageRestored") "npm.operationFailed" true ThenRefresh false false false)
  | PressDelete => inr (mk_plan (Some (name (pkg d))) [js "packages"] [] DELETE "npm.packageDeleted" "npm.deletePackageFailed" true ThenNavigate true false false)
  | PressDeleteVersion v => inr (mk_plan None [js "versions"] v DELETE "npm.versionDeleted" "npm.deleteVersionFailed" true ThenRefresh true false false)
  | PressLevel m => inr (mk_plan None [js "owners"; member_segment m d] [] PUT "npm.memberUpdated" "npm.teamUpdateFailed" true ThenRefresh false false true)
  | PressRemove m => inr (mk_plan None [js "owners"; member_segment m d] [] DELETE "npm.memberRemoved" "npm.removeMemberFailed" true ThenRefresh true false false)
  | PressInvite input =>
    match invitation w input with
    | inl e => inl e
    | inr _ => inr (mk_plan None [js "owners"] [] POST "npm.inviteSent" "npm.inviteFailed" true ThenRefresh false false false)
    end
  end%string.

(** The dialog that reserves a package. *)
Definition creation : plan :=
  mk_plan (Some []) [js "packages"] [] POST "npm.packageCreated" "npm.createFailed" true ThenOpen true true false.

(** ** State *)
Record package_card := { card_name : jstr; card_badges : list string; card_description : text; card_version : option jstr; card_link : list piece }.

Definition packageCard (repo : jstr) (p : npm_package) : package_card := {|
  card_name := name p;
  card_badges := (if deprecated p then ["package.deprecated"%string] else []) ++ (if private p then ["npm.private"%string] else []) ++
                 (if mirrored p then ["common.fromMirror"%string] else []) ++ (if archived p then ["npm.archived"%string] else []);
  card_description := lit_or (description p) "npm.noDescription";
  card_version := if nonempty (latest_version p) then Some (latest_version p) else None;
  card_link := package_link repo (name p)
|}.

(** The button that loads more: the drawing it belongs to, and whether it is at work. *)
Record more_button := mk_more { drawing : nat; at_work : bool }.

Inductive npm_screen :=
| Blank
| LoadingScreen
| ErrorScreen
| CatalogScreen (cards : list package_card) (count : nat) (more : option more_button) (create : bool) (shown_commands : list (string * list piece))
| PackageScreen (p : npm_page).

Inductive npm_operation :=
| LoadCatalog (sequence : nat) (repo : jstr) (offset : nat) (button : option nat)    (* the drawing of the button, when more is loaded *)
| LoadPackage (sequence : nat) (t : target)
| Refreshing (sequence : nat) (t : target) (caller : option plan) (overtaking : bool)    (* whether it makes a load stale; not read *)
| Asking (p : plan)
| Requesting (p : plan) (t : target).

Inductive output :=
| Alert (k : string)
| Sent (v : verb) (t : target)
| OpenTickets
| Navigate (link : list piece).

Record npm := mk_npm {
  loadSequence : nat;
  activeRepository : jstr;
  packageDetails : option npm_details;
  packageList : list npm_package;
  packageTotal : nat;
  packageOffset : nat;
  ui : npm_choices;
  versionPackage : jstr;
  can_navigate : bool;
  hidden : bool;
  busy : bool;
  content : npm_screen;
  animations : nat;                    (* of replaced pages, that have not ended *)
  draws : nat;
  operations : gmap nat npm_operation;
  next : nat;
  outputs : list output;
  account : caches;
  user_name : jstr
}.

Definition pageSize : nat := 24.

Definition start (c : caches) (user : jstr) : npm :=
  mk_npm 0 [] None [] 0 0 (mk_choices 0 (js "overview") 0) [] false true false Blank 0 0 ∅ 0 [] c user.

Definition set_content (hid bus : bool) (sc : npm_screen) (s : npm) : npm :=
  mk_npm (loadSequence s) (activeRepository s) (packageDetails s) (packageList s) (packageTotal s) (packageOffset s) (ui s) (versionPackage s)
    (can_navigate s) hid bus sc (animations s) (draws s) (operations s) (next s) (outputs s) (account s) (user_name s).
Definition set_busy (b : bool) (s : npm) : npm := set_content (hidden s) b (content s) s.
Definition set_ui (u : npm_choices) (s : npm) : npm :=
  mk_npm (loadSequence s) (activeRepository s) (packageDetails s) (packageList s) (packageTotal s) (packageOffset s) u (versionPackage s)
    (can_navigate s) (hidden s) (busy s) (content s) (animations s) (draws s) (operations s) (next s) (outputs s) (account s) (user_name s).
Definition set_details (d : option npm_details) (s : npm) : npm :=
  mk_npm (loadSequence s) (activeRepository s) d (packageList s) (packageTotal s) (packageOffset s) (ui s) (versionPackage s)
    (can_navigate s) (hidden s) (busy s) (content s) (animations s) (draws s) (operations s) (next s) (outputs s) (account s) (user_name s).
Definition set_list (l : list npm_package) (total offset : nat) (s : npm) : npm :=
  mk_npm (loadSequence s) (activeRepository s) (packageDetails s) l total offset (ui s) (versionPackage s) (can_navigate s) (hidden s)
    (busy s) (content s) (animations s) (draws s) (operations s) (next s) (outputs s) (account s) (user_name s).
Definition set_version_package (n : jstr) (s : npm) : npm :=
  mk_npm (loadSequence s) (activeRepository s) (packageDetails s) (packageList s) (packageTotal s) (packageOffset s) (ui s) n
    (can_navigate s) (hidden s) (busy s) (content s) (animations s) (draws s) (operations s) (next s) (outputs s) (account s) (user_name s).
Definition set_route (sequence : nat) (repo : jstr) (navigate : bool) (s : npm) : npm :=
  mk_npm sequence repo (packageDetails s) (packageList s) (packageTotal s) (packageOffset s) (ui s) (versionPackage s) navigate (hidden s)
    (busy s) (content s) (animations s) (draws s) (operations s) (next s) (outputs s) (account s) (user_name s).
Definition set_operations (ops : gmap nat npm_operation) (n : nat) (s : npm) : npm :=
  mk_npm (loadSequence s) (activeRepository s) (packageDetails s) (packageList s) (packageTotal s) (packageOffset s) (ui s) (versionPackage s)
    (can_navigate s) (hidden s) (busy s) (content s) (animations s) (draws s) ops n (outputs s) (account s) (user_name s).
Definition output_of (o : output) (s : npm) : npm :=
  mk_npm (loadSequence s) (activeRepository s) (packageDetails s) (packageList s) (packageTotal s) (packageOffset s) (ui s) (versionPackage s)
    (can_navigate s) (hidden s) (busy s) (content s) (animations s) (draws s) (operations s) (next s) (outputs s ++ [o]) (account s) (user_name s).
Definition set_account (c : caches) (user : jstr) (s : npm) : npm :=
  mk_npm (loadSequence s) (activeRepository s) (packageDetails s) (packageList s) (packageTotal s) (packageOffset s) (ui s) (versionPackage s)
    (can_navigate s) (hidden s) (busy s) (content s) (animations s) (draws s) (operations s) (next s) (outputs s) c user.
Definition count_draw (s : npm) : npm :=
  mk_npm (loadSequence s) (activeRepository s) (packageDetails s) (packageList s) (packageTotal s) (packageOffset s) (ui s) (versionPackage s)
    (can_navigate s) (hidden s) (busy s) (content s) (animations s) (S (draws s)) (operations s) (next s) (outputs s) (account s) (user_name s).

Definition set_animations (n : nat) (s : npm) : npm :=
  mk_npm (loadSequence s) (activeRepository s) (packageDetails s) (packageList s) (packageTotal s) (packageOffset s) (ui s) (versionPackage s)
    (can_navigate s) (hidden s) (busy s) (content s) n (draws s) (operations s) (next s) (outputs s) (account s) (user_name s).

Definition begin (o : npm_operation) (s : npm) : npm := set_operations (<[next s := o]> (operations s)) (S (next s)) s.
Definition close (i : nat) (s : npm) : npm := set_operations (delete i (operations s)) (next s) s.

Definition the_viewer (s : npm) : npm_viewer := {|
  repository := activeRepository s; signed_in := cachedIsLoggedIn (account s); username := user_name s;
  NpmPackage.site_origin := site_origin; NpmPackage.site_host := site_host |}.

(** ** Drawing *)
(** [replaceRepositoryView] up to the animation of the height, and from its end: the mark goes, whatever loads by then. *)
Definition replaceRepositoryView (sc : npm_screen) (s : npm) : npm :=
  set_animations (S (animations s)) (set_content (hidden s) (busy s) sc s).
Definition morphed (s : npm) : npm :=
  match animations s with O => s | S n => set_animations n (set_busy false s) end.

(** [replaceRepositoryView(view, renderCatalog())] *)
Definition renderCatalog (s : npm) : npm :=
  let more := if length (packageList s) <? packageTotal s then Some (mk_more (draws s) false) else None in
  count_draw (replaceRepositoryView
    (CatalogScreen (map (packageCard (activeRepository s)) (packageList s)) (packageTotal s) more (canUpdateRepo (account s) (activeRepository s))
       (registryCommands (the_viewer s) [])) s).

(** [replaceRepositoryView(view, renderPackage())] *)
Definition render_package (s : npm) : npm :=
  match packageDetails s with
  | Some d =>
    let '(u, p) := renderPackage (the_viewer s) d (ui s) in
    replaceRepositoryView (PackageScreen p) (set_ui u s)
  | None => s
  end.

Definition begin_load (s : npm) : npm :=
  set_content (hidden s) true (match content s with Blank => LoadingScreen | sc => sc end) s.

(** ** Loads *)
Definition load_sequence (o : npm_operation) : option nat :=
  match o with LoadCatalog q _ _ _ | LoadPackage q _ | Refreshing q _ _ _ => Some q | _ => None end.

(** A load of the current sequence is under way, or a refresh that has taken the place of one. *)
Definition pending_load (s : npm) (o : npm_operation) : bool :=
  bool_decide (load_sequence o = Some (loadSequence s)) &&
  match o with LoadCatalog _ _ _ _ | LoadPackage _ _ | Refreshing _ _ _ true => true | _ => false end.
Definition is_loading (s : npm) : bool := existsb (fun p => pending_load s p.2) (map_to_list (operations s)).

Definition loadOverview (s : npm) : npm :=
  let s := set_ui (set_version_page 0 (ui s)) (set_version_package [] (set_details None s)) in
  let s := set_list [] (packageTotal s) 0 (begin_load s) in
  begin (LoadCatalog (loadSequence s) (activeRepository s) 0 None) s.

Definition loadPackage (n : jstr) (s : npm) : npm :=
  let s := begin_load s in
  let s := if (versionPackage s =? n)%js then s
           else set_ui (set_package_view (js "overview") (set_version_page 0 (ui s))) (set_version_package n s) in
  begin (LoadPackage (loadSequence s) (npmAPI (activeRepository s) [js "packages"] n)) s.

Definition hideNPMRepositoryView (s : npm) : npm :=
  let s := set_details None (set_version_package [] (set_route (S (loadSequence s)) (activeRepository s) (can_navigate s) s)) in
  set_content true false Blank s.

Definition renderNPMRepository (path fallback : jstr) (navigate : bool) (s : npm) : npm :=
  let s := set_content false (busy s) (content s) (set_route (loadSequence s) (activeRepository s) navigate s) in
  match npm_route_of path fallback with
  | None => s
  | Some (repo, r) =>
    let s := set_route (S (loadSequence s)) repo navigate s in
    match r with Package n => loadPackage n s | Overview => loadOverview s end
  end.

(** [loadMorePackages], by the button of a drawing. *)
Definition loadMorePackages (button : nat) (s : npm) : npm :=
  begin (LoadCatalog (loadSequence s) (activeRepository s) (packageOffset s) (Some button)) (set_busy true s).

(** [refreshPackage] up to its request. *)
Definition refreshPackage (caller : option plan) (s : npm) : npm :=
  match packageDetails s with
  | Some d =>
    if nonempty (name (pkg d)) && negb (hidden s) && (versionPackage s =? name (pkg d))%js then
      let overtaking := is_loading s in
      let s := set_route (S (loadSequence s)) (activeRepository s) (can_navigate s) s in
      begin (Refreshing (loadSequence s) (npmAPI (activeRepository s) [js "packages"] (name (pkg d))) caller overtaking) s
    else s
  | None => s
  end.

(** The request of an operation: the repository is the one that is active when it is sent. *)
Definition send_plan (p : plan) (s : npm) : npm :=
  match (match captured p with Some n => Some n | None => option_map (fun d => name (pkg d)) (packageDetails s) end) with
  | Some n =>
    let t := mk_target (activeRepository s) (plan_suffix p) n (plan_version p) in
    output_of (Sent (plan_verb p) t) (begin (Requesting p t) s)
  | None => output_of (Alert (failure p)) s
  end.

Definition press_button_step (pb : press_button) (s : npm) : npm :=
  match packageDetails s, content s with
  | Some d, PackageScreen pg =>
    if negb (hidden s) && existsb (needs pb) (page_buttons pg) then
      match plan_of (the_viewer s) d (hero_title (header pg)) pb with
      | inr p => if asks p then begin (Asking p) s else send_plan p s
      | inl k => output_of (Alert k) s
      end
    else s
  | _, _ => s
  end.

(** ** Answers *)
Inductive answer :=
| CatalogAnswer (page : option (list npm_package * nat))
| DetailsAnswer (d : option npm_details)
| Accepted
| Created (n : jstr) (pending : bool)
| Rejected.

(** [runButtonAction] enables the button again. *)
Definition release_button (button : option nat) (s : npm) : npm :=
  match content s with
  | CatalogScreen cards total (Some m) create cmds =>
    if bool_decide (button = Some (drawing m))
    then set_content (hidden s) (busy s) (CatalogScreen cards total (Some (mk_more (drawing m) false)) create cmds) s else s
  | _ => s
  end.

(** A load that succeeds keeps the mark until the animation of its page ends.  The end of [loadCatalog], with [append] when a button asked for more. *)
Definition catalog_loaded (append : bool) (packages : list npm_package) (total : nat) (s : npm) : npm :=
  let l := if append then packageList s ++ packages else packages in
  set_list l (if total =? 0 then length l else total) (length l) s.

Definition catalog_answered (sequence : nat) (button : option nat) (page : option (list npm_package * nat)) (s : npm) : npm :=
  let current := (sequence =? loadSequence s)%nat in
  release_button button
    (match page with
     | Some (l, total) => if current then renderCatalog (catalog_loaded (bool_decide (is_Some button)) l total s) else s
     | None =>
       let s := if bool_decide (is_Some button) then output_of (Alert "npm.loadFailed") s
                else if current then set_content (hidden s) (busy s) ErrorScreen s else s in
       if current then set_busy false s else s
     end).

Definition details_answered (sequence : nat) (d : option npm_details) (s : npm) : npm :=
  if negb (sequence =? loadSequence s)%nat then s
  else
    match d with
    | Some d => render_package (set_details (Some d) s)
    | None => set_content (hidden s) false ErrorScreen s
    end.

Definition refresh_answered (sequence : nat) (caller : option plan) (d : option npm_details) (s : npm) : npm :=
  match d with
  | Some d => if negb (sequence =? loadSequence s)%nat then s else render_package (set_details (Some d) s)
  | None =>
    match caller with
    | Some p =>
      let s := if refresh_announced p then output_of (Alert (failure p)) s else s in
      let s := if refreshes_anyway p then refreshPackage None s else s in
      if keeps_dialog p then begin (Asking p) s else s
    | None => s
    end
  end.

(** [openTicketCenter] and [activeNavigate] leave for other pages, whose addresses come back as visits. *)
Definition accepted (p : plan) (created : option (jstr * bool)) (s : npm) : npm :=
  match aftermath_of p with
  | ThenRefresh => refreshPackage (Some p) (output_of (Alert (success p)) s)
  | ThenNavigate =>
    let s := output_of (Alert (success p)) s in
    if can_navigate s then output_of (Navigate (overview_path (activeRepository s))) s else s
  | ThenOpen =>
    match created with
    | Some (n, true) => output_of OpenTickets (output_of (Alert "npm.packageCreationQueued") s)
    | Some (n, false) =>
      let s := output_of (Alert (success p)) s in
      if can_navigate s then output_of (Navigate (package_link (activeRepository s) n)) s else s
    | None => s
    end
  end.

Definition rejected (p : plan) (s : npm) : npm :=
  let s := output_of (Alert (failure p)) s in
  let s := if refreshes_anyway p then refreshPackage None s else s in
  if keeps_dialog p then begin (Asking p) s else s.

Definition answered (i : nat) (a : answer) (s : npm) : npm :=
  match operations s !! i, a with
  | Some (LoadCatalog sequence _ _ button), CatalogAnswer page => catalog_answered sequence button page (close i s)
  | Some (LoadPackage sequence _), DetailsAnswer d => details_answered sequence d (close i s)
  | Some (Refreshing sequence _ caller _), DetailsAnswer d => refresh_answered sequence caller d (close i s)
  | Some (Requesting p _), Accepted => match aftermath_of p with ThenOpen => s | _ => accepted p None (close i s) end
  | Some (Requesting p _), Created n pending => match aftermath_of p with ThenOpen => accepted p (Some (n, pending)) (close i s) | _ => s end
  | Some (Requesting p _), Rejected => rejected p (close i s)
  | _, _ => s
  end.

(** ** Events *)
Inductive npm_repository_event :=
| Visit (path fallback : jstr) (navigate : bool)
| Hide
| NewAccount (c : caches) (user : jstr)
| LanguageChanged
| PressMore
| PressCreate
| Press (p : press_button)
| OnPage (ev : npm_event)
| Confirmed (i : nat) (yes : bool)
| Answered (i : nat) (a : answer)
| AnimationEnded.

Definition handleLanguageChanged (s : npm) : npm :=
  if hidden s then s
  else match packageDetails s with
       | Some _ => render_package s
       | None => renderCatalog s
       end.

Definition press_more (s : npm) : npm :=
  match content s with
  | CatalogScreen cards total (Some m) create cmds =>
    if hidden s || at_work m then s
    else loadMorePackages (drawing m)
           (set_content (hidden s) (busy s) (CatalogScreen cards total (Some (mk_more (drawing m) true)) create cmds) s)
  | _ => s
  end.

Definition npm_repository_step (ev : npm_repository_event) (s : npm) : npm :=
  match ev with
  | Visit path fallback navigate => renderNPMRepository path fallback navigate s
  | Hide => hideNPMRepositoryView s
  | NewAccount c user => set_account c user s
  | LanguageChanged => handleLanguageChanged s
  | PressMore => press_more s
  | PressCreate => match content s with CatalogScreen _ _ _ true _ => if hidden s then s else begin (Asking creation) s | _ => s end
  | Press p => press_button_step p s
  | OnPage ev =>
    match packageDetails s, content s with
    | Some d, PackageScreen pg =>
      let '(u, pg) := npm_step (the_viewer s) d ev (ui s, pg) in
      set_content (hidden s) (busy s) (PackageScreen pg) (set_ui u s)
    | _, _ => s
    end
  | Confirmed i yes =>
    match operations s !! i with
    | Some (Asking p) => let s := close i s in if yes then send_plan p s else s
    | _ => s
    end
  | Answered i a => answered i a s
  | AnimationEnded => morphed s
  end.

(** ** Use in order *)
(** A dialog that may fail stays while its request and the refresh after it are under way. *)
Definition dialog_of (o : npm_operation) : option plan :=
  match o with
  | Asking p => Some p
  | Requesting p _ | Refreshing _ _ (Some p) _ => if keeps_dialog p then Some p else None
  | _ => None
  end.

Definition is_asking (o : npm_operation) : bool := bool_decide (is_Some (dialog_of o)).
Definition asking (s : npm) : bool := existsb (fun p => is_asking p.2) (map_to_list (operations s)).

(** What the server holds: the packages of a repository in order, and whether details are those of a package of it. *)
Variable listed : jstr -> list npm_package.
Variable serves : jstr -> npm_package -> bool.

Definition answers_target (t : target) (d : npm_details) : bool :=
  (name (pkg d) =? target_package t)%js && serves (target_repository t) (pkg d).

(** The answers are the server's, a dialog is answered before the page is left, a page is used when no load of
    its address is under way, an account changes on another page, and a refresh that has overtaken a load succeeds. *)
Definition orderly (ev : npm_repository_event) (s : npm) : Prop :=
  match ev with
  | Visit path fallback _ => asking s = false /\ is_Some (npm_route_of path fallback)
  | Hide => asking s = false
  | LanguageChanged => is_loading s = false /\ content s <> ErrorScreen
  | PressMore | PressCreate | Press _ | OnPage _ => is_loading s = false
  | NewAccount _ _ => hidden s = true
  | Answered i (CatalogAnswer (Some (l, total))) =>
    match operations s !! i with
    | Some (LoadCatalog _ repo offset _) => l = take pageSize (drop offset (listed repo)) /\ total = length (listed repo)
    | _ => True
    end
  | Answered i (DetailsAnswer (Some d)) =>
    match operations s !! i with
    | Some (LoadPackage _ t) | Some (Refreshing _ t _ _) => answers_target t d = true
    | _ => True
    end
  | Answered i (DetailsAnswer None) => match operations s !! i with Some (Refreshing _ _ _ overtaking) => overtaking = false | _ => True end
  | _ => True
  end.

(** The route the address bar shows; [None] while the view is hidden. *)
Definition track (ev : npm_repository_event) (r : option (jstr * npm_route)) : option (jstr * npm_route) :=
  match ev with
  | Visit path fallback _ => npm_route_of path fallback
  | Hide => None
  | _ => r
  end.

Fixpoint tracked (evs : list npm_repository_event) (v : npm * option (jstr * npm_route)) : npm * option (jstr * npm_route) :=
  match evs with
  | [] => v
  | ev :: evs => tracked evs (npm_repository_step ev (fst v), track ev (snd v))
  end.

Fixpoint orderly_run (evs : list npm_repository_event) (s : npm) : Prop :=
  match evs with
  | [] => True
  | ev :: evs => orderly ev s /\ orderly_run evs (npm_repository_step ev s)
  end.

(** ** What the theorem says *)
Record catalog_shown (s : npm) (repo : jstr) : Prop := {
  shown_prefix : packageList s = take (length (packageList s)) (listed repo);
  shown_offset : packageOffset s = length (packageList s);
  shown_total : packageTotal s = length (listed repo)
}.

(** The screen is the route's. *)
Definition shows_route (s : npm) (r : option (jstr * npm_route)) : Prop :=
  match r with
  | None => content s = Blank
  | Some (repo, Overview) =>
    content s = ErrorScreen \/
    catalog_shown s repo /\ exists more,
      content s = CatalogScreen (map (packageCard repo) (packageList s)) (packageTotal s) more (canUpdateRepo (account s) repo)
                    (registryCommands (the_viewer s) []) /\
      (is_Some more <-> length (packageList s) < packageTotal s)
  | Some (repo, Package n) =>
    content s = ErrorScreen \/
    exists d p, packageDetails s = Some d /\ name (pkg d) = n /\ serves repo (pkg d) = true /\
      content s = PackageScreen p /\ renderPackage (the_viewer s) d (ui s) = (ui s, p)
  end.

(** A request is about the repository of the route, and about its package unless it reserves one. *)
Definition about (r : option (jstr * npm_route)) (t : target) : Prop :=
  exists repo ro, r = Some (repo, ro) /\ target_repository t = repo /\ (target_package t = [] \/ ro = Package (target_package t)).

Definition dialog_ok (s : npm) (r : option (jstr * npm_route)) (p : plan) : Prop :=
  captured p = Some [] /\ is_Some r \/
  exists n d, r = Some (activeRepository s, Package n) /\ packageDetails s = Some d /\ name (pkg d) = n /\ forall m, captured p = Some m -> m = n.

Definition route_ok (s : npm) (r : option (jstr * npm_route)) : Prop :=
  match r with
  | Some (repo, ro) => activeRepository s = repo /\ hidden s = false /\
    match ro with Package n => versionPackage s = n | Overview => versionPackage s = [] /\ packageDetails s = None end
  | None => hidden s = true /\ versionPackage s = [] /\ packageDetails s = None
  end.

(** What a load of the newest sequence is for. *)
Definition load_ok (s : npm) (r : option (jstr * npm_route)) (o : npm_operation) : Prop :=
  match o with
  | LoadCatalog _ repo offset button =>
    r = Some (activeRepository s, Overview) /\ repo = activeRepository s /\ offset = length (packageList s) /\
    packageList s = take (length (packageList s)) (listed repo) /\
    (button = None -> packageList s = []) /\ (is_Some button -> shows_route s r)
  | LoadPackage _ t | Refreshing _ t _ _ =>
    exists n, r = Some (activeRepository s, Package n) /\ t = npmAPI (activeRepository s) [js "packages"] n
  | _ => True
  end.

Definition loading (s : npm) : Prop := exists i o, operations s !! i = Some o /\ pending_load s o = true.

(** No animation ends while a load is under way. *)
Definition unhurried (ev : npm_repository_event) (s : npm) : Prop :=
  match ev with AnimationEnded => is_loading s = false | _ => True end.

Fixpoint unhurried_run (evs : list npm_repository_event) (s : npm) : Prop :=
  match evs with
  | [] => True
  | ev :: evs => unhurried ev s /\ unhurried_run evs (npm_repository_step ev s)
  end.

(** Whether the animations of a run do that. *)
Variable calm : Prop.

Record npm_ok (s : npm) (r : option (jstr * npm_route)) : Prop := {
  ok_next : forall i o, operations s !! i = Some o -> i < next s;
  ok_sequence : forall i o q, operations s !! i = Some o -> load_sequence o = Some q -> q <= loadSequence s;
  ok_current : forall i j o o', operations s !! i = Some o -> operations s !! j = Some o' ->
    load_sequence o = Some (loadSequence s) -> load_sequence o' = Some (loadSequence s) -> i = j;
  ok_load : forall i o, operations s !! i = Some o -> load_sequence o = Some (loadSequence s) -> load_ok s r o;
  ok_route : route_ok s r;
  ok_shown : ~ loading s -> shows_route s r;
  ok_dialog : forall i o p, operations s !! i = Some o -> dialog_of o = Some p -> dialog_ok s r p;
  ok_busy : busy s = true -> loading s \/ animations s <> 0;
  ok_marked : calm -> loading s -> busy s = true
}.

(** ** Lemmas: operations *)
(** What the screen is drawn from. *)
Definition same_screen (s s' : npm) : Prop :=
  activeRepository s' = activeRepository s /\ packageDetails s' = packageDetails s /\ packageList s' = packageList s /\
  packageTotal s' = packageTotal s /\ packageOffset s' = packageOffset s /\ ui s' = ui s /\ content s' = content s /\
  account s' = account s /\ user_name s' = user_name s.

(** What else [npm_ok] reads, the operations and the busy mark left out. *)
Definition same_place (s s' : npm) : Prop :=
  loadSequence s' = loadSequence s /\ activeRepository s' = activeRepository s /\ packageDetails s' = packageDetails s /\
  packageList s' = packageList s /\ versionPackage s' = versionPackage s /\ hidden s' = hidden s.

Ltac same_tac := unfold same_place, same_screen; cbn; split_and!; auto.

Lemma shows_route_screen s s' r : same_screen s s' -> shows_route s r -> shows_route s' r.
Proof.
  intros (V1 & V2 & V3 & V4 & V5 & V6 & V7 & V8 & V9).
  assert (Hw : the_viewer s' = the_viewer s) by (unfold the_viewer; congruence). destruct r as [[repo [|n]]|]; unfold shows_route; rewrite ?Hw.
  - rewrite V3, V4, V7, V8. intros [H|[[H1 H2 H3] H]]; [by left|right]. split; [|done]. split; congruence.
  - by rewrite V2, V6, V7.
  - by rewrite V7.
Qed.

Lemma load_ok_same s s' r o : same_place s s' -> (shows_route s r -> shows_route s' r) -> load_ok s r o -> load_ok s' r o.
Proof.
  intros (V1 & V2 & V3 & V4 & _) Hs. destruct o; unfold load_ok; rewrite ?V2, ?V4; try done.
  intros (H1 & H2 & H3 & H4 & H5 & H6). split_and!; auto.
Qed.

Lemma dialog_ok_same s s' r p : same_place s s' -> dialog_ok s r p -> dialog_ok s' r p.
Proof. intros (V1 & V2 & V3 & _). unfold dialog_ok. by rewrite V2, V3. Qed.

Lemma npm_loading_sub s s' : loadSequence s' = loadSequence s -> (forall i o, operations s' !! i = Some o -> operations s !! i = Some o) ->
  loading s' -> loading s.
Proof. intros Hq Ho (i & o & Hi%Ho & Hp). exists i, o. split; [done|]. unfold pending_load in *. by rewrite Hq in Hp. Qed.

Lemma npm_loading_true s : is_loading s = true <-> loading s.
Proof.
  unfold is_loading. rewrite existsb_exists. split.
  - intros ([i o] & Hin & Hl). rewrite <- list_elem_of_In in Hin. apply elem_of_map_to_list in Hin. by exists i, o.
  - intros (i & o & Hi & Hl). exists (i, o). by rewrite <- list_elem_of_In, elem_of_map_to_list.
Qed.

Lemma npm_loading_false s : is_loading s = false <-> ~ loading s.
Proof. rewrite <- npm_loading_true. by destruct (is_loading s). Qed.

Lemma pending_sequence s o : pending_load s o = true -> load_sequence o = Some (loadSequence s).
Proof. unfold pending_load. by intros [H%bool_decide_eq_true _]%andb_true_iff. Qed.

Lemma npm_frame_ok s s' r : same_place s s' -> (shows_route s r -> shows_route s' r) -> busy s' = busy s -> animations s <= animations s' ->
  next s <= next s' -> (forall i o, operations s' !! i = Some o -> operations s !! i = Some o) -> (loading s -> loading s') -> npm_ok s r -> npm_ok s' r.
Proof.
  intros V Hs Vb Va Hn Ho Hl K. pose proof V as (V1 & V2 & V3 & V4 & V8 & V9). pose proof (npm_loading_sub s s' V1 Ho) as Hl'. split; rewrite ?V1, ?Vb.
  - intros i o Hi%Ho. pose proof (ok_next _ _ K i o Hi). lia.
  - intros i o q Hi%Ho. by apply (ok_sequence _ _ K i).
  - intros i j o o' Hi%Ho Hj%Ho. by apply (ok_current _ _ K i j o o').
  - intros i o Hi%Ho Hq. by apply (load_ok_same s), (ok_load _ _ K i).
  - pose proof (ok_route _ _ K) as Hr. unfold route_ok in *. by rewrite V2, V3, V8, V9.
  - intros Hb. apply Hs, K. tauto.
  - intros i o p Hi%Ho Hd. apply (dialog_ok_same s); [done|by apply (ok_dialog _ _ K i o)].
  - intros Hb. destruct (ok_busy _ _ K Hb); [by left; apply Hl|right; lia].
  - intros Hc Hx. by apply (ok_marked _ _ K Hc), Hl'.
Qed.

(** An operation ends that is not the current load. *)
Lemma npm_close_ok i s r : npm_ok s r -> (forall o, operations s !! i = Some o -> pending_load s o = false) -> npm_ok (close i s) r.
Proof.
  intros K Hp. revert K. apply npm_frame_ok; [same_tac|apply shows_route_screen; same_tac|done..| |].
  - intros j o. cbn [close set_operations operations]. by intros [_ Hj]%lookup_delete_Some.
  - intros (j & o & Hj & Ho). exists j, o. split; [|done]. cbn [close set_operations operations]. rewrite lookup_delete_ne; [done|].
    intros ->. rewrite (Hp o Hj) in Ho. discriminate.
Qed.

Lemma npm_output_ok o s r : npm_ok s r -> npm_ok (output_of o s) r.
Proof. by apply npm_frame_ok; [same_tac|apply shows_route_screen; same_tac|..]. Qed.

(** An operation begins that is no load of the newest sequence. *)
Lemma npm_begin_ok o s r : npm_ok s r -> load_sequence o = None -> (forall p, dialog_of o = Some p -> dialog_ok s r p) -> npm_ok (begin o s) r.
Proof.
  intros K Ho Hd.
  assert (Hl : loading s -> loading (begin o s)).
  { intros (i & o' & Hi & Hp). exists i, o'. split; [|done]. pose proof (ok_next _ _ K i o' Hi). cbn. by rewrite lookup_insert_ne by lia. }
  assert (Hl' : loading (begin o s) -> loading s).
  { intros (i & o' & Hi & Hp). exists i, o'. split; [|done]. cbn in Hi. apply lookup_insert_Some in Hi as [[_ <-]|[_ Hi]]; [|done].
    apply pending_sequence in Hp. congruence. }
  split; cbn [begin set_operations operations next loadSequence busy animations].
  - intros i o'. rewrite lookup_insert_Some. intros [[<- _]|[_ Hi]]; [lia|]. pose proof (ok_next _ _ K i o' Hi). lia.
  - intros i o' q. rewrite lookup_insert_Some. intros [[_ <-]|[_ Hi]]; [congruence|]. by apply (ok_sequence _ _ K i).
  - intros i j o1 o2. rewrite !lookup_insert_Some. intros [[_ <-]|[_ Hi]] [[_ <-]|[_ Hj]]; try congruence. by apply (ok_current _ _ K i j o1 o2).
  - intros i o'. rewrite lookup_insert_Some. intros [[_ <-]|[_ Hi]]; [congruence|]. intros Hq.
    apply (load_ok_same s); [same_tac|apply shows_route_screen; same_tac|by apply (ok_load _ _ K i)].
  - exact (ok_route _ _ K).
  - intros Hb. apply (shows_route_screen s); [same_tac|]. apply K. tauto.
  - intros i o' p. rewrite lookup_insert_Some. intros [[_ <-]|[_ Hi]] Hp; (apply (dialog_ok_same s); [same_tac|]); [by apply Hd|].
    by apply (ok_dialog _ _ K i o').
  - intros Hb. destruct (ok_busy _ _ K Hb); [left; by apply Hl|by right].
  - intros Hc Hx. by apply (ok_marked _ _ K Hc), Hl'.
Qed.

(** A load or a refresh begins, with a sequence of its own. *)
Lemma newer_ok o s r q : (forall i o', operations s !! i = Some o' -> i < next s) ->
  (forall i o' q', operations s !! i = Some o' -> load_sequence o' = Some q' -> q' <= q) ->
  loadSequence s = S q -> load_sequence o = Some (S q) -> load_ok s r o -> route_ok s r ->
  (pending_load s o = false -> shows_route s r /\ (busy s = true -> animations s <> 0)) ->
  (calm -> pending_load s o = true -> busy s = true) ->
  (forall i o' p, operations s !! i = Some o' -> dialog_of o' = Some p -> dialog_ok s r p) ->
  (forall p, dialog_of o = Some p -> dialog_ok s r p) -> npm_ok (begin o s) r.
Proof.
  intros L1 L2 Hq Ho Hl Hr Hb Hm D1 D2.
  assert (Hx : loading (begin o s) <-> pending_load s o = true).
  { split; [|by intros Hp; exists (next s), o; split; [apply lookup_insert_eq|]].
    intros (i & o' & Hi & Hp). cbn in Hi. apply lookup_insert_Some in Hi as [[_ <-]|[_ Hi]]; [done|].
    apply pending_sequence in Hp. cbn in Hp. rewrite Hq in Hp. pose proof (L2 i o' _ Hi Hp). lia. }
  split; rewrite ?Hx; cbn [begin set_operations operations next loadSequence busy animations]; rewrite ?Hq.
  - intros i o'. rewrite lookup_insert_Some. intros [[<- _]|[_ Hi]]; [lia|]. pose proof (L1 i o' Hi). lia.
  - intros i o' q'. rewrite lookup_insert_Some. intros [[_ <-]|[_ Hi]] E; [rewrite Ho in E; injection E as <-; lia|]. pose proof (L2 i o' q' Hi E). lia.
  - intros i j o1 o2. rewrite !lookup_insert_Some. intros [[<- <-]|[_ Hi]] [[<- <-]|[_ Hj]] E1 E2; [done| | |].
    + pose proof (L2 j o2 _ Hj E2). lia.
    + pose proof (L2 i o1 _ Hi E1). lia.
    + pose proof (L2 i o1 _ Hi E1). lia.
  - intros i o'. rewrite lookup_insert_Some. intros [[_ <-]|[_ Hi]] E; [|pose proof (L2 i o' _ Hi E); lia].
    apply (load_ok_same s); [same_tac|apply shows_route_screen; same_tac|done].
  - exact Hr.
  - intros Hf. apply (shows_route_screen s); [same_tac|]. apply Hb. by apply not_true_iff_false.
  - intros i o' p. rewrite lookup_insert_Some. intros [[_ <-]|[_ Hi]] Hp; (apply (dialog_ok_same s); [same_tac|]); [by apply D2|by apply (D1 i o')].
  - intros Hbusy. destruct (pending_load s o); [by left|right; by apply Hb].
  - exact Hm.
Qed.

Lemma no_dialogs s : asking s = false -> forall i o p, operations s !! i = Some o -> dialog_of o = Some p -> False.
Proof.
  intros Ha i o p Hi Hd. assert (asking s = true); [|congruence]. unfold asking. apply existsb_exists. exists (i, o).
  split; [by apply list_elem_of_In, elem_of_map_to_list|]. unfold is_asking. apply bool_decide_eq_true. by exists p.
Qed.

(** ** Lemmas: routes *)
Lemma npm_hide_ok s r : npm_ok s r -> asking s = false -> npm_ok (hideNPMRepositoryView s) None.
Proof.
  intros K Ha. assert (Hn : forall i o, operations s !! i = Some o -> load_sequence o <> Some (S (loadSequence s))).
  { intros i o Hi E. pose proof (ok_sequence _ _ K i o _ Hi E). lia. }
  split; cbn.
  - apply K.
  - intros i o q Hi E. pose proof (ok_sequence _ _ K i o _ Hi E). lia.
  - intros i j o o' Hi _ E. by destruct (Hn i o Hi).
  - intros i o Hi E. by destruct (Hn i o Hi).
  - done.
  - done.
  - intros i o p Hi Hp. by destruct (no_dialogs s Ha i o p).
  - done.
  - intros _ (i & o & Hi & E%pending_sequence). by destruct (Hn i o Hi).
Qed.

Lemma npm_visit_ok path fallback nav s r : npm_ok s r -> asking s = false -> is_Some (npm_route_of path fallback) ->
  npm_ok (renderNPMRepository path fallback nav s) (npm_route_of path fallback).
Proof.
  intros K Ha [[repo ro] E]. unfold renderNPMRepository. rewrite E. cbv zeta. destruct ro as [|n].
  - apply (newer_ok _ _ _ (loadSequence s)); try done.
    + apply K.
    + intros i o q. by apply (ok_sequence _ _ K i).
    + unfold pending_load. by rewrite (bool_decide_eq_true_2 _ eq_refl).
    + intros i o p Hi Hp. by destruct (no_dialogs s Ha i o p).
  - unfold loadPackage. cbv zeta.
    apply (newer_ok _ _ _ (loadSequence s)); repeat (case_match; try done).
    all: try (by apply K).
    all: try (intros i o q; by apply (ok_sequence _ _ K i)).
    all: try (by exists n).
    all: try (unfold pending_load; by rewrite (bool_decide_eq_true_2 _ eq_refl)).
    all: try (intros i o p Hi Hp; by destruct (no_dialogs s Ha i o p)).
    all: cbn; split_and!; try done; by apply bool_decide_eq_true in H.
Qed.

Lemma npm_refresh_ok caller s r : npm_ok s r -> (forall p, caller = Some p -> keeps_dialog p = true -> dialog_ok s r p) ->
  npm_ok (refreshPackage caller s) r.
Proof.
  intros K Hc. unfold refreshPackage. destruct (packageDetails s) as [d|] eqn:Hd; [|done].
  destruct (_ && _) eqn:E; [|done]. apply andb_true_iff in E as [[_ Hh%negb_true_iff]%andb_true_iff Hv%bool_decide_eq_true].
  pose proof (ok_route _ _ K) as Hr. cbv zeta. apply (newer_ok _ _ _ (loadSequence s)); try done.
  - apply K.
  - intros i o q. by apply (ok_sequence _ _ K i).
  - exists (name (pkg d)). split; [|done]. unfold route_ok in Hr. destruct r as [[repo [|n]]|]; destruct Hr as (H1 & H2 & H3); [by destruct H3; congruence| |congruence].
    cbn. congruence.
  - intros Hb. unfold pending_load in Hb. rewrite (bool_decide_eq_true_2 _ eq_refl) in Hb. cbn [andb] in Hb.
    destruct (is_loading s) eqn:El; [done|]. apply npm_loading_false in El. split; [|intros Hbusy; by destruct (ok_busy _ _ K Hbusy)].
    apply (shows_route_screen s); [same_tac|apply (ok_shown _ _ K El)].
  - intros Hcalm Hp. apply (ok_marked _ _ K Hcalm), npm_loading_true. unfold pending_load in Hp.
    rewrite (bool_decide_eq_true_2 _ eq_refl) in Hp. cbn [andb] in Hp. by destruct (is_loading s).
  - intros i o p Hi Hp. exact (ok_dialog _ _ K i o p Hi Hp).
  - intros p Hp. cbn in Hp. destruct caller as [p'|]; [|done]. destruct (keeps_dialog p') eqn:Hk; [|done]. injection Hp as ->. exact (Hc p eq_refl Hk).
Qed.

(** ** Lemmas: drawing *)
Lemma render_package_draws s d : packageDetails s = Some d -> exists p u,
  render_package s = replaceRepositoryView (PackageScreen p) (set_ui u s) /\ renderPackage (the_viewer s) d u = (u, p).
Proof.
  intros Hd. unfold render_package. rewrite Hd. destruct (renderPackage (the_viewer s) d (ui s)) as [u p] eqn:E. exists p, u. split; [done|].
  pose proof (coherent_again _ _ _ (render_coherent (the_viewer s) d (ui s))) as H. by rewrite E in H.
Qed.

Lemma npm_render_package_shows s repo d : packageDetails s = Some d -> serves repo (pkg d) = true ->
  shows_route (render_package s) (Some (repo, Package (name (pkg d)))).
Proof.
  intros Hd Hv. destruct (render_package_draws s d Hd) as (p & u & -> & Hp). right. by exists d, p.
Qed.

Lemma render_catalog_shows s repo : activeRepository s = repo -> catalog_shown s repo -> shows_route (renderCatalog s) (Some (repo, Overview)).
Proof.
  intros <- [H1 H2 H3]. right. split; [by split|].
  exists (if length (packageList s) <? packageTotal s then Some (mk_more (draws s) false) else None). split; [done|].
  change (packageList (renderCatalog s)) with (packageList s). change (packageTotal (renderCatalog s)) with (packageTotal s).
  destruct (Nat.ltb_spec (length (packageList s)) (packageTotal s)) as [Hl|Hl]; split; intros Hx; [done|done|by destruct Hx|lia].
Qed.

Lemma release_frame b s : exists sc, release_button b s = set_content (hidden s) (busy s) sc s.
Proof.
  assert (H : s = set_content (hidden s) (busy s) (content s) s) by by destruct s.
  unfold release_button. destruct (content s) as [| | |cards total [m|] create cmds|p] eqn:E; eauto. case_bool_decide; eauto.
Qed.

Lemma release_shows b s r : shows_route s r -> shows_route (release_button b s) r.
Proof.
  unfold release_button. intros H. destruct (content s) as [| | |cards total m create cmds|p] eqn:E; try done.
  destruct m as [m|]; [|done]. case_bool_decide; [|done]. destruct r as [[repo [|n]]|]; cbn in H.
  - destruct H as [H|(H1 & more & H2 & H3)]; [congruence|]. right. split; [by destruct H1|]. rewrite E in H2. injection H2 as -> -> <- -> ->.
    exists (Some (mk_more (drawing m) false)). split; [done|]. cbn. rewrite <- H3. by split.
  - destruct H as [H|(d & p & _ & _ & _ & H & _)]; congruence.
  - congruence.
Qed.

Lemma release_ok b s r : npm_ok s r -> npm_ok (release_button b s) r.
Proof.
  intros K. pose proof (release_shows b s r) as Hs. destruct (release_frame b s) as [sc Hsc]. rewrite Hsc in *.
  revert K. apply npm_frame_ok; [same_tac|done..].
Qed.

(** ** Lemmas: answers of loads *)
(** A load of the route or a refresh has come: nothing else of its sequence is under way, and the screen is the route's. *)
Lemma npm_loaded_ok i o s s' r : npm_ok s r -> operations s !! i = Some o -> load_sequence o = Some (loadSequence s) ->
  loadSequence s' = loadSequence s -> activeRepository s' = activeRepository s -> hidden s' = hidden s -> versionPackage s' = versionPackage s ->
  operations s' = delete i (operations s) -> next s' = next s ->
  (packageDetails s' = packageDetails s \/ exists n d, r = Some (activeRepository s, Package n) /\ packageDetails s' = Some d /\ name (pkg d) = n) ->
  (busy s' = true -> animations s' <> 0) -> shows_route s' r -> npm_ok s' r.
Proof.
  intros K Hi Ho V1 V2 V3 V4 V5 V6 Hd Hb Hs.
  assert (Hn : forall j o', operations s' !! j = Some o' -> operations s !! j = Some o' /\ load_sequence o' <> Some (loadSequence s)).
  { intros j o'. rewrite V5, lookup_delete_Some. intros [Hij Hj]. split; [done|]. intros E. apply Hij. by apply (ok_current _ _ K i j o o'). }
  split; rewrite ?V1, ?V6.
  - intros j o' [Hj _]%Hn. by apply (ok_next _ _ K j o').
  - intros j o' q [Hj _]%Hn. by apply (ok_sequence _ _ K j o').
  - intros j k o1 o2 [_ Hj]%Hn _ E. done.
  - intros j o' [_ Hj]%Hn. done.
  - pose proof (ok_route _ _ K) as Hr. unfold route_ok in *. rewrite V2, V3, V4. destruct Hd as [->|(n & d & -> & Hd & Hn')]; [done|].
    by destruct Hr as (H1 & H2 & H3).
  - done.
  - intros j o' p [Hj _]%Hn Hp. destruct (ok_dialog _ _ K j o' p Hj Hp) as [H|(n & d & Hr & Hd' & Hn' & Hc)]; [by left|right].
    rewrite V2. destruct Hd as [->|(n' & d' & Hr' & -> & Hn'')]; [by exists n, d|]. exists n, d'. split_and!; try done. congruence.
  - intros Hx. right. by apply Hb.
  - intros _ (j & o' & Hj & Hp%pending_sequence). apply Hn in Hj as [_ Hj]. congruence.
Qed.

Lemma current_or_stale i o q s : operations s !! i = Some o -> load_sequence o = Some q ->
  (q =? loadSequence (close i s))%nat = true /\ load_sequence o = Some (loadSequence s) \/
  (q =? loadSequence (close i s))%nat = false /\ forall o', operations s !! i = Some o' -> pending_load s o' = false.
Proof.
  intros Hi Ho. cbn. destruct (Nat.eqb_spec q (loadSequence s)) as [<-|Hq]; [auto|right]. split; [done|]. intros o' Hi'.
  rewrite Hi in Hi'. injection Hi' as <-. unfold pending_load. rewrite bool_decide_eq_false_2; [done|]. rewrite Ho. congruence.
Qed.

(** An operation that is no load. *)
Lemma npm_close_other i o s r : npm_ok s r -> operations s !! i = Some o -> load_sequence o = None -> npm_ok (close i s) r.
Proof.
  intros K Hi Ho. apply npm_close_ok; [done|]. intros o' Hi'. rewrite Hi in Hi'. injection Hi' as <-. unfold pending_load. by rewrite Ho.
Qed.

Lemma take_extend {A} (l all : list A) n : l = take (length l) all -> l ++ take n (drop (length l) all) = take (length l + n) all.
Proof. intros Hl. rewrite Hl at 1. apply take_take_drop. Qed.

Lemma prefix_length {A} (all : list A) n : take n all = take (length (take n all)) all.
Proof. rewrite length_take. destruct (Nat.min_spec n (length all)) as [[_ ->]|[H ->]]; [done|]. by rewrite firstn_all, take_ge by lia. Qed.

Lemma loaded_list s repo offset (button : option nat) l total : offset = length (packageList s) -> packageList s = take (length (packageList s)) (listed repo) ->
  (button = None -> packageList s = []) -> l = take pageSize (drop offset (listed repo)) -> total = length (listed repo) ->
  catalog_shown (catalog_loaded (bool_decide (is_Some button)) l total s) repo.
Proof.
  intros Ho Hp Hb Hl Ht. subst offset l total.
  assert (E : (if bool_decide (is_Some button) then packageList s ++ take pageSize (drop (length (packageList s)) (listed repo))
               else take pageSize (drop (length (packageList s)) (listed repo))) = take (length (packageList s) + pageSize) (listed repo)).
  { destruct button as [b|]; [by apply take_extend|]. by rewrite (Hb eq_refl). }
  unfold catalog_loaded. cbv zeta. split; cbn [set_list packageList packageOffset packageTotal].
  - rewrite E. apply prefix_length.
  - done.
  - rewrite E. destruct (Nat.eqb_spec (length (listed repo)) 0) as [H0|H0]; [|done]. rewrite length_take. lia.
Qed.

Lemma catalog_ok i q repo offset button page s r : npm_ok s r -> operations s !! i = Some (LoadCatalog q repo offset button) ->
  match page with Some (l, total) => l = take pageSize (drop offset (listed repo)) /\ total = length (listed repo) | None => True end ->
  npm_ok (catalog_answered q button page (close i s)) r.
Proof.
  intros K Hi Ha. unfold catalog_answered. cbv zeta. apply release_ok.
  destruct (current_or_stale i _ q s Hi eq_refl) as [[-> Hq]|[-> Hq]].
  - destruct (ok_load _ _ K i _ Hi Hq) as (Hr & Hrepo & Ho & Hp & Hb & Hs). destruct page as [[l total]|].
    + apply (npm_loaded_ok i _ s _ _ K Hi Hq); try done; [by left|]. destruct Ha as [Hl Ht]. rewrite Hr, <- Hrepo.
      apply render_catalog_shows; [done|]. by eapply (loaded_list (close i s)).
    + case_bool_decide as Hsome.
      * apply (npm_loaded_ok i _ s _ _ K Hi Hq); try done; [by left|]. apply (shows_route_screen s); [same_tac|by apply Hs].
      * apply (npm_loaded_ok i _ s _ _ K Hi Hq); try done; [by left|]. rewrite Hr. by left.
  - destruct page as [[l total]|]; [by apply npm_close_ok|]. case_bool_decide; [by apply npm_output_ok, npm_close_ok|by apply npm_close_ok].
Qed.

Lemma answers_target_spec repo sfx n d : answers_target (npmAPI repo sfx n) d = true -> name (pkg d) = n /\ serves repo (pkg d) = true.
Proof. unfold answers_target. cbn. by intros [H%bool_decide_eq_true Hv]%andb_true_iff. Qed.

Lemma render_frame s : loadSequence (render_package s) = loadSequence s /\ activeRepository (render_package s) = activeRepository s /\
  hidden (render_package s) = hidden s /\ versionPackage (render_package s) = versionPackage s /\
  operations (render_package s) = operations s /\ next (render_package s) = next s /\ packageDetails (render_package s) = packageDetails s.
Proof. unfold render_package. destruct (packageDetails s) eqn:E; [|done]. destruct (renderPackage _ _ _). cbn. by rewrite E. Qed.

(** New details of the package of the route, by a load or a refresh. *)
Lemma shown_ok i o n d s r : npm_ok s r -> operations s !! i = Some o -> load_sequence o = Some (loadSequence s) ->
  r = Some (activeRepository s, Package n) -> answers_target (npmAPI (activeRepository s) [js "packages"] n) d = true ->
  npm_ok (render_package (set_details (Some d) (close i s))) r.
Proof.
  intros K Hi Hq Hr [Hn Hv]%answers_target_spec. set (s1 := set_details (Some d) (close i s)).
  destruct (render_frame s1) as (V1 & V2 & V3 & V4 & V5 & V6 & V7). apply (npm_loaded_ok i o s _ _ K Hi Hq); try done.
  - right. exists n, d. split_and!; [done|by rewrite V7|done].
  - rewrite Hr, <- Hn. by apply npm_render_package_shows.
Qed.

Lemma npm_details_ok i q t d s r : npm_ok s r -> operations s !! i = Some (LoadPackage q t) ->
  match d with Some d => answers_target t d = true | None => True end -> npm_ok (details_answered q d (close i s)) r.
Proof.
  intros K Hi Ha. unfold details_answered. destruct (current_or_stale i _ q s Hi eq_refl) as [[-> Hq]|[-> Hq]]; cbn [negb]; [|by apply npm_close_ok].
  destruct (ok_load _ _ K i _ Hi Hq) as (n & Hr & ->). destruct d as [d|].
  - by apply (shown_ok i (LoadPackage q (npmAPI (activeRepository s) [js "packages"] n)) n).
  - apply (npm_loaded_ok i _ s _ _ K Hi Hq); try done; [by left|]. rewrite Hr. by left.
Qed.

Lemma refresh_dialog caller s r p : dialog_ok s r p -> dialog_ok (refreshPackage caller s) r p.
Proof. intros H. unfold refreshPackage. repeat (case_match; try done). Qed.

(** What follows a failed request or refresh. *)
Lemma failed_ok (announced : bool) p s r : npm_ok s r -> (keeps_dialog p = true -> dialog_ok s r p) ->
  npm_ok (let s := if announced then output_of (Alert (failure p)) s else s in
          let s := if refreshes_anyway p then refreshPackage None s else s in
          if keeps_dialog p then begin (Asking p) s else s) r.
Proof.
  intros K D. cbv zeta. set (s1 := if announced then _ else _).
  assert (K1 : npm_ok s1 r) by (unfold s1; destruct announced; [by apply npm_output_ok|done]).
  assert (D1 : keeps_dialog p = true -> dialog_ok s1 r p) by (intros Hk; unfold s1; destruct announced; by apply D).
  clearbody s1. set (s2 := if refreshes_anyway p then _ else _).
  assert (K2 : npm_ok s2 r) by (unfold s2; destruct (refreshes_anyway p); [by apply npm_refresh_ok|done]).
  destruct (keeps_dialog p) eqn:Hk; [|done]. apply npm_begin_ok; [done|done|]. intros p' [= <-].
  unfold s2. destruct (refreshes_anyway p); [apply refresh_dialog|]; by apply D1.
Qed.

(** The dialog of an operation under way. *)
Lemma kept_dialog i o p s r : npm_ok s r -> operations s !! i = Some o -> dialog_of o = (if keeps_dialog p then Some p else None) ->
  keeps_dialog p = true -> dialog_ok (close i s) r p.
Proof. intros K Hi Ho Hk. rewrite Hk in Ho. exact (ok_dialog _ _ K i o p Hi Ho). Qed.

Lemma npm_refreshed_ok i q t caller over d s r : npm_ok s r -> operations s !! i = Some (Refreshing q t caller over) ->
  match d with Some d => answers_target t d = true | None => over = false end -> npm_ok (refresh_answered q caller d (close i s)) r.
Proof.
  intros K Hi Ha. destruct d as [d|]; cbn [refresh_answered].
  - destruct (current_or_stale i _ q s Hi eq_refl) as [[-> Hq]|[-> Hq]]; cbn [negb]; [|by apply npm_close_ok].
    destruct (ok_load _ _ K i _ Hi Hq) as (n & Hr & ->). by apply (shown_ok i (Refreshing q (npmAPI (activeRepository s) [js "packages"] n) caller over) n).
  - subst over. assert (Kc : npm_ok (close i s) r).
    { apply npm_close_ok; [done|]. intros o Hi'. rewrite Hi in Hi'. injection Hi' as <-. unfold pending_load. apply andb_false_r. }
    destruct caller as [p|]; [|done]. apply failed_ok; [done|]. by apply (kept_dialog i _ p s r K Hi).
Qed.

Lemma accepted_ok p created s r : npm_ok s r -> (keeps_dialog p = true -> dialog_ok s r p) -> npm_ok (accepted p created s) r.
Proof.
  intros K D. unfold accepted. cbv zeta. destruct (aftermath_of p).
  - apply npm_refresh_ok; [by apply npm_output_ok|]. intros p' [= <-] Hk. by apply D.
  - destruct (can_navigate _); [by apply npm_output_ok, npm_output_ok|by apply npm_output_ok].
  - destruct created as [[n []]|]; [by apply npm_output_ok, npm_output_ok| |done]. destruct (can_navigate _); [by apply npm_output_ok, npm_output_ok|by apply npm_output_ok].
Qed.

Lemma npm_answer_ok i a s r : npm_ok s r -> orderly (Answered i a) s -> npm_ok (answered i a s) r.
Proof.
  intros K Ho. unfold answered. destruct (operations s !! i) as [o|] eqn:Hi; [|done]. cbn [orderly] in Ho.
  destruct o as [q repo offset button|q t|q t caller over|p|p t], a as [page|d| |n pending|]; try done; rewrite ?Hi in Ho.
  - apply (catalog_ok i q repo offset); [done..|]. by destruct page as [[l total]|].
  - apply (npm_details_ok i q t); [done..|]. by destruct d.
  - apply (npm_refreshed_ok i q t caller over); [done..|]. by destruct d.
  - destruct (aftermath_of p); try done; (apply accepted_ok; [by apply (npm_close_other i _ s r K Hi)|]; by apply (kept_dialog i _ p s r K Hi)).
  - destruct (aftermath_of p); try done; (apply accepted_ok; [by apply (npm_close_other i _ s r K Hi)|]; by apply (kept_dialog i _ p s r K Hi)).
  - apply (failed_ok true); [by apply (npm_close_other i _ s r K Hi)|]. by apply (kept_dialog i _ p s r K Hi).
Qed.

(** ** Lemmas: use *)
(** The page is the route's. *)
Definition on_page (s : npm) (r : option (jstr * npm_route)) (d : npm_details) : Prop :=
  r = Some (activeRepository s, Package (name (pkg d))) /\ packageDetails s = Some d.

Lemma npm_screen_route s r d p : npm_ok s r -> is_loading s = false -> packageDetails s = Some d -> content s = PackageScreen p ->
  on_page s r d /\ renderPackage (the_viewer s) d (ui s) = (ui s, p) /\ hero_title (header p) = name (pkg d).
Proof.
  intros K Hb%npm_loading_false Hd Hs. pose proof (ok_shown _ _ K Hb) as Hr. pose proof (ok_route _ _ K) as Ho.
  destruct r as [[repo [|n]]|]; unfold shows_route in Hr; cbn in Ho.
  - destruct Hr as [?|(_ & more & ? & _)]; congruence.
  - destruct Hr as [?|(d' & p' & Hd' & Hn & _ & Hp' & Hrp)]; [congruence|]. rewrite Hd in Hd'. injection Hd' as <-.
    rewrite Hs in Hp'. injection Hp' as <-. destruct Ho as [<- _]. split_and!; [split; [by rewrite Hn|done]|done|]. unfold renderPackage in Hrp. injection Hrp as _ <-. done.
  - congruence.
Qed.

Lemma npm_send_ok p s r : npm_ok s r -> (keeps_dialog p = true -> dialog_ok s r p) -> npm_ok (send_plan p s) r.
Proof.
  intros K D. unfold send_plan. destruct (match captured p with Some n => Some n | None => _ end); [|by apply npm_output_ok].
  apply npm_output_ok, npm_begin_ok; [done..|]. intros p'. cbn. destruct (keeps_dialog p) eqn:Hk; [|done]. intros [= <-]. by apply D.
Qed.

Lemma npm_plan_captured w d drawn pb p m : plan_of w d drawn pb = inr p -> captured p = Some m -> m = drawn \/ m = name (pkg d).
Proof. destruct pb; cbn; try (intros [= <-] [= <-]; auto). case_match; [done|]. by intros [= <-]. Qed.

Lemma npm_press_ok pb s r : npm_ok s r -> is_loading s = false -> npm_ok (press_button_step pb s) r.
Proof.
  intros K Hb. unfold press_button_step. destruct (packageDetails s) as [d|] eqn:Hd; [|done].
  destruct (content s) as [| | | |pg] eqn:Hs; try done. case_match; [|done].
  destruct (npm_screen_route s r d pg K Hb Hd Hs) as ([Hr Hd'] & _ & Ht).
  destruct (plan_of _ _ _ _) as [k|p] eqn:Hp; [by apply npm_output_ok|].
  assert (D : dialog_ok s r p).
  { right. exists (name (pkg d)), d. split_and!; try done. intros m Hm. destruct (npm_plan_captured _ _ _ _ _ _ Hp Hm) as [-> | ->]; congruence. }
  destruct (asks p); [|by apply npm_send_ok]. apply npm_begin_ok; [done..|]. by intros p' [= <-].
Qed.

Lemma npm_language_ok s r : npm_ok s r -> is_loading s = false -> content s <> ErrorScreen -> npm_ok (handleLanguageChanged s) r.
Proof.
  intros K Hb%npm_loading_false Hc. unfold handleLanguageChanged. destruct (hidden s) eqn:Hh; [done|]. pose proof (ok_shown _ _ K Hb) as Hs.
  pose proof (ok_route _ _ K) as Ho. destruct r as [[repo [|n]]|]; [| |by destruct Ho; congruence]; destruct Ho as (Hrepo & _ & Hv).
  - destruct Hv as [Hv ->]. revert K. apply npm_frame_ok; try done; [|cbn; lia]. intros [?|[Hl _]]; [done|]. by apply render_catalog_shows.
  - destruct Hs as [?|(d & p & Hd & Hn & Hsv & _)]; [done|]. rewrite Hd. destruct (render_frame s) as (V1 & V2 & V3 & V4 & V5 & V6 & V7).
    destruct (render_package_draws s d Hd) as (p' & u & E & _). pose proof (npm_render_package_shows s repo d Hd Hsv) as Hrs. rewrite E in *.
    revert K. apply npm_frame_ok; try done; [|cbn; lia]. intros _. by rewrite <- Hn.
Qed.

Lemma page_ok ev s r d p : npm_ok s r -> is_loading s = false -> packageDetails s = Some d -> content s = PackageScreen p ->
  npm_ok (let '(u, pg) := npm_step (the_viewer s) d ev (ui s, p) in set_content (hidden s) (busy s) (PackageScreen pg) (set_ui u s)) r.
Proof.
  intros K Hb Hd Hs. destruct (npm_screen_route s r d p K Hb Hd Hs) as ([Hr _] & Hrp & _).
  assert (Hc : renderPackage (the_viewer s) d (fst (npm_step (the_viewer s) d ev (ui s, p))) = npm_step (the_viewer s) d ev (ui s, p)).
  { apply coherent_again, npm_step_coherent. rewrite <- Hrp. apply render_coherent. }
  destruct (npm_step _ _ _ _) as [u pg]. revert K. apply npm_frame_ok; try done. rewrite Hr. intros [?|(d' & p' & Hd' & Hn & Hsv & _)]; [congruence|].
  rewrite Hd in Hd'. injection Hd' as <-. right. exists d, pg. split_and!; first [done|exact Hc].
Qed.

Lemma npm_more_ok s r : npm_ok s r -> is_loading s = false -> npm_ok (press_more s) r.
Proof.
  intros K Hb%npm_loading_false. unfold press_more. destruct (content s) as [| | |cards total [m|] create cmds|] eqn:Hs; try done.
  destruct (hidden s) eqn:Hh; [done|]. destruct (at_work m); [done|]. cbn [orb].
  pose proof (ok_shown _ _ K Hb) as Hv. pose proof (ok_route _ _ K) as Ho.
  assert (exists repo, r = Some (repo, Overview)) as [repo Hr].
  { destruct r as [[repo [|n]]|]; unfold shows_route in Hv; [by exists repo| |congruence]. destruct Hv as [?|(d & p & _ & _ & _ & ? & _)]; congruence. }
  subst r. destruct Ho as (Hrepo & _ & Hver & Hdet).
  destruct Hv as [?|[[H1 H2 H3] (more & Hc & Hm)]]; [congruence|]. rewrite Hs in Hc. injection Hc as -> -> <- -> ->.
  set (s1 := set_content false (busy s) (CatalogScreen _ _ _ _ _) s).
  assert (Hs1 : shows_route s1 (Some (repo, Overview))).
  { right. split; [by split|]. exists (Some (mk_more (drawing m) true)). split; [done|]. split; [intros _; exact (proj1 Hm ltac:(by eexists))|by eexists]. }
  unfold loadMorePackages. assert (Hnone : forall i o, operations s !! i = Some o -> load_sequence o = Some (loadSequence s) -> False).
  { intros i o Hi Hq. pose proof (ok_load _ _ K i o Hi Hq) as Hload. assert (Hp : pending_load s o = false).
    { apply not_true_iff_false. intros Hp. apply Hb. by exists i, o. }
    unfold pending_load in Hp. rewrite (bool_decide_eq_true_2 _ Hq) in Hp. destruct o; try done. destruct Hload as (n & ? & _). congruence. }
  assert (Hload : forall s2, loading (begin (LoadCatalog (loadSequence s) (activeRepository s) (packageOffset s) (Some (drawing m))) (set_busy true s2)) \/
    loadSequence s2 <> loadSequence s).
  { intros s2. destruct (decide (loadSequence s2 = loadSequence s)) as [E|]; [left|by right]. eexists (next s2), _. split; [apply lookup_insert_eq|].
    unfold pending_load. cbn. by rewrite E, (bool_decide_eq_true_2 _ eq_refl). }
  split; cbn [begin set_operations operations next loadSequence busy set_busy set_content s1].
  - intros i o. rewrite lookup_insert_Some. intros [[<- _]|[_ Hi]]; [lia|]. pose proof (ok_next _ _ K i o Hi). lia.
  - intros i o q. rewrite lookup_insert_Some. intros [[_ <-]|[_ Hi]] E; [injection E as <-; lia|]. by apply (ok_sequence _ _ K i o).
  - intros i j o1 o2. rewrite !lookup_insert_Some.
    intros [[<- _]|[_ Hi]] [[<- _]|[_ Hj]] E1 E2; [done|by destruct (Hnone j o2)|by destruct (Hnone i o1)|by destruct (Hnone i o1)].
  - intros i o. rewrite lookup_insert_Some. intros [[_ <-]|[_ Hi]] E; [|by destruct (Hnone i o)].
    split_and!; try done; [by rewrite <- Hrepo|by cbn; rewrite Hrepo|]. intros _. apply (shows_route_screen s1); [same_tac|done].
  - by split_and!.
  - intros Hn. destruct Hn. by destruct (Hload s1).
  - intros i o p. rewrite lookup_insert_Some. intros [[_ <-]|[_ Hi]] Hp; [done|]. exact (ok_dialog _ _ K i o p Hi Hp).
  - intros _. left. by destruct (Hload s1).
  - done.
Qed.

(** The end of an animation. *)
Lemma npm_morphed_ok s r : npm_ok s r -> (calm -> ~ loading s) -> npm_ok (morphed s) r.
Proof.
  intros K Hc. unfold morphed. destruct (animations s) as [|n] eqn:E; [done|]. split.
  - exact (ok_next _ _ K).
  - exact (ok_sequence _ _ K).
  - exact (ok_current _ _ K).
  - intros i o Hi Hq. apply (load_ok_same s); [same_tac|apply shows_route_screen; same_tac|by apply (ok_load _ _ K i)].
  - exact (ok_route _ _ K).
  - intros Hx. apply (shows_route_screen s); [same_tac|by apply K].
  - intros i o p Hi Hp. apply (dialog_ok_same s); [same_tac|by apply (ok_dialog _ _ K i o)].
  - done.
  - intros Hcalm Hx. by destruct (Hc Hcalm).
Qed.

Lemma npm_step_ok ev s r : npm_ok s r -> orderly ev s -> (calm -> unhurried ev s) -> npm_ok (npm_repository_step ev s) (track ev r).
Proof.
  intros K Ho Hcalm. destruct ev as [path fallback nav| |c user| | | |pb|ev|i yes|i a|]; cbn [npm_repository_step track].
  - destruct Ho as [Ha Hr]. by apply (npm_visit_ok path fallback nav s r).
  - by apply (npm_hide_ok s r).
  - cbn in Ho. pose proof (ok_route _ _ K) as Hr. destruct r as [[repo ro]|]; [by destruct Hr as (_ & ? & _); congruence|].
    revert K. by apply npm_frame_ok.
  - destruct Ho as [Hb Hc]. by apply npm_language_ok.
  - by apply npm_more_ok.
  - destruct (content s) as [| | |cards total more [] cmds|] eqn:Hs; try done. destruct (hidden s) eqn:Hh; [done|].
    apply npm_begin_ok; [done..|]. intros p [= <-]. left. split; [done|]. pose proof (ok_route _ _ K) as Hr. destruct r; [done|]. destruct Hr; congruence.
  - by apply npm_press_ok.
  - destruct (packageDetails s) as [d|] eqn:Hd; [|done]. destruct (content s) as [| | | |p] eqn:Hs; try done. by apply page_ok.
  - destruct (operations s !! i) as [o|] eqn:Hi; [|done]. destruct o as [| | |p|]; try done.
    assert (Kc : npm_ok (close i s) r) by by apply (npm_close_other i _ s r K Hi).
    destruct yes; [|done]. apply npm_send_ok; [done|]. intros _. exact (ok_dialog _ _ K i _ p Hi eq_refl).
  - by apply npm_answer_ok.
  - apply npm_morphed_ok; [done|]. intros Hc. by apply npm_loading_false, Hcalm.
Qed.

Lemma start_ok_npm c user : npm_ok (start c user) None.
Proof. split; try done. intros _ (i & o & Hi & _). cbn in Hi. by rewrite lookup_empty in Hi. Qed.

Lemma run_ok_npm evs s r : npm_ok s r -> orderly_run evs s -> (calm -> unhurried_run evs s) ->
  npm_ok (fst (tracked evs (s, r))) (snd (tracked evs (s, r))).
Proof.
  revert s r. induction evs as [|ev evs IH]; intros s r K Ho Hc; [done|]. destruct Ho as [H1 H2].
  apply IH; [|done|by intros [_ ?]%Hc]. apply npm_step_ok; [done..|by intros [? _]%Hc].
Qed.

(** ** Lemmas: requests *)
(** The requests that a step adds to what is announced. *)
Definition adds (Q : target -> Prop) (s s' : npm) : Prop :=
  exists os, outputs s' = outputs s ++ os /\ forall v t, Sent v t ∈ os -> Q t.

Lemma adds_none Q s s' : outputs s' = outputs s -> adds Q s s'.
Proof. intros H. exists []. rewrite app_nil_r. split; [done|]. by intros v t ?%not_elem_of_nil. Qed.

Lemma adds_output Q o s : (forall v t, o = Sent v t -> Q t) -> adds Q s (output_of o s).
Proof. intros H. exists [o]. split; [done|]. intros v t E%list_elem_of_singleton. by apply (H v). Qed.

Lemma adds_trans Q s s' s'' : adds Q s s' -> adds Q s' s'' -> adds Q s s''.
Proof.
  intros (o1 & E1 & H1) (o2 & E2 & H2). exists (o1 ++ o2). rewrite E2, E1, <- app_assoc. split; [done|].
  intros v t [H|H]%elem_of_app; eauto.
Qed.

Lemma adds_same Q s s0 s' : outputs s0 = outputs s -> adds Q s0 s' -> adds Q s s'.
Proof. intros H (os & E & Hq). exists os. by rewrite <- H. Qed.

Lemma send_adds p s r : dialog_ok s r p -> (forall repo ro, r = Some (repo, ro) -> activeRepository s = repo) -> adds (about r) s (send_plan p s).
Proof.
  intros D Hrepo. unfold send_plan. destruct (match captured p with Some n => Some n | None => _ end) as [m|] eqn:E; [|by apply adds_output].
  cbv zeta. eapply (adds_same _ _ (begin _ s)); [done|]. apply adds_output. intros v t [= _ <-].
  destruct D as [[Hc [[repo ro] Hr]]|(n & d & Hr & Hd & Hn & Hc)].
  - exists repo, ro. split; [done|]. split; [by apply (Hrepo _ ro)|]. left. rewrite Hc in E. by injection E as <-.
  - exists (activeRepository s), (Package n). split_and!; [done..|]. right. cbn. f_equal. destruct (captured p) as [m'|].
    + injection E as ->. by rewrite (Hc m eq_refl).
    + rewrite Hd in E. injection E as <-. done.
Qed.

Lemma refresh_adds Q caller s : adds Q s (refreshPackage caller s).
Proof. apply adds_none. unfold refreshPackage. by repeat case_match. Qed.

Lemma failed_adds Q (announced : bool) p s :
  adds Q s (let s := if announced then output_of (Alert (failure p)) s else s in
            let s := if refreshes_anyway p then refreshPackage None s else s in
            if keeps_dialog p then begin (Asking p) s else s).
Proof.
  cbv zeta. set (s1 := if announced then _ else _).
  assert (H1 : adds Q s s1) by (unfold s1; destruct announced; [by apply adds_output|by apply adds_none]).
  apply (adds_trans _ _ s1 _ H1). clearbody s1. set (s2 := if refreshes_anyway p then _ else _).
  assert (H2 : adds Q s1 s2) by (unfold s2; destruct (refreshes_anyway p); [apply refresh_adds|by apply adds_none]).
  apply (adds_trans _ _ s2 _ H2). destruct (keeps_dialog p); by apply adds_none.
Qed.

Lemma accepted_adds Q p created s : adds Q s (accepted p created s).
Proof.
  unfold accepted. cbv zeta. destruct (aftermath_of p).
  - eapply adds_trans; [by apply (adds_output Q (Alert (success p)))|apply refresh_adds].
  - destruct (can_navigate _); [eapply adds_trans|]; by apply adds_output.
  - destruct created as [[n []]|]; [eapply adds_trans; by apply adds_output| |by apply adds_none].
    destruct (can_navigate _); [eapply adds_trans|]; by apply adds_output.
Qed.

Lemma catalog_adds Q q button page s : adds Q s (catalog_answered q button page s).
Proof.
  unfold catalog_answered. cbv zeta.
  assert (Hr : forall s, outputs (release_button button s) = outputs s) by (intros s'; by destruct (release_frame button s') as [sc ->]).
  destruct page as [[l total]|].
  - apply adds_none. rewrite Hr. by destruct (q =? _)%nat.
  - case_bool_decide; [|apply adds_none; rewrite Hr; by destruct (q =? _)%nat].
    eapply adds_trans; [by apply (adds_output Q (Alert "npm.loadFailed"))|]. apply adds_none. rewrite Hr. by destruct (q =? _)%nat.
Qed.

Lemma answer_adds Q i a s : adds Q s (answered i a s).
Proof.
  unfold answered. destruct (operations s !! i) as [o|]; [|by apply adds_none].
  assert (Hren : forall s, outputs (render_package s) = outputs s) by (intros s'; unfold render_package; by repeat case_match).
  destruct o as [q repo offset button|q t|q t caller over|p|p t], a as [page|d| |n pending|]; try (by apply adds_none); apply (adds_same _ _ (close i s)); try done.
  - apply catalog_adds.
  - apply adds_none. unfold details_answered. case_match; [done|]. destruct d; [|done]. by rewrite Hren.
  - unfold refresh_answered. destruct d as [d|]; [apply adds_none; case_match; [done|by rewrite Hren]|].
    destruct caller as [p|]; [apply failed_adds|by apply adds_none].
  - destruct (aftermath_of p); try (by apply adds_none); apply accepted_adds.
  - destruct (aftermath_of p); try (by apply adds_none); apply accepted_adds.
  - apply (failed_adds Q true).
Qed.

Lemma route_repository s r : npm_ok s r -> forall repo ro, r = Some (repo, ro) -> activeRepository s = repo.
Proof. intros K repo ro ->. apply (ok_route _ _ K). Qed.

Lemma step_adds ev s r : npm_ok s r -> orderly ev s -> adds (about r) s (npm_repository_step ev s).
Proof.
  intros K Ho. destruct ev as [path fallback nav| |c user| | | |pb|ev|i yes|i a|]; cbn [npm_repository_step].
  - apply adds_none. unfold renderNPMRepository. cbv zeta. destruct (npm_route_of path fallback) as [[repo []]|]; [done| |done].
    unfold loadPackage. cbv zeta. by case_match.
  - by apply adds_none.
  - by apply adds_none.
  - apply adds_none. unfold handleLanguageChanged, render_package. by repeat case_match.
  - apply adds_none. unfold press_more. by repeat case_match.
  - apply adds_none. by repeat case_match.
  - unfold press_button_step. destruct (packageDetails s) as [d|] eqn:Hd; [|by apply adds_none].
    destruct (content s) as [| | | |pg] eqn:Hs; try by apply adds_none. case_match; [|by apply adds_none].
    destruct (npm_screen_route s r d pg K Ho Hd Hs) as ([Hr Hd'] & _ & Ht).
    destruct (plan_of _ _ _ _) as [k|p] eqn:Hp; [by apply adds_output|]. destruct (asks p); [by apply adds_none|].
    apply send_adds; [|by apply route_repository]. right. exists (name (pkg d)), d. split_and!; try done.
    intros m Hm. destruct (npm_plan_captured _ _ _ _ _ _ Hp Hm) as [-> | ->]; congruence.
  - apply adds_none. by repeat case_match.
  - destruct (operations s !! i) as [o|] eqn:Hi; [|by apply adds_none]. destruct o as [| | |p|]; try by apply adds_none.
    destruct yes; [|by apply adds_none]. apply (adds_same _ _ (close i s)); [done|]. apply send_adds; [|exact (route_repository s r K)].
    exact (ok_dialog _ _ K i _ p Hi eq_refl).
  - apply answer_adds.
  - apply adds_none. unfold morphed. by destruct (animations s).
Qed.

End npm.

(** ** Properties *)
Module Examples.
#[local] Existing Instance latin_case.
#[local] Existing Instance NpmPackage.Examples.https_url.
#[local] Existing Instance NpmPackage.Examples.tag_units.

Definition the_site : jstr := js "https://h".
Definition host : jstr := js "h".

(** Packages that their repository marks with its name. *)
Definition held (repo n : string) : npm_details :=
  let d := NpmPackage.Examples.held n 4 [NpmPackage.Examples.release "1.0.0" false false []] in
  {| pkg := {| name := js n; private := false; archived := false; mirrored := false; deprecated := false; permission_level := 4; locks := [];
               description := []; latest_version := js "1.0.0"; package_repository := js repo; super_team_prefix := []; version_count := 1;
               publisher := js "ann"; publish_enabled := true; created_at := 1; updated_at := 5 |};
     versions := versions d; dist_tags := dist_tags d; members := members d; member_count := 2; administrator := false; moderator := false;
     is_member := true; published := published d |}.

Definition registry_serves (repo : jstr) (p : npm_package) : bool := (package_repository p =? repo)%js.
Definition registry (repo : jstr) : list npm_package :=
  if (repo =? js "npm")%js then map (fun k => pkg (held "npm" ("kit" +:+ pretty k))) (seq 0 30) else [].

Definition anyone : caches := session_caches true false [] [].
Definition run (evs : list npm_repository_event) : npm := fst (tracked the_site host evs (start anyone (js "Ann"), None)).
Definition sent (s : npm) : list target := omap (fun o => match o with Sent _ t => Some t | _ => None end) (outputs s).
Definition page_title (s : npm) : option jstr := match content s with PackageScreen p => Some (hero_title (header p)) | _ => None end.
Definition cards_shown (s : npm) : option nat := match content s with CatalogScreen l _ _ _ _ => Some (length l) | _ => None end.

Definition to_kit : npm_repository_event := Visit (js "/npm/packages/kit1") [] true.
Definition to_lib : npm_repository_event := Visit (js "/other/packages/%40ui%2Flib") [] true.
Definition answer_kit (i : nat) : npm_repository_event := Answered i (DetailsAnswer (Some (held "npm" "kit1"))).
Definition answer_lib (i : nat) : npm_repository_event := Answered i (DetailsAnswer (Some (held "other" "@ui/lib"))).
Definition page_of (offset : nat) : answer := CatalogAnswer (Some (take pageSize (drop offset (registry (js "npm"))), 30)).

(** The list with more of it, a package whose load another visit interrupts, a change of it that ends after the visitor has
    moved on, and the page that was asked for. *)
Definition tour : list npm_repository_event :=
  [Visit (js "/npm") [] true; Answered 0 (page_of 0); AnimationEnded; PressMore; Answered 1 (page_of 24); to_lib; to_kit; answer_kit 3;
   Press (PressArchive true); Press PressDelete; Confirmed 5 false; to_lib; AnimationEnded; Answered 4 Accepted; answer_lib 2; answer_lib 6;
   AnimationEnded; LanguageChanged; AnimationEnded; Press (PressDeleteVersion (js "1.0.0"))].

Lemma npm_tour_shows :
  let s := run tour in
  page_title s = Some (js "@ui/lib") /\ is_loading s = false /\ busy s = false /\ sent s = [mk_target (js "npm") [js "packages"] (js "kit1") []] /\
  cards_shown (run (take 5 tour)) = Some 30.
Proof. vm_compute. done. Qed.

Lemma npm_tour_orderly : orderly_run the_site host registry registry_serves tour (start anyone (js "Ann")).
Proof.
  cbn [tour orderly_run]. repeat match goal with |- _ /\ _ => split end; vm_compute; try done; try (split; [done|by eexists]); by split.
Qed.

(** A button of the page that stays while the next one loads acts on the package of that name in the new repository. *)
Lemma npm_press_while_loading :
  sent (run [to_kit; answer_kit 0; to_lib; Press (PressArchive true)]) = [mk_target (js "other") [js "packages"] (js "kit1") []].
Proof. vm_compute. done. Qed.

(** A description that is saved after the visitor has moved on goes to the package that is open then. *)
Lemma description_elsewhere :
  sent (run [to_kit; answer_kit 0; Press PressEdit; to_lib; answer_lib 2; Confirmed 1 true]) =
  [mk_target (js "other") [js "packages"] (js "@ui/lib") []].
Proof. vm_compute. done. Qed.

(** A change of the language while the list loads shows an empty list, and with its animation the busy mark ends. *)
Lemma language_while_loading :
  let s := run [Visit (js "/npm") [] true; LanguageChanged; AnimationEnded] in cards_shown s = Some 0 /\ is_loading s = true /\ busy s = false.
Proof. vm_compute. done. Qed.

(** After an address that could not be loaded it shows the former package. *)
Lemma language_after_error :
  let s := run [to_kit; answer_kit 0; to_lib; Answered 1 (DetailsAnswer None); LanguageChanged] in
  page_title s = Some (js "kit1") /\ activeRepository s = js "other".
Proof. vm_compute. done. Qed.

(** It also makes a new button, so that the same packages can be loaded twice. *)
Lemma loaded_twice :
  cards_shown (run [Visit (js "/npm") [] true; Answered 0 (page_of 0); PressMore; LanguageChanged; PressMore; Answered 1 (page_of 24);
                    Answered 2 (page_of 24)]) = Some 36.
Proof. vm_compute. done. Qed.

(** The list's button, pressed while a package loads, puts the list in the place of that package. *)
Lemma list_over_package :
  let s := run [Visit (js "/npm") [] true; Answered 0 (page_of 0); to_kit; PressMore; answer_kit 1; Answered 2 (page_of 24)] in
  cards_shown s = Some 30 /\ versionPackage s = js "kit1".
Proof. vm_compute. done. Qed.

(** The animation of a page that was replaced takes the mark from the page that is loaded next. *)
Lemma npm_animation_clears_mark :
  let s := run [to_kit; answer_kit 0; to_lib; AnimationEnded] in page_title s = Some (js "kit1") /\ is_loading s = true /\ busy s = false.
Proof. vm_compute. done. Qed.

(** A refresh that overtakes a load and fails leaves the view marked busy. *)
Lemma npm_stays_busy :
  let s := run [to_kit; answer_kit 0; AnimationEnded; Press (PressArchive true); to_kit; Answered 1 Accepted; answer_kit 2; Answered 3 (DetailsAnswer None)] in
  busy s = true /\ operations s = ∅ /\ animations s = 0.
Proof. vm_compute. done. Qed.

(** A malformed address leaves the former page. *)
Lemma malformed_address :
  npm_route_of (js "/50%/packages/kit1") [] = None /\ page_title (run [to_kit; answer_kit 0; Visit (js "/50%") [] true]) = Some (js "kit1").
Proof. vm_compute. done. Qed.
End Examples.

Section properties.
Context {UC : UnicodeCase} {UP : UrlParser} {TO : TagOrder}.
Variables (site_origin site_host : jstr).
Variable listed : jstr -> list npm_package.
Variable serves : jstr -> npm_package -> bool.

(** C16: a visitor moves between the addresses of npm repositories, loads more of a list, presses buttons, answers dialogs
    before moving on, and uses a page when no load of the address is under way; the addresses can be decoded, the account
    changes while the view is hidden, and the language changes while neither a load is under way nor an error shown; requests, refreshes, loads and the
    animations of replaced pages end in any order, also after the visitor has moved on, with the answers of a server, where
    a refresh that has made a load stale succeeds.  Then, whenever no load of the address is under way, the view shows what
    the current address names: a part of the repository's list from its start, with the button for more exactly while
    packages are missing, the page of the package as the server gave it, drawn for the choices made on it, an error, or
    nothing when the view is hidden.  It is marked busy only while a load of the address or the animation of a replaced page
    is under way, and it is marked during the whole load if no animation ends in the meantime (an animation that ends takes
    the mark away, whatever is loading).  And every request that is sent goes to the repository of the address, for its
    package unless it reserves one. *)
Theorem npm_pages_follow_route c user evs s r : orderly_run site_origin site_host listed serves evs (start c user) ->
  tracked site_origin site_host evs (start c user, None) = (s, r) ->
  (is_loading s = false -> shows_route site_origin site_host listed serves s r) /\
  (busy s = true -> is_loading s = true \/ animations s <> 0) /\
  (unhurried_run site_origin site_host evs (start c user) -> is_loading s = true -> busy s = true) /\
  (forall ev, orderly listed serves ev s -> adds (about r) s (npm_repository_step site_origin site_host ev s)).
Proof.
  intros Ho Hrun. set (calm := unhurried_run site_origin site_host evs (start c user)).
  pose proof (run_ok_npm site_origin site_host listed serves calm evs _ _ (start_ok_npm site_origin site_host listed serves calm c user) Ho
                ltac:(done)) as K.
  rewrite Hrun in K. cbn [fst snd] in K. rewrite npm_loading_false, npm_loading_true. split_and!; try apply K.
  intros ev Hev. by apply (step_adds site_origin site_host listed serves calm).
Qed.

(** the link of a package's card is the address of that package's page in that repository, for the names of scoped
    packages, with their slash, too, and for every name that does not start with an encoded [@]. *)
Theorem npm_links_open repo n link fallback : is_utf16 repo -> is_utf16 n -> repo <> [] -> n <> [] -> starts_with (js "%40") n = false ->
  pieces_text (package_link repo n) = Some link -> npm_route_of link fallback = Some (repo, Package n).
Proof.
  intros Ur Un Hr Hn Hs. unfold pieces_text, package_link. cbn [mapM piece_text].
  destruct (encodeURIComponent repo) as [er|] eqn:Er; [|done]. destruct (encodeURIComponent n) as [en|] eqn:En; [|done]. intros Hl.
  assert (Hne : forall s e, is_utf16 s -> s <> [] -> encodeURIComponent s = Some e -> e <> [] /\ 47%N ∉ e).
  { intros s e Hu Hx He. split; [intros ->; apply Hx; apply (decode_encode _ _ Hu) in He; by injection He|].
    pose proof (encode_safe s e Hu He) as Hf. rewrite Forall_forall in Hf. intros Hin. by specialize (Hf _ Hin). }
  destruct (Hne repo er Ur Hr Er) as [Hr1 Hr2], (Hne n en Un Hn En) as [Hn1 Hn2].
  assert (E : link = 47%N :: join (js "/") [er; js "packages"; en]) by (injection Hl as <-; cbn; by rewrite app_nil_r).
  assert (Hp : path_parts link = [er; js "packages"; en]).
  { rewrite E. apply (path_parts_join [er; js "packages"; en]). rewrite !Forall_cons, Forall_nil.
    split_and!; try done. refine (proj1 (bool_decide_eq_true _) _). vm_compute. reflexivity. }
  unfold npm_route_of. rewrite Hp. cbv zeta. assert (Hs1 : str_or (hd [] [er; js "packages"; en]) fallback = er) by by destruct er.
  rewrite Hs1, (decode_encode repo er Ur Er). cbn [mbind option_bind drop map join]. unfold decodePathSegment.
  rewrite (decode_encode n en Un En). cbn [default]. unfold restore_scope, id. by rewrite Hs.
Qed.
End properties.

Lemma npm_pages_follow_route_witness :
  @orderly_run latin_case NpmPackage.Examples.https_url NpmPackage.Examples.tag_units Examples.the_site Examples.host Examples.registry
    Examples.registry_serves Examples.tour (start Examples.anyone (js "Ann")) /\
  @shows_route latin_case NpmPackage.Examples.https_url NpmPackage.Examples.tag_units Examples.the_site Examples.host Examples.registry
    Examples.registry_serves (Examples.run Examples.tour) (Some (js "other", Package (js "@ui/lib"))).
Proof.
  split; [exact Examples.npm_tour_orderly|].
  exact (proj1 (@npm_pages_follow_route latin_case NpmPackage.Examples.https_url NpmPackage.Examples.tag_units Examples.the_site Examples.host
                  Examples.registry Examples.registry_serves Examples.anyone (js "Ann") Examples.tour (Examples.run Examples.tour)
                  (Some (js "other", Package (js "@ui/lib"))) Examples.npm_tour_orderly ltac:(vm_compute; reflexivity))
           ltac:(vm_compute; reflexivity)).
Defined.

Lemma npm_links_open_witness : exists link,
  pieces_text (package_link (js "my repo") (js "@ui/kit")) = Some link /\ npm_route_of link [] = Some (js "my repo", Package (js "@ui/kit")).
Proof.
  exists (js "/my%20repo/packages/%40ui%2Fkit"). split; [vm_compute; reflexivity|].
  refine (npm_links_open (js "my repo") (js "@ui/kit") _ [] _ _ _ _ _ _); try done.
  - apply is_utf16_forallb. vm_compute. reflexivity.
  - apply is_utf16_forallb. vm_compute. reflexivity.
Defined.
