(* ===== verification/DockerImage.v ===== *)
(** * The page of a container image

    [internal/service/frontend/renop-html/js/browser/docker.js]: what the page of an image shows and to whom, its tags in pages,
    its team, and the texts that are edited in place.  The list of images and the addresses are [DockerRepository]'s. *)
From S2P Require Import Prelude JsString JsNumber BrowserUtils PackageParts Pages.
Local Open Scope nat_scope.

(** ** Data *)
Record docker_tag := {
  tag : jstr;
  tag_pending : bool;                   (* [review_status === 'pending'] *)
  digest : jstr;
  tag_size : N;
  tag_created : N;
  tag_updated : N;
  tag_publisher : jstr;
  tag_mirrored : bool;
  tag_locks : list lock
}.

Record docker_image := {
  private : bool;
  deprecated : bool;
  mirrored : bool;
  locks : list lock;
  version_locked : bool;
  publisher : jstr;
  description : jstr;
  readme : jstr;
  super_team_prefix : jstr;
  pull_count : N;
  created_at : N;
  updated_at : N
}.

Record docker_member := { member_name : jstr; user_id : jstr; level : nat; added_at : N }.

Record docker_details := {
  image : docker_image;
  tags : list docker_tag;
  members : list docker_member;
  permission_level : nat;
  administrator : bool;
  moderator : bool;
  total_size : N
}.

(** The repository and the name of an image. *)
Record place := mk_place { repoName : jstr; imageName : jstr }.

#[export] Instance place_eq_dec : EqDecision place.
Proof. solve_decision. Defined.

(** What is read outside the details. *)
Record docker_viewer := { signed_in : bool; user_name : jstr; site_host : jstr }.

Section image.
Context {UC : UnicodeCase}.

Definition currentUsername (w : docker_viewer) : jstr := to_lower (trim (user_name w)).

(** ** What the visitor may do *)
Definition isLocked (d : docker_details) : bool := resourceWriteLocked [locks (image d)].
Definition at_least (l : nat) (d : docker_details) : bool := administrator d || (l <=? permission_level d).
Definition changeable (d : docker_details) : bool := negb (deprecated (image d)) && negb (isLocked d).

Definition canDeprecate (d : docker_details) : bool := negb (isLocked d) && negb (version_locked (image d)) && at_least 3 d.
Definition canManageL2 (d : docker_details) : bool := changeable d && at_least 2 d.
Definition canManageL3 (d : docker_details) : bool := changeable d && at_least 3 d.
Definition canTransferOwnership (d : docker_details) : bool := changeable d && (administrator d || (permission_level d =? 4)).
Definition canPush (d : docker_details) : bool := changeable d && at_least 1 d.

(** ** The command *)
Definition visibleTags (d : docker_details) : list docker_tag := List.filter (fun x => negb (tag_pending x)) (tags d).
Definition pendingTags (d : docker_details) : list docker_tag := List.filter tag_pending (tags d).

Definition pullableTag (d : docker_details) : option docker_tag :=
  List.find (fun x => negb (resourceReadLocked [locks (image d); tag_locks x])) (visibleTags d).

Definition latestTag (d : docker_details) : jstr :=
  str_or (match pullableTag d with Some x => tag x | None => [] end)
    (str_or (match visibleTags d with x :: _ => tag x | [] => [] end) (js "latest")).

Definition reference (w : docker_viewer) (p : place) (t : jstr) : jstr :=
  site_host w ++ js "/" ++ repoName p ++ js "/" ++ imageName p ++ js ":" ++ t.

Definition clientCommand (w : docker_viewer) (p : place) (d : docker_details) : jstr :=
  match pullableTag d with
  | Some _ => js "docker pull " ++ reference w p (latestTag d)
  | None =>
    if (length (visibleTags d) =? 0) && (length (pendingTags d) =? 0) && canPush d
    then js "docker push " ++ reference w p (js "<tag>") else []
  end.

(** The command with the title of its button, or the hint in its place. *)
Definition pull_box (w : docker_viewer) (p : place) (d : docker_details) : (jstr * string) + string :=
  let c := clientCommand w p d in
  if nonempty c then inl (c, if (0 <? length (visibleTags d))%nat then "docker.copyPull" else "docker.copyPush")
  else inr (if resourceReadLocked [locks (image d)] || existsb (fun x => resourceReadLocked [tag_locks x]) (visibleTags d)
            then "resourceLock.blocked"
            else if (0 <? length (pendingTags d))%nat then "docker.awaitingReview" else "docker.awaitingFirstPush")%string.

(** ** Header *)
Inductive image_button := LockImage | DeprecateImage | TransferImage | DeleteImage | EditDescription | EditReadme.

Definition header_buttons (d : docker_details) : list image_button :=
  (if moderator d then [LockImage] else []) ++
  (if canDeprecate d && negb (mirrored (image d)) && negb (deprecated (image d)) then [DeprecateImage] else []) ++
  (if canTransferOwnership d && negb (mirrored (image d)) then [TransferImage] else []) ++
  (if canManageL3 d && negb (version_locked (image d)) then [DeleteImage] else []) ++
  (if canManageL2 d then [EditDescription] else []).

Inductive chip :=
| Repository (r : jstr)
| Publisher (p : text)
| Mark (k : string)
| Team (prefix : jstr)
| LatestTag (t : jstr)
| TotalTags (n : nat)
| Pulls (n : N)
| Size (n : N)
| Created (n : N)
| Updated (n : N).

Definition meta_row (p : place) (d : docker_details) : list chip :=
  let i := image d in
  [Repository (repoName p); Publisher (lit_or (publisher i) "docker.unspecifiedPublisher")] ++
  (if private i then [Mark "docker.private"] else []) ++ (if deprecated i then [Mark "package.deprecated"] else []) ++
  (if nonempty (super_team_prefix i) then [Team (super_team_prefix i)] else []) ++
  (if mirrored i then [Mark "common.fromMirror"] else []) ++
  (if 0 <? length (visibleTags d) then [LatestTag (latestTag d)] else []) ++
  [TotalTags (length (visibleTags d)); Pulls (pull_count i)] ++
  (if (0 <? total_size d)%N then [Size (total_size d)] else []) ++
  (if (created_at i =? 0)%N then [] else [Created (created_at i)]) ++
  (if (updated_at i =? 0)%N || (updated_at i =? created_at i)%N then [] else [Updated (updated_at i)]).

(** [updateDescView]; [None]: hidden. *)
Definition description_view (d : docker_details) (s : jstr) : option text :=
  if nonempty (trim s) then Some (Lit (trim s)) else if canManageL2 d then Some (Key (js "docker.noDescription")) else None.

(** [updateReadmeView] *)
Definition readme_view (s : jstr) : text := lit_or (trim s) "docker.noReadme".

(** ** Tags *)
(** The buttons, with what their handlers hold besides the tag. *)
Inductive tag_button := CopyPull (command : jstr) | Inspect (tag_digest : jstr) | LockTag (version : jstr) | DeleteTag.

#[export] Instance image_button_eq_dec : EqDecision image_button.
Proof. solve_decision. Defined.
#[export] Instance tag_button_eq_dec : EqDecision tag_button.
Proof. solve_decision. Defined.

Record tag_row := {
  row_tag : jstr;
  row_pending : bool;
  row_digest : jstr;                    (* the text of the button that copies it *)
  row_size : option N;
  row_publisher : text;
  row_time : option N;
  row_report : bool;
  row_notices : list (jstr * text * bool * bool);
  row_buttons : list tag_button
}.

Definition tag_buttons (w : docker_viewer) (p : place) (d : docker_details) (x : docker_tag) : list tag_button :=
  (if negb (tag_pending x) then
     (if negb (resourceReadLocked [locks (image d); tag_locks x]) then [CopyPull (js "docker pull " ++ reference w p (tag x))] else []) ++
     [Inspect (digest x)] ++ (if moderator d then [LockTag (digest x)] else [])
   else []) ++
  (if canManageL2 d && negb (resourceWriteLocked [tag_locks x]) && negb (tag_pending x) then [DeleteTag] else []).

Definition tag_row_of (w : docker_viewer) (p : place) (d : docker_details) (x : docker_tag) : tag_row := {|
  row_tag := tag x;
  row_pending := tag_pending x;
  row_digest := if nonempty (digest x) then slice 0 19 (digest x) ++ [0x2026%N] else [];
  row_size := if (0 <? tag_size x)%N then Some (tag_size x) else None;
  row_publisher := lit_or (str_or (tag_publisher x) (publisher (image d))) "docker.unspecifiedPublisher";
  row_time := if (tag_updated x =? 0)%N then if (tag_created x =? 0)%N then None else Some (tag_created x) else Some (tag_updated x);
  row_report := negb (tag_pending x) && createTicketReportButton
    (mirrored (image d) || tag_mirrored x || (4 <=? permission_level d) || resourceReadLocked [locks (image d); tag_locks x]) (signed_in w);
  row_notices := createResourceLockNotices (tag_locks x);
  row_buttons := tag_buttons w p d x
|}.

(** ** The team *)
Inductive member_control :=
| LevelSelect (levels : list nat) (current : nat) (self : bool)    (* with the button to remove, or to leave *)
| LevelBadge (l : nat) (leave : bool).

Record member_row := {
  row_index : nat;
  row_member : jstr;
  row_reference : jstr;                 (* what a request calls the member *)
  row_date : option N;
  row_control : member_control
}.

Definition levels (d : docker_details) : list nat := [0; 1; 2; 3] ++ (if canTransferOwnership d then [4] else []).

Definition member_row_of (w : docker_viewer) (d : docker_details) (i : nat) (m : docker_member) : member_row :=
  let isSelf := (to_lower (member_name m) =? currentUsername w)%js in {|
  row_index := i;
  row_member := member_name m;
  row_reference := str_or (user_id m) (member_name m);
  row_date := if (added_at m =? 0)%N then None else Some (added_at m);
  row_control :=
    if canManageL3 d && (level m <? 4) then LevelSelect (levels d) (level m) isSelf
    else LevelBadge (Nat.min 4 (level m))
           (negb (deprecated (image d)) && negb (isLocked d) && negb (canManageL3 d) && isSelf && (level m <? 4))
|}.

(** [None]: no team is shown; the levels of the invitation form, if there is one. *)
Definition team_section (w : docker_viewer) (d : docker_details) : option (list member_row * option (list nat)) :=
  if (0 <? length (members d)) || canManageL3 d
  then Some (imap (member_row_of w d) (members d), if canManageL3 d then Some (levels d) else None) else None.

(** What submitting the invitation does: the warning, or the name that is invited. *)
Definition invitation (w : docker_viewer) (input : jstr) : string + jstr :=
  let user := trim input in
  if negb (nonempty user) then inl "docker.inviteUsernameRequired"%string
  else if nonempty (user_name w) && (to_lower user =? to_lower (user_name w))%js then inl "docker.cannotInviteSelf"%string
  else inr user.
End image.

(** ** The page *)
Record docker_choices := mk_choices { dockerTagPage : Z; dockerTagImage : jstr; dockerPackageView : jstr; inviteLevel : nat }.

Inductive section_kind := TagsSection | ReadmeSection | TeamSection.

(** What stays as it was drawn: the place and the sequence that the handlers hold, and the parts. *)
Record docker_frame := {
  frame_place : place;
  frame_sequence : nat;
  frame_buttons : list image_button;
  frame_chips : list chip;
  frame_pull : (jstr * string) + string;
  frame_notices : list (jstr * text * bool * bool);
  frame_deprecation : bool;
  frame_report : bool;
  frame_rows : list tag_row;
  frame_team : option (list member_row * option (list nat))
}.

Record docker_page := mk_page {
  frame : docker_frame;
  details : docker_details;             (* the handlers' object, whose texts are edited in place *)
  description_shown : option text;
  readme_shown : text;
  tag_list : option (collection_state tag_row tag_row);   (* [None]: no tags *)
  subpages : option (tabs_state section_kind);
  selected : list nat                   (* what the select of each member shows *)
}.

Definition image_key (p : place) : jstr := repoName p ++ [47%N] ++ imageName p.
Definition dockerTagPageSize : Z := 10.

Definition render_row (r : tag_row) (_ : Z) : option tag_row := Some r.

Definition tag_collection (rows : list tag_row) (page : Z) : option (collection_state tag_row tag_row) :=
  match rows with [] => None | _ => Some (told (createPaginatedCollection dockerTagPageSize render_row None rows (Fin page 0))) end.

Inductive docker_event :=
| TurnTags (forward : bool)
| Subpage (ev : tab_event)
| ChooseInviteLevel (l : nat)
| SelectLevel (i l : nat)               (* the select of a member shows a level *)
| SavedLevel (i l : nat)                (* the member has got it *)
| SavedDescription (s : jstr)           (* an editor that this page opened has saved its text *)
| SavedReadme (s : jstr).

Section page.
Context {UC : UnicodeCase}.
Variables (w : docker_viewer).

Definition frame_of (p : place) (sequence : nat) (d : docker_details) : docker_frame := {|
  frame_place := p;
  frame_sequence := sequence;
  frame_buttons := header_buttons d ++ (if canManageL2 d then [EditReadme] else []);
  frame_chips := meta_row p d;
  frame_pull := pull_box w p d;
  frame_notices := createResourceLockNotices (locks (image d));
  frame_deprecation := deprecated (image d);
  frame_report := createTicketReportButton (mirrored (image d) || (4 <=? permission_level d) || resourceReadLocked [locks (image d)]) (signed_in w);
  frame_rows := map (tag_row_of w p d) (tags d);
  frame_team := team_section w d
|}.

Definition docker_tabs (d : docker_details) (active : jstr) : option (tabs_state section_kind) :=
  createPackageDetailTabs
    [(js "tags", [Some TagsSection]);
     (js "readme", [if nonempty (trim (readme (image d))) || nonempty (trim (description (image d))) || canManageL2 d then Some ReadmeSection else None]);
     (js "team", [match team_section w d with Some _ => Some TeamSection | None => None end])] active.

(** The choices belong to an image; those of another one are left behind. *)
Definition own_choices (p : place) (u : docker_choices) : docker_choices :=
  if (dockerTagImage u =? image_key p)%js then u else mk_choices 0 (image_key p) (js "tags") (inviteLevel u).

Definition render_image (p : place) (sequence : nat) (d : docker_details) (u : docker_choices) : docker_choices * docker_page :=
  let u := own_choices p u in
  let list := tag_collection (map (tag_row_of w p d) (tags d)) (dockerTagPage u) in
  let tabs := docker_tabs d (dockerPackageView u) in
  (mk_choices (match list with Some c => currentPage c | None => 0%Z end) (dockerTagImage u)
     (match tabs with Some t => current t | None => dockerPackageView u end) (if canManageL3 d then 1 else inviteLevel u),
   mk_page (frame_of p sequence d) d (description_view d (description (image d))) (readme_view (readme (image d))) list tabs (map level (members d))).

(** A text saved by an editor of the page: the handlers' object and the page's text change. *)
Definition set_texts (desc rm : jstr) (d : docker_details) : docker_details := {|
  image := {| private := private (image d); deprecated := deprecated (image d); mirrored := mirrored (image d); locks := locks (image d);
              version_locked := version_locked (image d); publisher := publisher (image d); description := desc; readme := rm;
              super_team_prefix := super_team_prefix (image d); pull_count := pull_count (image d); created_at := created_at (image d);
              updated_at := updated_at (image d) |};
  tags := tags d; members := members d; permission_level := permission_level d; administrator := administrator d; moderator := moderator d;
  total_size := total_size d |}.

(** [member.level = newLevel] *)
Definition set_level (l : nat) (m : docker_member) : docker_member :=
  {| member_name := member_name m; user_id := user_id m; level := l; added_at := added_at m |}.

Definition set_members (ms : list docker_member) (d : docker_details) : docker_details := {|
  image := image d; tags := tags d; members := ms; permission_level := permission_level d; administrator := administrator d;
  moderator := moderator d; total_size := total_size d |}.

Definition set_details (d : docker_details) (p : docker_page) : docker_page :=
  mk_page (frame p) d (description_shown p) (readme_shown p) (tag_list p) (subpages p) (selected p).
Definition set_shown (desc : option text) (rm : text) (p : docker_page) : docker_page :=
  mk_page (frame p) (details p) desc rm (tag_list p) (subpages p) (selected p).
Definition set_tag_list (c : option (collection_state tag_row tag_row)) (p : docker_page) : docker_page :=
  mk_page (frame p) (details p) (description_shown p) (readme_shown p) c (subpages p) (selected p).
Definition set_subpages (t : option (tabs_state section_kind)) (p : docker_page) : docker_page :=
  mk_page (frame p) (details p) (description_shown p) (readme_shown p) (tag_list p) t (selected p).
Definition set_selected (ls : list nat) (p : docker_page) : docker_page :=
  mk_page (frame p) (details p) (description_shown p) (readme_shown p) (tag_list p) (subpages p) ls.

Definition save_description (s : jstr) (p : docker_page) : docker_page :=
  set_shown (description_view (details p) s) (readme_shown p) (set_details (set_texts s (readme (image (details p))) (details p)) p).
Definition save_readme (s : jstr) (p : docker_page) : docker_page :=
  set_shown (description_shown p) (readme_view s) (set_details (set_texts (description (image (details p))) s (details p)) p).
Definition save_level (i l : nat) (p : docker_page) : docker_page :=
  set_details (set_members (alter (set_level l) i (members (details p))) (details p)) p.

Definition docker_step (ev : docker_event) (s : docker_choices * docker_page) : docker_choices * docker_page :=
  let '(u, p) := s in
  match ev with
  | TurnTags forward =>
    match tag_list p with
    | Some c =>
      let c := told (page_step dockerTagPageSize render_row None (if forward then ClickNext else ClickPrevious) c) in
      (mk_choices (currentPage c) (dockerTagImage u) (dockerPackageView u) (inviteLevel u),
       set_tag_list (Some c) p)
    | None => s
    end
  | Subpage ev =>
    match subpages p with
    | Some t =>
      let t := tab_step ev t in
      (mk_choices (dockerTagPage u) (dockerTagImage u) (current t) (inviteLevel u),
       set_subpages (Some t) p)
    | None => s
    end
  | ChooseInviteLevel l =>
    match frame_team (frame p) with
    | Some (_, Some ls) => if bool_decide (l ∈ ls) then (mk_choices (dockerTagPage u) (dockerTagImage u) (dockerPackageView u) l, p) else s
    | _ => s
    end
  | SelectLevel i l => (u, set_selected (<[i := l]> (selected p)) p)
  | SavedLevel i l => (u, save_level i l p)
  | SavedDescription text => (u, save_description text p)
  | SavedReadme text => (u, save_readme text p)
  end.

Definition docker_run (evs : list docker_event) (s : docker_choices * docker_page) : docker_choices * docker_page :=
  fold_left (fun s ev => docker_step ev s) evs s.
End page.

(** ** What can be pressed *)
Inductive page_button :=
| OfImage (b : image_button)
| OfTag (t : jstr) (b : tag_button)
| ChangeLevel (member : jstr) (choices : list nat)
| RemoveMember (member : jstr)
| Leave (member : jstr)
| Invite (choices : list nat).

Definition row_page_buttons (r : tag_row) : list page_button := map (OfTag (row_tag r)) (row_buttons r).

Definition member_buttons (r : member_row) : list page_button :=
  match row_control r with
  | LevelSelect ls _ self => [ChangeLevel (row_member r) ls; if self then Leave (row_member r) else RemoveMember (row_member r)]
  | LevelBadge _ true => [Leave (row_member r)]
  | LevelBadge _ false => []
  end.

Definition page_buttons (p : docker_page) : list page_button :=
  map OfImage (frame_buttons (frame p)) ++
  (match tag_list p with Some c => List.concat (map row_page_buttons (shown c)) | None => [] end) ++
  match frame_team (frame p) with
  | Some (rows, form) => List.concat (map member_buttons rows) ++ (match form with Some ls => [Invite ls] | None => [] end)
  | None => []
  end.

(** What is open to every reader. *)
Definition reading (b : page_button) : Prop := match b with OfTag _ (CopyPull _) | OfTag _ (Inspect _) => True | _ => False end.
Definition locking (b : page_button) : Prop := match b with OfImage LockImage | OfTag _ (LockTag _) => True | _ => False end.

(** ** Lemmas *)
Section page_lemmas.
Context {UC : UnicodeCase}.
Variables (w : docker_viewer).

(** What a page keeps: its frame, and a page of the frame's rows. *)
Definition image_kept (f : docker_frame) (s : docker_choices * docker_page) : Prop :=
  frame (snd s) = f /\ match tag_list (snd s) with Some c => told_shown dockerTagPageSize render_row None (frame_rows f) c | None => True end.

Lemma render_image_kept p q d u : image_kept (frame_of w p q d) (render_image w p q d u).
Proof.
  split; [done|]. cbn [render_image snd tag_list frame_of frame_rows]. unfold tag_collection.
  destruct (map (tag_row_of w p d) (tags d)) as [|r rs]; [done|]. by apply told_created.
Qed.

Lemma docker_step_kept f ev s : image_kept f s -> image_kept f (docker_step ev s).
Proof.
  destruct s as [u p]. intros [Hf Ht]. cbn [snd] in *. destruct ev as [forward|ev|l|i l|i l|s|s]; cbn [docker_step].
  - destruct (tag_list p) as [c|] eqn:Hc; [|by split; cbn [snd]; rewrite ?Hc]. split; [done|]. cbn [snd tag_list].
    apply told_turned; [done|destruct forward; auto|done].
  - by destruct (subpages p).
  - by destruct (frame_team (frame p)) as [[? [ls|]]|]; [case_bool_decide| |].
  - done.
  - done.
  - done.
  - done.
Qed.

Lemma docker_step_frame ev s : frame (snd (docker_step ev s)) = frame (snd s).
Proof.
  destruct s as [u p], ev as [forward|ev|l|i l|i l|s|s]; cbn [docker_step snd]; try done.
  - by destruct (tag_list p).
  - by destruct (subpages p).
  - by destruct (frame_team (frame p)) as [[? [ls|]]|]; [case_bool_decide| |].
Qed.

Lemma docker_run_kept f evs s : image_kept f s -> image_kept f (docker_run evs s).
Proof. unfold docker_run. revert s. induction evs as [|ev evs IH]; intros s Hs; [done|]. apply IH. by apply docker_step_kept. Qed.

Lemma docker_buttons_from p q d s b : image_kept (frame_of w p q d) s -> b ∈ page_buttons (snd s) ->
  (exists x, b = OfImage x /\ (x ∈ header_buttons d \/ x = EditReadme /\ canManageL2 d = true)) \/
  (exists t x, t ∈ tags d /\ b = OfTag (tag t) x /\ x ∈ tag_buttons w p d t) \/
  (exists i m, m ∈ members d /\ b ∈ member_buttons (member_row_of w d i m)) \/
  b = Invite (levels d) /\ canManageL3 d = true.
Proof.
  intros [Hf Ht]. unfold page_buttons. rewrite Hf. cbn [frame_of frame_buttons frame_team]. rewrite !elem_of_app.
  intros [(x & -> & Hx)%list_elem_of_fmap|[Hb|Hb]].
  - left. exists x. split; [done|]. apply elem_of_app in Hx as [Hx|Hx]; [by left|].
    destruct (canManageL2 d); [|by apply not_elem_of_nil in Hx]. apply list_elem_of_singleton in Hx. auto.
  - right. left. destruct (tag_list (snd s)) as [c|]; [|by apply not_elem_of_nil in Hb].
    apply elem_of_concat_map in Hb as (r & Hr & Hb). destruct (told_node_from _ _ _ _ _ _ Ht Hr) as [[=]|(r' & j & Hin & [= ->])].
    cbn [frame_of frame_rows] in Hin. apply list_elem_of_fmap in Hin as (t & -> & Hin).
    unfold row_page_buttons in Hb. cbn [tag_row_of row_tag row_buttons] in Hb. apply list_elem_of_fmap in Hb as (x & -> & Hx).
    by exists t, x.
  - right. right. unfold team_section in Hb. destruct (_ || _); [|by apply not_elem_of_nil in Hb].
    apply elem_of_app in Hb as [Hb|Hb].
    + left. apply elem_of_concat_map in Hb as (r & (i & m & -> & Hm)%elem_of_lookup_imap_1 & Hb). exists i, m. by split; [eapply list_elem_of_lookup_2|].
    + right. destruct (canManageL3 d); [|by apply not_elem_of_nil in Hb]. by apply list_elem_of_singleton in Hb.
Qed.

(** What each right needs. *)
Lemma changeable_needs d : changeable d = true -> deprecated (image d) = false /\ locks (image d) = [].
Proof. unfold changeable, isLocked. intros [H1%negb_true_iff H2%negb_true_iff]%andb_true_iff. split; [done|]. by destruct (locks (image d)). Qed.

Lemma at_least_needs k d : at_least k d = true -> 2 <= k -> administrator d = true \/ 2 <= permission_level d.
Proof. unfold at_least. intros [H|H%Nat.leb_le]%orb_true_iff Hk; [by left|right; lia]. Qed.

Definition may_change (d : docker_details) : Prop :=
  (administrator d = true \/ 2 <= permission_level d) /\ deprecated (image d) = false /\ locks (image d) = [].

Lemma L2_needs d : canManageL2 d = true -> may_change d.
Proof. intros [Hc Ha]%andb_true_iff. split; [by apply (at_least_needs 2)|by apply changeable_needs]. Qed.

Lemma L3_needs d : canManageL3 d = true -> may_change d.
Proof. intros [Hc Ha]%andb_true_iff. split; [apply (at_least_needs 3); [done|lia]|by apply changeable_needs]. Qed.

Lemma transfer_needs d : canTransferOwnership d = true -> may_change d /\ (administrator d = true \/ permission_level d = 4).
Proof.
  intros [Hc Ha]%andb_true_iff. assert (Ho : administrator d = true \/ permission_level d = 4).
  { apply orb_true_iff in Ha as [Ha|Ha%Nat.eqb_eq]; auto. }
  split; [|done]. split; [destruct Ho; [by left|right; lia]|by apply changeable_needs].
Qed.

Lemma image_button_needs d x : x ∈ header_buttons d \/ x = EditReadme /\ canManageL2 d = true ->
  x = LockImage /\ moderator d = true \/
  may_change d /\ (x = DeleteImage \/ x = DeprecateImage -> version_locked (image d) = false).
Proof.
  intros [H|[-> H]]; [|by right; split; [apply L2_needs|intros []]]. unfold header_buttons in H. rewrite !elem_of_app in H.
  destruct H as [H|[H|[H|[H|H]]]]; (destruct (_ : bool) eqn:E in H; [|by apply not_elem_of_nil in H]); apply list_elem_of_singleton in H; subst x.
  - by left.
  - right. apply andb_true_iff in E as [[Hc _]%andb_true_iff Hd%negb_true_iff]. unfold canDeprecate, isLocked in Hc.
    apply andb_true_iff in Hc as [[Hl%negb_true_iff Hv%negb_true_iff]%andb_true_iff Ha]. split; [|done].
    split; [apply (at_least_needs 3); [done|lia]|]. split; [done|]. by destruct (locks (image d)).
  - right. apply andb_true_iff in E as [Ht _]. split; [by apply transfer_needs|]. by intros [].
  - right. apply andb_true_iff in E as [Ht Hv%negb_true_iff]. split; [by apply L3_needs|done].
  - right. split; [by apply L2_needs|]. by intros [].
Qed.

Lemma tag_button_needs p d t x : x ∈ tag_buttons w p d t -> tag_pending t = false /\
  (x = Inspect (digest t) \/ x = LockTag (digest t) /\ moderator d = true \/
   x = CopyPull (js "docker pull " ++ reference w p (tag t)) /\ resourceReadLocked [locks (image d); tag_locks t] = false \/
   x = DeleteTag /\ may_change d /\ tag_locks t = []).
Proof.
  unfold tag_buttons. rewrite elem_of_app. intros [H|H].
  - destruct (tag_pending t); [by apply not_elem_of_nil in H|]. cbn [negb] in H. split; [done|]. rewrite !elem_of_app in H.
    destruct (resourceReadLocked _), (moderator d); cbn [negb] in H; rewrite ?list_elem_of_singleton, ?elem_of_nil in H; naive_solver.
  - destruct (_ && _) eqn:E in H; [|by apply not_elem_of_nil in H]. apply list_elem_of_singleton in H. subst x.
    apply andb_true_iff in E as [[Hc Hl%negb_true_iff]%andb_true_iff Hp%negb_true_iff]. split; [done|]. right. right. right.
    split; [done|]. split; [by apply L2_needs|]. by destruct (tag_locks t).
Qed.

Lemma levels_needs d : 4 ∈ levels d -> canTransferOwnership d = true.
Proof. unfold levels. destruct (canTransferOwnership d); [done|]. cbn. rewrite !elem_of_cons, elem_of_nil. lia. Qed.

Lemma member_button_needs d i m b : b ∈ member_buttons (member_row_of w d i m) -> level m < 4 /\ deprecated (image d) = false /\ locks (image d) = [] /\
  (b = Leave (member_name m) /\ to_lower (member_name m) = currentUsername w \/
   may_change d /\ (b = ChangeLevel (member_name m) (levels d) \/ b = RemoveMember (member_name m))).
Proof.
  unfold member_buttons, member_row_of. cbn [row_control row_member].
  destruct (canManageL3 d) eqn:H3; cbn [andb].
  - destruct (Nat.ltb_spec (level m) 4) as [Hl|_]; cbn; [|rewrite !andb_false_r; intros Hb; by apply not_elem_of_nil in Hb].
    intros Hb. pose proof (L3_needs d H3) as Hc. split; [done|]. split_and!; [apply Hc..|]. revert Hb.
    case_bool_decide; rewrite !elem_of_cons, elem_of_nil; naive_solver.
  - rewrite andb_true_r. destruct (_ && _) eqn:E; intros Hb; [|by apply not_elem_of_nil in Hb]. apply list_elem_of_singleton in Hb as ->.
    apply andb_true_iff in E as [[[Hd%negb_true_iff Hi%negb_true_iff]%andb_true_iff Hs%bool_decide_eq_true]%andb_true_iff Hl%Nat.ltb_lt].
    split_and!; [done..| |by left]. unfold isLocked in Hi. by destruct (locks (image d)).
Qed.
End page_lemmas.

(** ** Properties *)
Module Examples.
#[local] Existing Instance latin_case.

Definition pushed (t : string) (waiting : bool) (ls : list lock) : docker_tag := {|
  tag := js t; tag_pending := waiting; digest := js "sha256:0123456789abcdef"; tag_size := 2048; tag_created := 5; tag_updated := 0;
  tag_publisher := []; tag_mirrored := false; tag_locks := ls
|}.

Definition write_lock : lock := mk_lock (js "write") (js "manual") (js "custom") [] false.
Definition read_lock : lock := mk_lock (js "read") (js "manual") (js "custom") [] false.

Definition held (lvl : nat) (ls : list lock) (ts : list docker_tag) : docker_details := {|
  image := {| private := false; deprecated := false; mirrored := false; locks := ls; version_locked := false; publisher := js "ann";
              description := []; readme := js "# app"; super_team_prefix := []; pull_count := 3; created_at := 1; updated_at := 5 |};
  tags := ts;
  members := [{| member_name := js "ann"; user_id := js "u1"; level := 4; added_at := 1 |};
              {| member_name := js "Bob"; user_id := js "u2"; level := 2; added_at := 2 |}];
  permission_level := lvl; administrator := false; moderator := false; total_size := 4096
|}.

Definition app : place := mk_place (js "oci") (js "team/app").
Definition bob : docker_viewer := {| signed_in := true; user_name := js " bob "; site_host := js "h:8" |}.
Definition fresh_choices : docker_choices := mk_choices 0 [] (js "tags") 1.

Definition demo (lvl : nat) : docker_details :=
  held lvl [] ([pushed "new" true []; pushed "hid" false [read_lock]; pushed "v9" false []] ++
               map (fun k => pushed k false []) ["v8"; "v7"; "v6"; "v5"; "v4"; "v3"; "v2"] ++ [pushed "v1" false [write_lock]; pushed "v0" false []]).

Definition clicks : list docker_event :=
  [Subpage (ClickTab (js "team")); TurnTags true; TurnTags true; ChooseInviteLevel 3; ChooseInviteLevel 4; SavedDescription (js "text"); SelectLevel 1 3; SavedLevel 1 3].

Definition shown_page (lvl : nat) : docker_choices * docker_page := docker_run clicks (render_image bob app 3 (demo lvl) fresh_choices).

Lemma image_clicked :
  let '(u, p) := shown_page 3 in
  (dockerTagPage u, dockerPackageView u, inviteLevel u) = (1%Z, js "team", 3) /\ description_shown p = Some (Lit (js "text")) /\
  frame_pull (frame p) = inl (js "docker pull h:8/oci/team/app:v9", "docker.copyPull"%string) /\
  page_buttons p = [OfImage DeprecateImage; OfImage DeleteImage; OfImage EditDescription; OfImage EditReadme;
                    OfTag (js "v1") (CopyPull (js "docker pull h:8/oci/team/app:v1")); OfTag (js "v1") (Inspect (js "sha256:0123456789abcdef"));
                    OfTag (js "v0") (CopyPull (js "docker pull h:8/oci/team/app:v0")); OfTag (js "v0") (Inspect (js "sha256:0123456789abcdef")); OfTag (js "v0") DeleteTag;
                    ChangeLevel (js "Bob") [0; 1; 2; 3]; Leave (js "Bob"); Invite [0; 1; 2; 3]].
Proof. vm_compute. done. Qed.

(** Nothing to pull: the command to push, or why there is none. *)
Lemma pull_boxes :
  map (fun d => frame_pull (frame_of bob app 0 d))
    [held 1 [] []; held 0 [] []; held 4 [write_lock] []; held 1 [] [pushed "a" true []]; held 1 [] [pushed "a" false [read_lock]]] =
  [inl (js "docker push h:8/oci/team/app:<tag>", "docker.copyPush"); inr "docker.awaitingFirstPush"; inr "docker.awaitingFirstPush";
   inr "docker.awaitingReview"; inr "resourceLock.blocked"]%string.
Proof. vm_compute. done. Qed.

(** The row of a member who has been made an owner is not drawn again by that. *)
Lemma new_owner_keeps :
  let p := snd (docker_run [SelectLevel 1 4; SavedLevel 1 4] (render_image {| signed_in := true; user_name := js "ann"; site_host := js "h:8" |} app 3 (demo 4) fresh_choices)) in
  (fun m => (member_name m, level m)) <$> (members (details p) !! 1) = Some (js "Bob", 4) /\ existsb (fun b => match b with ChangeLevel m _ => (m =? js "Bob")%js | _ => false end) (page_buttons p) = true.
Proof. vm_compute. done. Qed.

Lemma docker_invitations :
  map (invitation bob) [js "  "; js "bob"; js "  BOB "; js " eve "] =
  [inl "docker.inviteUsernameRequired"; inr (js "bob"); inr (js "BOB"); inr (js "eve")]%string.
Proof. vm_compute. done. Qed.
End Examples.

Section properties.
Context {UC : UnicodeCase}.
Variables (w : docker_viewer).

(** C22: the buttons that act on a container image, on its tags and on its team ([page_buttons]; the buttons that report,
    that copy a digest and that move about the page are not among them), by what the server gave when the page was loaded,
    and whatever was clicked and saved on the page since.  A visitor who neither administers nor moderates and has no level
    of at least two has those for pulling and inspecting tags and for leaving the team, and no other; a locked or deprecated
    image has only what reads and a moderator's lock buttons; one with a locked version is neither deprecated nor deleted; a
    tag under review has none of them, a locked tag is not deleted, and a pull command is offered only for a tag that can be
    read, with its reference; for a member who was an owner when the page was loaded there is no button that changes the
    level or removes (one who has become an owner since keeps them until the page is loaded again, [new_owner_keeps]), and
    only the visitor's own membership is left; and only an owner or an administrator can make an owner. *)
Theorem docker_page_permissions p q d u evs b : b ∈ page_buttons (snd (docker_run evs (render_image w p q d u))) ->
  (administrator d = false -> moderator d = false -> permission_level d < 2 -> reading b \/ exists m, b = Leave m) /\
  (locks (image d) <> [] \/ deprecated (image d) = true -> reading b \/ locking b) /\
  (version_locked (image d) = true -> b <> OfImage DeleteImage /\ b <> OfImage DeprecateImage) /\
  (forall t x, b = OfTag t x -> exists r, r ∈ tags d /\ tag r = t /\ tag_pending r = false /\ (x = DeleteTag -> tag_locks r = []) /\
     (forall c, x = CopyPull c -> c = js "docker pull " ++ reference w p t /\ resourceReadLocked [locks (image d); tag_locks r] = false)) /\
  (forall m, b = RemoveMember m \/ b = Leave m \/ (exists ls, b = ChangeLevel m ls) ->
     exists x, x ∈ members d /\ member_name x = m /\ level x < 4 /\ (b = Leave m -> to_lower m = currentUsername w)) /\
  (forall ls, b = Invite ls \/ (exists m, b = ChangeLevel m ls) -> 4 ∈ ls -> administrator d = true \/ permission_level d = 4).
Proof.
  intros Hb. apply (docker_buttons_from w p q d _ b (docker_run_kept _ evs _ (render_image_kept w p q d u))) in Hb.
  assert (Hweak : administrator d = false -> permission_level d < 2 -> may_change d -> False) by (intros Ha Hp [[?|?] _]; [congruence|lia]).
  assert (Hshut : locks (image d) <> [] \/ deprecated (image d) = true -> may_change d -> False)
    by (intros [?|?] (_ & Hd & Hl); [done|congruence]).
  destruct Hb as [(x & -> & Hx)|[(t & x & Ht & -> & Hx)|[(k & m & Hm & Hb)|[-> H3]]]].
  - assert (Hn : forall m, OfImage x = RemoveMember m \/ OfImage x = Leave m \/ (exists ls, OfImage x = ChangeLevel m ls) -> False)
      by (intros m [|[|[? ?]]]; congruence).
    apply image_button_needs in Hx as [[-> Hmod]|[Hc Hv]].
    + split_and!; [congruence|by right|done|done|intros m Hm; by destruct (Hn m)|intros ls [|[? ?]]; congruence].
    + split_and!; [intros Ha _ Hp; by destruct (Hweak Ha Hp)|intros H; by destruct (Hshut H)| |done|intros m Hm; by destruct (Hn m)|
        intros ls [|[? ?]]; congruence].
      intros Hvl. split; intros [= ->]; rewrite Hvl in Hv; [discriminate Hv; by left|discriminate Hv; by right].
  - apply tag_button_needs in Hx as [Hp Hx].
    assert (Hn : forall m, OfTag (tag t) x = RemoveMember m \/ OfTag (tag t) x = Leave m \/ (exists ls, OfTag (tag t) x = ChangeLevel m ls) -> False)
      by (intros m [|[|[? ?]]]; congruence).
    split_and!; [|destruct Hx as [->|[[-> _]|[[-> _]|(-> & Hc & _)]]]|done| |intros m Hm; by destruct (Hn m)|intros ls [|[? ?]]; congruence].
    + intros Ha Hm Hl. left. destruct Hx as [->|[[-> ?]|[[-> _]|(-> & Hc & _)]]]; [done|congruence|done|by destruct (Hweak Ha Hl)].
    + by left.
    + by right.
    + by left.
    + intros H. by destruct (Hshut H).
    + intros t' x' [= <- <-]. exists t. split_and!; [done..| |].
      * intros ->. destruct Hx as [|[[? _]|[[? _]|(_ & _ & H)]]]; done.
      * intros c ->. destruct Hx as [|[[? _]|[[[= ->] H]|[? _]]]]; done.
  - apply member_button_needs in Hb as (Hl & Hd & Hls & Hb).
    assert (Hx : forall m', m' = member_name m -> (b = Leave m' -> to_lower m' = currentUsername w) ->
      exists x, x ∈ members d /\ member_name x = m' /\ level x < 4 /\ (b = Leave m' -> to_lower m' = currentUsername w)) by (intros m' -> ?; by exists m).
    split_and!.
    + intros Ha _ Hp. right. destruct Hb as [[-> _]|[Hc _]]; [by eexists|by destruct (Hweak Ha Hp)].
    + intros [H|H]; congruence.
    + intros _. by destruct Hb as [[-> _]|[_ [-> | ->]]].
    + intros t x. by destruct Hb as [[-> _]|[_ [-> | ->]]].
    + intros m' Hm'. destruct Hb as [[-> Hs]|[_ [-> | ->]]]; destruct Hm' as [E|[E|[ls E]]]; try done; injection E as <-; by apply Hx.
    + intros ls Hi H4. destruct Hb as [[-> _]|[_ [-> | ->]]]; destruct Hi as [E|[m' E]]; try done.
      injection E as _ <-. by apply transfer_needs, levels_needs.
  - pose proof (L3_needs d H3) as Hc.
    split_and!; [intros Ha _ Hp; by destruct (Hweak Ha Hp)|intros H; by destruct (Hshut H)|done|done|intros m [|[|[? ?]]]; congruence|].
    intros ls [[= <-]|[m [=]]] H4. by apply transfer_needs, levels_needs.
Qed.
End properties.

Lemma docker_page_permissions_witness :
  OfTag (js "v0") DeleteTag ∈ page_buttons (snd (Examples.shown_page 3)) /\
  exists r, r ∈ tags (Examples.demo 3) /\ tag r = js "v0" /\ tag_locks r = [].
Proof.
  assert (Hb : OfTag (js "v0") DeleteTag ∈ page_buttons (snd (Examples.shown_page 3))).
  { pose proof Examples.image_clicked as H. destruct (Examples.shown_page 3) as [u p]. destruct H as (_ & _ & _ & H).
    cbn [snd]. rewrite H. set_solver. }
  split; [exact Hb|].
  destruct (proj1 (proj2 (proj2 (proj2 (@docker_page_permissions latin_case Examples.bob Examples.app 3 (Examples.demo 3) Examples.fresh_choices
    Examples.clicks _ Hb)))) _ _ eq_refl) as (r & Hr & Ht & _ & Hl & _).
  exists r. split; [exact Hr|]. split; [exact Ht|]. exact (Hl eq_refl).
Defined.
