(* ===== verification/DockerRepository.v ===== *)
(** * The pages of a container registry

    [internal/service/frontend/renop-html/js/browser/docker.js]: the addresses of a registry, the loads of its list and of
    its images, and the operations of both with their dialogs, requests and refreshes, which end in any order.  The page of
    an image is [DockerImage]'s, and who may create an image is [Permissions]'.  A page is replaced when its animation
    begins, and the end of the animation is an event of its own, which takes the busy mark away whatever is loading by
    then; a button that waits for its request can be pressed here. *)
From S2P Require Import Prelude JsString JsUri BrowserUtils PackageParts Pages Permissions DockerImage.
Local Open Scope nat_scope.

(** ** Addresses *)
Inductive docker_route := Catalog (repo : jstr) | Image (p : place).

Definition docker_route_of (path : jstr) : docker_route :=
  let pathParts := map decodePathSegment (path_parts path) in
  let repoName := hd [] pathParts in
  let imageName := join [47%N] (drop 1 pathParts) in
  if nonempty imageName then Image (mk_place repoName imageName) else Catalog repoName.

(** The links; [None]: a lone surrogate. *)
Definition images_link (repo : jstr) : option jstr := cons 47%N <$> encodePathSegment repo.
Definition image_link (p : place) : option jstr :=
  r ← encodePathSegment (repoName p); n ← encodeRelativePath (imageName p); Some (47%N :: r ++ 47%N :: n).

(** ** The list *)
Record docker_summary := {
  image_name : jstr;
  summary_private : bool;
  summary_mirrored : bool;
  summary_description : jstr;
  latest_tag : jstr;
  tag_count : N;
  summary_publisher : jstr;
  summary_pulls : N
}.

Record image_card := {
  card_name : jstr;
  card_private : bool;
  card_mirrored : bool;
  card_description : option jstr;
  card_tag : jstr + N;                  (* the latest tag, or how many there are *)
  card_publisher : text;
  card_pulls : N;
  card_link : option jstr
}.

Definition image_card_of (repo : jstr) (i : docker_summary) : image_card := {|
  card_name := image_name i;
  card_private := summary_private i;
  card_mirrored := summary_mirrored i;
  card_description := if nonempty (summary_description i) then Some (summary_description i) else None;
  card_tag := if nonempty (latest_tag i) then inl (latest_tag i) else inr (tag_count i);
  card_publisher := lit_or (summary_publisher i) "docker.unspecifiedPublisher";
  card_pulls := summary_pulls i;
  card_link := image_link (mk_place repo (image_name i))
|}.

Definition totalTags (images : list docker_summary) : N := fold_left (fun acc i => (acc + tag_count i)%N) images 0%N.

(** The list; without images, a hint in the place of the cards and of the two totals. *)
Record catalog := { catalog_repo : jstr; create : bool; totals : option (nat * N); cards : list image_card }.

Definition catalog_of (c : caches) (repo : jstr) (images : list docker_summary) : catalog := {|
  catalog_repo := repo;
  create := canUpdateRepo c repo;
  totals := match images with [] => None | _ => Some (length images, totalTags images) end;
  cards := map (image_card_of repo) images
|}.

(** ** The manifest's dialog *)
Record manifest := {
  manifest_digest : jstr;
  media_type : jstr;
  config_digest : jstr;
  manifest_size : N;
  manifest_created : N;
  manifest_publisher : jstr;
  raw_json : jstr;
  manifest_locks : list lock
}.

Inductive grid_value := Code (s : jstr) | Bytes (n : N) | Date (n : N) | Person (s : jstr) | Dash.

Record manifest_dialog := {
  dialog_title : jstr;
  dialog_notices : list (jstr * text * bool * bool);
  dialog_grid : list (string * grid_value);
  dialog_raw : option jstr              (* with its copy button *)
}.

Definition manifest_dialog_of (image : jstr) (t : jstr) (m : manifest) : manifest_dialog := {|
  dialog_title := image ++ js ":" ++ str_or t (js "latest");
  dialog_notices := createResourceLockNotices (manifest_locks m);
  dialog_grid :=
    [("docker.digest"%string, Code (str_or (manifest_digest m) (js "-")));
     ("docker.mediaType"%string, Code (str_or (media_type m) (js "-")));
     ("docker.configDigest"%string, Code (str_or (config_digest m) (js "-")));
     ("docker.size"%string, if (0 <? manifest_size m)%N then Bytes (manifest_size m) else Dash);
     ("docker.updated"%string, if (manifest_created m =? 0)%N then Dash else Date (manifest_created m))] ++
    (if nonempty (manifest_publisher m) then [("docker.publisher"%string, Person (manifest_publisher m))] else []);
  dialog_raw := if nonempty (raw_json m) then Some (raw_json m) else None
|}.

(** ** Operations *)
Inductive task :=
| Deprecating
| Locking (version mode : jstr)
| DeletingImage
| DeletingTag (t : jstr)
| Levelling (i : nat) (reference : jstr) (previousLevel newLevel : nat)
| Removing (reference : jstr) (isSelf : bool)
| Inviting (user : jstr) (l : nat)
| Describing (s : jstr)
| Documenting (s : jstr).

(** What a page's handler does, with the place and the sequence that it holds. *)
Record job := mk_job { job_place : place; job_sequence : nat; job_task : task }.

Inductive docker_operation :=
| CatalogResponse (sequence : nat) (repo : jstr)
| CatalogBody (sequence : nat) (repo : jstr)
| ImageResponse (sequence : nat) (p : place)
| ImageBody (sequence : nat) (p : place)
| Confirming (j : job)                  (* a question before the request *)
| Editing (p : place) (sequence : nat) (ofReadme : bool)
| LockDialog (p : place) (sequence : nat) (version : jstr)
| Requesting (j : job)
| CreateDialog (repo : jstr)
| Creating (repo : jstr)
| ManifestResponse (sequence : nat) (p : place) (t : jstr)
| ManifestBody (sequence : nat) (p : place) (t : jstr).

Inductive request :=
| Change (p : place) (k : task)
| CreateImage (repo image : jstr) (private : bool) (team : jstr)
| ReadManifest (p : place) (reference : jstr).

Inductive output :=
| Alert (k : string)
| Sent (r : request)
| Copied (s : jstr)
| ShowManifest (m : manifest_dialog)
| TransferDialog (p : place) (team : jstr)
| EditorOpened (s : jstr)
| OpenTickets
| Navigate (link : option jstr).

(** The address that a request is about. *)
Definition request_route (r : request) : docker_route :=
  match r with Change p _ | ReadManifest p _ => Image p | CreateImage repo _ _ _ => Catalog repo end.

(** ** Errors *)
(** The server's codes; none is the name of a property that every object has. *)
Definition dockerErrorKeys : list (string * string) :=
  [("authentication_required", "docker.authenticationRequired"); ("cannot_invite_self", "docker.cannotInviteSelf");
   ("description_too_large", "docker.descriptionTooLarge"); ("image_not_found", "docker.imageNotFound");
   ("invalid_permission_level", "docker.invalidPermissionLevel"); ("invalid_request", "docker.invalidRequest");
   ("invitation_invalid", "docker.invitationInvalid"); ("invitation_pending", "docker.invitationAlreadyPending");
   ("member_exists", "docker.memberAlreadyExists"); ("permission_denied", "docker.permissionDenied");
   ("publication_file_quota", "publicationQuota.fileExceeded"); ("publication_byte_quota", "publicationQuota.byteExceeded");
   ("publication_count_quota", "publicationQuota.countExceeded"); ("readme_too_large", "docker.readmeTooLarge");
   ("repository_not_found", "docker.repositoryNotFound"); ("resource_locked", "resourceLock.blocked");
   ("review_pending", "review.alreadyPending"); ("review_unavailable", "review.serviceUnavailable");
   ("service_unavailable", "docker.serviceUnavailable"); ("super_team_mismatch", "superTeam.bindingMismatch");
   ("super_team_permission", "superTeam.bindingPermission"); ("super_team_required", "superTeam.bindingRequired");
   ("user_not_found", "docker.userNotFound")]%string.

Definition dockerResponseError (code fallbackKey : string) : string :=
  match List.find (fun p => String.eqb (fst p) code) dockerErrorKeys with Some p => snd p | None => fallbackKey end.

(** ** State *)
Inductive docker_screen :=
| Blank
| LoadingScreen
| LoadFailed
| NotFound (back : option (option jstr))       (* the link of the button that goes back, if there is one *)
| CatalogScreen (c : catalog)
| ImageScreen (p : docker_page).

Record docker := mk_docker {
  dockerLoadSequence : nat;
  activeRepository : jstr;
  activeNavigate : bool;
  choices : docker_choices;
  hidden : bool;
  busy : bool;
  content : docker_screen;
  animations : nat;                    (* of replaced pages, that have not ended *)
  operations : gmap nat docker_operation;
  next : nat;
  outputs : list output;
  account : caches;
  stored_name : jstr
}.

Definition set_view (hid bus : bool) (sc : docker_screen) (s : docker) : docker :=
  mk_docker (dockerLoadSequence s) (activeRepository s) (activeNavigate s) (choices s) hid bus sc (animations s) (operations s) (next s) (outputs s) (account s) (stored_name s).
Definition set_choices (u : docker_choices) (s : docker) : docker :=
  mk_docker (dockerLoadSequence s) (activeRepository s) (activeNavigate s) u (hidden s) (busy s) (content s) (animations s) (operations s) (next s) (outputs s) (account s)
    (stored_name s).
Definition set_operations (ops : gmap nat docker_operation) (n : nat) (s : docker) : docker :=
  mk_docker (dockerLoadSequence s) (activeRepository s) (activeNavigate s) (choices s) (hidden s) (busy s) (content s) (animations s) ops n (outputs s) (account s)
    (stored_name s).
Definition set_route (sequence : nat) (repo : jstr) (navigate : bool) (s : docker) : docker :=
  mk_docker sequence repo navigate (choices s) (hidden s) (busy s) (content s) (animations s) (operations s) (next s) (outputs s) (account s) (stored_name s).
Definition output_of (o : output) (s : docker) : docker :=
  mk_docker (dockerLoadSequence s) (activeRepository s) (activeNavigate s) (choices s) (hidden s) (busy s) (content s) (animations s) (operations s) (next s)
    (outputs s ++ [o]) (account s) (stored_name s).
Definition set_account (c : caches) (user : jstr) (s : docker) : docker :=
  mk_docker (dockerLoadSequence s) (activeRepository s) (activeNavigate s) (choices s) (hidden s) (busy s) (content s) (animations s) (operations s) (next s)
    (outputs s) c user.

Definition set_animations (n : nat) (s : docker) : docker :=
  mk_docker (dockerLoadSequence s) (activeRepository s) (activeNavigate s) (choices s) (hidden s) (busy s) (content s) n (operations s) (next s)
    (outputs s) (account s) (stored_name s).

Definition begin (o : docker_operation) (s : docker) : docker := set_operations (<[next s := o]> (operations s)) (S (next s)) s.
Definition close (i : nat) (s : docker) : docker := set_operations (delete i (operations s)) (next s) s.
Definition alert (k : string) (s : docker) : docker := output_of (Alert k) s.

Definition start (c : caches) (user : jstr) : docker := mk_docker 0 [] false (mk_choices 0 [] (js "tags") 1) true false Blank 0 ∅ 0 [] c user.

Section docker.
Context {UC : UnicodeCase}.
Variable location_host : jstr.

Definition viewer (s : docker) : docker_viewer :=
  {| signed_in := cachedIsLoggedIn (account s); user_name := stored_name s; site_host := location_host |}.

(** [replaceRepositoryView] up to the animation of the height, and from its end: the mark goes, whatever loads by then. *)
Definition replaceRepositoryView (sc : docker_screen) (s : docker) : docker :=
  set_animations (S (animations s)) (set_view (hidden s) (busy s) sc s).
Definition morphed (s : docker) : docker :=
  match animations s with O => s | S n => set_animations n (set_view (hidden s) false (content s) s) end.
Definition setRepositoryViewBusy (s : docker) : docker := set_view (hidden s) true (content s) s.

(** ** Loads *)
Definition renderCatalogView (repo : jstr) (sequence : nat) (s : docker) : docker :=
  begin (CatalogResponse sequence repo) (setRepositoryViewBusy s).

(** [renderImageDetailsView] up to its request. *)
Definition renderImageDetailsView (p : place) (sequence : nat) (s : docker) : docker :=
  if negb (sequence =? dockerLoadSequence s) || hidden s then s
  else
    let s := set_route (S (dockerLoadSequence s)) (activeRepository s) (activeNavigate s) s in
    begin (ImageResponse (dockerLoadSequence s) p) (setRepositoryViewBusy s).

Definition renderDockerRepository (path : jstr) (navigate : bool) (s : docker) : docker :=
  let ro := docker_route_of path in
  let s := set_route (S (dockerLoadSequence s)) (match ro with Catalog repo => repo | Image p => repoName p end) navigate s in
  let s := set_view false (busy s) (match content s with Blank => LoadingScreen | sc => sc end) s in
  match ro with
  | Catalog repo => renderCatalogView repo (dockerLoadSequence s) s
  | Image p => renderImageDetailsView p (dockerLoadSequence s) s
  end.

Definition hideDockerRepositoryView (s : docker) : docker :=
  set_view true false Blank (set_route (S (dockerLoadSequence s)) (activeRepository s) (activeNavigate s) s).

(** The page is drawn with the sequence of its load. *)
Definition draw_image (p : place) (sequence : nat) (d : docker_details) (s : docker) : docker :=
  let '(u, pg) := render_image (viewer s) p sequence d (choices s) in
  replaceRepositoryView (ImageScreen pg) (set_choices u s).

(** ** Presses *)
Inductive press :=
| PressImage (b : image_button)
| PressTag (t : jstr) (b : tag_button)
| PressLevel (i l : nat)
| PressRemove (i : nat)
| PressInvite (input : jstr).

(** A page's own event, on the page while it is there. *)
Definition on_page (sequence : nat) (ev : docker_event) (s : docker) : docker :=
  match content s with
  | ImageScreen pg =>
    if frame_sequence (frame pg) =? sequence then
      let '(u, pg) := docker_step ev (choices s, pg) in set_view (hidden s) (busy s) (ImageScreen pg) (set_choices u s)
    else s
  | _ => s
  end.

Definition send (j : job) (s : docker) : docker :=
  output_of (Sent (Change (job_place j) (job_task j))) (begin (Requesting j) s).

(** [updateDockerTeamMember] up to its question or its request. *)
Definition change_level (pg : docker_page) (i l : nat) (r : member_row) (s : docker) : docker :=
  let f := frame pg in
  match members (details pg) !! i with
  | Some m =>
    let s := on_page (frame_sequence f) (SelectLevel i l) s in
    let j := mk_job (frame_place f) (frame_sequence f) (Levelling i (row_reference r) (level m) l) in
    if l =? level m then s
    else if (l =? 4) && (permission_level (details pg) =? 4) && negb (to_lower (member_name m) =? currentUsername (viewer s))%js
    then begin (Confirming j) s else send j s
  | None => s
  end.

Definition member_row_at (pg : docker_page) (i : nat) : option member_row := f ← frame_team (frame pg); f.1 !! i.

Definition press_step (pr : press) (pg : docker_page) (s : docker) : docker :=
  let f := frame pg in
  let p := frame_place f in
  let q := frame_sequence f in
  match pr with
  | PressImage b =>
    if bool_decide (b ∈ frame_buttons f) then
      match b with
      | LockImage => begin (LockDialog p q []) s
      | DeprecateImage => begin (Confirming (mk_job p q Deprecating)) s
      | TransferImage => output_of (TransferDialog p (super_team_prefix (image (details pg)))) s
      | DeleteImage => begin (Confirming (mk_job p q DeletingImage)) s
      | EditDescription => output_of (EditorOpened (description (image (details pg)))) (begin (Editing p q false) s)
      | EditReadme => output_of (EditorOpened (readme (image (details pg)))) (begin (Editing p q true) s)
      end
    else s
  | PressTag t b =>
    if existsb (fun r => (row_tag r =? t)%js && bool_decide (b ∈ row_buttons r)) (match tag_list pg with Some c => shown c | None => [] end) then
      match b with
      | CopyPull c => output_of (Copied c) s
      | Inspect d => output_of (Sent (ReadManifest p (str_or d t))) (begin (ManifestResponse (dockerLoadSequence s) p t) s)
      | LockTag v => begin (LockDialog p q v) s
      | DeleteTag => begin (Confirming (mk_job p q (DeletingTag t))) s
      end
    else s
  | PressLevel i l =>
    match member_row_at pg i with
    | Some r => match row_control r with LevelSelect ls _ _ => if bool_decide (l ∈ ls) then change_level pg i l r s else s | _ => s end
    | None => s
    end
  | PressRemove i =>
    match member_row_at pg i with
    | Some r =>
      match row_control r with
      | LevelSelect _ _ self => begin (Confirming (mk_job p q (Removing (row_reference r) self))) s
      | LevelBadge _ true => begin (Confirming (mk_job p q (Removing (row_reference r) true))) s
      | LevelBadge _ false => s
      end
    | None => s
    end
  | PressInvite input =>
    match frame_team f with
    | Some (_, Some _) =>
      match invitation (viewer s) input with
      | inl k => alert k s
      | inr user => send (mk_job p q (Inviting user (inviteLevel (choices s)))) s
      end
    | _ => s
    end
  end.

(** ** Dialogs *)
(** [new TextEncoder().encode]: a lone surrogate becomes the replacement character. *)
Fixpoint text_bytes (s : jstr) : list N :=
  match s with
  | [] => []
  | c :: s' =>
    match s' with
    | e :: s'' =>
      if is_high_surrogate c && is_low_surrogate e then utf8 (combine_surrogates c e) ++ text_bytes s''
      else utf8 (if is_high_surrogate c || is_low_surrogate c then 0xFFFD%N else c) ++ text_bytes s'
    | [] => utf8 (if is_high_surrogate c || is_low_surrogate c then 0xFFFD%N else c)
    end
  end.

Definition tooLarge (s : jstr) : bool := 60 <? length (text_bytes s).

Definition submit_text (i : nat) (p : place) (q : nat) (ofReadme : bool) (input : jstr) (s : docker) : docker :=
  let newText := trim input in
  if ofReadme then send (mk_job p q (Documenting newText)) (close i s)
  else if tooLarge newText then alert "docker.descriptionTooLarge" s
  else send (mk_job p q (Describing newText)) (close i s).

Definition submit_image (i : nat) (repo input : jstr) (private : bool) (team : jstr) (s : docker) : docker :=
  let imageName := to_lower (trim input) in
  if negb (nonempty imageName) then s
  else output_of (Sent (CreateImage repo imageName private team)) (begin (Creating repo) (close i s)).

Definition confirmed (i : nat) (j : job) (yes : bool) (s : docker) : docker :=
  let s := close i s in
  if yes then send j s
  else match job_task j with Levelling m _ previous _ => on_page (job_sequence j) (SelectLevel m previous) s | _ => s end.

(** ** Answers *)
Inductive answer :=
| NoReply
| Failed (status : N) (code : string)
| Ok
| Created (status : N) (name : jstr) (pending : bool)
| ImagesRead (images : option (list docker_summary))       (* [None]: a malformed body *)
| DetailsRead (d : option docker_details)
| ManifestRead (m : option manifest).

Definition leave_for (link : option jstr) (s : docker) : docker := if activeNavigate s then output_of (Navigate link) s else s.

Definition refresh (j : job) (s : docker) : docker := renderImageDetailsView (job_place j) (job_sequence j) s.

Definition succeeded (j : job) (s : docker) : docker :=
  match job_task j with
  | Deprecating => refresh j (alert "package.deprecatedSuccess" s)
  | Locking _ _ => refresh j (alert "resourceLock.saved" s)
  | DeletingImage => leave_for (images_link (repoName (job_place j))) (alert "docker.imageDeleted" s)
  | DeletingTag _ => refresh j (alert "docker.tagDeleted" s)
  | Levelling i _ _ l => refresh j (alert "docker.memberUpdated" (on_page (job_sequence j) (SavedLevel i l) s))
  | Removing _ true => leave_for (images_link (repoName (job_place j))) (alert "team.left" s)
  | Removing _ false => refresh j (alert "docker.memberRemoved" s)
  | Inviting _ _ => refresh j (alert "docker.inviteSent" s)
  | Describing t => on_page (job_sequence j) (SavedDescription t) (alert "docker.descriptionSaved" s)
  | Documenting t => on_page (job_sequence j) (SavedReadme t) (alert "docker.readmeSaved" s)
  end.

(** The key of the announcement, if there is one; of deprecations and locks, unless the server sends a text. *)
Definition failure_of (k : task) (code : option string) : option string :=
  let say key := Some (match code with Some c => dockerResponseError c key | None => key end) in
  match k with
  | Deprecating => match code with Some _ => Some "package.deprecateFailed"%string | None => None end
  | Locking _ _ => Some "resourceLock.failed"%string
  | DeletingImage => say "docker.deleteImageFailed"%string
  | DeletingTag _ => say "docker.deleteTagFailed"%string
  | Levelling _ _ _ _ => Some "docker.updateMemberFailed"%string
  | Removing _ _ => match code with Some _ => say "docker.removeMemberFailed"%string | None => None end
  | Inviting _ _ => say "docker.sendInviteFailed"%string
  | Describing _ => say "docker.updateDescriptionFailed"%string
  | Documenting _ => say "docker.updateReadmeFailed"%string
  end.

(** A dialog stays when its request fails, and a select shows the former level again. *)
Definition failed (j : job) (code : option string) (s : docker) : docker :=
  let s := match failure_of (job_task j) code with Some k => alert k s | None => s end in
  match job_task j with
  | Locking v _ => begin (LockDialog (job_place j) (job_sequence j) v) s
  | Levelling i _ previous _ => on_page (job_sequence j) (SelectLevel i previous) s
  | Describing _ => begin (Editing (job_place j) (job_sequence j) false) s
  | Documenting _ => begin (Editing (job_place j) (job_sequence j) true) s
  | _ => s
  end.

Definition creation_failure (status : N) : string :=
  (if (status =? 409)%N then "docker.imageAlreadyExists" else if (status =? 503)%N then "docker.imageNameCheckFailed" else "docker.createImageFailed")%string.

Definition created (repo : jstr) (status : N) (name : jstr) (pending : bool) (s : docker) : docker :=
  if (status =? 202)%N || pending then output_of OpenTickets (alert "docker.imageCreationQueued" s)
  else leave_for (image_link (mk_place repo name)) (alert "docker.imageCreated" s).

(** A load of a former address is given up, but not once the body of its list is being read. *)
Definition current (q : nat) (s : docker) : bool := q =? dockerLoadSequence s.

Definition answered (i : nat) (a : answer) (s : docker) : docker :=
  match operations s !! i with
  | Some (CatalogResponse q repo) =>
    let s' := close i s in
    match a with
    | NoReply | Failed _ _ => if current q s' then replaceRepositoryView LoadFailed s' else s'
    | Ok => if current q s' then begin (CatalogBody q repo) s' else s'
    | _ => s
    end
  | Some (CatalogBody q repo) =>
    let s' := close i s in
    match a with
    | ImagesRead (Some images) => replaceRepositoryView (CatalogScreen (catalog_of (account s') repo images)) s'
    | _ => if current q s' then replaceRepositoryView LoadFailed s' else s'
    end
  | Some (ImageResponse q p) =>
    let s' := close i s in
    match a with
    | NoReply => if current q s' then replaceRepositoryView (NotFound None) s' else s'
    | Failed _ _ => if current q s' then replaceRepositoryView (NotFound (Some (images_link (repoName p)))) s' else s'
    | Ok => if current q s' then begin (ImageBody q p) s' else s'
    | _ => s
    end
  | Some (ImageBody q p) =>
    let s' := close i s in
    match a with
    | DetailsRead (Some d) => if current q s' then draw_image p q d s' else s'
    | _ => if current q s' then replaceRepositoryView (NotFound None) s' else s'
    end
  | Some (Requesting j) =>
    match a with
    | Ok => succeeded j (close i s)
    | Failed _ code => failed j (Some code) (close i s)
    | NoReply => failed j None (close i s)
    | _ => s
    end
  | Some (Creating repo) =>
    match a with
    | Created status name pending => created repo status name pending (close i s)
    | Failed status code => alert (dockerResponseError code (creation_failure status)) (begin (CreateDialog repo) (close i s))
    | NoReply => alert "docker.createImageFailed" (begin (CreateDialog repo) (close i s))
    | _ => s
    end
  | Some (ManifestResponse q p t) =>
    match a with
    | Ok => begin (ManifestBody q p t) (close i s)
    | NoReply | Failed _ _ => alert "docker.manifestLoadFailed" (close i s)
    | _ => s
    end
  | Some (ManifestBody q p t) =>
    match a with
    | ManifestRead (Some m) => if current q s then output_of (ShowManifest (manifest_dialog_of (imageName p) t m)) (close i s) else close i s
    | ManifestRead None => alert "docker.manifestLoadFailed" (close i s)
    | _ => s
    end
  | _ => s
  end.

(** ** Events *)
Inductive docker_repository_event :=
| Visit (path : jstr) (navigate : bool)
| Hide
| NewAccount (c : caches) (user : jstr)
| TurnTagPage (forward : bool)
| ChangeTab (ev : tab_event)
| ChooseLevel (l : nat)
| PressCreate
| Press (p : press)
| Confirmed (i : nat) (yes : bool)
| Submitted (i : nat) (input : jstr)
| LockChosen (i : nat) (mode : jstr)
| CreateSubmitted (i : nat) (input : jstr) (private : bool) (team : jstr)
| Closed (i : nat)
| Answered (i : nat) (a : answer)
| AnimationEnded.

(** An event of the page that is shown. *)
Definition shown_event (ev : docker_event) (s : docker) : docker :=
  match content s with ImageScreen pg => on_page (frame_sequence (frame pg)) ev s | _ => s end.

Definition is_dialog (o : docker_operation) : bool :=
  match o with Editing _ _ _ | LockDialog _ _ _ | CreateDialog _ => true | _ => false end.

Definition docker_repository_step (ev : docker_repository_event) (s : docker) : docker :=
  match ev with
  | Visit path navigate => renderDockerRepository path navigate s
  | Hide => hideDockerRepositoryView s
  | NewAccount c user => set_account c user s
  | TurnTagPage forward => shown_event (TurnTags forward) s
  | ChangeTab ev => shown_event (Subpage ev) s
  | ChooseLevel l => shown_event (ChooseInviteLevel l) s
  | PressCreate => match content s with CatalogScreen c => if create c then begin (CreateDialog (catalog_repo c)) s else s | _ => s end
  | Press p => match content s with ImageScreen pg => press_step p pg s | _ => s end
  | Confirmed i yes => match operations s !! i with Some (Confirming j) => confirmed i j yes s | _ => s end
  | Submitted i input => match operations s !! i with Some (Editing p q ofReadme) => submit_text i p q ofReadme input s | _ => s end
  | LockChosen i mode => match operations s !! i with Some (LockDialog p q v) => send (mk_job p q (Locking v mode)) (close i s) | _ => s end
  | CreateSubmitted i input private team =>
    match operations s !! i with Some (CreateDialog repo) => submit_image i repo input private team s | _ => s end
  | Closed i => match operations s !! i with Some o => if is_dialog o then close i s else s | None => s end
  | Answered i a => answered i a s
  | AnimationEnded => morphed s
  end.

Definition docker_repository_run (evs : list docker_repository_event) (s : docker) : docker :=
  fold_left (fun s ev => docker_repository_step ev s) evs s.

(** ** What the theorem says *)
(** What the server holds: whether a list is one of a repository's images, and whether details are those of an image. *)
Variable listed : jstr -> list docker_summary -> bool.
Variable serves : place -> docker_details -> bool.
(** The addresses that were visited, and whether no animation ends while a load is under way. *)
Variable visited : docker_route -> Prop.
Variable calm : Prop.

Definition is_body (o : docker_operation) : bool := match o with CatalogBody _ _ => true | _ => false end.
Definition reading_list (s : docker) : bool := existsb (fun p => is_body p.2) (map_to_list (operations s)).

(** The answers are the server's, and the visitor does not move on in the moment in which the body of a list is read. *)
Definition orderly (ev : docker_repository_event) (s : docker) : Prop :=
  match ev with
  | Visit _ _ | Hide => reading_list s = false
  | Answered i (ImagesRead (Some images)) =>
    match operations s !! i with Some (CatalogBody _ repo) => listed repo images = true | _ => True end
  | Answered i (DetailsRead (Some d)) =>
    match operations s !! i with Some (ImageBody _ p) => serves p d = true | _ => True end
  | _ => True
  end.

(** The route the address bar shows; [None] while the view is hidden. *)
Definition track (ev : docker_repository_event) (r : option docker_route) : option docker_route :=
  match ev with Visit path _ => Some (docker_route_of path) | Hide => None | _ => r end.

Fixpoint tracked (evs : list docker_repository_event) (v : docker * option docker_route) : docker * option docker_route :=
  match evs with
  | [] => v
  | ev :: evs => tracked evs (docker_repository_step ev (fst v), track ev (snd v))
  end.

Fixpoint orderly_run (evs : list docker_repository_event) (s : docker) : Prop :=
  match evs with
  | [] => True
  | ev :: evs => orderly ev s /\ orderly_run evs (docker_repository_step ev s)
  end.

(** The page and its choices come from what the server gave for the page's place, by events of the page. *)
Definition drawn (u : docker_choices) (pg : docker_page) : Prop :=
  exists w d u0 evs, serves (frame_place (frame pg)) d = true /\
    (u, pg) = docker_run evs (render_image w (frame_place (frame pg)) (frame_sequence (frame pg)) d u0).

Definition shows_route (s : docker) (r : option docker_route) : Prop :=
  match r with
  | None => content s = Blank
  | Some (Catalog repo) => content s = LoadFailed \/
    exists c images, listed repo images = true /\ content s = CatalogScreen (catalog_of c repo images)
  | Some (Image p) => (exists b, content s = NotFound b) \/
    exists pg, content s = ImageScreen pg /\ frame_place (frame pg) = p /\ drawn (choices s) pg
  end.

(** The address that an operation belongs to, with its sequence. *)
Definition op_ticket (o : docker_operation) : option (nat * docker_route) :=
  match o with
  | CatalogResponse q repo | CatalogBody q repo => Some (q, Catalog repo)
  | ImageResponse q p | ImageBody q p | Editing p q _ | LockDialog p q _ => Some (q, Image p)
  | Confirming j | Requesting j => Some (job_sequence j, Image (job_place j))
  | _ => None
  end.

Definition load_sequence (o : docker_operation) : option nat :=
  match o with CatalogResponse q _ | CatalogBody q _ | ImageResponse q _ | ImageBody q _ => Some q | _ => None end.

(** A load of the current address is under way. *)
Definition loading (s : docker) : Prop := exists i o, operations s !! i = Some o /\ load_sequence o = Some (dockerLoadSequence s).
Definition is_loading (s : docker) : bool :=
  existsb (fun p => bool_decide (load_sequence p.2 = Some (dockerLoadSequence s))) (map_to_list (operations s)).

(** No animation ends while a load of the current address is under way. *)
Definition unhurried (ev : docker_repository_event) (s : docker) : Prop :=
  match ev with AnimationEnded => is_loading s = false | _ => True end.

Fixpoint unhurried_run (evs : list docker_repository_event) (s : docker) : Prop :=
  match evs with
  | [] => True
  | ev :: evs => unhurried ev s /\ unhurried_run evs (docker_repository_step ev s)
  end.

Definition sent_ok (o : output) : Prop :=
  match o with
  | Sent r => visited (request_route r) /\ forall p t, r = Change p (Describing t) -> length (text_bytes t) <= 60
  | _ => True
  end.

(** A dialog that makes an image is a visited list's, and a description is sent without a question. *)
Definition other_ok (o : docker_operation) : Prop :=
  match o with
  | CreateDialog repo | Creating repo => visited (Catalog repo)
  | Confirming j => forall t, job_task j <> Describing t
  | _ => True
  end.

(** A sequence that is current belongs to the route. *)
Definition ticket (s : docker) (r : option docker_route) (q : nat) (ro : docker_route) : Prop :=
  q <= dockerLoadSequence s /\ (q = dockerLoadSequence s -> r = Some ro) /\ visited ro.

Record docker_ok (s : docker) (r : option docker_route) : Prop := {
  ok_next : forall i o, operations s !! i = Some o -> i < next s;
  ok_ticket : forall i o q ro, operations s !! i = Some o -> op_ticket o = Some (q, ro) -> ticket s r q ro;
  ok_other : forall i o, operations s !! i = Some o -> other_ok o;
  ok_body : forall i q repo, operations s !! i = Some (CatalogBody q repo) -> q = dockerLoadSequence s;
  ok_one : forall i j o o', operations s !! i = Some o -> operations s !! j = Some o' ->
    load_sequence o = Some (dockerLoadSequence s) -> load_sequence o' = Some (dockerLoadSequence s) -> i = j;
  ok_busy : busy s = true -> loading s \/ animations s <> 0;
  ok_hidden : hidden s = true <-> r = None;
  ok_page : forall pg, content s = ImageScreen pg ->
    ticket s r (frame_sequence (frame pg)) (Image (frame_place (frame pg))) /\ drawn (choices s) pg;
  ok_catalog : forall c, content s = CatalogScreen c -> visited (Catalog (catalog_repo c));
  ok_shown : ~ loading s -> shows_route s r;
  ok_sent : Forall sent_ok (outputs s);
  ok_marked : calm -> loading s -> busy s = true
}.

(** ** Lemmas *)
Lemma start_ok_docker c user : docker_ok (start c user) None.
Proof.
  split; cbn; try done; try (by intros i o H; rewrite lookup_empty in H); try (by intros i; rewrite lookup_empty).
  intros _ (i & o & H & _). cbn in H. by rewrite lookup_empty in H.
Qed.

Lemma docker_loading_true s : is_loading s = true <-> loading s.
Proof.
  unfold is_loading. rewrite existsb_exists. split.
  - intros ([i o] & Hin & Hl). rewrite <- list_elem_of_In in Hin. apply elem_of_map_to_list in Hin. exists i, o. by rewrite bool_decide_eq_true in Hl.
  - intros (i & o & Hi & Hl). exists (i, o). rewrite <- list_elem_of_In, elem_of_map_to_list. by rewrite bool_decide_eq_true.
Qed.

Lemma docker_loading_false s : is_loading s = false <-> ~ loading s.
Proof. rewrite <- docker_loading_true. by destruct (is_loading s). Qed.

Lemma not_reading s : reading_list s = false -> forall i q repo, operations s !! i <> Some (CatalogBody q repo).
Proof.
  intros Hr i q repo Hi%elem_of_map_to_list. unfold reading_list in Hr.
  assert (existsb (fun p => is_body p.2) (map_to_list (operations s)) = true); [|congruence].
  apply existsb_exists. exists (i, CatalogBody q repo). by rewrite <- list_elem_of_In.
Qed.

(** A step that touches nothing but the outputs, or the account. *)
Lemma docker_output_ok o s r : sent_ok o -> docker_ok s r -> docker_ok (output_of o s) r.
Proof.
  intros Ho [H1 H2 H3 H4 H5 H6 H7 H8 H9 H10 H11 H12]. split; try done. cbn. by apply Forall_app_2; [|apply Forall_singleton].
Qed.

Lemma docker_alert_ok k s r : docker_ok s r -> docker_ok (alert k s) r.
Proof. by apply docker_output_ok. Qed.

Lemma docker_leave_ok l s r : docker_ok s r -> docker_ok (leave_for l s) r.
Proof. intros K. unfold leave_for. destruct (activeNavigate s); [by apply docker_output_ok|done]. Qed.

Lemma docker_account_ok c user s r : docker_ok s r -> docker_ok (set_account c user s) r.
Proof. intros [H1 H2 H3 H4 H5 H6 H7 H8 H9 H10 H11 H12]. by split. Qed.

(** An operation that is not a load begins. *)
Lemma docker_begin_ok o s r : docker_ok s r -> load_sequence o = None ->
  (forall q ro, op_ticket o = Some (q, ro) -> ticket s r q ro) -> other_ok o ->
  docker_ok (begin o s) r.
Proof.
  intros [H1 H2 H3 H4 H5 H6 H7 H8 H9 H10 H11 H12] Hl Ht Hc.
  assert (Hnew : forall i o', <[next s:=o]> (operations s) !! i = Some o' -> i = next s /\ o' = o \/ operations s !! i = Some o').
  { intros i o' H. apply lookup_insert_Some in H as [[<- <-]|[_ H]]; [by left|by right]. }
  split; cbn [begin set_operations operations next dockerLoadSequence busy hidden content choices outputs]; try done.
  - intros i o' [[-> _]|H]%Hnew; [lia|]. specialize (H1 _ _ H). lia.
  - intros i o' q ro [[-> ->]|H]%Hnew; [by apply Ht|by eapply H2].
  - intros i o' [[-> ->]|H]%Hnew; [by apply Hc|by eapply H3].
  - intros i q repo [[-> <-]|H]%Hnew; [done|by eapply H4].
  - intros i j o1 o2 [[-> ->]|Hi]%Hnew [[-> ->]|Hj]%Hnew; try congruence. by eapply H5.
  - intros Hb. destruct (H6 Hb) as [(i & o' & Hi & Hq)|]; [left|by right]. exists i, o'. split; [|done].
    cbn [begin set_operations operations]. rewrite lookup_insert_ne; [done|]. intros Hn. specialize (H1 _ _ Hi). lia.
  - intros Hn. apply H10. intros (i & o' & Hi & Hq). apply Hn. exists i, o'. split; [|done].
    cbn [begin set_operations operations]. rewrite lookup_insert_ne; [done|]. intros Hx. specialize (H1 _ _ Hi). lia.
  - intros Hcalm (i & o' & Hi & Hq). apply (H12 Hcalm). exists i, o'. split; [|done].
    cbn [begin set_operations operations dockerLoadSequence] in Hi, Hq. apply Hnew in Hi as [[-> ->]|Hi]; [congruence|done].
Qed.

(** An operation ends that is not the current load. *)
Lemma close_ok_docker i o s r : docker_ok s r -> operations s !! i = Some o -> load_sequence o <> Some (dockerLoadSequence s) -> docker_ok (close i s) r.
Proof.
  intros [H1 H2 H3 H4 H5 H6 H7 H8 H9 H10 H11 H12] Hi Hl.
  assert (Hold : forall j o', delete i (operations s) !! j = Some o' -> operations s !! j = Some o') by (intros j o' [_ H]%lookup_delete_Some; done).
  split; cbn [close set_operations operations next dockerLoadSequence busy hidden content choices outputs]; try done.
  - intros j o' H%Hold. by eapply H1.
  - intros j o' q ro H%Hold. by eapply H2.
  - intros j o' H%Hold. by eapply H3.
  - intros j q repo H%Hold. by eapply H4.
  - intros j k o1 o2 Hj%Hold Hk%Hold. by eapply H5.
  - intros Hb. destruct (H6 Hb) as [(j & o' & Hj & Hq)|]; [left|by right]. exists j, o'. split; [|done].
    cbn [close set_operations operations]. rewrite lookup_delete_ne; [done|]. intros ->. congruence.
  - intros Hn. apply H10. intros (j & o' & Hj & Hq). apply Hn. exists j, o'. split; [|done].
    cbn [close set_operations operations]. rewrite lookup_delete_ne; [done|]. intros ->. congruence.
  - intros Hcalm (j & o' & Hj & Hq). apply (H12 Hcalm). exists j, o'. split; [by apply Hold in Hj|done].
Qed.

(** The current load ends with a screen of the route. *)
Lemma docker_settle_ok i o sc u s r : docker_ok s r -> operations s !! i = Some o -> load_sequence o = Some (dockerLoadSequence s) ->
  (forall pg, sc = ImageScreen pg -> ticket s r (frame_sequence (frame pg)) (Image (frame_place (frame pg))) /\ drawn u pg) ->
  (forall c, sc = CatalogScreen c -> visited (Catalog (catalog_repo c))) ->
  shows_route (replaceRepositoryView sc (set_choices u (close i s))) r ->
  docker_ok (replaceRepositoryView sc (set_choices u (close i s))) r.
Proof.
  intros [H1 H2 H3 H4 H5 H6 H7 H8 H9 H10 H11 H12] Hi Hl Hp Hc Hs.
  assert (Hold : forall j o', delete i (operations s) !! j = Some o' -> operations s !! j = Some o') by (intros j o' [_ H]%lookup_delete_Some; done).
  assert (Hidle : ~ loading (replaceRepositoryView sc (set_choices u (close i s)))).
  { intros (j & o' & Hj & Hq). cbn [replaceRepositoryView set_animations set_view set_choices close set_operations operations dockerLoadSequence] in Hj, Hq.
    apply lookup_delete_Some in Hj as [Hne Hj]. by destruct Hne; apply (H5 i j o o'). }
  split; cbn [replaceRepositoryView set_animations set_view set_choices close set_operations operations next dockerLoadSequence busy hidden content choices outputs animations]; try done.
  - intros j o' H%Hold. by eapply H1.
  - intros j o' q ro H%Hold. by eapply H2.
  - intros j o' H%Hold. by eapply H3.
  - intros j q repo H%Hold. by eapply H4.
  - intros j k o1 o2 Hj%Hold Hk%Hold. by eapply H5.
  - by right.
Qed.

(** A load begins, with a new sequence. *)
Lemma docker_load_ok o ro s r s' : docker_ok s r -> (forall i q repo, operations s !! i <> Some (CatalogBody q repo)) ->
  dockerLoadSequence s < dockerLoadSequence s' -> operations s' = <[next s := o]> (operations s) -> next s' = S (next s) ->
  op_ticket o = Some (dockerLoadSequence s', ro) -> load_sequence o = Some (dockerLoadSequence s') -> (forall q repo, o <> CatalogBody q repo) ->
  visited ro -> busy s' = true -> hidden s' = false -> choices s' = choices s -> outputs s' = outputs s ->
  content s' = content s \/ content s' = LoadingScreen -> docker_ok s' (Some ro).
Proof.
  intros [H1 H2 H3 H4 H5 H6 H7 H8 H9 H10 H11 H12] Hb Hq Ho Hn Ht Hl Hnb Hv Hbusy Hh Hu Hout Hc.
  assert (Hnew : forall i o', operations s' !! i = Some o' -> i = next s /\ o' = o \/ operations s !! i = Some o').
  { rewrite Ho. intros i o' H. apply lookup_insert_Some in H as [[<- <-]|[_ H]]; [by left|by right]. }
  assert (Htick : forall q ro', ticket s r q ro' -> ticket s' (Some ro) q ro') by (intros q ro' (? & ? & ?); split_and!; [lia|lia|done]).
  assert (Hld : forall i o', operations s' !! i = Some o' -> load_sequence o' = Some (dockerLoadSequence s') -> i = next s).
  { intros i o' [[-> _]|H]%Hnew Hlo; [done|]. exfalso.
    assert (exists ro', op_ticket o' = Some (dockerLoadSequence s', ro')) as [ro' Hro] by (destruct o'; try done; injection Hlo as ->; by eexists).
    destruct (H2 _ _ _ _ H Hro). lia. }
  split; rewrite ?Hn, ?Hbusy, ?Hh, ?Hu, ?Hout; try done.
  - intros i o' [[-> _]|H]%Hnew; [lia|]. specialize (H1 _ _ H). lia.
  - intros i o' q ro' [[-> ->]|H]%Hnew Hro; [|by eapply Htick, H2]. rewrite Ht in Hro. injection Hro as <- <-. by split.
  - intros i o' [[-> ->]|H]%Hnew; [|by eapply H3]. by destruct o.
  - intros i q repo [[-> <-]|H]%Hnew; [by destruct (Hnb q repo)|by destruct (Hb i q repo)].
  - intros i j o1 o2 Hi Hj Hq1 Hq2. by rewrite (Hld i o1), (Hld j o2).
  - intros _. left. exists (next s), o. rewrite Ho. by rewrite lookup_insert_eq.
  - intros pg Hpg. destruct Hc as [Hc|Hc]; rewrite Hc in Hpg; [|done]. destruct (H8 pg Hpg). split; [by apply Htick|done].
  - intros c Hcat. destruct Hc as [Hc|Hc]; rewrite Hc in Hcat; [|done]. by apply H9.
  - intros Hx. destruct Hx. exists (next s), o. rewrite Ho. by rewrite lookup_insert_eq.
Qed.

Lemma drawn_step ev u pg u' pg' : drawn u pg -> docker_step ev (u, pg) = (u', pg') -> frame pg' = frame pg -> drawn u' pg'.
Proof.
  intros (w & d & u0 & evs & Hs & He) Hstep Hf. exists w, d, u0, (evs ++ [ev]). rewrite Hf. split; [done|].
  unfold docker_run. rewrite fold_left_app. change (fold_left _ evs _) with (docker_run evs (render_image w (frame_place (frame pg)) (frame_sequence (frame pg)) d u0)).
  by rewrite <- He.
Qed.

Lemma on_page_cases q ev s : on_page q ev s = s \/ exists pg u' pg', content s = ImageScreen pg /\ docker_step ev (choices s, pg) = (u', pg') /\
  frame pg' = frame pg /\ on_page q ev s = set_view (hidden s) (busy s) (ImageScreen pg') (set_choices u' s).
Proof.
  unfold on_page. destruct (content s) as [| | | |?|pg]; try by left. destruct (_ =? q); [|by left]. right.
  pose proof (docker_step_frame ev (choices s, pg)) as Hf. destruct (docker_step ev (choices s, pg)) as [u' pg'] eqn:E. by exists pg, u', pg'.
Qed.

Lemma on_page_ok q ev s r : docker_ok s r -> docker_ok (on_page q ev s) r.
Proof.
  intros K. destruct (on_page_cases q ev s) as [-> |(pg & u' & pg' & Hc & Hstep & Hf & ->)]; [done|].
  destruct K as [H1 H2 H3 H4 H5 H6 H7 H8 H9 H10 H11 H12]. destruct (H8 pg Hc) as [Ht Hd].
  pose proof (drawn_step ev _ _ _ _ Hd Hstep Hf) as Hd'.
  split; cbn [set_view set_choices operations next dockerLoadSequence busy hidden content choices outputs]; try done.
  - intros x [= <-]. rewrite Hf. by split.
  - intros Hb. specialize (H10 Hb). destruct r as [[repo|p]|]; cbn in *; rewrite Hc in H10; [|right|done].
    + by destruct H10 as [|(? & ? & _ & ?)].
    + destruct H10 as [[b ?]|(x & [= <-] & Hp & _)]; [done|]. exists pg'. by rewrite Hf.
Qed.

Lemma on_page_ticket q ev s r k ro : ticket s r k ro -> ticket (on_page q ev s) r k ro.
Proof. by destruct (on_page_cases q ev s) as [-> |(pg & u' & pg' & _ & _ & _ & ->)]. Qed.

(** [renderImageDetailsView], from a handler that holds a ticket. *)
Lemma docker_refresh_ok p q s r : docker_ok s r -> ticket s r q (Image p) -> docker_ok (renderImageDetailsView p q s) r.
Proof.
  intros K Ht. unfold renderImageDetailsView. destruct (Nat.eqb_spec q (dockerLoadSequence s)) as [->|]; cbn [negb orb]; [|done].
  destruct (hidden s) eqn:Hh; [done|]. destruct Ht as (_ & Hr & Hv). specialize (Hr eq_refl). subst r.
  refine (docker_load_ok (ImageResponse (S (dockerLoadSequence s)) p) _ s _ _ K _ _ _ _ _ _ _ _ _ _ _ _ _); try done.
  - intros i k repo Hi. pose proof (ok_body _ _ K _ _ _ Hi) as ->. destruct (ok_ticket _ _ K _ _ _ _ Hi eq_refl) as (_ & Hq & _). discriminate (Hq eq_refl).
  - cbn. lia.
  - by left.
Qed.

Lemma docker_visit_ok path navigate s r : docker_ok s r -> (forall i q repo, operations s !! i <> Some (CatalogBody q repo)) -> visited (docker_route_of path) ->
  docker_ok (renderDockerRepository path navigate s) (Some (docker_route_of path)).
Proof.
  intros K Hb Hv. unfold renderDockerRepository. cbv zeta. destruct (docker_route_of path) as [repo|p].
  - refine (docker_load_ok (CatalogResponse (S (dockerLoadSequence s)) repo) _ s r _ K Hb _ _ _ _ _ _ _ _ _ _ _ _); try done.
    + cbn. lia.
    + cbn. destruct (content s); auto.
  - unfold renderImageDetailsView. cbn [set_view set_route dockerLoadSequence hidden]. rewrite Nat.eqb_refl. cbn [negb orb].
    refine (docker_load_ok (ImageResponse (S (S (dockerLoadSequence s))) p) _ s r _ K Hb _ _ _ _ _ _ _ _ _ _ _ _); try done.
    + cbn. lia.
    + cbn. destruct (content s); auto.
Qed.

Lemma docker_hide_ok s r : docker_ok s r -> (forall i q repo, operations s !! i <> Some (CatalogBody q repo)) -> docker_ok (hideDockerRepositoryView s) None.
Proof.
  intros [H1 H2 H3 H4 H5 H6 H7 H8 H9 H10 H11 H12] Hb.
  assert (Hstale : forall i o, operations s !! i = Some o -> load_sequence o = Some (S (dockerLoadSequence s)) -> False).
  { intros i o H Hlo. assert (exists ro, op_ticket o = Some (S (dockerLoadSequence s), ro)) as [ro Hro] by (destruct o; try done; injection Hlo as ->; by eexists).
    destruct (H2 _ _ _ _ H Hro). lia. }
  unfold hideDockerRepositoryView. split; cbn [set_view set_route operations next dockerLoadSequence busy hidden content choices outputs]; try done.
  - intros i o q ro Hi Ho. destruct (H2 _ _ _ _ Hi Ho) as (? & ? & ?). split_and!; cbn; [lia|lia|done].
  - intros i q repo Hi. by destruct (Hb i q repo).
  - intros i j o1 o2 Hi _ Hq. by destruct (Hstale i o1).
  - intros _ (i & o & Hi & Hq). by destruct (Hstale i o).
Qed.

(** The end of an animation. *)
Lemma docker_morphed_ok s r : docker_ok s r -> (calm -> ~ loading s) -> docker_ok (morphed s) r.
Proof.
  intros [H1 H2 H3 H4 H5 H6 H7 H8 H9 H10 H11 H12] Hc. unfold morphed. destruct (animations s) eqn:E; [by split; rewrite ?E|].
  split; cbn [set_animations set_view operations next dockerLoadSequence busy hidden content choices outputs animations]; try done.
  by intros Hcalm Hl; destruct (Hc Hcalm).
Qed.

Lemma docker_send_ok j s r : docker_ok s r -> ticket s r (job_sequence j) (Image (job_place j)) ->
  (forall t, job_task j = Describing t -> length (text_bytes t) <= 60) -> docker_ok (send j s) r.
Proof.
  intros K Ht Hd. unfold send. apply docker_output_ok; [|apply docker_begin_ok; try done].
  - destruct Ht as (_ & _ & Hv). split; [done|]. intros p t [= _ E]. by apply Hd.
  - by intros q ro [= <- <-].
Qed.

(** A dialog or a question of a page. *)
Lemma docker_begin_page_ok o p q s r : docker_ok s r -> ticket s r q (Image p) -> op_ticket o = Some (q, Image p) -> load_sequence o = None -> other_ok o ->
  docker_ok (begin o s) r.
Proof.
  intros K Ht Ho Hl Hx. apply docker_begin_ok; try done.
  - intros q' ro. rewrite Ho. by intros [= <- <-].
Qed.

Lemma docker_press_ok pr pg s r : docker_ok s r -> content s = ImageScreen pg -> docker_ok (press_step pr pg s) r.
Proof.
  intros K Hc. destruct (ok_page _ _ K pg Hc) as [Ht _]. unfold press_step. cbv zeta. destruct pr as [b|t b|i l|i|input].
  - case_bool_decide; [|done]. destruct b; try (by apply docker_output_ok); try (apply docker_output_ok; [done|]); by apply (docker_begin_page_ok _ _ _ s r K Ht).
  - destruct (existsb _ _); [|done]. destruct b as [c|d|v|]; [by apply docker_output_ok| |by apply (docker_begin_page_ok _ _ _ s r K Ht)..].
    apply docker_output_ok; [by split; [apply Ht|]|]. by apply docker_begin_ok.
  - destruct (member_row_at pg i) as [m|]; [|done]. destruct (row_control m); [|done]. case_bool_decide; [|done].
    unfold change_level. cbv zeta. destruct (members (details pg) !! i) as [x|]; [|done].
    assert (K' : docker_ok (on_page (frame_sequence (frame pg)) (SelectLevel i l) s) r) by by apply on_page_ok.
    assert (Ht' := on_page_ticket (frame_sequence (frame pg)) (SelectLevel i l) s r _ _ Ht).
    destruct (l =? level x); [done|]. destruct (_ && _); [by apply (docker_begin_page_ok _ _ _ _ r K' Ht')|by apply docker_send_ok].
  - destruct (member_row_at pg i) as [m|]; [|done]. destruct (row_control m) as [?|? []]; try done; by apply (docker_begin_page_ok _ _ _ s r K Ht).
  - destruct (frame_team (frame pg)) as [[? [?|]]|]; try done. destruct (invitation _ _); [by apply docker_alert_ok|by apply docker_send_ok].
Qed.

Lemma docker_succeeded_ok j s r : docker_ok s r -> ticket s r (job_sequence j) (Image (job_place j)) -> docker_ok (succeeded j s) r.
Proof.
  intros K Ht.
  assert (Hr : forall k, docker_ok (refresh j (alert k s)) r) by (intros k; apply docker_refresh_ok; [by apply docker_alert_ok|exact Ht]).
  unfold succeeded. destruct (job_task j) as [| | | |m ref prev l|? []| |t|t]; try done.
  - by apply docker_leave_ok, docker_alert_ok.
  - apply docker_refresh_ok; [by apply docker_alert_ok, on_page_ok|]. exact (on_page_ticket _ _ _ _ _ _ Ht).
  - by apply docker_leave_ok, docker_alert_ok.
  - by apply on_page_ok, docker_alert_ok.
  - by apply on_page_ok, docker_alert_ok.
Qed.

Lemma docker_failed_ok j code s r : docker_ok s r -> ticket s r (job_sequence j) (Image (job_place j)) -> docker_ok (failed j code s) r.
Proof.
  intros K Ht. unfold failed. set (s' := match failure_of _ _ with Some k => alert k s | None => s end).
  assert (K' : docker_ok s' r) by (unfold s'; destruct (failure_of _ _); [by apply docker_alert_ok|done]).
  assert (Ht' : ticket s' r (job_sequence j) (Image (job_place j))) by (unfold s'; by destruct (failure_of _ _)).
  cbv zeta. destruct (job_task j); try done; try (by apply (docker_begin_page_ok _ _ _ s' r K' Ht')). by apply on_page_ok.
Qed.

(** The end of a load: nothing for one of a former address, and else a screen of the route. *)
Lemma docker_load_ends i o q sc s r : docker_ok s r -> operations s !! i = Some o -> load_sequence o = Some q ->
  (forall pg, sc <> ImageScreen pg) -> (forall c, sc = CatalogScreen c -> visited (Catalog (catalog_repo c))) ->
  (q = dockerLoadSequence s -> forall s', choices s' = choices s -> content s' = sc -> shows_route s' r) ->
  docker_ok (if current q (close i s) then replaceRepositoryView sc (close i s) else close i s) r.
Proof.
  intros K Hi Hl Hp Hc Hs. unfold current. cbn [close set_operations dockerLoadSequence].
  destruct (Nat.eqb_spec q (dockerLoadSequence s)) as [->|Hq].
  - refine (docker_settle_ok i o sc (choices s) s r K Hi Hl _ Hc _); [intros pg ->; by destruct (Hp pg)|]. by apply (Hs eq_refl).
  - apply (close_ok_docker i o); [done..|]. congruence.
Qed.

(** The response of a load is followed by its body. *)
Lemma body_begins i o o' q ro s r : docker_ok s r -> operations s !! i = Some o -> load_sequence o = Some q -> op_ticket o = Some (q, ro) ->
  load_sequence o' = Some q -> op_ticket o' = Some (q, ro) ->
  docker_ok (if current q (close i s) then begin o' (close i s) else close i s) r.
Proof.
  intros K Hi Hl Ho Hl' Ho'. unfold current. cbn [close set_operations dockerLoadSequence].
  destruct (Nat.eqb_spec q (dockerLoadSequence s)) as [->|Hq]; [|apply (close_ok_docker i o); [done..|congruence]].
  pose proof (ok_ticket _ _ K _ _ _ _ Hi Ho) as Ht. destruct K as [H1 H2 H3 H4 H5 H6 H7 H8 H9 H10 H11 H12].
  assert (Hold : forall j x, operations (begin o' (close i s)) !! j = Some x -> j = next s /\ x = o' \/ j <> i /\ operations s !! j = Some x).
  { cbn [begin close set_operations operations next]. intros j x H. apply lookup_insert_Some in H as [[<- <-]|[_ H]]; [by left|].
    apply lookup_delete_Some in H as [? H]. right. by split. }
  split; cbn [begin close set_operations next dockerLoadSequence busy hidden content choices outputs]; try done.
  - intros j x [[-> _]|[_ H]]%Hold; [lia|]. specialize (H1 _ _ H). lia.
  - intros j x k ro' [[-> ->]|[_ H]]%Hold Hx; [|by eapply H2]. rewrite Ho' in Hx. by injection Hx as <- <-.
  - intros j x [[-> ->]|[_ H]]%Hold; [|by eapply H3]. by destruct o'.
  - intros j k repo [[-> E]|[_ H]]%Hold; [|by eapply H4]. subst o'. by injection Hl'.
  - assert (Honly : forall j x, operations (begin o' (close i s)) !! j = Some x -> load_sequence x = Some (dockerLoadSequence s) -> j = next s).
    { intros j x [[-> _]|[Hne H]]%Hold Hx; [done|]. by destruct Hne; apply (H5 j i x o). }
    intros j k x y Hj Hk Hx Hy. by rewrite (Honly j x Hj Hx), (Honly k y Hk Hy).
  - intros _. left. exists (next s), o'. split; [|done]. cbn [begin close set_operations operations next]. by rewrite lookup_insert_eq.
  - intros Hn. destruct Hn. exists (next s), o'. split; [|done]. cbn [begin close set_operations operations next]. by rewrite lookup_insert_eq.
  - intros Hcalm _. apply (H12 Hcalm). by exists i, o.
Qed.

Lemma docker_answer_ok i a s r : docker_ok s r -> orderly (Answered i a) s -> docker_ok (answered i a s) r.
Proof.
  intros K Ho. unfold answered. destruct (operations s !! i) as [o|] eqn:Hi; [|done]. cbn [orderly] in Ho. rewrite Hi in Ho.
  assert (Hclose : load_sequence o = None -> docker_ok (close i s) r) by (intros Hl; apply (close_ok_docker i o); [done..|congruence]).
  destruct o as [q repo|q repo|q p|q p|j|p q rm|p q v|j|repo|repo|q p t|q p t]; try done; cbv zeta.
  - destruct (ok_ticket _ _ K _ _ _ _ Hi eq_refl) as (_ & Hr & Hv).
    assert (Hf : docker_ok (if current q (close i s) then replaceRepositoryView LoadFailed (close i s) else close i s) r).
    { apply (docker_load_ends i _ q _ s r K Hi); try done. intros Hq s' _ Hs'. rewrite (Hr Hq). by left. }
    destruct a; try done. by apply (body_begins i _ (CatalogBody q repo) q (Catalog repo) s r K Hi).
  - destruct (ok_ticket _ _ K _ _ _ _ Hi eq_refl) as (_ & Hr & Hv). pose proof (ok_body _ _ K _ _ _ Hi) as ->. specialize (Hr eq_refl). subst r.
    assert (Hf : docker_ok (if current (dockerLoadSequence s) (close i s) then replaceRepositoryView LoadFailed (close i s) else close i s) (Some (Catalog repo))).
    { apply (docker_load_ends i _ (dockerLoadSequence s) _ s _ K Hi); try done. intros _ s' _ Hs'. by left. }
    destruct a as [| | | |[images|]| |]; try done.
    refine (docker_settle_ok i _ _ (choices s) s _ K Hi eq_refl _ _ _); [done|by intros c [= <-]|].
    right. exists (account s), images. by split.
  - destruct (ok_ticket _ _ K _ _ _ _ Hi eq_refl) as (_ & Hr & Hv).
    assert (Hf : forall b, docker_ok (if current q (close i s) then replaceRepositoryView (NotFound b) (close i s) else close i s) r).
    { intros b. apply (docker_load_ends i _ q _ s r K Hi); try done. intros Hq s' _ Hs'. rewrite (Hr Hq). left. by exists b. }
    destruct a; try done. by apply (body_begins i _ (ImageBody q p) q (Image p) s r K Hi).
  - pose proof (ok_ticket _ _ K _ _ _ _ Hi eq_refl) as Ht. pose proof Ht as (_ & Hr & Hv).
    assert (Hf : forall b, docker_ok (if current q (close i s) then replaceRepositoryView (NotFound b) (close i s) else close i s) r).
    { intros b. apply (docker_load_ends i _ q _ s r K Hi); try done. intros Hq s' _ Hs'. rewrite (Hr Hq). left. by exists b. }
    destruct a as [| | | | |[d|]|]; try done. clear Hf. unfold current. cbn [close set_operations dockerLoadSequence].
    destruct (Nat.eqb_spec q (dockerLoadSequence s)) as [->|Hq]; [|apply (close_ok_docker i _ s r K Hi); cbn; congruence].
    unfold draw_image. destruct (render_image _ p _ d _) as [u pg] eqn:E. specialize (Hr eq_refl). subst r.
    assert (Hfr : frame_place (frame pg) = p /\ frame_sequence (frame pg) = dockerLoadSequence s) by by injection E as _ <-.
    assert (Hd : drawn u pg).
    { destruct Hfr as [Hp Hq]. unfold drawn. rewrite Hp, Hq. exists (viewer (close i s)), d, (choices (close i s)), []. by rewrite E. }
    refine (docker_settle_ok i _ _ u s _ K Hi eq_refl _ _ _); [|done|].
    + intros x [= <-]. destruct Hfr as [-> ->]. by split.
    + right. exists pg. by destruct Hfr as [-> _].
  - pose proof (ok_ticket _ _ K _ _ _ _ Hi eq_refl) as Ht. specialize (Hclose eq_refl).
    destruct a; try done; [by apply docker_failed_ok..|by apply docker_succeeded_ok].
  - specialize (Hclose eq_refl). pose proof (ok_other _ _ K _ _ Hi : visited (Catalog repo)) as Hv.
    assert (Hb : docker_ok (begin (CreateDialog repo) (close i s)) r) by (by apply docker_begin_ok).
    destruct a; try done; [by apply docker_alert_ok..|]. unfold created. destruct (_ || _); [by apply docker_output_ok, docker_alert_ok|by apply docker_leave_ok, docker_alert_ok].
  - specialize (Hclose eq_refl). destruct a; try done; [by apply docker_alert_ok..|]. by apply docker_begin_ok.
  - specialize (Hclose eq_refl). destruct a as [| | | | | |[m|]]; try done; [|by apply docker_alert_ok]. destruct (current q s); [by apply docker_output_ok|done].
Qed.

Lemma step_ok_docker ev s r : docker_ok s r -> orderly ev s -> (forall path nav, ev = Visit path nav -> visited (docker_route_of path)) ->
  (calm -> unhurried ev s) ->
  docker_ok (docker_repository_step ev s) (track ev r).
Proof.
  intros K Ho Hv Hcalm.
  assert (Hshown : forall e, docker_ok (shown_event e s) r) by (intros e; unfold shown_event; destruct (content s); try done; by apply on_page_ok).
  destruct ev as [path nav| |c user|forward|ev|l| |p|i yes|i input|i mode|i input private team|i|i a|]; cbn [docker_repository_step track]; try apply Hshown.
  - by apply (docker_visit_ok path nav s r); [|by apply not_reading|by eapply Hv].
  - apply (docker_hide_ok s r); [done|by apply not_reading].
  - by apply docker_account_ok.
  - destruct (content s) as [| | | |c|] eqn:Hc; try done. destruct (create c); [|done]. apply docker_begin_ok; try done. by apply (ok_catalog _ _ K).
  - destruct (content s) as [| | | | |pg] eqn:Hc; try done. by apply docker_press_ok.
  - destruct (operations s !! i) as [[| | | |j| | | | | | |]|] eqn:Hi; try done. pose proof (ok_ticket _ _ K _ _ _ _ Hi eq_refl) as Ht.
    assert (Kc : docker_ok (close i s) r) by by apply (close_ok_docker i _ s r K Hi).
    unfold confirmed. cbv zeta. destruct yes; [|destruct (job_task j); try done; by apply on_page_ok].
    apply docker_send_ok; [done..|]. intros t Hj. by destruct (ok_other _ _ K _ _ Hi t).
  - destruct (operations s !! i) as [[| | | | |p q rm| | | | | |]|] eqn:Hi; try done. pose proof (ok_ticket _ _ K _ _ _ _ Hi eq_refl) as Ht.
    assert (Kc : docker_ok (close i s) r) by by apply (close_ok_docker i _ s r K Hi).
    unfold submit_text. destruct rm; [by apply docker_send_ok|]. destruct (tooLarge (trim input)) eqn:E; [by apply docker_alert_ok|].
    apply docker_send_ok; [done..|]. intros t [= <-]. by apply Nat.ltb_ge in E.
  - destruct (operations s !! i) as [[| | | | | |p q v| | | | |]|] eqn:Hi; try done. pose proof (ok_ticket _ _ K _ _ _ _ Hi eq_refl) as Ht.
    apply docker_send_ok; try done. by apply (close_ok_docker i _ s r K Hi).
  - destruct (operations s !! i) as [[| | | | | | | |repo| | |]|] eqn:Hi; try done. pose proof (ok_other _ _ K _ _ Hi : visited (Catalog repo)) as Hr.
    unfold submit_image. cbv zeta. destruct (nonempty _); cbn [negb]; [|done].
    apply docker_output_ok; [by split|]. apply docker_begin_ok; try done. by apply (close_ok_docker i _ s r K Hi).
  - destruct (operations s !! i) as [o|] eqn:Hi; [|done]. destruct (is_dialog o) eqn:E; [|done].
    apply (close_ok_docker i o); [done..|]. by destruct o.
  - by apply docker_answer_ok.
  - apply docker_morphed_ok; [done|]. intros Hc. by apply docker_loading_false, Hcalm.
Qed.

Lemma run_ok_docker evs s r : docker_ok s r -> orderly_run evs s -> (forall path nav, Visit path nav ∈ evs -> visited (docker_route_of path)) ->
  (calm -> unhurried_run evs s) ->
  docker_ok (fst (tracked evs (s, r))) (snd (tracked evs (s, r))).
Proof.
  revert s r. induction evs as [|ev evs IH]; intros s r K Ho Hv Hc; [done|]. destruct Ho as [H1 H2].
  apply IH; [|done|intros path nav Hin; apply (Hv path nav); by right|by intros [_ ?]%Hc].
  apply step_ok_docker; [done..| |by intros [? _]%Hc]. intros path nav ->. apply (Hv path nav). by left.
Qed.
End docker.

(** ** Properties *)
Module Examples.
#[local] Existing Instance latin_case.

Definition host : jstr := js "h".
Definition app : place := mk_place (js "oci") (js "team/app").
Definition api : place := mk_place (js "my oci") (js "api").

Definition owned (ts : list string) : docker_details := DockerImage.Examples.held 4 [] (map (fun t => DockerImage.Examples.pushed t false []) ts).

Definition stored : list docker_summary :=
  [{| image_name := js "team/app"; summary_private := false; summary_mirrored := false; summary_description := []; latest_tag := js "v2";
      tag_count := 2; summary_publisher := js "ann"; summary_pulls := 3 |};
   {| image_name := js "api"; summary_private := true; summary_mirrored := false; summary_description := js "d"; latest_tag := [];
      tag_count := 1; summary_publisher := []; summary_pulls := 0 |}].

Definition registry_lists (repo : jstr) (l : list docker_summary) : bool := (repo =? js "oci")%js && (length l =? 2).
Definition registry_serves (p : place) (d : docker_details) : bool := (3 <=? length (tags d)) || bool_decide (p = app).

Definition anyone : caches := session_caches true false [] [].
Definition run (evs : list docker_repository_event) : docker := fst (tracked host evs (start anyone (js "Ann"), None)).
Definition changes (s : docker) : list request := omap (fun o => match o with Sent r => Some r | _ => None end) (outputs s).
Definition alerts (s : docker) : list string := omap (fun o => match o with Alert k => Some k | _ => None end) (outputs s).
Definition page_of (s : docker) : option (place * nat) :=
  match content s with ImageScreen pg => Some (frame_place (frame pg), length (frame_rows (frame pg))) | _ => None end.

Definition to_list : docker_repository_event := Visit (js "/oci") true.
Definition to_app : docker_repository_event := Visit (js "/oci/team/app") true.
Definition to_api : docker_repository_event := Visit (js "/my%20oci/api/") true.
Definition details (i : nat) (ts : list string) : docker_repository_event := Answered i (DetailsRead (Some (owned ts))).

(** The list, an image, a tag that is deleted, a description, and another image, whose load ends before the answers of the
    former page do. *)
Definition tour : list docker_repository_event :=
  [to_list; Answered 0 Ok; Answered 1 (ImagesRead (Some stored)); AnimationEnded; to_app; Answered 2 Ok; details 3 ["v1"; "v2"]%string;
   Press (PressTag (js "v1") DeleteTag); Confirmed 4 true; Press (PressImage EditDescription); Submitted 6 (js " an app "); to_api;
   AnimationEnded; Press (PressInvite (js "eve")); Answered 8 Ok; Answered 7 Ok; details 10 ["a"; "b"; "c"]%string; Answered 5 Ok;
   Answered 9 NoReply; AnimationEnded; ChangeTab (ClickTab (js "team"))].

Lemma docker_tour_shows :
  let s := run tour in
  page_of s = Some (api, 3) /\ is_loading s = false /\ busy s = false /\ dockerPackageView (choices s) = js "team" /\
  changes s = [Change app (DeletingTag (js "v1")); Change app (Describing (js "an app")); Change app (Inviting (js "eve") 1)] /\
  alerts s = ["docker.descriptionSaved"; "docker.tagDeleted"; "docker.sendInviteFailed"]%string.
Proof. vm_compute. done. Qed.

Lemma docker_tour_orderly : orderly_run host registry_lists registry_serves tour (start anyone (js "Ann")).
Proof.
  cbn [tour orderly_run]. repeat match goal with |- _ /\ _ => split end; vm_compute; done.
Qed.

(** A list whose body is read when the visitor moves on takes the place of the page that was asked for. *)
Lemma list_over_image :
  let s := run [to_list; Answered 0 Ok; to_app; Answered 2 Ok; details 3 ["v1"]%string; Answered 1 (ImagesRead (Some stored))] in
  snd (tracked host [to_list; to_app] (start anyone (js "Ann"), None)) = Some (Image app) /\
  content s = CatalogScreen (catalog_of anyone (js "oci") stored) /\ operations s = ∅.
Proof. vm_compute. done. Qed.

(** The animation of a page that was replaced takes the mark from the page that is loaded next, which is still the former one. *)
Lemma animation_clears_mark :
  let s := run [to_app; Answered 0 Ok; details 1 ["v1"]%string; to_api; AnimationEnded] in
  page_of s = Some (app, 1) /\ is_loading s = true /\ busy s = false.
Proof. vm_compute. done. Qed.

(** Of two changes that overlap only the first one to end draws the page again: the tag deleted by the second one stays. *)
Lemma second_change_hidden :
  let s := run [to_app; Answered 0 Ok; details 1 ["v1"; "v2"]%string; Press (PressTag (js "v1") DeleteTag); Confirmed 2 true;
                Press (PressTag (js "v2") DeleteTag); Confirmed 4 true; Answered 3 Ok; Answered 6 Ok; Answered 5 Ok; details 7 ["v2"]%string] in
  alerts s = ["docker.tagDeleted"; "docker.tagDeleted"]%string /\ page_of s = Some (app, 1) /\ operations s = ∅.
Proof. vm_compute. done. Qed.

(** A deletion that ends after the visitor has moved on leaves for the list of the image's repository. *)
Lemma deleted_elsewhere :
  last (outputs (run [to_app; Answered 0 Ok; details 1 ["v1"]%string; Press (PressImage DeleteImage); Confirmed 2 true; to_api; Answered 3 Ok])) =
  Some (Navigate (Some (js "/oci"))).
Proof. vm_compute. done. Qed.

(** A member who could not be removed because no response came is not announced. *)
Lemma removal_unanswered :
  let s := run [to_app; Answered 0 Ok; details 1 ["v1"]%string; Press (PressRemove 1); Confirmed 2 true; Answered 3 NoReply] in
  changes s = [Change app (Removing (js "u2") false)] /\ alerts s = [].
Proof. vm_compute. done. Qed.

(** What the server says of a level that it refuses is not shown. *)
Lemma refusal_unexplained :
  alerts (run [to_app; Answered 0 Ok; details 1 ["v1"]%string; Press (PressLevel 1 3); Answered 2 (Failed 403 "permission_denied"); Press (PressRemove 1);
               Confirmed 3 true; Answered 4 (Failed 403 "permission_denied")]) = ["docker.updateMemberFailed"; "docker.permissionDenied"]%string.
Proof. vm_compute. done. Qed.

(** The bytes of a description, a lone surrogate's too. *)
Lemma description_bytes :
  map (fun s => length (text_bytes s)) [js "abc"; [0xE9%N]; [0x4E2D%N; 97%N]; [0xD83D%N; 0xDE00%N]; [0xD83D%N; 97%N]] = [3; 2; 4; 4; 4].
Proof. vm_compute. done. Qed.
End Examples.

Section properties.
Context {UC : UnicodeCase}.
Variable location_host : jstr.
Variable listed : jstr -> list docker_summary -> bool.
Variable serves : place -> docker_details -> bool.

(** A load of the route is under way, with the current sequence. *)
Definition load_of (r : option docker_route) (s : docker) : Prop :=
  exists i o ro, r = Some ro /\ operations s !! i = Some o /\ load_sequence o = Some (dockerLoadSequence s) /\
    op_ticket o = Some (dockerLoadSequence s, ro).

(** C15: a visitor moves between the addresses of container registries, uses their pages, also while the next one loads,
    answers questions and dialogs at any time, and loads, requests, refreshes and the animations of replaced pages end in any
    order, also after the visitor has moved on, with the answers of a server; only in the moment in which the body of a list
    is read does the visitor stay.  Then, whenever no load with the current sequence is under way, the view shows what the
    current address names: an error, the list of that repository as the server gave it, the page of that image, as the
    server gave it and as it was used, or nothing when the view is hidden; and a load with the current sequence is one of
    the current address.  The view is marked busy only while such a load or the animation of a replaced page is under way,
    and it is marked during the whole load if no animation ends in the meantime (an animation that ends takes the mark
    away, whatever is loading).  And each request that was sent is about an address that was visited, never about the image
    of one and the repository of another, and no description that was sent is longer than the 60 bytes the server takes. *)
Theorem docker_pages_follow_route c user evs s r : orderly_run location_host listed serves evs (start c user) ->
  tracked location_host evs (start c user, None) = (s, r) ->
  (is_loading s = false -> shows_route listed serves s r) /\
  (is_loading s = true -> load_of r s) /\
  (busy s = true -> is_loading s = true \/ animations s <> 0) /\
  (unhurried_run location_host evs (start c user) -> is_loading s = true -> busy s = true) /\
  (forall q, Sent q ∈ outputs s ->
     (exists path nav, Visit path nav ∈ evs /\ docker_route_of path = request_route q) /\
     forall p t, q = Change p (Describing t) -> length (text_bytes t) <= 60).
Proof.
  intros Ho Hrun. set (visited := fun ro => exists path nav, Visit path nav ∈ evs /\ docker_route_of path = ro).
  set (calm := unhurried_run location_host evs (start c user)).
  pose proof (run_ok_docker location_host listed serves visited calm evs _ _ (start_ok_docker listed serves visited calm c user) Ho) as K.
  specialize (K ltac:(intros path nav H; by exists path, nav) ltac:(done)). rewrite Hrun in K. cbn [fst snd] in K.
  rewrite docker_loading_false, docker_loading_true. split_and!.
  - apply K.
  - intros (i & o & Hi & Hl). assert (exists ro, op_ticket o = Some (dockerLoadSequence s, ro)) as [ro Ht]
      by (destruct o; try done; injection Hl as ->; by eexists).
    destruct (ok_ticket _ _ _ _ _ _ K _ _ _ _ Hi Ht) as (_ & Hr & _). exists i, o, ro. split_and!; [by apply Hr|done..].
  - apply K.
  - apply K.
  - intros q Hq. pose proof (ok_sent _ _ _ _ _ _ K) as Hs. rewrite Forall_forall in Hs. by apply (Hs _ Hq).
Qed.

(** the links of the pages of a registry are the addresses of those pages: the link of a list's card opens the page of
    that image in that repository, for the names with slashes too, and the link back opens the list; for every repository's
    name, and every image's name without an empty part. *)
Theorem docker_links_open repo n : is_utf16 repo -> is_utf16 n -> repo <> [] -> n <> [] -> join [47%N] (path_parts n) = n ->
  (forall link, image_link (mk_place repo n) = Some link -> docker_route_of link = Image (mk_place repo n)) /\
  (forall link, images_link repo = Some link -> docker_route_of link = Catalog repo).
Proof.
  intros Ur Un Hr Hn Hj.
  assert (Hparts : Forall (fun p => p <> [] /\ is_utf16 p) (repo :: path_parts n)).
  { constructor; [done|]. apply Forall_forall. intros p Hp. split; [by eapply path_parts_nonempty|]. by eapply split_utf16, path_parts_split. }
  assert (Hgo : forall ps es, Forall (fun p => p <> [] /\ is_utf16 p) ps -> mapM encodePathSegment ps = Some es ->
    map decodePathSegment (path_parts (47%N :: join [47%N] es)) = ps).
  { intros ps es Hps Hes. destruct (mapM_segments _ _ Hps Hes) as [Hm Hf]. assert (Hx : path_parts (join (js "/") es) = es).
    { apply path_parts_join. eapply Forall_impl; [exact Hf|]. intros x [Hne Hc]. split; [done|by apply segment_char_not_slash]. }
    change (path_parts (47%N :: join [47%N] es)) with (path_parts (join (js "/") es)). by rewrite Hx. }
  split; intros link.
  - unfold image_link, encodeRelativePath. cbn [repoName imageName].
    destruct (encodePathSegment repo) as [er|] eqn:Er; [|done]. destruct (mapM encodePathSegment (path_parts n)) as [es|] eqn:Es; [|done].
    cbn [mbind option_bind fmap option_map option_fmap]. intros [= <-].
    assert (Hes : mapM encodePathSegment (repo :: path_parts n) = Some (er :: es)) by (cbn [mapM]; rewrite Er; cbn [mbind option_bind]; by rewrite Es).
    pose proof (Hgo _ _ Hparts Hes) as Hd. assert (Hne : es <> []).
    { intros ->. destruct (path_parts n) as [|x xs]; [by destruct Hn|]. cbn in Es. destruct (encodePathSegment x); [|done]. by destruct (mapM _ xs). }
    unfold docker_route_of. change (47%N :: er ++ 47%N :: join (js "/") es) with (47%N :: er ++ [47%N] ++ join [47%N] es).
    replace (er ++ [47%N] ++ join [47%N] es) with (join [47%N] (er :: es)) by by destruct es.
    rewrite Hd. cbn [hd]. change (drop 1 (repo :: path_parts n)) with (path_parts n). rewrite Hj. by destruct n.
  - unfold images_link. destruct (encodePathSegment repo) as [er|] eqn:Er; [|done]. cbn [fmap option_fmap option_map]. intros [= <-].
    unfold docker_route_of. change (47%N :: er) with (47%N :: join [47%N] [er]). rewrite (Hgo [repo] [er]); [done|by inversion Hparts; constructor|]. cbn [mapM]. by rewrite Er.
Qed.
End properties.

Lemma docker_pages_follow_route_witness :
  @orderly_run latin_case Examples.host Examples.registry_lists Examples.registry_serves Examples.tour (start Examples.anyone (js "Ann")) /\
  @shows_route latin_case Examples.registry_lists Examples.registry_serves (Examples.run Examples.tour) (Some (Image Examples.api)).
Proof.
  split; [exact Examples.docker_tour_orderly|].
  exact (proj1 (@docker_pages_follow_route latin_case Examples.host Examples.registry_lists Examples.registry_serves Examples.anyone (js "Ann")
                  Examples.tour (Examples.run Examples.tour) (Some (Image Examples.api)) Examples.docker_tour_orderly
                  ltac:(vm_compute; reflexivity)) ltac:(vm_compute; reflexivity)).
Defined.

Lemma docker_links_open_witness :
  image_link Examples.app = Some (js "/oci/team/app") /\ docker_route_of (js "/oci/team/app") = Image Examples.app.
Proof.
  assert (H : image_link Examples.app = Some (js "/oci/team/app")) by (vm_compute; reflexivity). split; [exact H|].
  refine (proj1 (docker_links_open (js "oci") (js "team/app") _ _ _ _ _) _ H); try done.
  - apply is_utf16_forallb. vm_compute. reflexivity.
  - apply is_utf16_forallb. vm_compute. reflexivity.
Defined.
