(* ===== verification/UserSuggestions.v ===== *)
(** * The suggestions of users

    [internal/service/frontend/renop-html/js/browser/user-suggestions.js]: the list of names below the field that invites a
    member to a package's team, its searches, its keys and its closing.  Where the list is put on the screen is not modelled;
    the element of the list stays in the page, since nothing calls [destroy]. *)
From S2P Require Import Prelude JsString BrowserUtils.
Local Open Scope nat_scope.

(** ** State *)
Record suggestions := mk_suggestions {
  input : option jstr;                  (* what the attached field holds *)
  expanded : bool;                      (* its [aria-expanded] *)
  panel : bool;                         (* the list has been created *)
  panel_hidden : bool;
  visible : bool;                       (* its class [is-visible] *)
  leaving : bool;                       (* its class [is-leaving] *)
  options : list jstr;                  (* its buttons *)
  names : list jstr;                    (* [suggestions] *)
  activeIndex : Z;
  searchTimer : option (jstr * nat);    (* the query and the version of the search to come *)
  closeTimer : bool;
  requestVersion : nat;
  frames : nat;                         (* the frames that will show the list *)
  searches : gmap nat (jstr * nat);     (* the requests that have not been answered *)
  next_search : nat;
  applied : list jstr                   (* the names that were put into a field *)
}.

Definition set_input (i : option jstr) (e : bool) (s : suggestions) : suggestions :=
  mk_suggestions i e (panel s) (panel_hidden s) (visible s) (leaving s) (options s) (names s) (activeIndex s) (searchTimer s) (closeTimer s)
    (requestVersion s) (frames s) (searches s) (next_search s) (applied s).
Definition set_panel (p hid vis lea : bool) (o : list jstr) (s : suggestions) : suggestions :=
  mk_suggestions (input s) (expanded s) p hid vis lea o (names s) (activeIndex s) (searchTimer s) (closeTimer s) (requestVersion s) (frames s)
    (searches s) (next_search s) (applied s).
Definition set_names (n : list jstr) (a : Z) (s : suggestions) : suggestions :=
  mk_suggestions (input s) (expanded s) (panel s) (panel_hidden s) (visible s) (leaving s) (options s) n a (searchTimer s) (closeTimer s)
    (requestVersion s) (frames s) (searches s) (next_search s) (applied s).
Definition set_search (t : option (jstr * nat)) (v : nat) (s : suggestions) : suggestions :=
  mk_suggestions (input s) (expanded s) (panel s) (panel_hidden s) (visible s) (leaving s) (options s) (names s) (activeIndex s) t (closeTimer s) v
    (frames s) (searches s) (next_search s) (applied s).
Definition set_close_timer (c : bool) (s : suggestions) : suggestions :=
  mk_suggestions (input s) (expanded s) (panel s) (panel_hidden s) (visible s) (leaving s) (options s) (names s) (activeIndex s) (searchTimer s) c
    (requestVersion s) (frames s) (searches s) (next_search s) (applied s).
Definition set_frames (f : nat) (s : suggestions) : suggestions :=
  mk_suggestions (input s) (expanded s) (panel s) (panel_hidden s) (visible s) (leaving s) (options s) (names s) (activeIndex s) (searchTimer s)
    (closeTimer s) (requestVersion s) f (searches s) (next_search s) (applied s).
Definition set_searches (m : gmap nat (jstr * nat)) (n : nat) (s : suggestions) : suggestions :=
  mk_suggestions (input s) (expanded s) (panel s) (panel_hidden s) (visible s) (leaving s) (options s) (names s) (activeIndex s) (searchTimer s)
    (closeTimer s) (requestVersion s) (frames s) m n (applied s).
Definition count_applied (n : jstr) (s : suggestions) : suggestions :=
  mk_suggestions (input s) (expanded s) (panel s) (panel_hidden s) (visible s) (leaving s) (options s) (names s) (activeIndex s) (searchTimer s)
    (closeTimer s) (requestVersion s) (frames s) (searches s) (next_search s) (applied s ++ [n]).

Definition fresh : suggestions := mk_suggestions None false false true false false [] [] (-1) None false 0 0 ∅ 0 [].

(** ** Operations *)
Section operations.
Variable maxResults : nat.

Definition close (immediate : bool) (s : suggestions) : suggestions :=
  let s := set_input (input s) false (set_names [] (-1) s) in
  if negb (panel s) then s
  else if immediate || panel_hidden s then set_close_timer false (set_panel true true false false (options s) s)
  else set_close_timer true (set_panel true (panel_hidden s) false true (options s) s).

(** [ensurePanel] comes first: a list that is created is hidden. *)
Definition render (users : list jstr) (s : suggestions) : suggestions :=
  let shown := take maxResults users in
  let s := if panel s then set_panel true (panel_hidden s) (visible s) (leaving s) shown s else set_panel true true false false shown s in
  let s := set_names shown (-1) s in
  match shown with
  | [] => close false s
  | _ =>
    let s := set_panel true false (visible s) false shown (set_close_timer false s) in
    set_frames (S (frames s)) (set_input (input s) (match input s with Some _ => true | None => expanded s end) s)
  end.

Definition detach (s : suggestions) : suggestions :=
  let s := close true (set_search None (S (requestVersion s)) s) in
  set_input None (expanded s) s.

Definition attach (value : jstr) (s : suggestions) : suggestions := set_input (Some value) false (detach s).

Definition handleInput (value : jstr) (s : suggestions) : suggestions :=
  match input s with
  | None => s
  | Some _ =>
    let s := set_search None (S (requestVersion s)) (set_input (Some value) (expanded s) s) in
    let query := trim value in
    if negb (nonempty query) then close true (render [] s) else set_search (Some (query, requestVersion s)) (requestVersion s) s
  end.

(** The timer calls [load], up to its request. *)
Definition timer_fired (s : suggestions) : suggestions :=
  match searchTimer s with
  | Some search => set_searches (<[next_search s := search]> (searches s)) (S (next_search s)) (set_search None (requestVersion s) s)
  | None => s
  end.

(** The end of [load]; [None]: the search failed. *)
Definition load_ends (query : jstr) (version : nat) (users : option (list jstr)) (s : suggestions) : suggestions :=
  match users with
  | Some users =>
    if negb (version =? requestVersion s) || negb (trim (default [] (input s)) =? query)%js then s else render users s
  | None => if version =? requestVersion s then render [] s else s
  end.

Definition apply_name (username : jstr) (s : suggestions) : suggestions :=
  close false (match input s with Some _ => count_applied username (set_input (Some username) (expanded s) s) | None => s end).

Inductive key := Escape | ArrowDown | ArrowUp | Enter.

Definition handleKeydown (k : key) (s : suggestions) : suggestions :=
  let n := Z.of_nat (length (names s)) in
  match k with
  | Escape => close false s
  | _ =>
    if length (names s) =? 0 then s
    else match k with
         | ArrowDown => set_names (names s) (Z.rem (activeIndex s + 1) n) s
         | ArrowUp => set_names (names s) (Z.rem (activeIndex s - 1 + n) n) s
         | _ => if (0 <=? activeIndex s)%Z then
                  match names s !! Z.to_nat (activeIndex s) with Some username => apply_name username s | None => s end
                else s
         end
  end.

Definition handlePanelClick (i : nat) (s : suggestions) : suggestions :=
  if negb (panel s) || panel_hidden s || negb (visible s) then s
  else match options s !! i with Some username => apply_name username s | None => s end.

Definition clear (s : suggestions) : suggestions :=
  close false (match input s with Some _ => set_input (Some []) (expanded s) s | None => s end).

(** ** Events *)
Inductive suggestion_event :=
| Attach (value : jstr)
| Detach
| Typed (value : jstr)
| SearchTimer
| SearchEnds (i : nat) (users : option (list jstr))
| Key (k : key)
| ClickOption (i : nat)
| ClickElsewhere
| CloseTimer
| Frame
| Clear.

Definition suggestion_step (ev : suggestion_event) (s : suggestions) : suggestions :=
  match ev with
  | Attach value => attach value s
  | Detach => detach s
  | Typed value => handleInput value s
  | SearchTimer => timer_fired s
  | SearchEnds i users =>
    match searches s !! i with
    | Some (query, version) => load_ends query version users (set_searches (delete i (searches s)) (next_search s) s)
    | None => s
    end
  | Key k => match input s with Some _ => handleKeydown k s | None => s end
  | ClickOption i => handlePanelClick i s
  | ClickElsewhere => match input s with Some _ => close false s | None => s end
  | CloseTimer => if closeTimer s then set_close_timer false (set_panel (panel s) true (visible s) false (options s) s) else s
  | Frame =>
    match frames s with
    | S f => set_frames f (set_panel (panel s) (panel_hidden s) (panel s) (leaving s) (options s) s)
    | 0 => s
    end
  | Clear => clear s
  end.

Definition suggestion_run (evs : list suggestion_event) (s : suggestions) : suggestions := fold_left (fun s ev => suggestion_step ev s) evs s.

(** ** What the theorem says *)
Variable users : jstr -> list jstr.     (* what the server answers *)

(** The answers are the server's. *)
Definition answered_by (ev : suggestion_event) (s : suggestions) : Prop :=
  match ev with
  | SearchEnds i (Some l) => match searches s !! i with Some (query, _) => l = users query | None => True end
  | _ => True
  end.

Fixpoint answered_run (evs : list suggestion_event) (s : suggestions) : Prop :=
  match evs with [] => True | ev :: evs => answered_by ev s /\ answered_run evs (suggestion_step ev s) end.

Definition open_list (s : suggestions) : bool := panel s && negb (panel_hidden s) && negb (leaving s).

(** A search of the newest version is to come or under way. *)
Definition searching (s : suggestions) : Prop :=
  is_Some (searchTimer s) \/ exists i query, searches s !! i = Some (query, requestVersion s).

(** What holds whether or not the list is open. *)
Record base (s : suggestions) : Prop := {
  ok_next_search : forall i x, searches s !! i = Some x -> i < next_search s;
  ok_version : forall i query version, searches s !! i = Some (query, version) -> version <= requestVersion s /\ query <> [];
  ok_timer : forall query version, searchTimer s = Some (query, version) -> version = requestVersion s /\ query <> [];
  ok_timer_alone : is_Some (searchTimer s) -> forall i query, searches s !! i <> Some (query, requestVersion s);
  ok_same : forall i j x y, searches s !! i = Some (x, requestVersion s) -> searches s !! j = Some (y, requestVersion s) -> i = j;
  ok_closing : closeTimer s = true -> panel s = true /\ leaving s = true;
  ok_options : options s = [] \/ exists query, options s = take maxResults (users query);
  ok_applied : Forall (fun n => exists query, n ∈ users query) (applied s)
}.

(** The text that the newest search looks for is in the field. *)
Definition looks_for (s : suggestions) (query : jstr) : Prop :=
  searchTimer s = Some (query, requestVersion s) \/ exists i, searches s !! i = Some (query, requestVersion s).

Record suggestions_ok (s : suggestions) : Prop := {
  ok_base : base s;
  ok_expanded : expanded s = open_list s;
  ok_open : open_list s = true -> is_Some (input s) /\ names s = options s /\ options s <> [];
  ok_shut : open_list s = false -> names s = [];
  ok_index : (-1 <= activeIndex s < Z.of_nat (length (names s)))%Z;
  ok_current : open_list s = true -> forall query, looks_for s query -> query = trim (default [] (input s));
  ok_settled : open_list s = true -> (forall query, ~ looks_for s query) -> options s = take maxResults (users (trim (default [] (input s))))
}.

(** ** Lemmas *)
#[local] Arguments trim : simpl never.
Lemma fresh_ok_suggestions : suggestions_ok fresh.
Proof.
  split; cbn; try done. split; cbn; try done; try (by intros i; rewrite lookup_empty); try (by intros i x; rewrite lookup_empty);
    try (by intros i x y; rewrite lookup_empty); try (by intros i j x y; rewrite lookup_empty); try by left.
Qed.

Lemma close_open b s : open_list (close b s) = false.
Proof.
  unfold close. cbv zeta. cbn [set_input set_names panel]. destruct (panel s) eqn:Hp; cbn [negb]; [|unfold open_list; cbn; by rewrite Hp].
  destruct (b || _); unfold open_list; cbn; by rewrite ?andb_false_r.
Qed.

Lemma close_frame b s : input (close b s) = input s /\ names (close b s) = [] /\ activeIndex (close b s) = (-1)%Z /\ expanded (close b s) = false /\
  options (close b s) = options s /\ searchTimer (close b s) = searchTimer s /\ requestVersion (close b s) = requestVersion s /\
  searches (close b s) = searches s /\ next_search (close b s) = next_search s /\ applied (close b s) = applied s.
Proof. unfold close. cbv zeta. cbn [set_input set_names panel]. destruct (panel s); cbn [negb]; [destruct (b || _)|]; split_and!; done. Qed.

Lemma close_base b s : base s -> base (close b s).
Proof.
  intros [H1 H2 H3 H4 H5 H6 H7 H8]. destruct (close_frame b s) as (_ & _ & _ & _ & Ho & Ht & Hv & Hs & Hn & Ha).
  split; rewrite ?Ho, ?Ht, ?Hv, ?Hs, ?Hn, ?Ha; try done. unfold close. cbv zeta. cbn [set_input set_names panel].
  destruct (panel s) eqn:Hp; cbn [negb].
  - by destruct (b || _).
  - cbn. intros Hx. destruct (H6 Hx). congruence.
Qed.

(** Closing the list makes up for a field that was changed. *)
Lemma close_suggestions_ok b s : base s -> suggestions_ok (close b s).
Proof.
  intros B. pose proof (close_open b s) as Hc. destruct (close_frame b s) as (_ & Hn & Hi & He & _).
  split; rewrite ?Hc, ?Hn, ?Hi, ?He; try done. by apply close_base.
Qed.

(** Drawing the names of an answer. *)
Lemma drawn_base l s : base s -> l = [] \/ (exists query, l = take maxResults (users query)) ->
  base (set_names l (-1) (if panel s then set_panel true (panel_hidden s) (visible s) (leaving s) l s else set_panel true true false false l s)).
Proof.
  intros [H1 H2 H3 H4 H5 H6 H7 H8] Hl. destruct (panel s) eqn:Hp; split; try done; cbn; intros Hx; destruct (H6 Hx); congruence.
Qed.

Lemma render_nil_ok s : base s -> suggestions_ok (render [] s).
Proof. intros B. unfold render. rewrite take_nil. cbv zeta. apply close_suggestions_ok, drawn_base; [done|by left]. Qed.

Lemma render_ok query s : base s -> query <> [] -> trim (default [] (input s)) = query ->
  (forall other, looks_for s other -> other = query) -> suggestions_ok (render (users query) s).
Proof.
  intros B Hq Hi Ho. unfold render. cbv zeta. pose proof (drawn_base (take maxResults (users query)) s B (or_intror (ex_intro _ query eq_refl))) as B'.
  destruct (take maxResults (users query)) as [|n ns] eqn:E; [by apply close_suggestions_ok|].
  assert (Hin : is_Some (input s)) by (destruct (input s); [done|]; by cbn in Hi; subst query).
  set (s' := set_names _ _ _) in *.
  assert (Hs : input s' = input s /\ searchTimer s' = searchTimer s /\ searches s' = searches s /\ requestVersion s' = requestVersion s /\
    names s' = n :: ns /\ activeIndex s' = (-1)%Z) by (unfold s'; by destruct (panel s)).
  clearbody s'. destruct Hs as (Hs1 & Hs2 & Hs3 & Hs4 & Hs5 & Hs6). destruct B' as [H1 H2 H3 H4 H5 H6 H7 H8].
  split; cbn; rewrite ?Hs1, ?Hs5, ?Hs6; try done.
  - split; try done. cbn. right. by exists query.
  - by destruct Hin as [v ->].
  - intros _ other. unfold looks_for. cbn. rewrite Hs2, Hs3, Hs4, Hi. apply Ho.
  - intros _ _. by rewrite Hi, E.
Qed.

(** The newest search is over. *)
Lemma search_over s x i v : base s -> searches s !! i = Some (x, v) -> base (set_searches (delete i (searches s)) (next_search s) s).
Proof.
  intros [H1 H2 H3 H4 H5 H6 H7 H8] Hi.
  assert (Hold : forall j y, delete i (searches s) !! j = Some y -> searches s !! j = Some y) by (intros j y [_ H]%lookup_delete_Some; done).
  split; cbn; try done.
  - intros j y H%Hold. by eapply H1.
  - intros j y w H%Hold. by eapply H2.
  - intros Ht j y H%Hold. by destruct (H4 Ht j y).
  - intros j k y z Hj%Hold Hk%Hold. by eapply H5.
Qed.

Lemma load_ends_ok i query version found s : suggestions_ok s -> searches s !! i = Some (query, version) ->
  (forall l, found = Some l -> l = users query) ->
  suggestions_ok (load_ends query version found (set_searches (delete i (searches s)) (next_search s) s)).
Proof.
  intros K Hi Hf. pose proof (ok_base _ K) as B. pose proof (search_over s _ _ _ B Hi) as B'. set (s' := set_searches _ _ s) in *.
  assert (Hone : version = requestVersion s -> forall other, ~ looks_for s' other).
  { intros -> other [Ht|[j Hj]].
    - by destruct (ok_timer_alone _ B ltac:(by eexists) i query).
    - cbn in Hj. apply lookup_delete_Some in Hj as [Hne Hj]. by destruct Hne; apply (ok_same _ B i j query other). }
  assert (Hsame : version <> requestVersion s -> suggestions_ok s').
  { intros Hv. assert (Hl : forall other, looks_for s other <-> looks_for s' other).
    { intros other. unfold looks_for. cbn. split; (intros [?|[j Hj]]; [by left|right; exists j]).
      - rewrite lookup_delete_ne; [done|]. intros <-. rewrite Hi in Hj. congruence.
      - by apply lookup_delete_Some in Hj as [_ ?]. }
    destruct K as [K1 K2 K3 K4 K5 K6 K7]. split; try done.
    - intros Ho other Hx. apply (K6 Ho), Hl, Hx.
    - intros Ho Hx. apply (K7 Ho). intros other H. by apply (Hx other), Hl. }
  unfold load_ends. destruct found as [l|]; change (requestVersion s') with (requestVersion s); change (input s') with (input s);
    destruct (Nat.eqb_spec version (requestVersion s)) as [E|E]; cbn [negb orb]; try by apply Hsame.
  - rewrite (Hf l eq_refl). case_bool_decide as Hq; cbn [negb].
    + apply render_ok; [done|by apply (ok_version _ B i query version)|done|]. intros other Hx. by destruct (Hone E other).
    + assert (Hshut : open_list s = false).
      { destruct (open_list s) eqn:Ho; [|done]. destruct Hq. symmetry. apply (ok_current _ K Ho). right. exists i. by rewrite <- E. }
      destruct K as [K1 K2 K3 K4 K5 K6 K7]. split; try done; intros Ho; change (open_list s') with (open_list s) in Ho; congruence.
  - by apply render_nil_ok.
Qed.

Lemma applied_base username s : base s -> (exists query, username ∈ users query) -> base (count_applied username s).
Proof. intros [H1 H2 H3 H4 H5 H6 H7 H8] Hu. split; try done. cbn. by apply Forall_app_2; [|apply Forall_singleton]. Qed.

Lemma set_input_base v e s : base s -> base (set_input v e s).
Proof. intros [H1 H2 H3 H4 H5 H6 H7 H8]. by split. Qed.

Lemma apply_name_ok username s : base s -> username ∈ options s -> suggestions_ok (apply_name username s).
Proof.
  intros B Hu. apply close_suggestions_ok. destruct (input s); [|done]. apply applied_base; [by apply set_input_base|].
  destruct (ok_options _ B) as [E|[query E]]; rewrite E in Hu; [by apply not_elem_of_nil in Hu|]. exists query. by eapply subseteq_take.
Qed.

(** A new version of the searches. *)
Lemma new_version_base t s : base s -> (forall query, t = Some query -> query <> []) ->
  base (set_search ((fun query => (query, S (requestVersion s))) <$> t) (S (requestVersion s)) s).
Proof.
  intros [H1 H2 H3 H4 H5 H6 H7 H8] Ht. split; cbn; try done.
  - intros i query version H. destruct (H2 _ _ _ H). split; [lia|done].
  - destruct t; [|done]. intros query version [= <- <-]. auto.
  - intros _ i query H. destruct (H2 _ _ _ H). lia.
  - intros i j x y H _. destruct (H2 _ _ _ H). lia.
Qed.

Lemma input_ok v s : suggestions_ok s -> suggestions_ok (handleInput v s).
Proof.
  intros K. pose proof (ok_base _ K) as B. unfold handleInput. destruct (input s) as [v0|] eqn:Hi; [|done]. cbv zeta.
  destruct (nonempty (trim v)) eqn:Hq; cbn [negb].
  - assert (Hne : trim v <> []) by (intros E; by rewrite E in Hq).
    assert (B' : base (set_search (Some (trim v, S (requestVersion s))) (S (requestVersion s)) (set_input (Some v) (expanded s) s))).
    { apply set_input_base with (v := Some v) (e := expanded s) in B. apply (new_version_base (Some (trim v)) _ B). by intros query [= <-]. }
    destruct K as [K1 K2 K3 K4 K5 K6 K7]. split; try done.
    + intros Ho. destruct (K3 Ho) as (_ & ? & ?). by split_and!.
    + intros _ query [[= <-]|[i Hx]]; [done|]. cbn in Hx. destruct (ok_version _ B _ _ _ Hx). lia.
    + intros _ Hx. destruct (Hx (trim v)). by left.
  - apply close_suggestions_ok, (ok_base _ (render_nil_ok _ (new_version_base None _ (set_input_base (Some v) (expanded s) s B) ltac:(done)))).
Qed.

Lemma detach_base s : base s -> suggestions_ok (close true (set_search None (S (requestVersion s)) s)).
Proof. intros B. apply close_suggestions_ok. by apply (new_version_base None s B). Qed.

(** A field that is put in the place of another one while the list is shut. *)
Lemma shut_ok v e s : suggestions_ok s -> open_list s = false -> e = false -> suggestions_ok (set_input v e s).
Proof.
  intros [K1 K2 K3 K4 K5 K6 K7] Ho ->. assert (Ho' : open_list (set_input v false s) = false) by done.
  split; rewrite ?Ho'; try done. by apply set_input_base. intros _. by apply K4.
Qed.

Lemma detach_ok s : suggestions_ok s -> suggestions_ok (detach s) /\ open_list (detach s) = false.
Proof.
  intros K. unfold detach. cbv zeta. split; [|exact (close_open _ _)].
  apply shut_ok; [by apply detach_base, ok_base|apply close_open|]. by destruct (close_frame true (set_search None (S (requestVersion s)) s)) as (_ & _ & _ & -> & _).
Qed.

Lemma key_ok k s : suggestions_ok s -> suggestions_ok (handleKeydown k s).
Proof.
  intros K. pose proof (ok_base _ K) as B. pose proof (ok_index _ K) as Hidx. unfold handleKeydown. cbv zeta.
  assert (Hsel : forall a, (-1 <= a < Z.of_nat (length (names s)))%Z -> suggestions_ok (set_names (names s) a s)).
  { intros a Ha. destruct K as [K1 K2 K3 K4 K5 K6 K7]. split; try done. by destruct K1. }
  assert (Hn : (length (names s) =? 0) = false -> 0 < length (names s)) by (intros E%Nat.eqb_neq; lia).
  destruct k; [by apply close_suggestions_ok| | |]; (destruct (length (names s) =? 0) eqn:E; [done|]); specialize (Hn eq_refl).
  - apply Hsel. pose proof (Z.rem_bound_pos (activeIndex s + 1) (Z.of_nat (length (names s)))). lia.
  - apply Hsel. destruct (decide (length (names s) = 1)) as [H1|H1].
    + rewrite H1. rewrite Z.rem_1_r. lia.
    + pose proof (Z.rem_bound_pos (activeIndex s - 1 + Z.of_nat (length (names s))) (Z.of_nat (length (names s)))). lia.
  - destruct (_ <=? _)%Z; [|done]. destruct (names s !! Z.to_nat (activeIndex s)) as [username|] eqn:Hl; [|done].
    apply apply_name_ok; [done|]. destruct (open_list s) eqn:Ho.
    + destruct (ok_open _ K Ho) as (_ & <- & _). by eapply list_elem_of_lookup_2.
    + by rewrite (ok_shut _ K Ho) in Hl.
Qed.

Lemma suggestion_step_ok ev s : suggestions_ok s -> answered_by ev s -> suggestions_ok (suggestion_step ev s).
Proof.
  intros K Ha. pose proof (ok_base _ K) as B. destruct ev as [v| |v| |i found|k|i| | | |]; cbn [suggestion_step].
  - destruct (detach_ok s K) as [Kd Hd]. by apply shut_ok.
  - by apply detach_ok.
  - by apply input_ok.
  - unfold timer_fired. destruct (searchTimer s) as [[query version]|] eqn:Ht; [|done]. destruct (ok_timer _ B _ _ Ht) as [-> Hne].
    pose proof (ok_timer_alone _ B ltac:(by eexists)) as Halone.
    assert (Hl : forall other, looks_for (set_searches (<[next_search s := (query, requestVersion s)]> (searches s)) (S (next_search s))
                                            (set_search None (requestVersion s) s)) other <-> looks_for s other).
    { intros other. unfold looks_for. cbn. rewrite Ht. split.
      - intros [?|[j Hj]]; [done|]. apply lookup_insert_Some in Hj as [[_ [= <-]]|[_ Hj]]; [by left|by right; exists j].
      - intros [[= <-]|[j Hj]]; [|by destruct (Halone j other)]. right. exists (next_search s). by rewrite lookup_insert_eq. }
    destruct K as [K1 K2 K3 K4 K5 K6 K7]. destruct B as [H1 H2 H3 H4 H5 H6 H7 H8]. split; try done.
    + split; cbn; try done.
      * intros i x [[<- _]|[_ H]]%lookup_insert_Some; [lia|]. specialize (H1 _ _ H). lia.
      * intros i x version [[_ [= <- <-]]|[_ H]]%lookup_insert_Some; [by split|by eapply H2].
      * intros i j x y [[<- _]|[_ Hi]]%lookup_insert_Some [[<- _]|[_ Hj]]%lookup_insert_Some; [done|by destruct (Halone j y)|by destruct (Halone i x)|].
        by apply (H5 i j x y).
    + intros Ho other Hx. apply (K6 Ho), Hl, Hx.
    + intros Ho Hx. apply (K7 Ho). intros other H. by apply (Hx other), Hl.
  - cbn [answered_by] in Ha. destruct (searches s !! i) as [[query version]|] eqn:Hi; [|done].
    apply load_ends_ok; [done..|]. by intros l ->.
  - destruct (input s); [by apply key_ok|done].
  - unfold handlePanelClick. destruct (_ || _); [done|]. destruct (options s !! i) as [username|] eqn:Hl; [|done].
    apply apply_name_ok; [done|by eapply list_elem_of_lookup_2].
  - destruct (input s); [by apply close_suggestions_ok|done].
  - destruct (closeTimer s) eqn:Hc; [|done]. destruct (ok_closing _ B Hc) as [Hp Hl].
    assert (Ho : open_list s = false) by (unfold open_list; by rewrite Hl, andb_false_r).
    destruct K as [K1 K2 K3 K4 K5 K6 K7]. destruct B as [H1 H2 H3 H4 H5 H6 H7 H8].
    assert (Ho' : open_list (set_close_timer false (set_panel (panel s) true (visible s) false (options s) s)) = false)
      by (unfold open_list; cbn; by rewrite andb_false_r).
    split; rewrite ?Ho'; try done; cbn; [by rewrite K2|intros _; by apply K4].
  - destruct (frames s); [done|]. destruct K as [K1 K2 K3 K4 K5 K6 K7]. destruct B as [H1 H2 H3 H4 H5 H6 H7 H8]. by split.
  - unfold clear. apply close_suggestions_ok. destruct (input s); [by apply set_input_base|done].
Qed.

Lemma suggestion_run_ok evs s : suggestions_ok s -> answered_run evs s -> suggestions_ok (suggestion_run evs s).
Proof.
  unfold suggestion_run. revert s. induction evs as [|ev evs IH]; intros s K Ha; [done|]. destruct Ha as [H1 H2].
  apply IH; [by apply suggestion_step_ok|done].
Qed.
End operations.

(** ** Properties *)
Module Examples.
Definition known : list jstr := map js ["ann"; "anna"; "andy"; "bob"]%string.
Definition registered (query : jstr) : list jstr := List.filter (starts_with query) known.
Definition run (evs : list suggestion_event) : suggestions := suggestion_run 2 evs fresh.
Definition answer (i : nat) (query : string) : suggestion_event := SearchEnds i (Some (registered (js query))).

(** A search that is overtaken, a choice by keys, and a list that fades away. *)
Definition typing : list suggestion_event :=
  [Attach []; Typed (js "b"); SearchTimer; Typed (js " an "); SearchTimer; answer 0 "b"; answer 1 "an"; Frame; Key ArrowDown; Key ArrowDown].

Lemma typing_shows :
  let s := run typing in
  open_list s = true /\ names s = [js "ann"; js "anna"] /\ activeIndex s = 1%Z /\ applied (run (typing ++ [Key Enter])) = [js "anna"] /\
  panel_hidden (run (typing ++ [Key Enter; CloseTimer])) = true.
Proof. vm_compute. done. Qed.

Lemma typing_answered : answered_run 2 registered typing fresh.
Proof. cbn [typing answered_run]. repeat match goal with |- _ /\ _ => split end; vm_compute; done. Qed.

(** Closing the list by the keyboard or by a click does not give up the search: it opens again. *)
Lemma escape_reopens :
  open_list (run [Attach []; Typed (js "an"); SearchTimer; Key Escape; answer 0 "an"]) = true /\
  open_list (run [Attach []; Typed (js "an"); ClickElsewhere; SearchTimer; answer 0 "an"]) = true.
Proof. vm_compute. done. Qed.

(** From no choice the key up goes to the last name but one. *)
Lemma up_from_none : activeIndex (suggestion_run 3 [Attach []; Typed (js "an"); SearchTimer; answer 0 "an"; Key ArrowUp] fresh) = 1%Z.
Proof. vm_compute. done. Qed.
End Examples.

Section properties.
Variables (maxResults : nat) (users : jstr -> list jstr).

(** C23: a field is attached and detached, the visitor types, moves with the keys, chooses and closes, and timers, searches and
    frames come in any order, with the answers of a server.  Then the field says that it is expanded exactly while the list
    is open; an open list has names, at most [maxResults], which the keys and the buttons agree on, and when no search for
    the newest text is to come or under way they are what the server answers to the text in the field; the choice is a name
    of the list or none; and every name that was put into a field is one that the server suggested. *)
Theorem suggestions_follow_field evs : answered_run maxResults users evs fresh ->
  (expanded (suggestion_run maxResults evs fresh) = open_list (suggestion_run maxResults evs fresh)) /\
  (open_list (suggestion_run maxResults evs fresh) = true ->
     (exists v, input (suggestion_run maxResults evs fresh) = Some v /\
        ((forall query, ~ looks_for (suggestion_run maxResults evs fresh) query) ->
           options (suggestion_run maxResults evs fresh) = take maxResults (users (trim v)))) /\
     options (suggestion_run maxResults evs fresh) <> [] /\ length (options (suggestion_run maxResults evs fresh)) <= maxResults /\
     names (suggestion_run maxResults evs fresh) = options (suggestion_run maxResults evs fresh)) /\
  (-1 <= activeIndex (suggestion_run maxResults evs fresh) < Z.of_nat (length (names (suggestion_run maxResults evs fresh))))%Z /\
  (forall n, n ∈ applied (suggestion_run maxResults evs fresh) -> exists query, n ∈ users query).
Proof.
  intros Ha. pose proof (suggestion_run_ok maxResults users evs fresh (fresh_ok_suggestions maxResults users) Ha) as K.
  set (s := suggestion_run maxResults evs fresh) in *. split_and!.
  - apply K.
  - intros Ho. destruct (ok_open _ _ _ K Ho) as ([v Hv] & Hn & Hne). split_and!; [|done| |done].
    + exists v. split; [done|]. intros Hx. rewrite (ok_settled _ _ _ K Ho Hx). by rewrite Hv.
    + destruct (ok_options _ _ _ (ok_base _ _ _ K)) as [-> |[query ->]]; [cbn; lia|]. rewrite length_take. lia.
  - apply K.
  - apply K.
  - intros n Hn. pose proof (ok_applied _ _ _ (ok_base _ _ _ K)) as Hf. rewrite Forall_forall in Hf. by apply Hf.
Qed.
End properties.

Lemma suggestions_follow_field_witness :
  answered_run 2 Examples.registered Examples.typing fresh /\
  exists v, input (Examples.run Examples.typing) = Some v /\
    ((forall query, ~ looks_for (Examples.run Examples.typing) query) ->
       options (Examples.run Examples.typing) = take 2 (Examples.registered (trim v))).
Proof.
  split; [exact Examples.typing_answered|].
  exact (proj1 (proj1 (proj2 (suggestions_follow_field 2 Examples.registered Examples.typing Examples.typing_answered))
                  ltac:(vm_compute; reflexivity))).
Defined.
